(* ===== verification/_CoqProject ===== *)
-Q . S2P
Prelude.v
Param.v
Mem.v
CString.v
Ulib.v
Grep.v
Console.v
Printf.v
Spinlock.v
Sleeplock.v
Block.v
Bio.v
BioList.v
BioSpec.v
Log.v
LogSpec.v
LogCrash.v
LogSpace.v
Fs.v
FsView.v
FsAlloc.v
FsInode.v
FsFile.v
FsRead.v
FsWrite.v
FsDir.v
FsTheorems.v
FsWitness.v
FsPath.v
Virtio.v
VirtioSpec.v
VirtioTheorems.v
Pipe.v
PipeSpec.v
PipeTheorems.v
File.v
Sysfile.v
Quiet.v
FileSpec.v
SysfileSpec.v
SysfileTheorems.v
Sh.v
ShRun.v
ShSafe.v
ShPrint.v
Sep.v
SepRun.v
Kalloc.v
Vm.v
VmSpec.v
VmUser.v
VmCopy.v
VmTheorems.v
VmImage.v
Exec.v
ExecTheorems.v
SysExec.v
Proc.v
ProcLogic.v
ProcSound.v
ProcRules.v
ProcSpec.v
ProcCalls.v
ProcTheorems.v
ProcServices.v
Sbrk.v
Umalloc.v
UmDecl.v
UmData.v
UmAlloc.v
UmBits.v
UmList.v
UmChunk.v
UmSlots.v
UmHeap.v
UmMalloc.v
UmFast.v
UmCorrect.v
UmSpec.v
UmTheorems.v
