(* ===== verification/Prelude.v ===== *)
(** * xv6-malloclab: a Rocq verification development

    The program is a small Unix kernel for RISC-V (src/kernel), its user programs
    (src/user), and a memory allocator for them (src/memory, with entry points
    in src/user/ummalloc.c).  User programs call the kernel; the kernel's
    system calls (sysfile.c, sysproc.c) use open files (file.c), which are
    pipes (pipe.c) or inodes (fs.c); inodes live in disk blocks that go through
    the log (log.c) and the buffer cache (bio.c); processes (proc.c) run under a
    scheduler on several CPUs, synchronise with spin locks and sleep locks, and
    own page tables (vm.c) made of pages from kalloc.c.  The kernel talks to a
    disk (virtio_disk.c) and to a serial port (uart.c, console.c).

    ** How code becomes definitions

    Every C function is a Rocq function of the same name, in the module named
    after its file.  Stateful and fallible code is in the monad [M S A] of this
    file: it ends in a value and a state, or in an error: [Panic] (the
    kernel's panic), [Exit], [Fault] (a wild pointer), [Undef] (undefined in C),
    [Sleeping] (the code would wait), [Spinning] (it loops for ever) or [NoFuel].
    Machine integers are [Z] with the wrap-around written out ([u8], [u32],
    [u64], [s32]).  A loop that is not structural has fuel computed from its arguments; the theorems show that
    the fuel suffices, because they state the result and not only its
    correctness.  Code that works on raw memory (string.c, kalloc.c, vm.c, the
    allocator) runs on a byte-addressed memory, [Mem.v]; code that works on
    structures runs on records with the fields of the C structures.

    ** The files

    - Prelude, Param, Mem: integers, the monad, constants, memory.
    - CString, Ulib: kernel/string.c and user/ulib.c.
    - Grep: user/grep.c; read and write are an interface with laws.
    - Console: kernel/console.c and uart.c, as code cut where it sleeps or lets go of
      its lock; events in any order, a port that answers as it likes.
    - Printf: user/printf.c and kernel/printf.c.
    - Spinlock: kernel/spinlock.c cut at its atomic instructions; any number of
      CPUs as a step relation.  Sleeplock: kernel/sleeplock.c.
    - Block, Bio, BioList, BioSpec: kernel/bio.c with its doubly linked LRU list.
    - Log, LogSpec, LogCrash, LogSpace: kernel/log.c; crashes after any
      disk write; concurrent operations and the space they reserve.
    - Fs, FsView, FsAlloc, FsInode, FsFile, FsRead, FsWrite, FsDir, FsTheorems,
      FsWitness, FsPath: kernel/fs.c, on the real cache and log.
    - Virtio, VirtioSpec, VirtioTheorems: kernel/virtio_disk.c, with the device as a
      non-deterministic environment.
    - Pipe, PipeSpec, PipeTheorems: kernel/pipe.c; readers, writers and closers in
      any order as a step relation.
    - File, Sysfile, Quiet, FileSpec, SysfileSpec, SysfileTheorems:
      kernel/file.c, the argument functions of syscall.c, and sysfile.c
      without sys_exec, which is in SysExec.  The device switch and the memory
      of the user process are parameters.
    - Sep, SepRun: a separation logic for byte memory, an instance of the
      Iris proof mode, used by kalloc.c, vm.c and the allocator.
    - Kalloc, Vm, VmSpec, VmUser, VmCopy, VmTheorems, VmImage: kernel/kalloc.c and
      kernel/vm.c, with proc_pagetable and proc_freepagetable of proc.c; page
      tables are trees in memory, and their pages are counted.
    - Exec, ExecTheorems: kernel/exec.c and elf.h.  The file system is the class
      [ExecFs] with the laws [ExecFsLaws]; what the law of readi says is proved of
      the readi of Fs in FsRead ([readi_kernel]).
    - SysExec: sys_exec of sysfile.c, with the argument functions of syscall.c on
      real page tables.
    - Proc, ProcLogic, ProcSound, ProcRules, ProcSpec, ProcCalls, ProcTheorems,
      ProcServices: kernel/proc.c, trap.c, sysproc.c and the process part of
      main.c.  A kernel thread is a tree of atomic actions, a machine
      is the CPUs, their stacks and the saved contexts; [mstep] interleaves the
      CPUs and lets timer and device interrupts occur wherever interrupts are
      on.  What processes ask of memory and files is the class [Services], which
      the theorems quantify over; ProcServices instantiates it with the
      functions of the other files.
    - Sh, ShRun, ShSafe, ShPrint: user/sh.c, its parser and runcmd.
    - Sbrk, UmDecl, UmData, UmAlloc (code), UmBits, UmList, UmChunk, UmSlots, UmHeap,
      UmMalloc, UmFast, UmCorrect (proofs), UmSpec, UmTheorems: the allocator.
    - Umalloc: user/umalloc.c, the allocator of Kernighan and Ritchie.

    ** What the theorems show

    - The allocator: mm_init establishes and mm_malloc keeps the heap invariant
      (chunks tile the heap, slots list exactly the free chunks) for requests of
      up to 61432 bytes that the kernel backs; blocks are aligned, never overlap,
      and are large enough up to one exception.  Four theorems prove defects, each
      for all states in which it shows: a tiny block can be eight bytes short,
      sizes near 4 GB wrap, sizes above 61432 leave the slots, a refused sbrk
      corrupts the heap.  The allocator of umalloc.c, for requests below 2 GB:
      blocks are apart from each other and from the free list, which stays
      circular, ordered and coalesced; requests within 15 bytes of 4 GB get
      memory the process does not have.
    - Memory: string functions agree with functions on lists; kalloc and kfree
      keep an exact list of free pages; uvmalloc grows a process or restores
      it; copyin and copyout touch exactly the accessible user bytes; uvmcopy
      gives a child its own copies of the pages of its parent, or nothing.
    - Programs in memory: exec builds the image the ELF file describes, with a guard
      page and the arguments on the stack, and frees the old one, or fails for
      one of the reasons listed and changes nothing; sys_exec passes exactly
      the strings of the caller.  No page of memory is lost on any path.
    - Disk: the cache implements a map of blocks with reference counts for every
      sequence of calls; a commit is atomic under crashes; operations that keep
      to their share never fill the header of the log, and never the log when the
      disk reserves one block more for its header; balloc, readi, writei, iupdate,
      dirlink and dirlookup do to the disk what they should; paths are split into
      their elements.
    - Devices: in every order of calls, interrupts and device actions the disk
      driver serves each request once, with the right buffer and sector, never
      panics and never deadlocks; console and port refine queues, and a line is
      read as edited.
    - Files and pipes: reference counts equal the descriptors, after every system
      call; a pipe is a queue in every interleaving, which loses a byte only when
      the reader's buffer is not accessible; its sleepers sleep for a reason and
      writes make progress; the exception, a killed writer, is proved to lose a
      wakeup.
    - Processes: mutual exclusion of the spin locks; in every interleaving no check
      of acquire, release or sched fails, exit panics for the first process only,
      no kernel stack is used twice, and no wakeup is lost between exit and wait;
      a killed flag stays until freeproc, also the one that kill(0) is proved to
      set on a free slot, for the next process made there.
    - The shell: the parser ends on every line without leaving it, prints and
      parses back every command, and runcmd gives programs the right
      descriptors.
    - Programs: grep prints the lines that match, however the file is cut into
      reads, and its matcher decides a declarative semantics; printf, in the
      kernel and in programs, prints what its format says, and after a panic the
      kernel's output is frozen.

    ** Fuel and bounds

    The fuel of a loop is the number of rounds its arguments allow: characters of
    a path or a line, blocks touched by a read or write, pages of a range,
    buffers of the cache.  [NPROC], [NOFILE], [NBUF], [LOGSIZE] and the others have
    the values of param.h.

    ** Not modelled

    - Boot and assembly: entry.S, start.c, kernelvec.S, trampoline.S, kernel.ld set
      registers and jump; swtch.S is modelled by its effect on the machine of Proc.
      kvminithart, trapinithart and the interrupt controller (plic.c) write device
      and control registers.
    - In the process model: the two checks of kerneltrap and usertrap on sstatus,
      the trapframe fields kernel_satp and kernel_trap, procdump, and the
      handlers of devices other than the timer, which appear as code that wakes
      sleepers under a lock.
    - Devices: the registers uartinit and virtio_disk_init set, and waiting for the
      port in uartputc_sync; ramdisk.c, which is not built.  The disk of Bio is a map
      from block numbers to blocks, the console a parameter of File.
    - The file system below exec: [ExecFsLaws] is assumed of it, except for readi.
      The arrays of local variables (path, argv, ustack) are memory that the
      caller of the definition provides.
    - The small user programs, short sequences of system calls; the tests
      (usertests.c, grind.c, forktest.c, stressfs.c, ummalloc_test.c); the traces of
      requests under src/traces. *)
From stdpp Require Export base tactics numbers list strings gmap fin_maps.
From Stdlib Require Export ZArith Lia.

#[global] Open Scope Z_scope.

(** ** Machine integers *)

Declare Scope c_scope.
Delimit Scope c_scope with c.

(** [wrap w z] is the value a [w]-bit unsigned C object holds after [z] is
    assigned to it. *)
Definition wrap (w z : Z) : Z := z `mod` 2 ^ w.

Abbreviation u8 := (wrap 8).
Abbreviation u16 := (wrap 16).
Abbreviation u32 := (wrap 32).
Abbreviation u64 := (wrap 64).

(** [swrap w z] is the same for a [w]-bit two's complement object. *)
Definition swrap (w z : Z) : Z := (z + 2 ^ (w - 1)) `mod` 2 ^ w - 2 ^ (w - 1).

Abbreviation s8 := (swrap 8).
Abbreviation s16 := (swrap 16).
Abbreviation s32 := (swrap 32).
Abbreviation s64 := (swrap 64).

Lemma wrap_small w z : 0 ≤ z < 2 ^ w → wrap w z = z.
Proof. apply Z.mod_small. Qed.

Lemma wrap_range w z : 0 ≤ w → 0 ≤ wrap w z < 2 ^ w.
Proof. intros. apply Z.mod_pos_bound, Z.pow_pos_nonneg; lia. Qed.

Lemma wrap_idemp w z : 0 ≤ w → wrap w (wrap w z) = wrap w z.
Proof. intros. by apply wrap_small, wrap_range. Qed.

Lemma swrap_small w z : 0 < w → - 2 ^ (w - 1) ≤ z < 2 ^ (w - 1) → swrap w z = z.
Proof.
  intros Hw Hz. unfold swrap.
  assert (2 ^ w = 2 * 2 ^ (w - 1)) as Hp.
  { rewrite <- Z.pow_succ_r by lia. f_equal. lia. }
  rewrite Z.mod_small; lia.
Qed.

Lemma land_wrap w x y : 0 ≤ w → 0 ≤ x < 2 ^ w → Z.land x (wrap w y) = Z.land x y.
Proof.
  intros Hw Hx. unfold wrap. rewrite <- Z.land_ones by lia.
  rewrite (Z.land_comm y), Z.land_assoc. f_equal.
  rewrite Z.land_ones by lia. by apply Z.mod_small.
Qed.

(** Bits put below those of an aligned value add up. *)
Lemma lor_low k a m : 0 ≤ k → a `mod` 2 ^ k = 0 → 0 ≤ m < 2 ^ k → Z.lor a m = a + m.
Proof.
  intros Hk Ha Hm.
  assert (Z.land a m = 0) as Hl.
  { rewrite <- (Z.mod_small m (2 ^ k)), <- Z.land_ones by lia.
    rewrite (Z.land_comm m), Z.land_assoc, Z.land_ones, Ha by lia. apply Z.land_0_l. }
  by rewrite <- Z.lxor_lor, <- Z.add_nocarry_lxor.
Qed.

Lemma lor_range k a b : 0 ≤ k → 0 ≤ a < 2 ^ k → 0 ≤ b < 2 ^ k → 0 ≤ Z.lor a b < 2 ^ k.
Proof.
  intros Hk Ha Hb. assert (Z.lor a b = Z.lor a b `mod` 2 ^ k) as ->.
  { rewrite <- Z.land_ones, Z.land_lor_distr_l, !Z.land_ones, !Z.mod_small by lia. done. }
  apply Z.mod_pos_bound. lia.
Qed.

(** Linear arithmetic with division and remainder by constants. *)
Ltac dlia := Z.div_mod_to_equations; lia.

(** C conditions: a scalar is true when it is not zero. *)
Definition truth (z : Z) : bool := negb (z =? 0).
Definition b2z (b : bool) : Z := if b then 1 else 0.

(** ** Outcomes of a run *)

(** How an execution can stop without returning: a kernel [panic], a user
    [exit], an access outside the mapped memory, behaviour the C standard
    leaves undefined, a [sleep] on a channel, an endless loop, or the model's
    fuel. *)
Inductive err :=
| Panic (msg : string)
| Exit (status : Z)
| Fault (addr : Z)
| Undef (what : string)
| Sleeping (chan : Z)
| Spinning
| NoFuel.

#[export] Instance err_eq_dec : EqDecision err.
Proof. solve_decision. Defined.

Inductive outcome (S A : Type) :=
| Ok (a : A) (s : S)
| Err (e : err).
Arguments Ok {S A} a s.
Arguments Err {S A} e.

(** Stateful, fallible code: state in, outcome out. *)
Definition M (S A : Type) : Type := S → outcome S A.

#[export] Instance M_ret S : MRet (M S) := λ A a s, Ok a s.
#[export] Instance M_bind S : MBind (M S) := λ A B k m s,
  match m s with
  | Ok a s' => k a s'
  | Err e => Err e
  end.

Section monad.
Context {S : Type}.
Implicit Types s : S.

Definition fail {A} (e : err) : M S A := λ _, Err e.
Definition get : M S S := λ s, Ok s s.
Definition gets {A} (f : S → A) : M S A := λ s, Ok (f s) s.
Definition put (s : S) : M S unit := λ _, Ok () s.
Definition modify (f : S → S) : M S unit := λ s, Ok () (f s).
Definition when (b : bool) (m : M S unit) : M S unit := if b then m else mret ().

(** A signed 32-bit result; overflow is undefined in C. *)
Definition int32 (z : Z) : M S Z :=
  if (- 2 ^ 31 <=? z) && (z <? 2 ^ 31) then mret z else fail (Undef "signed overflow").

(** Run [m] with a bound computed from the state. *)
Definition with_state {A} (f : S → M S A) : M S A := λ s, f s s.

Lemma bind_ok {A B} (m : M S A) (k : A → M S B) s a s' :
  m s = Ok a s' → (m ≫= k) s = k a s'.
Proof. intros H. unfold mbind, M_bind. by rewrite H. Qed.

Lemma ret_bind {A B} (a : A) (k : A → M S B) s : (mret a ≫= k) s = k a s.
Proof. done. Qed.

Lemma bind_err {A B} (m : M S A) (k : A → M S B) s e :
  m s = Err e → (m ≫= k) s = Err e.
Proof. intros H. unfold mbind, M_bind. by rewrite H. Qed.

Lemma bind_inv_ok {A B} (m : M S A) (k : A → M S B) s b s'' :
  (m ≫= k) s = Ok b s'' → ∃ a s', m s = Ok a s' ∧ k a s' = Ok b s''.
Proof. unfold mbind, M_bind. destruct (m s) as [a s'|]; naive_solver. Qed.

Lemma bind_assoc {A B C} (m : M S A) (k : A → M S B) (l : B → M S C) s :
  ((m ≫= k) ≫= l) s = (m ≫= λ a, k a ≫= l) s.
Proof. unfold mbind, M_bind. by destruct (m s). Qed.
End monad.

(** Symbolic execution of a run in the goal: [runs H] replaces the first call by
    its result, given by the equation [H]. *)
Tactic Notation "runs" uconstr(H) := erewrite bind_ok by (first [exact H|eapply H]); cbv beta.

Tactic Notation "runs" uconstr(H) "by" tactic3(t) := erewrite bind_ok by (eapply H; t); cbv beta.

(** Lifting code of a component to the state of a system that contains it. *)
Definition zoom {S T A} (proj : S → T) (inj : T → S → S) (m : M T A) : M S A := λ s,
  match m (proj s) with
  | Ok a t => Ok a (inj t s)
  | Err e => Err e
  end.
