(* ===== verification/Param.v ===== *)
(** * kernel/param.h and kernel/fcntl.h: constants several components share *)
From S2P Require Import Prelude.

(** Processes in the table, open files of one process. *)
Definition NPROC : nat := 64.
Definition NOFILE : nat := 16.

(** Arguments of [exec], characters of a path. *)
Definition MAXARG : Z := 32.
Definition MAXPATH : Z := 128.

(** The modes of [open]. *)
Definition O_RDONLY : Z := 0.
Definition O_WRONLY : Z := 1.
Definition O_RDWR : Z := 2.
Definition O_CREATE : Z := 512.
Definition O_TRUNC : Z := 1024.
