(* ===== verification/Mem.v ===== *)
(** * Byte-addressed memory

    Both halves of the system run on a flat byte memory: the user library on
    the process image that [sbrk] extends, the kernel on physical RAM.  A
    memory is a finite map from addresses to bytes; an address that is not in
    the map is not mapped, and touching it is a [Fault].  Multi-byte accesses
    are little-endian, as on RISC-V. *)
From S2P Require Import Prelude.

Abbreviation bytemap := (gmap Z Z).

(** Values as lists of bytes, least significant byte first. *)
Fixpoint le_split (n : nat) (v : Z) : list Z :=
  match n with
  | O => []
  | S n => v `mod` 256 :: le_split n (v / 256)
  end.

Fixpoint le_combine (bs : list Z) : Z :=
  match bs with
  | [] => 0
  | b :: bs => b + 256 * le_combine bs
  end.

(** [n] consecutive bytes from [a] on; [None] when one of them is unmapped. *)
Fixpoint loadbytes (n : nat) (m : bytemap) (a : Z) : option (list Z) :=
  match n with
  | O => Some []
  | S n => b ← m !! a; bs ← loadbytes n m (a + 1); Some (b :: bs)
  end.

Fixpoint storebytes (m : bytemap) (a : Z) (bs : list Z) : option bytemap :=
  match bs with
  | [] => Some m
  | b :: bs => _ ← m !! a; m' ← storebytes m (a + 1) bs; Some (<[a := b]> m')
  end.

(** The map whose domain is [a, a + length bs). *)
Fixpoint seqmap (a : Z) (bs : list Z) : bytemap :=
  match bs with
  | [] => ∅
  | b :: bs => <[a := b]> (seqmap (a + 1) bs)
  end.

(** A machine state: memory plus whatever else the program keeps. *)
Record st (G : Type) := mkst { mem : bytemap; glob : G }.
Arguments mkst {G} _ _.
Arguments mem {G} _.
Arguments glob {G} _.

Section access.
Context {G : Type}.

Definition load (n : nat) (a : Z) : M (st G) Z := λ s,
  match loadbytes n (mem s) a with
  | Some bs => Ok (le_combine bs) s
  | None => Err (Fault a)
  end.

Definition store (n : nat) (a v : Z) : M (st G) unit := λ s,
  match storebytes (mem s) a (le_split n v) with
  | Some m => Ok () (mkst m (glob s))
  | None => Err (Fault a)
  end.

(** Access to the part of the state that is not memory. *)
Definition getg {A} (f : G → A) : M (st G) A := λ s, Ok (f (glob s)) s.
Definition setg (f : G → G) : M (st G) unit := λ s, Ok () (mkst (mem s) (f (glob s))).
End access.

(** ** Byte lists *)

Definition is_byte (b : Z) : Prop := 0 ≤ b < 256.

Lemma length_le_split n v : length (le_split n v) = n.
Proof. revert v; induction n; intros; simpl; auto. Qed.

Lemma le_split_bytes n v : Forall is_byte (le_split n v).
Proof.
  revert v; induction n; intros; simpl; constructor; auto.
  unfold is_byte. apply Z.mod_pos_bound. lia.
Qed.

Lemma le_combine_split n v :
  0 ≤ v < 256 ^ Z.of_nat n → le_combine (le_split n v) = v.
Proof.
  revert v; induction n as [|n IH]; intros v Hv.
  - simpl in *. lia.
  - cbn [le_split le_combine]. rewrite IH.
    + pose proof (Z.div_mod v 256). lia.
    + rewrite Nat2Z.inj_succ, Z.pow_succ_r in Hv by lia.
      split; [apply Z.div_pos; lia|]. apply Z.div_lt_upper_bound; lia.
Qed.

Lemma le_combine_range bs :
  Forall is_byte bs → 0 ≤ le_combine bs < 256 ^ Z.of_nat (length bs).
Proof.
  induction 1 as [|b bs Hb _ IH]; [simpl; lia|].
  cbn [le_combine length]. rewrite Nat2Z.inj_succ, Z.pow_succ_r by lia.
  unfold is_byte in Hb. lia.
Qed.

Lemma le_split_combine bs :
  Forall is_byte bs → le_split (length bs) (le_combine bs) = bs.
Proof.
  induction 1 as [|b bs Hb _ IH]; [done|]. cbn [le_combine length le_split].
  unfold is_byte in Hb.
  rewrite (Z.mul_comm 256), Z.mod_add, Z.div_add, Z.mod_small, Z.div_small by lia.
  by rewrite Z.add_0_l, IH.
Qed.

(** ** Address ranges *)

Lemma seqmap_lookup_None a bs i :
  i < a ∨ a + Z.of_nat (length bs) ≤ i → seqmap a bs !! i = None.
Proof.
  revert a; induction bs as [|b bs IH]; intros a Hi; [done|].
  simpl in *. rewrite lookup_insert_ne by lia. apply IH. lia.
Qed.

Lemma seqmap_lookup_Some a bs (i : nat) :
  seqmap a bs !! (a + Z.of_nat i) = bs !! i.
Proof.
  revert a i; induction bs as [|b bs IH]; intros a i; [done|].
  destruct i as [|i]; simpl.
  - by rewrite Z.add_0_r, lookup_insert_eq.
  - rewrite lookup_insert_ne by lia.
    replace (a + Z.of_nat (S i)) with (a + 1 + Z.of_nat i) by lia. apply IH.
Qed.

Lemma seqmap_lookup_inv a bs i x :
  seqmap a bs !! i = Some x →
  a ≤ i < a + Z.of_nat (length bs) ∧ bs !! Z.to_nat (i - a) = Some x.
Proof.
  intros H. destruct (decide (a ≤ i < a + Z.of_nat (length bs))) as [Hr|Hr].
  - split; [done|]. rewrite <- (seqmap_lookup_Some a).
    by replace (a + Z.of_nat (Z.to_nat (i - a))) with i by lia.
  - rewrite seqmap_lookup_None in H by lia. done.
Qed.

Lemma seqmap_app a bs1 bs2 :
  seqmap a (bs1 ++ bs2) = seqmap a bs1 ∪ seqmap (a + Z.of_nat (length bs1)) bs2.
Proof.
  revert a; induction bs1 as [|b bs1 IH]; intros a; simpl.
  - by rewrite (left_id_L ∅ (∪)), Z.add_0_r.
  - rewrite IH, insert_union_l.
    replace (a + 1 + Z.of_nat (length bs1)) with (a + Z.of_nat (S (length bs1))) by lia.
    done.
Qed.

Lemma seqmap_disjoint a1 bs1 a2 bs2 :
  a1 + Z.of_nat (length bs1) ≤ a2 ∨ a2 + Z.of_nat (length bs2) ≤ a1 →
  seqmap a1 bs1 ##ₘ seqmap a2 bs2.
Proof.
  intros H. apply map_disjoint_spec. intros i x y H1 H2.
  apply seqmap_lookup_inv in H1, H2. lia.
Qed.

(** The bytes of a range are found wherever the range is part of the memory. *)
Lemma loadbytes_spec m a bs :
  seqmap a bs ⊆ m → loadbytes (length bs) m a = Some bs.
Proof.
  revert a; induction bs as [|b bs IH]; intros a Hsub; [done|]. simpl in *.
  rewrite (lookup_weaken (<[a:=b]> (seqmap (a + 1) bs)) m a b) by
    (by rewrite ?lookup_insert_eq). simpl.
  rewrite IH; [done|]. etrans; [|exact Hsub].
  apply insert_subseteq, seqmap_lookup_None. lia.
Qed.

Lemma dom_seqmap_same a bs bs' :
  length bs = length bs' → dom (seqmap a bs) = dom (seqmap a bs').
Proof.
  revert a bs'; induction bs as [|b bs IH]; intros a [|b' bs'] Hl; try done.
  simpl. rewrite !dom_insert_L. f_equal. apply IH. simpl in Hl. lia.
Qed.

Lemma storebytes_spec a bs bs' (m : bytemap) :
  length bs = length bs' → seqmap a bs ##ₘ m →
  storebytes (seqmap a bs ∪ m) a bs' = Some (seqmap a bs' ∪ m).
Proof.
  revert a bs' m; induction bs as [|b bs IH]; intros a [|b' bs'] m Hl Hd; try done.
  simpl in *. apply map_disjoint_insert_l in Hd as [Hma Hd].
  rewrite <- insert_union_l, lookup_insert_eq. simpl.
  rewrite insert_union_r by (apply seqmap_lookup_None; lia).
  rewrite IH; [|lia|].
  - simpl. f_equal. rewrite <- insert_union_r, insert_insert_eq, insert_union_l; [done|].
    apply seqmap_lookup_None. lia.
  - apply map_disjoint_insert_r. split; [|done]. apply seqmap_lookup_None. lia.
Qed.
