(* ===== verification/CString.v ===== *)
(** * kernel/string.c and the string functions of user/ulib.c

    Both libraries work on raw bytes; [char] is unsigned on RISC-V.  Loops that
    stop at a NUL byte are bounded by the number of mapped bytes: every
    iteration reads another address, so the bound is never the reason to stop. *)
From S2P Require Import Prelude Mem.

Section cstring.
Context {G : Type}.
Implicit Types (s : st G) (m : bytemap).

(** ** kernel/string.c *)

Fixpoint memset_loop (cdst c i : Z) (n : nat) : M (st G) unit :=
  match n with
  | O => mret ()
  | S n => store 1 (cdst + i) (u8 c);; memset_loop cdst c (i + 1) n
  end.

Definition memset (dst c n : Z) : M (st G) Z :=
  memset_loop dst c 0 (Z.to_nat (u32 n));;
  mret dst.

Fixpoint memcmp_loop (s1 s2 : Z) (n : nat) : M (st G) Z :=
  match n with
  | O => mret 0
  | S n =>
      a ← load 1 s1;
      b ← load 1 s2;
      if negb (a =? b) then mret (a - b) else memcmp_loop (s1 + 1) (s2 + 1) n
  end.

Definition memcmp (v1 v2 n : Z) : M (st G) Z := memcmp_loop v1 v2 (Z.to_nat (u32 n)).

(** [while(n-- > 0) *d++ = *s++;] *)
Fixpoint copy_up (d s : Z) (n : nat) : M (st G) unit :=
  match n with
  | O => mret ()
  | S n => c ← load 1 s; store 1 d c;; copy_up (d + 1) (s + 1) n
  end.

(** [while(n-- > 0) *--d = *--s;] *)
Fixpoint copy_down (d s : Z) (n : nat) : M (st G) unit :=
  match n with
  | O => mret ()
  | S n => c ← load 1 (s - 1); store 1 (d - 1) c;; copy_down (d - 1) (s - 1) n
  end.

Definition memmove (dst src n : Z) : M (st G) Z :=
  let n := u32 n in
  if n =? 0 then mret dst else
  (if (src <? dst) && (dst <? src + n) then copy_down (dst + n) (src + n) (Z.to_nat n)
   else copy_up dst src (Z.to_nat n));;
  mret dst.

Definition memcpy (dst src n : Z) : M (st G) Z := memmove dst src n.

(** The difference of the two bytes the comparison stopped at. *)
Definition byte_diff (p q : Z) : M (st G) Z :=
  a ← load 1 p; b ← load 1 q; mret (a - b).

Fixpoint strncmp_loop (p q : Z) (n : nat) : M (st G) Z :=
  match n with
  | O => mret 0
  | S n =>
      a ← load 1 p;
      if truth a then
        b ← load 1 q;
        if a =? b then strncmp_loop (p + 1) (q + 1) n else byte_diff p q
      else byte_diff p q
  end.

Definition strncmp (p q n : Z) : M (st G) Z := strncmp_loop p q (Z.to_nat (u32 n)).

(** The copying loop of [strncpy]: where it stopped and how many bytes of the
    destination are left. *)
Fixpoint strncpy_copy (s t : Z) (n : nat) : M (st G) (Z * nat) :=
  match n with
  | O => mret (s, O)
  | S n =>
      c ← load 1 t;
      store 1 s c;;
      if truth c then strncpy_copy (s + 1) (t + 1) n else mret (s + 1, n)
  end.

Fixpoint strncpy_fill (s : Z) (n : nat) : M (st G) unit :=
  match n with
  | O => mret ()
  | S n => store 1 s 0;; strncpy_fill (s + 1) n
  end.

Definition strncpy (s t n : Z) : M (st G) Z :=
  '(s', n') ← strncpy_copy s t (Z.to_nat (s32 n));
  strncpy_fill s' n';;
  mret s.

(** The loop of [safestrcpy] with [n] iterations left; the pointer it ends at. *)
Fixpoint safestrcpy_loop (s t : Z) (n : nat) : M (st G) Z :=
  match n with
  | O => mret s
  | S n =>
      c ← load 1 t;
      store 1 s c;;
      if truth c then safestrcpy_loop (s + 1) (t + 1) n else mret (s + 1)
  end.

Definition safestrcpy (s t n : Z) : M (st G) Z :=
  let n := s32 n in
  if n <=? 0 then mret s else
  s' ← safestrcpy_loop s t (Z.to_nat (n - 1));
  store 1 s' 0;;
  mret s.

Fixpoint strlen_loop (s n : Z) (fuel : nat) : M (st G) Z :=
  match fuel with
  | O => fail NoFuel
  | S fuel => c ← load 1 (s + n); if truth c then strlen_loop s (n + 1) fuel else mret n
  end.

Definition strlen (s : Z) : M (st G) Z :=
  with_state (λ σ, strlen_loop s 0 (S (size (mem σ)))).
End cstring.

(** ** Correctness *)

Section proofs.
Context {G : Type}.
Implicit Types (m : bytemap) (g : G).

Lemma load1 m g a b : m !! a = Some b → load 1 a (mkst m g) = Ok b (mkst m g).
Proof. intros H. unfold load. simpl. rewrite H. simpl. f_equal. lia. Qed.

Lemma store1 m g a b v :
  m !! a = Some b → is_byte v → store 1 a v (mkst m g) = Ok () (mkst (<[a:=v]> m) g).
Proof.
  intros H Hv. unfold store. simpl. rewrite H. simpl. unfold is_byte in Hv.
  by rewrite Z.mod_small by lia.
Qed.

(** All the bytes of a range are mapped and are bytes. *)
Definition holds m (a : Z) (bs : list Z) : Prop := loadbytes (length bs) m a = Some bs ∧ Forall is_byte bs.

Lemma holds_cons m a b bs : holds m a (b :: bs) ↔ m !! a = Some b ∧ is_byte b ∧ holds m (a + 1) bs.
Proof.
  unfold holds. simpl. rewrite Forall_cons. destruct (m !! a) as [c|]; simpl; [|naive_solver].
  destruct (loadbytes (length bs) m (a + 1)); simpl; naive_solver.
Qed.

Lemma holds_lookup m a bs (i : nat) b : holds m a bs → bs !! i = Some b → m !! (a + Z.of_nat i) = Some b.
Proof.
  revert a i; induction bs as [|c bs IH]; intros a i H Hi; [done|].
  apply holds_cons in H as (Hc & _ & H). destruct i as [|i]; simpl in *.
  - rewrite Z.add_0_r. congruence.
  - replace (a + Z.of_nat (S i)) with (a + 1 + Z.of_nat i) by lia. by apply IH.
Qed.

Lemma holds_app m a bs1 bs2 :
  holds m a (bs1 ++ bs2) ↔ holds m a bs1 ∧ holds m (a + Z.of_nat (length bs1)) bs2.
Proof.
  revert a; induction bs1 as [|b bs1 IH]; intros a; simpl.
  - rewrite Z.add_0_r. unfold holds at 2. simpl. naive_solver.
  - rewrite !holds_cons, IH. replace (a + 1 + Z.of_nat (length bs1)) with
      (a + Z.of_nat (S (length bs1))) by lia. naive_solver.
Qed.

Lemma holds_insert m a bs i v :
  i < a ∨ a + Z.of_nat (length bs) ≤ i → holds (<[i:=v]> m) a bs ↔ holds m a bs.
Proof.
  revert a; induction bs as [|b bs IH]; intros a Hi; [done|]. simpl in Hi.
  rewrite !holds_cons, lookup_insert_ne, IH by lia. done.
Qed.

(** [splice m a bs]: the memory with the bytes [bs] written from [a] on. *)
Fixpoint splice m (a : Z) (bs : list Z) : bytemap :=
  match bs with [] => m | b :: bs => <[a := b]> (splice m (a + 1) bs) end.

Lemma splice_insert m a bs i v :
  i < a ∨ a + Z.of_nat (length bs) ≤ i → splice (<[i:=v]> m) a bs = <[i:=v]> (splice m a bs).
Proof.
  revert a; induction bs as [|b bs IH]; intros a Hi; [done|]. simpl in *.
  rewrite IH by lia. apply insert_insert_ne. lia.
Qed.

Lemma splice_app m a bs1 bs2 :
  splice m a (bs1 ++ bs2) = splice (splice m (a + Z.of_nat (length bs1)) bs2) a bs1.
Proof.
  revert a; induction bs1 as [|b bs1 IH]; intros a; simpl; [by rewrite Z.add_0_r|].
  rewrite IH. by replace (a + 1 + Z.of_nat (length bs1)) with (a + Z.of_nat (S (length bs1))) by lia.
Qed.

Lemma splice_outside m a bs i : i < a ∨ a + Z.of_nat (length bs) ≤ i → splice m a bs !! i = m !! i.
Proof.
  revert a; induction bs as [|b bs IH]; intros a Hi; [done|]. simpl in *.
  rewrite lookup_insert_ne by lia. apply IH. lia.
Qed.

Lemma splice_holds m a bs : Forall is_byte bs → holds (splice m a bs) a bs.
Proof.
  revert a; induction bs as [|b bs IH]; intros a H; [by split|]. inversion H; subst.
  apply holds_cons. simpl. rewrite lookup_insert_eq. split_and!; [done..|].
  apply holds_insert; [lia|]. by apply IH.
Qed.

Definition mapped m (a : Z) (n : nat) : Prop := ∀ i, a ≤ i < a + Z.of_nat n → is_Some (m !! i).

Lemma mapped_insert m a n i v : mapped m a n → mapped (<[i:=v]> m) a n.
Proof. intros H j Hj. rewrite lookup_insert_is_Some'. right. auto. Qed.

Lemma mapped_splice m a n b bs : mapped m a n → mapped (splice m b bs) a n.
Proof. revert b; induction bs as [|x bs IH]; intros b H; simpl; [done|]. by apply mapped_insert, IH. Qed.

Lemma mapped_weaken m a n a' n' :
  mapped m a n → a ≤ a' → a' + Z.of_nat n' ≤ a + Z.of_nat n → mapped m a' n'.
Proof. intros H H1 H2 i Hi. apply H. lia. Qed.

Lemma copy_up_spec m g d s bs :
  holds m s bs → mapped m d (length bs) → d ≤ s ∨ s + Z.of_nat (length bs) ≤ d →
  copy_up d s (length bs) (mkst m g) = Ok () (mkst (splice m d bs) g).
Proof.
  revert m d s; induction bs as [|b bs IH]; intros m d s Hs Hd Ho; [done|]. simpl in *.
  apply holds_cons in Hs as (Hb & Hbb & Hs). destruct (Hd d) as [x Hx]; [lia|].
  runs (load1 m g s b Hb). runs (store1 m g d x b Hx Hbb).
  rewrite IH; [by rewrite splice_insert by lia|by apply holds_insert; [lia|]| |lia].
  apply mapped_insert, (mapped_weaken _ _ _ _ _ Hd); lia.
Qed.

Lemma copy_down_spec m g d s bs :
  let n := Z.of_nat (length bs) in
  holds m s bs → mapped m d (length bs) → s ≤ d ∨ d + n ≤ s →
  copy_down (d + n) (s + n) (length bs) (mkst m g) = Ok () (mkst (splice m d bs) g).
Proof.
  revert m; induction bs as [|b bs IH] using rev_ind; intros m n Hs Hd Ho; [done|].
  subst n. rewrite length_app, Nat.add_1_r in *. simpl.
  apply holds_app in Hs as [Hs Hb]. apply holds_cons in Hb as (Hb & Hbb & _).
  destruct (Hd (d + Z.of_nat (length bs))) as [x Hx]; [lia|].
  replace (s + Z.of_nat (S (length bs)) - 1) with (s + Z.of_nat (length bs)) by lia.
  replace (d + Z.of_nat (S (length bs)) - 1) with (d + Z.of_nat (length bs)) by lia.
  runs (load1 m g _ b Hb). runs (store1 m g _ x b Hx Hbb).
  rewrite IH; [|apply holds_insert; [lia|done]| |lia].
  - by rewrite splice_app.
  - apply mapped_insert, (mapped_weaken _ _ _ _ _ Hd); lia.
Qed.

(** A NUL-terminated string at [a] with the characters [l]. *)
Definition cstr m (a : Z) (l : list Z) : Prop := holds m a (l ++ [0]) ∧ Forall (λ b, b ≠ 0) l.

Lemma cstr_nil m a : cstr m a [] ↔ m !! a = Some 0.
Proof.
  unfold cstr. simpl. rewrite holds_cons. split; [naive_solver|].
  intros H. split; [|done]. by split_and!.
Qed.

Lemma cstr_cons m a b l : cstr m a (b :: l) ↔ m !! a = Some b ∧ is_byte b ∧ b ≠ 0 ∧ cstr m (a + 1) l.
Proof. unfold cstr. simpl. rewrite holds_cons, Forall_cons. naive_solver. Qed.

Lemma truth_ne b : b ≠ 0 → truth b = true.
Proof. intros H. unfold truth. by destruct (Z.eqb_spec b 0). Qed.

(** A range has at most as many bytes as the memory. *)
Lemma holds_size m a bs : holds m a bs → (length bs ≤ size m)%nat.
Proof.
  revert m a; induction bs as [|b bs IH]; intros m a H; simpl; [lia|].
  apply holds_cons in H as (Hb & _ & H).
  assert (holds (delete a m) (a + 1) bs) as H'.
  { rewrite <- (holds_insert _ _ _ a b) by lia. by rewrite insert_delete_id. }
  apply IH in H'. rewrite map_size_delete_Some in H' by eauto.
  assert (size m ≠ 0%nat); [|lia]. rewrite map_size_ne_0_lookup. eauto.
Qed.

Lemma strlen_loop_spec m g a l n fuel :
  cstr m (a + n) l → (length l < fuel)%nat →
  strlen_loop a n fuel (mkst m g) = Ok (n + Z.of_nat (length l)) (mkst m g).
Proof.
  revert n fuel; induction l as [|b l IH]; intros n [|fuel] Hl Hf; simpl in *; try lia.
  - apply cstr_nil in Hl. runs (load1 m g _ 0 Hl). unfold mret, M_ret. simpl. f_equal. lia.
  - apply cstr_cons in Hl as (Hb & _ & Hn & Hl). runs (load1 m g _ b Hb). rewrite truth_ne by done.
    rewrite IH; [f_equal; lia| |lia]. by rewrite Z.add_assoc.
Qed.

Lemma cstr_size m a l : cstr m a l → (length l < size m)%nat.
Proof. intros [H _]. apply holds_size in H. rewrite length_app in H. simpl in H. lia. Qed.

Lemma strlen_spec m g a l :
  cstr m a l → strlen a (mkst m g) = Ok (Z.of_nat (length l)) (mkst m g).
Proof.
  intros Hl. unfold strlen, with_state. rewrite (strlen_loop_spec _ _ _ l); [done| |].
  - by rewrite Z.add_0_r.
  - apply cstr_size in Hl. simpl. lia.
Qed.

(** The comparison of two strings as lists of characters: the difference of the
    first pair that differs, the terminator counting as zero. *)
Fixpoint str_compare (l k : list Z) : Z :=
  match l, k with
  | [], [] => 0
  | [], b :: _ => - b
  | a :: _, [] => a
  | a :: l, b :: k => if a =? b then str_compare l k else a - b
  end.

Lemma byte_diff_spec m g p q a b :
  m !! p = Some a → m !! q = Some b → byte_diff p q (mkst m g) = Ok (a - b) (mkst m g).
Proof. intros Ha Hb. unfold byte_diff. runs (load1 m g p a Ha). by runs (load1 m g q b Hb). Qed.

(** ** Copies of bounded length *)

Lemma safestrcpy_loop_spec m g s t l n :
  cstr m t l → mapped m s (S n) → s + Z.of_nat n < t ∨ t + Z.of_nat (length l) < s →
  let out := if (length l <? n)%nat then l ++ [0] else take n l in
  safestrcpy_loop s t n (mkst m g) = Ok (s + Z.of_nat (length out)) (mkst (splice m s out) g).
Proof.
  revert m s t n; induction l as [|b l IH]; intros m s t [|n] Hl Hm Ho; simpl in *.
  - by rewrite Z.add_0_r.
  - apply cstr_nil in Hl. runs (load1 m g t 0 Hl). destruct (Hm s) as [x Hx]; [lia|].
    by runs (store1 m g s x 0 Hx ltac:(done)).
  - by rewrite Z.add_0_r.
  - apply cstr_cons in Hl as (Hb & Hbb & Hn & Hl). runs (load1 m g t b Hb).
    destruct (Hm s) as [x Hx]; [lia|]. runs (store1 m g s x b Hx Hbb). rewrite truth_ne by done.
    change (S (length l) <? S n)%nat with (length l <? n)%nat.
    rewrite IH.
    + destruct (length l <? n)%nat; simpl; rewrite splice_insert by lia; f_equal; lia.
    + split; [|apply Hl]. apply holds_insert; [|apply Hl]. rewrite length_app. simpl. lia.
    + apply mapped_insert, (mapped_weaken _ _ _ _ _ Hm); lia.
    + lia.
Qed.
End proofs.
