(* ===== verification/Ulib.v ===== *)
(** * user/ulib.c and the theorems on both string libraries

    The user library repeats most of kernel/string.c, with its own [memmove];
    the theorems compare the two. *)
From S2P Require Import Prelude Mem CString.

Section ulib.
Context {G : Type}.

Fixpoint strcpy_loop (s t : Z) (fuel : nat) : M (st G) unit :=
  match fuel with
  | O => fail NoFuel
  | S fuel =>
      c ← load 1 t;
      store 1 s c;;
      if truth c then strcpy_loop (s + 1) (t + 1) fuel else mret ()
  end.

Definition strcpy (s t : Z) : M (st G) Z :=
  with_state (λ σ, strcpy_loop s t (S (size (mem σ))));;
  mret s.

Fixpoint strcmp_loop (p q : Z) (fuel : nat) : M (st G) Z :=
  match fuel with
  | O => fail NoFuel
  | S fuel =>
      a ← load 1 p;
      if truth a then
        b ← load 1 q;
        if a =? b then strcmp_loop (p + 1) (q + 1) fuel else byte_diff p q
      else byte_diff p q
  end.

Definition strcmp (p q : Z) : M (st G) Z :=
  with_state (λ σ, strcmp_loop p q (S (size (mem σ)))).

Definition strlen (s : Z) : M (st G) Z := n ← CString.strlen s; mret (u32 n).

Definition memset (dst c n : Z) : M (st G) Z :=
  memset_loop dst c 0 (Z.to_nat (u32 n));;
  mret dst.

Fixpoint strchr_loop (s c : Z) (fuel : nat) : M (st G) Z :=
  match fuel with
  | O => fail NoFuel
  | S fuel =>
      a ← load 1 s;
      if truth a then if a =? c then mret s else strchr_loop (s + 1) c fuel
      else mret 0
  end.

Definition strchr (s c : Z) : M (st G) Z :=
  with_state (λ σ, strchr_loop s (u8 c) (S (size (mem σ)))).

(** [gets], the system call [read(0, &c, 1)] being the argument [read1]: its
    result and the byte it stored. *)
Fixpoint gets_loop (read1 : M (st G) (Z * Z)) (buf i : Z) (n : nat) : M (st G) Z :=
  match n with
  | O => mret i
  | S n =>
      '(cc, c) ← read1;
      if cc <? 1 then mret i else
      store 1 (buf + i) c;;
      if (c =? 10) || (c =? 13) then mret (i + 1) else gets_loop read1 buf (i + 1) n
  end.

Definition gets (read1 : M (st G) (Z * Z)) (buf max : Z) : M (st G) Z :=
  i ← gets_loop read1 buf 0 (Z.to_nat (s32 max - 1));
  store 1 (buf + i) 0;;
  mret buf.

Fixpoint atoi_loop (s n : Z) (fuel : nat) : M (st G) Z :=
  match fuel with
  | O => fail NoFuel
  | S fuel =>
      c ← load 1 s;
      if (48 <=? c) && (c <=? 57) then
        n10 ← int32 (n * 10);
        n1 ← int32 (n10 + c);
        n2 ← int32 (n1 - 48);
        atoi_loop (s + 1) n2 fuel
      else mret n
  end.

Definition atoi (s : Z) : M (st G) Z :=
  with_state (λ σ, atoi_loop s 0 (S (size (mem σ)))).

Definition memmove (vdst vsrc n : Z) : M (st G) Z :=
  let n := s32 n in
  (if vdst <? vsrc then copy_up vdst vsrc (Z.to_nat n)
   else copy_down (vdst + n) (vsrc + n) (Z.to_nat n));;
  mret vdst.

Definition memcmp (s1 s2 n : Z) : M (st G) Z := memcmp_loop s1 s2 (Z.to_nat (u32 n)).

Definition memcpy (dst src n : Z) : M (st G) Z := memmove dst src n.
End ulib.


Section proofs.
Context {G : Type}.
Implicit Types (m : bytemap) (g : G).

Lemma strcmp_loop_spec m g p q l k fuel :
  cstr m p l → cstr m q k → (length l < fuel)%nat →
  strcmp_loop p q fuel (mkst m g) = Ok (str_compare l k) (mkst m g).
Proof.
  revert p q k fuel; induction l as [|a l IH]; intros p q k [|fuel] Hl Hk Hf; simpl in *; try lia.
  - apply cstr_nil in Hl. runs (load1 m g p 0 Hl). cbn. destruct k as [|b k].
    + apply cstr_nil in Hk. by rewrite (byte_diff_spec _ _ _ _ 0 0).
    + apply cstr_cons in Hk as (Hb & _). by rewrite (byte_diff_spec _ _ _ _ 0 b).
  - apply cstr_cons in Hl as (Ha & _ & Hn & Hl). runs (load1 m g p a Ha). rewrite truth_ne by done.
    destruct k as [|b k].
    + apply cstr_nil in Hk. runs (load1 m g q 0 Hk). destruct (Z.eqb_spec a 0); [done|].
      rewrite (byte_diff_spec _ _ _ _ a 0) by done. f_equal. lia.
    + apply cstr_cons in Hk as (Hb & _ & _ & Hk). runs (load1 m g q b Hb).
      destruct (Z.eqb_spec a b); [|by rewrite (byte_diff_spec _ _ _ _ a b)].
      apply IH; [done..|lia].
Qed.

Lemma str_compare_eq l k :
  Forall (λ b, b ≠ 0) l → Forall (λ b, b ≠ 0) k → str_compare l k = 0 ↔ l = k.
Proof.
  intros Hl. revert k; induction Hl as [|a l Ha Hl IH]; intros k Hk; destruct Hk as [|b k Hb Hk]; simpl.
  - done.
  - split; [lia|done].
  - split; [lia|done].
  - destruct (Z.eqb_spec a b) as [->|]; [rewrite IH by done; naive_solver|].
    split; [lia|naive_solver].
Qed.

Lemma memmove_run m g dst src bs :
  holds m src bs → mapped m dst (length bs) → Z.of_nat (length bs) < 2 ^ 31 →
  memmove dst src (Z.of_nat (length bs)) (mkst m g) = Ok dst (mkst (splice m dst bs) g).
Proof.
  intros Hs Hd Hn. unfold memmove. rewrite swrap_small, Nat2Z.id by lia. destruct (Z.ltb_spec dst src).
  - by runs (copy_up_spec m g dst src bs Hs Hd ltac:(lia)).
  - by runs (copy_down_spec m g dst src bs Hs Hd ltac:(lia)).
Qed.

(** [strchr] finds the first occurrence. *)
Lemma strchr_found m g s c l1 l2 :
  cstr m s (l1 ++ c :: l2) → c ∉ l1 → strchr s c (mkst m g) = Ok (s + Z.of_nat (length l1)) (mkst m g).
Proof.
  intros Hl Hc. pose proof (cstr_size _ _ _ Hl) as Hsz. unfold strchr, with_state. simpl mem.
  rewrite (wrap_small 8).
  2: { destruct Hl as [[_ Hb] _]. rewrite <- (assoc_L (++)) in Hb. apply Forall_app in Hb as [_ Hb].
       simpl in Hb. apply Forall_cons in Hb as [Hb _]. unfold is_byte in Hb. lia. }
  rewrite length_app in Hsz. simpl in Hsz. generalize (size m) as n, Hsz. clear Hsz. intros n Hn.
  induction l1 as [|a l1 IH] in s, n, Hl, Hc, Hn |- *; cbn [strchr_loop].
  - apply cstr_cons in Hl as (Ha & _ & Hz & _). runs (load1 m g s c Ha). rewrite truth_ne, Z.eqb_refl by done.
    simpl. by rewrite Z.add_0_r.
  - apply cstr_cons in Hl as (Ha & _ & Hz & Hl). runs (load1 m g s a Ha). rewrite truth_ne by done.
    destruct (Z.eqb_spec a c) as [->|]; [set_solver|]. cbv iota. destruct n as [|n]; simpl in Hn; [lia|].
    rewrite (IH (s + 1)) by (done || set_solver || lia). f_equal. simpl length. lia.
Qed.

Lemma strchr_absent m g s c l :
  cstr m s l → c ∉ l → 0 ≤ c < 256 → strchr s c (mkst m g) = Ok 0 (mkst m g).
Proof.
  intros Hl Hc Hb. pose proof (cstr_size _ _ _ Hl) as Hsz. unfold strchr, with_state. simpl mem.
  rewrite (wrap_small 8) by lia. generalize (size m) as n, Hsz. clear Hsz. intros n Hn.
  induction l as [|a l IH] in s, n, Hl, Hc, Hn |- *; cbn [strchr_loop].
  - apply cstr_nil in Hl. by runs (load1 m g s 0 Hl).
  - apply cstr_cons in Hl as (Ha & _ & Hz & Hl). runs (load1 m g s a Ha). rewrite truth_ne by done.
    destruct (Z.eqb_spec a c) as [->|]; [set_solver|]. cbv iota. destruct n as [|n]; simpl in Hn; [lia|].
    apply IH; [done|set_solver|lia].
Qed.

End proofs.

Section claims.
Context {G : Type}.
Implicit Types (m : bytemap) (g : G).

(** Both [memmove]s copy correctly when the areas overlap in any way: the
    destination receives the bytes the source had before the call and nothing
    else changes. *)
Theorem memmove_correct m g dst src bs :
  holds m src bs → mapped m dst (length bs) → Z.of_nat (length bs) < 2 ^ 31 →
  let m' := splice m dst bs in
  CString.memmove dst src (Z.of_nat (length bs)) (mkst m g) = Ok dst (mkst m' g) ∧
  memmove dst src (Z.of_nat (length bs)) (mkst m g) = Ok dst (mkst m' g) ∧
  holds m' dst bs ∧ ∀ i, i < dst ∨ dst + Z.of_nat (length bs) ≤ i → m' !! i = m !! i.
Proof.
  intros Hs Hd Hn m'. split_and!.
  - unfold CString.memmove. rewrite wrap_small by lia.
    destruct (Z.eqb_spec (Z.of_nat (length bs)) 0); [by destruct bs|]. rewrite Nat2Z.id.
    destruct (Z.ltb_spec src dst), (Z.ltb_spec dst (src + Z.of_nat (length bs)));
      first [by runs (copy_down_spec m g dst src bs Hs Hd ltac:(lia))
            |by runs (copy_up_spec m g dst src bs Hs Hd ltac:(lia))].
  - by apply memmove_run.
  - apply splice_holds, Hs.
  - intros i Hi. by apply splice_outside.
Qed.

(** [strcmp] of two C strings returns the difference of the first
    characters that differ, and zero exactly when the strings are equal; [strlen]
    returns the number of characters. *)
Theorem strcmp_correct m g p q l k :
  cstr m p l → cstr m q k →
  strcmp p q (mkst m g) = Ok (str_compare l k) (mkst m g) ∧
  (str_compare l k = 0 ↔ l = k) ∧
  CString.strlen p (mkst m g) = Ok (Z.of_nat (length l)) (mkst m g).
Proof.
  intros Hl Hk. split_and!.
  - unfold strcmp, with_state. apply strcmp_loop_spec; [done..|].
    apply cstr_size in Hl. simpl. lia.
  - by apply str_compare_eq; [apply Hl|apply Hk].
  - by apply strlen_spec.
Qed.

(** [safestrcpy] into a buffer of [n] bytes leaves a C string there, the
    longest prefix of the source that fits, and touches nothing outside the
    buffer. *)
Theorem safestrcpy_correct m g s t l (n : nat) :
  cstr m t l → mapped m s n → (0 < n)%nat → Z.of_nat n < 2 ^ 31 →
  s + Z.of_nat n ≤ t ∨ t + Z.of_nat (length l) < s →
  ∃ m', safestrcpy s t (Z.of_nat n) (mkst m g) = Ok s (mkst m' g) ∧
    cstr m' s (take (n - 1) l) ∧
    ∀ i, i < s ∨ s + Z.of_nat n ≤ i → m' !! i = m !! i.
Proof.
  intros Hl Hm Hn Hn31 Ho. unfold safestrcpy. rewrite swrap_small by lia.
  destruct (Z.leb_spec (Z.of_nat n) 0); [lia|].
  replace (Z.to_nat (Z.of_nat n - 1)) with (n - 1)%nat by lia.
  pose proof (safestrcpy_loop_spec m g s t l (n - 1) Hl) as Hloop. cbv zeta in Hloop.
  set (out := if (length l <? n - 1)%nat then l ++ [0] else take (n - 1) l) in *.
  assert ((length out ≤ n - 1)%nat ∧ Forall is_byte out ∧
    ∃ z, out ++ [0] = (take (n - 1) l ++ [0]) ++ z) as (Hlen & Hb & z & Hz).
  { destruct Hl as [[_ Hb] _]. apply Forall_app in Hb as [Hb _]. unfold out.
    destruct (Nat.ltb_spec (length l) (n - 1)) as [Hlt|Hge].
    - rewrite length_app, take_ge by lia. simpl. split_and!; [lia| |by exists [0]].
      apply Forall_app. split; [done|]. by constructor.
    - rewrite length_take. split_and!; [lia|by apply Forall_take|]. exists []. by rewrite app_nil_r. }
  runs (Hloop ltac:(apply (mapped_weaken _ _ _ _ _ Hm); lia) ltac:(lia)).
  destruct (Hm (s + Z.of_nat (length out))) as [x Hx]; [lia|].
  assert (splice m s out !! (s + Z.of_nat (length out)) = Some x) as Hx'.
  { by rewrite splice_outside by lia. }
  runs (store1 _ g _ x 0 Hx' ltac:(done)).
  assert (<[s + Z.of_nat (length out) := 0]> (splice m s out) = splice m s (out ++ [0])) as ->.
  { by rewrite splice_app, <- splice_insert by lia. }
  eexists. split; [reflexivity|]. split.
  - split; [|apply Forall_take, Hl].
    assert (holds (splice m s (out ++ [0])) s (out ++ [0])) as Hh.
    { apply splice_holds, Forall_app. split; [done|]. by constructor. }
    rewrite Hz in Hh at 2. by apply holds_app in Hh as [Hh _].
  - intros i Hi. apply splice_outside. rewrite length_app. simpl. lia.
Qed.
End claims.

Module StrWitness.
(** A hundred bytes at 1000: "hi" at 1000, "hello" at 1010. *)
Definition mem0 : bytemap :=
  splice (seqmap 1000 (replicate 100 0)) 1000 [104; 105; 0; 0; 0; 0; 0; 0; 0; 0; 104; 101; 108; 108; 111].

Ltac compute_holds := split; [vm_compute; reflexivity|repeat constructor; done].

Lemma mapped0 a n :
  1000 ≤ a → a + Z.of_nat n ≤ 1100 → mapped mem0 a n.
Proof.
  intros Ha Hn. apply mapped_splice. intros i Hi.
  replace i with (1000 + Z.of_nat (Z.to_nat (i - 1000))) by lia.
  rewrite seqmap_lookup_Some. apply lookup_lt_is_Some. rewrite length_replicate. lia.
Qed.

Lemma memmove_correct_witness :
  CString.memmove 1012 1010 5 (mkst mem0 ()) = Ok 1012 (mkst (splice mem0 1012 [104; 101; 108; 108; 111]) ()) ∧
  memmove 1012 1010 5 (mkst mem0 ()) =
    Ok 1012 (mkst (splice mem0 1012 [104; 101; 108; 108; 111]) ()) ∧
  holds (splice mem0 1012 [104; 101; 108; 108; 111]) 1012 [104; 101; 108; 108; 111] ∧
  ∀ i, i < 1012 ∨ 1017 ≤ i → splice mem0 1012 [104; 101; 108; 108; 111] !! i = mem0 !! i.
Proof.
  apply (memmove_correct mem0 () 1012 1010 [104; 101; 108; 108; 111]);
    [compute_holds|apply mapped0; simpl; lia|simpl; lia].
Defined.

Lemma strcmp_correct_witness :
  strcmp 1000 1010 (mkst mem0 ()) =
    Ok (str_compare [104; 105] [104; 101; 108; 108; 111]) (mkst mem0 ()) ∧
  (str_compare [104; 105] [104; 101; 108; 108; 111] = 0 ↔ [104; 105] = [104; 101; 108; 108; 111]) ∧
  CString.strlen 1000 (mkst mem0 ()) = Ok 2 (mkst mem0 ()).
Proof.
  apply (strcmp_correct mem0 () 1000 1010); (split; [compute_holds|repeat constructor; done]).
Defined.

Lemma safestrcpy_correct_witness :
  ∃ m', safestrcpy 1050 1010 4 (mkst mem0 ()) = Ok 1050 (mkst m' ()) ∧
    cstr m' 1050 [104; 101; 108] ∧ ∀ i, i < 1050 ∨ 1054 ≤ i → m' !! i = mem0 !! i.
Proof.
  apply (safestrcpy_correct mem0 () 1050 1010 [104; 101; 108; 108; 111] 4);
    [split; [compute_holds|repeat constructor; done]|apply mapped0; simpl; lia|simpl; lia..].
Defined.
End StrWitness.
