(* ===== verification/Grep.v ===== *)
(** * user/grep.c

    The regular expression matcher and the loop over the lines of a file, on
    byte memory, with the system calls [read] and [write] as an interface; what
    expressions mean; and that the program prints the lines that match, however
    the file is cut into reads. *)
From S2P Require Import Prelude Mem CString Ulib.

(** ** System calls *)

(** What [grep] uses of the system: [fd_read] gives the bytes that [read] stores
    and [fd_write] takes those [write] was given. *)
Class Stdio (G : Type) := {
  fd_read : Z → Z → G → list Z * G;
  fd_write : Z → list Z → G → G;
}.

Section grep.
Context {G : Type} `{Stdio G}.

(** The result of [read(fd, a, n)]; a buffer that is not mapped is not used. *)
Definition read (fd a n : Z) : M (st G) Z := λ s,
  let '(bs, g) := fd_read fd n (glob s) in
  match storebytes (mem s) a bs with
  | Some m => Ok (Z.of_nat (length bs)) (mkst m g)
  | None => Err (Fault a)
  end.
Definition write (fd a n : Z) : M (st G) Z := λ s,
  match loadbytes (Z.to_nat n) (mem s) a with
  | Some bs => Ok n (mkst (mem s) (fd_write fd bs (glob s)))
  | None => Err (Fault a)
  end.

(** ** The matcher *)

(** [matchhere] and [matchstar] call each other; a call moves on in the
    expression or in the text. *)
Fixpoint matchhere (fuel : nat) (re text : Z) : M (st G) Z :=
  match fuel with
  | O => fail NoFuel
  | S fuel =>
      c ← load 1 re;
      if c =? 0 then mret 1 else
      d ← load 1 (re + 1);
      if d =? 42 then matchstar fuel c (re + 2) text else
      t ← load 1 text;
      if (c =? 36) && (d =? 0) then mret (if t =? 0 then 1 else 0) else
      if negb (t =? 0) && ((c =? 46) || (c =? t)) then matchhere fuel (re + 1) (text + 1) else
      mret 0
  end
with matchstar (fuel : nat) (c re text : Z) : M (st G) Z :=
  match fuel with
  | O => fail NoFuel
  | S fuel =>
      r ← matchhere fuel re text;
      if truth r then mret 1 else
      t ← load 1 text;
      if negb (t =? 0) && ((t =? c) || (c =? 46)) then matchstar fuel c re (text + 1) else
      mret 0
  end.

(** The [do] loop of [match]. *)
Fixpoint match_loop (fuel inner : nat) (re text : Z) : M (st G) Z :=
  match fuel with
  | O => fail NoFuel
  | S fuel =>
      r ← matchhere inner re text;
      if truth r then mret 1 else
      t ← load 1 text;
      if negb (t =? 0) then match_loop fuel inner re (text + 1) else mret 0
  end.

(** Strings are in memory, so its size bounds them. *)
Definition match_ (re text : Z) : M (st G) Z :=
  with_state (λ s,
    let n := size (mem s) in
    c ← load 1 re;
    if c =? 94 then matchhere (3 * n) (re + 1) text
    else match_loop n (3 * n) re text).

(** ** The lines of a file *)

Context (buf : Z).
Definition sizeof_buf : Z := 1024.

(** The inner loop: the lines from [p] on; where the last, incomplete one begins. *)
Fixpoint grep_lines (fuel : nat) (pattern p : Z) : M (st G) Z :=
  match fuel with
  | O => fail NoFuel
  | S fuel =>
      q ← strchr p 10;
      if q =? 0 then mret p else
      store 1 q 0;;
      r ← match_ pattern p;
      when (truth r) (store 1 q 10;; write 1 p (q + 1 - p);; mret ());;
      grep_lines fuel pattern (q + 1)
  end.

(** The outer loop, with [m] bytes in the buffer. *)
Fixpoint grep_loop (fuel : nat) (pattern fd m : Z) : M (st G) unit :=
  match fuel with
  | O => fail NoFuel
  | S fuel =>
      n ← read fd (buf + m) (sizeof_buf - m - 1);
      if negb (0 <? n) then mret () else
      let m := m + n in
      store 1 (buf + m) 0;;
      p ← grep_lines (Z.to_nat sizeof_buf) pattern buf;
      if 0 <? m then
        let m := m - (p - buf) in
        memmove buf p m;;
        grep_loop fuel pattern fd m
      else grep_loop fuel pattern fd m
  end.

Definition grep (fuel : nat) (pattern fd : Z) : M (st G) unit := grep_loop fuel pattern fd 0.
End grep.

(** ** What expressions mean *)

Inductive item := One (c : Z) | Star (c : Z).

(** The items of an expression, and whether it ends in a dollar. *)
Fixpoint parse (re : list Z) : list item * bool :=
  match re with
  | [] => ([], false)
  | [c] => if c =? 36 then ([], true) else ([One c], false)
  | c :: ((d :: re'') as re') =>
      if d =? 42 then let '(r, e) := parse re'' in (Star c :: r, e)
      else let '(r, e) := parse re' in (One c :: r, e)
  end.

Definition fits (c x : Z) : Prop := c = 46 ∨ c = x.

Inductive lang : list item → list Z → Prop :=
  | lang_nil : lang [] []
  | lang_one c x r t : fits c x → lang r t → lang (One c :: r) (x :: t)
  | lang_star_end c r t : lang r t → lang (Star c :: r) t
  | lang_star c x r t : fits c x → lang (Star c :: r) t → lang (Star c :: r) (x :: t).

(** A prefix of the text matches, all of it with a dollar. *)
Definition prefix_in (r : list item) (e : bool) (text : list Z) : Prop :=
  ∃ mid post, text = mid ++ post ∧ lang r mid ∧ (e = true → post = []).
Definition here (re text : list Z) : Prop := prefix_in (parse re).1 (parse re).2 text.

(** Some part of the text matches; with a caret, from its beginning. *)
Definition matches (re text : list Z) : Prop :=
  match re with
  | 94 :: re' => here re' text
  | _ => ∃ pre post, text = pre ++ post ∧ here re post
  end.

Lemma here_nil text : here [] text.
Proof. exists [], text. split_and!; [done|constructor|done]. Qed.

Lemma here_star c re text : here (c :: 42 :: re) text ↔ prefix_in (Star c :: (parse re).1) (parse re).2 text.
Proof. unfold here. simpl. by destruct (parse re). Qed.

Lemma here_dollar text : here [36] text ↔ text = [].
Proof.
  unfold here, prefix_in. simpl. split.
  - intros (mid & post & -> & Hl & Hp). inversion Hl. subst. by rewrite Hp.
  - intros ->. exists [], []. split_and!; [done|constructor|done].
Qed.

Lemma here_one c re text :
  head re ≠ Some 42 → ¬ (c = 36 ∧ re = []) →
  here (c :: re) text ↔ ∃ x text', text = x :: text' ∧ fits c x ∧ here re text'.
Proof.
  intros Hs Hd. assert (parse (c :: re) = (One c :: (parse re).1, (parse re).2)) as Hp.
  { destruct re as [|d re]; [simpl; destruct (Z.eqb_spec c 36); [by destruct Hd|done]|].
    change (parse (c :: d :: re)) with
      (if d =? 42 then let '(r, e) := parse re in (Star c :: r, e) else let '(r, e) := parse (d :: re) in (One c :: r, e)).
    destruct (Z.eqb_spec d 42) as [->|]; [by destruct Hs|]. by destruct (parse (d :: re)). }
  unfold here. rewrite Hp. simpl. split.
  - intros (mid & post & -> & Hl & He). inversion Hl; subst. eexists _, _. split_and!; [done..|]. by eexists _, post.
  - intros (x & t & -> & Hx & mid & post & -> & Hl & He). exists (x :: mid), post. split_and!; [done| |done].
    by constructor.
Qed.

Lemma prefix_star c r e text :
  prefix_in (Star c :: r) e text ↔
  prefix_in r e text ∨ ∃ x text', text = x :: text' ∧ fits c x ∧ prefix_in (Star c :: r) e text'.
Proof.
  split.
  - intros (mid & post & -> & Hl & He). inversion Hl; subst.
    + left. by exists mid, post.
    + right. eexists _, _. split_and!; [done..|]. by eexists _, post.
  - intros [(mid & post & -> & Hl & He)|(x & t & -> & Hx & mid & post & -> & Hl & He)].
    + exists mid, post. split_and!; [done| |done]. by constructor.
    + exists (x :: mid), post. split_and!; [done| |done]. by apply lang_star.
Qed.

(** ** The matcher is correct *)

Section matcher.
Context {G : Type} `{Stdio G}.
Implicit Types (m : bytemap) (g : G).

(** A function that returns one if [P] and zero if not, and changes nothing. *)
Definition decides (f : M (st G) Z) m g (P : Prop) : Prop :=
  ∃ b : bool, f (mkst m g) = Ok (if b then 1 else 0) (mkst m g) ∧ (b = true ↔ P).

Lemma decides_ret m g (b : bool) (P : Prop) : (b = true ↔ P) → decides (mret (if b then 1 else 0)) m g P.
Proof. intros Hb. by exists b. Qed.

Lemma decides_iff f m g P Q : (P ↔ Q) → decides f m g P → decides f m g Q.
Proof. intros HPQ (b & ? & ?). exists b. split; [done|]. by rewrite <- HPQ. Qed.

(** The first byte of a string, and the next ones. *)
Lemma cstr_head m a l : cstr m a l → m !! a = Some (default 0 (head l)).
Proof. destruct l as [|x l]; [by intros ?%cstr_nil|by intros (? & _)%cstr_cons]. Qed.
Lemma cstr_tail m a x l : cstr m a (x :: l) → x ≠ 0 ∧ cstr m (a + 1) l.
Proof. by intros (_ & _ & ? & ?)%cstr_cons. Qed.

Lemma fits_dec c t : (c =? 46) || (c =? t) = true ↔ fits c t.
Proof. unfold fits. rewrite orb_true_iff, !Z.eqb_eq. done. Qed.

(** Both loops go on with the rest of the text or fail. *)
Lemma text_step m g text T (t c : Z) (cond : bool) (k : M (st G) Z) (P : list Z → Prop) :
  cstr m text T → t = default 0 (head T) →
  (∀ x T', T = x :: T' → cond = true ↔ fits c x) →
  (∀ x T', T = x :: T' → cstr m (text + 1) T' → decides k m g (P T')) →
  decides (if negb (t =? 0) && cond then k else mret 0) m g (∃ x T', T = x :: T' ∧ fits c x ∧ P T').
Proof.
  intros HT -> Hc Hk. destruct T as [|x T'].
  { simpl. apply (decides_ret _ _ false). split; [done|]. by intros (? & ? & ? & _). }
  destruct (cstr_tail _ _ _ _ HT) as [Hx HT']. change (default 0 (head (x :: T'))) with x.
  destruct (Z.eqb_spec x 0); [done|]. cbn [negb andb]. destruct cond.
  - eapply decides_iff; [|by apply (Hk x T')]. specialize (Hc x T' eq_refl). naive_solver.
  - apply (decides_ret _ _ false). specialize (Hc x T' eq_refl). naive_solver.
Qed.

Lemma match_spec m g fuel :
  (∀ re R text T, cstr m re R → cstr m text T → (2 * length R + length T < fuel)%nat →
    decides (matchhere fuel re text) m g (here R T)) ∧
  (∀ c re R text T, cstr m re R → cstr m text T → (2 * length R + length T + 1 < fuel)%nat →
    decides (matchstar fuel c re text) m g (prefix_in (Star c :: (parse R).1) (parse R).2 T)).
Proof.
  induction fuel as [|fuel [IHh IHs]]; [split; intros; lia|]. split.
  - intros re R text T HR HT Hf. pose proof (cstr_head _ _ _ HR) as Hc. pose proof (cstr_head _ _ _ HT) as Ht.
    cbn [matchhere]. destruct R as [|c R].
    { exists true. runs (load1 m g _ _ Hc). split; [done|]. split; [|done]. intros _. apply here_nil. }
    destruct (cstr_tail _ _ _ _ HR) as [Hc0 HR']. pose proof (cstr_head _ _ _ HR') as Hd. simpl in Hc, Hf.
    unfold decides. runs (load1 m g _ _ Hc). destruct (Z.eqb_spec c 0); [done|]. runs (load1 m g _ _ Hd).
    destruct (Z.eqb_spec (default 0 (head R)) 42) as [Hst|Hst].
    { destruct R as [|d R]; [done|]. simpl in Hst, Hf. subst d. destruct (cstr_tail _ _ _ _ HR') as [_ HR''].
      rewrite <- Z.add_assoc in HR''. eapply decides_iff; [symmetry; apply here_star|]. apply IHs; [done..|lia]. }
    runs (load1 m g _ _ Ht).
    destruct ((c =? 36) && (default 0 (head R) =? 0)) eqn:Hdol.
    { apply andb_true_iff in Hdol as [->%Z.eqb_eq Hd0%Z.eqb_eq].
      assert (R = []) as -> by (destruct R; [done|]; by apply cstr_tail in HR' as [? _]).
      exists (default 0 (head T) =? 0). split; [done|]. rewrite here_dollar, Z.eqb_eq.
      destruct T; [done|]. apply cstr_tail in HT as [? _]. done. }
    eapply decides_iff; [symmetry; apply here_one|].
    { destruct R; naive_solver. }
    { intros [-> ->]. done. }
    eapply text_step; [done|done| |].
    + intros x T' ->. apply fits_dec.
    + intros x T' -> HT'. simpl in Hf. apply IHh; [done..|lia].
  - intros c re R text T HR HT Hf. pose proof (cstr_head _ _ _ HT) as Ht. cbn [matchstar].
    destruct (IHh re R text T HR HT) as ([] & Hr & Hb); [lia|..]; unfold decides; runs Hr; change (truth 1) with true; change (truth 0) with false; cbv iota.
    { exists true. split; [done|]. rewrite prefix_star. naive_solver. }
    runs (load1 m g _ _ Ht). eapply decides_iff; [|eapply (text_step _ _ _ _ _ c); [done|done|..]].
    + rewrite prefix_star. fold (here R T). naive_solver.
    + intros x T' ->. rewrite orb_comm, (Z.eqb_sym _ c). apply fits_dec.
    + intros x T' -> HT'. simpl in Hf. apply IHs; [done..|lia].
Qed.

Lemma match_loop_spec m g fuel inner re R text T :
  cstr m re R → cstr m text T → (length T < fuel)%nat → (2 * length R + length T < inner)%nat →
  decides (match_loop fuel inner re text) m g (∃ pre post, T = pre ++ post ∧ here R post).
Proof.
  intros HR. induction fuel as [|fuel IH] in text, T |- *; intros HT Hf Hi; [lia|]. cbn [match_loop].
  pose proof (cstr_head _ _ _ HT) as Ht.
  destruct (proj1 (match_spec m g inner) re R text T HR HT Hi) as ([] & Hr & Hb); unfold decides; runs Hr;
    change (truth 1) with true; change (truth 0) with false; cbv iota.
  { exists true. split; [done|]. split; [|done]. intros _. exists [], T. naive_solver. }
  runs (load1 m g _ _ Ht). destruct T as [|x T].
  { exists false. split; [done|]. split; [done|]. intros (pre & post & Heq & Hp).
    symmetry in Heq. apply app_eq_nil in Heq as [-> ->]. naive_solver. }
  destruct (cstr_tail _ _ _ _ HT) as [Hx HT']. simpl in Hf, Hi |- *. destruct (Z.eqb_spec x 0); [done|].
  cbn [negb]. eapply decides_iff; [|apply (IH (text + 1) T HT'); lia]. split.
  - intros (pre & post & -> & Hp). by exists (x :: pre), post.
  - intros ([|y pre] & post & Heq & Hp); simpl in Heq.
    + subst post. naive_solver.
    + injection Heq as <- ->. eauto.
Qed.

Lemma match_run m g re R text T :
  cstr m re R → cstr m text T → decides (match_ re text) m g (matches R T).
Proof.
  intros HR HT. pose proof (cstr_head _ _ _ HR) as Hc. pose proof (cstr_size _ _ _ HR) as HsR.
  pose proof (cstr_size _ _ _ HT) as HsT. unfold decides, match_, with_state. simpl mem. runs (load1 m g _ _ Hc).
  destruct (Z.eqb_spec (default 0 (head R)) 94) as [H94|H94].
  - destruct R as [|c R]; [done|]. simpl in H94. subst c. apply cstr_tail in HR as [_ HR].
    simpl in HsR. apply (proj1 (match_spec m g _)); [done..|lia].
  - eapply decides_iff; [|apply match_loop_spec; [done|done|lia|lia]].
    destruct R as [|c R]; [done|]. simpl in H94. unfold matches. destruct c as [|p|p]; try done.
    do 7 (destruct p as [p|p|]; try done).
Qed.
End matcher.

(** ** Lines *)

Definition lines (ls : list (list Z)) : list Z := mjoin ((λ l, l ++ [10]) <$> ls).

(** What is printed for the lines [ls]. *)
Inductive printed (re : list Z) : list (list Z) → list Z → Prop :=
  | printed_nil : printed re [] []
  | printed_match l ls out : matches re l → printed re ls out → printed re (l :: ls) ((l ++ [10]) ++ out)
  | printed_skip l ls out : ¬ matches re l → printed re ls out → printed re (l :: ls) out.

Lemma printed_app re ls1 ls2 out1 out2 :
  printed re ls1 out1 → printed re ls2 out2 → printed re (ls1 ++ ls2) (out1 ++ out2).
Proof.
  intros H1 H2. induction H1; simpl; [done|rewrite <- (assoc_L (++)); by constructor|by constructor].
Qed.

Lemma lines_cons l ls : lines (l :: ls) = l ++ 10 :: lines ls.
Proof. unfold lines. simpl. by rewrite <- (assoc_L (++)). Qed.
Lemma lines_app ls1 ls2 : lines (ls1 ++ ls2) = lines ls1 ++ lines ls2.
Proof. unfold lines. by rewrite fmap_app, join_app. Qed.

(** Every text is lines and a rest. *)
Lemma lines_exist text : ∃ ls rest, text = lines ls ++ rest ∧ Forall (λ l, 10 ∉ l) ls ∧ 10 ∉ rest.
Proof.
  induction text as [|c text (ls & rest & -> & Hls & Hr)]; [exists [], []; split_and!; [done|done|apply not_elem_of_nil]|].
  destruct (decide (c = 10)) as [->|Hc].
  - exists ([] :: ls), rest. split_and!; [done| |done]. constructor; [apply not_elem_of_nil|done].
  - destruct ls as [|l ls].
    + exists [], (c :: rest). split_and!; [done|done|set_solver].
    + exists ((c :: l) :: ls), rest. apply Forall_cons in Hls as [Hl Hls]. split_and!; [done| |done].
      constructor; [set_solver|done].
Qed.

Lemma cut_unique (a b x y : list Z) : 10 ∉ a → 10 ∉ b → a ++ 10 :: x = b ++ 10 :: y → a = b ∧ x = y.
Proof.
  induction a as [|c a IH] in b |- *; intros Ha Hb Heq; destruct b as [|d b]; simpl in Heq.
  - by injection Heq as ->.
  - injection Heq as <- _. set_solver.
  - injection Heq as -> _. set_solver.
  - injection Heq as <- Heq. destruct (IH b) as [-> ->]; [set_solver|set_solver|done|done].
Qed.

Lemma lines_unique ls1 ls rest1 rest :
  Forall (λ l, 10 ∉ l) ls1 → Forall (λ l, 10 ∉ l) ls → 10 ∉ rest → lines ls1 ++ rest1 = lines ls ++ rest →
  ∃ ls2, ls = ls1 ++ ls2 ∧ rest1 = lines ls2 ++ rest.
Proof.
  induction ls1 as [|l ls1 IH] in ls |- *; intros H1 H2 Hr Heq; [by exists ls|].
  apply Forall_cons in H1 as [Hl H1]. rewrite lines_cons, <- (assoc_L (++)) in Heq. simpl in Heq.
  destruct ls as [|l' ls].
  { exfalso. apply Hr. simpl in Heq. rewrite <- Heq. rewrite elem_of_app. right. by left. }
  apply Forall_cons in H2 as [Hl' H2]. rewrite lines_cons, <- (assoc_L (++)) in Heq. simpl in Heq.
  apply cut_unique in Heq as [-> Heq]; [|done..]. destruct (IH ls) as (ls2 & -> & ?); [done..|]. by exists ls2.
Qed.

(** The interface's contract: [read] takes a non-empty piece of what is left of
    the file unless nothing is left or asked for; [write] appends. *)
Class StdioLaws (G : Type) `{Stdio G} := {
  input : Z → G → list Z;
  output : G → list Z;
  read_law fd n g bs g' : fd_read fd n g = (bs, g') →
    input fd g = bs ++ input fd g' ∧ (length bs ≤ Z.to_nat n)%nat ∧ (bs = [] → n ≤ 0 ∨ input fd g = []) ∧
    output g' = output g;
  write_law bs g : output (fd_write 1 bs g) = output g ++ bs ∧ ∀ fd, input fd (fd_write 1 bs g) = input fd g;
}.

Lemma holds_ext (m m' : bytemap) a l :
  (∀ i, a ≤ i < a + Z.of_nat (length l) → m' !! i = m !! i) → holds m a l → holds m' a l.
Proof.
  induction l as [|b l IH] in a |- *; intros Hi Hl; [done|]. simpl in Hi. apply holds_cons in Hl as (Hb & Hbb & Hl).
  apply holds_cons. split_and!; [rewrite Hi by lia; done|done|]. apply IH; [|done]. intros i Hr. apply Hi. lia.
Qed.

Lemma cstr_ext (m m' : bytemap) a l :
  (∀ i, a ≤ i ≤ a + Z.of_nat (length l) → m' !! i = m !! i) → cstr m a l → cstr m' a l.
Proof.
  intros Hi [Hh Hz]. split; [|done]. eapply holds_ext, Hh. intros i Hr. apply Hi. rewrite length_app in Hr. simpl in Hr. lia.
Qed.

Section grep_proof.
Context {G : Type} `{StdioLaws G}.
Implicit Types (m : bytemap) (g : G).

Lemma write_run m g a l :
  holds m a l → write 1 a (Z.of_nat (length l)) (mkst m g) = Ok (Z.of_nat (length l)) (mkst m (fd_write 1 l g)).
Proof. intros [Hl _]. unfold write. simpl. by rewrite Nat2Z.id, Hl. Qed.

(** One line, its newline at [q]. *)
Lemma line_spec m g pattern R p l rest :
  cstr m pattern R → cstr m p (l ++ 10 :: rest) → 10 ∉ l →
  pattern + Z.of_nat (length R) < p ∨ p + Z.of_nat (length (l ++ 10 :: rest)) < pattern →
  let q := p + Z.of_nat (length l) in
  ∃ m' g' out, (store 1 q 0;; r ← match_ pattern p; when (truth r) (store 1 q 10;; write 1 p (q + 1 - p);; mret ())) (mkst m g)
      = Ok () (mkst m' g') ∧ printed R [l] out ∧ output g' = output g ++ out ∧ (∀ fd, input fd g' = input fd g) ∧
      ∃ c, m' = <[q := c]> m.
Proof.
  intros HR HT Hl Ho q. destruct HT as [HT Hnz]. rewrite <- (assoc_L (++)) in HT. apply holds_app in HT as [HTl HTr].
  simpl in HTr. apply holds_cons in HTr as (Hq & _ & HTr). apply Forall_app in Hnz as [Hnz _].
  rewrite length_app in Ho. simpl in Ho. runs (store1 m g q 10 0 Hq ltac:(done)).
  assert (cstr (<[q := 0]> m) pattern R) as HR'.
  { eapply cstr_ext, HR. intros i Hi. apply lookup_insert_ne. unfold q. lia. }
  assert (cstr (<[q := 0]> m) p l) as Hl'.
  { split; [|done]. apply holds_app. split; [apply holds_insert; [unfold q; lia|done]|].
    apply holds_cons. fold q. rewrite lookup_insert_eq. by split_and!. }
  destruct (match_run _ g _ _ _ _ HR' Hl') as ([] & Hm & Hb); runs Hm.
  - change (truth 1) with true. cbn [when].
    assert ((<[q := 0]> m : bytemap) !! q = Some 0) as Hq0 by apply lookup_insert_eq.
    runs (store1 _ g q 0 10 Hq0 ltac:(done)). rewrite insert_insert_eq.
    assert (holds (<[q := 10]> m) p (l ++ [10])) as Hw.
    { apply holds_app. split; [apply holds_insert; [unfold q; lia|done]|].
      apply holds_cons. fold q. rewrite lookup_insert_eq. by split_and!. }
    apply (write_run _ g) in Hw. rewrite length_app in Hw. simpl in Hw.
    replace (q + 1 - p) with (Z.of_nat (length l + 1)) by (unfold q; lia). runs Hw.
    destruct (write_law (l ++ [10]) g) as [Hout Hin].
    eexists _, _, (l ++ [10]). split_and!; [done| |done|done|by eexists].
    rewrite <- (right_id_L [] (++) (l ++ [10])). constructor; [naive_solver|constructor].
  - change (truth 0) with false. cbn [when]. exists (<[q := 0]> m), g, []. split_and!; [done| |by rewrite (right_id_L [] (++))|done|by eexists].
    apply printed_skip; [naive_solver|constructor].
Qed.

Lemma grep_lines_spec m g fuel pattern R p ls rest :
  cstr m pattern R → cstr m p (lines ls ++ rest) → Forall (λ l, 10 ∉ l) ls → 10 ∉ rest →
  pattern + Z.of_nat (length R) < p ∨ p + Z.of_nat (length (lines ls ++ rest)) < pattern →
  0 < p → (length ls < fuel)%nat →
  ∃ m' g' out, grep_lines fuel pattern p (mkst m g) = Ok (p + Z.of_nat (length (lines ls))) (mkst m' g') ∧
    printed R ls out ∧ output g' = output g ++ out ∧ (∀ fd, input fd g' = input fd g) ∧
    (∀ i, i < p ∨ p + Z.of_nat (length (lines ls)) ≤ i → m' !! i = m !! i) ∧
    (∀ i, is_Some (m !! i) → is_Some (m' !! i)).
Proof.
  intros HR HT Hls Hrest Ho Hp Hf. induction ls as [|l ls IH] in m, g, p, fuel, HR, HT, Hls, Ho, Hp, Hf |- *;
    (destruct fuel as [|fuel]; [simpl in Hf; lia|]); cbn [grep_lines].
  - runs (strchr_absent m g p 10 rest HT Hrest ltac:(lia)). exists m, g, [].
    simpl. rewrite Z.add_0_r. split_and!; [done|constructor|by rewrite (right_id_L [] (++))|done..].
  - apply Forall_cons in Hls as [Hl Hls]. rewrite lines_cons, <- (assoc_L (++)) in HT, Ho. rewrite lines_cons. simpl app in HT, Ho.
    set (q := p + Z.of_nat (length l)).
    runs (strchr_found m g p 10 l (lines ls ++ rest) HT Hl). fold q. destruct (Z.eqb_spec q 0); [unfold q in *; lia|].
    destruct (line_spec m g pattern R p l (lines ls ++ rest) HR HT Hl Ho) as (m1 & g1 & out1 & Hrun & Hpr & Hout & Hin & c & ->).
    fold q in Hrun. rewrite !length_app in Ho. simpl in Ho, Hf.
    destruct (IH (<[q := c]> m) g1 fuel (q + 1)) as (m' & g' & out & Hrun' & Hpr' & Hout' & Hin' & Hm' & Hs').
    + eapply cstr_ext, HR. intros i Hi. apply lookup_insert_ne. unfold q. lia.
    + destruct HT as [HT Hnz]. rewrite <- (assoc_L (++)) in HT. apply holds_app in HT as [_ HT].
      simpl in HT. apply holds_cons in HT as (_ & _ & HT). apply Forall_app in Hnz as [_ Hnz]. apply Forall_cons in Hnz as [_ Hnz].
      split; [|done]. apply holds_insert; [unfold q; lia|]. done.
    + done.
    + unfold q. lia.
    + unfold q. lia.
    + lia.
    + exists m', g', (out1 ++ out). split_and!.
      * rewrite <- !bind_assoc. erewrite bind_ok; [|rewrite !bind_assoc; exact Hrun]. cbv beta. rewrite Hrun'.
        f_equal. rewrite length_app. simpl. unfold q. lia.
      * by apply (printed_app R [l]).
      * by rewrite Hout', Hout, (assoc_L (++)).
      * intros fd. by rewrite Hin'.
      * intros i Hi. rewrite length_app in Hi. simpl in Hi. rewrite Hm' by (unfold q; lia).
        apply lookup_insert_ne. unfold q. lia.
      * intros i Hi. apply Hs'. rewrite lookup_insert_is_Some'. by right.
Qed.

Lemma storebytes_mapped m a bs : mapped m a (length bs) → storebytes m a bs = Some (splice m a bs).
Proof.
  induction bs as [|b bs IH] in a |- *; intros Hm; [done|]. simpl in *. destruct (Hm a) as [x ->]; [lia|]. simpl.
  rewrite IH; [done|]. apply (mapped_weaken _ _ _ _ _ Hm); lia.
Qed.

Lemma read_run m g fd a n bs g' :
  fd_read fd n g = (bs, g') → mapped m a (length bs) →
  read fd a n (mkst m g) = Ok (Z.of_nat (length bs)) (mkst (splice m a bs) g').
Proof. intros Hr Hm. unfold read. simpl. rewrite Hr. by rewrite storebytes_mapped. Qed.

Context (buf : Z) (Hbuf : 0 < buf).

(** [m'] differs from [m] in the buffer only. *)
Definition in_buf m m' : Prop := ∀ i, i < buf ∨ buf + sizeof_buf ≤ i → m' !! i = m !! i.

Lemma in_buf_trans m1 m2 m3 : in_buf m1 m2 → in_buf m2 m3 → in_buf m1 m3.
Proof. intros H1 H2 i Hi. rewrite H2 by done. by apply H1. Qed.

(** The pattern is not in the buffer. *)
Definition apart (pattern : Z) (R : list Z) : Prop :=
  pattern + Z.of_nat (length R) < buf ∨ buf + sizeof_buf ≤ pattern.

Lemma pattern_kept m m' pattern R : apart pattern R → in_buf m m' → cstr m pattern R → cstr m' pattern R.
Proof. intros Ho Hm. apply cstr_ext. intros i Hi. apply Hm. unfold apart in Ho. lia. Qed.

Lemma fill_spec m cur bs :
  holds m buf cur → mapped m buf (Z.to_nat sizeof_buf) → Forall is_byte bs → Forall (λ b, b ≠ 0) (cur ++ bs) →
  (length cur + length bs < 1024)%nat →
  let m1 := splice m (buf + Z.of_nat (length cur)) bs in
  let m2 := <[buf + Z.of_nat (length (cur ++ bs)) := 0]> m1 in
  is_Some (m1 !! (buf + Z.of_nat (length (cur ++ bs)))) ∧
  cstr m2 buf (cur ++ bs) ∧ mapped m2 buf (Z.to_nat sizeof_buf) ∧ in_buf m m2.
Proof.
  intros Hcur Hmap Hb Hnz Hlen m1 m2. change (Z.to_nat sizeof_buf) with 1024%nat in *.
  assert (length (cur ++ bs) = (length cur + length bs)%nat) as Hl by apply length_app.
  assert (mapped m1 buf 1024) as Hm1 by by apply mapped_splice. split_and!.
  - apply Hm1. lia.
  - split; [|done]. apply holds_app. split.
    + apply holds_insert; [lia|]. apply holds_app. split.
      * eapply holds_ext, Hcur. intros i Hi. apply splice_outside. lia.
      * by apply splice_holds.
    + apply holds_cons. unfold m2. rewrite lookup_insert_eq. by split_and!.
  - by apply mapped_insert.
  - intros i Hi. unfold sizeof_buf in Hi. unfold m2. rewrite lookup_insert_ne by lia. apply splice_outside. lia.
Qed.

Lemma lines_length ls : (length ls ≤ length (lines ls))%nat.
Proof. induction ls as [|l ls IH]; [done|]. rewrite lines_cons, length_app. simpl. lia. Qed.

(** The lines of a full buffer, and the move of the rest to its beginning. *)
Lemma round_spec m g pattern R ls rest :
  cstr m pattern R → apart pattern R → mapped m buf (Z.to_nat sizeof_buf) → cstr m buf (lines ls ++ rest) →
  Forall (λ l, 10 ∉ l) ls → 10 ∉ rest → (length (lines ls ++ rest) < 1024)%nat →
  ∃ m1 m' g' out,
    grep_lines (Z.to_nat sizeof_buf) pattern buf (mkst m g) = Ok (buf + Z.of_nat (length (lines ls))) (mkst m1 g') ∧
    memmove buf (buf + Z.of_nat (length (lines ls))) (Z.of_nat (length rest)) (mkst m1 g') = Ok buf (mkst m' g') ∧
    printed R ls out ∧ output g' = output g ++ out ∧ (∀ fd, input fd g' = input fd g) ∧
    holds m' buf rest ∧ mapped m' buf (Z.to_nat sizeof_buf) ∧ in_buf m m'.
Proof.
  intros HR Ho Hmap HT Hls Hrest Hlen. pose proof (lines_length ls) as Hll.
  assert (length (lines ls ++ rest) = (length (lines ls) + length rest)%nat) as Hl by apply length_app.
  destruct (grep_lines_spec m g (Z.to_nat sizeof_buf) pattern R buf ls rest) as (m1 & g' & out & Hrun & Hpr & Hout & Hin & Hm1 & Hs);
    [done..| |done|change (Z.to_nat sizeof_buf) with 1024%nat; lia|].
  { unfold apart, sizeof_buf in Ho. lia. }
  assert (holds m1 (buf + Z.of_nat (length (lines ls))) rest) as Hrest1.
  { destruct HT as [HT _]. rewrite <- (assoc_L (++)) in HT. apply holds_app in HT as [_ HT]. apply holds_app in HT as [HT _].
    eapply holds_ext, HT. intros i Hi. apply Hm1. lia. }
  assert (mapped m1 buf (Z.to_nat sizeof_buf)) as Hmap1 by (intros i Hi; by apply Hs, Hmap).
  exists m1, (splice m1 buf rest), g', out. split_and!; [done| |done..| | |].
  - apply memmove_run; [done| |lia]. apply (mapped_weaken _ _ _ _ _ Hmap1); change (Z.to_nat sizeof_buf) with 1024%nat; lia.
  - apply splice_holds, Hrest1.
  - by apply mapped_splice.
  - intros i Hi. unfold sizeof_buf in Hi. rewrite splice_outside by lia. apply Hm1. lia.
Qed.

(** A full buffer without a newline is part of a line that is too long. *)
Lemma long_line cur l ls rest text :
  10 ∉ cur → cur ++ text = lines (l :: ls) ++ rest → (length cur ≤ length l)%nat.
Proof.
  intros Hc Heq. rewrite lines_cons, <- (assoc_L (++)) in Heq. destruct (decide (length cur ≤ length l)%nat); [done|].
  exfalso. apply Hc. assert (cur = take (length cur) (l ++ (10 :: lines ls) ++ rest)) as ->.
  { by rewrite <- Heq, take_app_length. }
  rewrite take_app_ge by lia. rewrite elem_of_app. right.
  destruct (length cur - length l)%nat eqn:He; [lia|]. simpl. by left.
Qed.

(** When [read] returns nothing, there is no further line. *)
Lemma no_more cur text ls rest :
  10 ∉ cur → cur ++ text = lines ls ++ rest → Forall (λ l, (length l < 1023)%nat) ls →
  sizeof_buf - Z.of_nat (length cur) - 1 ≤ 0 ∨ text = [] → ls = [].
Proof.
  intros Hc Heq Hmax Hn. destruct ls as [|l ls]; [done|]. exfalso. apply Forall_cons in Hmax as [Hl _].
  destruct Hn as [Hn| ->].
  - apply long_line in Heq; [|done]. unfold sizeof_buf in Hn. lia.
  - apply Hc. rewrite (right_id_L [] (++)) in Heq. rewrite Heq, lines_cons. set_solver.
Qed.

Lemma grep_loop_spec fuel m g pattern R fd cur ls rest :
  cstr m pattern R → apart pattern R → mapped m buf (Z.to_nat sizeof_buf) →
  holds m buf cur → (length cur < 1024)%nat → 10 ∉ cur →
  Forall (λ b, 0 < b < 256) (cur ++ input fd g) → cur ++ input fd g = lines ls ++ rest →
  Forall (λ l, 10 ∉ l) ls → 10 ∉ rest → Forall (λ l, (length l < 1023)%nat) ls → (length (input fd g) < fuel)%nat →
  ∃ m' g' out, grep_loop buf fuel pattern fd (Z.of_nat (length cur)) (mkst m g) = Ok () (mkst m' g') ∧
    printed R ls out ∧ output g' = output g ++ out ∧ in_buf m m'.
Proof.
  intros HR Ho Hmap Hcur Hlen Hc10 Hbytes Heq Hls Hrest Hmax Hf.
  induction fuel as [|fuel IH] in m, g, cur, ls, HR, Hmap, Hcur, Hlen, Hc10, Hbytes, Heq, Hls, Hmax, Hf |- *; [lia|].
  cbn [grep_loop]. destruct (fd_read fd (sizeof_buf - Z.of_nat (length cur) - 1) g) as [bs g1] eqn:Hrd.
  destruct (read_law _ _ _ _ _ Hrd) as (Hin & Hbl & Hnil & Hout1).
  assert (length cur + length bs < 1024)%nat as Htot by (unfold sizeof_buf in Hbl; lia).
  runs (read_run m g fd (buf + Z.of_nat (length cur)) _ bs g1 Hrd
    ltac:(apply (mapped_weaken _ _ _ _ _ Hmap); change (Z.to_nat sizeof_buf) with 1024%nat; lia)).
  destruct (decide (bs = [])) as [->|Hne].
  { exists m, g1, []. assert (ls = []) as -> by (apply (no_more cur (input fd g) ls rest); [done|exact Heq|done|by apply Hnil]). simpl.
    split_and!; [done|constructor|by rewrite Hout1, (right_id_L [] (++))|done]. }
  assert (0 < length bs)%nat as Hbs by (destruct bs; [done|simpl; lia]).
  destruct (Z.ltb_spec 0 (Z.of_nat (length bs))); [|lia]. cbn [negb]. cbv zeta.
  rewrite Hin, (assoc_L (++)) in Hbytes, Heq. pose proof Hbytes as HbT. apply Forall_app in HbT as [HbT _].
  assert (Forall is_byte bs ∧ Forall (λ b, b ≠ 0) (cur ++ bs)) as [Hbb Hnz].
  { split; [apply Forall_app in HbT as [_ HbT]|]; (eapply Forall_impl; [exact HbT|]); unfold is_byte; simpl; intros; lia. }
  destruct (fill_spec m cur bs Hcur Hmap Hbb Hnz Htot) as ([x Hx] & HT & Hmap2 & Hfr2).
  rewrite <- Nat2Z.inj_add, <- length_app. runs (store1 _ g1 _ x 0 Hx ltac:(done)).
  match type of HT with cstr ?M _ _ => set (m2 := M) in * end. clearbody m2.
  destruct (lines_exist (cur ++ bs)) as (ls1 & rest1 & HTe & Hls1 & Hrest1).
  assert (length (cur ++ bs) = (length (lines ls1) + length rest1)%nat) as HTl by (by rewrite HTe, length_app).
  rewrite length_app in HTl. rewrite HTe, <- (assoc_L (++)) in Heq.
  destruct (lines_unique _ _ _ _ Hls1 Hls Hrest Heq) as (ls2 & -> & Heq2).
  apply Forall_app in Hls as [_ Hls2]. apply Forall_app in Hmax as [_ Hmax2].
  rewrite HTe in HT. destruct (round_spec m2 g1 pattern R ls1 rest1 (pattern_kept _ _ _ _ Ho Hfr2 HR) Ho Hmap2 HT Hls1 Hrest1)
    as (m3 & m4 & g4 & out & Hrun & Hmv & Hpr & Hout & Hin4 & Hrs & Hmap4 & Hfr4); [rewrite length_app; lia|].
  runs Hrun. rewrite length_app. destruct (Z.ltb_spec 0 (Z.of_nat (length cur + length bs))); [|lia].
  replace (Z.of_nat (length cur + length bs) - (buf + Z.of_nat (length (lines ls1)) - buf)) with (Z.of_nat (length rest1)) by lia.
  runs Hmv. pose proof (in_buf_trans _ _ _ Hfr2 Hfr4) as Hfr.
  destruct (IH m4 g4 rest1 ls2) as (m' & g' & out' & Hrun' & Hpr' & Hout' & Hfr').
  - by eapply pattern_kept.
  - done.
  - done.
  - lia.
  - done.
  - rewrite Hin4. rewrite HTe, <- (assoc_L (++)) in Hbytes. by apply Forall_app in Hbytes as [_ ?].
  - by rewrite Hin4.
  - done.
  - done.
  - rewrite Hin4. rewrite Hin, length_app in Hf. lia.
  - exists m', g', (out ++ out'). split_and!; [done|by apply printed_app| |by eapply in_buf_trans].
    by rewrite Hout', Hout, Hout1, (assoc_L (++)).
Qed.
End grep_proof.

(** [match] is correct for every expression and text: it returns one exactly
    if a part of the text is in the language of the expression, with a caret at
    the beginning of the text and with a dollar up to its end, and it reads
    nothing outside the two strings and writes nothing. *)
Theorem match_correct {G} `{Stdio G} m (g : G) re R text T :
  cstr m re R → cstr m text T →
  ∃ b : bool, match_ re text (mkst m g) = Ok (if b then 1 else 0) (mkst m g) ∧ (b = true ↔ matches R T).
Proof. apply match_run. Qed.

(** C19: [grep] prints the lines of the file that match, in order, however the
    file is cut into pieces by [read], when its lines fit in the buffer.  A last
    line without a newline is not printed. *)
Theorem grep_correct {G} `{StdioLaws G} m (g : G) buf pattern R fd ls rest fuel :
  0 < buf → mapped m buf 1024 → cstr m pattern R →
  pattern + Z.of_nat (length R) < buf ∨ buf + sizeof_buf ≤ pattern →
  input fd g = lines ls ++ rest → Forall (λ l, 10 ∉ l) ls → 10 ∉ rest →
  Forall (λ b, 0 < b < 256) (input fd g) → Forall (λ l, (length l < 1023)%nat) ls →
  (length (input fd g) < fuel)%nat →
  ∃ m' g' out, grep buf fuel pattern fd (mkst m g) = Ok () (mkst m' g') ∧
    printed R ls out ∧ output g' = output g ++ out ∧
    ∀ i, i < buf ∨ buf + sizeof_buf ≤ i → m' !! i = m !! i.
Proof.
  intros Hb Hmap HR Ho Hin Hls Hrest Hbytes Hmax Hf.
  apply (grep_loop_spec buf Hb fuel m g pattern R fd [] ls rest); [done|done|done|by split|simpl; lia|apply not_elem_of_nil|done..].
Qed.

(** ** A run *)
Module GrepWitness.

(** What is left of the file, how many bytes a [read] gives at most, the output. *)
Definition files : Type := list Z * nat * list Z.

Definition piece (c : nat) (n : Z) : nat := Nat.min (S c) (Z.to_nat n).

#[export] Instance files_stdio : Stdio files := {
  fd_read fd n g := let '(inp, c, out) := g in
    (take (piece c n) inp, (drop (piece c n) inp, c, out));
  fd_write fd bs g := let '(inp, c, out) := g in (inp, c, out ++ bs);
}.

#[export] Program Instance files_laws : StdioLaws files := {
  input fd g := g.1.1;
  output g := g.2;
}.
Next Obligation.
  intros fd n [[inp c] out] bs g'. simpl. intros [= <- <-]. simpl. split_and!.
  - by rewrite take_drop.
  - rewrite length_take. unfold piece. lia.
  - destruct inp; [by right|]. destruct (piece c n) eqn:Hn; [|done]. intros _. left. unfold piece in Hn. lia.
  - done.
Qed.
Next Obligation. by intros bs [[inp c] out]. Qed.

(** The pattern [^a.*c$] at 100, the buffer at 1000. *)
Definition pat : list Z := [94; 97; 46; 42; 99; 36].
Definition mem0 : bytemap := splice (seqmap 1000 (replicate 1024 0)) 100 (pat ++ [0]).
(** The lines [abc], [xbc], [ac], and [zz] without a newline. *)
Definition sample : list (list Z) := [[97; 98; 99]; [120; 98; 99]; [97; 99]].
Definition g0 : files := (lines sample ++ [122; 122], 2%nat, []).

Lemma pat0 : cstr mem0 100 pat.
Proof. split; [split; [vm_compute; reflexivity|]|]; unfold pat; repeat constructor; done. Qed.

Lemma match_correct_witness :
  ∃ b : bool, match_ 100 101 (mkst mem0 g0) = Ok (if b then 1 else 0) (mkst mem0 g0) ∧
    (b = true ↔ matches pat (tail pat)).
Proof.
  apply (match_correct mem0 g0 100 pat 101 (tail pat)); [apply pat0|].
  split; [split; [vm_compute; reflexivity|]|]; unfold pat; repeat constructor; done.
Defined.

Lemma grep_correct_witness :
  ∃ m' g' out, grep 1000 20 100 3 (mkst mem0 g0) = Ok () (mkst m' g') ∧
    printed pat sample out ∧ g'.2 = out.
Proof.
  destruct (grep_correct mem0 g0 1000 100 pat 3 sample [122; 122] 20) as (m' & g' & out & Hr & Hp & Ho & _).
  - done.
  - intros i Hi. apply mapped_splice with (n := 1024%nat) (a := 1000); [|lia]. intros j Hj.
    replace j with (1000 + Z.of_nat (Z.to_nat (j - 1000))) by lia.
    rewrite seqmap_lookup_Some. apply lookup_lt_is_Some. rewrite length_replicate. lia.
  - apply pat0.
  - left. vm_compute. reflexivity.
  - reflexivity.
  - unfold sample. repeat constructor; set_solver.
  - set_solver.
  - simpl. repeat constructor; done.
  - unfold sample. repeat constructor; simpl; lia.
  - vm_compute. lia.
  - exists m', g', out. by split_and!.
Defined.

Example grep_runs :
  match grep 1000 20 100 3 (mkst mem0 g0) with Ok _ s => (glob s).2 | Err _ => [] end = [97; 98; 99; 10; 97; 99; 10].
Proof. vm_compute. reflexivity. Qed.
End GrepWitness.
