(* ===== verification/Console.v ===== *)
(** * kernel/console.c and kernel/uart.c

    The console's line editor and the transmit buffer of the serial port, as
    code that runs while the lock is held, cut where it sleeps; processes that
    read and write, and interrupts, in any order.  The input ring refines a
    queue of committed bytes and a line being edited; the output ring is a
    queue.  What the port's status register says is arbitrary. *)
From stdpp Require Import list gmap.
From S2P Require Import Prelude.

#[local] Open Scope Z_scope.

Definition BACKSPACE : Z := 256.
Definition Ctrl (x : Z) : Z := x - 64.
Definition INPUT_BUF_SIZE : Z := 128.
Definition UART_TX_BUF_SIZE : Z := 32.

(** [cons], the transmit buffer, the two locks, the processes that sleep on
    [&cons.r] and on [&uart_tx_r], what the next reads of LSR will say, the
    bytes written to THR, tagged with whether they came from the buffer, and
    [panicked] of printf.c. *)
Record tty := mktty {
  cbuf : list Z; cr : Z; cw : Z; ce : Z; clock : bool; rsleep : gset nat;
  tbuf : list Z; tw : Z; tr : Z; tlock : bool; wsleep : gset nat;
  lsr : list bool; thr : list (bool * Z); panicked : bool }.

Definition set_cbuf x t := mktty x (cr t) (cw t) (ce t) (clock t) (rsleep t) (tbuf t) (tw t) (tr t) (tlock t) (wsleep t) (lsr t) (thr t) (panicked t).
Definition set_cr x t := mktty (cbuf t) x (cw t) (ce t) (clock t) (rsleep t) (tbuf t) (tw t) (tr t) (tlock t) (wsleep t) (lsr t) (thr t) (panicked t).
Definition set_cw x t := mktty (cbuf t) (cr t) x (ce t) (clock t) (rsleep t) (tbuf t) (tw t) (tr t) (tlock t) (wsleep t) (lsr t) (thr t) (panicked t).
Definition set_ce x t := mktty (cbuf t) (cr t) (cw t) x (clock t) (rsleep t) (tbuf t) (tw t) (tr t) (tlock t) (wsleep t) (lsr t) (thr t) (panicked t).
Definition set_clock x t := mktty (cbuf t) (cr t) (cw t) (ce t) x (rsleep t) (tbuf t) (tw t) (tr t) (tlock t) (wsleep t) (lsr t) (thr t) (panicked t).
Definition set_rsleep x t := mktty (cbuf t) (cr t) (cw t) (ce t) (clock t) x (tbuf t) (tw t) (tr t) (tlock t) (wsleep t) (lsr t) (thr t) (panicked t).
Definition set_tbuf x t := mktty (cbuf t) (cr t) (cw t) (ce t) (clock t) (rsleep t) x (tw t) (tr t) (tlock t) (wsleep t) (lsr t) (thr t) (panicked t).
Definition set_tw x t := mktty (cbuf t) (cr t) (cw t) (ce t) (clock t) (rsleep t) (tbuf t) x (tr t) (tlock t) (wsleep t) (lsr t) (thr t) (panicked t).
Definition set_tr x t := mktty (cbuf t) (cr t) (cw t) (ce t) (clock t) (rsleep t) (tbuf t) (tw t) x (tlock t) (wsleep t) (lsr t) (thr t) (panicked t).
Definition set_tlock x t := mktty (cbuf t) (cr t) (cw t) (ce t) (clock t) (rsleep t) (tbuf t) (tw t) (tr t) x (wsleep t) (lsr t) (thr t) (panicked t).
Definition set_wsleep x t := mktty (cbuf t) (cr t) (cw t) (ce t) (clock t) (rsleep t) (tbuf t) (tw t) (tr t) (tlock t) x (lsr t) (thr t) (panicked t).
Definition set_lsr x t := mktty (cbuf t) (cr t) (cw t) (ce t) (clock t) (rsleep t) (tbuf t) (tw t) (tr t) (tlock t) (wsleep t) x (thr t) (panicked t).
Definition set_thr x t := mktty (cbuf t) (cr t) (cw t) (ce t) (clock t) (rsleep t) (tbuf t) (tw t) (tr t) (tlock t) (wsleep t) (lsr t) x (panicked t).
Definition set_panicked x t := mktty (cbuf t) (cr t) (cw t) (ce t) (clock t) (rsleep t) (tbuf t) (tw t) (tr t) (tlock t) (wsleep t) (lsr t) (thr t) x.

Abbreviation T := (M tty).

Definition acquire_cons : T unit := λ t, if clock t then Err (Panic "acquire") else Ok () (set_clock true t).
Definition release_cons : T unit := λ t, if clock t then Ok () (set_clock false t) else Err (Panic "release").
Definition acquire_tx : T unit := λ t, if tlock t then Err (Panic "acquire") else Ok () (set_tlock true t).
Definition release_tx : T unit := λ t, if tlock t then Ok () (set_tlock false t) else Err (Panic "release").

Definition at_ (f : tty → list Z) (i : Z) : T Z := λ t,
  match f t !! Z.to_nat i with Some c => Ok c t | None => Err (Undef "array index") end.

(** ** kernel/uart.c *)

(** [ReadReg(LSR) & LSR_TX_IDLE]. *)
Definition tx_idle : T bool := λ t,
  match lsr t with [] => Ok false t | b :: l => Ok b (set_lsr l t) end.
Definition write_thr (buffered : bool) (c : Z) : T unit := modify (λ t, set_thr (thr t ++ [(buffered, u8 c)]) t).

(** [if(panicked) for(;;);] *)
Definition freeze : T unit := p ← gets panicked; when p (fail Spinning).

(** The loop waits for the port, which is the device's business. *)
Definition uartputc_sync (c : Z) : T unit := freeze;; write_thr false c.

(** The buffer has at most [fuel] bytes. *)
Fixpoint uartstart_loop (fuel : nat) : T unit :=
  match fuel with
  | O => fail NoFuel
  | S fuel =>
      w ← gets tw;
      r ← gets tr;
      if w =? r then mret () else
      i ← tx_idle;
      if negb i then mret () else
      c ← at_ tbuf (r `mod` UART_TX_BUF_SIZE);
      modify (set_tr (u64 (r + 1)));;
      modify (set_wsleep ∅);;
      write_thr true c;;
      uartstart_loop fuel
  end.
Definition uartstart : T unit := uartstart_loop (Z.to_nat (UART_TX_BUF_SIZE + 1)).

(** [uartputc] with the lock held, until it sleeps ([false]) or is done. *)
Definition putc_body (pid : nat) (c : Z) : T bool :=
  w ← gets tw;
  r ← gets tr;
  if w =? u64 (r + UART_TX_BUF_SIZE) then
    modify (λ t, set_wsleep ({[pid]} ∪ wsleep t) t);; release_tx;; mret false
  else
    at_ tbuf (w `mod` UART_TX_BUF_SIZE);;
    modify (λ t, set_tbuf (<[Z.to_nat (w `mod` UART_TX_BUF_SIZE) := u8 c]> (tbuf t)) t);;
    modify (set_tw (u64 (w + 1)));;
    uartstart;;
    release_tx;;
    mret true.
Definition uartputc (pid : nat) (c : Z) : T bool := acquire_tx;; freeze;; putc_body pid c.
(** The process was woken up in [uartputc]. *)
Definition putc_resume (pid : nat) (c : Z) : T bool := acquire_tx;; putc_body pid c.

(** ** kernel/console.c *)

Definition consputc (c : Z) : T unit :=
  if c =? BACKSPACE then uartputc_sync 8;; uartputc_sync 32;; uartputc_sync 8 else uartputc_sync c.

(** How a call of [consolewrite] leaves the CPU: asleep with byte [i] in hand,
    or with its result. *)
Inductive wres := WSleep (i c : Z) | WDone (i : Z).

(** [src] is what [either_copyin] finds at an address. *)
Fixpoint write_loop (fuel : nat) (pid : nat) (src : Z → option Z) (addr i n : Z) : T wres :=
  match fuel with
  | O => fail NoFuel
  | S fuel =>
      if negb (i <? n) then mret (WDone i) else
      match src (addr + i) with
      | None => mret (WDone i)
      | Some c =>
          b ← uartputc pid c;
          if (b : bool) then write_loop fuel pid src addr (i + 1) n else mret (WSleep i c)
      end
  end.
Definition consolewrite (pid : nat) (src : Z → option Z) (addr n : Z) : T wres :=
  write_loop (S (Z.to_nat n)) pid src addr 0 n.
(** The process was woken up in [uartputc]. *)
Definition write_resume (pid : nat) (src : Z → option Z) (addr i c n : Z) : T wres :=
  b ← putc_resume pid c;
  if (b : bool) then write_loop (S (Z.to_nat n)) pid src addr (i + 1) n else mret (WSleep i c).

(** The same for [consoleread]: [got] are the bytes copied to the user so far. *)
Inductive rres := RSleep (dst n : Z) (got : list Z) | RDone (ret : Z) (got : list Z).

Definition read_done (target n : Z) (got : list Z) : T rres :=
  release_cons;; mret (RDone (target - n) got).

(** [okc] tells where [either_copyout] succeeds. *)
Fixpoint read_loop (fuel pid : nat) (okc : Z → bool) (killed : bool) (target dst n : Z) (got : list Z) : T rres :=
  match fuel with
  | O => fail NoFuel
  | S fuel =>
      if negb (0 <? n) then read_done target n got else
      r ← gets cr;
      w ← gets cw;
      if r =? w then
        if killed then release_cons;; mret (RDone (-1) got)
        else modify (λ t, set_rsleep ({[pid]} ∪ rsleep t) t);; release_cons;; mret (RSleep dst n got)
      else
        c ← at_ cbuf (r `mod` INPUT_BUF_SIZE);
        modify (set_cr (u32 (r + 1)));;
        if c =? Ctrl 68 then
          when (n <? target) (modify (λ t, set_cr (u32 (cr t - 1)) t));;
          read_done target n got
        else if negb (okc dst) then read_done target n got
        else if c =? 10 then read_done target (n - 1) (got ++ [c])
        else read_loop fuel pid okc killed target (dst + 1) (n - 1) (got ++ [c])
  end.
Definition consoleread (pid : nat) (okc : Z → bool) (killed : bool) (dst n : Z) : T rres :=
  acquire_cons;; read_loop (S (Z.to_nat n)) pid okc killed n dst n [].
(** The process was woken up in its [while] loop. *)
Definition read_resume (pid : nat) (okc : Z → bool) (killed : bool) (target dst n : Z) (got : list Z) : T rres :=
  acquire_cons;; read_loop (S (Z.to_nat n)) pid okc killed target dst n got.

(** The loop of Control-U. *)
Fixpoint kill_line (fuel : nat) : T unit :=
  match fuel with
  | O => fail NoFuel
  | S fuel =>
      e ← gets ce;
      w ← gets cw;
      if e =? w then mret () else
      c ← at_ cbuf (u32 (e - 1) `mod` INPUT_BUF_SIZE);
      if c =? 10 then mret () else
      modify (set_ce (u32 (e - 1)));;
      consputc BACKSPACE;;
      kill_line fuel
  end.

(** [procdump] prints and changes nothing. *)
Definition consoleintr (c : Z) : T unit :=
  acquire_cons;;
  (if c =? Ctrl 80 then mret ()
   else if c =? Ctrl 85 then kill_line (Z.to_nat (INPUT_BUF_SIZE + 1))
   else if (c =? Ctrl 72) || (c =? 127) then
     e ← gets ce;
     w ← gets cw;
     when (negb (e =? w)) (modify (set_ce (u32 (e - 1)));; consputc BACKSPACE)
   else
     e ← gets ce;
     r ← gets cr;
     when (negb (c =? 0) && (u32 (e - r) <? INPUT_BUF_SIZE))
       (let c := if c =? 13 then 10 else c in
        consputc c;;
        at_ cbuf (e `mod` INPUT_BUF_SIZE);;
        modify (λ t, set_cbuf (<[Z.to_nat (e `mod` INPUT_BUF_SIZE) := u8 c]> (cbuf t)) t);;
        modify (set_ce (u32 (e + 1)));;
        when ((c =? 10) || (c =? Ctrl 68) || (u32 (u32 (e + 1) - r) =? INPUT_BUF_SIZE))
          (modify (set_cw (u32 (e + 1)));; modify (set_rsleep ∅))));;
  release_cons.

(** [uartintr]: the characters that [uartgetc] gives, then the transmit side. *)
Fixpoint intr_chars (cs : list Z) : T unit :=
  match cs with [] => mret () | c :: cs => consoleintr c;; intr_chars cs end.
Definition send_buffered : T unit := acquire_tx;; uartstart;; release_tx.
Definition uartintr (cs : list Z) : T unit := intr_chars cs;; send_buffered.

Definition consoleinit : tty :=
  mktty (replicate 128 0) 0 0 0 false ∅ (replicate 32 0) 0 0 false ∅ [] [] false.

(** ** Rings *)

(** [l] is in the ring [buf] of [sz] bytes from position [s] on. *)
Definition holds_from (buf : list Z) (sz s : Z) (l : list Z) : Prop :=
  Z.of_nat (length buf) = sz ∧ ∀ k c, l !! k = Some c → buf !! Z.to_nat ((s + Z.of_nat k) `mod` sz) = Some c.

Section rings.
Context (sz : Z) (Hsz : 0 < sz).
Implicit Types buf l : list Z.

Lemma from_nil buf s : Z.of_nat (length buf) = sz → holds_from buf sz s [].
Proof. intros Hb. split; [done|]. intros k c. by rewrite lookup_nil. Qed.

Lemma from_push buf s l c :
  holds_from buf sz s l → Z.of_nat (length l) < sz →
  holds_from (<[Z.to_nat ((s + Z.of_nat (length l)) `mod` sz) := c]> buf) sz s (l ++ [c]).
Proof.
  intros [Hb Hl] Hlt. split; [by rewrite length_insert|]. intros k c' Hk.
  assert (∀ z, 0 ≤ z `mod` sz < sz) as Hm by (intros z; by apply Z.mod_pos_bound).
  apply lookup_app_Some in Hk as [Hk|[Hge Hk]].
  - rewrite list_lookup_insert_ne; [by apply Hl|]. apply lookup_lt_Some in Hk. intros Heq%Z2Nat.inj; [|apply Hm..].
    pose proof (Z.div_mod (s + Z.of_nat (length l)) sz ltac:(lia)). pose proof (Z.div_mod (s + Z.of_nat k) sz ltac:(lia)).
    set (j := (s + Z.of_nat (length l)) / sz) in *. set (j' := (s + Z.of_nat k) / sz) in *.
    assert (Z.of_nat (length l) - Z.of_nat k = sz * (j - j')) by lia. destruct (decide (1 ≤ j - j')); nia.
  - apply list_lookup_singleton_Some in Hk as [Hk <-]. replace k with (length l) by lia.
    apply list_lookup_insert_eq. specialize (Hm (s + Z.of_nat (length l))). lia.
Qed.

Lemma from_head buf s c l : holds_from buf sz s (c :: l) → buf !! Z.to_nat (s `mod` sz) = Some c.
Proof. intros [_ Hl]. specialize (Hl 0%nat c eq_refl). by rewrite Z.add_0_r in Hl. Qed.
Lemma from_pop buf s c l : holds_from buf sz s (c :: l) → holds_from buf sz (s + 1) l.
Proof.
  intros [Hb Hl]. split; [done|]. intros k c' Hk. rewrite <- (Hl (S k) c' Hk). do 3 f_equal. lia.
Qed.
Lemma from_prefix buf s l1 l2 : holds_from buf sz s (l1 ++ l2) → holds_from buf sz s l1.
Proof. intros [Hb Hl]. split; [done|]. intros k c Hk. apply Hl. by apply lookup_app_l_Some. Qed.
Lemma from_last buf s l c :
  holds_from buf sz s (l ++ [c]) → buf !! Z.to_nat ((s + Z.of_nat (length l)) `mod` sz) = Some c.
Proof. intros [_ Hl]. apply Hl. by apply list_lookup_middle. Qed.

(** Indices that wrap around at a multiple of the size. *)
Lemma from_wrap w buf s l : 0 ≤ w → (sz | 2 ^ w) → holds_from buf sz (wrap w s) l ↔ holds_from buf sz s l.
Proof.
  intros Hw Hd. assert (∀ k, (wrap w s + k) `mod` sz = (s + k) `mod` sz) as Hm.
  { intros k. unfold wrap.
    rewrite <- Zplus_mod_idemp_l, <- Znumtheory.Zmod_div_mod, Zplus_mod_idemp_l; [done|lia|by apply Z.pow_pos_nonneg|done]. }
  unfold holds_from. by setoid_rewrite Hm.
Qed.
End rings.

Lemma wrap_plus w a b : wrap w (wrap w a + b) = wrap w (a + b).
Proof. unfold wrap. by rewrite Zplus_mod_idemp_l. Qed.
Lemma wrap_sub w a b : wrap w (wrap w a - b) = wrap w (a - b).
Proof. unfold wrap. by rewrite Zminus_mod_idemp_l. Qed.

(** ** The console as a queue of bytes and a line being edited *)

Record line := mkline { lq : list Z; ledit : list Z }.

Definition erase : list Z := [8; 32; 8].

(** What a character does, and what is echoed. *)
Definition spec_intr (c : Z) (a : line) : line * list Z :=
  let '(mkline q e) := a in
  if c =? Ctrl 80 then (a, [])
  else if c =? Ctrl 85 then (mkline q [], mjoin (replicate (length e) erase))
  else if (c =? Ctrl 72) || (c =? 127) then
    match e with [] => (a, []) | _ => (mkline q (take (length e - 1) e), erase) end
  else if (c =? 0) || (INPUT_BUF_SIZE <=? Z.of_nat (length (q ++ e))) then (a, [])
  else
    let c := if c =? 13 then 10 else c in
    if (c =? 10) || (c =? Ctrl 68) || (Z.of_nat (length (q ++ e ++ [c])) =? INPUT_BUF_SIZE)
    then (mkline (q ++ e ++ [c]) [], [c]) else (mkline q (e ++ [c]), [c]).

(** What a read takes from the queue. *)
Fixpoint spec_read (okc : Z → bool) (killed : bool) (target dst n : Z) (got q : list Z) : rres * list Z :=
  if negb (0 <? n) then (RDone (target - n) got, q) else
  match q with
  | [] => (if killed then RDone (-1) got else RSleep dst n got, [])
  | c :: q' =>
      if c =? Ctrl 68 then (RDone (target - n) got, if n <? target then q else q')
      else if negb (okc dst) then (RDone (target - n) got, q')
      else if c =? 10 then (RDone (target - (n - 1)) (got ++ [c]), q')
      else spec_read okc killed target (dst + 1) (n - 1) (got ++ [c]) q'
  end.

(** The memory holds the queue and the line; the console lock is [lk]. *)
Record crel (lk : bool) (t : tty) (a : line) : Prop := {
  cl_lock : clock t = lk;
  cl_r : 0 ≤ cr t < 2 ^ 32;
  cl_w : cw t = u32 (cr t + Z.of_nat (length (lq a)));
  cl_e : ce t = u32 (cr t + Z.of_nat (length (lq a ++ ledit a)));
  cl_len : Z.of_nat (length (lq a ++ ledit a)) ≤ INPUT_BUF_SIZE;
  cl_ring : holds_from (cbuf t) INPUT_BUF_SIZE (cr t) (lq a ++ ledit a);
  cl_line : 10 ∉ ledit a;
  cl_sleep : rsleep t ≠ ∅ → lq a = [];
  cl_run : panicked t = false;
}.

(** The parts of the state that belong to the port. *)
Definition port (t : tty) := (tbuf t, tw t, tr t, tlock t, wsleep t, lsr t, panicked t).
Definition cons_part (t : tty) := (cbuf t, cr t, cw t, ce t, clock t, rsleep t, panicked t).
Definition echoed (t t' : tty) (l : list Z) : Prop := port t' = port t ∧ thr t' = thr t ++ ((λ c, (false, c)) <$> l).

Lemma echoed_nil t t' : port t' = port t → thr t' = thr t → echoed t t' [].
Proof. intros Hp Ht. split; [done|]. simpl. by rewrite Ht, (right_id_L [] (++)). Qed.

Lemma acquire_cons_run t a : crel false t a → acquire_cons t = Ok () (set_clock true t) ∧ crel true (set_clock true t) a.
Proof. intros []. unfold acquire_cons. rewrite cl_lock0. split; [done|]. split; done. Qed.
Lemma release_cons_run t a : crel true t a → release_cons t = Ok () (set_clock false t) ∧ crel false (set_clock false t) a.
Proof. intros []. unfold release_cons. rewrite cl_lock0. split; [done|]. split; done. Qed.

Lemma at_run f i c t : f t !! Z.to_nat i = Some c → at_ f i t = Ok c t.
Proof. intros Hc. unfold at_. by rewrite Hc. Qed.

(** *** Reading *)

(** One byte is taken from the queue. *)
Lemma crel_pop t c q e :
  crel true t (mkline (c :: q) e) →
  cr t ≠ cw t ∧ cbuf t !! Z.to_nat (cr t `mod` INPUT_BUF_SIZE) = Some c ∧ crel true (set_cr (u32 (cr t + 1)) t) (mkline q e).
Proof.
  intros [H1 H2 H3 H4 H5 H6 H7 H8]. simpl in *. split_and!.
  - rewrite H3. unfold wrap, INPUT_BUF_SIZE in *. rewrite Nat2Z.inj_succ, length_app in *. dlia.
  - by apply (from_head INPUT_BUF_SIZE) in H6.
  - split; simpl; try done.
    + apply wrap_range. lia.
    + rewrite H3. rewrite wrap_plus. f_equal. lia.
    + rewrite H4. rewrite wrap_plus. f_equal. lia.
    + lia.
    + apply from_wrap; [done|done|by exists 33554432|]. by apply (from_pop INPUT_BUF_SIZE) in H6.
    + intros Hs. by specialize (H8 Hs).
Qed.

Lemma crel_empty t e : crel true t (mkline [] e) → cr t = cw t.
Proof. intros [_ H2 H3 _ _ _ _ _]. simpl in H3. rewrite Z.add_0_r in H3. rewrite H3. by rewrite wrap_small. Qed.

(** A byte is put back. *)
Lemma crel_unpop t c q e :
  crel true t (mkline (c :: q) e) → crel true (set_cr (u32 (u32 (cr t + 1) - 1)) (set_cr (u32 (cr t + 1)) t)) (mkline (c :: q) e).
Proof.
  intros Hc. assert (u32 (u32 (cr t + 1) - 1) = cr t) as ->.
  { rewrite wrap_sub. replace (cr t + 1 - 1) with (cr t) by lia. apply wrap_small, Hc. }
  destruct Hc. by split.
Qed.

Lemma read_loop_spec fuel pid okc killed target dst n got t q e :
  crel true t (mkline q e) → (Z.to_nat n < fuel)%nat →
  ∃ t', read_loop fuel pid okc killed target dst n got t = Ok (spec_read okc killed target dst n got q).1 t' ∧
    crel false t' (mkline (spec_read okc killed target dst n got q).2 e) ∧ port t' = port t ∧ thr t' = thr t.
Proof.
  assert (∀ t t1 q n got, crel true t1 (mkline q e) → port t1 = port t → thr t1 = thr t →
    ∃ t', read_done target n got t1 = Ok (RDone (target - n) got) t' ∧
    crel false t' (mkline q e) ∧ port t' = port t ∧ thr t' = thr t) as Hdone.
  { intros t0 t1 q0 n0 got0 H0 Hp Ht. destruct (release_cons_run _ _ H0) as [Hr Hc]. exists (set_clock false t1).
    unfold read_done. by runs Hr. }
  induction fuel as [|fuel IH] in t, q, dst, n, got |- *; intros Hc Hf; [lia|]. cbn [read_loop].
  destruct q as [|c q]; cbn [spec_read]; destruct (Z.ltb_spec 0 n); cbn [negb]; [|by apply (Hdone t)| |by apply (Hdone t)].
  - erewrite bind_ok by reflexivity. cbv beta. erewrite bind_ok by reflexivity. cbv beta.
    rewrite (crel_empty _ _ Hc), Z.eqb_refl. destruct killed.
    + destruct (release_cons_run _ _ Hc) as [Hr Hc']. runs Hr. by eexists.
    + erewrite bind_ok by reflexivity. cbv beta. set (t1 := set_rsleep _ t).
      assert (crel true t1 (mkline [] e)) as Hc1 by (destruct Hc; by split).
      destruct (release_cons_run _ _ Hc1) as [Hr Hc']. runs Hr. by eexists.
  - destruct (crel_pop _ _ _ _ Hc) as (Hne & Hb & Hc'). erewrite bind_ok by reflexivity. cbv beta.
    erewrite bind_ok by reflexivity. cbv beta. destruct (Z.eqb_spec (cr t) (cw t)); [done|].
    erewrite bind_ok by (by apply at_run). cbv beta. erewrite bind_ok by reflexivity. cbv beta.
    destruct (c =? Ctrl 68); [|destruct (okc dst); cbn [negb]; [|by apply (Hdone t)]; destruct (c =? 10)].
    + destruct (n <? target).
      * simpl when. erewrite bind_ok by reflexivity. cbv beta. apply (Hdone t); [|done..]. by apply crel_unpop.
      * simpl when. erewrite bind_ok by reflexivity. cbv beta. by apply (Hdone t).
    + by apply (Hdone t).
    + destruct (IH (dst + 1) (n - 1) (got ++ [c]) (set_cr (u32 (cr t + 1)) t) q Hc') as (t' & Hr & Hrel & Hp & Ht); [lia|].
      by exists t'.
Qed.

(** *** Typing *)

Lemma freeze_run t : panicked t = false → freeze t = Ok () t.
Proof. intros Hp. unfold freeze. erewrite bind_ok by reflexivity. cbv beta. by rewrite Hp. Qed.

Lemma sync_run c t : panicked t = false → 0 ≤ c < 256 → uartputc_sync c t = Ok () (set_thr (thr t ++ [(false, c)]) t).
Proof. intros Hp Hc. unfold uartputc_sync. runs (freeze_run t Hp). unfold write_thr, modify. by rewrite wrap_small by lia. Qed.

Lemma consputc_run c t : panicked t = false → 0 ≤ c < 256 → consputc c t = Ok () (set_thr (thr t ++ [(false, c)]) t).
Proof.
  intros Hp Hc. unfold consputc, BACKSPACE. destruct (Z.eqb_spec c 256); [lia|]. by apply sync_run.
Qed.
Lemma backspace_run t : panicked t = false → consputc BACKSPACE t = Ok () (set_thr (thr t ++ ((λ c, (false, c)) <$> erase)) t).
Proof.
  intros Hp. unfold consputc. rewrite Z.eqb_refl. do 2 (erewrite bind_ok by (by apply sync_run); cbv beta). rewrite sync_run by done.
  f_equal. unfold set_thr. simpl. by rewrite <- !(assoc_L (++)).
Qed.

(** The last character of the line goes. *)
Lemma crel_erase t q e c :
  crel true t (mkline q (e ++ [c])) →
  ce t ≠ cw t ∧ cbuf t !! Z.to_nat (u32 (ce t - 1) `mod` INPUT_BUF_SIZE) = Some c ∧
  crel true (set_ce (u32 (ce t - 1)) t) (mkline q e) ∧ c ≠ 10.
Proof.
  intros [H1 H2 H3 H4 H5 H6 H7 H8]. simpl in *. rewrite (assoc_L (++)) in H6.
  assert (u32 (ce t - 1) = u32 (cr t + Z.of_nat (length (q ++ e)))) as He.
  { rewrite H4, wrap_sub, (assoc_L (++)), (length_app (q ++ e)). simpl. f_equal. lia. }
  rewrite !length_app in *. simpl in *. split_and!.
  - rewrite H3, H4. unfold wrap, INPUT_BUF_SIZE in *. dlia.
  - rewrite He. assert (∀ z, u32 z `mod` INPUT_BUF_SIZE = z `mod` INPUT_BUF_SIZE) as Hm.
    { intros z. unfold wrap. symmetry. apply Znumtheory.Zmod_div_mod; [done|done|by exists 33554432]. }
    rewrite Hm, <- length_app. by apply (from_last INPUT_BUF_SIZE).
  - split; simpl; rewrite ?length_app; try done; [lia| |set_solver].
    by apply (from_prefix INPUT_BUF_SIZE) in H6.
  - set_solver.
Qed.

Lemma crel_thr lk t a l : crel lk t a → crel lk (set_thr l t) a.
Proof. intros []. by split. Qed.

Lemma kill_line_spec fuel t q e :
  crel true t (mkline q e) → (length e < fuel)%nat →
  ∃ t', kill_line fuel t = Ok () t' ∧ crel true t' (mkline q []) ∧ echoed t t' (mjoin (replicate (length e) erase)).
Proof.
  induction e as [|c e IH] in fuel, t |- * using rev_ind; intros Hc Hf; (destruct fuel as [|fuel]; [lia|]); cbn [kill_line];
    (erewrite bind_ok by reflexivity); cbv beta; (erewrite bind_ok by reflexivity); cbv beta.
  - assert (ce t = cw t) as -> by (destruct Hc; simpl in *; by rewrite (right_id_L [] (++)) in *; congruence).
    rewrite Z.eqb_refl. exists t. split_and!; [done|done|by apply echoed_nil].
  - destruct (crel_erase _ _ _ _ Hc) as (Hne & Hb & Hc' & Hnl). destruct (Z.eqb_spec (ce t) (cw t)); [done|].
    erewrite bind_ok by (by apply at_run). cbv beta. destruct (Z.eqb_spec c 10); [done|].
    erewrite bind_ok by reflexivity. cbv beta. erewrite bind_ok by (apply backspace_run, Hc). cbv beta.
    rewrite length_app in Hf. simpl in Hf. edestruct (IH fuel) as (t' & Hr & Hrel & Hp & Ht); [by apply crel_thr, Hc'|lia|].
    exists t'. split_and!; [exact Hr|done|]. split; [by rewrite Hp|]. rewrite Ht, length_app, Nat.add_1_r. simpl.
    by rewrite <- (assoc_L (++)).
Qed.

(** A character is added to the line, and the line perhaps committed. *)
Lemma crel_insert t q e c :
  crel true t (mkline q e) → Z.of_nat (length (q ++ e)) < INPUT_BUF_SIZE →
  is_Some (cbuf t !! Z.to_nat (ce t `mod` INPUT_BUF_SIZE)) ∧
  let t' := set_ce (u32 (ce t + 1)) (set_cbuf (<[Z.to_nat (ce t `mod` INPUT_BUF_SIZE) := c]> (cbuf t)) t) in
  (c ≠ 10 → crel true t' (mkline q (e ++ [c]))) ∧
  crel true (set_rsleep ∅ (set_cw (u32 (ce t + 1)) t')) (mkline (q ++ e ++ [c]) []) ∧
  u32 (u32 (ce t + 1) - cr t) = Z.of_nat (length (q ++ e ++ [c])).
Proof.
  intros [H1 H2 H3 H4 H5 H6 H7 H8] Hlt. simpl in *.
  assert (∀ z, u32 z `mod` INPUT_BUF_SIZE = z `mod` INPUT_BUF_SIZE) as Hm.
  { intros z. unfold wrap. symmetry. apply Znumtheory.Zmod_div_mod; [done|done|by exists 33554432]. }
  assert (u32 (ce t + 1) = u32 (cr t + Z.of_nat (length (q ++ e ++ [c])))) as He.
  { rewrite H4, wrap_plus, (assoc_L (++)), (length_app (q ++ e)). simpl. f_equal. lia. }
  pose proof (from_push INPUT_BUF_SIZE ltac:(done) _ _ _ c H6 Hlt) as Hring. rewrite H4, Hm, <- H4.
  rewrite <- (assoc_L (++)) in Hring.
  assert (Z.of_nat (length (q ++ e ++ [c])) ≤ INPUT_BUF_SIZE) as Hle by (rewrite !length_app in *; simpl; lia).
  split_and!.
  - apply lookup_lt_is_Some. destruct H6 as [Hl _]. pose proof (Z.mod_pos_bound (cr t + Z.of_nat (length (q ++ e))) INPUT_BUF_SIZE ltac:(done)). lia.
  - intros Hc. split; simpl; try done. set_solver.
  - split; simpl; rewrite ?(right_id_L [] (++)); try done. apply not_elem_of_nil.
  - rewrite He, wrap_sub. replace (cr t + Z.of_nat (length (q ++ e ++ [c])) - cr t) with (Z.of_nat (length (q ++ e ++ [c]))) by lia.
    apply wrap_small. unfold INPUT_BUF_SIZE in Hle. lia.
Qed.

(** Run one step that cannot fail. *)
Ltac step := erewrite bind_ok by reflexivity; cbv beta.

(** Any other key. *)
Lemma type_char_spec c t q e :
  crel true t (mkline q e) → 0 < c < 256 → Z.of_nat (length (q ++ e)) < INPUT_BUF_SIZE →
  let commit := (c =? 10) || (c =? Ctrl 68) || (Z.of_nat (length (q ++ e ++ [c])) =? INPUT_BUF_SIZE) in
  ∃ t', (consputc c;;
    at_ cbuf (ce t `mod` INPUT_BUF_SIZE);;
    modify (λ t', set_cbuf (<[Z.to_nat (ce t `mod` INPUT_BUF_SIZE) := u8 c]> (cbuf t')) t');;
    modify (set_ce (u32 (ce t + 1)));;
    when ((c =? 10) || (c =? Ctrl 68) || (u32 (u32 (ce t + 1) - cr t) =? INPUT_BUF_SIZE))
      (modify (set_cw (u32 (ce t + 1)));; modify (set_rsleep ∅))) t = Ok () t' ∧
    crel true t' (if commit then mkline (q ++ e ++ [c]) [] else mkline q (e ++ [c])) ∧ echoed t t' [c].
Proof.
  intros Hc Hb Hlt commit. erewrite bind_ok by (apply consputc_run; [apply Hc|lia]). cbv beta.
  set (t1 := set_thr (thr t ++ [(false, c)]) t). assert (crel true t1 (mkline q e)) as Hc1 by by apply crel_thr.
  destruct (crel_insert t1 q e c Hc1 Hlt) as ([x Hx] & Hno & Hyes & Hlen).
  rewrite (wrap_small 8) by lia. erewrite bind_ok by (by apply at_run). cbv beta. step. step.
  change (ce t1) with (ce t) in Hlen, Hno, Hyes. change (cr t1) with (cr t) in Hlen. rewrite Hlen. fold commit.
  destruct commit eqn:Hcm; simpl when.
  - step. eexists. split_and!; [reflexivity|exact Hyes|]. by split.
  - eexists. split_and!; [reflexivity|apply Hno|by split]. intros ->. done.
Qed.

Lemma consoleintr_spec c t a :
  crel false t a → 0 ≤ c < 256 →
  ∃ t', consoleintr c t = Ok () t' ∧ crel false t' (spec_intr c a).1 ∧ echoed t t' (spec_intr c a).2.
Proof.
  intros Hc Hb. destruct (acquire_cons_run _ _ Hc) as [Ha Hc1]. unfold consoleintr. runs Ha.
  set (t1 := set_clock true t) in *.
  match goal with |- ∃ _, (?body ;; release_cons) _ = _ ∧ _ =>
    assert (∃ t2, body t1 = Ok () t2 ∧ crel true t2 (spec_intr c a).1 ∧ echoed t1 t2 (spec_intr c a).2) as (t2 & Hr & Hc2 & He) end.
  { destruct a as [q e]. unfold spec_intr. destruct (c =? Ctrl 80).
    { exists t1. split_and!; [done|done|by apply echoed_nil]. }
    destruct (c =? Ctrl 85).
    { apply kill_line_spec; [done|]. destruct Hc1 as [_ _ _ _ Hl _ _ _]. simpl in Hl. rewrite length_app in Hl.
      unfold INPUT_BUF_SIZE in *. lia. }
    destruct ((c =? Ctrl 72) || (c =? 127)).
    { step. step. destruct e as [|x e _] using rev_ind.
      - assert (ce t1 = cw t1) as -> by (destruct Hc1; simpl in *; by rewrite (right_id_L [] (++)) in *; congruence).
        rewrite Z.eqb_refl. exists t1. split_and!; [done|done|by apply echoed_nil].
      - destruct (crel_erase _ _ _ _ Hc1) as (Hne & _ & Hc' & _). destruct (Z.eqb_spec (ce t1) (cw t1)); [done|].
        cbn [negb when]. step. rewrite backspace_run by apply Hc1. eexists. split; [reflexivity|].
        assert (take (length (e ++ [x]) - 1) (e ++ [x]) = e) as Htk.
        { rewrite length_app, Nat.add_sub. apply take_app_length. }
        destruct (e ++ [x]) as [|y l] eqn:Hex; [by destruct e|]. rewrite Htk. split; [by apply crel_thr|done]. }
    step. step. assert (u32 (ce t1 - cr t1) = Z.of_nat (length (q ++ e))) as ->.
    { destruct Hc1 as [_ _ _ He _ Hl _ _]. simpl in *. rewrite He, wrap_sub.
      replace (cr t + Z.of_nat (length (q ++ e)) - cr t) with (Z.of_nat (length (q ++ e))) by lia.
      destruct Hc as [_ _ _ _ Hl' _ _ _]. simpl in Hl'. apply wrap_small. unfold INPUT_BUF_SIZE in *. lia. }
    destruct (Z.eqb_spec c 0) as [->|Hc0]; [exists t1; split_and!; [done|done|by apply echoed_nil]|]. cbn [negb andb orb].
    destruct (Z.ltb_spec (Z.of_nat (length (q ++ e))) INPUT_BUF_SIZE), (Z.leb_spec INPUT_BUF_SIZE (Z.of_nat (length (q ++ e)))); try lia.
    - cbn [when]. cbv zeta. destruct (type_char_spec (if c =? 13 then 10 else c) t1 q e Hc1) as (t2 & Hr & Hrel & He); [destruct (c =? 13); lia|done|].
      exists t2. split; [exact Hr|].
      match type of Hrel with crel _ _ (if ?b then _ else _) => by destruct b end.
    - exists t1. split_and!; [done|done|by apply echoed_nil]. }
  runs Hr. destruct (release_cons_run _ _ Hc2) as [Hrel Hc3]. exists (set_clock false t2). by split_and!.
Qed.

(** ** The serial port as a queue *)

(** The bytes of the buffer that were sent. *)
Definition sent (t : tty) : list Z := omap (λ p : bool * Z, if p.1 then Some p.2 else None) (thr t).

Record urel (lk : bool) (t : tty) (out : list Z) : Prop := {
  ul_lock : tlock t = lk;
  ul_r : 0 ≤ tr t < 2 ^ 64;
  ul_w : tw t = u64 (tr t + Z.of_nat (length out));
  ul_len : Z.of_nat (length out) ≤ UART_TX_BUF_SIZE;
  ul_ring : holds_from (tbuf t) UART_TX_BUF_SIZE (tr t) out;
  ul_bytes : Forall (λ c, 0 ≤ c < 256) out;
  ul_sleep : wsleep t ≠ ∅ → Z.of_nat (length out) = UART_TX_BUF_SIZE;
  ul_run : panicked t = false;
}.

Lemma sent_app t l : sent (set_thr (thr t ++ l) t) = sent t ++ omap (λ p : bool * Z, if p.1 then Some p.2 else None) l.
Proof. unfold sent. simpl. by rewrite omap_app. Qed.

(** Echoing does not touch the buffer, nor what came from it. *)
Lemma echoed_urel lk t t' l out : echoed t t' l → urel lk t out → urel lk t' out ∧ sent t' = sent t.
Proof.
  intros [Hp Ht] [H1 H2 H3 H4 H5 H6 H7 H8]. unfold port in Hp. injection Hp as E1 E2 E3 E4 E5 E6 E7. split.
  - split; rewrite ?E1, ?E2, ?E3, ?E4, ?E5, ?E7; done.
  - unfold sent. rewrite Ht, omap_app. assert (omap (λ p : bool * Z, if p.1 then Some p.2 else None) ((λ c, (false, c)) <$> l) = []) as ->.
    { clear. by induction l. }
    apply (right_id_L [] (++)).
Qed.

Lemma urel_pop t c out :
  urel true t (c :: out) →
  tw t ≠ tr t ∧ tbuf t !! Z.to_nat (tr t `mod` UART_TX_BUF_SIZE) = Some c ∧ 0 ≤ c < 256 ∧
  ∀ l x, urel true (set_thr x (set_wsleep ∅ (set_tr (u64 (tr t + 1)) (set_lsr l t)))) out.
Proof.
  intros [H1 H2 H3 H4 H5 H6 H7]. simpl in *. apply Forall_cons in H6 as [Hc H6]. split_and!.
  - rewrite H3. unfold wrap, UART_TX_BUF_SIZE in *. dlia.
  - by apply (from_head UART_TX_BUF_SIZE) in H5.
  - apply Hc.
  - apply Hc.
  - intros l x. split; simpl; try done.
    + apply wrap_range. lia.
    + rewrite H3, wrap_plus. f_equal. lia.
    + lia.
    + apply from_wrap; [done|done|by exists 576460752303423488|]. by apply (from_pop UART_TX_BUF_SIZE) in H5.
Qed.

Lemma uartstart_spec fuel t out :
  urel true t out → (length out < fuel)%nat →
  ∃ t' s out', uartstart_loop fuel t = Ok () t' ∧ out = s ++ out' ∧ urel true t' out' ∧ sent t' = sent t ++ s ∧
    cons_part t' = cons_part t.
Proof.
  induction fuel as [|fuel IH] in t, out |- *; intros Hu Hf; [lia|]. cbn [uartstart_loop]. step. step.
  assert (∀ t', urel true t' out → sent t' = sent t → cons_part t' = cons_part t →
    ∃ s out', out = s ++ out' ∧ urel true t' out' ∧ sent t' = sent t ++ s ∧ cons_part t' = cons_part t) as Hstop.
  { intros t' ? ? ?. exists [], out. by rewrite (right_id_L [] (++)). }
  destruct out as [|c out].
  { pose proof Hu as [_ Hr Hw _ _ _ _]. simpl in Hw. rewrite Z.add_0_r, wrap_small in Hw by lia.
    rewrite Hw, Z.eqb_refl. exists t. destruct (Hstop t) as (s & out' & ?); [done..|by exists s, out']. }
  destruct (urel_pop _ _ _ Hu) as (Hne & Hb & Hc & Hu'). destruct (Z.eqb_spec (tw t) (tr t)); [done|].
  destruct (lsr t) as [|b l] eqn:Hl.
  { erewrite bind_ok by (unfold tx_idle; by rewrite Hl). cbv beta. cbn [negb].
    exists t. destruct (Hstop t) as (s & out' & ?); [done..|by exists s, out']. }
  erewrite bind_ok by (unfold tx_idle; by rewrite Hl). cbv beta. destruct b; cbn [negb].
  - erewrite bind_ok by (by apply at_run). cbv beta. step. step. step. rewrite (wrap_small 8) by lia.
    destruct (IH _ out (Hu' l (thr t ++ [(true, c)]))) as (t' & s & out' & Hr & -> & Hrel & Hs & Hcp); [simpl in Hf; lia|].
    exists t', (c :: s), out'. split_and!; [exact Hr|done|done| |done]. rewrite Hs. unfold sent at 1. simpl.
    rewrite omap_app. simpl. by rewrite <- (assoc_L (++)).
  - exists (set_lsr l t). destruct (Hstop (set_lsr l t)) as (s & out' & ?); [|done|done|by exists s, out'].
    destruct Hu. by split.
Qed.

Lemma urel_push t out c :
  urel true t out → Z.of_nat (length out) < UART_TX_BUF_SIZE → 0 ≤ c < 256 →
  is_Some (tbuf t !! Z.to_nat (tw t `mod` UART_TX_BUF_SIZE)) ∧
  urel true (set_tw (u64 (tw t + 1)) (set_tbuf (<[Z.to_nat (tw t `mod` UART_TX_BUF_SIZE) := c]> (tbuf t)) t)) (out ++ [c]).
Proof.
  intros [H1 H2 H3 H4 H5 H6 H7] Hlt Hc.
  assert (tw t `mod` UART_TX_BUF_SIZE = (tr t + Z.of_nat (length out)) `mod` UART_TX_BUF_SIZE) as ->.
  { rewrite H3. unfold wrap. symmetry. apply Znumtheory.Zmod_div_mod; [done|done|by exists 576460752303423488]. }
  split.
  - apply lookup_lt_is_Some. destruct H5 as [Hl _].
    pose proof (Z.mod_pos_bound (tr t + Z.of_nat (length out)) UART_TX_BUF_SIZE ltac:(done)). lia.
  - split; simpl; try done.
    + rewrite H3, wrap_plus, length_app. simpl. f_equal. lia.
    + rewrite length_app. simpl. lia.
    + by apply from_push.
    + apply Forall_app. split; [done|]. by constructor.
    + intros Hs. specialize (H7 Hs). lia.
Qed.

Lemma acquire_tx_run t out : urel false t out → acquire_tx t = Ok () (set_tlock true t) ∧ urel true (set_tlock true t) out.
Proof. intros []. unfold acquire_tx. rewrite ul_lock0. split; [done|]. by split. Qed.
Lemma release_tx_run t out : urel true t out → release_tx t = Ok () (set_tlock false t) ∧ urel false (set_tlock false t) out.
Proof. intros []. unfold release_tx. rewrite ul_lock0. split; [done|]. by split. Qed.

Lemma putc_body_spec pid c t out :
  urel true t out →
  ∃ (b : bool) t' out', putc_body pid c t = Ok b t' ∧ urel false t' out' ∧ cons_part t' = cons_part t ∧
    sent t' ++ out' = sent t ++ out ++ (if b then [u8 c] else []) ∧
    (b = false → Z.of_nat (length out') = UART_TX_BUF_SIZE).
Proof.
  intros Hu. unfold putc_body. step. step. pose proof Hu as [_ Hr Hw Hl _ _ _].
  destruct (Z.eqb_spec (tw t) (u64 (tr t + UART_TX_BUF_SIZE))) as [He|He].
  - assert (Z.of_nat (length out) = UART_TX_BUF_SIZE) as Hfull.
    { rewrite Hw in He. unfold wrap, UART_TX_BUF_SIZE in *. dlia. }
    step. set (t1 := set_wsleep _ t). assert (urel true t1 out) as Hu1 by (destruct Hu; by split).
    destruct (release_tx_run _ _ Hu1) as [Hr1 Hu2]. runs Hr1. exists false. eexists _, out.
    split_and!; [reflexivity|done|done| |done]. by rewrite (right_id_L [] (++)).
  - assert (Z.of_nat (length out) < UART_TX_BUF_SIZE) as Hlt.
    { destruct (decide (Z.of_nat (length out) = UART_TX_BUF_SIZE)) as [E|]; [|lia]. rewrite <- E in He. done. }
    destruct (urel_push t out (u8 c) Hu Hlt) as [[x Hx] Hu1]; [apply (wrap_range 8); lia|].
    erewrite bind_ok by (by apply at_run). cbv beta. step. step.
    match type of Hu1 with urel _ ?s _ => set (t1 := s) in * end.
    destruct (uartstart_spec (Z.to_nat (UART_TX_BUF_SIZE + 1)) t1 (out ++ [u8 c]) Hu1) as (t2 & s & out' & Hrun & Ho & Hu2 & Hs & Hcp).
    { rewrite length_app. simpl. unfold UART_TX_BUF_SIZE in *. lia. }
    erewrite bind_ok by exact Hrun. cbv beta. destruct (release_tx_run _ _ Hu2) as [Hr1 Hu3]. runs Hr1.
    exists true. eexists _, out'. split_and!; [reflexivity|done|done| |done].
    change (sent (set_tlock false t2)) with (sent t2). rewrite Hs, <- (assoc_L (++)), <- Ho. done.
Qed.

(** The bytes found from [i] up to [j]. *)
Inductive sends (src : Z → option Z) (addr : Z) : Z → list Z → Z → Prop :=
  | sends_nil i : sends src addr i [] i
  | sends_cons i c bs j : src (addr + i) = Some c → sends src addr (i + 1) bs j → sends src addr i (u8 c :: bs) j.

(** A write of [n] bytes that has come to [i] continues to [r], and puts [bs]
    in the queue, which is then [out]. *)
Definition wrote (src : Z → option Z) (addr i n : Z) (r : wres) (bs out : list Z) : Prop :=
  match r with
  | WDone j => sends src addr i bs j ∧ (j < n → src (addr + j) = None)
  | WSleep j c => sends src addr i bs j ∧ j < n ∧ src (addr + j) = Some c ∧ Z.of_nat (length out) = UART_TX_BUF_SIZE
  end.

Lemma wrote_cons src addr i n r c bs out :
  src (addr + i) = Some c → wrote src addr (i + 1) n r bs out → wrote src addr i n r (u8 c :: bs) out.
Proof. intros Hc. destruct r; simpl; intros [? ?]; split; try done; by constructor. Qed.

Lemma write_loop_spec fuel pid src addr i n t out :
  urel false t out → (Z.to_nat (n - i) < fuel)%nat →
  ∃ r t' out' bs, write_loop fuel pid src addr i n t = Ok r t' ∧ urel false t' out' ∧ cons_part t' = cons_part t ∧
    sent t' ++ out' = sent t ++ out ++ bs ∧ wrote src addr i n r bs out'.
Proof.
  induction fuel as [|fuel IH] in i, t, out |- *; intros Hu Hf; [lia|]. cbn [write_loop].
  assert (∀ r, wrote src addr i n r [] out → ∃ r' t' out' bs, (mret r : T wres) t = Ok r' t' ∧ urel false t' out' ∧ cons_part t' = cons_part t ∧
    sent t' ++ out' = sent t ++ out ++ bs ∧ wrote src addr i n r' bs out') as Hret.
  { intros r Hr. exists r, t, out, []. split_and!; try done. by rewrite (right_id_L [] (++)). }
  destruct (Z.ltb_spec i n); cbn [negb].
  2: { apply Hret. split; [constructor|lia]. }
  destruct (src (addr + i)) as [c|] eqn:Hc.
  2: { apply Hret. split; [constructor|done]. }
  destruct (acquire_tx_run _ _ Hu) as [Ha Hu1].
  destruct (putc_body_spec pid c _ _ Hu1) as (b & t1 & out1 & Hp & Hu2 & Hcp & Hs & Hsl).
  assert (uartputc pid c t = Ok b t1) as Hput by (unfold uartputc; runs Ha; by runs (freeze_run _ (ul_run _ _ _ Hu1))).
  erewrite bind_ok by exact Hput. cbv beta. destruct b.
  - destruct (IH (i + 1) t1 out1 Hu2) as (r & t' & out' & bs & Hr & Hu' & Hcp' & Hs' & Hw); [lia|].
    exists r, t', out', (u8 c :: bs). split_and!; [done|done|by rewrite Hcp'| |by apply wrote_cons].
    rewrite Hs', (assoc_L (++)), Hs, <- !(assoc_L (++)). done.
  - exists (WSleep i c), t1, out1, []. split_and!; [done|done|done| |].
    + by rewrite Hs.
    + split_and!; [constructor|done|done|by apply Hsl].
Qed.

(** ** Refinement *)

(** The abstract console: queue and line, bytes to be sent, bytes sent. *)
Record astate := mka { aline : line; aout : list Z; asent : list Z }.

Definition rel (t : tty) (a : astate) : Prop :=
  crel false t (aline a) ∧ urel false t (aout a) ∧ sent t = asent a.

(** What happens: interrupts with the characters typed, calls and their
    continuation after a sleep with what they return, the port's status.  Other
    CPUs can come in wherever no lock is held, that is between the characters
    of an interrupt and between the bytes of a write, so one character, the
    transmit part of the interrupt, and one byte, before and after a sleep, are
    events too. *)
Inductive event :=
  | Typed (cs : list Z)
  | ReadCall (pid : nat) (okc : Z → bool) (killed : bool) (dst n : Z) (r : rres)
  | ReadMore (pid : nat) (okc : Z → bool) (killed : bool) (target dst n : Z) (got : list Z) (r : rres)
  | WriteCall (pid : nat) (src : Z → option Z) (addr n : Z) (r : wres)
  | WriteMore (pid : nat) (src : Z → option Z) (addr i c n : Z) (r : wres)
  | Char (c : Z)
  | Send
  | Put (pid : nat) (c : Z) (b : bool)
  | PutMore (pid : nat) (c : Z) (b : bool)
  | Port (l : list bool).

Inductive tstep : event → tty → tty → Prop :=
  | t_typed cs t t' : Forall (λ c, 0 ≤ c < 256) cs → uartintr cs t = Ok () t' → tstep (Typed cs) t t'
  | t_read pid okc killed dst n r t t' :
      consoleread pid okc killed dst n t = Ok r t' → tstep (ReadCall pid okc killed dst n r) t t'
  | t_readmore pid okc killed target dst n got r t t' :
      pid ∉ rsleep t → read_resume pid okc killed target dst n got t = Ok r t' →
      tstep (ReadMore pid okc killed target dst n got r) t t'
  | t_write pid src addr n r t t' :
      consolewrite pid src addr n t = Ok r t' → tstep (WriteCall pid src addr n r) t t'
  | t_writemore pid src addr i c n r t t' :
      pid ∉ wsleep t → 0 ≤ i < n → src (addr + i) = Some c → write_resume pid src addr i c n t = Ok r t' →
      tstep (WriteMore pid src addr i c n r) t t'
  | t_char c t t' : 0 ≤ c < 256 → consoleintr c t = Ok () t' → tstep (Char c) t t'
  | t_send t t' : send_buffered t = Ok () t' → tstep Send t t'
  | t_put pid c b t t' : uartputc pid c t = Ok b t' → tstep (Put pid c b) t t'
  | t_putmore pid c b t t' : pid ∉ wsleep t → putc_resume pid c t = Ok b t' → tstep (PutMore pid c b) t t'
  | t_port l t : tstep (Port l) t (set_lsr l t).

(** A byte was put in the queue, or the queue is full. *)
Definition put (c : Z) (b : bool) (out snt out' snt' : list Z) : Prop :=
  snt' ++ out' = snt ++ out ++ (if b then [u8 c] else []) ∧ (b = false → Z.of_nat (length out') = UART_TX_BUF_SIZE).

Inductive astep : event → astate → astate → Prop :=
  | a_typed cs ln s out snt :
      astep (Typed cs) (mka ln (s ++ out) snt) (mka (foldl (λ ln c, (spec_intr c ln).1) ln cs) out (snt ++ s))
  | a_read pid okc killed dst n q e out snt :
      astep (ReadCall pid okc killed dst n (spec_read okc killed n dst n [] q).1) (mka (mkline q e) out snt)
        (mka (mkline (spec_read okc killed n dst n [] q).2 e) out snt)
  | a_readmore pid okc killed target dst n got q e out snt :
      astep (ReadMore pid okc killed target dst n got (spec_read okc killed target dst n got q).1) (mka (mkline q e) out snt)
        (mka (mkline (spec_read okc killed target dst n got q).2 e) out snt)
  | a_write pid src addr n r bs ln out snt out' snt' :
      wrote src addr 0 n r bs out' → snt' ++ out' = snt ++ out ++ bs →
      astep (WriteCall pid src addr n r) (mka ln out snt) (mka ln out' snt')
  | a_writemore pid src addr i c n r bs ln out snt out' snt' :
      wrote src addr i n r bs out' → snt' ++ out' = snt ++ out ++ bs →
      astep (WriteMore pid src addr i c n r) (mka ln out snt) (mka ln out' snt')
  | a_char c ln out snt : astep (Char c) (mka ln out snt) (mka (spec_intr c ln).1 out snt)
  | a_send ln s out snt : astep Send (mka ln (s ++ out) snt) (mka ln out (snt ++ s))
  | a_put pid c b ln out snt out' snt' :
      put c b out snt out' snt' → astep (Put pid c b) (mka ln out snt) (mka ln out' snt')
  | a_putmore pid c b ln out snt out' snt' :
      put c b out snt out' snt' → astep (PutMore pid c b) (mka ln out snt) (mka ln out' snt')
  | a_port l a : astep (Port l) a a.

Inductive trace {S} (step : event → S → S → Prop) : list event → S → S → Prop :=
  | trace_nil x : trace step [] x x
  | trace_snoc es ev x y z : trace step es x y → step ev y z → trace step (es ++ [ev]) x z.

Lemma crel_part lk t t' a : cons_part t' = cons_part t → crel lk t a → crel lk t' a.
Proof.
  unfold cons_part. intros [= E1 E2 E3 E4 E5 E6 E7] [H1 H2 H3 H4 H5 H6 H7 H8 H9].
  split; rewrite ?E1, ?E2, ?E3, ?E4, ?E5, ?E6, ?E7; done.
Qed.

Lemma intr_chars_spec cs t ln out :
  crel false t ln → urel false t out → Forall (λ c, 0 ≤ c < 256) cs →
  ∃ t', intr_chars cs t = Ok () t' ∧ crel false t' (foldl (λ ln c, (spec_intr c ln).1) ln cs) ∧ urel false t' out ∧ sent t' = sent t.
Proof.
  induction cs as [|c cs IH] in t, ln |- *; intros Hc Hu Hb; [by exists t|]. apply Forall_cons in Hb as [Hb Hbs].
  destruct (consoleintr_spec c t ln Hc Hb) as (t1 & Hr & Hc1 & He). destruct (echoed_urel _ _ _ _ _ He Hu) as [Hu1 Hs1].
  destruct (IH t1 _ Hc1 Hu1 Hbs) as (t2 & Hr2 & Hc2 & Hu2 & Hs2). exists t2. split_and!; [|done|done|by rewrite Hs2].
  cbn [intr_chars]. by runs Hr.
Qed.

Lemma send_rel t a :
  rel t a → ∃ t' s out, aout a = s ++ out ∧ send_buffered t = Ok () t' ∧ rel t' (mka (aline a) out (asent a ++ s)).
Proof.
  intros (Hc & Hu & Hs). destruct (acquire_tx_run _ _ Hu) as [Ha Hu2].
  destruct (uartstart_spec (Z.to_nat (UART_TX_BUF_SIZE + 1)) _ _ Hu2) as (t2 & s & out' & Hr2 & Ho & Hu3 & Hs2 & Hcp).
  { destruct Hu2 as [_ _ _ Hl _ _ _]. unfold UART_TX_BUF_SIZE in *. lia. }
  destruct (release_tx_run _ _ Hu3) as [Hrel Hu4]. eexists _, s, out'. split_and!; [done| |].
  - unfold send_buffered. runs Ha. erewrite bind_ok by exact Hr2. cbv beta. exact Hrel.
  - split_and!; simpl; [eapply crel_part; [|exact Hc]; exact Hcp|done|].
    change (sent (set_tlock false t2)) with (sent t2). rewrite Hs2. change (sent (set_tlock true t)) with (sent t). by rewrite Hs.
Qed.

Lemma chars_rel cs t a :
  rel t a → Forall (λ c, 0 ≤ c < 256) cs →
  ∃ t', intr_chars cs t = Ok () t' ∧ rel t' (mka (foldl (λ ln c, (spec_intr c ln).1) (aline a) cs) (aout a) (asent a)).
Proof.
  intros (Hc & Hu & Hs) Hb. destruct (intr_chars_spec cs t _ _ Hc Hu Hb) as (t1 & Hr1 & Hc1 & Hu1 & Hs1).
  exists t1. split; [done|]. split_and!; [done|done|]. simpl. by rewrite Hs1.
Qed.

Lemma uartintr_rel cs t a :
  rel t a → Forall (λ c, 0 ≤ c < 256) cs → ∃ t' a', uartintr cs t = Ok () t' ∧ astep (Typed cs) a a' ∧ rel t' a'.
Proof.
  intros Hrel Hb. destruct (chars_rel cs t a Hrel Hb) as (t1 & Hr1 & Hrel1).
  destruct (send_rel _ _ Hrel1) as (t2 & s & out & Ho & Hr2 & Hrel2). destruct a as [ln out0 snt]. simpl in *. subst.
  eexists _, _. split_and!; [|apply a_typed|exact Hrel2]. unfold uartintr. by runs Hr1.
Qed.

Lemma char_rel c t a :
  rel t a → 0 ≤ c < 256 → ∃ t', consoleintr c t = Ok () t' ∧ rel t' (mka (spec_intr c (aline a)).1 (aout a) (asent a)).
Proof.
  intros (Hc & Hu & Hs) Hb. destruct (consoleintr_spec c t _ Hc Hb) as (t1 & Hr & Hc1 & He).
  destruct (echoed_urel _ _ _ _ _ He Hu) as [Hu1 Hs1]. exists t1. split; [done|]. split_and!; [done|done|]. simpl. by rewrite Hs1.
Qed.

Lemma put_rel pid c t a :
  rel t a → ∃ b t' out' snt', uartputc pid c t = Ok b t' ∧ putc_resume pid c t = Ok b t' ∧ put c b (aout a) (asent a) out' snt' ∧ rel t' (mka (aline a) out' snt').
Proof.
  intros (Hc & Hu & Hs). destruct (acquire_tx_run _ _ Hu) as [Ha Hu1].
  destruct (putc_body_spec pid c _ _ Hu1) as (b & t1 & out1 & Hp & Hu2 & Hcp & Hs1 & Hsl).
  exists b, t1, out1, (sent t1). split_and!; [unfold uartputc; runs Ha; by runs (freeze_run _ (ul_run _ _ _ Hu1))|unfold putc_resume; by runs Ha| |].
  - split; [|done]. rewrite Hs1. change (sent (set_tlock true t)) with (sent t). by rewrite Hs.
  - split_and!; [|done|done]. simpl. eapply crel_part; [|exact Hc]. exact Hcp.
Qed.

Lemma read_rel pid okc killed target dst n got t a :
  rel t a →
  ∃ t', read_resume pid okc killed target dst n got t = Ok (spec_read okc killed target dst n got (lq (aline a))).1 t' ∧
    rel t' (mka (mkline (spec_read okc killed target dst n got (lq (aline a))).2 (ledit (aline a))) (aout a) (asent a)).
Proof.
  intros (Hc & Hu & Hs). destruct a as [[q e] out snt]. simpl in *. destruct (acquire_cons_run _ _ Hc) as [Ha Hc1].
  destruct (read_loop_spec (S (Z.to_nat n)) pid okc killed target dst n got _ q e Hc1) as (t' & Hr & Hc2 & Hp & Ht); [lia|].
  exists t'. split; [unfold read_resume; by runs Ha|].
  assert (echoed (set_clock true t) t' []) as He by by apply echoed_nil.
  destruct (echoed_urel false _ _ _ out He) as [Hu' Hs']; [destruct Hu; by split|].
  split_and!; [done|done|]. simpl. by rewrite Hs'.
Qed.

Lemma write_rel pid src addr n t a :
  rel t a → ∃ r t' out' snt' bs, consolewrite pid src addr n t = Ok r t' ∧ wrote src addr 0 n r bs out' ∧
    snt' ++ out' = asent a ++ aout a ++ bs ∧ rel t' (mka (aline a) out' snt').
Proof.
  intros (Hc & Hu & Hs). destruct (write_loop_spec (S (Z.to_nat n)) pid src addr 0 n t _ Hu) as (r & t' & out' & bs & Hr & Hu' & Hcp & Hss & Hw); [lia|].
  exists r, t', out', (sent t'), bs. split_and!; [done|done|by rewrite Hss, Hs|]. split_and!; [by eapply crel_part|done|done].
Qed.

Lemma writemore_rel pid src addr i c n t a :
  rel t a → 0 ≤ i < n → src (addr + i) = Some c →
  ∃ r t' out' snt' bs, write_resume pid src addr i c n t = Ok r t' ∧
    wrote src addr i n r bs out' ∧ snt' ++ out' = asent a ++ aout a ++ bs ∧ rel t' (mka (aline a) out' snt').
Proof.
  intros (Hc & Hu & Hs) Hi Hsrc. destruct (acquire_tx_run _ _ Hu) as [Ha Hu1].
  destruct (putc_body_spec pid c _ _ Hu1) as (b & t1 & out1 & Hp & Hu2 & Hcp & Hs1 & Hsl).
  assert (putc_resume pid c t = Ok b t1) as Hput by (unfold putc_resume; by runs Ha). unfold write_resume. runs Hput.
  change (sent (set_tlock true t)) with (sent t) in Hs1. destruct b.
  - destruct (write_loop_spec (S (Z.to_nat n)) pid src addr (i + 1) n t1 out1 Hu2) as (r & t' & out' & bs & Hr & Hu' & Hcp' & Hss & Hw); [lia|].
    exists r, t', out', (sent t'), (u8 c :: bs). split_and!; [done| | |].
    + by apply wrote_cons.
    + rewrite Hss, (assoc_L (++)), Hs1, Hs, <- !(assoc_L (++)). done.
    + split_and!; [|done|done]. simpl. eapply crel_part; [|exact Hc]. by rewrite Hcp', Hcp.
  - exists (WSleep i c), t1, out1, (sent t1), []. split_and!; [done| |by rewrite Hs1, Hs|].
    + simpl. split_and!; [constructor|lia|done|by apply Hsl].
    + split_and!; [|done|done]. simpl. eapply crel_part; [|exact Hc]. by rewrite Hcp.
Qed.

Lemma rel_init : rel consoleinit (mka (mkline [] []) [] []).
Proof.
  split_and!; [split; simpl; try done|split; simpl; try done|done]; try (by apply from_nil); apply not_elem_of_nil.
Qed.

Lemma step_rel ev t t' a : rel t a → tstep ev t t' → ∃ a', astep ev a a' ∧ rel t' a'.
Proof.
  intros Hrel Hs. destruct Hs as [cs t t' Hb Hr|pid okc killed dst n r t t' Hr|pid okc killed target dst n got r t t' _ Hr
    |pid src addr n r t t' Hr|pid src addr i c n r t t' _ Hi Hc Hr
    |c t t' Hb Hr|t t' Hr|pid c b t t' Hr|pid c b t t' _ Hr|l t].
  - destruct (uartintr_rel cs t a Hrel Hb) as (t1 & a' & Hr1 & Ha & Hrel'). rewrite Hr in Hr1. injection Hr1 as <-. eauto.
  - destruct (read_rel pid okc killed n dst n [] t a Hrel) as (t1 & Hr1 & Hrel').
    change (consoleread pid okc killed dst n t) with (read_resume pid okc killed n dst n [] t) in Hr. rewrite Hr in Hr1. injection Hr1 as -> <-.
    eexists. split; [|exact Hrel']. destruct a as [[q e] out snt]. apply a_read.
  - destruct (read_rel pid okc killed target dst n got t a Hrel) as (t1 & Hr1 & Hrel').
    rewrite Hr in Hr1. injection Hr1 as -> <-. eexists. split; [|exact Hrel']. destruct a as [[q e] out snt]. apply a_readmore.
  - destruct (write_rel pid src addr n t a Hrel) as (r1 & t1 & out' & snt' & bs & Hr1 & Hw & Hs & Hrel').
    rewrite Hr in Hr1. injection Hr1 as <- <-. eexists. split; [|exact Hrel']. destruct a as [ln out snt]. by eapply a_write.
  - destruct (writemore_rel pid src addr i c n t a Hrel Hi Hc) as (r1 & t1 & out' & snt' & bs & Hr1 & Hw & Hs & Hrel').
    rewrite Hr in Hr1. injection Hr1 as <- <-. eexists. split; [|exact Hrel']. destruct a as [ln out snt]. by eapply a_writemore.
  - destruct (char_rel c t a Hrel Hb) as (t1 & Hr1 & Hrel'). rewrite Hr in Hr1. injection Hr1 as <-.
    eexists. split; [|exact Hrel']. destruct a. apply a_char.
  - destruct (send_rel t a Hrel) as (t1 & s & out & Ho & Hr1 & Hrel'). rewrite Hr in Hr1. injection Hr1 as <-.
    eexists. split; [|exact Hrel']. destruct a. simpl in Ho. subst. apply a_send.
  - destruct (put_rel pid c t a Hrel) as (b1 & t1 & out' & snt' & Hr1 & _ & Hp & Hrel'). rewrite Hr in Hr1. injection Hr1 as <- <-.
    eexists. split; [|exact Hrel']. destruct a. by apply a_put.
  - destruct (put_rel pid c t a Hrel) as (b1 & t1 & out' & snt' & _ & Hr1 & Hp & Hrel'). rewrite Hr in Hr1. injection Hr1 as <- <-.
    eexists. split; [|exact Hrel']. destruct a. by apply a_putmore.
  - exists a. split; [constructor|]. destruct Hrel as (Hc & Hu & Hs). split_and!; [destruct Hc; by split|destruct Hu; by split|done].
Qed.

Lemma trace_rel es t :
  trace tstep es consoleinit t → ∃ a, trace astep es (mka (mkline [] []) [] []) a ∧ rel t a.
Proof.
  intros Ht. remember consoleinit as t0 eqn:H0. induction Ht as [t|es ev t t1 t2 Ht IH Hs]; subst.
  - eexists. split; [constructor|apply rel_init].
  - destruct IH as (a & Ha & Hrel); [done|]. destruct (step_rel _ _ _ _ Hrel Hs) as (a' & Ha' & Hrel').
    exists a'. split; [by econstructor|done].
Qed.

(** C9: Console and serial port refine queues.  Every trace of interrupts,
    reads and writes is a trace of the abstract console, in which input is a
    queue of committed bytes and a line under edition, output is a queue, and
    reads and writes have the results of the queue operations; indices may
    wrap around, and other CPUs may come in between the characters of an
    interrupt and the bytes of a write.  No call fails, whatever is typed or asked for, and a process
    sleeps for input only while no byte is committed, and for output only
    while the buffer is full. *)
Theorem console_refines es t :
  trace tstep es consoleinit t →
  ∃ a, trace astep es (mka (mkline [] []) [] []) a ∧
    (length (lq (aline a) ++ ledit (aline a)) ≤ 128)%nat ∧ (length (aout a) ≤ 32)%nat ∧ sent t = asent a ∧
    (rsleep t ≠ ∅ → lq (aline a) = []) ∧ (wsleep t ≠ ∅ → length (aout a) = 32%nat) ∧
    (∀ cs, Forall (λ c, 0 ≤ c < 256) cs → ∃ t', uartintr cs t = Ok () t') ∧
    (∀ pid okc killed dst n, ∃ r t', consoleread pid okc killed dst n t = Ok r t') ∧
    (∀ pid src addr n, ∃ r t', consolewrite pid src addr n t = Ok r t').
Proof.
  intros Ht. destruct (trace_rel es t Ht) as (a & Ha & Hrel). exists a. pose proof Hrel as (Hc & Hu & Hs).
  destruct Hc as [_ _ _ _ Hl _ _ Hsl], Hu as [_ _ _ Hul _ _ Hus]. unfold INPUT_BUF_SIZE, UART_TX_BUF_SIZE in *.
  split_and!; [done|lia|lia|done|done| |..].
  - intros Hw. specialize (Hus Hw). lia.
  - intros cs Hb. destruct (uartintr_rel cs t a Hrel Hb) as (t' & _ & ? & _). eauto.
  - intros pid okc killed dst n. destruct (read_rel pid okc killed n dst n [] t a Hrel) as (t' & ? & _). eauto.
  - intros pid src addr n. destruct (write_rel pid src addr n t a Hrel) as (r & t' & _ & _ & _ & ? & _). eauto.
Qed.

(** ** A line *)

(** What is left of the characters typed, when erase and kill have done their
    work. *)
Definition edit1 (e : list Z) (c : Z) : list Z :=
  if c =? Ctrl 85 then [] else if (c =? Ctrl 72) || (c =? 127) then take (length e - 1) e else e ++ [c].
Definition edited (cs : list Z) : list Z := foldl edit1 [] cs.

(** The characters that make up a line: not NUL, Control-D, newline, carriage
    return or Control-P. *)
Definition plain (c : Z) : bool := forallb (λ x, negb (c =? x)) [0; Ctrl 68; 10; 13; Ctrl 80] && (0 <=? c) && (c <? 256).

Lemma plain_facts c : plain c = true → c ≠ 0 ∧ c ≠ 4 ∧ c ≠ 10 ∧ c ≠ 13 ∧ c ≠ 16 ∧ 0 ≤ c < 256.
Proof. unfold plain, Ctrl. simpl. rewrite !andb_true_iff, !negb_true_iff, !Z.eqb_neq, Z.leb_le, Z.ltb_lt. intuition. Qed.

Lemma plain_intr c e : plain c = true → (length e < 127)%nat → (spec_intr c (mkline [] e)).1 = mkline [] (edit1 e c).
Proof.
  intros (? & ? & ? & ? & ? & ?)%plain_facts He. unfold edit1, spec_intr, Ctrl, INPUT_BUF_SIZE. cbn [app].
  rewrite (proj2 (Z.eqb_neq c (80 - 64))), (proj2 (Z.eqb_neq c 0)), (proj2 (Z.eqb_neq c 13)), (proj2 (Z.eqb_neq c 10)),
    (proj2 (Z.eqb_neq c (68 - 64))), length_app by lia. simpl.
  destruct (c =? 85 - 64); [done|]. destruct ((c =? 72 - 64) || (c =? 127)); [by destruct e|].
  destruct (Z.leb_spec 128 (Z.of_nat (length e))); [lia|]. destruct (Z.eqb_spec (Z.of_nat (length e + 1)) 128); [lia|done].
Qed.

Lemma edit1_length e c : (length (edit1 e c) ≤ length e + 1)%nat.
Proof. unfold edit1. repeat destruct (_ =? _); simpl; rewrite ?length_take, ?length_app; simpl; lia. Qed.

Lemma edit1_plain e c : Forall (λ c, plain c = true) e → plain c = true → Forall (λ c, plain c = true) (edit1 e c).
Proof. intros He Hc. unfold edit1. repeat case_match; [done|by apply Forall_take|]. apply Forall_app. by split; [|constructor]. Qed.

Lemma plain_line cs e :
  Forall (λ c, plain c = true) cs → Forall (λ c, plain c = true) e → (length e + length cs < 128)%nat →
  foldl (λ ln c, (spec_intr c ln).1) (mkline [] e) cs = mkline [] (foldl edit1 e cs) ∧
  Forall (λ c, plain c = true) (foldl edit1 e cs) ∧ (length (foldl edit1 e cs) ≤ length e + length cs)%nat.
Proof.
  intros Hcs. induction Hcs as [|c cs Hc _ IH] in e |- *; intros He Hl; cbn [foldl length] in *; [split_and!; [done|done|lia]|].
  rewrite plain_intr by (done || lia). pose proof (edit1_length e c).
  destruct (IH (edit1 e c)) as (H1 & H2 & H3); [by apply edit1_plain|lia|]. split_and!; [done|done|lia].
Qed.

(** A read of a committed line takes it all, and stops behind the newline. *)
Lemma read_line killed target dst n got l :
  Forall (λ c, plain c = true) l → Z.of_nat (length l) < n →
  spec_read (λ _, true) killed target dst n got (l ++ [10]) = (RDone (target - n + Z.of_nat (length l) + 1) (got ++ l ++ [10]), []).
Proof.
  intros Hl. induction Hl as [|c l Hc _ IH] in dst, n, got |- *; intros Hn; simpl in *.
  - destruct (Z.ltb_spec 0 n); [|lia]. simpl. do 2 f_equal. lia.
  - destruct (Z.ltb_spec 0 n); [|lia]. cbn [negb]. apply plain_facts in Hc. unfold Ctrl.
    destruct (Z.eqb_spec c (68 - 64)); [lia|]. destruct (Z.eqb_spec c 10); [lia|]. cbn [negb].
    rewrite IH by lia. rewrite <- (assoc_L (++)). simpl. do 2 f_equal. lia.
Qed.

Lemma spec_enter c e : (c = 10 ∨ c = 13) → (length e < 128)%nat → (spec_intr c (mkline [] e)).1 = mkline (e ++ [10]) [].
Proof.
  intros Hc He. unfold spec_intr, Ctrl, INPUT_BUF_SIZE. simpl.
  destruct Hc as [-> | ->]; simpl; (destruct (Z.leb_spec 128 (Z.of_nat (length e))); [lia|done]).
Qed.

(** No committed byte and no line under edition. *)
Lemma rel_empty t a : rel t a → cr t = cw t → ce t = cw t → aline a = mkline [] [].
Proof.
  intros ([_ Hr Hw He Hl _ _ _] & _) H1 H2. destruct (aline a) as [q e]. simpl in *. unfold INPUT_BUF_SIZE in *.
  rewrite length_app in *. assert (length q = 0 ∧ length e = 0)%nat as [?%nil_length_inv ?%nil_length_inv]; [|by subst].
  unfold wrap in *. dlia.
Qed.

(** C20: Typed lines are read as edited.  With nothing pending, the characters of a
    line, erase and kill among them, and a return give the next read that asks
    for more than the line exactly the line as edited and its newline, and
    leave nothing pending, wherever in the ring the line begins. *)
Theorem console_line es t cs c pid killed dst n :
  trace tstep es consoleinit t → cr t = cw t → ce t = cw t →
  Forall (λ c, plain c = true) cs → (length cs < 128)%nat → c = 10 ∨ c = 13 → Z.of_nat (length (edited cs)) < n →
  ∃ t1 t2, uartintr (cs ++ [c]) t = Ok () t1 ∧
    consoleread pid (λ _, true) killed dst n t1 = Ok (RDone (Z.of_nat (length (edited cs)) + 1) (edited cs ++ [10])) t2 ∧
    cr t2 = cw t2 ∧ ce t2 = cw t2.
Proof.
  intros Ht Hr He Hcs Hlen Hc Hn. destruct (trace_rel es t Ht) as (a & _ & Hrel).
  pose proof (rel_empty t a Hrel Hr He) as Ha.
  destruct (uartintr_rel (cs ++ [c]) t a Hrel) as (t1 & a1 & Hr1 & Hs1 & Hrel1).
  { apply Forall_app. split; [|constructor; [lia|done]]. eapply Forall_impl; [exact Hcs|]. intros x Hx%plain_facts. lia. }
  destruct (plain_line cs [] Hcs) as (Hf & Hp & Hl); [done|simpl; lia|]. fold (edited cs) in Hf, Hp, Hl.
  assert (aline a1 = mkline (edited cs ++ [10]) []) as Ha1.
  { inversion Hs1; subst. simpl in *. subst. rewrite foldl_app, Hf. simpl. apply spec_enter; [done|simpl in *; lia]. }
  destruct (read_rel pid (λ _, true) killed n dst n [] t1 a1 Hrel1) as (t2 & Hr2 & Hrel2).
  rewrite Ha1 in Hr2, Hrel2. simpl in Hr2, Hrel2. rewrite read_line in Hr2, Hrel2 by done. exists t1, t2.
  split; [done|]. split.
  - etrans; [exact Hr2|]. simpl. do 2 f_equal. lia.
  - destruct Hrel2 as ([_ Hr' Hw' He' _ _ _ _] & _). simpl in *. rewrite Hw', He'. rewrite Z.add_0_r. unfold wrap. split; [|done]. dlia.
Qed.

(** Process 1 asks for ten bytes and sleeps, [hx], an erase, [i] and a return
    are typed, it reads on, and writes back what it read, with the port busy. *)
Module ConsoleWitness.

Definition after {A} (r : outcome tty A) : tty := match r with Ok _ t => t | Err _ => consoleinit end.
Definition echo (a : Z) : option Z := [104; 105; 10] !! Z.to_nat a.

Definition t1 : tty := Eval vm_compute in after (consoleread 1 (λ _, true) false 500 10 consoleinit).
Definition t2 : tty := Eval vm_compute in after (uartintr [104; 120; 8; 105; 13] t1).
Definition t3 : tty := Eval vm_compute in after (read_resume 1 (λ _, true) false 10 500 10 [] t2).
Definition t4 : tty := Eval vm_compute in after (consolewrite 1 echo 0 3 (set_lsr [true; false] t3)).

Definition es : list event :=
  [ReadCall 1 (λ _, true) false 500 10 (RSleep 500 10 []); Typed [104; 120; 8; 105; 13];
   ReadMore 1 (λ _, true) false 10 500 10 [] (RDone 3 [104; 105; 10]); Port [true; false]; WriteCall 1 echo 0 3 (WDone 3)].

Lemma run4 : trace tstep es consoleinit t4.
Proof.
  eapply (trace_snoc _ [_; _; _; _]); [eapply (trace_snoc _ [_; _; _])|].
  { eapply (trace_snoc _ [_; _]); [eapply (trace_snoc _ [_]); [eapply (trace_snoc _ []); [constructor|]|]|].
    - apply t_read with (t' := t1). vm_compute. reflexivity.
    - apply t_typed with (t' := t2); [repeat constructor; done|vm_compute; reflexivity].
    - apply t_readmore with (t' := t3); [apply (bool_decide_unpack _); vm_compute; exact I|vm_compute; reflexivity]. }
  - constructor.
  - apply t_write. vm_compute. reflexivity.
Qed.

(** The first byte has left, the others are in the queue. *)
Lemma console_refines_witness :
  sent t4 = [104] ∧ (∃ a, trace astep es (mka (mkline [] []) [] []) a ∧ sent t4 = asent a) ∧
  ∃ r t', consoleread 1 (λ _, true) false 500 10 t4 = Ok r t'.
Proof.
  destruct (console_refines es t4 run4) as (a & Ha & _ & _ & Hs & _ & _ & _ & Hr & _).
  split; [vm_compute; reflexivity|]. split; [exists a; by split|apply Hr].
Defined.

(** [ab], a kill, [lt], an erase, [s]. *)
Lemma console_line_witness :
  ∃ t5 t6, uartintr ([97; 98; 21; 108; 116; 127; 115] ++ [13]) t4 = Ok () t5 ∧
    consoleread 2 (λ _, true) false 600 100 t5 = Ok (RDone 3 [108; 115; 10]) t6 ∧ cr t6 = cw t6 ∧ ce t6 = cw t6.
Proof.
  apply (console_line es t4 [97; 98; 21; 108; 116; 127; 115] 13 2 false 600 100 run4);
    [done|done|repeat constructor; done|simpl; lia|by right|vm_compute; reflexivity].
Defined.

End ConsoleWitness.
