(* ===== verification/Printf.v ===== *)
(** * user/printf.c and kernel/printf.c

    Formatted output, on byte memory; arguments are a list of 64-bit words.
    What a format prints is a relation in which numerals are described by their
    value, not by how they are computed. *)
From stdpp Require Import list.
From S2P Require Import Prelude Mem CString Ulib Grep Console.

#[local] Open Scope Z_scope.

(** ** What the two files have in common *)

Section common.
Context {G : Type} (putch : Z → M (st G) unit).

Fixpoint put_all (l : list Z) : M (st G) unit :=
  match l with [] => mret () | c :: l => putch c;; put_all l end.

(** The [do] loop of [printint], which fills [buf]. *)
Fixpoint digit_loop (fuel : nat) (digits : list Z) (base x : Z) (buf : list Z) : M (st G) (list Z) :=
  match fuel with
  | O => fail NoFuel
  | S fuel =>
      if (16 <=? length buf)%nat then fail (Undef "buf") else
      match digits !! Z.to_nat (x `mod` base) with
      | None => fail (Undef "digits")
      | Some c =>
          let x := x / base in
          if negb (x =? 0) then digit_loop fuel digits base x (buf ++ [c]) else mret (buf ++ [c])
      end
  end.

(** From there to its end. *)
Definition put_number (digits : list Z) (base x : Z) (neg : bool) : M (st G) unit :=
  buf ← digit_loop 33 digits base x [];
  buf ← (if neg then if (16 <=? length buf)%nat then fail (Undef "buf") else mret (buf ++ [45]) else mret buf);
  put_all (reverse buf).

(** The loop of [printptr], with [k] rounds to go. *)
Fixpoint ptr_loop (k : nat) (digits : list Z) (x : Z) : M (st G) unit :=
  match k with
  | O => mret ()
  | S k =>
      match digits !! Z.to_nat (Z.shiftr x 60) with
      | None => fail (Undef "digits")
      | Some c => putch c;; ptr_loop k digits (u64 (Z.shiftl x 4))
      end
  end.
Definition put_ptr (digits : list Z) (x : Z) : M (st G) unit := putch 48;; putch 120;; ptr_loop 16 digits x.

(** A string in memory, whose size bounds it. *)
Fixpoint str_loop (fuel : nat) (s : Z) : M (st G) unit :=
  match fuel with
  | O => fail NoFuel
  | S fuel =>
      c ← load 1 s;
      if c =? 0 then mret () else putch c;; str_loop fuel (s + 1)
  end.
Definition null_str : list Z := [40; 110; 117; 108; 108; 41].
Definition put_str (s : Z) : M (st G) unit :=
  if s =? 0 then put_all null_str else with_state (λ t, str_loop (size (mem t)) s).

Definition va_arg (ap : list Z) : M (st G) (Z * list Z) :=
  match ap with [] => fail (Undef "va_arg") | a :: ap => mret (a, ap) end.
End common.

(** ** user/printf.c *)

Module Uprintf.
Section code.
Context {G : Type} `{Stdio G}.

Definition digit_chars : list Z := [48; 49; 50; 51; 52; 53; 54; 55; 56; 57; 65; 66; 67; 68; 69; 70].

Definition putc (fd c : Z) : M (st G) unit := λ s, Ok () (mkst (mem s) (fd_write fd [u8 c] (glob s))).

Definition printint (fd xx base : Z) (sgn : bool) : M (st G) unit :=
  if sgn && (xx <? 0) then x ← int32 (- xx); put_number (putc fd) digit_chars base (u32 x) true
  else put_number (putc fd) digit_chars base (u32 xx) false.

Definition printptr (fd x : Z) : M (st G) unit := put_ptr (putc fd) digit_chars x.

(** The character behind a percent sign. *)
Definition convert (fd c : Z) (ap : list Z) : M (st G) (list Z) :=
  if c =? 100 then '(a, ap) ← va_arg ap; printint fd (s32 a) 10 true;; mret ap
  else if c =? 108 then '(a, ap) ← va_arg ap; printint fd (s32 (u64 a)) 10 false;; mret ap
  else if c =? 120 then '(a, ap) ← va_arg ap; printint fd (s32 a) 16 false;; mret ap
  else if c =? 112 then '(a, ap) ← va_arg ap; printptr fd (u64 a);; mret ap
  else if c =? 115 then '(a, ap) ← va_arg ap; put_str (putc fd) a;; mret ap
  else if c =? 99 then '(a, ap) ← va_arg ap; putc fd (u32 a);; mret ap
  else if c =? 37 then putc fd c;; mret ap
  else putc fd 37;; putc fd c;; mret ap.

Fixpoint vprintf_loop (fuel : nat) (fd fmt i state : Z) (ap : list Z) : M (st G) unit :=
  match fuel with
  | O => fail NoFuel
  | S fuel =>
      b ← load 1 (fmt + i);
      if b =? 0 then mret () else
      let c := Z.land b 255 in
      if state =? 0 then
        if c =? 37 then vprintf_loop fuel fd fmt (i + 1) 37 ap
        else putc fd c;; vprintf_loop fuel fd fmt (i + 1) state ap
      else if state =? 37 then
        ap ← convert fd c ap;
        vprintf_loop fuel fd fmt (i + 1) 0 ap
      else vprintf_loop fuel fd fmt (i + 1) state ap
  end.
Definition vprintf (fd fmt : Z) (ap : list Z) : M (st G) unit :=
  with_state (λ s, vprintf_loop (size (mem s)) fd fmt 0 0 ap).
Definition fprintf (fd fmt : Z) (ap : list Z) : M (st G) unit := vprintf fd fmt ap.
Definition printf (fmt : Z) (ap : list Z) : M (st G) unit := vprintf 1 fmt ap.
End code.
End Uprintf.

(** ** kernel/printf.c *)

Module Kprintf.

(** The console, which knows [panicked], and [pr]. *)
Record kpr := mkkpr { ktty : tty; prlock : bool; prlocking : bool }.
Definition set_ktty x g := mkkpr x (prlock g) (prlocking g).
Definition set_prlock x g := mkkpr (ktty g) x (prlocking g).
Definition set_prlocking x g := mkkpr (ktty g) (prlock g) x.

Definition kdigit_chars : list Z := [48; 49; 50; 51; 52; 53; 54; 55; 56; 57; 97; 98; 99; 100; 101; 102].

Definition kputc (c : Z) : M (st kpr) unit :=
  zoom (λ s, ktty (glob s)) (λ t s, mkst (mem s) (set_ktty t (glob s))) (consputc c).

Definition kprintint (xx base : Z) (sign : bool) : M (st kpr) unit :=
  if sign && (xx <? 0) then x ← int32 (- xx); put_number kputc kdigit_chars base (u32 x) true
  else put_number kputc kdigit_chars base (u32 xx) false.

Definition kprintptr (x : Z) : M (st kpr) unit := put_ptr kputc kdigit_chars x.

Definition kconvert (c : Z) (ap : list Z) : M (st kpr) (list Z) :=
  if c =? 100 then '(a, ap) ← va_arg ap; kprintint (s32 a) 10 true;; mret ap
  else if c =? 120 then '(a, ap) ← va_arg ap; kprintint (s32 a) 16 true;; mret ap
  else if c =? 112 then '(a, ap) ← va_arg ap; kprintptr (u64 a);; mret ap
  else if c =? 115 then '(a, ap) ← va_arg ap; put_str kputc a;; mret ap
  else if c =? 37 then kputc 37;; mret ap
  else kputc 37;; kputc c;; mret ap.

Fixpoint kprintf_loop (fuel : nat) (fmt i : Z) (ap : list Z) : M (st kpr) unit :=
  match fuel with
  | O => fail NoFuel
  | S fuel =>
      b ← load 1 (fmt + i);
      let c := Z.land b 255 in
      if c =? 0 then mret () else
      if negb (c =? 37) then kputc c;; kprintf_loop fuel fmt (i + 1) ap else
      b ← load 1 (fmt + (i + 1));
      let c := Z.land b 255 in
      if c =? 0 then mret () else
      ap ← kconvert c ap;
      kprintf_loop fuel fmt (i + 1 + 1) ap
  end.

Definition acquire_pr : M (st kpr) unit := λ s,
  if prlock (glob s) then Err (Panic "acquire") else Ok () (mkst (mem s) (set_prlock true (glob s))).
Definition release_pr : M (st kpr) unit := λ s,
  if prlock (glob s) then Ok () (mkst (mem s) (set_prlock false (glob s))) else Err (Panic "release").

Definition kprintf (fmt : Z) (ap : list Z) : M (st kpr) unit :=
  locking ← getg prlocking;
  when locking acquire_pr;;
  when (fmt =? 0) (fail (Panic "null fmt"));;
  with_state (λ s, kprintf_loop (size (mem s)) fmt 0 ap);;
  when locking release_pr.

(** What [panic] does before it stops; [p1] and [p2] are its string constants. *)
Definition panic (p1 s p2 : Z) : M (st kpr) unit :=
  setg (set_prlocking false);;
  kprintf p1 [];;
  kprintf s [];;
  kprintf p2 [];;
  setg (λ g, set_ktty (set_panicked true (ktty g)) g).

Definition printfinit (g : kpr) : kpr := set_prlocking true (set_prlock false g).
End Kprintf.

(** ** What a format prints *)

(** [l] is the numeral of [x] to the given base: digits of that value, without
    leading zeros. *)
Definition value (base : Z) (ds : list Z) : Z := foldl (λ v d, v * base + d) 0 ds.
Definition glyphs (digits ds l : list Z) : Prop := Forall2 (λ d c, digits !! Z.to_nat d = Some c) ds l.
Definition numeral (digits : list Z) (base x : Z) (l : list Z) : Prop :=
  ∃ ds, glyphs digits ds l ∧ Forall (λ d, 0 ≤ d < base) ds ∧ value base ds = x ∧ ds ≠ [] ∧ (head ds = Some 0 → ds = [0]).
Definition signed (digits : list Z) (base x : Z) (l : list Z) : Prop :=
  if x <? 0 then ∃ l', l = 45 :: l' ∧ numeral digits base (- x) l' else numeral digits base x l.
(** A pointer: sixteen digits. *)
Definition pointer (digits : list Z) (x : Z) (l : list Z) : Prop :=
  ∃ ds l', l = 48 :: 120 :: l' ∧ glyphs digits ds l' ∧ Forall (λ d, 0 ≤ d < 16) ds ∧ value 16 ds = x ∧ length ds = 16%nat.
Definition string_at (m : bytemap) (a : Z) (l : list Z) : Prop := if a =? 0 then l = null_str else cstr m a l.

(** A conversion: what it takes from the arguments, and prints of it. *)
Record conversion := mkconv { takes : Z → Prop; shows : Z → list Z → Prop }.

(** The output of a format, for a table of conversions; others are printed as
    they are, and a percent sign at the end prints nothing. *)
Section formats.
Context (table : Z → option conversion).

Inductive prints : list Z → list Z → list Z → Prop :=
  | prints_nil ap : prints [] ap []
  | prints_char c f ap o : c ≠ 37 → prints f ap o → prints (c :: f) ap (c :: o)
  | prints_end ap : prints [37] ap []
  | prints_conv c k a f ap l o : table c = Some k → shows k a l → prints f ap o → prints (37 :: c :: f) (a :: ap) (l ++ o)
  | prints_percent f ap o : table 37 = None → prints f ap o → prints (37 :: 37 :: f) ap (37 :: o)
  | prints_other c f ap o : c ≠ 37 → table c = None → prints f ap o → prints (37 :: c :: f) ap (37 :: c :: o).

(** The arguments are there and of the kind the format asks for. *)
Fixpoint supplied (f ap : list Z) : Prop :=
  match f with
  | [] => True
  | c :: f' =>
      if negb (c =? 37) then supplied f' ap else
      match f' with
      | [] => True
      | d :: f'' =>
          match table d with
          | Some k => match ap with a :: ap' => takes k a ∧ supplied f'' ap' | [] => False end
          | None => supplied f'' ap
          end
      end
  end.
End formats.

Definition int_arg (a : Z) : Prop := s32 a ≠ - 2 ^ 31.
Definition str_arg (m : bytemap) (a : Z) : Prop := ∃ l, string_at m a l.

Definition utable (m : bytemap) (c : Z) : option conversion :=
  let D := Uprintf.digit_chars in
  if c =? 100 then Some (mkconv int_arg (λ a l, signed D 10 (s32 a) l))
  else if c =? 108 then Some (mkconv (λ a, u64 a < 2 ^ 32) (λ a l, numeral D 10 (u64 a) l))
  else if c =? 120 then Some (mkconv (λ _, True) (λ a l, numeral D 16 (u32 a) l))
  else if c =? 112 then Some (mkconv (λ _, True) (λ a l, pointer D (u64 a) l))
  else if c =? 115 then Some (mkconv (str_arg m) (string_at m))
  else if c =? 99 then Some (mkconv (λ _, True) (λ a l, l = [u8 a]))
  else None.
Definition ktable (m : bytemap) (c : Z) : option conversion :=
  let D := Kprintf.kdigit_chars in
  if c =? 100 then Some (mkconv int_arg (λ a l, signed D 10 (s32 a) l))
  else if c =? 120 then Some (mkconv int_arg (λ a l, signed D 16 (s32 a) l))
  else if c =? 112 then Some (mkconv (λ _, True) (λ a l, pointer D (u64 a) l))
  else if c =? 115 then Some (mkconv (str_arg m) (string_at m))
  else None.

(** ** Numerals *)

Lemma value_snoc base ds d : value base (ds ++ [d]) = value base ds * base + d.
Proof. unfold value. by rewrite foldl_app. Qed.

Section runs.
Context {G : Type} (putch : Z → M (st G) unit) (emit : Z → G → G).
Context (ready : G → Prop) (Hready : ∀ c g, ready g → ready (emit c g)).
Context (Hput : ∀ c m g, is_byte c → ready g → putch c (mkst m g) = Ok () (mkst m (emit c g))).
Implicit Types (m : bytemap) (g : G).

Definition emits (l : list Z) (g : G) : G := foldl (λ g c, emit c g) g l.

Lemma emits_app l l' g : emits (l ++ l') g = emits l' (emits l g).
Proof. apply foldl_app. Qed.

Lemma emits_ready l g : ready g → ready (emits l g).
Proof using Hready. induction l as [|c l IH] in g |- *; intros Hg; [done|]. apply IH. by apply Hready. Qed.

Lemma put_all_run l m g : ready g → Forall is_byte l → put_all putch l (mkst m g) = Ok () (mkst m (emits l g)).
Proof.
  intros Hg Hl. induction Hl as [|c l Hc _ IH] in g, Hg |- *; [done|]. cbn [put_all]. runs (Hput c m g Hc Hg). apply IH. by apply Hready.
Qed.

Lemma str_loop_run l fuel s m g :
  ready g → cstr m s l → (length l < fuel)%nat → str_loop putch fuel s (mkst m g) = Ok () (mkst m (emits l g)).
Proof.
  induction l as [|c l IH] in fuel, s, g |- *; intros Hg Hl Hf; (destruct fuel as [|fuel]; [simpl in Hf; lia|]); cbn [str_loop].
  - apply cstr_nil in Hl. by runs (load1 m g s 0 Hl).
  - apply cstr_cons in Hl as (Hc & Hb & Hz & Hl). runs (load1 m g s c Hc). destruct (Z.eqb_spec c 0); [done|].
    runs (Hput c m g Hb Hg). apply IH; [by apply Hready|done|simpl in Hf; lia].
Qed.

Lemma put_str_run s l m g : ready g → string_at m s l → put_str putch s (mkst m g) = Ok () (mkst m (emits l g)).
Proof.
  intros Hg. unfold string_at, put_str. destruct (s =? 0).
  - intros ->. apply put_all_run; [done|]. unfold null_str. repeat (constructor; [done|]). constructor.
  - intros Hl. apply str_loop_run; [done|done|]. by eapply cstr_size.
Qed.

Context (digits : list Z) (Hdigits : length digits = 16%nat) (Hbytes : Forall is_byte digits).

Lemma digit_at d : 0 ≤ d < 16 → ∃ c, digits !! Z.to_nat d = Some c ∧ is_byte c.
Proof.
  intros Hd. destruct (lookup_lt_is_Some_2 digits (Z.to_nat d)) as [c Hc]; [lia|]. exists c. split; [done|].
  by eapply (Forall_lookup_1 _ digits).
Qed.

(** The digits come last first. *)
Lemma digit_loop_spec k fuel base x buf m g :
  2 ≤ base ≤ 16 → 0 ≤ x < base ^ Z.of_nat k → (1 ≤ k)%nat → (k ≤ fuel)%nat → (length buf + k ≤ 16)%nat →
  ∃ l, digit_loop fuel digits base x buf (mkst m g) = Ok (buf ++ reverse l) (mkst m g) ∧
    numeral digits base x l ∧ Forall is_byte l ∧ (length l ≤ k)%nat.
Proof.
  induction k as [|k IH] in fuel, x, buf |- *; intros Hb Hx Hk Hf Hl; [lia|]. destruct fuel as [|fuel]; [lia|]. cbn [digit_loop].
  destruct (Nat.leb_spec 16 (length buf)); [lia|]. pose proof (Z.mod_pos_bound x base ltac:(lia)).
  destruct (digit_at (x `mod` base)) as (c & Hc & Hcb); [lia|]. rewrite Hc.
  destruct (Z.eqb_spec (x / base) 0) as [Hz|Hz]; cbn [negb].
  - exists [c]. split_and!; [done| |by constructor|simpl; lia]. exists [x `mod` base].
    split_and!; [by repeat constructor|constructor; [lia|done]|unfold value; simpl; dlia|done|intros [= ->]; done].
  - destruct k as [|k].
    { exfalso. apply Hz. apply Z.div_small. rewrite Z.pow_1_r in Hx. lia. }
    destruct (IH fuel (x / base) (buf ++ [c])) as (l & Hr & (ds & Hg & Hds & Hv & Hn & Hh) & Hlb & Hll); [lia| |lia|lia|rewrite length_app; simpl; lia|].
    { split; [apply Z.div_pos; lia|]. apply Z.div_lt_upper_bound; [lia|].
      rewrite <- Z.pow_succ_r by lia. replace (Z.succ (Z.of_nat (S k))) with (Z.of_nat (S (S k))) by lia. lia. }
    exists (l ++ [c]). split_and!.
    + rewrite Hr, reverse_app. simpl. by rewrite <- (assoc_L (++)).
    + exists (ds ++ [x `mod` base]). split_and!.
      * apply Forall2_app; [done|by repeat constructor].
      * apply Forall_app. split; [done|]. constructor; [lia|done].
      * rewrite value_snoc, Hv. dlia.
      * by destruct ds.
      * destruct ds as [|d ds]; [done|]. simpl. intros [= ->]. specialize (Hh eq_refl). injection Hh as ->. simpl in Hv. unfold value in Hv. simpl in Hv. lia.
    + apply Forall_app. split; [done|]. by constructor.
    + rewrite length_app. simpl. lia.
Qed.

Lemma put_number_run base x (neg : bool) m g :
  ready g → base = 10 ∨ base = 16 → 0 ≤ x < 2 ^ 32 →
  ∃ l, put_number putch digits base x neg (mkst m g) = Ok () (mkst m (emits ((if neg then [45] else []) ++ l) g)) ∧ numeral digits base x l ∧ Forall is_byte l.
Proof.
  intros Hg Hb Hx. unfold put_number. destruct (digit_loop_spec 10 33 base x [] m g) as (l & Hr & Hn & Hlb & Hll); [lia| |lia|lia|simpl; lia|].
  { destruct Hb as [-> | ->]; split; try lia; (eapply Z.lt_le_trans; [apply Hx|done]). }
  exists l. split; [|done]. erewrite bind_ok by exact Hr. cbv beta. rewrite (left_id_L [] (++)). destruct neg.
  - rewrite length_reverse. destruct (Nat.leb_spec 16 (length l)); [lia|]. rewrite ret_bind.
    rewrite reverse_app, reverse_involutive. apply put_all_run; [done|]. apply Forall_app. split; [by constructor|done].
  - rewrite ret_bind, reverse_involutive. by apply put_all_run.
Qed.

(** The first [k] digits of a 64-bit word. *)
Lemma ptr_loop_run k x m g :
  ready g → (k ≤ 16)%nat → 0 ≤ x < 2 ^ 64 →
  ∃ ds l, ptr_loop putch k digits x (mkst m g) = Ok () (mkst m (emits l g)) ∧ glyphs digits ds l ∧ Forall (λ d, 0 ≤ d < 16) ds ∧
    length ds = k ∧ ∀ v, foldl (λ v d, v * 16 + d) v ds = v * 16 ^ Z.of_nat k + x / 2 ^ (64 - 4 * Z.of_nat k).
Proof.
  induction k as [|k IH] in x, g |- *; intros Hrd Hk Hx; cbn [ptr_loop].
  - exists [], []. split_and!; [done|constructor|constructor|done|]. intros v. simpl. rewrite (Z.div_small x) by lia. lia.
  - rewrite Z.shiftr_div_pow2 by lia. assert (0 ≤ x / 2 ^ 60 < 16) as Hd by dlia.
    destruct (digit_at (x / 2 ^ 60) Hd) as (c & Hc & Hcb). rewrite Hc. runs (Hput c m g Hcb Hrd).
    destruct (IH (u64 (Z.shiftl x 4)) (emit c g)) as (ds & l & Hr & Hg & Hds & Hl & Hv); [by apply Hready|lia|apply (wrap_range 64); lia|].
    exists (x / 2 ^ 60 :: ds), (c :: l). split_and!; [done|by constructor|by constructor|simpl; lia|].
    intros v. cbn [foldl]. rewrite Hv, Z.shiftl_mul_pow2 by lia.
    assert (u64 (x * 2 ^ 4) = 16 * (x `mod` 2 ^ 60)) as -> by (unfold wrap; dlia).
    rewrite (Z.div_mod x (2 ^ 60)) at 3 by lia. set (d := x / 2 ^ 60). set (r := x `mod` 2 ^ 60).
    replace (64 - 4 * Z.of_nat k) with (4 + (64 - 4 * Z.of_nat (S k))) by lia. set (e := 64 - 4 * Z.of_nat (S k)).
    rewrite Z.pow_add_r by lia. change (2 ^ 4) with 16. rewrite Z.div_mul_cancel_l by lia.
    replace (2 ^ 60) with (2 ^ (4 * Z.of_nat k) * 2 ^ e) by (rewrite <- Z.pow_add_r by lia; f_equal; lia).
    replace (2 ^ (4 * Z.of_nat k) * 2 ^ e * d + r) with (r + d * 2 ^ (4 * Z.of_nat k) * 2 ^ e) by ring.
    rewrite Z.div_add by lia. rewrite Nat2Z.inj_succ, Z.pow_succ_r by lia. rewrite Z.pow_mul_r by lia. change (2 ^ 4) with 16. ring.
Qed.

Lemma put_ptr_run x m g :
  ready g → 0 ≤ x < 2 ^ 64 → ∃ l, put_ptr putch digits x (mkst m g) = Ok () (mkst m (emits l g)) ∧ pointer digits x l.
Proof.
  intros Hrd Hx. unfold put_ptr. runs (Hput 48 m g ltac:(done) Hrd). runs (Hput 120 m (emit 48 g) ltac:(done) (Hready _ _ Hrd)).
  destruct (ptr_loop_run 16 x m (emit 120 (emit 48 g)) (Hready _ _ (Hready _ _ Hrd)) ltac:(done) Hx) as (ds & l & Hr & Hg & Hds & Hl & Hv).
  exists (48 :: 120 :: l). split; [done|]. exists ds, l. split_and!; [done|done|done| |done].
  unfold value. rewrite Hv. change (2 ^ (64 - 4 * Z.of_nat 16)) with 1. rewrite Z.div_1_r. lia.
Qed.

(** [printint] in both files. *)
Lemma signed_run xx base m g :
  ready g → base = 10 ∨ base = 16 → - 2 ^ 31 < xx < 2 ^ 31 →
  ∃ l, (if xx <? 0 then x ← int32 (- xx); put_number putch digits base (u32 x) true
        else put_number putch digits base (u32 xx) false) (mkst m g) = Ok () (mkst m (emits l g)) ∧ signed digits base xx l.
Proof.
  intros Hg Hb Hx. unfold signed. destruct (Z.ltb_spec xx 0).
  - unfold int32. destruct ((- 2 ^ 31 <=? - xx) && (- xx <? 2 ^ 31)) eqn:?; [|exfalso; lia]. rewrite ret_bind, wrap_small by lia.
    destruct (put_number_run base (- xx) true m g Hg Hb) as (l & Hr & Hn & _); [lia|]. exists (45 :: l). split; [done|]. by exists l.
  - rewrite wrap_small by lia. destruct (put_number_run base xx false m g Hg Hb) as (l & Hr & Hn & _); [lia|]. by exists l.
Qed.
End runs.

Lemma byte_mask b : is_byte b → Z.land b 255 = b.
Proof. intros Hb. change 255 with (Z.ones 8). rewrite Z.land_ones by lia. apply Z.mod_small. done. Qed.

Lemma s32_int_arg a : int_arg a → - 2 ^ 31 < s32 a < 2 ^ 31.
Proof. unfold int_arg. unfold swrap. pose proof (Z.mod_pos_bound (a + 2 ^ (32 - 1)) (2 ^ 32)). lia. Qed.

Lemma u32_s32 a : u32 (s32 a) = u32 a.
Proof. unfold wrap, swrap. dlia. Qed.

(** ** The formats of user/printf.c *)

Section user.
Context {G : Type} `{Stdio G} (fd : Z).
Implicit Types (m : bytemap) (g : G).

Definition uemit (c : Z) (g : G) : G := fd_write fd [c] g.

Lemma uput c m g : is_byte c → Uprintf.putc fd c (mkst m g) = Ok () (mkst m (uemit c g)).
Proof. intros Hc. unfold Uprintf.putc, uemit. simpl. by rewrite (wrap_small 8). Qed.

Lemma uput_ready c m g : is_byte c → True → Uprintf.putc fd c (mkst m g) = Ok () (mkst m (uemit c g)).
Proof. intros Hc _. by apply uput. Qed.

Lemma udigits : length Uprintf.digit_chars = 16%nat ∧ Forall is_byte Uprintf.digit_chars.
Proof. split; [done|]. unfold Uprintf.digit_chars. repeat (constructor; [done|]). constructor. Qed.

Lemma unsigned_run xx base m g :
  base = 10 ∨ base = 16 →
  ∃ l, Uprintf.printint fd xx base false (mkst m g) = Ok () (mkst m (emits uemit l g)) ∧ numeral Uprintf.digit_chars base (u32 xx) l.
Proof.
  intros Hb. destruct udigits as [Hd Hdb].
  destruct (put_number_run _ uemit (λ _, True) (λ _ _ _, I) uput_ready Uprintf.digit_chars Hd Hdb base (u32 xx) false m g I Hb) as (l & Hr & Hn & _); [apply (wrap_range 32); lia|].
  by exists l.
Qed.

Lemma uconvert_some c k a ap m g :
  utable m c = Some k → takes k a →
  ∃ l, Uprintf.convert fd c (a :: ap) (mkst m g) = Ok ap (mkst m (emits uemit l g)) ∧ shows k a l.
Proof.
  destruct udigits as [Hd Hdb]. unfold utable, Uprintf.convert, va_arg.
  destruct (c =? 100); [intros [= <-] Ha|destruct (c =? 108); [intros [= <-] Ha|destruct (c =? 120); [intros [= <-] _|
    destruct (c =? 112); [intros [= <-] _|destruct (c =? 115); [intros [= <-] [l Hl]|destruct (c =? 99); [intros [= <-] _|done]]]]]];
    rewrite ret_bind.
  - destruct (signed_run _ uemit (λ _, True) (λ _ _ _, I) uput_ready Uprintf.digit_chars Hd Hdb (s32 a) 10 m g I (or_introl eq_refl) (s32_int_arg a Ha)) as (l & Hr & Hs).
    exists l. split; [|done]. by runs Hr.
  - destruct (unsigned_run (s32 (u64 a)) 10 m g (or_introl eq_refl)) as (l & Hr & Hs). exists l. split; [by runs Hr|].
    simpl. rewrite u32_s32 in Hs. rewrite (wrap_small 32 (u64 a)) in Hs; [done|]. simpl in Ha. pose proof (wrap_range 64 a). lia.
  - destruct (unsigned_run (s32 a) 16 m g (or_intror eq_refl)) as (l & Hr & Hs). exists l. split; [by runs Hr|].
    simpl. by rewrite u32_s32 in Hs.
  - destruct (put_ptr_run _ uemit (λ _, True) (λ _ _ _, I) uput_ready Uprintf.digit_chars Hd Hdb (u64 a) m g I) as (l & Hr & Hs); [apply (wrap_range 64); lia|].
    exists l. split; [by runs Hr|done].
  - exists l. split; [|done]. by runs (put_str_run _ uemit (λ _, True) (λ _ _ _, I) uput_ready a l m g I Hl).
  - exists [u8 a]. split; [|done]. unfold Uprintf.putc, uemit, emits. simpl.
    replace (u8 (u32 a)) with (u8 a); [done|]. unfold wrap. dlia.
Qed.

Lemma uconvert_none c ap m g :
  utable m c = None → is_byte c →
  Uprintf.convert fd c ap (mkst m g) = Ok ap (mkst m (emits uemit (if c =? 37 then [37] else [37; c]) g)).
Proof.
  unfold utable, Uprintf.convert. intros Ht Hc. do 6 (destruct (_ =? _); [done|]). destruct (Z.eqb_spec c 37) as [->|].
  - by runs (uput 37 m g Hc).
  - runs (uput 37 m g ltac:(done)). by runs (uput c m (uemit 37 g) Hc).
Qed.

Lemma vprintf_run n f fuel fmt i ap m g :
  (length f ≤ n)%nat → cstr m (fmt + i) f → (length f < fuel)%nat → supplied (utable m) f ap →
  ∃ o, Uprintf.vprintf_loop fuel fd fmt i 0 ap (mkst m g) = Ok () (mkst m (emits uemit o g)) ∧ prints (utable m) f ap o.
Proof.
  induction n as [|n IH] in f, fuel, i, ap, g |- *; intros Hn Hf Hfu Hs; (destruct fuel as [|fuel]; [lia|]).
  { destruct f; [|simpl in Hn; lia]. apply cstr_nil in Hf. cbn [Uprintf.vprintf_loop]. runs (load1 m g _ 0 Hf).
    exists []. split; [done|constructor]. }
  destruct f as [|c f]; cbn [Uprintf.vprintf_loop].
  { apply cstr_nil in Hf. runs (load1 m g _ 0 Hf). exists []. split; [done|constructor]. }
  apply cstr_cons in Hf as (Hc & Hb & Hz & Hf). runs (load1 m g _ c Hc). destruct (Z.eqb_spec c 0); [done|]. rewrite byte_mask by done.
  cbn [supplied length] in *. rewrite <- Z.add_assoc in Hf. destruct (Z.eqb_spec c 37) as [->|Hp]; simpl in Hs; simpl (0 =? 0); cbn iota.
  - destruct f as [|d f].
    { destruct fuel as [|fuel]; [lia|]. cbn [Uprintf.vprintf_loop]. apply cstr_nil in Hf. runs (load1 m g _ 0 Hf).
      exists []. split; [done|constructor]. }
    destruct fuel as [|fuel]; [simpl in Hfu; lia|]. cbn [Uprintf.vprintf_loop length] in *.
    apply cstr_cons in Hf as (Hd & Hdb & Hdz & Hf). runs (load1 m g _ d Hd). destruct (Z.eqb_spec d 0); [done|].
    rewrite byte_mask by done. simpl (37 =? 0). simpl (37 =? 37). cbn iota. rewrite <- Z.add_assoc in Hf.
    destruct (utable m d) as [k|] eqn:Ht.
    + destruct ap as [|a ap]; [done|]. destruct Hs as [Ha Hs]. destruct (uconvert_some d k a ap m g Ht Ha) as (l & Hr & Hsh). runs Hr.
      destruct (IH f fuel (i + 1 + 1) ap (emits uemit l g)) as (o & Hro & Ho); [lia|done|lia|done|].
      exists (l ++ o). split; [by rewrite emits_app|]. by eapply prints_conv.
    + runs (uconvert_none d ap m g Ht Hdb).
      destruct (IH f fuel (i + 1 + 1) ap (emits uemit (if d =? 37 then [37] else [37; d]) g)) as (o & Hro & Ho); [lia|done|lia|done|].
      exists ((if d =? 37 then [37] else [37; d]) ++ o). split; [by rewrite emits_app|].
      destruct (Z.eqb_spec d 37) as [->|]; [by apply prints_percent|by apply prints_other].
  - runs (uput c m g Hb). destruct (IH f fuel (i + 1) ap (uemit c g)) as (o & Hro & Ho); [lia|done|lia|done|].
    exists (c :: o). split; [done|by apply prints_char].
Qed.
End user.

(** ** The formats of kernel/printf.c *)

Section kernel.
Import Kprintf.
Implicit Types (m : bytemap) (g : kpr).

Definition kemit (c : Z) (g : kpr) : kpr := set_ktty (set_thr (thr (ktty g) ++ [(false, c)]) (ktty g)) g.

(** The kernel has not panicked. *)
Definition running g : Prop := panicked (ktty g) = false.

Lemma kemit_running c g : running g → running (kemit c g).
Proof. done. Qed.

Lemma kput c m g : is_byte c → running g → Kprintf.kputc c (mkst m g) = Ok () (mkst m (kemit c g)).
Proof. intros Hc Hg. unfold Kprintf.kputc, zoom. by rewrite consputc_run. Qed.

Lemma kput_frozen c m g : panicked (ktty g) = true → Kprintf.kputc c (mkst m g) = Err Spinning.
Proof.
  intros Hp. assert (∀ d, uartputc_sync d (ktty g) = Err Spinning) as Hs.
  { intros d. unfold uartputc_sync, freeze, Prelude.gets, mbind, M_bind. by rewrite Hp. }
  unfold Kprintf.kputc, zoom, consputc. simpl. destruct (c =? BACKSPACE); [|by rewrite Hs]. unfold mbind, M_bind. by rewrite Hs.
Qed.

(** Output only appends to what the port was given. *)
Lemma kemits l g :
  emits kemit l g = set_ktty (set_thr (thr (ktty g) ++ ((λ c, (false, c)) <$> l)) (ktty g)) g.
Proof.
  induction l as [|c l IH] in g |- *; simpl.
  - rewrite (right_id_L [] (++)). by destruct g as [[]].
  - change (emits kemit (c :: l) g) with (emits kemit l (kemit c g)). rewrite IH. simpl. by rewrite <- (assoc_L (++)).
Qed.

Lemma kdigits : length Kprintf.kdigit_chars = 16%nat ∧ Forall is_byte Kprintf.kdigit_chars.
Proof. split; [done|]. unfold Kprintf.kdigit_chars. repeat (constructor; [done|]). constructor. Qed.

Lemma kconvert_some c k a ap m g :
  running g → ktable m c = Some k → takes k a →
  ∃ l, Kprintf.kconvert c (a :: ap) (mkst m g) = Ok ap (mkst m (emits kemit l g)) ∧ shows k a l.
Proof.
  intros Hg. destruct kdigits as [Hd Hdb]. unfold ktable, Kprintf.kconvert, va_arg.
  destruct (c =? 100); [intros [= <-] Ha|destruct (c =? 120); [intros [= <-] Ha|destruct (c =? 112); [intros [= <-] _|
    destruct (c =? 115); [intros [= <-] [l Hl]|done]]]]; rewrite ret_bind.
  - destruct (signed_run _ kemit running kemit_running kput Kprintf.kdigit_chars Hd Hdb (s32 a) 10 m g Hg (or_introl eq_refl) (s32_int_arg a Ha)) as (l & Hr & Hs).
    exists l. split; [|done]. by runs Hr.
  - destruct (signed_run _ kemit running kemit_running kput Kprintf.kdigit_chars Hd Hdb (s32 a) 16 m g Hg (or_intror eq_refl) (s32_int_arg a Ha)) as (l & Hr & Hs).
    exists l. split; [|done]. by runs Hr.
  - destruct (put_ptr_run _ kemit running kemit_running kput Kprintf.kdigit_chars Hd Hdb (u64 a) m g Hg) as (l & Hr & Hs); [apply (wrap_range 64); lia|].
    exists l. split; [by runs Hr|done].
  - exists l. split; [|done]. by runs (put_str_run _ kemit running kemit_running kput a l m g Hg Hl).
Qed.

Lemma kconvert_none c ap m g :
  running g → ktable m c = None → is_byte c →
  Kprintf.kconvert c ap (mkst m g) = Ok ap (mkst m (emits kemit (if c =? 37 then [37] else [37; c]) g)).
Proof.
  unfold ktable, Kprintf.kconvert. intros Hg Ht Hc. do 4 (destruct (_ =? _); [done|]). destruct (Z.eqb_spec c 37) as [->|].
  - by runs (kput 37 m g Hc Hg).
  - runs (kput 37 m g ltac:(done) Hg). by runs (kput c m (kemit 37 g) Hc (kemit_running _ _ Hg)).
Qed.

Lemma printf_run n f fuel fmt i ap m g :
  running g → (length f ≤ n)%nat → cstr m (fmt + i) f → (length f < fuel)%nat → supplied (ktable m) f ap →
  ∃ o, Kprintf.kprintf_loop fuel fmt i ap (mkst m g) = Ok () (mkst m (emits kemit o g)) ∧ prints (ktable m) f ap o.
Proof.
  induction n as [|n IH] in f, fuel, i, ap, g |- *; intros Hg Hn Hf Hfu Hs; (destruct fuel as [|fuel]; [lia|]).
  { destruct f; [|simpl in Hn; lia]. apply cstr_nil in Hf. cbn [Kprintf.kprintf_loop]. runs (load1 m g _ 0 Hf).
    exists []. split; [done|constructor]. }
  destruct f as [|c f]; cbn [Kprintf.kprintf_loop].
  { apply cstr_nil in Hf. runs (load1 m g _ 0 Hf). exists []. split; [done|constructor]. }
  apply cstr_cons in Hf as (Hc & Hb & Hz & Hf). runs (load1 m g _ c Hc). rewrite byte_mask by done. destruct (Z.eqb_spec c 0); [done|].
  cbn [supplied length] in *. rewrite <- Z.add_assoc in Hf. destruct (Z.eqb_spec c 37) as [->|Hp]; cbn [negb] in *.
  - destruct f as [|d f].
    { apply cstr_nil in Hf. runs (load1 m g _ 0 Hf). exists []. split; [done|constructor]. }
    cbn [length] in *. apply cstr_cons in Hf as (Hd & Hdb & Hdz & Hf). runs (load1 m g _ d Hd). rewrite byte_mask by done.
    destruct (Z.eqb_spec d 0); [done|]. rewrite <- Z.add_assoc in Hf.
    destruct (ktable m d) as [k|] eqn:Ht.
    + destruct ap as [|a ap]; [done|]. destruct Hs as [Ha Hs]. destruct (kconvert_some d k a ap m g Hg Ht Ha) as (l & Hr & Hsh). runs Hr.
      destruct (IH f fuel (i + 1 + 1) ap (emits kemit l g)) as (o & Hro & Ho); [by apply emits_ready|lia|done|lia|done|].
      exists (l ++ o). split; [by rewrite emits_app|]. by eapply prints_conv.
    + runs (kconvert_none d ap m g Hg Ht Hdb).
      destruct (IH f fuel (i + 1 + 1) ap (emits kemit (if d =? 37 then [37] else [37; d]) g)) as (o & Hro & Ho); [by apply emits_ready|lia|done|lia|done|].
      exists ((if d =? 37 then [37] else [37; d]) ++ o). split; [by rewrite emits_app|].
      destruct (Z.eqb_spec d 37) as [->|]; [by apply prints_percent|by apply prints_other].
  - runs (kput c m g Hb Hg). destruct (IH f fuel (i + 1) ap (kemit c g)) as (o & Hro & Ho); [done|lia|done|lia|done|].
    exists (c :: o). split; [done|by apply prints_char].
Qed.

Lemma kprintf_run fmt f ap m g :
  running g → cstr m fmt f → fmt ≠ 0 → supplied (ktable m) f ap → (prlocking g = true → prlock g = false) →
  ∃ o, Kprintf.kprintf fmt ap (mkst m g) = Ok () (mkst m (emits kemit o g)) ∧ prints (ktable m) f ap o.
Proof.
  intros Hg Hf Hn Hs Hl. unfold Kprintf.kprintf, getg, gets. pose proof (cstr_size _ _ _ Hf).
  erewrite bind_ok by reflexivity. cbv beta. simpl glob. replace fmt with (fmt + 0) in Hf by lia.
  destruct (prlocking g) eqn:Hlk; cbn [when].
  - unfold acquire_pr at 1. erewrite bind_ok by (simpl glob; rewrite Hl by done; reflexivity). cbv beta.
    destruct (Z.eqb_spec fmt 0); [done|]. erewrite bind_ok by reflexivity. cbv beta.
    destruct (printf_run (length f) f (size m) fmt 0 ap m (set_prlock true g) Hg ltac:(done) Hf ltac:(done) Hs) as (o & Hr & Ho).
    exists o. split; [|done]. erewrite bind_ok by exact Hr. cbv beta. unfold release_pr. rewrite !kemits. simpl.
    specialize (Hl eq_refl). destruct g; simpl in *; subst. done.
  - erewrite bind_ok by reflexivity. cbv beta. destruct (Z.eqb_spec fmt 0); [done|]. erewrite bind_ok by reflexivity. cbv beta.
    destruct (printf_run (length f) f (size m) fmt 0 ap m g Hg ltac:(done) Hf ltac:(done) Hs) as (o & Hr & Ho).
    exists o. split; [|done]. erewrite bind_ok by exact Hr. done.
Qed.

(** Text without percent signs prints as it is. *)
Lemma text_supplied T f ap : Forall (λ c, c ≠ 37) f → supplied T f ap.
Proof. intros Hf. induction Hf as [|c f Hc _ IH]; [done|]. simpl. destruct (Z.eqb_spec c 37); [done|exact IH]. Qed.
Lemma text_prints T f ap o : Forall (λ c, c ≠ 37) f → prints T f ap o → o = f.
Proof.
  intros Hf Hp. induction Hp; apply Forall_cons in Hf as [? ?] || idtac; try done. f_equal. auto.
Qed.

Lemma text_run fmt f m g :
  running g → cstr m fmt f → fmt ≠ 0 → Forall (λ c, c ≠ 37) f → prlocking g = false →
  Kprintf.kprintf fmt [] (mkst m g) = Ok () (mkst m (emits kemit f g)).
Proof.
  intros Hg Hf Hn Ht Hl. destruct (kprintf_run fmt f [] m g Hg Hf Hn) as (o & Hr & Ho); [by apply text_supplied|by rewrite Hl|].
  apply text_prints in Ho as ->; done.
Qed.

Lemma emits_running l g : running g → running (emits kemit l g).
Proof. by apply emits_ready. Qed.

(** After a panic, output that begins with text does not come out. *)
Lemma kprintf_frozen fmt c f ap m g :
  panicked (ktty g) = true → cstr m fmt (c :: f) → fmt ≠ 0 → c ≠ 37 → (prlocking g = true → prlock g = false) →
  Kprintf.kprintf fmt ap (mkst m g) = Err Spinning.
Proof.
  intros Hp Hf Hn Hc Hl. unfold Kprintf.kprintf, getg, gets. pose proof (cstr_size _ _ _ Hf) as Hsz. erewrite bind_ok by reflexivity. cbv beta. simpl glob.
  assert (∀ g', panicked (ktty g') = true → kprintf_loop (size m) fmt 0 ap (mkst m g') = Err Spinning) as Hloop.
  { intros g' Hp'. destruct (size m) as [|n]; [simpl in Hsz; lia|]. cbn [kprintf_loop]. apply cstr_cons in Hf as (Hb & Hcb & Hz & _).
    rewrite Z.add_0_r. runs (load1 m g' fmt c Hb). rewrite byte_mask by done. destruct (Z.eqb_spec c 0); [done|]. destruct (Z.eqb_spec c 37); [done|].
    cbn [negb]. unfold mbind, M_bind. by rewrite kput_frozen. }
  assert (∀ g' (k : unit → M (st kpr) unit), panicked (ktty g') = true →
    (when (fmt =? 0) (fail (Panic "null fmt"));; with_state (λ s, kprintf_loop (size (mem s)) fmt 0 ap) ≫= k) (mkst m g') = Err Spinning) as Hrest.
  { intros g' k Hp'. destruct (Z.eqb_spec fmt 0); [done|]. cbn [when]. rewrite ret_bind. unfold mbind, M_bind, with_state. simpl. by rewrite Hloop. }
  destruct (prlocking g); cbn [when]; [|rewrite ret_bind; by apply Hrest]. unfold acquire_pr.
  erewrite bind_ok by (simpl glob; rewrite Hl by done; reflexivity). cbv beta. by apply Hrest.
Qed.

Lemma emits_locking l g : prlocking (emits kemit l g) = prlocking g.
Proof. by rewrite kemits. Qed.
End kernel.

Definition panic_text : list Z := [112; 97; 110; 105; 99; 58; 32].

(** C21: User printf.  For any format and arguments of the kinds it asks for
    (for [%d] any [int] but [INT_MIN], for [%l] a number below 2^32, for [%s] a
    terminated string or null), [vprintf] writes, byte by byte, an output the
    format prints: text as it is, numerals of the value given, in base ten or
    sixteen and without leading zeros, sixteen digits for a pointer, unknown
    conversions as they are.  A [%l] argument from 2^32 on is printed as its low
    32 bits are. *)
Theorem vprintf_correct {G} `{Stdio G} fd fmt f ap m (g : G) :
  cstr m fmt f → supplied (utable m) f ap →
  (∃ o, Uprintf.vprintf fd fmt ap (mkst m g) = Ok () (mkst m (foldl (λ g c, fd_write fd [c] g) g o)) ∧ prints (utable m) f ap o) ∧
  ∀ a ap' s, Uprintf.convert (G := G) fd 108 (a :: ap') s = Uprintf.convert fd 108 (u32 a :: ap') s.
Proof.
  intros Hf Hs. pose proof (cstr_size _ _ _ Hf). split.
  - unfold Uprintf.vprintf, with_state. simpl mem.
    apply (vprintf_run fd (length f) f (size m) fmt 0 ap m g); [done| |done|done]. by rewrite Z.add_0_r.
  - intros a ap' s. unfold Uprintf.convert, va_arg. simpl. rewrite !ret_bind. replace (s32 (u64 (u32 a))) with (s32 (u64 a)); [done|].
    unfold s32, swrap, wrap. dlia.
Qed.


(** A program prints a number, a string and a pointer; the kernel panics with
    the lock taken. *)
Module PrintfWitness.

#[export] Instance screen : Stdio (list Z) := { fd_read _ _ g := ([], g); fd_write _ bs g := g ++ bs }.

(** [n=%d %s%p%], a string, [panic: ], a message and a newline. *)
Definition fmt : list Z := [110; 61; 37; 100; 32; 37; 115; 37; 112; 37].
Definition m0 : bytemap :=
  Eval vm_compute in
  splice (splice (splice (splice (splice (seqmap 100 (replicate 80 0)) 100 fmt) 120 [104; 105]) 130 panic_text) 140 [111; 111; 112; 115]) 150 [10].

Lemma at_fmt : cstr m0 100 fmt.
Proof. split; [split; [vm_compute; reflexivity|]|]; unfold fmt; repeat constructor; done. Qed.
Lemma at_str a l : loadbytes (length (l ++ [0])) m0 a = Some (l ++ [0]) → Forall is_byte (l ++ [0]) → Forall (λ b, b ≠ 0) l → cstr m0 a l.
Proof. by split. Qed.

Lemma at_hi : cstr m0 120 [104; 105].
Proof. apply at_str; [vm_compute; reflexivity|repeat constructor; done..]. Qed.

(** [-45], [hi] and a pointer. *)
Definition args : list Z := [2 ^ 64 - 45; 120; 48879].
Lemma args_ok : supplied (utable m0) fmt args ∧ supplied (ktable m0) fmt args.
Proof.
  split; cbn; (split; [done|]; split; [|by split]); exists [104; 105]; apply at_hi.
Qed.

Lemma vprintf_correct_witness :
  ∃ o, Uprintf.vprintf 1 100 args (mkst m0 []) = Ok () (mkst m0 (foldl (λ g c, fd_write 1 [c] g) [] o)) ∧ prints (utable m0) fmt args o.
Proof. apply (vprintf_correct 1 100 fmt args m0 []); [apply at_fmt|apply args_ok]. Defined.

(** What was printed. *)
Lemma printed :
  Uprintf.vprintf 1 100 args (mkst m0 []) =
  Ok () (mkst m0 ([110; 61; 45; 52; 53; 32; 104; 105; 48; 120] ++ replicate 12 48 ++ [66; 69; 69; 70])).
Proof. vm_compute. reflexivity. Qed.

Definition g0 : Kprintf.kpr := Kprintf.mkkpr consoleinit false true.


End PrintfWitness.
