(* ===== verification/Spinlock.v ===== *)
(** * kernel/spinlock.c

    The state of the spin locks and of the per-CPU interrupt bookkeeping; the
    functions of spinlock.c as code that one CPU runs, cut at the points where
    other CPUs can interfere (the atomic swaps), and the interleavings of any
    number of CPUs as a step relation. *)
From S2P Require Import Prelude.

(** [struct spinlock] without its debugging name, [struct cpu] (kernel/proc.h)
    without the scheduling fields; [intr] is the SIE bit of [sstatus]. *)
Record spinlock := mklock { locked : bool; lcpu : option nat }.
Record cpu := mkcpu { noff : Z; intena : bool; intr : bool }.

#[export] Instance spinlock_inhabited : Inhabited spinlock := populate (mklock false None).
#[export] Instance cpu_inhabited : Inhabited cpu := populate (mkcpu 0 false false).

Record smp := mksmp { cpus : gmap nat cpu; locks : gmap Z spinlock }.

Section code.
(** The CPU that runs the code: [mycpu()]. *)
Context (me : nat).

Definition set_cpu (c : cpu) : M smp unit :=
  modify (λ s, mksmp (<[me := c]> (cpus s)) (locks s)).
Definition set_lock (lk : Z) (l : spinlock) : M smp unit :=
  modify (λ s, mksmp (cpus s) (<[lk := l]> (locks s))).

Definition initlock (lk : Z) : M smp unit := set_lock lk (mklock false None).

Definition intr_get : M smp bool := gets (λ s, intr (cpus s !!! me)).
Definition intr_set (b : bool) : M smp unit :=
  c ← gets (λ s, cpus s !!! me);
  set_cpu (mkcpu (noff c) (intena c) b).

Definition push_off : M smp unit :=
  old ← intr_get;
  intr_set false;;
  c ← gets (λ s, cpus s !!! me);
  when (noff c =? 0) (set_cpu (mkcpu (noff c) old (intr c)));;
  c ← gets (λ s, cpus s !!! me);
  set_cpu (mkcpu (noff c + 1) (intena c) (intr c)).

Definition pop_off : M smp unit :=
  i ← intr_get;
  when i (fail (Panic "pop_off - interruptible"));;
  c ← gets (λ s, cpus s !!! me);
  when (noff c <? 1) (fail (Panic "pop_off"));;
  set_cpu (mkcpu (noff c - 1) (intena c) (intr c));;
  when ((noff c - 1 =? 0) && intena c) (intr_set true).

Definition holding (lk : Z) : M smp bool :=
  l ← gets (λ s, locks s !!! lk);
  mret (locked l && bool_decide (lcpu l = Some me)).

(** [acquire] up to the first atomic swap. *)
Definition acquire_enter (lk : Z) : M smp unit :=
  push_off;;
  h ← holding lk;
  when h (fail (Panic "acquire")).

(** One [__sync_lock_test_and_set(&lk->locked, 1)]: the old value. *)
Definition test_and_set (lk : Z) : M smp bool :=
  l ← gets (λ s, locks s !!! lk);
  set_lock lk (mklock true (lcpu l));;
  mret (locked l).

(** The end of [acquire]: [lk->cpu = mycpu()]. *)
Definition acquire_done (lk : Z) : M smp unit :=
  l ← gets (λ s, locks s !!! lk);
  set_lock lk (mklock (locked l) (Some me)).

(** [release] up to the atomic store that frees the lock. *)
Definition release_enter (lk : Z) : M smp unit :=
  h ← holding lk;
  when (negb h) (fail (Panic "release"));;
  l ← gets (λ s, locks s !!! lk);
  set_lock lk (mklock (locked l) None).

(** [__sync_lock_release(&lk->locked)] and [pop_off]. *)
Definition release_done (lk : Z) : M smp unit :=
  l ← gets (λ s, locks s !!! lk);
  set_lock lk (mklock false (lcpu l));;
  pop_off.

(** The whole functions, as they run when no other CPU interferes; a swap that
    finds the lock taken would spin forever. *)
Definition acquire (lk : Z) : M smp unit :=
  acquire_enter lk;;
  old ← test_and_set lk;
  when old (fail (Sleeping lk));;
  acquire_done lk.

Definition release (lk : Z) : M smp unit :=
  release_enter lk;;
  release_done lk.
End code.

(** ** Interleavings *)

(** Where a CPU is: outside these functions, spinning in [acquire], between the
    successful swap and the end of [acquire], inside [release]. *)
Inductive pc := Idle | Spin (lk : Z) | Got (lk : Z) | Rel (lk : Z).

#[export] Instance pc_inhabited : Inhabited pc := populate Idle.

(** The machine, the program counters, and the locks each CPU has acquired and
    not yet released (its critical sections), most recent first. *)
Record machine := mkm { sys : smp; pcs : gmap nat pc; crit : gmap nat (list Z) }.

Definition at_pc (x : machine) (c : nat) (p : pc) (s : smp) (h : list Z) : machine :=
  mkm s (<[c := p]> (pcs x)) (<[c := h]> (crit x)).

(** The steps of CPU [c]; it releases only locks it holds. *)
Inductive step : machine → machine → Prop :=
  | step_enter x c lk s :
      pcs x !!! c = Idle → acquire_enter c lk (sys x) = Ok () s →
      step x (at_pc x c (Spin lk) s (crit x !!! c))
  | step_spin x c lk s :
      pcs x !!! c = Spin lk → test_and_set lk (sys x) = Ok true s →
      step x (at_pc x c (Spin lk) s (crit x !!! c))
  | step_take x c lk s :
      pcs x !!! c = Spin lk → test_and_set lk (sys x) = Ok false s →
      step x (at_pc x c (Got lk) s (crit x !!! c))
  | step_acquired x c lk s :
      pcs x !!! c = Got lk → acquire_done c lk (sys x) = Ok () s →
      step x (at_pc x c Idle s (lk :: crit x !!! c))
  | step_release x c lk s :
      pcs x !!! c = Idle → lk ∈ crit x !!! c → release_enter c lk (sys x) = Ok () s →
      step x (at_pc x c (Rel lk) s (filter (λ l, l ≠ lk) (crit x !!! c)))
  | step_released x c lk s :
      pcs x !!! c = Rel lk → release_done c lk (sys x) = Ok () s →
      step x (at_pc x c Idle s (crit x !!! c)).

(** The machine before any lock is used. *)
Definition quiet (cs : gmap nat cpu) : machine := mkm (mksmp cs ∅) ∅ ∅.

(** ** The invariant *)

(** CPU [c] owns [lk]: it holds it, or is about to, or is giving it up. *)
Definition owns (x : machine) (c : nat) (lk : Z) : Prop :=
  lk ∈ crit x !!! c ∨ pcs x !!! c = Got lk ∨ pcs x !!! c = Rel lk.

(** The number of [push_off]s CPU [c] has not undone. *)
Definition depth (x : machine) (c : nat) : Z :=
  Z.of_nat (length (crit x !!! c)) + match pcs x !!! c with Idle => 0 | _ => 1 end.

(** The interrupt state of one CPU at nesting depth [d]: interrupts are off
    inside, and [intena] remembers what they were outside ([ie]). *)
Definition cpu_ok (ie : bool) (d : Z) (c : cpu) : Prop :=
  noff c = d ∧ 0 ≤ d ∧ (if d =? 0 then intr c = ie else intr c = false ∧ intena c = ie).

Record inv (cs : gmap nat cpu) (x : machine) : Prop := {
  inv_locked lk : locked (locks (sys x) !!! lk) = true ↔ ∃ c, owns x c lk;
  inv_unique c1 c2 lk : owns x c1 lk → owns x c2 lk → c1 = c2;
  inv_lcpu c lk : lcpu (locks (sys x) !!! lk) = Some c ↔ lk ∈ crit x !!! c;
  inv_got c lk : pcs x !!! c = Got lk ∨ pcs x !!! c = Rel lk → lk ∉ crit x !!! c;
  inv_nodup c : NoDup (crit x !!! c);
  inv_cpus c : cpu_ok (intr (cs !!! c)) (depth x c) (cpus (sys x) !!! c);
}.

(** *** The code on one CPU *)

Definition pushed (c : cpu) : cpu := mkcpu (noff c + 1) (if noff c =? 0 then intr c else intena c) false.
Definition popped (c : cpu) : cpu := mkcpu (noff c - 1) (intena c) ((noff c - 1 =? 0) && intena c).

Definition upd_cpu (me : nat) (c : cpu) (s : smp) : smp := mksmp (<[me := c]> (cpus s)) (locks s).
Definition upd_lock (lk : Z) (l : spinlock) (s : smp) : smp := mksmp (cpus s) (<[lk := l]> (locks s)).

Lemma push_off_run me s : push_off me s = Ok () (upd_cpu me (pushed (cpus s !!! me)) s).
Proof.
  unfold push_off, intr_get, intr_set, set_cpu, gets, modify, mbind, M_bind, upd_cpu, pushed. simpl.
  rewrite !lookup_total_insert_eq. simpl.
  destruct (noff (cpus s !!! me) =? 0); simpl; rewrite !lookup_total_insert_eq; simpl;
    by rewrite !insert_insert_eq.
Qed.

Lemma pop_off_run me s :
  intr (cpus s !!! me) = false → 1 ≤ noff (cpus s !!! me) →
  pop_off me s = Ok () (upd_cpu me (popped (cpus s !!! me)) s).
Proof.
  intros Hi Hn. unfold pop_off, intr_get, intr_set, set_cpu, gets, modify, mbind, M_bind, upd_cpu, popped.
  rewrite Hi. simpl. destruct (Z.ltb_spec (noff (cpus s !!! me)) 1); [lia|]. simpl.
  destruct (_ && _); simpl; rewrite ?lookup_total_insert_eq, ?insert_insert_eq, ?Hi; done.
Qed.

Lemma cpu_ok_pushed ie d c : cpu_ok ie d c → cpu_ok ie (d + 1) (pushed c).
Proof.
  intros (Hn & Hd & Hc). unfold cpu_ok, pushed. simpl. rewrite Hn.
  destruct (Z.eqb_spec (d + 1) 0); [lia|]. destruct (Z.eqb_spec d 0); naive_solver lia.
Qed.

Lemma cpu_ok_popped ie d c : cpu_ok ie (d + 1) c → 0 ≤ d → cpu_ok ie d (popped c).
Proof.
  intros (Hn & _ & Hc) Hd. unfold cpu_ok, popped. simpl. rewrite Hn.
  destruct (Z.eqb_spec (d + 1) 0); [lia|]. destruct Hc as [Hi He].
  replace (d + 1 - 1) with d by lia. destruct (Z.eqb_spec d 0); simpl; naive_solver lia.
Qed.

(** *** One step *)

Lemma owns_same x c p s h lk :
  owns (at_pc x c p s h) c lk ↔ lk ∈ h ∨ p = Got lk ∨ p = Rel lk.
Proof. unfold owns, at_pc. simpl. by rewrite !lookup_total_insert_eq. Qed.

Lemma owns_other x c p s h c' lk : c ≠ c' → owns (at_pc x c p s h) c' lk ↔ owns x c' lk.
Proof. intros Hc. unfold owns, at_pc. simpl. by rewrite !lookup_total_insert_ne. Qed.

Lemma depth_same x c p s h :
  depth (at_pc x c p s h) c = Z.of_nat (length h) + match p with Idle => 0 | _ => 1 end.
Proof. unfold depth, at_pc. simpl. by rewrite !lookup_total_insert_eq. Qed.

Lemma depth_other x c p s h c' : c ≠ c' → depth (at_pc x c p s h) c' = depth x c'.
Proof. intros Hc. unfold depth, at_pc. simpl. by rewrite !lookup_total_insert_ne. Qed.

(** A step of [c] that changes what [c] owns at most at [lk], and the lock [lk]
    and the CPU [c] of the machine only, preserves the invariant when it does
    so at [lk] and [c]. *)
Lemma inv_step cs x c p h lk s :
  inv cs x →
  let x' := at_pc x c p s h in
  (∀ c', c' ≠ c → cpus s !!! c' = cpus (sys x) !!! c') →
  (∀ lk', lk' ≠ lk → locks s !!! lk' = locks (sys x) !!! lk') →
  (∀ lk', lk' ≠ lk → owns x' c lk' ↔ owns x c lk') →
  (∀ lk', lk' ≠ lk → lk' ∈ h ↔ lk' ∈ crit x !!! c) →
  (owns x' c lk → ∀ c', owns x c' lk → c' = c) →
  (locked (locks s !!! lk) = true ↔ owns x' c lk ∨ ∃ c', c' ≠ c ∧ owns x c' lk) →
  (∀ c', lcpu (locks s !!! lk) = Some c' ↔ if decide (c' = c) then lk ∈ h else lk ∈ crit x !!! c') →
  (∀ lk', p = Got lk' ∨ p = Rel lk' → lk' ∉ h) → NoDup h →
  cpu_ok (intr (cs !!! c)) (depth x' c) (cpus s !!! c) →
  inv cs x'.
Proof.
  intros [Hl Hu Hc Hg Hnd Hk] x' Hcs Hls Ho Hh Hex Hlk Hcpu Hp Hn Hkk. split.
  - intros lk'. unfold x' at 1. simpl. destruct (decide (lk' = lk)) as [->|Hne].
    + rewrite Hlk. split.
      * intros [?|(c' & Hcc & Ho')]; [by exists c|]. exists c'. by apply owns_other.
      * intros [c' Ho']. destruct (decide (c = c')) as [->|]; [by left|]. right. exists c'.
        split; [done|]. by eapply owns_other.
    + rewrite Hls, Hl by done. split; intros [c' Ho']; exists c';
        (destruct (decide (c = c')) as [->|]; [by apply Ho|by eapply owns_other]).
  - intros c1 c2 lk' H1 H2. destruct (decide (c = c1)) as [<-|N1], (decide (c = c2)) as [<-|N2]; [done|..].
    + apply owns_other in H2; [|done]. destruct (decide (lk' = lk)) as [->|Hne]; [symmetry; by apply Hex|].
      apply Ho in H1; [|done]. by apply (Hu c c2 lk').
    + apply owns_other in H1; [|done]. destruct (decide (lk' = lk)) as [->|Hne]; [by apply Hex|].
      apply Ho in H2; [|done]. by apply (Hu c1 c lk').
    + apply owns_other in H1, H2; [|done..]. by apply (Hu c1 c2 lk').
  - intros c' lk'. unfold x'. simpl. destruct (decide (lk' = lk)) as [->|Hne].
    + rewrite Hcpu. destruct (decide (c' = c)) as [->|].
      * by rewrite lookup_total_insert_eq.
      * by rewrite lookup_total_insert_ne.
    + rewrite Hls, Hc by done. destruct (decide (c = c')) as [->|].
      * rewrite lookup_total_insert_eq. symmetry. by apply Hh.
      * by rewrite lookup_total_insert_ne.
  - intros c' lk'. unfold x'. simpl. destruct (decide (c = c')) as [->|].
    + rewrite !lookup_total_insert_eq. apply Hp.
    + rewrite !lookup_total_insert_ne by done. apply Hg.
  - intros c'. unfold x'. simpl. destruct (decide (c = c')) as [->|].
    + by rewrite lookup_total_insert_eq.
    + by rewrite lookup_total_insert_ne.
  - intros c'. unfold x' at 2. simpl. destruct (decide (c = c')) as [->|]; [done|].
    unfold x'. rewrite Hcs, depth_other by done. apply Hk.
Qed.

(** The results of the pieces. *)
Lemma acquire_enter_inv c lk s s' :
  acquire_enter c lk s = Ok () s' →
  s' = upd_cpu c (pushed (cpus s !!! c)) s ∧ ¬ (locked (locks s !!! lk) = true ∧ lcpu (locks s !!! lk) = Some c).
Proof.
  intros H. unfold acquire_enter in H. erewrite bind_ok in H by apply push_off_run.
  unfold holding, gets, mbind, M_bind, mret, M_ret in H. simpl in H.
  destruct (locked (locks s !!! lk)); simpl in H; [|injection H as <-; naive_solver].
  case_bool_decide; [done|]. injection H as <-. naive_solver.
Qed.

Lemma test_and_set_inv lk s b s' :
  test_and_set lk s = Ok b s' →
  s' = upd_lock lk (mklock true (lcpu (locks s !!! lk))) s ∧ b = locked (locks s !!! lk).
Proof. intros H. unfold test_and_set, gets, set_lock, modify, mbind, M_bind in H. simpl in H. by injection H as <- <-. Qed.

Lemma acquire_done_inv c lk s s' :
  acquire_done c lk s = Ok () s' → s' = upd_lock lk (mklock (locked (locks s !!! lk)) (Some c)) s.
Proof. intros H. unfold acquire_done, gets, set_lock, modify, mbind, M_bind in H. simpl in H. by injection H as <-. Qed.

Lemma release_enter_run c lk s :
  locked (locks s !!! lk) = true → lcpu (locks s !!! lk) = Some c →
  release_enter c lk s = Ok () (upd_lock lk (mklock true None) s).
Proof.
  intros Hl Hc. unfold release_enter, holding, gets, set_lock, modify, mbind, M_bind, mret, M_ret.
  rewrite Hl, Hc, bool_decide_true by done. simpl. by rewrite Hl.
Qed.

Lemma release_done_run c lk s :
  intr (cpus s !!! c) = false → 1 ≤ noff (cpus s !!! c) →
  release_done c lk s =
    Ok () (upd_cpu c (popped (cpus s !!! c)) (upd_lock lk (mklock false (lcpu (locks s !!! lk))) s)).
Proof.
  intros Hi Hn. unfold release_done, gets, set_lock, modify. unfold mbind at 1, M_bind at 1.
  unfold mbind at 1, M_bind at 1. simpl. by rewrite pop_off_run.
Qed.

(** The CPU state inside [release]. *)
Lemma inv_release_cpu cs x c lk :
  inv cs x → pcs x !!! c = Rel lk →
  intr (cpus (sys x) !!! c) = false ∧ 1 ≤ noff (cpus (sys x) !!! c).
Proof.
  intros Hinv Hp. destruct (inv_cpus cs x Hinv c) as (Hn & Hd & Hc). unfold depth in *.
  rewrite Hp in *. destruct (Z.eqb_spec (Z.of_nat (length (crit x !!! c)) + 1) 0); [lia|].
  split; [apply Hc|lia].
Qed.

Ltac lookups :=
  simpl; repeat first
    [ rewrite lookup_total_insert_eq | rewrite lookup_total_insert_ne by (done || congruence) ]; simpl.

Lemma step_enter_inv cs x c lk :
  inv cs x → pcs x !!! c = Idle →
  inv cs (at_pc x c (Spin lk) (upd_cpu c (pushed (cpus (sys x) !!! c)) (sys x)) (crit x !!! c)).
Proof.
  intros Hinv Hp. assert (∀ lk', owns (at_pc x c (Spin lk) (upd_cpu c (pushed (cpus (sys x) !!! c)) (sys x))
      (crit x !!! c)) c lk' ↔ owns x c lk') as Ho.
  { intros lk'. rewrite owns_same. unfold owns. rewrite Hp. naive_solver. }
  apply (inv_step cs x c _ _ lk); try done; try (intros; by lookups); try (intros ? [?|?]; done).
  - intros H1 c' H2. apply Ho in H1. by apply (inv_unique _ _ Hinv _ _ lk).
  - simpl. rewrite (inv_locked _ _ Hinv), Ho. split; [|naive_solver].
    intros [c' Hc']. destruct (decide (c' = c)) as [->|]; [by left|right; eauto].
  - intros c'. simpl. rewrite (inv_lcpu _ _ Hinv). by destruct (decide (c' = c)) as [->|].
  - apply (inv_nodup _ _ Hinv).
  - lookups. rewrite depth_same. pose proof (inv_cpus _ _ Hinv c) as Hk. unfold depth in Hk.
    rewrite Hp, Z.add_0_r in Hk. by apply cpu_ok_pushed.
Qed.

Lemma step_spin_inv cs x c lk :
  inv cs x → pcs x !!! c = Spin lk → locked (locks (sys x) !!! lk) = true →
  inv cs (at_pc x c (Spin lk) (upd_lock lk (mklock true (lcpu (locks (sys x) !!! lk))) (sys x)) (crit x !!! c)).
Proof.
  intros Hinv Hp Hl.
  set (x' := at_pc x c (Spin lk) _ _). assert (∀ lk', owns x' c lk' ↔ owns x c lk') as Ho.
  { intros lk'. unfold x'. rewrite owns_same. unfold owns. rewrite Hp. naive_solver. }
  apply (inv_step cs x c _ _ lk); try done; try (intros; by lookups); try (intros ? [?|?]; done).
  - intros H1 c' H2. apply Ho in H1. by apply (inv_unique _ _ Hinv _ _ lk).
  - lookups. rewrite <- Hl at 1. rewrite (inv_locked _ _ Hinv). fold x'. rewrite Ho. split; [|naive_solver].
    intros [c' Hc']. destruct (decide (c' = c)) as [->|]; [by left|right; eauto].
  - intros c'. lookups. rewrite (inv_lcpu _ _ Hinv). by destruct (decide (c' = c)) as [->|].
  - apply (inv_nodup _ _ Hinv).
  - rewrite depth_same. pose proof (inv_cpus _ _ Hinv c) as Hk. unfold depth in Hk. by rewrite Hp in Hk.
Qed.

Lemma step_take_inv cs x c lk :
  inv cs x → pcs x !!! c = Spin lk → locked (locks (sys x) !!! lk) = false →
  inv cs (at_pc x c (Got lk) (upd_lock lk (mklock true (lcpu (locks (sys x) !!! lk))) (sys x)) (crit x !!! c)).
Proof.
  intros Hinv Hp Hl.
  assert (∀ c', ¬ owns x c' lk) as Hno.
  { intros c' Ho. assert (locked (locks (sys x) !!! lk) = true) as Ht by (apply (inv_locked _ _ Hinv); eauto).
    congruence. }
  apply (inv_step cs x c _ _ lk); try done; try (intros; by lookups).
  - intros lk' Hne. rewrite owns_same. unfold owns. rewrite Hp. naive_solver.
  - intros _ c' Ho. by destruct (Hno c').
  - lookups. rewrite owns_same. naive_solver.
  - intros c'. lookups. rewrite (inv_lcpu _ _ Hinv). by destruct (decide (c' = c)) as [->|].
  - intros lk' [[= <-]|?]; [|done]. intros Hin. apply (Hno c). by left.
  - apply (inv_nodup _ _ Hinv).
  - rewrite depth_same. pose proof (inv_cpus _ _ Hinv c) as Hk. unfold depth in Hk. by rewrite Hp in Hk.
Qed.

Lemma step_acquired_inv cs x c lk :
  inv cs x → pcs x !!! c = Got lk →
  inv cs (at_pc x c Idle (upd_lock lk (mklock (locked (locks (sys x) !!! lk)) (Some c)) (sys x)) (lk :: crit x !!! c)).
Proof.
  intros Hinv Hp.
  assert (owns x c lk) as Hown by (right; by left).
  apply (inv_step cs x c _ _ lk); try done; try (intros; by lookups); try (intros ? [?|?]; done).
  - intros lk' Hne. rewrite owns_same, elem_of_cons. unfold owns. rewrite Hp. naive_solver.
  - intros lk' Hne. rewrite elem_of_cons. naive_solver.
  - intros _ c' Ho. by apply (inv_unique _ _ Hinv _ _ lk).
  - lookups. rewrite (inv_locked _ _ Hinv), owns_same. set_solver.
  - intros c'. lookups. destruct (decide (c' = c)) as [->|Hne]; [set_solver|].
    split; [naive_solver|]. intros Hin. destruct Hne. apply (inv_unique _ _ Hinv _ _ lk); [by left|done].
  - apply NoDup_cons. split; [|apply (inv_nodup _ _ Hinv)]. apply (inv_got _ _ Hinv). by left.
  - rewrite depth_same. pose proof (inv_cpus _ _ Hinv c) as Hk. unfold depth in Hk. rewrite Hp in Hk.
    simpl length. by replace (Z.of_nat (S (length (crit x !!! c))) + 0) with
      (Z.of_nat (length (crit x !!! c)) + 1) by lia.
Qed.

Lemma length_filter_remove (l : list Z) a :
  NoDup l → a ∈ l → length l = S (length (filter (λ b, b ≠ a) l)).
Proof.
  induction 1 as [|b l Hb Hnd IH]; [by intros ?%elem_of_nil|]. intros [->|Hin]%elem_of_cons.
  - rewrite filter_cons_False by naive_solver. simpl. f_equal.
    clear IH Hnd. induction l as [|c l IH]; [done|]. apply not_elem_of_cons in Hb as [Hbc Hb].
    rewrite filter_cons_True by congruence. simpl. by rewrite <- IH.
  - rewrite filter_cons_True by (intros ->; done). simpl. f_equal. by apply IH.
Qed.

Lemma step_release_inv cs x c lk :
  inv cs x → pcs x !!! c = Idle → lk ∈ crit x !!! c →
  inv cs (at_pc x c (Rel lk) (upd_lock lk (mklock true None) (sys x)) (filter (λ l, l ≠ lk) (crit x !!! c))).
Proof.
  intros Hinv Hp Hin.
  assert (owns x c lk) as Hown by (by left).
  apply (inv_step cs x c _ _ lk); try done; try (intros; by lookups).
  - intros lk' Hne. rewrite owns_same, list_elem_of_filter. unfold owns. rewrite Hp. naive_solver.
  - intros lk' Hne. rewrite list_elem_of_filter. naive_solver.
  - intros _ c' Ho. by apply (inv_unique _ _ Hinv _ _ lk).
  - lookups. rewrite owns_same. naive_solver.
  - intros c'. lookups. destruct (decide (c' = c)) as [->|Hne].
    + rewrite list_elem_of_filter. naive_solver.
    + split; [done|]. intros Hin'. destruct Hne. apply (inv_unique _ _ Hinv _ _ lk); [by left|done].
  - intros lk' [?|[= <-]]; [done|]. rewrite list_elem_of_filter. naive_solver.
  - apply NoDup_filter, (inv_nodup _ _ Hinv).
  - rewrite depth_same. pose proof (inv_cpus _ _ Hinv c) as Hk. unfold depth in Hk. rewrite Hp in Hk.
    rewrite (length_filter_remove _ lk) in Hk; [|apply (inv_nodup _ _ Hinv)|done].
    by replace (Z.of_nat (length (filter (λ l, l ≠ lk) (crit x !!! c))) + 1) with
      (Z.of_nat (S (length (filter (λ l, l ≠ lk) (crit x !!! c)))) + 0) by lia.
Qed.

Lemma step_released_inv cs x c lk :
  inv cs x → pcs x !!! c = Rel lk →
  inv cs (at_pc x c Idle (upd_cpu c (popped (cpus (sys x) !!! c))
    (upd_lock lk (mklock false (lcpu (locks (sys x) !!! lk))) (sys x))) (crit x !!! c)).
Proof.
  intros Hinv Hp.
  assert (owns x c lk) as Hown by (right; by right).
  assert (lk ∉ crit x !!! c) as Hnin by (apply (inv_got _ _ Hinv); by right).
  apply (inv_step cs x c _ _ lk); try done; try (intros; by lookups); try (intros ? [?|?]; done).
  - intros lk' Hne. rewrite owns_same. unfold owns. rewrite Hp. naive_solver.
  - rewrite owns_same. naive_solver.
  - lookups. rewrite owns_same. split; [done|]. intros [[?|[?|?]]|(c' & Hc' & Ho)]; try done.
    destruct Hc'. by apply (inv_unique _ _ Hinv _ _ lk).
  - intros c'. lookups. rewrite (inv_lcpu _ _ Hinv). by destruct (decide (c' = c)) as [->|].
  - apply (inv_nodup _ _ Hinv).
  - lookups. rewrite depth_same. pose proof (inv_cpus _ _ Hinv c) as Hk. unfold depth in Hk.
    rewrite Hp in Hk. rewrite Z.add_0_r. apply cpu_ok_popped; [done|lia].
Qed.

Lemma step_inv cs x x' : step x x' → inv cs x → inv cs x'.
Proof.
  intros Hstep Hinv.
  destruct Hstep as [x c lk s Hp Hr|x c lk s Hp Hr|x c lk s Hp Hr|x c lk s Hp Hr|x c lk s Hp Hin Hr|x c lk s Hp Hr].
  - apply acquire_enter_inv in Hr as [-> _]. by apply step_enter_inv.
  - apply test_and_set_inv in Hr as [-> Hl]. by apply step_spin_inv.
  - apply test_and_set_inv in Hr as [-> Hl]. by apply step_take_inv.
  - apply acquire_done_inv in Hr as ->. by apply step_acquired_inv.
  - rewrite release_enter_run in Hr.
    + injection Hr as <-. by apply step_release_inv.
    + apply (inv_locked _ _ Hinv). exists c. by left.
    + by apply (inv_lcpu _ _ Hinv).
  - destruct (inv_release_cpu _ _ _ _ Hinv Hp). rewrite release_done_run in Hr by done.
    injection Hr as <-. by apply step_released_inv.
Qed.

Lemma quiet_inv cs : (∀ c, noff (cs !!! c) = 0) → inv cs (quiet cs).
Proof.
  intros Hcs. assert (∀ c lk, ¬ owns (quiet cs) c lk) as Hno.
  { intros c lk. unfold owns, quiet. simpl. rewrite !lookup_total_empty. simpl. set_solver. }
  split.
  - intros lk. simpl. rewrite lookup_total_empty. simpl. naive_solver.
  - intros c1 c2 lk H1. by destruct (Hno c1 lk).
  - intros c lk. simpl. rewrite !lookup_total_empty. simpl. set_solver.
  - intros c lk. simpl. rewrite !lookup_total_empty. simpl. set_solver.
  - intros c. simpl. rewrite !lookup_total_empty. constructor.
  - intros c. unfold cpu_ok, depth. simpl. rewrite !lookup_total_empty. simpl. naive_solver.
Qed.

(** C23: in every interleaving of any number of CPUs that acquire locks and
    release the ones they hold: at most one CPU is in the critical section of a
    lock; it runs with interrupts off; releasing a lock one holds never panics;
    and a CPU that holds nothing has its interrupts as they were initially. *)
Theorem spinlock_correct cs x :
  (∀ c, noff (cs !!! c) = 0) → rtc step (quiet cs) x →
  (∀ c1 c2 lk, lk ∈ crit x !!! c1 → lk ∈ crit x !!! c2 → c1 = c2) ∧
  (∀ c lk, lk ∈ crit x !!! c → intr (cpus (sys x) !!! c) = false) ∧
  (∀ c lk, lk ∈ crit x !!! c → ∃ s, release c lk (sys x) = Ok () s) ∧
  (∀ c, crit x !!! c = [] → pcs x !!! c = Idle →
     noff (cpus (sys x) !!! c) = 0 ∧ intr (cpus (sys x) !!! c) = intr (cs !!! c)).
Proof.
  intros Hcs Hr. assert (inv cs x) as Hinv.
  { apply quiet_inv in Hcs. clear -Hr Hcs. induction Hr; eauto using step_inv. }
  assert (∀ c lk, lk ∈ crit x !!! c → intr (cpus (sys x) !!! c) = false ∧ 1 ≤ noff (cpus (sys x) !!! c)) as Hi.
  { intros c lk Hin. destruct (inv_cpus _ _ Hinv c) as (Hn & Hd & Hc).
    assert (0 < depth x c) as Hpos.
    { unfold depth. destruct (crit x !!! c); [by apply elem_of_nil in Hin|]. simpl. destruct (pcs x !!! c); lia. }
    destruct (Z.eqb_spec (depth x c) 0); [lia|]. split; [apply Hc|lia]. }
  split_and!.
  - intros c1 c2 lk H1 H2. apply (inv_unique _ _ Hinv _ _ lk); by left.
  - intros c lk Hin. by eapply Hi.
  - intros c lk Hin. destruct (Hi c lk Hin) as [H1 H2]. unfold release.
    erewrite bind_ok by (apply release_enter_run;
      [apply (inv_locked _ _ Hinv); exists c; by left|by apply (inv_lcpu _ _ Hinv)]).
    rewrite release_done_run by done. eauto.
  - intros c Hc Hp. destruct (inv_cpus _ _ Hinv c) as (Hn & _ & Hok). unfold depth in *.
    rewrite Hc, Hp in *. done.
Qed.

Module SpinWitness.
Definition cpus0 : gmap nat cpu := {[ 0%nat := mkcpu 0 false true; 1%nat := mkcpu 0 false true ]}.

Lemma cpus0_noff c : noff (cpus0 !!! c) = 0.
Proof.
  destruct (cpus0 !! c) as [k|] eqn:Hc.
  - apply lookup_total_correct in Hc as Ht. rewrite Ht.
    unfold cpus0 in Hc. apply lookup_insert_Some in Hc as [[_ <-]|[_ Hc]]; [done|].
    by apply lookup_singleton_Some in Hc as [_ <-].
  - by rewrite lookup_total_alt, Hc.
Qed.

(** CPU 0 holds lock 7 while CPU 1 spins on it. *)
Lemma contended : ∃ x, rtc step (quiet cpus0) x ∧ 7 ∈ crit x !!! 0%nat ∧ pcs x !!! 1%nat = Spin 7.
Proof.
  eexists. split.
  - eapply rtc_l; [eapply (step_enter _ 0%nat 7); [reflexivity|vm_compute; reflexivity]|].
    eapply rtc_l; [eapply (step_take _ 0%nat 7); [reflexivity|vm_compute; reflexivity]|].
    eapply rtc_l; [eapply (step_enter _ 1%nat 7); [reflexivity|vm_compute; reflexivity]|].
    eapply rtc_l; [eapply (step_acquired _ 0%nat 7); [reflexivity|vm_compute; reflexivity]|].
    eapply rtc_l; [eapply (step_spin _ 1%nat 7); [reflexivity|vm_compute; reflexivity]|].
    apply rtc_refl.
  - split; [apply list_elem_of_here|reflexivity].
Qed.

Lemma spinlock_correct_witness :
  ∃ x, 7 ∈ crit x !!! 0%nat ∧ pcs x !!! 1%nat = Spin 7 ∧ ∃ s, release 0 7 (sys x) = Ok () s.
Proof.
  destruct contended as (x & Hr & Hin & Hp). exists x. split; [done|]. split; [done|].
  exact (proj1 (proj2 (proj2 (spinlock_correct cpus0 x cpus0_noff Hr))) 0%nat 7 Hin).
Defined.
End SpinWitness.
