(* ===== verification/Sleeplock.v ===== *)
(** * kernel/sleeplock.c: locks that a process can sleep on

    The three operations, each the critical section it is under the inner spin
    lock [lk->lk]; [acquiresleep] is split where it may call [sleep], which
    releases that spin lock. *)
From S2P Require Import Prelude.

(** kernel/sleeplock.h; the inner spin lock and the debugging name are left out. *)
Record sleeplock := mksleeplock { slocked : bool; spid : Z }.

Definition initsleeplock : sleeplock := mksleeplock false 0.

(** One pass of the loop of [acquiresleep] by process [pid]: the lock taken, or
    [None] when the process has to sleep. *)
Definition try_acquiresleep (pid : Z) (lk : sleeplock) : option sleeplock :=
  if slocked lk then None else Some (mksleeplock true pid).

Definition releasesleep (lk : sleeplock) : sleeplock := mksleeplock false 0.

Definition holdingsleep (pid : Z) (lk : sleeplock) : bool := slocked lk && (spid lk =? pid).

(** [acquiresleep] in a run of a single process: it returns with the lock, or
    stops asleep on the channel [chan]. *)
Definition acquiresleep {S} (pid chan : Z) (lk : sleeplock) : M S sleeplock :=
  match try_acquiresleep pid lk with
  | Some lk' => mret lk'
  | None => fail (Sleeping chan)
  end.
