(* ===== verification/Block.v ===== *)
(** * The bytes of a disk block

    Reading and writing fields of the structures that C code overlays on a
    block: [rd w off bs] is the [w]-byte little-endian field at offset [off]. *)
From S2P Require Import Prelude Mem.

#[local] Open Scope Z_scope.

Definition slice (off n : nat) (bs : list Z) : list Z := take n (drop off bs).
Definition overwrite (off : nat) (new bs : list Z) : list Z :=
  take off bs ++ new ++ drop (off + length new) bs.

Definition rd (w off : nat) (bs : list Z) : Z := le_combine (slice off w bs).
Definition wr (w off : nat) (v : Z) (bs : list Z) : list Z := overwrite off (le_split w v) bs.

Lemma length_slice off n bs : (off + n ≤ length bs)%nat → length (slice off n bs) = n.
Proof. intros H. unfold slice. rewrite length_take, length_drop. lia. Qed.

Lemma length_overwrite off new bs : (off + length new ≤ length bs)%nat → length (overwrite off new bs) = length bs.
Proof. intros H. unfold overwrite. rewrite !length_app, length_take, length_drop. lia. Qed.

Lemma slice_overwrite off new bs :
  (off + length new ≤ length bs)%nat → slice off (length new) (overwrite off new bs) = new.
Proof.
  intros H. unfold slice, overwrite. rewrite drop_app_length' by (rewrite length_take; lia). apply take_app_length.
Qed.

Lemma overwrite_lookup off new bs i :
  (off + length new ≤ length bs)%nat →
  overwrite off new bs !! i = if decide (off ≤ i < off + length new)%nat then new !! (i - off)%nat else bs !! i.
Proof.
  intros H. unfold overwrite. case_decide as Hi.
  - rewrite lookup_app_r by (rewrite length_take; lia). rewrite length_take, lookup_app_l by lia. f_equal. lia.
  - destruct (decide (i < off)%nat).
    + rewrite lookup_app_l by (rewrite length_take; lia). by rewrite lookup_take_lt.
    + rewrite lookup_app_r by (rewrite length_take; lia). rewrite length_take, lookup_app_r by lia.
      rewrite lookup_drop. f_equal. lia.
Qed.

Lemma slice_lookup off n bs i : slice off n bs !! i = if decide (i < n)%nat then bs !! (off + i)%nat else None.
Proof.
  unfold slice. case_decide; [rewrite lookup_take_lt by done; apply lookup_drop|].
  apply lookup_take_ge. lia.
Qed.

Lemma slice_overwrite_ne off new bs o n :
  (off + length new ≤ length bs)%nat → (o + n ≤ off ∨ off + length new ≤ o)%nat →
  slice o n (overwrite off new bs) = slice o n bs.
Proof.
  intros H Hd. apply list_eq. intros i. rewrite !slice_lookup. case_decide; [|done].
  rewrite overwrite_lookup by done. rewrite decide_False; [done|lia].
Qed.

Lemma overwrite_all new bs : length new = length bs → overwrite 0 new bs = new.
Proof. intros H. unfold overwrite. simpl. rewrite drop_ge by lia. apply app_nil_r. Qed.

(** Writing back what is there changes nothing. *)
Lemma overwrite_id off n bs : (off + n ≤ length bs)%nat → overwrite off (slice off n bs) bs = bs.
Proof.
  intros H. apply list_eq. intros i. rewrite overwrite_lookup by (rewrite length_slice; lia).
  rewrite length_slice by done. case_decide; [|done]. rewrite slice_lookup, decide_True by lia. f_equal. lia.
Qed.

Lemma le_combine_wrap n v : le_combine (le_split n v) = v `mod` 256 ^ Z.of_nat n.
Proof.
  revert v; induction n as [|n IH]; intros v; simpl le_split; simpl le_combine.
  - by rewrite Z.mod_1_r.
  - rewrite IH. rewrite Nat2Z.inj_succ, Z.pow_succ_r by lia. rewrite Z.rem_mul_r by lia. lia.
Qed.

Lemma length_wr w off v bs : (off + w ≤ length bs)%nat → length (wr w off v bs) = length bs.
Proof. intros H. apply length_overwrite. by rewrite length_le_split. Qed.

Lemma rd_wr w off v bs : (off + w ≤ length bs)%nat → rd w off (wr w off v bs) = v `mod` 256 ^ Z.of_nat w.
Proof.
  intros H. unfold rd, wr. rewrite <- (length_le_split w v) at 1. rewrite slice_overwrite by (by rewrite length_le_split).
  apply le_combine_wrap.
Qed.

Lemma rd_wr_ne w off v bs w' o :
  (off + w ≤ length bs)%nat → (o + w' ≤ off ∨ off + w ≤ o)%nat → rd w' o (wr w off v bs) = rd w' o bs.
Proof. intros H Hd. unfold rd, wr. rewrite slice_overwrite_ne; [done|by rewrite length_le_split..]. Qed.

Lemma rd_range w off bs : (off + w ≤ length bs)%nat → Forall is_byte bs → 0 ≤ rd w off bs < 256 ^ Z.of_nat w.
Proof.
  intros H Hb. unfold rd. rewrite <- (length_slice off w bs H) at 3. apply le_combine_range.
  by apply Forall_take, Forall_drop.
Qed.

Lemma Forall_overwrite off new bs : Forall is_byte new → Forall is_byte bs → Forall is_byte (overwrite off new bs).
Proof. intros Hn Hb. apply Forall_app_2; [by apply Forall_take|]. apply Forall_app_2; [done|by apply Forall_drop]. Qed.

Lemma Forall_wr w off v bs : Forall is_byte bs → Forall is_byte (wr w off v bs).
Proof. apply Forall_overwrite, le_split_bytes. Qed.

(** ** Files *)

(** Reading [n] bytes at [off] from a file with contents [c]. *)
Definition file_read (c : list Z) (off n : Z) : Z * list Z :=
  if (Z.of_nat (length c) <? off) || (2 ^ 32 <=? off + n) then (0, [])
  else let k := Z.min n (Z.of_nat (length c) - off) in (k, take (Z.to_nat k) (drop (Z.to_nat off) c)).

Lemma file_read_bytes c off n : Forall is_byte c → Forall is_byte (file_read c off n).2.
Proof. intros Hc. unfold file_read. destruct (_ || _); [constructor|]. simpl. by apply Forall_take, Forall_drop. Qed.

Lemma file_read_length c off n : 0 ≤ off → 0 ≤ n → Z.of_nat (length (file_read c off n).2) ≤ n.
Proof. intros Ho Hn. unfold file_read. destruct (_ || _); [simpl; lia|]. cbn [snd]. rewrite length_take. lia. Qed.

Lemma file_read_count c off n : 0 ≤ off → 0 ≤ n → (file_read c off n).1 = Z.of_nat (length (file_read c off n).2).
Proof.
  intros Ho Hn. unfold file_read. destruct (_ || _) eqn:He; [done|]. apply orb_false_iff in He as [H1 H2].
  cbn [fst snd]. rewrite length_take, length_drop. lia.
Qed.

(** A read within the file. *)
Lemma file_read_fit c off n :
  0 ≤ n → off + n ≤ Z.of_nat (length c) → Z.of_nat (length c) < 2 ^ 31 → (file_read c off n).1 = n.
Proof.
  intros Ho Hn Hc. unfold file_read. destruct (_ || _) eqn:He; [|cbn [fst]; lia].
  apply orb_true_iff in He as [He|He]; lia.
Qed.

(** A read that gets all it asked for. *)
Lemma file_read_full c off n bs :
  0 ≤ off → 0 < n → file_read c off n = (n, bs) →
  off + n ≤ Z.of_nat (length c) ∧ bs = take (Z.to_nat n) (drop (Z.to_nat off) c).
Proof.
  intros Ho Hn. unfold file_read. destruct (_ || _) eqn:He; [intros [= Hc _]; lia|]. intros [= Hk Hb].
  apply orb_false_iff in He as [H1 H2]. split; [lia|]. by rewrite <- Hb, Hk.
Qed.
