(* ===== verification/Bio.v ===== *)
(** * kernel/bio.c: the buffer cache

    Buffers are the entries of [bcache.buf], the list head is entry [NBUF];
    [prev] and [next] are indices.  The disk is what [virtio_disk_rw] presents
    to the cache: the contents of its blocks and the writes it has completed. *)
From S2P Require Import Prelude Sleeplock.
From stdpp Require Import functions.

#[local] Open Scope Z_scope.

(** kernel/param.h, kernel/fs.h *)
Definition MAXOPBLOCKS : Z := 10.
Definition NBUF : nat := 30.
Definition BSIZE : Z := 1024.
Definition ROOTDEV : Z := 1.

(** ** The disk *)

(** The blocks at power-on and the writes completed since, the oldest first. *)
Record disk := mkdisk { image : Z → list Z; writes : list (Z * list Z) }.

Definition apply_writes (img : Z → list Z) (ws : list (Z * list Z)) : Z → list Z :=
  foldl (λ m w, <[w.1 := w.2]> m) img ws.

Definition disk_read (d : disk) (bno : Z) : list Z := apply_writes (image d) (writes d) bno.
Definition disk_write (d : disk) (bno : Z) (bs : list Z) : disk := mkdisk (image d) (writes d ++ [(bno, bs)]).

(** ** Buffers *)

(** kernel/buf.h; [disk], which only the driver uses, is left out. *)
Record buf := mkbuf {
  valid : bool; dev : Z; blockno : Z; lock : sleeplock; refcnt : Z; prev : nat; next : nat; data : list Z }.

Definition set_valid v b := mkbuf v (dev b) (blockno b) (lock b) (refcnt b) (prev b) (next b) (data b).
Definition set_lock v b := mkbuf (valid b) (dev b) (blockno b) v (refcnt b) (prev b) (next b) (data b).
Definition set_refcnt v b := mkbuf (valid b) (dev b) (blockno b) (lock b) v (prev b) (next b) (data b).
Definition set_prev v b := mkbuf (valid b) (dev b) (blockno b) (lock b) (refcnt b) v (next b) (data b).
Definition set_next v b := mkbuf (valid b) (dev b) (blockno b) (lock b) (refcnt b) (prev b) v (data b).
Definition set_data v b := mkbuf (valid b) (dev b) (blockno b) (lock b) (refcnt b) (prev b) (next b) v.

(** [bcache] and the disk below it; [blk] tells whether [bcache.lock] is held. *)
Record bio := mkbio { blk : bool; bufs : list buf; dsk : disk }.

(** &bcache.head *)
Definition HEAD : nat := NBUF.

(** The pid of the running process. *)
Class Running := mypid : Z.

Section code.
Context `{Running}.

Definition acquire : M bio unit :=
  l ← gets blk;
  when l (fail (Panic "acquire"));;
  modify (λ s, mkbio true (bufs s) (dsk s)).

Definition release : M bio unit :=
  l ← gets blk;
  when (negb l) (fail (Panic "release"));;
  modify (λ s, mkbio false (bufs s) (dsk s)).

(** *b *)
Definition getb (b : nat) : M bio buf :=
  r ← gets (λ s, bufs s !! b);
  match r with Some x => mret x | None => fail (Undef "buf") end.

(** An assignment to fields of *b *)
Definition setb (b : nat) (f : buf → buf) : M bio unit :=
  x ← getb b;
  modify (λ s, mkbio (blk s) (<[b := f x]> (bufs s)) (dsk s)).

Definition disk_rw (b : nat) (write : bool) : M bio unit :=
  x ← getb b;
  if write then modify (λ s, mkbio (blk s) (bufs s) (disk_write (dsk s) (blockno x) (data x)))
  else d ← gets dsk; setb b (set_data (disk_read d (blockno x))).

Fixpoint binit_loop (b n : nat) : M bio unit :=
  match n with
  | O => mret ()
  | S n =>
      h ← getb HEAD;
      setb b (set_next (next h));;
      setb b (set_prev HEAD);;
      setb b (set_lock initsleeplock);;
      h ← getb HEAD;
      setb (next h) (set_prev b);;
      setb HEAD (set_next b);;
      binit_loop (S b) n
  end.

Definition binit : M bio unit :=
  modify (λ s, mkbio false (bufs s) (dsk s));;
  setb HEAD (set_prev HEAD);;
  setb HEAD (set_next HEAD);;
  binit_loop 0 NBUF.

Definition acquiresleep_buf (b : nat) : M bio unit :=
  x ← getb b;
  lk ← acquiresleep mypid (Z.of_nat b) (lock x);
  setb b (set_lock lk).

(** The first loop of [bget], from [b] on. *)
Fixpoint bget_cached (fuel b : nat) (dv bno : Z) : M bio (option nat) :=
  match fuel with
  | O => fail NoFuel
  | S fuel =>
      if (b =? HEAD)%nat then mret None else
      x ← getb b;
      if (dev x =? dv) && (blockno x =? bno) then mret (Some b)
      else bget_cached fuel (next x) dv bno
  end.

(** The second loop, backwards. *)
Fixpoint bget_unused (fuel b : nat) : M bio (option nat) :=
  match fuel with
  | O => fail NoFuel
  | S fuel =>
      if (b =? HEAD)%nat then mret None else
      x ← getb b;
      if refcnt x =? 0 then mret (Some b) else bget_unused fuel (prev x)
  end.

Definition bget (dv bno : Z) : M bio nat :=
  acquire;;
  h ← getb HEAD;
  r ← bget_cached (S NBUF) (next h) dv bno;
  match r with
  | Some b =>
      setb b (λ x, set_refcnt (u32 (refcnt x + 1)) x);;
      release;;
      acquiresleep_buf b;;
      mret b
  | None =>
      h ← getb HEAD;
      r ← bget_unused (S NBUF) (prev h);
      match r with
      | Some b =>
          setb b (λ x, mkbuf false dv bno (lock x) 1 (prev x) (next x) (data x));;
          release;;
          acquiresleep_buf b;;
          mret b
      | None => fail (Panic "bget: no buffers")
      end
  end.

Definition bread (dv bno : Z) : M bio nat :=
  b ← bget dv bno;
  x ← getb b;
  when (negb (valid x)) (
    disk_rw b false;;
    setb b (set_valid true));;
  mret b.

Definition bwrite (b : nat) : M bio unit :=
  x ← getb b;
  when (negb (holdingsleep mypid (lock x))) (fail (Panic "bwrite"));;
  disk_rw b true.

(** The unlinking and linking of [brelse]. *)
Definition brelse_move (b : nat) : M bio unit :=
  x ← getb b; setb (next x) (set_prev (prev x));;
  x ← getb b; setb (prev x) (set_next (next x));;
  h ← getb HEAD; setb b (set_next (next h));;
  setb b (set_prev HEAD);;
  h ← getb HEAD; setb (next h) (set_prev b);;
  setb HEAD (set_next b).

Definition brelse (b : nat) : M bio unit :=
  x ← getb b;
  when (negb (holdingsleep mypid (lock x))) (fail (Panic "brelse"));;
  setb b (λ x, set_lock (releasesleep (lock x)) x);;
  acquire;;
  setb b (λ x, set_refcnt (u32 (refcnt x - 1)) x);;
  x ← getb b;
  when (refcnt x =? 0) (brelse_move b);;
  release.

Definition bpin (b : nat) : M bio unit :=
  acquire;;
  setb b (λ x, set_refcnt (u32 (refcnt x + 1)) x);;
  release.

Definition bunpin (b : nat) : M bio unit :=
  acquire;;
  setb b (λ x, set_refcnt (u32 (refcnt x - 1)) x);;
  release.
End code.
