(* ===== verification/BioList.v ===== *)
(** * The list of buffers

    The [prev]/[next] links of [bcache] as a cyclic doubly linked list through
    the head: what [binit] and [brelse] do to the links, and what the two loops
    of [bget] find. *)
From S2P Require Import Prelude Sleeplock Bio.
From stdpp Require Import functions list.

#[local] Open Scope Z_scope.

(** ** Segments *)

Section seg.
Implicit Types (nx pv : nat → nat) (x y b : nat) (l : list nat).

(** From [x] through the elements of [l] to [y], linked both ways. *)
Fixpoint seg nx pv x l y : Prop :=
  match l with
  | [] => nx x = y ∧ pv y = x
  | z :: l => nx x = z ∧ pv z = x ∧ seg nx pv z l y
  end.

Lemma bseg_app nx pv x l1 z l2 y : seg nx pv x (l1 ++ z :: l2) y ↔ seg nx pv x l1 z ∧ seg nx pv z l2 y.
Proof. revert x; induction l1 as [|w l1 IH]; intros x; simpl; [|rewrite IH]; naive_solver. Qed.

(** A segment depends on the [next] of all its nodes but the last, and on the
    [prev] of all but the first. *)
Lemma seg_frame nx nx' pv pv' x l y :
  (∀ z, z ∈ x :: l → nx' z = nx z) → (∀ z, z ∈ l ++ [y] → pv' z = pv z) →
  seg nx pv x l y → seg nx' pv' x l y.
Proof.
  revert x; induction l as [|w l IH]; intros x Hn Hp; simpl.
  - rewrite Hn, Hp by set_solver. done.
  - intros (H1 & H2 & H3). rewrite Hn, Hp by set_solver. split_and!; [done..|].
    apply IH; [set_solver..|done].
Qed.

(** Unlinking [b]. *)
Lemma seg_remove nx pv x l1 b l2 y :
  NoDup (x :: l1 ++ b :: l2) → y ∉ l1 ++ b :: l2 → seg nx pv x (l1 ++ b :: l2) y →
  seg (<[pv b := nx b]> nx) (<[nx b := pv b]> pv) x (l1 ++ l2) y.
Proof.
  revert x; induction l1 as [|z l1 IH]; intros x Hnd Hy; simpl.
  - intros (H1 & H2 & H3). rewrite H2. destruct l2 as [|w l2]; simpl in *.
    + destruct H3 as [-> ?]. by rewrite !fn_lookup_insert.
    + destruct H3 as (-> & H4 & H5). rewrite !fn_lookup_insert. split_and!; [done..|].
      apply (seg_frame nx _ pv); [| |done].
      * intros u Hu. apply fn_lookup_insert_ne. intros ->. apply NoDup_cons in Hnd as [Hnd _]. set_solver.
      * intros u Hu. apply fn_lookup_insert_ne. intros ->.
        apply NoDup_cons in Hnd as [_ Hnd]. rewrite NoDup_cons in Hnd. destruct Hnd as [_ Hnd].
        rewrite NoDup_cons in Hnd. set_solver.
  - intros (H1 & H2 & H3). pose proof H3 as Hs. apply bseg_app in Hs as [Hs1 Hs2].
    apply NoDup_cons in Hnd as [Hx Hnd].
    assert (pv b ∈ z :: l1) as Hpb.
    { clear -Hs1. revert z Hs1. induction l1 as [|w l1 IH]; intros z Hs1; simpl in *.
      - destruct Hs1. set_solver.
      - destruct Hs1 as (_ & _ & Hs1). apply IH in Hs1. set_solver. }
    assert (nx b ∈ l2 ++ [y]) as Hnb. { destruct l2; simpl in *; destruct Hs2; set_solver. }
    split_and!.
    + rewrite fn_lookup_insert_ne; [done|]. intros Heq. rewrite Heq in Hpb. set_solver.
    + rewrite fn_lookup_insert_ne; [done|]. intros Heq. rewrite Heq in Hnb.
      simpl in Hnd. rewrite NoDup_cons in Hnd. set_solver.
    + apply IH; [done|set_solver|done].
Qed.

(** Linking [b] in after the head. *)
Lemma seg_insert nx pv h l b :
  b ∉ h :: l → NoDup l → h ∉ l → seg nx pv h l h →
  seg (<[h := b]> (<[b := nx h]> nx)) (<[nx h := b]> (<[b := h]> pv)) h (b :: l) h.
Proof.
  intros Hb Hnd Hh Hs. assert (nx h ∈ l ++ [h]) as Hnh. { destruct l; simpl in *; destruct Hs; set_solver. }
  simpl. rewrite fn_lookup_insert. split; [done|]. split.
  { rewrite fn_lookup_insert_ne by set_solver. by rewrite fn_lookup_insert. }
  destruct l as [|z l]; simpl in *.
  - destruct Hs as [Hs1 Hs2]. rewrite Hs1. rewrite fn_lookup_insert_ne, !fn_lookup_insert by set_solver. done.
  - destruct Hs as (Hs1 & Hs2 & Hs3). rewrite Hs1. rewrite fn_lookup_insert_ne, !fn_lookup_insert by set_solver.
    split_and!; [done..|]. rewrite NoDup_cons in Hnd. apply (seg_frame nx _ pv); [| |done].
    + intros u Hu. rewrite !fn_lookup_insert_ne by set_solver. done.
    + intros u Hu. rewrite !fn_lookup_insert_ne by set_solver. done.
Qed.

(** The list backwards. *)
Lemma seg_reverse nx pv x l y : seg nx pv x l y → seg pv nx y (reverse l) x.
Proof.
  revert x; induction l as [|z l IH]; intros x; simpl; [naive_solver|].
  intros (H1 & H2 & H3). rewrite reverse_cons. apply bseg_app. split; [by apply IH|]. simpl. done.
Qed.
End seg.

(** ** The links of the buffers *)

Definition nxt (B : list buf) (i : nat) : nat := from_option next 0%nat (B !! i).
Definition prv (B : list buf) (i : nat) : nat := from_option prev 0%nat (B !! i).

Definition links (B : list buf) (order : list nat) : Prop := seg (nxt B) (prv B) HEAD order HEAD.

Lemma nxt_insert B b x x' i : B !! b = Some x → nxt (<[b := x']> B) i = <[b := next x']> (nxt B) i.
Proof.
  intros Hb. unfold nxt. destruct (decide (b = i)) as [->|Hne].
  - by rewrite list_lookup_insert_eq, fn_lookup_insert by (by eapply lookup_lt_Some).
  - by rewrite list_lookup_insert_ne, fn_lookup_insert_ne by done.
Qed.

Lemma prv_insert B b x x' i : B !! b = Some x → prv (<[b := x']> B) i = <[b := prev x']> (prv B) i.
Proof.
  intros Hb. unfold prv. destruct (decide (b = i)) as [->|Hne].
  - by rewrite list_lookup_insert_eq, fn_lookup_insert by (by eapply lookup_lt_Some).
  - by rewrite list_lookup_insert_ne, fn_lookup_insert_ne by done.
Qed.

Lemma seg_ext nx nx' pv pv' x l y :
  (∀ z, nx' z = nx z) → (∀ z, pv' z = pv z) → seg nx pv x l y → seg nx' pv' x l y.
Proof. intros H1 H2. apply seg_frame; auto. Qed.

(** Changing other fields keeps the links. *)
Lemma links_keep B order b x x' :
  B !! b = Some x → next x' = next x → prev x' = prev x → links B order → links (<[b := x']> B) order.
Proof.
  intros Hb Hn Hp. apply seg_ext; intros z.
  - rewrite (nxt_insert B b x) by done. destruct (decide (b = z)) as [->|]; [|by rewrite fn_lookup_insert_ne].
    rewrite fn_lookup_insert, Hn. unfold nxt. by rewrite Hb.
  - rewrite (prv_insert B b x) by done. destruct (decide (b = z)) as [->|]; [|by rewrite fn_lookup_insert_ne].
    rewrite fn_lookup_insert, Hp. unfold prv. by rewrite Hb.
Qed.

(** Everything but the links. *)
Definition payload (x : buf) : bool * Z * Z * sleeplock * Z * list Z :=
  (valid x, dev x, blockno x, lock x, refcnt x, data x).

Lemma getb_ok b x s : bufs s !! b = Some x → getb b s = Ok x s.
Proof. intros Hb. unfold getb, mbind, M_bind, gets. by rewrite Hb. Qed.

Lemma setb_ok b f x s :
  bufs s !! b = Some x → setb b f s = Ok () (mkbio (blk s) (<[b := f x]> (bufs s)) (dsk s)).
Proof. intros Hb. unfold setb. by runs (getb_ok b x s Hb). Qed.

Lemma getb_links b s :
  (b < length (bufs s))%nat → ∃ x, getb b s = Ok x s ∧ next x = nxt (bufs s) b ∧ prev x = prv (bufs s) b.
Proof.
  intros Hb. apply lookup_lt_is_Some in Hb as [x Hx]. exists x. rewrite (getb_ok b x) by done.
  unfold nxt, prv. by rewrite Hx.
Qed.

(** One assignment to a link: what [s'] has, compared with [s]. *)
Definition relinked (s s' : bio) (nx pv : nat → nat) : Prop :=
  blk s' = blk s ∧ dsk s' = dsk s ∧ payload <$> bufs s' = payload <$> bufs s ∧
  (∀ j, nxt (bufs s') j = nx j) ∧ (∀ j, prv (bufs s') j = pv j).

Lemma setb_link b f s nx pv s0 :
  relinked s0 s nx pv → (b < length (bufs s0))%nat → (∀ x, payload (f x) = payload x) →
  ∃ s', setb b f s = Ok () s' ∧
    ∀ x, bufs s !! b = Some x → relinked s0 s' (<[b := next (f x)]> nx) (<[b := prev (f x)]> pv).
Proof.
  intros (H1 & H2 & H3 & H4 & H5) Hb Hf.
  assert (length (bufs s) = length (bufs s0)) as Hl by (rewrite <- (length_fmap payload (bufs s)), H3; apply length_fmap).
  rewrite <- Hl in Hb. apply lookup_lt_is_Some in Hb as [x Hx]. eexists. split; [by apply setb_ok|].
  intros x' [= <-]%(eq_trans (eq_sym Hx)). split_and!; simpl; [done|done| | |].
  - rewrite list_fmap_insert, H3, Hf. apply list_insert_id. by rewrite <- H3, list_lookup_fmap, Hx.
  - intros j. rewrite (nxt_insert _ _ x) by done. destruct (decide (b = j)) as [->|]; [by rewrite !fn_lookup_insert|].
    by rewrite !fn_lookup_insert_ne.
  - intros j. rewrite (prv_insert _ _ x) by done. destruct (decide (b = j)) as [->|]; [by rewrite !fn_lookup_insert|].
    by rewrite !fn_lookup_insert_ne.
Qed.

Lemma relinked_length s s' nx pv : relinked s s' nx pv → length (bufs s') = length (bufs s).
Proof. intros (_ & _ & Hp & _). by rewrite <- (length_fmap payload (bufs s')), Hp, length_fmap. Qed.

Lemma relinked_get s0 s nx pv b :
  relinked s0 s nx pv → (b < length (bufs s0))%nat →
  ∃ x, getb b s = Ok x s ∧ next x = nx b ∧ prev x = pv b.
Proof.
  intros Hr Hb. rewrite <- (relinked_length _ _ _ _ Hr) in Hb.
  destruct (getb_links b s Hb) as (x & Hx & Hn & Hp). exists x. destruct Hr as (_ & _ & _ & H4 & H5).
  by rewrite Hn, Hp, H4, H5.
Qed.

Lemma relinked_ext s s' nx pv nx' pv' :
  (∀ j, nx j = nx' j) → (∀ j, pv j = pv' j) → relinked s s' nx pv → relinked s s' nx' pv'.
Proof. intros Hn Hp (H1 & H2 & H3 & H4 & H5). split_and!; [done..| |]; intros j; by rewrite <- ?Hn, <- ?Hp. Qed.

Lemma setb_next_run s0 s nx pv b v :
  relinked s0 s nx pv → (b < length (bufs s0))%nat →
  ∃ s', setb b (set_next v) s = Ok () s' ∧ relinked s0 s' (<[b := v]> nx) pv.
Proof.
  intros Hr Hb. destruct (setb_link b (set_next v) s nx pv s0 Hr Hb (λ _, eq_refl)) as (s' & Hs & Hrel).
  exists s'. split; [done|]. pose proof Hb as Hb'. rewrite <- (relinked_length _ _ _ _ Hr) in Hb'.
  apply lookup_lt_is_Some in Hb' as [x Hx]. specialize (Hrel x Hx). revert Hrel. apply relinked_ext; [done|].
  intros j. destruct (decide (b = j)) as [->|]; [|by rewrite fn_lookup_insert_ne]. rewrite fn_lookup_insert.
  destruct Hr as (_ & _ & _ & _ & <-). unfold prv. by rewrite Hx.
Qed.

Lemma setb_prev_run s0 s nx pv b v :
  relinked s0 s nx pv → (b < length (bufs s0))%nat →
  ∃ s', setb b (set_prev v) s = Ok () s' ∧ relinked s0 s' nx (<[b := v]> pv).
Proof.
  intros Hr Hb. destruct (setb_link b (set_prev v) s nx pv s0 Hr Hb (λ _, eq_refl)) as (s' & Hs & Hrel).
  exists s'. split; [done|]. pose proof Hb as Hb'. rewrite <- (relinked_length _ _ _ _ Hr) in Hb'.
  apply lookup_lt_is_Some in Hb' as [x Hx]. specialize (Hrel x Hx). revert Hrel. apply relinked_ext; [|done].
  intros j. destruct (decide (b = j)) as [->|]; [|by rewrite fn_lookup_insert_ne]. rewrite fn_lookup_insert.
  destruct Hr as (_ & _ & _ & <- & _). unfold nxt. by rewrite Hx.
Qed.

(** [brelse]'s relinking moves the buffer to the front of the list. *)
Lemma brelse_move_run s l1 b l2 :
  length (bufs s) = S NBUF → NoDup (HEAD :: l1 ++ b :: l2) → (∀ i, i ∈ l1 ++ b :: l2 → (i < NBUF)%nat) →
  links (bufs s) (l1 ++ b :: l2) →
  ∃ s', brelse_move b s = Ok () s' ∧ blk s' = blk s ∧ dsk s' = dsk s ∧
    payload <$> bufs s' = payload <$> bufs s ∧ links (bufs s') (b :: l1 ++ l2).
Proof.
  intros Hlen Hnd Hlt Hs. pose proof (Hlt b ltac:(set_solver)) as Hb.
  assert (∀ i, i ∈ HEAD :: l1 ++ b :: l2 → (i < length (bufs s))%nat) as Hin.
  { intros i [->|Hi]%elem_of_cons; [rewrite Hlen; unfold HEAD; lia|]. apply Hlt in Hi. lia. }
  set (nx := nxt (bufs s)). set (pv := prv (bufs s)).
  pose proof Hs as Hseg. apply bseg_app in Hseg as [Hs1 Hs2].
  assert (pv b ∈ HEAD :: l1) as Hpb.
  { apply seg_reverse in Hs1. destruct (reverse l1) as [|z r] eqn:Hr; simpl in Hs1.
    - destruct Hs1 as [Hz _]. change (pv b) with (prv (bufs s) b). rewrite Hz. set_solver.
    - destruct Hs1 as [Hz _]. change (pv b) with (prv (bufs s) b). rewrite Hz.
      rewrite <- (reverse_involutive l1), Hr, reverse_cons. set_solver. }
  assert (nx b ∈ HEAD :: l2) as Hnb.
  { change (nx b) with (nxt (bufs s) b). destruct l2; simpl in Hs2; destruct Hs2 as [-> _]; set_solver. }
  assert (relinked s s nx pv) as H0 by (by split_and!). unfold brelse_move.
  destruct (relinked_get _ _ _ _ b H0) as (x & Hx & Hxn & Hxp); [apply Hin; set_solver|]. runs Hx.
  rewrite Hxn, Hxp. clear x Hx Hxn Hxp.
  destruct (setb_prev_run _ _ _ _ (nx b) (pv b) H0) as (s1 & Hr & H1); [apply Hin; set_solver|]. runs Hr. clear Hr.
  destruct (relinked_get _ _ _ _ b H1) as (x & Hx & Hxn & Hxp); [apply Hin; set_solver|]. runs Hx.
  assert (nx b ≠ b) as Hnbb. { intros He. rewrite He in Hnb. rewrite NoDup_cons, NoDup_app, NoDup_cons in Hnd. set_solver. }
  rewrite fn_lookup_insert_ne in Hxp by done. rewrite Hxn, Hxp. clear x Hx Hxn Hxp.
  destruct (setb_next_run _ _ _ _ (pv b) (nx b) H1) as (s2 & Hr & H2); [apply Hin; set_solver|]. runs Hr. clear Hr H0 H1.
  set (n1 := <[pv b := nx b]> nx) in *. set (p1 := <[nx b := pv b]> pv) in *.
  assert (seg n1 p1 HEAD (l1 ++ l2) HEAD) as Hseg.
  { apply seg_remove; [done|apply NoDup_cons in Hnd; set_solver|done]. }
  destruct (relinked_get _ _ _ _ HEAD H2) as (x & Hx & Hxn & Hxp); [apply Hin; set_solver|]. runs Hx.
  rewrite Hxn. clear x Hx Hxn Hxp.
  destruct (setb_next_run _ _ _ _ b (n1 HEAD) H2) as (s3 & Hr & H3); [apply Hin; set_solver|]. runs Hr. clear Hr H2.
  destruct (setb_prev_run _ _ _ _ b HEAD H3) as (s4 & Hr & H4); [apply Hin; set_solver|]. runs Hr. clear Hr H3.
  destruct (relinked_get _ _ _ _ HEAD H4) as (x & Hx & Hxn & Hxp); [apply Hin; set_solver|]. runs Hx.
  assert (b ≠ HEAD) as HbH by (unfold HEAD; lia). rewrite fn_lookup_insert_ne in Hxn by done. rewrite Hxn. clear x Hx Hxn Hxp.
  assert (n1 HEAD ∈ HEAD :: l1 ++ l2) as Hn1.
  { destruct (l1 ++ l2); simpl in Hseg; destruct Hseg as [-> _]; set_solver. }
  destruct (setb_prev_run _ _ _ _ (n1 HEAD) b H4) as (s5 & Hr & H5); [apply Hin; set_solver|]. runs Hr. clear Hr H4.
  destruct (setb_next_run _ _ _ _ HEAD b H5) as (s6 & Hr & H6); [apply Hin; set_solver|].
  exists s6. split; [exact Hr|]. destruct H6 as (? & ? & ? & Hn & Hp). split_and!; [done..|].
  eapply seg_ext; [exact Hn|exact Hp|]. rewrite NoDup_cons, NoDup_app, NoDup_cons in Hnd.
  apply seg_insert; [set_solver|rewrite NoDup_app; set_solver|set_solver|done].
Qed.

(** ** The loops of [bget] *)

(** [r] is the first element of [l] whose buffer satisfies [P], if any does. *)
Definition first_buf (B : list buf) (P : buf → Prop) (l : list nat) (r : option nat) : Prop :=
  match r with
  | Some b => ∃ l1 l2 x, l = l1 ++ b :: l2 ∧ B !! b = Some x ∧ P x ∧ (∀ i y, i ∈ l1 → B !! i = Some y → ¬ P y)
  | None => ∀ i y, i ∈ l → B !! i = Some y → ¬ P y
  end.

Lemma first_buf_cons B P b x l r :
  B !! b = Some x → ¬ P x → first_buf B P l r → first_buf B P (b :: l) r.
Proof.
  intros Hb HP. destruct r as [c|]; simpl.
  - intros (l1 & l2 & y & -> & Hy & HPy & Hl). exists (b :: l1), l2, y. split_and!; [done..|].
    intros i z [->|Hi]%elem_of_cons Hz; [congruence|by apply (Hl i z)].
  - intros Hl i z [->|Hi]%elem_of_cons Hz; [congruence|by apply (Hl i z)].
Qed.

Lemma first_buf_here B (P : buf → Prop) b x l : B !! b = Some x → P x → first_buf B P (b :: l) (Some b).
Proof. intros Hb HP. exists [], l, x. split_and!; [done..|]. intros i y Hi. set_solver. Qed.

Lemma bget_cached_run s dv bno l x fuel :
  seg (nxt (bufs s)) (prv (bufs s)) x l HEAD → (∀ i, i ∈ l → (i < NBUF)%nat) →
  (NBUF < length (bufs s))%nat → (length l < fuel)%nat →
  ∃ r, bget_cached fuel (nxt (bufs s) x) dv bno s = Ok r s ∧
    first_buf (bufs s) (λ y, dev y = dv ∧ blockno y = bno) l r.
Proof.
  intros Hseg Hlt Hlen. revert x l Hseg Hlt. induction fuel as [|fuel IH]; intros x l Hseg Hlt Hf; [lia|].
  cbn [bget_cached]. destruct l as [|z l]; simpl in Hseg.
  - destruct Hseg as [-> _]. rewrite Nat.eqb_refl. exists None. split; [done|]. intros i y Hi. set_solver.
  - destruct Hseg as (-> & _ & Hseg). pose proof (Hlt z ltac:(set_solver)) as Hz.
    destruct (Nat.eqb_spec z HEAD) as [->|_]; [unfold HEAD in Hz; lia|].
    destruct (lookup_lt_is_Some_2 (bufs s) z ltac:(lia)) as [y Hy]. runs (getb_ok z y s Hy).
    destruct (Z.eqb_spec (dev y) dv) as [Hd|Hd]; simpl; [destruct (Z.eqb_spec (blockno y) bno) as [Hbn|Hbn]|].
    + exists (Some z). split; [done|]. by eapply first_buf_here.
    + destruct (IH z l Hseg) as (r & Hr & Hfb); [set_solver|simpl in Hf; lia|].
      replace (next y) with (nxt (bufs s) z) by (unfold nxt; by rewrite Hy).
      exists r. split; [done|]. eapply first_buf_cons; [done|naive_solver|done].
    + destruct (IH z l Hseg) as (r & Hr & Hfb); [set_solver|simpl in Hf; lia|].
      replace (next y) with (nxt (bufs s) z) by (unfold nxt; by rewrite Hy).
      exists r. split; [done|]. eapply first_buf_cons; [done|naive_solver|done].
Qed.

Lemma bget_unused_run s l x fuel :
  seg (prv (bufs s)) (nxt (bufs s)) x l HEAD → (∀ i, i ∈ l → (i < NBUF)%nat) →
  (NBUF < length (bufs s))%nat → (length l < fuel)%nat →
  ∃ r, bget_unused fuel (prv (bufs s) x) s = Ok r s ∧ first_buf (bufs s) (λ y, refcnt y = 0) l r.
Proof.
  intros Hseg Hlt Hlen. revert x l Hseg Hlt. induction fuel as [|fuel IH]; intros x l Hseg Hlt Hf; [lia|].
  cbn [bget_unused]. destruct l as [|z l]; simpl in Hseg.
  - destruct Hseg as [-> _]. rewrite Nat.eqb_refl. exists None. split; [done|]. intros i y Hi. set_solver.
  - destruct Hseg as (-> & _ & Hseg). pose proof (Hlt z ltac:(set_solver)) as Hz.
    destruct (Nat.eqb_spec z HEAD) as [->|_]; [unfold HEAD in Hz; lia|].
    destruct (lookup_lt_is_Some_2 (bufs s) z ltac:(lia)) as [y Hy]. runs (getb_ok z y s Hy).
    destruct (Z.eqb_spec (refcnt y) 0) as [Hd|Hd].
    + exists (Some z). split; [done|]. by eapply first_buf_here.
    + destruct (IH z l Hseg) as (r & Hr & Hfb); [set_solver|simpl in Hf; lia|].
      replace (prev y) with (prv (bufs s) z) by (unfold prv; by rewrite Hy).
      exists r. split; [done|]. by eapply first_buf_cons.
Qed.
