(* ===== verification/BioSpec.v ===== *)
(** * What the buffer cache promises

    The cache seen by its clients: the current contents of every block, the
    disk below, and the buffers that are referenced.  Each operation of
    kernel/bio.c, run on the linked and locked buffers, refines a step of this
    view. *)
From S2P Require Import Prelude Sleeplock Bio BioList.
From stdpp Require Import functions list gmap.

#[local] Open Scope Z_scope.

(** ** The view *)

(** A referenced buffer: its block, its reference count, and the process that
    has locked it, if any. *)
Record bref := mkbref { rbn : Z; rcnt : Z; rlk : option Z }.

Record bview := mkview { cur : Z → list Z; dk : disk; refs : gmap nat bref }.

Definition lk_of (o : option Z) : sleeplock :=
  match o with Some pid => mksleeplock true pid | None => mksleeplock false 0 end.

(** Block [bno] is in no referenced buffer. *)
Definition unref (a : bview) (bno : Z) : Prop := ∀ i r, refs a !! i = Some r → rbn r ≠ bno.

Section rep.
Context (dv : Z).

(** Buffer [i] against the view. *)
Definition buf_ok (a : bview) (i : nat) (x : buf) : Prop :=
  match refs a !! i with
  | Some r => valid x = true ∧ dev x = dv ∧ blockno x = rbn r ∧ refcnt x = rcnt r ∧ 0 < rcnt r < 2 ^ 32 ∧
      data x = cur a (rbn r) ∧ lock x = lk_of (rlk r)
  | None => refcnt x = 0 ∧ lock x = lk_of None ∧
      (dev x = dv → valid x = true → data x = disk_read (dk a) (blockno x))
  end.

(** No block is in two buffers. *)
Definition unique (B : list buf) : Prop :=
  ∀ i j x y, (i < NBUF)%nat → (j < NBUF)%nat → B !! i = Some x → B !! j = Some y →
    dev x = dv → dev y = dv → blockno x = blockno y → i = j.

Record rep (s : bio) (a : bview) : Prop := {
  rep_lock : blk s = false;
  rep_disk : dsk s = dk a;
  rep_len : length (bufs s) = S NBUF;
  rep_links : ∃ order, order ≡ₚ seq 0 NBUF ∧ links (bufs s) order;
  rep_bufs : ∀ i x, (i < NBUF)%nat → bufs s !! i = Some x → buf_ok a i x;
  rep_unique : unique (bufs s);
  rep_clean : ∀ bno, unref a bno → cur a bno = disk_read (dk a) bno;
  rep_dom : ∀ i r, refs a !! i = Some r → (i < NBUF)%nat }.

Lemma rep_lookup s a i : rep s a → (i < NBUF)%nat → ∃ x, bufs s !! i = Some x ∧ buf_ok a i x.
Proof.
  intros Hr Hi. destruct (lookup_lt_is_Some_2 (bufs s) i) as [x Hx]; [rewrite (rep_len s a Hr); lia|].
  exists x. split; [done|]. by apply (rep_bufs s a Hr).
Qed.

(** Views are compared block by block. *)
#[export] Instance bview_equiv : Equiv bview := λ a a',
  (∀ b, cur a b = cur a' b) ∧ dk a = dk a' ∧ refs a = refs a'.

#[export] Instance bview_equivalence : Equivalence (≡@{bview}).
Proof.
  split.
  - intros a. by split_and!.
  - intros a a' (H1 & H2 & H3). split_and!; [|done..]. intros b. by rewrite H1.
  - intros a a' a'' (H1 & H2 & H3) (H1' & H2' & H3'). split_and!; [|congruence..]. intros b. by rewrite H1, H1'.
Qed.

Lemma rep_equiv s a a' : a ≡ a' → rep s a → rep s a'.
Proof.
  intros (Hc & Hd & Hf) [H1 H2 H3 H4 H5 H6 H7 H8].
  split; [done|by rewrite <- Hd|done|done| |done| |by rewrite <- Hf].
  - intros i x Hi Hx. specialize (H5 i x Hi Hx). unfold buf_ok in *. rewrite <- Hf, <- Hd.
    destruct (refs a !! i); [by rewrite <- Hc|done].
  - intros bno Hu. rewrite <- Hc, <- Hd. apply H7. intros i r. rewrite Hf. apply Hu.
Qed.

#[export] Instance rep_proper : Proper ((=) ==> (≡) ==> iff) rep.
Proof. intros s ? <- a a' Ha. split; apply rep_equiv; [done|by symmetry]. Qed.

(** Changing one buffer, but not its links. *)
Lemma rep_change s a a' b x x' d :
  rep s a → (b < NBUF)%nat → bufs s !! b = Some x → next x' = next x → prev x' = prev x →
  buf_ok a' b x' →
  (∀ i y, i ≠ b → (i < NBUF)%nat → bufs s !! i = Some y → buf_ok a i y → buf_ok a' i y) →
  (dev x' = dv → (dev x = dv ∧ blockno x' = blockno x) ∨
     ∀ i y, (i < NBUF)%nat → bufs s !! i = Some y → dev y = dv → blockno y ≠ blockno x') →
  (∀ bno, unref a' bno → cur a' bno = disk_read (dk a') bno) →
  (∀ i r, refs a' !! i = Some r → (i < NBUF)%nat) → d = dk a' →
  rep (mkbio false (<[b := x']> (bufs s)) d) a'.
Proof.
  intros Hr Hb Hx Hn Hp Hok Hoth Huq Hcl Hdom Hd.
  assert (∀ i y, <[b := x']> (bufs s) !! i = Some y → i = b ∧ y = x' ∨ i ≠ b ∧ bufs s !! i = Some y) as Hl.
  { intros i y Hi. destruct (decide (i = b)) as [->|Hne].
    - rewrite list_lookup_insert_eq in Hi by (by eapply lookup_lt_Some). naive_solver.
    - rewrite list_lookup_insert_ne in Hi by done. naive_solver. }
  split; simpl; [done|done| | | | |done|done].
  - rewrite length_insert. by apply (rep_len s a).
  - destruct (rep_links s a Hr) as (order & Ho & Hli). exists order. split; [done|]. by eapply links_keep.
  - intros i y Hi [[-> ->]|[Hne Hy]]%Hl; [done|]. apply Hoth; [done..|]. by apply (rep_bufs s a).
  - intros i j y z Hi Hj Hy Hz Hdy Hdz Hbn. apply Hl in Hy as [[-> ->]|[Hne Hy]], Hz as [[-> ->]|[Hne' Hz]]; [done| | |].
    + destruct (Huq Hdy) as [[Hdx Hbx]|Hno]; [|by destruct (Hno j z Hj Hz Hdz)].
      apply (rep_unique s a Hr b j x z Hb Hj Hx Hz); [done..|congruence].
    + destruct (Huq Hdz) as [[Hdx Hbx]|Hno]; [|by destruct (Hno i y Hi Hy Hdy)].
      apply (rep_unique s a Hr i b y x Hi Hb Hy Hx); [done..|congruence].
    + by apply (rep_unique s a Hr i j y z).
Qed.
End rep.

(** ** Runs of [bget] *)

Section runs.
Context `{Running} (dv : Z).

Lemma acquire_run s : blk s = false → acquire s = Ok () (mkbio true (bufs s) (dsk s)).
Proof. intros Hl. unfold acquire, gets, mbind, M_bind. by rewrite Hl. Qed.

Lemma release_run B d : release (mkbio true B d) = Ok () (mkbio false B d).
Proof. done. Qed.

Lemma acquiresleep_run s b x :
  bufs s !! b = Some x → lock x = lk_of None →
  acquiresleep_buf b s = Ok () (mkbio (blk s) (<[b := set_lock (lk_of (Some mypid)) x]> (bufs s)) (dsk s)).
Proof.
  intros Hx Hl. unfold acquiresleep_buf. runs (getb_ok b x s Hx). rewrite Hl.
  exact (setb_ok b (set_lock (lk_of (Some mypid))) x s Hx).
Qed.

Lemma order_in order i : order ≡ₚ seq 0 NBUF → i ∈ order ↔ (i < NBUF)%nat.
Proof. intros ->. rewrite elem_of_seq. lia. Qed.

Lemma order_length order : order ≡ₚ seq 0 NBUF → length order = NBUF.
Proof. intros ->. by rewrite length_seq. Qed.

(** What the first loop finds. *)
Lemma bget_lookup s a bno :
  rep dv s a →
  let s1 := mkbio true (bufs s) (dsk s) in
  ∃ h r, getb HEAD s1 = Ok h s1 ∧ bget_cached (S NBUF) (next h) dv bno s1 = Ok r s1 ∧
    match r with
    | Some b => ∃ x, (b < NBUF)%nat ∧ bufs s !! b = Some x ∧ dev x = dv ∧ blockno x = bno
    | None => ∀ i y, (i < NBUF)%nat → bufs s !! i = Some y → dev y = dv → blockno y ≠ bno
    end.
Proof.
  intros Hr s1. destruct (rep_links dv s a Hr) as (order & Ho & Hli).
  destruct (getb_links HEAD s1) as (h & Hh & Hn & _); [simpl; rewrite (rep_len dv s a Hr); unfold HEAD; lia|].
  exists h. rewrite Hn. destruct (bget_cached_run s1 dv bno order HEAD (S NBUF)) as (r & Hrun & Hfb).
  - exact Hli.
  - intros i. by apply order_in.
  - simpl. rewrite (rep_len dv s a Hr). lia.
  - rewrite (order_length order Ho). lia.
  - exists r. split_and!; [done..|]. destruct r as [b|]; simpl in Hfb.
    + destruct Hfb as (l1 & l2 & x & -> & Hx & [Hd Hb] & _). exists x. split_and!; [|done..].
      apply (order_in _ b Ho). set_solver.
    + intros i y Hi Hy Hd Hb. by apply (Hfb i y); [apply (order_in order)|..].
Qed.

(** What the second loop finds. *)
Lemma bget_recycle s a :
  rep dv s a →
  let s1 := mkbio true (bufs s) (dsk s) in
  ∃ h r, getb HEAD s1 = Ok h s1 ∧ bget_unused (S NBUF) (prev h) s1 = Ok r s1 ∧
    match r with
    | Some b => ∃ x, (b < NBUF)%nat ∧ bufs s !! b = Some x ∧ refcnt x = 0
    | None => ∀ i y, (i < NBUF)%nat → bufs s !! i = Some y → refcnt y ≠ 0
    end.
Proof.
  intros Hr s1. destruct (rep_links dv s a Hr) as (order & Ho & Hli).
  destruct (getb_links HEAD s1) as (h & Hh & _ & Hp); [simpl; rewrite (rep_len dv s a Hr); unfold HEAD; lia|].
  exists h. rewrite Hp. destruct (bget_unused_run s1 (reverse order) HEAD (S NBUF)) as (r & Hrun & Hfb).
  - by apply seg_reverse.
  - intros i. rewrite elem_of_reverse. by apply order_in.
  - simpl. rewrite (rep_len dv s a Hr). lia.
  - rewrite length_reverse, (order_length order Ho). lia.
  - exists r. split_and!; [done..|]. destruct r as [b|]; simpl in Hfb.
    + destruct Hfb as (l1 & l2 & x & Hrev & Hx & Hc & _). exists x. split_and!; [|done..].
      apply (order_in _ b Ho). rewrite <- elem_of_reverse, Hrev. set_solver.
    + intros i y Hi Hy. apply (Hfb i y); [|done]. rewrite elem_of_reverse. by apply (order_in order).
Qed.

Lemma bget_hit s a b x bno :
  rep dv s a → (b < NBUF)%nat → bufs s !! b = Some x → dev x = dv → blockno x = bno → lock x = lk_of None →
  bget dv bno s = Ok b (mkbio false
    (<[b := set_lock (lk_of (Some mypid)) (set_refcnt (u32 (refcnt x + 1)) x)]> (bufs s)) (dsk s)).
Proof.
  intros Hr Hb Hx Hd Hbn Hl. unfold bget. runs (acquire_run s (rep_lock dv s a Hr)).
  destruct (bget_lookup s a bno Hr) as (h & r & Hh & Hrun & Hres). runs Hh. runs Hrun.
  destruct r as [b'|]; [|by destruct (Hres b x Hb Hx Hd)]. destruct Hres as (y & Hb' & Hy & Hd' & Hbn').
  assert (b' = b) as -> by (apply (rep_unique dv s a Hr b' b y x); congruence).
  runs (setb_ok b _ x) by exact Hx. cbn [blk bufs dsk]. runs release_run.
  runs acquiresleep_run by first [apply list_lookup_insert_eq; by eapply lookup_lt_Some|done].
  cbn [blk bufs dsk]. by rewrite list_insert_insert_eq.
Qed.

Lemma bget_miss s a bno :
  rep dv s a → (∀ i y, (i < NBUF)%nat → bufs s !! i = Some y → dev y = dv → blockno y ≠ bno) →
  (∃ i, (i < NBUF)%nat ∧ refs a !! i = None) →
  ∃ b x, (b < NBUF)%nat ∧ bufs s !! b = Some x ∧ refs a !! b = None ∧
    bget dv bno s = Ok b (mkbio false
      (<[b := mkbuf false dv bno (lk_of (Some mypid)) 1 (prev x) (next x) (data x)]> (bufs s)) (dsk s)).
Proof.
  intros Hr Hno (i & Hi & Hfree). unfold bget. runs (acquire_run s (rep_lock dv s a Hr)).
  destruct (bget_lookup s a bno Hr) as (h & r & Hh & Hrun & Hres). runs Hh. runs Hrun.
  destruct r as [b'|]; [destruct Hres as (y & Hb' & Hy & Hd' & Hbn'); by destruct (Hno b' y)|]. clear Hrun Hres Hh h.
  destruct (bget_recycle s a Hr) as (h & r & Hh & Hrun & Hres). runs Hh. runs Hrun. clear Hrun Hh.
  destruct r as [b|].
  - destruct Hres as (x & Hb & Hx & Hc). pose proof (rep_bufs dv s a Hr b x Hb Hx) as Hok.
    unfold buf_ok in Hok. destruct (refs a !! b) as [r|] eqn:Hrb; [lia|]. destruct Hok as (_ & Hl & _).
    exists b, x. split_and!; [done..|]. runs (setb_ok b _ x) by exact Hx. cbn [blk bufs dsk]. runs release_run.
    runs acquiresleep_run by first [apply list_lookup_insert_eq; by eapply lookup_lt_Some|done].
    cbn [blk bufs dsk]. by rewrite list_insert_insert_eq.
  - destruct (rep_lookup dv s a i Hr Hi) as (y & Hy & Hok). unfold buf_ok in Hok. rewrite Hfree in Hok.
    destruct (Hres i y Hi Hy). apply Hok.
Qed.

(** ** Runs of the operations *)

Definition with_ref (a : bview) (b : nat) (r : bref) : bview := mkview (cur a) (dk a) (<[b := r]> (refs a)).

Lemma buf_ok_other (a a' : bview) i y :
  refs a' !! i = refs a !! i → dk a' = dk a → (∀ r, refs a !! i = Some r → cur a' (rbn r) = cur a (rbn r)) →
  buf_ok dv a i y → buf_ok dv a' i y.
Proof.
  unfold buf_ok. intros -> -> Hc. destruct (refs a !! i) as [r|]; [|done]. by rewrite (Hc r).
Qed.

Lemma rep_refs_unique s a i j r r' :
  rep dv s a → refs a !! i = Some r → refs a !! j = Some r' → rbn r = rbn r' → i = j.
Proof.
  intros Hr Hi Hj Hbn. pose proof (rep_dom dv s a Hr i r Hi) as Hli. pose proof (rep_dom dv s a Hr j r' Hj) as Hlj.
  destruct (rep_lookup dv s a i Hr Hli) as (x & Hx & Hx'). destruct (rep_lookup dv s a j Hr Hlj) as (y & Hy & Hy').
  unfold buf_ok in Hx', Hy'. rewrite Hi in Hx'. rewrite Hj in Hy'. destruct Hx' as (_ & ? & ? & _), Hy' as (_ & ? & ? & _).
  apply (rep_unique dv s a Hr i j x y); congruence.
Qed.

(** Buffer [b] becomes a reference, or its reference changes. *)
Lemma rep_with_ref s a b x x' r :
  rep dv s a → (b < NBUF)%nat → bufs s !! b = Some x → next x' = next x → prev x' = prev x →
  (∀ r0, refs a !! b = Some r0 → rbn r0 = rbn r) →
  (dev x = dv ∧ blockno x = rbn r ∨
   ∀ i y, (i < NBUF)%nat → bufs s !! i = Some y → dev y = dv → blockno y ≠ rbn r) →
  payload x' = (true, dv, rbn r, lk_of (rlk r), rcnt r, cur a (rbn r)) → 0 < rcnt r < 2 ^ 32 →
  rep dv (mkbio false (<[b := x']> (bufs s)) (dsk s)) (with_ref a b r).
Proof.
  intros Hr Hb Hx Hn Hp Hsame Huq [= Hv Hd Hbn Hl Hc Hdt] Hr0.
  apply (rep_change dv s a _ b x); [done..| | | | | |].
  - unfold buf_ok. simpl. by rewrite lookup_insert_eq.
  - intros i y Hne _ _. apply buf_ok_other; [|done..]. simpl. by rewrite lookup_insert_ne.
  - intros _. rewrite Hbn. destruct Huq as [[? ?]|?]; [by left|by right].
  - intros bno Hu. apply (rep_clean dv s a Hr). intros i r' Hi. destruct (decide (i = b)) as [->|Hne].
    + rewrite (Hsame r' Hi). apply (Hu b). simpl. by rewrite lookup_insert_eq.
    + apply (Hu i). simpl. by rewrite lookup_insert_ne.
  - intros i r' Hi. destruct (decide (i = b)) as [->|Hne]; [done|]. simpl in Hi. rewrite lookup_insert_ne in Hi by done.
    by apply (rep_dom dv s a Hr i r').
  - apply (rep_disk dv s a Hr).
Qed.

(** The buffer of a reference. *)
Lemma rep_ref s a b r :
  rep dv s a → refs a !! b = Some r →
  ∃ x, (b < NBUF)%nat ∧ bufs s !! b = Some x ∧ payload x = (true, dv, rbn r, lk_of (rlk r), rcnt r, cur a (rbn r)) ∧
    0 < rcnt r < 2 ^ 32.
Proof.
  intros Hr Hb. pose proof (rep_dom dv s a Hr b r Hb) as Hlt.
  destruct (rep_lookup dv s a b Hr Hlt) as (x & Hx & Hok). unfold buf_ok in Hok. rewrite Hb in Hok.
  destruct Hok as (Hv & Hd & Hbn & Hrc & Hr0 & Hdt & Hl). exists x. split_and!; try done; [|lia..].
  unfold payload. congruence.
Qed.

(** A block whose buffer is referenced is read without the disk. *)
Lemma bread_shared s a b r :
  rep dv s a → refs a !! b = Some r → rlk r = None → rcnt r + 1 < 2 ^ 32 →
  ∃ s', bread dv (rbn r) s = Ok b s' ∧ rep dv s' (with_ref a b (mkbref (rbn r) (rcnt r + 1) (Some mypid))).
Proof.
  intros Hr Hb Hlk Hc. destruct (rep_ref s a b r Hr Hb) as (x & Hlt & Hx & [= Hv Hd Hbn Hl Hrc Hdt] & Hr0).
  rewrite Hlk in Hl. unfold bread. runs (bget_hit s a b x) by done.
  runs getb_ok by (simpl; apply list_lookup_insert_eq; by eapply lookup_lt_Some).
  cbn [valid set_lock set_refcnt]. rewrite Hv. eexists. split; [reflexivity|]. rewrite Hrc, wrap_small by lia.
  apply (rep_with_ref s a b x); try done; simpl; [naive_solver|by left| |lia]. unfold payload. simpl. congruence.
Qed.

(** The second half of [bread]. *)
Lemma bread_fill s b y :
  bufs s !! b = Some y →
  (x ← getb b; when (negb (valid x)) (disk_rw b false;; setb b (set_valid true));; mret b) s =
  Ok b (mkbio (blk s) (<[b := if valid y then y else set_valid true (set_data (disk_read (dsk s) (blockno y)) y)]> (bufs s)) (dsk s)).
Proof.
  intros Hy. pose proof (lookup_lt_Some _ _ _ Hy) as Hlt. runs getb_ok by exact Hy. destruct (valid y) eqn:Hv; cbn [negb when].
  - rewrite list_insert_id by done. by destruct s.
  - assert (disk_rw b false s = Ok () (mkbio (blk s) (<[b := set_data (disk_read (dsk s) (blockno y)) y]> (bufs s)) (dsk s))) as Hrw.
    { unfold disk_rw. runs getb_ok by exact Hy. unfold gets. exact (setb_ok b _ y s Hy). }
    rewrite bind_assoc. runs Hrw. runs setb_ok by (simpl; by apply list_lookup_insert_eq). cbn [blk bufs dsk].
    by rewrite list_insert_insert_eq.
Qed.

(** Another block gets a buffer nobody refers to. *)
Lemma bread_fresh s a bno :
  rep dv s a → unref a bno → (∃ i, (i < NBUF)%nat ∧ refs a !! i = None) →
  ∃ b s', refs a !! b = None ∧ bread dv bno s = Ok b s' ∧ rep dv s' (with_ref a b (mkbref bno 1 (Some mypid))).
Proof.
  intros Hr Hu Hfree. pose proof (rep_clean dv s a Hr bno Hu) as Hcl. pose proof (rep_disk dv s a Hr) as Hdk.
  destruct (bget_lookup s a bno Hr) as (h & [b|] & _ & _ & Hres).
  - destruct Hres as (x & Hb & Hx & Hd & Hbn). pose proof (rep_bufs dv s a Hr b x Hb Hx) as Hok.
    unfold buf_ok in Hok. destruct (refs a !! b) as [r|] eqn:Hrb.
    { destruct (Hu b r Hrb). destruct Hok as (_ & _ & ? & _). congruence. }
    destruct Hok as (Hrc & Hl & Hdt). exists b. unfold bread. eexists. split; [done|].
    runs (bget_hit s a b x) by done. split.
    { apply bread_fill. simpl. apply list_lookup_insert_eq. by eapply lookup_lt_Some. }
    cbn [blk bufs dsk]. rewrite list_insert_insert_eq, Hrc.
    apply (rep_with_ref s a b x); try done; simpl; [by destruct (valid x)..|naive_solver|by left|].
    unfold payload. destruct (valid x) eqn:Hv; simpl.
    + by rewrite Hv, Hd, (Hdt Hd eq_refl), Hbn, Hcl.
    + by rewrite Hd, Hbn, Hcl, Hdk.
  - destruct (bget_miss s a bno Hr Hres Hfree) as (b & x & Hb & Hx & Hrb & Hrun).
    exists b. unfold bread. eexists. split; [done|]. runs Hrun. split.
    { apply bread_fill. simpl. apply list_lookup_insert_eq. by eapply lookup_lt_Some. }
    cbn [blk bufs dsk valid]. rewrite list_insert_insert_eq.
    apply (rep_with_ref s a b x); try done; simpl; [naive_solver|by right|].
    unfold payload. simpl. by rewrite Hcl, Hdk.
Qed.

(** Writing into the data of a referenced buffer changes the current contents. *)
Definition with_cur (a : bview) (bno : Z) (d : list Z) : bview := mkview (<[bno := d]> (cur a)) (dk a) (refs a).

Lemma setdata_run s a b r d :
  rep dv s a → refs a !! b = Some r →
  ∃ s', setb b (set_data d) s = Ok () s' ∧ rep dv s' (with_cur a (rbn r) d).
Proof.
  intros Hr Hb. destruct (rep_ref s a b r Hr Hb) as (x & Hlt & Hx & [= Hv Hd Hbn Hl Hrc Hdt] & Hr0).
  eexists. split; [by apply setb_ok|]. rewrite (rep_lock dv s a Hr).
  apply (rep_change dv s a _ b x); [done..| | | | | |].
  - unfold buf_ok. simpl. rewrite Hb, fn_lookup_insert. split_and!; try done; lia.
  - intros i y Hne _ _. apply buf_ok_other; [done..|]. intros r' Hi. simpl. apply fn_lookup_insert_ne.
    intros He. destruct Hne. by apply (rep_refs_unique s a i b r' r).
  - intros _. left. done.
  - intros bno Hu. simpl. rewrite fn_lookup_insert_ne by (by apply (Hu b)). by apply (rep_clean dv s a Hr).
  - apply (rep_dom dv s a Hr).
  - apply (rep_disk dv s a Hr).
Qed.

Lemma disk_read_write d bno bs bno' : disk_read (disk_write d bno bs) bno' = <[bno := bs]> (disk_read d) bno'.
Proof. unfold disk_read, disk_write, apply_writes. simpl. by rewrite foldl_app. Qed.

(** A view whose disk is newer: [disk] gets the current contents of block [bno]. *)
Definition with_write (a : bview) (bno : Z) : bview := mkview (cur a) (disk_write (dk a) bno (cur a bno)) (refs a).

Lemma bwrite_run s a b r :
  rep dv s a → refs a !! b = Some r → rlk r = Some mypid →
  ∃ s', bwrite b s = Ok () s' ∧ rep dv s' (with_write a (rbn r)).
Proof.
  intros Hr Hb Hlk. destruct (rep_ref s a b r Hr Hb) as (x & Hlt & Hx & [= Hv Hd Hbn Hl Hrc Hdt] & Hr0).
  unfold bwrite. runs getb_ok by exact Hx. rewrite Hl, Hlk. unfold holdingsleep. simpl. rewrite Z.eqb_refl. simpl.
  rewrite ret_bind. unfold disk_rw. eexists. split; [by runs getb_ok by exact Hx|]. cbn [blk bufs dsk].
  rewrite (rep_lock dv s a Hr), Hbn, Hdt, (rep_disk dv s a Hr), <- (list_insert_id (bufs s) b x Hx).
  assert (∀ bno, bno ≠ rbn r → disk_read (dk (with_write a (rbn r))) bno = disk_read (dk a) bno) as Hne.
  { intros bno Hne. simpl. by rewrite disk_read_write, fn_lookup_insert_ne. }
  apply (rep_change dv s a _ b x); [done..| | | | | |done].
  - unfold buf_ok. simpl. rewrite Hb. split_and!; try done; lia.
  - intros i y Hib Hi Hy. unfold buf_ok. simpl. destruct (refs a !! i); [done|]. intros (H1 & H2 & H3).
    split_and!; [done..|]. intros Hdy Hvy. rewrite disk_read_write.
    destruct (decide (blockno y = rbn r)) as [He|]; [|rewrite fn_lookup_insert_ne by done; auto].
    destruct Hib. by apply (rep_unique dv s a Hr i b y x); [..|congruence].
  - intros _. left. done.
  - intros bno Hu. rewrite Hne; [|by apply not_eq_sym, (Hu b)]. by apply (rep_clean dv s a Hr).
  - apply (rep_dom dv s a Hr).
Qed.

Lemma bpin_run s a b r :
  rep dv s a → refs a !! b = Some r → rcnt r + 1 < 2 ^ 32 →
  ∃ s', bpin b s = Ok () s' ∧ rep dv s' (with_ref a b (mkbref (rbn r) (rcnt r + 1) (rlk r))).
Proof.
  intros Hr Hb Hc. destruct (rep_ref s a b r Hr Hb) as (x & Hlt & Hx & [= Hv Hd Hbn Hl Hrc Hdt] & Hr0).
  unfold bpin. runs (acquire_run s (rep_lock dv s a Hr)). eexists. split; [by runs (setb_ok b _ x) by exact Hx|].
  cbn [blk bufs dsk]. rewrite Hrc, wrap_small by lia.
  apply (rep_with_ref s a b x); try done; simpl; [naive_solver|by left| |lia]. unfold payload. simpl. congruence.
Qed.

Lemma bunpin_run s a b r :
  rep dv s a → refs a !! b = Some r → 1 < rcnt r →
  ∃ s', bunpin b s = Ok () s' ∧ rep dv s' (with_ref a b (mkbref (rbn r) (rcnt r - 1) (rlk r))).
Proof.
  intros Hr Hb Hc. destruct (rep_ref s a b r Hr Hb) as (x & Hlt & Hx & [= Hv Hd Hbn Hl Hrc Hdt] & Hr0).
  unfold bunpin. runs (acquire_run s (rep_lock dv s a Hr)). eexists. split; [by runs (setb_ok b _ x) by exact Hx|].
  cbn [blk bufs dsk]. rewrite Hrc, wrap_small by lia.
  apply (rep_with_ref s a b x); try done; simpl; [naive_solver|by left| |lia]. unfold payload. simpl. congruence.
Qed.

(** The start of [brelse]: the lock given up and the count decreased. *)
Lemma brelse_start s a b r :
  rep dv s a → refs a !! b = Some r → rlk r = Some mypid →
  ∃ x, bufs s !! b = Some x ∧ payload x = (true, dv, rbn r, lk_of (rlk r), rcnt r, cur a (rbn r)) ∧ 0 < rcnt r < 2 ^ 32 ∧
    let x' := set_refcnt (rcnt r - 1) (set_lock (lk_of None) x) in
    let s1 := mkbio true (<[b := x']> (bufs s)) (dsk s) in
    brelse b s = (when (rcnt r - 1 =? 0) (brelse_move b);; release) s1.
Proof.
  intros Hr Hb Hlk. destruct (rep_ref s a b r Hr Hb) as (x & Hlt & Hx & Hpl & Hr0).
  exists x. split; [done|]. split; [done|]. split; [done|]. intros x' s1.
  pose proof Hpl as [= Hv Hd Hbn Hl Hrc Hdt]. pose proof (lookup_lt_Some _ _ _ Hx) as Hlen.
  unfold brelse. runs getb_ok by exact Hx. rewrite Hl, Hlk. unfold holdingsleep. simpl. rewrite Z.eqb_refl. simpl.
  rewrite ret_bind. runs setb_ok by exact Hx. runs acquire_run by exact (rep_lock dv s a Hr). cbn [blk bufs dsk].
  runs setb_ok by (simpl; by apply list_lookup_insert_eq). cbn [blk bufs dsk]. rewrite list_insert_insert_eq.
  runs getb_ok by (simpl; by apply list_lookup_insert_eq). cbn [refcnt set_refcnt set_lock lock].
  rewrite Hrc, wrap_small by lia. by rewrite Hl, Hlk.
Qed.

Lemma brelse_shared s a b r :
  rep dv s a → refs a !! b = Some r → rlk r = Some mypid → 1 < rcnt r →
  ∃ s', brelse b s = Ok () s' ∧ rep dv s' (with_ref a b (mkbref (rbn r) (rcnt r - 1) None)).
Proof.
  intros Hr Hb Hlk Hc. destruct (brelse_start s a b r Hr Hb Hlk) as (x & Hx & [= Hv Hd Hbn Hl Hrc Hdt] & Hr0 & Hrun).
  rewrite Hrun. destruct (Z.eqb_spec (rcnt r - 1) 0); [lia|]. eexists. split; [reflexivity|]. cbn [blk bufs dsk].
  apply (rep_with_ref s a b x); try done; simpl; [by apply (rep_dom dv s a Hr b r)|naive_solver|by left| |lia].
  unfold payload. simpl. congruence.
Qed.

(** The view does not depend on the order of the list. *)
Lemma payload_lookup (B B' : list buf) (i : nat) y :
  payload <$> B' = payload <$> B → B' !! i = Some y → ∃ x, B !! i = Some x ∧ payload y = payload x.
Proof.
  intros Hp Hy. assert ((payload <$> B) !! i = Some (payload y)) as Hl by (by rewrite <- Hp, list_lookup_fmap, Hy).
  rewrite list_lookup_fmap in Hl. destruct (B !! i) as [x|]; [|done]. exists x. split; [done|]. apply (inj Some). symmetry. exact Hl.
Qed.

Lemma rep_reorder B B' d a order :
  rep dv (mkbio false B d) a → payload <$> B' = payload <$> B → order ≡ₚ seq 0 NBUF → links B' order →
  rep dv (mkbio false B' d) a.
Proof.
  intros Hr Hp Ho Hl. split; simpl; [done|apply (rep_disk dv _ _ Hr)| |by exists order| | |apply (rep_clean dv _ _ Hr)|
    apply (rep_dom dv _ _ Hr)].
  - rewrite <- (length_fmap payload B'), Hp, length_fmap. apply (rep_len dv _ _ Hr).
  - intros i y Hi Hy. destruct (payload_lookup _ _ _ _ Hp Hy) as (x & Hx & [= H1 H2 H3 H4 H5 H6]).
    pose proof (rep_bufs dv _ _ Hr i x Hi Hx) as Hok. unfold buf_ok in *. by rewrite H1, H2, H3, H4, H5, H6.
  - intros i j y y' Hi Hj Hy Hy' Hd Hd' Hbn. destruct (payload_lookup _ _ _ _ Hp Hy) as (x & Hx & [= H1 H2 H3 H4 H5 H6]).
    destruct (payload_lookup _ _ _ _ Hp Hy') as (x' & Hx' & [= H1' H2' H3' H4' H5' H6']).
    apply (rep_unique dv _ _ Hr i j x x' Hi Hj Hx Hx'); congruence.
Qed.

Definition without_ref (a : bview) (b : nat) : bview := mkview (cur a) (dk a) (delete b (refs a)).

Lemma brelse_last s a b r :
  rep dv s a → refs a !! b = Some r → rlk r = Some mypid → rcnt r = 1 → cur a (rbn r) = disk_read (dk a) (rbn r) →
  ∃ s', brelse b s = Ok () s' ∧ rep dv s' (without_ref a b).
Proof.
  intros Hr Hb Hlk Hc Hclean.
  destruct (brelse_start s a b r Hr Hb Hlk) as (x & Hx & [= Hv Hd Hbn Hl Hrc Hdt] & Hr0 & Hrun).
  rewrite Hrun. clear Hrun. rewrite Hc. cbn [when Z.sub Z.eqb Z.add Z.opp Z.pos_sub].
  pose proof (rep_dom dv s a Hr b r Hb) as Hlt. set (x' := set_refcnt 0 (set_lock (lk_of None) x)).
  assert (rep dv (mkbio false (<[b := x']> (bufs s)) (dsk s)) (without_ref a b)) as Hr'.
  { apply (rep_change dv s a _ b x); [done..| | | | | |by apply (rep_disk dv s a Hr)].
    - unfold buf_ok. simpl. rewrite lookup_delete_eq. split_and!; try done. intros _ _. congruence.
    - intros i y Hne _ _. apply buf_ok_other; [|done..]. simpl. by rewrite lookup_delete_ne.
    - intros _. left. done.
    - intros bno Hu. destruct (decide (bno = rbn r)) as [->|Hne]; [done|]. apply (rep_clean dv s a Hr).
      intros i r' Hi. destruct (decide (i = b)) as [->|Hib]; [congruence|]. apply (Hu i). simpl. by rewrite lookup_delete_ne.
    - intros i r' Hi. simpl in Hi. apply lookup_delete_Some in Hi as [_ Hi]. by apply (rep_dom dv s a Hr i r'). }
  destruct (rep_links dv _ _ Hr') as (order & Ho & Hli). cbn [bufs] in Hli.
  assert (b ∈ order) as (l1 & l2 & ->)%list_elem_of_split by (by apply (order_in order)).
  destruct (brelse_move_run (mkbio true (<[b := x']> (bufs s)) (dsk s)) l1 b l2) as (s2 & Hrun & Hk & Hdk & Hp & Hl2).
  - apply (rep_len dv _ _ Hr').
  - apply NoDup_cons. split; [|rewrite Ho; apply NoDup_seq]. rewrite (order_in _ _ Ho). unfold HEAD. lia.
  - intros i. by apply order_in.
  - exact Hli.
  - runs Hrun. destruct s2 as [k2 B2 d2]. cbn [blk bufs dsk] in *. subst k2 d2. rewrite release_run.
    eexists. split; [reflexivity|]. apply (rep_reorder (<[b := x']> (bufs s)) B2 _ _ (b :: l1 ++ l2)); [done..| |done].
    rewrite <- Ho. apply Permutation_middle.
Qed.

(** ** Errors *)

Lemma bread_sleeps s a b r pid :
  rep dv s a → refs a !! b = Some r → rlk r = Some pid → bread dv (rbn r) s = Err (Sleeping (Z.of_nat b)).
Proof.
  intros Hr Hb Hlk. destruct (rep_ref s a b r Hr Hb) as (x & Hlt & Hx & [= Hv Hd Hbn Hl Hrc Hdt] & Hr0).
  unfold bread. apply bind_err. unfold bget. runs (acquire_run s (rep_lock dv s a Hr)).
  destruct (bget_lookup s a (rbn r) Hr) as (h & o & Hh & Hrun & Hres). runs Hh. runs Hrun.
  destruct o as [b'|]; [|by destruct (Hres b x Hlt Hx Hd)]. destruct Hres as (y & Hb' & Hy & Hd' & Hbn').
  assert (b' = b) as -> by (apply (rep_unique dv s a Hr b' b y x); congruence).
  runs (setb_ok b _ x) by exact Hx. cbn [blk bufs dsk]. runs release_run. apply bind_err. unfold acquiresleep_buf.
  runs getb_ok by (simpl; apply list_lookup_insert_eq; by eapply lookup_lt_Some). apply bind_err.
  cbn [lock set_refcnt]. by rewrite Hl, Hlk.
Qed.

Lemma bread_panics s a bno :
  rep dv s a → unref a bno → (∀ i, (i < NBUF)%nat → is_Some (refs a !! i)) →
  bread dv bno s = Err (Panic "bget: no buffers").
Proof.
  intros Hr Hu Hfull. unfold bread. apply bind_err. unfold bget. runs (acquire_run s (rep_lock dv s a Hr)).
  assert (∀ i y, (i < NBUF)%nat → bufs s !! i = Some y → ∃ r, refs a !! i = Some r ∧ blockno y = rbn r ∧ refcnt y = rcnt r ∧ 0 < rcnt r) as Hall.
  { intros i y Hi Hy. destruct (Hfull i Hi) as [r Hir]. exists r. pose proof (rep_bufs dv s a Hr i y Hi Hy) as Hok.
    unfold buf_ok in Hok. rewrite Hir in Hok. destruct Hok as (_ & _ & ? & ? & ? & _). split_and!; [done..|lia]. }
  destruct (bget_lookup s a bno Hr) as (h & o & Hh & Hrun & Hres). runs Hh. runs Hrun.
  destruct o as [b|]; [destruct Hres as (y & Hb & Hy & _ & Hbn)|].
  { destruct (Hall b y Hb Hy) as (r & Hbr & ? & _). destruct (Hu b r Hbr). congruence. }
  clear Hrun Hh h. destruct (bget_recycle s a Hr) as (h & o & Hh & Hrun & Hres'). runs Hh. runs Hrun.
  destruct o as [b|]; [|done]. destruct Hres' as (y & Hb & Hy & Hz). destruct (Hall b y Hb Hy) as (r & _ & _ & ? & ?). lia.
Qed.
End runs.

(** ** The contract *)

Inductive bop :=
| BRead (bno : Z)
| BSet (b : nat) (d : list Z)
| BWrite (b : nat)
| BRelse (b : nat)
| BPin (b : nat)
| BUnpin (b : nat).

Section contract.
Context `{Running} (dv : Z).

(** The code a client runs; [BSet] is an assignment to [b->data]. *)
Definition run_bop (o : bop) : M bio nat :=
  match o with
  | BRead bno => bread dv bno
  | BSet b d => setb b (set_data d);; mret b
  | BWrite b => bwrite b;; mret b
  | BRelse b => brelse b;; mret b
  | BPin b => bpin b;; mret b
  | BUnpin b => bunpin b;; mret b
  end.

(** The steps of the view.  Only [BSet] changes the current contents of a
    block, only [BWrite] the disk. *)
Inductive bstep (a : bview) : bop → nat → bview → Prop :=
| step_shared b r : refs a !! b = Some r → rlk r = None →
    bstep a (BRead (rbn r)) b (with_ref a b (mkbref (rbn r) (rcnt r + 1) (Some mypid)))
| step_fresh b bno : refs a !! b = None → unref a bno →
    bstep a (BRead bno) b (with_ref a b (mkbref bno 1 (Some mypid)))
| step_set b r d : refs a !! b = Some r → bstep a (BSet b d) b (with_cur a (rbn r) d)
| step_write b r : refs a !! b = Some r → rlk r = Some mypid → bstep a (BWrite b) b (with_write a (rbn r))
| step_relse b r : refs a !! b = Some r → rlk r = Some mypid → 1 < rcnt r →
    bstep a (BRelse b) b (with_ref a b (mkbref (rbn r) (rcnt r - 1) None))
| step_drop b r : refs a !! b = Some r → rlk r = Some mypid → rcnt r = 1 →
    bstep a (BRelse b) b (without_ref a b)
| step_pin b r : refs a !! b = Some r →
    bstep a (BPin b) b (with_ref a b (mkbref (rbn r) (rcnt r + 1) (rlk r)))
| step_unpin b r : refs a !! b = Some r → 1 < rcnt r →
    bstep a (BUnpin b) b (with_ref a b (mkbref (rbn r) (rcnt r - 1) (rlk r))).

(** When a client may run an operation: buffers are used by who has locked
    them, the last reference to a modified block is not dropped, and there is a
    buffer for a new block. *)
Definition bcan (a : bview) (o : bop) : Prop :=
  match o with
  | BRead bno =>
      (∃ b r, refs a !! b = Some r ∧ rbn r = bno ∧ rlk r = None ∧ rcnt r + 1 < 2 ^ 32) ∨
      (unref a bno ∧ ∃ i, (i < NBUF)%nat ∧ refs a !! i = None)
  | BSet b _ => is_Some (refs a !! b)
  | BWrite b => ∃ r, refs a !! b = Some r ∧ rlk r = Some mypid
  | BRelse b => ∃ r, refs a !! b = Some r ∧ rlk r = Some mypid ∧
      (rcnt r = 1 → cur a (rbn r) = disk_read (dk a) (rbn r))
  | BPin b => ∃ r, refs a !! b = Some r ∧ rcnt r + 1 < 2 ^ 32
  | BUnpin b => ∃ r, refs a !! b = Some r ∧ 1 < rcnt r
  end.

Lemma bop_run s a o :
  rep dv s a → bcan a o → ∃ b s' a', run_bop o s = Ok b s' ∧ bstep a o b a' ∧ rep dv s' a'.
Proof.
  intros Hr. destruct o as [bno|b d|b|b|b|b]; simpl.
  - intros [(b & r & Hb & <- & Hl & Hc)|[Hu Hf]].
    + destruct (bread_shared dv s a b r Hr Hb Hl Hc) as (s' & Hrun & Hr'). exists b, s'. eexists.
      split_and!; [done|by constructor|done].
    + destruct (bread_fresh dv s a bno Hr Hu Hf) as (b & s' & Hb & Hrun & Hr'). exists b, s'. eexists.
      split_and!; [done|by constructor|done].
  - intros [r Hb]. destruct (setdata_run dv s a b r d Hr Hb) as (s' & Hrun & Hr'). exists b, s'. eexists.
    split_and!; [by runs Hrun|by constructor|done].
  - intros (r & Hb & Hl). destruct (bwrite_run dv s a b r Hr Hb Hl) as (s' & Hrun & Hr'). exists b, s'. eexists.
    split_and!; [by runs Hrun|by constructor|done].
  - intros (r & Hb & Hl & Hcl). destruct (rep_ref dv s a b r Hr Hb) as (_ & _ & _ & _ & Hc).
    destruct (decide (rcnt r = 1)) as [H1|H1].
    + destruct (brelse_last dv s a b r Hr Hb Hl H1 (Hcl H1)) as (s' & Hrun & Hr'). exists b, s'. eexists.
      split_and!; [by runs Hrun|by eapply step_drop|done].
    + destruct (brelse_shared dv s a b r Hr Hb Hl ltac:(lia)) as (s' & Hrun & Hr'). exists b, s'. eexists.
      split_and!; [by runs Hrun|eapply step_relse; [done..|lia]|done].
  - intros (r & Hb & Hc). destruct (bpin_run dv s a b r Hr Hb Hc) as (s' & Hrun & Hr'). exists b, s'. eexists.
    split_and!; [by runs Hrun|by constructor|done].
  - intros (r & Hb & Hc). destruct (bunpin_run dv s a b r Hr Hb Hc) as (s' & Hrun & Hr'). exists b, s'. eexists.
    split_and!; [by runs Hrun|by constructor|done].
Qed.

(** The static [bcache] before [binit]. *)
Definition buf0 : buf := mkbuf false 0 0 (mksleeplock false 0) 0 0 0 (replicate (Z.to_nat BSIZE) 0).
Definition bcache0 (d : disk) : bio := mkbio false (replicate (S NBUF) buf0) d.

Definition binit_state (d : disk) : bio :=
  match binit (bcache0 d) with Ok _ s => s | Err _ => bcache0 d end.

Lemma binit_run d : binit (bcache0 d) = Ok () (binit_state d).
Proof. vm_compute. reflexivity. Qed.

Lemma binit_rep d : dv ≠ 0 → rep dv (binit_state d) (mkview (disk_read d) d ∅).
Proof.
  intros Hdv.
  assert (∀ i x, (i < NBUF)%nat → bufs (binit_state d) !! i = Some x → dev x = 0 ∧ refcnt x = 0 ∧ lock x = lk_of None) as Hb.
  { intros i x Hi Hx. assert (Forall (λ x, dev x = 0 ∧ refcnt x = 0 ∧ lock x = lk_of None) (bufs (binit_state d))) as HF.
    { vm_compute. repeat constructor. }
    by apply (Forall_lookup_1 _ _ i x HF Hx). }
  split; [vm_compute; reflexivity|vm_compute; reflexivity|vm_compute; reflexivity| | | |reflexivity|].
  - exists (reverse (seq 0 NBUF)). split; [apply reverse_Permutation|]. vm_compute. repeat constructor.
  - intros i x Hi Hx. unfold buf_ok. simpl. rewrite lookup_empty. destruct (Hb i x Hi Hx) as (-> & -> & ->). clear Hb Hx Hi.
    split; [reflexivity|]. split; [reflexivity|]. intros Hd. by destruct Hdv.
  - intros i j x y Hi Hj Hx Hy Hdx. destruct (Hb i x Hi Hx) as (Hd & _). clear -Hdv Hd Hdx. congruence.
  - intros i r Hi. simpl in Hi. by rewrite lookup_empty in Hi.
Qed.

(** C7: the buffer cache refines its view.  After [binit] the view is that of
    the disk with no buffer referenced; from there on, every operation a client
    may run returns, and does to the linked, locked and counted buffers what
    the corresponding step does to the view. *)
Theorem bio_refines :
  (dv ≠ 0 → ∀ d, ∃ s, binit (bcache0 d) = Ok () s ∧ rep dv s (mkview (disk_read d) d ∅)) ∧
  (∀ s a o, rep dv s a → bcan a o → ∃ b s' a', run_bop o s = Ok b s' ∧ bstep a o b a' ∧ rep dv s' a').
Proof.
  split; [|apply bop_run]. intros Hdv d. exists (binit_state d). split; [apply binit_run|by apply binit_rep].
Qed.

(** Where [bread] does not return: it sleeps on the buffer of a block that
    is locked, and panics when all buffers are referenced and none is the
    block's. *)
Theorem bread_errors s a :
  rep dv s a →
  (∀ b r pid, refs a !! b = Some r → rlk r = Some pid → bread dv (rbn r) s = Err (Sleeping (Z.of_nat b))) ∧
  (∀ bno, unref a bno → (∀ i, (i < NBUF)%nat → is_Some (refs a !! i)) →
     bread dv bno s = Err (Panic "bget: no buffers")).
Proof. intros Hr. split; [intros; by eapply bread_sleeps|intros; by eapply bread_panics]. Qed.
End contract.

Module BioWitness.
#[export] Instance running0 : Running := 7.

Definition disk0 : disk := mkdisk (λ _, replicate (Z.to_nat BSIZE) 0) [].

Lemma bio_refines_witness :
  ∃ s b s' a', binit (bcache0 disk0) = Ok () s ∧ run_bop ROOTDEV (BRead 5) s = Ok b s' ∧
    bstep (mkview (disk_read disk0) disk0 ∅) (BRead 5) b a' ∧ rep ROOTDEV s' a'.
Proof.
  destruct (bio_refines ROOTDEV) as [Hinit Hstep]. destruct (Hinit ltac:(done) disk0) as (s & Hrun & Hr). exists s.
  destruct (Hstep s (mkview (disk_read disk0) disk0 ∅) (BRead 5) Hr) as (b & s' & a' & Hrun' & Hst & Hr').
  - right. split; [intros i r Hi; simpl in Hi; rewrite lookup_empty in Hi; discriminate|]. exists 0%nat. split; [unfold NBUF; lia|reflexivity].
  - exists b, s', a'. split; [exact Hrun|]. split; [exact Hrun'|]. split; [exact Hst|exact Hr'].
Defined.

Lemma read5 : ∃ s b, rep ROOTDEV s (with_ref (mkview (disk_read disk0) disk0 ∅) b (mkbref 5 1 (Some 7))).
Proof.
  destruct (bread_fresh ROOTDEV (binit_state disk0) (mkview (disk_read disk0) disk0 ∅) 5) as (b & s' & _ & _ & Hr').
  - by apply binit_rep.
  - intros i r Hi. simpl in Hi. by rewrite lookup_empty in Hi.
  - exists 0%nat. split; [unfold NBUF; lia|done].
  - by exists s', b.
Qed.

Lemma bread_errors_witness : ∃ s b, bread ROOTDEV 5 s = Err (Sleeping (Z.of_nat b)).
Proof.
  destruct read5 as (s & b & Hr). exists s, b. destruct (bread_errors ROOTDEV s _ Hr) as [Hs _].
  apply (Hs b (mkbref 5 1 (Some 7)) 7); [|reflexivity]. simpl. apply lookup_insert_eq.
Defined.
End BioWitness.
