(* ===== verification/Log.v ===== *)
(** * kernel/log.c: the log that makes file system calls atomic

    The in-memory [log] on top of the buffer cache.  A header block on disk is
    read and written through the [struct logheader] the code overlays on it. *)
From S2P Require Import Prelude Mem Sleeplock Block Bio.

#[local] Open Scope Z_scope.

Definition LOGSIZE : Z := MAXOPBLOCKS * 3.

(** struct superblock, kernel/fs.h *)
Record superblock := mksb {
  sb_magic : Z; sb_size : Z; sb_nblocks : Z; sb_ninodes : Z; sb_nlog : Z;
  sb_logstart : Z; sb_inodestart : Z; sb_bmapstart : Z }.

(** struct log; [llk] tells whether [log.lock] is held. *)
Record logst := mklog {
  llk : bool; lstart : Z; lsize : Z; outstanding : Z; committing : bool; ldev : Z;
  lh_n : Z; lh_block : list Z }.

Definition set_llk v l := mklog v (lstart l) (lsize l) (outstanding l) (committing l) (ldev l) (lh_n l) (lh_block l).
Definition set_outstanding v l := mklog (llk l) (lstart l) (lsize l) v (committing l) (ldev l) (lh_n l) (lh_block l).
Definition set_committing v l := mklog (llk l) (lstart l) (lsize l) (outstanding l) v (ldev l) (lh_n l) (lh_block l).
Definition set_lh_n v l := mklog (llk l) (lstart l) (lsize l) (outstanding l) (committing l) (ldev l) v (lh_block l).
Definition set_lh_block v l := mklog (llk l) (lstart l) (lsize l) (outstanding l) (committing l) (ldev l) (lh_n l) v.

(** The log and the cache below it. *)
Record lgst := mklg { lbio : bio; llog : logst }.

(** What [sleep(&log, ...)] waits for. *)
Definition LOGCHAN : Z := 1000.

(** log.lh.n and log.lh.block[i] as they lie in a block *)
Definition hdr_n (bs : list Z) : Z := s32 (rd 4 0 bs).
Definition hdr_block (i : nat) (bs : list Z) : Z := s32 (rd 4 (4 + 4 * i) bs).
Definition set_hdr_n (n : Z) (bs : list Z) : list Z := wr 4 0 n bs.
Definition set_hdr_block (i : nat) (b : Z) (bs : list Z) : list Z := wr 4 (4 + 4 * i) b bs.

Section code.
Context `{Running}.
Abbreviation L A := (M lgst A).

Definition bio_op {A} (m : M bio A) : L A := zoom lbio (λ b s, mklg b (llog s)) m.
Definition getl {A} (f : logst → A) : L A := gets (λ s, f (llog s)).
Definition setl (f : logst → logst) : L unit := modify (λ s, mklg (lbio s) (f (llog s))).

Definition log_acquire : L unit :=
  l ← getl llk; when l (fail (Panic "acquire"));; setl (set_llk true).
Definition log_release : L unit :=
  l ← getl llk; when (negb l) (fail (Panic "release"));; setl (set_llk false).

(** log.lh.block[i] *)
Definition lh_get (i : nat) : L Z :=
  r ← getl (λ l, lh_block l !! i);
  match r with Some b => mret b | None => fail (Undef "log.lh.block") end.
Definition lh_set (i : nat) (b : Z) : L unit :=
  bl ← getl lh_block;
  when (length bl <=? i)%nat (fail (Undef "log.lh.block"));;
  setl (set_lh_block (<[i := b]> bl)).

(** One iteration of [install_trans]. *)
Definition install_block (recovering : bool) (tail : nat) : L unit :=
  dv ← getl ldev; st ← getl lstart;
  lbuf ← bio_op (bread (u32 dv) (u32 (st + Z.of_nat tail + 1)));
  bn ← lh_get tail;
  dbuf ← bio_op (bread (u32 dv) (u32 bn));
  lx ← bio_op (getb lbuf);
  bio_op (setb dbuf (set_data (data lx)));;
  bio_op (bwrite dbuf);;
  when (negb recovering) (bio_op (bunpin dbuf));;
  bio_op (brelse lbuf);;
  bio_op (brelse dbuf).

Fixpoint install_loop (recovering : bool) (tail n : nat) : L unit :=
  match n with
  | O => mret ()
  | S n => install_block recovering tail;; install_loop recovering (S tail) n
  end.

Definition install_trans (recovering : bool) : L unit :=
  n ← getl lh_n;
  install_loop recovering 0 (Z.to_nat n).

Fixpoint read_head_loop (bs : list Z) (i n : nat) : L unit :=
  match n with
  | O => mret ()
  | S n => lh_set i (hdr_block i bs);; read_head_loop bs (S i) n
  end.

Definition read_head : L unit :=
  dv ← getl ldev; st ← getl lstart;
  b ← bio_op (bread (u32 dv) (u32 st));
  x ← bio_op (getb b);
  setl (set_lh_n (hdr_n (data x)));;
  n ← getl lh_n;
  read_head_loop (data x) 0 (Z.to_nat n);;
  bio_op (brelse b).

Fixpoint write_head_loop (b : nat) (i n : nat) : L unit :=
  match n with
  | O => mret ()
  | S n =>
      bn ← lh_get i;
      bio_op (setb b (λ x, set_data (set_hdr_block i bn (data x)) x));;
      write_head_loop b (S i) n
  end.

Definition write_head : L unit :=
  dv ← getl ldev; st ← getl lstart;
  b ← bio_op (bread (u32 dv) (u32 st));
  n ← getl lh_n;
  bio_op (setb b (λ x, set_data (set_hdr_n n (data x)) x));;
  write_head_loop b 0 (Z.to_nat n);;
  bio_op (bwrite b);;
  bio_op (brelse b).

Definition recover_from_log : L unit :=
  read_head;;
  install_trans true;;
  setl (set_lh_n 0);;
  write_head.

(** sizeof(struct logheader) is 4 + 4 * LOGSIZE. *)
Definition initlog (dv : Z) (sb : superblock) : L unit :=
  when (BSIZE <=? 4 + 4 * LOGSIZE) (fail (Panic "initlog: too big logheader"));;
  setl (set_llk false);;
  setl (λ l, mklog (llk l) (s32 (sb_logstart sb)) (s32 (sb_nlog sb)) (outstanding l) (committing l) dv (lh_n l) (lh_block l));;
  recover_from_log.

(** [begin_op], up to where it would sleep. *)
Definition begin_op : L unit :=
  log_acquire;;
  c ← getl committing; n ← getl lh_n; o ← getl outstanding;
  if c : bool then fail (Sleeping LOGCHAN)
  else if LOGSIZE <? n + (o + 1) * MAXOPBLOCKS then fail (Sleeping LOGCHAN)
  else setl (λ l, set_outstanding (outstanding l + 1) l);; log_release.

(** One iteration of [write_log]. *)
Definition write_log_block (tail : nat) : L unit :=
  dv ← getl ldev; st ← getl lstart;
  to ← bio_op (bread (u32 dv) (u32 (st + Z.of_nat tail + 1)));
  bn ← lh_get tail;
  from ← bio_op (bread (u32 dv) (u32 bn));
  fx ← bio_op (getb from);
  bio_op (setb to (set_data (data fx)));;
  bio_op (bwrite to);;
  bio_op (brelse from);;
  bio_op (brelse to).

Fixpoint write_log_loop (tail n : nat) : L unit :=
  match n with
  | O => mret ()
  | S n => write_log_block tail;; write_log_loop (S tail) n
  end.

Definition write_log : L unit := n ← getl lh_n; write_log_loop 0 (Z.to_nat n).

Definition commit : L unit :=
  n ← getl lh_n;
  when (0 <? n) (
    write_log;;
    write_head;;
    install_trans false;;
    setl (set_lh_n 0);;
    write_head).

(** [wakeup(&log)] changes no state of this component. *)
Definition end_op : L unit :=
  log_acquire;;
  setl (λ l, set_outstanding (outstanding l - 1) l);;
  c ← getl committing;
  when c (fail (Panic "log.committing"));;
  o ← getl outstanding;
  let do_commit := o =? 0 in
  when do_commit (setl (set_committing true));;
  log_release;;
  when do_commit (
    commit;;
    log_acquire;;
    setl (set_committing false);;
    log_release).

(** Where [blockno] is in the first [n] entries of [log.lh.block], or [n]. *)
Fixpoint log_find (blockno : Z) (i n : nat) : L nat :=
  match n with
  | O => mret i
  | S n => b ← lh_get i; if u32 b =? blockno then mret i else log_find blockno (S i) n
  end.

Definition log_write (b : nat) : L unit :=
  log_acquire;;
  n ← getl lh_n; sz ← getl lsize; o ← getl outstanding;
  when ((LOGSIZE <=? n) || (sz - 1 <=? n)) (fail (Panic "too big a transaction"));;
  when (o <? 1) (fail (Panic "log_write outside of trans"));;
  x ← bio_op (getb b);
  i ← log_find (blockno x) 0 (Z.to_nat n);
  lh_set i (s32 (blockno x));;
  when (Z.of_nat i =? n) (bio_op (bpin b);; setl (λ l, set_lh_n (lh_n l + 1) l));;
  log_release.
End code.
