(* ===== verification/LogSpec.v ===== *)
(** * What the log does to the disk

    The phases of a commit and of recovery as writes to the disk: each run of
    [write_log], [write_head] and [install_trans] performs a known list of
    block writes and keeps the view of the buffer cache in step. *)
From S2P Require Import Prelude Mem Sleeplock Block Bio BioList BioSpec Log.
From stdpp Require Import functions list gmap.

#[local] Open Scope Z_scope.

(** ** Views after writes *)

(** The view after the blocks [ws] were changed in the cache and on disk. *)
Definition wview (a : bview) (ws : list (Z * list Z)) (rf : gmap nat bref) : bview :=
  mkview (apply_writes (cur a) ws) (mkdisk (image (dk a)) (writes (dk a) ++ ws)) rf.

Lemma apply_writes_app img ws1 ws2 : apply_writes img (ws1 ++ ws2) = apply_writes (apply_writes img ws1) ws2.
Proof. apply foldl_app. Qed.

Lemma wview_nil a : wview a [] (refs a) = a.
Proof. destruct a as [c [im ws] r]. unfold wview. simpl. by rewrite app_nil_r. Qed.

Lemma wview_wview a ws1 r1 ws2 r2 : wview (wview a ws1 r1) ws2 r2 = wview a (ws1 ++ ws2) r2.
Proof. unfold wview. simpl. by rewrite apply_writes_app, (assoc_L (++)). Qed.

Lemma apply_writes_notin img ws b : (∀ d, (b, d) ∉ ws) → apply_writes img ws b = img b.
Proof.
  revert img; induction ws as [|[b' d] ws IH]; intros img Hb; [done|]. simpl.
  change (apply_writes (<[b' := d]> img) ws b = img b). rewrite IH by set_solver.
  apply fn_lookup_insert_ne. intros ->. apply (Hb d). set_solver.
Qed.

Lemma disk_read_wview a ws rf b : disk_read (dk (wview a ws rf)) b = apply_writes (disk_read (dk a)) ws b.
Proof. unfold disk_read, wview. simpl. by rewrite apply_writes_app. Qed.

Section runs.
Context `{Running} (dv : Z).

Lemma bio_op_ok {A} (m : M bio A) s r b' : m (lbio s) = Ok r b' → bio_op m s = Ok r (mklg b' (llog s)).
Proof. intros Hm. unfold bio_op, zoom. by rewrite Hm. Qed.

Lemma getb_run s a b r :
  rep dv s a → refs a !! b = Some r →
  ∃ x, getb b s = Ok x s ∧ payload x = (true, dv, rbn r, lk_of (rlk r), rcnt r, cur a (rbn r)).
Proof.
  intros Hr Hb. destruct (rep_ref dv s a b r Hr Hb) as (x & _ & Hx & Hp & _). exists x. split; [by apply getb_ok|done].
Qed.

(** Setting the data of a buffer to a function of what it holds. *)
Lemma setdata_fun s a b r (f : list Z → list Z) :
  rep dv s a → refs a !! b = Some r →
  ∃ s', setb b (λ x, set_data (f (data x)) x) s = Ok () s' ∧ rep dv s' (with_cur a (rbn r) (f (cur a (rbn r)))).
Proof.
  intros Hr Hb. destruct (rep_ref dv s a b r Hr Hb) as (x & _ & Hx & [= _ _ _ _ _ Hdt] & _).
  destruct (setdata_run dv s a b r (f (cur a (rbn r))) Hr Hb) as (s' & Hrun & Hr'). exists s'. split; [|done].
  rewrite <- Hdt in Hrun. rewrite (setb_ok b _ x s Hx) in Hrun. rewrite (setb_ok b _ x s Hx). exact Hrun.
Qed.

(** Changing a block in a buffer of one's own, and writing it out. *)
Lemma modify_write s a b bno d rf :
  refs a = <[b := mkbref bno 1 (Some mypid)]> rf → rf !! b = None →
  rep dv s (with_cur a bno d) →
  ∃ s1 s2, bwrite b s = Ok () s1 ∧ brelse b s1 = Ok () s2 ∧ rep dv s2 (wview a [(bno, d)] rf).
Proof.
  intros Hrf Hb Hr. assert (refs (with_cur a bno d) !! b = Some (mkbref bno 1 (Some mypid))) as Hl.
  { simpl. by rewrite Hrf, lookup_insert_eq. }
  destruct (bwrite_run dv s _ b _ Hr Hl eq_refl) as (s1 & Hrun1 & Hr1). exists s1.
  destruct (brelse_last dv s1 _ b _ Hr1 Hl eq_refl eq_refl) as (s2 & Hrun2 & Hr2).
  { simpl. by rewrite disk_read_write, !fn_lookup_insert. }
  exists s2. split_and!; [done..|]. revert Hr2. unfold without_ref, with_write, with_cur, wview. simpl.
  rewrite Hrf, fn_lookup_insert, delete_insert_id by done. done.
Qed.

(** A buffer is free when fewer than [NBUF] are referenced. *)
Lemma free_buffer s a : rep dv s a → (size (refs a) < NBUF)%nat → ∃ i, (i < NBUF)%nat ∧ refs a !! i = None.
Proof.
  intros Hr Hsz. destruct (list_find (λ i, refs a !! i = None) (seq 0 NBUF)) as [[k i]|] eqn:Hf.
  - apply list_find_Some in Hf as (Hk & Hi & _). exists i. apply lookup_seq in Hk as [-> ?]. split; [lia|done].
  - apply list_find_None in Hf. exfalso. assert (set_seq 0 NBUF ⊆ dom (refs a)) as Hsub%subseteq_size.
    { intros i Hi%elem_of_set_seq. apply elem_of_dom, not_eq_None_Some. rewrite Forall_forall in Hf. apply Hf, elem_of_seq. lia. }
    rewrite size_set_seq, size_dom in Hsub. lia.
Qed.

(** The log on disk: a header at [lstart], then the logged blocks. *)
Definition in_log (l : logst) (b : Z) : Prop := lstart l ≤ b ≤ lstart l + LOGSIZE.

(** The in-memory header lists the blocks [bl]. *)
Record logok (l : logst) (bl : list Z) : Prop := {
  lo_lock : llk l = false;
  lo_dev : ldev l = dv;
  lo_dvr : 0 ≤ dv < 2 ^ 32;
  lo_start : 0 ≤ lstart l < 2 ^ 30;
  lo_n : lh_n l = Z.of_nat (length bl);
  lo_len : length (lh_block l) = Z.to_nat LOGSIZE;
  lo_blocks : take (length bl) (lh_block l) = bl;
  lo_home : ∀ b, b ∈ bl → 0 ≤ b < 2 ^ 31 ∧ ¬ in_log l b }.

Lemma lo_length l bl : logok l bl → (length bl ≤ 30)%nat.
Proof.
  intros Ho. rewrite <- (lo_blocks l bl Ho), length_take, (lo_len l bl Ho). change (Z.to_nat LOGSIZE) with 30%nat. lia.
Qed.

Lemma lh_get_at s bl t bn : take (length bl) (lh_block (llog s)) = bl → bl !! t = Some bn → lh_get t s = Ok bn s.
Proof.
  intros Ho Ht. unfold lh_get, getl, gets, mbind, M_bind.
  assert (lh_block (llog s) !! t = Some bn) as ->; [|done].
  rewrite <- Ho in Ht. by apply lookup_take_Some in Ht as [? _].
Qed.

Lemma lh_get_ok s bl t bn : logok (llog s) bl → bl !! t = Some bn → lh_get t s = Ok bn s.
Proof. intros Ho. apply lh_get_at, (lo_blocks _ _ Ho). Qed.

Lemma lh_set_ok s i b :
  (i < length (lh_block (llog s)))%nat →
  lh_set i b s = Ok () (mklg (lbio s) (set_lh_block (<[i := b]> (lh_block (llog s))) (llog s))).
Proof.
  intros Hi. unfold lh_set. assert (getl lh_block s = Ok (lh_block (llog s)) s) as Hg by done. runs Hg.
  destruct (Nat.leb_spec (length (lh_block (llog s))) i); [lia|]. done.
Qed.

(** No buffer of the log area is referenced. *)
Definition logfree (l : logst) (a : bview) : Prop := ∀ b, in_log l b → unref a b.

Lemma getl_ok {A} (f : logst → A) s : getl f s = Ok (f (llog s)) s.
Proof. done. Qed.

Lemma setl_ok f s : setl f s = Ok () (mklg (lbio s) (f (llog s))).
Proof. done. Qed.

Lemma log_args s bl t :
  logok (llog s) bl → (t < 30)%nat →
  u32 (ldev (llog s)) = dv ∧ u32 (lstart (llog s)) = lstart (llog s) ∧
  u32 (lstart (llog s) + Z.of_nat t + 1) = lstart (llog s) + Z.of_nat t + 1 ∧
  in_log (llog s) (lstart (llog s) + Z.of_nat t + 1).
Proof.
  intros Ho Ht. pose proof (lo_start _ _ Ho). pose proof (lo_dvr _ _ Ho). rewrite (lo_dev _ _ Ho).
  rewrite !wrap_small by lia. split_and!; try done. unfold in_log, LOGSIZE, MAXOPBLOCKS. lia.
Qed.

(** One block copied to the log. *)
Lemma write_log_block_run s a bl t bn i r :
  rep dv (lbio s) a → logok (llog s) bl → bl !! t = Some bn →
  refs a !! i = Some r → rbn r = bn → rlk r = None → rcnt r + 1 < 2 ^ 32 →
  logfree (llog s) a → (size (refs a) < NBUF)%nat →
  ∃ b', write_log_block t s = Ok () (mklg b' (llog s)) ∧
    rep dv b' (wview a [(lstart (llog s) + Z.of_nat t + 1, cur a bn)] (refs a)).
Proof.
  intros Hr Ho Ht Hi Hbn Hlk Hc Hfree Hsz. pose proof (lookup_lt_Some _ _ _ Ht) as Hlt.
  pose proof (lo_length _ _ Ho) as Hlen. destruct (log_args s bl t Ho ltac:(lia)) as (Hdv & _ & Hlb & Hin).
  set (lb := lstart (llog s) + Z.of_nat t + 1) in *. destruct (lo_home _ _ Ho bn) as [Hbr Hbn']; [by apply list_elem_of_lookup_2 with t|].
  assert (bn ≠ lb) as Hne by (intros ->; done).
  unfold write_log_block. runs getl_ok. runs getl_ok. fold lb. rewrite Hdv, Hlb.
  destruct (bread_fresh dv (lbio s) a lb Hr (Hfree lb Hin)) as (b & s1 & Hb & Hrun & Hr1); [by apply (free_buffer (lbio s))|].
  runs (bio_op_ok _ _ _ _ Hrun). clear Hrun. runs lh_get_ok by first [exact Ho|exact Ht].
  assert (b ≠ i) as Hbi by congruence.
  destruct (bread_shared dv s1 _ i r Hr1) as (s2 & Hrun & Hr2); [simpl; by rewrite lookup_insert_ne|done|done|].
  rewrite (wrap_small 32 bn), <- Hbn by lia. runs bio_op_ok by exact Hrun. clear Hrun.
  set (a2 := with_ref (with_ref a b (mkbref lb 1 (Some mypid))) i (mkbref (rbn r) (rcnt r + 1) (Some mypid))) in *.
  destruct (getb_run s2 a2 i (mkbref (rbn r) (rcnt r + 1) (Some mypid)) Hr2) as (x & Hrun & [= _ _ _ _ _ Hdt]); [simpl; by rewrite lookup_insert_eq|].
  simpl in Hdt. runs bio_op_ok by exact Hrun. clear Hrun. rewrite Hdt.
  destruct (setdata_run dv s2 a2 b (mkbref lb 1 (Some mypid)) (cur a (rbn r)) Hr2) as (s3 & Hrun & Hr3).
  { simpl. by rewrite lookup_insert_ne, lookup_insert_eq. }
  runs bio_op_ok by exact Hrun. clear Hrun. set (a3 := with_cur a2 lb (cur a (rbn r))).
  assert (refs a3 !! b = Some (mkbref lb 1 (Some mypid))) as Hb3.
  { simpl. by rewrite lookup_insert_ne, lookup_insert_eq. }
  destruct (bwrite_run dv s3 a3 b _ Hr3 Hb3 eq_refl) as (s4 & Hrun & Hr4). runs bio_op_ok by exact Hrun. clear Hrun.
  destruct (brelse_shared dv s4 _ i (mkbref (rbn r) (rcnt r + 1) (Some mypid)) Hr4) as (s5 & Hrun & Hr5).
  { simpl. by rewrite lookup_insert_eq. } { done. }
  { simpl. destruct (rep_ref dv _ _ _ _ Hr Hi) as (_ & _ & _ & _ & Hpos). lia. }
  runs bio_op_ok by exact Hrun. clear Hrun.
  destruct (brelse_last dv s5 _ b (mkbref lb 1 (Some mypid)) Hr5) as (s6 & Hrun & Hr6); [| done|done| |].
  { simpl. by rewrite lookup_insert_ne. }
  { simpl. by rewrite disk_read_write, !fn_lookup_insert. }
  exists s6. split; [exact (bio_op_ok _ (mklg s5 (llog s)) _ _ Hrun)|]. revert Hr6. apply rep_equiv. split_and!; [done|simpl; unfold disk_write; do 2 f_equal|simpl].
  - simpl. rewrite fn_lookup_insert. by rewrite Hbn.
  - apply map_eq. intros j. destruct (decide (j = b)) as [->|]; [by rewrite lookup_delete_eq|].
    rewrite lookup_delete_ne by done. destruct (decide (j = i)) as [->|].
    + rewrite lookup_insert_eq, Hi. destruct r as [rb rc rl]. simpl in *. subst rl. do 2 f_equal. lia.
    + by rewrite !lookup_insert_ne.
Qed.

(** ** The loops *)

(** Every block of [bl] is in a referenced, unlocked buffer. *)
Definition pinned (a : bview) (bl : list Z) : Prop :=
  ∀ b, b ∈ bl → ∃ i r, refs a !! i = Some r ∧ rbn r = b ∧ rlk r = None ∧ rcnt r + 1 < 2 ^ 32.

(** The blocks [ds] written into the log from entry [t] on. *)
Fixpoint log_ws (st : Z) (t : nat) (ds : list (list Z)) : list (Z * list Z) :=
  match ds with
  | [] => []
  | d :: ds => (st + Z.of_nat t + 1, d) :: log_ws st (S t) ds
  end.

Lemma log_ws_in st t ds b d : (b, d) ∈ log_ws st t ds → st + Z.of_nat t + 1 ≤ b < st + Z.of_nat t + 1 + Z.of_nat (length ds).
Proof.
  revert t; induction ds as [|d' ds IH]; intros t Hin; simpl in *; [set_solver|].
  apply elem_of_cons in Hin as [[= -> ->]|Hin]; [lia|]. apply IH in Hin. lia.
Qed.

Lemma write_log_loop_run s a bl t :
  rep dv (lbio s) a → logok (llog s) bl → pinned a bl → logfree (llog s) a → (size (refs a) < NBUF)%nat →
  ∃ b', write_log_loop t (length (drop t bl)) s = Ok () (mklg b' (llog s)) ∧
    rep dv b' (wview a (log_ws (lstart (llog s)) t (cur a <$> drop t bl)) (refs a)).
Proof.
  remember (length (drop t bl)) as n eqn:Hn. revert s a t Hn.
  induction n as [|n IH]; intros s a t Hn Hr Ho Hp Hf Hsz.
  - destruct (drop t bl) eqn:Hd; [|done]. simpl. exists (lbio s). split; [by destruct s|]. by rewrite wview_nil.
  - destruct (drop t bl) as [|bn bl'] eqn:Hd; [done|].
    assert (bl !! t = Some bn) as Ht. { rewrite <- (Nat.add_0_r t), <- lookup_drop, Hd. done. }
    assert (drop (S t) bl = bl') as Hd'. { by apply drop_S in Ht; rewrite Hd in Ht; injection Ht. }
    destruct (Hp bn) as (i & r & Hi & Hbn & Hl & Hc); [by apply list_elem_of_lookup_2 with t|].
    destruct (write_log_block_run s a bl t bn i r Hr Ho Ht Hi Hbn Hl Hc Hf Hsz) as (b1 & Hrun & Hr1).
    cbn [write_log_loop]. runs Hrun.
    destruct (IH (mklg b1 (llog s)) (wview a [(lstart (llog s) + Z.of_nat t + 1, cur a bn)] (refs a)) (S t))
      as (b2 & Hrun2 & Hr2); [rewrite Hd'; simpl in Hn; lia|exact Hr1|done|done|done|done|].
    exists b2. split; [done|]. revert Hr2. rewrite wview_wview, Hd'. simpl.
    assert (∀ b, b ∈ bl' → <[lstart (llog s) + Z.of_nat t + 1 := cur a bn]> (cur a) b = cur a b) as Hsame.
    { intros b Hb. apply fn_lookup_insert_ne. intros Heq. destruct (lo_home _ _ Ho b) as [_ Hnot].
      - rewrite <- (take_drop (S t) bl), Hd'. set_solver.
      - apply Hnot. rewrite <- Heq. pose proof (lookup_lt_Some _ _ _ Ht). pose proof (lo_length _ _ Ho).
        by apply (log_args s bl t Ho); lia. }
    rewrite (list_fmap_ext _ (cur a) bl'); [done|].
    intros k b Hk. apply Hsame. by apply list_elem_of_lookup_2 with k.
Qed.

(** ** The header *)

Fixpoint put_blocks (i : nat) (bl bs : list Z) : list Z :=
  match bl with
  | [] => bs
  | b :: bl => put_blocks (S i) bl (set_hdr_block i b bs)
  end.
Definition put_header (bl bs : list Z) : list Z := put_blocks 0 bl (set_hdr_n (Z.of_nat (length bl)) bs).

Lemma with_cur_twice a bno d d' : with_cur (with_cur a bno d) bno d' ≡ with_cur a bno d'.
Proof.
  split_and!; [|done..]. intros b. simpl. destruct (decide (bno = b)) as [->|]; [by rewrite !fn_lookup_insert|].
  by rewrite !fn_lookup_insert_ne.
Qed.

Lemma write_head_loop_run s a bl b r i d :
  rep dv (lbio s) (with_cur a (rbn r) d) → logok (llog s) bl → refs a !! b = Some r →
  ∃ b', write_head_loop b i (length (drop i bl)) s = Ok () (mklg b' (llog s)) ∧
    rep dv b' (with_cur a (rbn r) (put_blocks i (drop i bl) d)).
Proof.
  intros Hr Ho Hb. remember (length (drop i bl)) as n eqn:Hn. revert s d i Hn Hr Ho.
  induction n as [|n IH]; intros s d i Hn Hr Ho.
  - destruct (drop i bl) eqn:Hd; [|done]. exists (lbio s). split; [by destruct s|done].
  - destruct (drop i bl) as [|bn bl'] eqn:Hd; [done|].
    assert (bl !! i = Some bn) as Ht. { rewrite <- (Nat.add_0_r i), <- lookup_drop, Hd. done. }
    assert (drop (S i) bl = bl') as Hd'. { by apply drop_S in Ht; rewrite Hd in Ht; injection Ht. }
    cbn [write_head_loop]. runs lh_get_ok by first [exact Ho|exact Ht].
    destruct (setdata_fun (lbio s) _ b r (set_hdr_block i bn) Hr Hb) as (b1 & Hrun & Hr1).
    runs bio_op_ok by exact Hrun. simpl in Hr1. rewrite fn_lookup_insert, with_cur_twice in Hr1.
    destruct (IH (mklg b1 (llog s)) (set_hdr_block i bn d) (S i)) as (b2 & Hrun2 & Hr2); [rewrite Hd'; simpl in Hn; lia|exact Hr1|done|].
    exists b2. split; [done|]. by rewrite Hd' in Hr2.
Qed.

Lemma write_head_run s a bl :
  rep dv (lbio s) a → logok (llog s) bl → logfree (llog s) a → (size (refs a) < NBUF)%nat →
  ∃ b', write_head s = Ok () (mklg b' (llog s)) ∧
    rep dv b' (wview a [(lstart (llog s), put_header bl (cur a (lstart (llog s))))] (refs a)).
Proof.
  intros Hr Ho Hf Hsz. destruct (log_args s bl 0 Ho ltac:(lia)) as (Hdv & Hst & _).
  set (st := lstart (llog s)) in *. unfold write_head. runs getl_ok. runs getl_ok. fold st. rewrite Hdv, Hst.
  assert (in_log (llog s) st) as Hin by (unfold in_log, LOGSIZE, MAXOPBLOCKS; lia).
  destruct (bread_fresh dv (lbio s) a st Hr (Hf st Hin)) as (b & s1 & Hb & Hrun & Hr1); [by apply (free_buffer (lbio s))|].
  runs (bio_op_ok _ _ _ _ Hrun). clear Hrun. runs getl_ok. cbn [llog]. rewrite (lo_n _ _ Ho).
  set (a1 := with_ref a b (mkbref st 1 (Some mypid))) in *.
  assert (refs a1 !! b = Some (mkbref st 1 (Some mypid))) as Hb1 by (by apply lookup_insert_eq).
  destruct (setdata_fun s1 a1 b _ (set_hdr_n (Z.of_nat (length bl))) Hr1 Hb1) as (s2 & Hrun & Hr2).
  runs bio_op_ok by exact Hrun. clear Hrun. rewrite Nat2Z.id.
  destruct (write_head_loop_run (mklg s2 (llog s)) a1 bl b _ 0 _ Hr2 Ho Hb1) as (s3 & Hrun & Hr3).
  rewrite drop_0 in Hrun, Hr3. runs Hrun. clear Hrun.
  destruct (modify_write s3 a1 b st (put_header bl (cur a st)) (refs a) eq_refl Hb Hr3) as (s4 & s5 & Hrun4 & Hrun5 & Hr5).
  runs bio_op_ok by exact Hrun4. exists s5. split; [exact (bio_op_ok _ (mklg s4 (llog s)) _ _ Hrun5)|done].
Qed.

Lemma length_put_blocks i bl bs :
  (4 + 4 * (i + length bl) ≤ length bs)%nat → length (put_blocks i bl bs) = length bs.
Proof.
  revert i bs; induction bl as [|b bl IH]; intros i bs Hl; simpl; [done|]. simpl in Hl.
  rewrite IH; unfold set_hdr_block; rewrite length_wr; lia.
Qed.

Lemma put_blocks_ne i bl bs w o :
  (4 + 4 * (i + length bl) ≤ length bs)%nat → (o + w ≤ 4 + 4 * i)%nat →
  rd w o (put_blocks i bl bs) = rd w o bs.
Proof.
  revert i bs; induction bl as [|b bl IH]; intros i bs Hl Ho; simpl; [done|]. simpl in Hl.
  unfold set_hdr_block. rewrite IH; [|rewrite length_wr; lia|lia]. apply rd_wr_ne; lia.
Qed.

Lemma put_blocks_get i bl bs k b :
  (4 + 4 * (i + length bl) ≤ length bs)%nat → bl !! k = Some b → 0 ≤ b < 2 ^ 31 →
  hdr_block (i + k) (put_blocks i bl bs) = b.
Proof.
  revert i bs k; induction bl as [|b' bl IH]; intros i bs k Hl Hk Hb; [done|]. simpl in Hl. destruct k as [|k]; simpl in Hk.
  - injection Hk as ->. rewrite Nat.add_0_r. simpl. unfold hdr_block, set_hdr_block.
    rewrite put_blocks_ne; [|rewrite length_wr; lia|lia]. rewrite rd_wr by lia.
    rewrite Z.mod_small by (simpl; lia). apply swrap_small; lia.
  - simpl. replace (i + S k)%nat with (S i + k)%nat by lia. apply IH; [|done|done].
    unfold set_hdr_block. rewrite length_wr; lia.
Qed.

(** A header read back. *)
Lemma header_roundtrip bl bs :
  Z.of_nat (length bs) = BSIZE → (length bl ≤ 30)%nat → (∀ b, b ∈ bl → 0 ≤ b < 2 ^ 31) →
  hdr_n (put_header bl bs) = Z.of_nat (length bl) ∧
  (∀ k b, bl !! k = Some b → hdr_block k (put_header bl bs) = b) ∧ length (put_header bl bs) = length bs.
Proof.
  intros Hl Hn Hb. unfold BSIZE in Hl. unfold put_header.
  assert (length (set_hdr_n (Z.of_nat (length bl)) bs) = length bs) as Hl' by (unfold set_hdr_n; rewrite length_wr; lia).
  split_and!.
  - unfold hdr_n. rewrite put_blocks_ne by (rewrite ?Hl'; simpl; lia). unfold set_hdr_n. rewrite rd_wr by lia.
    rewrite Z.mod_small by (simpl; lia). apply swrap_small; lia.
  - intros k b Hk. apply (put_blocks_get 0); [rewrite Hl'; simpl; lia|done|]. by apply Hb, list_elem_of_lookup_2 with k.
  - rewrite length_put_blocks by (rewrite ?Hl'; simpl; lia). done.
Qed.

(** ** Installing *)

(** The tail of [install_block], with both buffers held. *)
Lemma install_finish s a b i lb bn d :
  rep dv s a → b ≠ i → lb ≠ bn →
  refs a !! b = Some (mkbref lb 1 (Some mypid)) → refs a !! i = Some (mkbref bn 1 (Some mypid)) →
  cur a lb = disk_read (dk a) lb → cur a bn = d → disk_read (dk a) bn = d →
  ∃ s1 s2, brelse b s = Ok () s1 ∧ brelse i s1 = Ok () s2 ∧
    rep dv s2 (mkview (cur a) (dk a) (delete i (delete b (refs a)))).
Proof.
  intros Hr Hbi Hne Hb Hi Hlb Hbn Hdk.
  destruct (brelse_last dv s a b _ Hr Hb eq_refl eq_refl Hlb) as (s1 & Hrun1 & Hr1). exists s1.
  destruct (brelse_last dv s1 _ i (mkbref bn 1 (Some mypid)) Hr1) as (s2 & Hrun2 & Hr2); [|done|done| |].
  - simpl. by rewrite lookup_delete_ne.
  - simpl. congruence.
  - exists s2. split_and!; [done|done|exact Hr2].
Qed.

Lemma install_pinned_run s a bl t bn i :
  rep dv (lbio s) a → logok (llog s) bl → bl !! t = Some bn →
  refs a !! i = Some (mkbref bn 1 None) → logfree (llog s) a → (size (refs a) < NBUF)%nat →
  ∃ b', install_block false t s = Ok () (mklg b' (llog s)) ∧
    rep dv b' (wview a [(bn, cur a (lstart (llog s) + Z.of_nat t + 1))] (delete i (refs a))).
Proof.
  intros Hr Ho Ht Hi Hfree Hsz. pose proof (lookup_lt_Some _ _ _ Ht) as Hlt.
  pose proof (lo_length _ _ Ho) as Hlen. destruct (log_args s bl t Ho ltac:(lia)) as (Hdv & _ & Hlb & Hin).
  set (lb := lstart (llog s) + Z.of_nat t + 1) in *.
  destruct (lo_home _ _ Ho bn) as [Hbr Hbn']; [by apply list_elem_of_lookup_2 with t|].
  assert (lb ≠ bn) as Hne by (intros <-; done). pose proof (rep_clean dv _ _ Hr lb (Hfree lb Hin)) as Hcl.
  unfold install_block. runs getl_ok. runs getl_ok. fold lb. rewrite Hdv, Hlb.
  destruct (bread_fresh dv (lbio s) a lb Hr (Hfree lb Hin)) as (b & s1 & Hb & Hrun & Hr1); [by apply (free_buffer (lbio s))|].
  runs (bio_op_ok _ _ _ _ Hrun). clear Hrun. runs lh_get_ok by first [exact Ho|exact Ht].
  assert (b ≠ i) as Hbi by congruence. rewrite (wrap_small 32 bn) by lia.
  destruct (bread_shared dv s1 _ i (mkbref bn 1 None) Hr1) as (s2 & Hrun & Hr2); [simpl; by rewrite lookup_insert_ne|done|done|].
  runs bio_op_ok by exact Hrun. clear Hrun. cbn [rbn rcnt] in Hr2. change (1 + 1) with 2 in Hr2.
  set (a2 := with_ref (with_ref a b (mkbref lb 1 (Some mypid))) i (mkbref bn 2 (Some mypid))) in *.
  assert (refs a2 !! b = Some (mkbref lb 1 (Some mypid))) as Hb2 by (simpl; by rewrite lookup_insert_ne, lookup_insert_eq).
  assert (refs a2 !! i = Some (mkbref bn 2 (Some mypid))) as Hi2 by (simpl; by rewrite lookup_insert_eq).
  destruct (getb_run s2 a2 b _ Hr2 Hb2) as (x & Hrun & [= _ _ _ _ _ Hdt]).
  simpl in Hdt. runs bio_op_ok by exact Hrun. clear Hrun. rewrite Hdt.
  destruct (setdata_run dv s2 a2 i _ (cur a lb) Hr2 Hi2) as (s3 & Hrun & Hr3). runs bio_op_ok by exact Hrun. clear Hrun.
  destruct (bwrite_run dv s3 _ i _ Hr3 Hi2 eq_refl) as (s4 & Hrun & Hr4). runs bio_op_ok by exact Hrun. clear Hrun.
  destruct (bunpin_run dv s4 _ i _ Hr4 Hi2 ltac:(done)) as (s5 & Hrun & Hr5). cbn [negb when].
  runs bio_op_ok by exact Hrun. clear Hrun.
  destruct (install_finish s5 _ b i lb bn (cur a lb) Hr5 Hbi Hne) as (s6 & s7 & Hrun6 & Hrun7 & Hr7); try done.
  { simpl. rewrite lookup_insert_ne by done. exact Hb2. }
  { simpl. by rewrite lookup_insert_eq. }
  { simpl. by rewrite disk_read_write, !fn_lookup_insert_ne. }
  { simpl. by rewrite fn_lookup_insert. }
  { simpl. by rewrite disk_read_write, !fn_lookup_insert. }
  runs bio_op_ok by exact Hrun6. exists s7. split; [exact (bio_op_ok _ (mklg s6 (llog s)) _ _ Hrun7)|].
  revert Hr7. apply rep_equiv. split_and!; [done|simpl; unfold disk_write; by rewrite fn_lookup_insert|simpl].
  apply map_eq. intros j. destruct (decide (j = i)) as [->|]; [by rewrite !lookup_delete_eq|].
  rewrite !(lookup_delete_ne _ i) by done. destruct (decide (j = b)) as [->|]; [by rewrite lookup_delete_eq|].
  by rewrite lookup_delete_ne, !lookup_insert_ne.
Qed.

Lemma install_recover_run s a bl t bn :
  rep dv (lbio s) a → logok (llog s) bl → bl !! t = Some bn →
  refs a = ∅ →
  ∃ b', install_block true t s = Ok () (mklg b' (llog s)) ∧
    rep dv b' (wview a [(bn, cur a (lstart (llog s) + Z.of_nat t + 1))] ∅).
Proof.
  intros Hr Ho Ht Hrf. pose proof (lookup_lt_Some _ _ _ Ht) as Hlt.
  pose proof (lo_length _ _ Ho) as Hlen. destruct (log_args s bl t Ho ltac:(lia)) as (Hdv & _ & Hlb & Hin).
  set (lb := lstart (llog s) + Z.of_nat t + 1) in *.
  destruct (lo_home _ _ Ho bn) as [Hbr Hbn']; [by apply list_elem_of_lookup_2 with t|].
  assert (lb ≠ bn) as Hne by (intros <-; done).
  assert (∀ bno, unref a bno) as Hun. { intros bno i r. by rewrite Hrf, lookup_empty. }
  pose proof (rep_clean dv _ _ Hr lb (Hun lb)) as Hcl.
  unfold install_block. runs getl_ok. runs getl_ok. fold lb. rewrite Hdv, Hlb.
  destruct (bread_fresh dv (lbio s) a lb Hr (Hun lb)) as (b & s1 & Hb & Hrun & Hr1).
  { apply (free_buffer (lbio s)); [done|]. rewrite Hrf, map_size_empty. unfold NBUF. lia. }
  runs (bio_op_ok _ _ _ _ Hrun). clear Hrun. runs lh_get_ok by first [exact Ho|exact Ht].
  rewrite (wrap_small 32 bn) by lia. set (a1 := with_ref a b (mkbref lb 1 (Some mypid))) in *.
  destruct (bread_fresh dv s1 a1 bn Hr1) as (i & s2 & Hi & Hrun & Hr2).
  { intros j r. simpl. rewrite Hrf. destruct (decide (j = b)) as [->|].
    - rewrite lookup_insert_eq. by intros [= <-].
    - by rewrite lookup_insert_ne, lookup_empty. }
  { apply (free_buffer s1); [done|]. simpl. rewrite Hrf, map_size_insert_None, map_size_empty by apply lookup_empty. unfold NBUF. lia. }
  assert (b ≠ i) as Hbi. { intros <-. simpl in Hi. by rewrite lookup_insert_eq in Hi. }
  runs bio_op_ok by exact Hrun. clear Hrun. set (a2 := with_ref a1 i (mkbref bn 1 (Some mypid))) in *.
  assert (refs a2 !! b = Some (mkbref lb 1 (Some mypid))) as Hb2 by (simpl; by rewrite lookup_insert_ne, lookup_insert_eq).
  assert (refs a2 !! i = Some (mkbref bn 1 (Some mypid))) as Hi2 by (simpl; by rewrite lookup_insert_eq).
  destruct (getb_run s2 a2 b _ Hr2 Hb2) as (x & Hrun & [= _ _ _ _ _ Hdt]).
  simpl in Hdt. runs bio_op_ok by exact Hrun. clear Hrun. rewrite Hdt.
  destruct (setdata_run dv s2 a2 i _ (cur a lb) Hr2 Hi2) as (s3 & Hrun & Hr3). runs bio_op_ok by exact Hrun. clear Hrun.
  destruct (bwrite_run dv s3 _ i _ Hr3 Hi2 eq_refl) as (s4 & Hrun & Hr4). runs bio_op_ok by exact Hrun. clear Hrun.
  cbn [negb when]. rewrite ret_bind.
  destruct (install_finish s4 _ b i lb bn (cur a lb) Hr4 Hbi Hne) as (s6 & s7 & Hrun6 & Hrun7 & Hr7); try done.
  { simpl. by rewrite disk_read_write, !fn_lookup_insert_ne. }
  { simpl. by rewrite fn_lookup_insert. }
  { simpl. by rewrite disk_read_write, !fn_lookup_insert. }
  runs bio_op_ok by exact Hrun6. exists s7. split; [exact (bio_op_ok _ (mklg s6 (llog s)) _ _ Hrun7)|].
  revert Hr7. apply rep_equiv. split_and!; [done|simpl; unfold disk_write; by rewrite fn_lookup_insert|simpl].
  rewrite Hrf. apply map_eq. intros j. rewrite lookup_empty. destruct (decide (j = i)) as [->|]; [by rewrite lookup_delete_eq|].
  rewrite !(lookup_delete_ne _ i) by done. destruct (decide (j = b)) as [->|]; [by rewrite lookup_delete_eq|].
  by rewrite lookup_delete_ne, !lookup_insert_ne, lookup_empty.
Qed.

(** What the log holds for entries [t], [t + 1], ... *)
Fixpoint logged (c : Z → list Z) (st : Z) (t n : nat) : list (list Z) :=
  match n with
  | O => []
  | S n => c (st + Z.of_nat t + 1) :: logged c st (S t) n
  end.

Lemma logged_ext c c' st t n :
  (∀ k, (t ≤ k < t + n)%nat → c (st + Z.of_nat k + 1) = c' (st + Z.of_nat k + 1)) → logged c st t n = logged c' st t n.
Proof.
  revert t; induction n as [|n IH]; intros t Hc; simpl; [done|]. rewrite (Hc t), IH by lia || (intros; apply Hc; lia). done.
Qed.

(** The referenced buffers are those of [bl], each pinned once and unlocked. *)
Definition pins (rf : gmap nat bref) (bl : list Z) : Prop :=
  (∀ b, b ∈ bl → ∃ i, rf !! i = Some (mkbref b 1 None)) ∧ (∀ i r, rf !! i = Some r → rbn r ∈ bl).

Lemma pins_delete s a rf i b bl :
  rep dv s a → refs a = rf → NoDup (b :: bl) → pins rf (b :: bl) → rf !! i = Some (mkbref b 1 None) → pins (delete i rf) bl.
Proof.
  intros Hr Hrf Hnd [Hp1 Hp2] Hi. apply NoDup_cons in Hnd as [Hb Hnd]. split.
  - intros b' Hb'. destruct (Hp1 b') as [j Hj]; [set_solver|]. exists j. rewrite lookup_delete_ne; [done|].
    intros <-. rewrite Hi in Hj. injection Hj as ->. done.
  - intros j r Hj. apply lookup_delete_Some in Hj as [Hne Hj]. pose proof (Hp2 j r Hj) as Hin.
    apply elem_of_cons in Hin as [Heq|]; [|done]. destruct Hne. subst rf. symmetry. by apply (rep_refs_unique dv s a j i r _ Hr Hj Hi).
Qed.

Lemma pins_nil rf : pins rf [] → rf = ∅.
Proof.
  intros [_ Hp]. apply map_eq. intros i. rewrite lookup_empty. destruct (rf !! i) as [r|] eqn:Hi; [|done].
  apply Hp in Hi. set_solver.
Qed.

Lemma pins_logfree l a bl bl' :
  logok l bl → bl' ⊆ bl → pins (refs a) bl' → logfree l a.
Proof. intros Ho Hsub [_ Hp] b Hb i r Hi Heq. apply Hp, Hsub in Hi. subst b. by destruct (lo_home _ _ Ho _ Hi). Qed.

(** Step [t] of a loop over [bl]. *)
Lemma drop_step {A} (l : list A) t x l' : drop t l = x :: l' → l !! t = Some x ∧ drop (S t) l = l'.
Proof.
  intros Hd. assert (l !! t = Some x) as Ht. { rewrite <- (Nat.add_0_r t), <- lookup_drop, Hd. done. }
  split; [done|]. apply drop_S in Ht. rewrite Hd in Ht. by injection Ht.
Qed.

(** A home block is not in the log, so installing one leaves the log alone. *)
Lemma home_logged s bl t bn d c :
  logok (llog s) bl → bn ∈ bl →
  logged (<[bn := d]> c) (lstart (llog s)) t (length (drop t bl)) = logged c (lstart (llog s)) t (length (drop t bl)).
Proof.
  intros Ho Hin. apply logged_ext. intros k Hk. apply fn_lookup_insert_ne. intros Heq. destruct (lo_home _ _ Ho bn Hin) as [_ Hn].
  apply Hn. rewrite Heq. rewrite length_drop in Hk. pose proof (lo_length _ _ Ho). by apply (log_args s bl k Ho); lia.
Qed.

Lemma install_loop_run s a bl t :
  rep dv (lbio s) a → logok (llog s) bl → NoDup bl → pins (refs a) (drop t bl) → (size (refs a) < NBUF)%nat →
  ∃ b', install_loop false t (length (drop t bl)) s = Ok () (mklg b' (llog s)) ∧
    rep dv b' (wview a (zip (drop t bl) (logged (cur a) (lstart (llog s)) t (length (drop t bl)))) ∅).
Proof.
  remember (length (drop t bl)) as n eqn:Hn. revert s a t Hn.
  induction n as [|n IH]; intros s a t Hn Hr Ho Hnd Hp Hsz.
  - destruct (drop t bl) eqn:Hd; [|done]. exists (lbio s). split; [by destruct s|]. simpl.
    rewrite <- (pins_nil _ Hp). by rewrite wview_nil.
  - destruct (drop t bl) as [|bn bl'] eqn:Hd; [done|]. apply drop_step in Hd as Hd'. destruct Hd' as [Ht Hd'].
    pose proof (list_elem_of_lookup_2 _ _ _ Ht) as Hbn. destruct (proj1 Hp bn) as [i Hi]; [set_solver|].
    assert (NoDup (bn :: bl')) as Hnd'. { rewrite <- (take_drop t bl), Hd in Hnd. by apply NoDup_app in Hnd as (_ & _ & ?). }
    assert (bn :: bl' ⊆ bl) as Hsub. { rewrite <- Hd. intros x Hx. rewrite <- (take_drop t bl). set_solver. }
    destruct (install_pinned_run s a bl t bn i Hr Ho Ht Hi) as (b1 & Hrun & Hr1); [by eapply pins_logfree|done|].
    cbn [install_loop]. runs Hrun. set (lb := lstart (llog s) + Z.of_nat t + 1) in *.
    destruct (IH (mklg b1 (llog s)) (wview a [(bn, cur a lb)] (delete i (refs a))) (S t)) as (b2 & Hrun2 & Hr2).
    + rewrite Hd'. simpl in Hn. lia.
    + exact Hr1.
    + done.
    + done.
    + rewrite Hd'. simpl. by apply (pins_delete (lbio s) a _ i bn).
    + simpl. rewrite map_size_delete_Some by done. lia.
    + exists b2. split; [done|]. revert Hr2. rewrite wview_wview, Hd'. simpl. injection Hn as ->.
      change (foldl _ (cur a) [(bn, cur a lb)]) with (<[bn := cur a lb]> (cur a)). rewrite <- Hd'.
      by rewrite home_logged.
Qed.

Lemma install_recover_loop_run s a bl t :
  rep dv (lbio s) a → logok (llog s) bl → refs a = ∅ →
  ∃ b', install_loop true t (length (drop t bl)) s = Ok () (mklg b' (llog s)) ∧
    rep dv b' (wview a (zip (drop t bl) (logged (cur a) (lstart (llog s)) t (length (drop t bl)))) ∅).
Proof.
  remember (length (drop t bl)) as n eqn:Hn. revert s a t Hn.
  induction n as [|n IH]; intros s a t Hn Hr Ho Hrf.
  - destruct (drop t bl) eqn:Hd; [|done]. exists (lbio s). split; [by destruct s|]. simpl. rewrite <- Hrf. by rewrite wview_nil.
  - destruct (drop t bl) as [|bn bl'] eqn:Hd; [done|]. apply drop_step in Hd as Hd'. destruct Hd' as [Ht Hd'].
    pose proof (list_elem_of_lookup_2 _ _ _ Ht) as Hbn.
    destruct (install_recover_run s a bl t bn Hr Ho Ht Hrf) as (b1 & Hrun & Hr1).
    cbn [install_loop]. runs Hrun. set (lb := lstart (llog s) + Z.of_nat t + 1) in *.
    destruct (IH (mklg b1 (llog s)) (wview a [(bn, cur a lb)] ∅) (S t)) as (b2 & Hrun2 & Hr2).
    + rewrite Hd'. simpl in Hn. lia.
    + exact Hr1.
    + done.
    + done.
    + exists b2. split; [done|]. revert Hr2. rewrite wview_wview, Hd'. simpl. injection Hn as ->.
      change (foldl _ (cur a) [(bn, cur a lb)]) with (<[bn := cur a lb]> (cur a)). rewrite <- Hd'.
      by rewrite home_logged.
Qed.

(** ** log_write *)

(** The same log with another header. *)
Definition same_log (l l' : logst) : Prop :=
  lstart l' = lstart l ∧ lsize l' = lsize l ∧ outstanding l' = outstanding l ∧ committing l' = committing l.

Lemma log_find_run s bl bno i :
  take (length bl) (lh_block (llog s)) = bl → (∀ b, b ∈ bl → 0 ≤ b < 2 ^ 31) →
  ∃ k, log_find bno i (length (drop i bl)) s = Ok k s ∧
    (bl !! k = Some bno ∨ (bno ∉ drop i bl ∧ k = (i + length (drop i bl))%nat)).
Proof.
  intros Ho Hrg. remember (length (drop i bl)) as n eqn:Hn. revert i Hn. induction n as [|n IH]; intros i Hn.
  - exists i. split; [done|]. right. destruct (drop i bl); [|done]. split; [set_solver|simpl; lia].
  - destruct (drop i bl) as [|b bl'] eqn:Hd; [done|]. apply drop_step in Hd as Hd'. destruct Hd' as [Ht Hd'].
    cbn [log_find]. runs lh_get_at by first [exact Ho|exact Ht].
    pose proof (Hrg b (list_elem_of_lookup_2 _ _ _ Ht)) as Hb. rewrite wrap_small by lia.
    destruct (Z.eqb_spec b bno) as [->|Hne]; [exists i; auto|].
    destruct (IH (S i)) as (k & Hrun & Hk); [rewrite Hd'; simpl in Hn; lia|]. exists k. split; [done|].
    destruct Hk as [Hk|[Hk ->]]; [by left|right]. rewrite Hd' in *. split; [set_solver|simpl in *; lia].
Qed.

Lemma log_acquire_run s : llk (llog s) = false → log_acquire s = Ok () (mklg (lbio s) (set_llk true (llog s))).
Proof. intros Hl. unfold log_acquire. runs getl_ok. by rewrite Hl. Qed.

Lemma log_release_run s : llk (llog s) = true → log_release s = Ok () (mklg (lbio s) (set_llk false (llog s))).
Proof. intros Hl. unfold log_release. runs getl_ok. by rewrite Hl. Qed.

Lemma logok_append l bl b :
  logok l bl → (length bl < 30)%nat → 0 ≤ b < 2 ^ 31 → ¬ in_log l b →
  logok (set_lh_n (lh_n l + 1) (set_lh_block (<[length bl := b]> (lh_block l)) l)) (bl ++ [b]).
Proof.
  intros Ho Hlt Hb Hn. pose proof (lo_len _ _ Ho) as Hl. change (Z.to_nat LOGSIZE) with 30%nat in Hl.
  split; simpl; try apply Ho.
  - rewrite (lo_n _ _ Ho), length_app. simpl. lia.
  - rewrite length_insert. by apply (lo_len _ _ Ho).
  - rewrite length_app. simpl. rewrite Nat.add_1_r. erewrite take_S_r by (apply list_lookup_insert_eq; lia).
    rewrite take_insert_ge by lia. by rewrite (lo_blocks _ _ Ho).
  - intros b' [Hb'|Hb']%elem_of_app; [by apply (lo_home _ _ Ho)|]. apply list_elem_of_singleton in Hb' as ->. done.
Qed.

Lemma log_write_run s a bl b r :
  rep dv (lbio s) a → logok (llog s) bl → refs a !! b = Some r → rcnt r + 1 < 2 ^ 32 →
  0 ≤ rbn r < 2 ^ 31 → ¬ in_log (llog s) (rbn r) →
  (length bl < 30)%nat → Z.of_nat (length bl) < lsize (llog s) - 1 → 1 ≤ outstanding (llog s) →
  ∃ b' l', log_write b s = Ok () (mklg b' l') ∧ same_log (llog s) l' ∧
    ((rbn r ∈ bl ∧ logok l' bl ∧ rep dv b' a) ∨
     (rbn r ∉ bl ∧ logok l' (bl ++ [rbn r]) ∧ rep dv b' (with_ref a b (mkbref (rbn r) (rcnt r + 1) (rlk r))))).
Proof.
  intros Hr Ho Hb Hc Hbn Hin Hlt Hsz Hout. unfold log_write. runs (log_acquire_run s (lo_lock _ _ Ho)).
  set (s1 := mklg (lbio s) (set_llk true (llog s))).
  runs getl_ok. runs getl_ok. runs getl_ok. cbn [llog s1 set_llk lh_n lsize outstanding]. rewrite (lo_n _ _ Ho).
  destruct (Z.leb_spec LOGSIZE (Z.of_nat (length bl))); [unfold LOGSIZE, MAXOPBLOCKS in *; lia|].
  destruct (Z.leb_spec (lsize (llog s) - 1) (Z.of_nat (length bl))); [lia|].
  destruct (Z.ltb_spec (outstanding (llog s)) 1); [lia|]. cbn [orb when]. rewrite !ret_bind.
  destruct (getb_run (lbio s) a b r Hr Hb) as (x & Hrun & [= _ _ Hx _ _ _]). runs bio_op_ok by exact Hrun. clear Hrun. rewrite Hx, Nat2Z.id.
  destruct (log_find_run s1 bl (rbn r) 0) as (k & Hrun & Hk); [apply (lo_blocks _ _ Ho)|intros; by apply (lo_home _ _ Ho)|].
  rewrite drop_0 in Hrun, Hk. runs Hrun. clear Hrun. pose proof (lo_len _ _ Ho) as Hl. change (Z.to_nat LOGSIZE) with 30%nat in Hl.
  rewrite (swrap_small 32 (rbn r)) by lia. destruct Hk as [Hk|[Hni ->]].
  - pose proof (lookup_lt_Some _ _ _ Hk) as Hkl. runs lh_set_ok by (simpl; lia). cbn [lbio llog].
    destruct (Z.eqb_spec (Z.of_nat k) (Z.of_nat (length bl))); [lia|]. cbn [when]. rewrite ret_bind, log_release_run by done.
    eexists _, _. split; [reflexivity|]. cbn [s1 lbio llog set_llk set_lh_block lh_block].
    assert (<[k := rbn r]> (lh_block (llog s)) = lh_block (llog s)) as ->.
    { apply list_insert_id. rewrite <- (lo_blocks _ _ Ho) in Hk. by apply lookup_take_Some in Hk as [? _]. }
    split; [done|]. left. split; [by apply list_elem_of_lookup_2 with k|]. split; [|done].
    destruct Ho. by split.
  - cbn [Nat.add]. runs lh_set_ok by (simpl; lia). cbn [lbio llog]. rewrite Z.eqb_refl. cbn [when].
    destruct (bpin_run dv (lbio s) a b r Hr Hb Hc) as (b' & Hrun & Hr'). rewrite bind_assoc. runs bio_op_ok by exact Hrun.
    runs setl_ok. rewrite log_release_run by done. eexists _, _. split; [reflexivity|]. split; [done|]. right.
    split; [done|]. split; [|done]. cbn [s1 lbio llog set_llk set_lh_block set_lh_n lh_block lh_n].
    destruct (logok_append (llog s) bl (rbn r) Ho Hlt Hbn Hin) as []. by split.
Qed.
End runs.
