(* ===== verification/LogCrash.v ===== *)
(** * Crashes

    The writes of a commit and of recovery, in order, and what recovery makes
    of any disk a crash can leave: the log is atomic. *)
From S2P Require Import Prelude Mem Sleeplock Block Bio BioList BioSpec Log LogSpec.
From stdpp Require Import functions list gmap.

#[local] Open Scope Z_scope.

(** ** Reading back what was logged *)

Lemma apply_writes_cons img w ws : apply_writes img (w :: ws) = apply_writes (<[w.1 := w.2]> img) ws.
Proof. done. Qed.

Lemma logged_log_ws c st t ds : logged (apply_writes c (log_ws st t ds)) st t (length ds) = ds.
Proof.
  revert c t; induction ds as [|d ds IH]; intros c t; [done|]. cbn [log_ws length logged].
  rewrite apply_writes_cons. cbn [fst snd]. rewrite IH. f_equal. rewrite apply_writes_notin.
  - by rewrite fn_lookup_insert.
  - intros d' Hin%log_ws_in. lia.
Qed.

Lemma zip_home (bl : list Z) (ds : list (list Z)) b d : (b, d) ∈ zip bl ds → b ∈ bl.
Proof. intros Hin. apply elem_of_zip_l in Hin. done. Qed.

(** Installing the blocks [ds] makes them the contents of [bl]. *)
Lemma apply_zip c bl (N : Z → list Z) b : b ∈ bl → apply_writes c (zip bl (N <$> bl)) b = N b.
Proof.
  revert c; induction bl as [|b' bl IH]; intros c Hb; [set_solver|].
  change (zip (b' :: bl) (N <$> b' :: bl)) with ((b', N b') :: zip bl (N <$> bl)). rewrite apply_writes_cons. cbn [fst snd].
  destruct (decide (b ∈ bl)) as [Hin|Hn]; [by apply IH|]. apply elem_of_cons in Hb as [->|]; [|done].
  rewrite apply_writes_notin; [by rewrite fn_lookup_insert|]. intros d Hd%zip_home. done.
Qed.

Section crash.
Context `{Running} (dv : Z).

(** ** Commit *)

(** The writes of [commit] for the log [l] holding the blocks [bl], whose
    contents are [c]: the log entries, the header, the home locations, and the
    cleared header. *)
Definition commit_ws (l : logst) (c : Z → list Z) (bl : list Z) : list (Z * list Z) :=
  let h := put_header bl (c (lstart l)) in
  log_ws (lstart l) 0 (c <$> bl) ++ [(lstart l, h)] ++ zip bl (c <$> bl) ++ [(lstart l, put_header [] h)].

Lemma logok_clear l bl : logok dv l bl → logok dv (set_lh_n 0 l) [].
Proof. intros Ho. split; try apply Ho. - done. - done. - intros b Hb. set_solver. Qed.

Lemma commit_run s a bl :
  rep dv (lbio s) a → logok dv (llog s) bl → bl ≠ [] → NoDup bl → pins (refs a) bl → (size (refs a) < NBUF)%nat →
  ∃ b', commit s = Ok () (mklg b' (set_lh_n 0 (llog s))) ∧
    rep dv b' (wview a (commit_ws (llog s) (cur a) bl) ∅).
Proof.
  intros Hr Ho Hne Hnd Hp Hsz. set (st := lstart (llog s)). set (ds := cur a <$> bl).
  assert (logfree (llog s) a) as Hf by (by eapply pins_logfree). pose proof (lo_length _ _ _ Ho) as Hlen.
  unfold commit. runs getl_ok. rewrite (lo_n _ _ _ Ho).
  destruct (Z.ltb_spec 0 (Z.of_nat (length bl))); [|destruct bl; [done|simpl in *; lia]]. cbn [when].
  unfold write_log. rewrite bind_assoc. runs getl_ok. rewrite (lo_n _ _ _ Ho), Nat2Z.id.
  destruct (write_log_loop_run dv s a bl 0 Hr Ho) as (b1 & Hrun & Hr1); [|done|done|].
  { intros b Hb. destruct (proj1 Hp b Hb) as [i Hi]. eexists i, _. by split_and!. }
  rewrite drop_0 in Hrun, Hr1. fold ds st in Hr1. runs Hrun. clear Hrun.
  set (a1 := wview a (log_ws st 0 ds) (refs a)) in *.
  assert (cur a1 st = cur a st) as Hst1. { apply apply_writes_notin. intros d Hin%log_ws_in. lia. }
  destruct (write_head_run dv (mklg b1 (llog s)) a1 bl Hr1 Ho Hf Hsz) as (b2 & Hrun & Hr2).
  runs Hrun. clear Hrun. cbn [llog] in *. fold st in Hr2. rewrite Hst1 in Hr2.
  set (h := put_header bl (cur a st)) in *. set (a2 := wview a1 [(st, h)] (refs a1)) in *.
  unfold install_trans. rewrite bind_assoc. runs getl_ok. cbn [llog]. rewrite (lo_n _ _ _ Ho), Nat2Z.id.
  destruct (install_loop_run dv (mklg b2 (llog s)) a2 bl 0 Hr2 Ho Hnd) as (b3 & Hrun & Hr3); [done|done|].
  rewrite drop_0 in Hrun, Hr3. runs Hrun. clear Hrun. cbn [llog] in *. fold st in Hr3.
  assert (logged (cur a2) st 0 (length bl) = ds) as Hlg.
  { rewrite <- (logged_log_ws (cur a) st 0 ds). unfold ds at 2. rewrite length_fmap. apply logged_ext.
    intros k _. simpl. apply fn_lookup_insert_ne. lia. }
  rewrite Hlg in Hr3. runs setl_ok. cbn [lbio llog]. set (a3 := wview a2 (zip bl ds) ∅) in *.
  destruct (write_head_run dv (mklg b3 (set_lh_n 0 (llog s))) a3 [] Hr3) as (b4 & Hrun & Hr4).
  { by eapply logok_clear. } { intros b _ i r. simpl. by rewrite lookup_empty. } { simpl. rewrite map_size_empty. unfold NBUF. lia. }
  exists b4. split; [exact Hrun|]. cbn [llog lstart set_lh_n] in Hr4. fold st in Hr4.
  assert (cur a3 st = h) as Hst3.
  { simpl. rewrite apply_writes_notin; [by rewrite fn_lookup_insert|]. intros d Hin%zip_home.
    destruct (lo_home _ _ _ Ho st Hin) as [_ Hn]. apply Hn. unfold in_log, LOGSIZE, MAXOPBLOCKS. subst st. lia. }
  rewrite Hst3 in Hr4. revert Hr4. unfold a3, a2, a1. rewrite !wview_wview. unfold commit_ws. fold st ds h. done.
Qed.

(** ** Recovery *)

(** The header block [hb] lists [bl]. *)
Definition header (hb : list Z) (bl : list Z) : Prop :=
  hdr_n hb = Z.of_nat (length bl) ∧ ∀ k b, bl !! k = Some b → hdr_block k hb = b.

Lemma read_head_loop_run s hb i n :
  (i + n ≤ length (lh_block (llog s)))%nat →
  ∃ bl', read_head_loop hb i n s = Ok () (mklg (lbio s) (set_lh_block bl' (llog s))) ∧
    length bl' = length (lh_block (llog s)) ∧
    (∀ k, (k < i)%nat → bl' !! k = lh_block (llog s) !! k) ∧
    (∀ k, (i ≤ k < i + n)%nat → bl' !! k = Some (hdr_block k hb)).
Proof.
  revert s i; induction n as [|n IH]; intros s i Hl.
  - exists (lh_block (llog s)). split_and!; [by destruct s as [? []]|done|done|intros; lia].
  - cbn [read_head_loop]. runs lh_set_ok by lia.
    set (s1 := mklg (lbio s) (set_lh_block (<[i := hdr_block i hb]> (lh_block (llog s))) (llog s))).
    destruct (IH s1 (S i)) as (bl' & Hrun & Hlen & Hlo & Hhi); [simpl; rewrite length_insert; lia|].
    exists bl'. rewrite Hrun. simpl in Hlen, Hlo. rewrite length_insert in Hlen. split_and!; [done|done| |].
    + intros k Hk. rewrite Hlo, list_lookup_insert_ne by lia. done.
    + intros k Hk. destruct (decide (k = i)) as [->|]; [|apply Hhi; lia]. rewrite Hlo by lia.
      apply list_lookup_insert_eq. lia.
Qed.

(** The parameters of a log, whatever its header. *)
Definition logdev (l : logst) (st : Z) : Prop :=
  llk l = false ∧ ldev l = dv ∧ 0 ≤ dv < 2 ^ 32 ∧ lstart l = st ∧ 0 ≤ st < 2 ^ 30 ∧ length (lh_block l) = Z.to_nat LOGSIZE.

Lemma empty_unref (a : bview) bno : refs a = ∅ → unref a bno.
Proof. intros Hrf i r. by rewrite Hrf, lookup_empty. Qed.

Lemma empty_free s a : rep dv s a → refs a = ∅ → ∃ i, (i < NBUF)%nat ∧ refs a !! i = None.
Proof. intros Hr Hrf. apply (free_buffer dv s a Hr). rewrite Hrf, map_size_empty. unfold NBUF. lia. Qed.

Lemma read_head_run s a st bl :
  rep dv (lbio s) a → refs a = ∅ → logdev (llog s) st → header (cur a st) bl → (length bl ≤ 30)%nat →
  (∀ b, b ∈ bl → 0 ≤ b < 2 ^ 31 ∧ ¬ (st ≤ b ≤ st + LOGSIZE)) →
  ∃ b' l', read_head s = Ok () (mklg b' l') ∧ logok dv l' bl ∧ lstart l' = st ∧ rep dv b' a.
Proof.
  intros Hr Hrf (Hlk & Hd & Hdr & Hs & Hst & Hlen) [Hn Hb] Hle Hhome.
  unfold read_head. runs getl_ok. runs getl_ok. rewrite Hd, Hs, !wrap_small by lia.
  destruct (bread_fresh dv (lbio s) a st Hr) as (b & s1 & Hbn & Hrun & Hr1); [by apply empty_unref|by eapply empty_free|].
  runs (bio_op_ok _ _ _ _ Hrun). clear Hrun. set (a1 := with_ref a b (mkbref st 1 (Some mypid))) in *.
  assert (refs a1 !! b = Some (mkbref st 1 (Some mypid))) as Hb1 by (by apply lookup_insert_eq).
  destruct (getb_run dv s1 a1 b _ Hr1 Hb1) as (x & Hrun & [= _ _ _ _ _ Hdt]). simpl in Hdt.
  runs bio_op_ok by exact Hrun. clear Hrun. rewrite Hdt, Hn. runs setl_ok. runs getl_ok. cbn [lbio llog lh_n set_lh_n]. rewrite Nat2Z.id.
  destruct (read_head_loop_run (mklg s1 (set_lh_n (Z.of_nat (length bl)) (llog s))) (cur a st) 0 (length bl))
    as (bl' & Hrun & Hlen' & _ & Hget). { simpl. rewrite Hlen. change (Z.to_nat LOGSIZE) with 30%nat. lia. }
  runs Hrun. clear Hrun. cbn [lbio llog] in *.
  destruct (brelse_last dv s1 a1 b _ Hr1 Hb1 eq_refl eq_refl) as (s2 & Hrun & Hr2).
  { simpl. by apply (rep_clean dv _ _ Hr), empty_unref. }
  exists s2. eexists. split; [exact (bio_op_ok _ (mklg s1 _) _ _ Hrun)|]. split; [|split; [done|]].
  - split; simpl; try done; [by rewrite <- Hs in Hst|by rewrite Hlen'| |].
    + apply list_eq. intros k. destruct (bl !! k) as [bk|] eqn:Hk.
      * pose proof (lookup_lt_Some _ _ _ Hk). rewrite lookup_take_lt, (Hget k), (Hb k bk) by (done || lia). done.
      * apply lookup_ge_None in Hk. by rewrite lookup_take_ge.
    + intros b' Hb'. unfold in_log. simpl. rewrite Hs. by apply Hhome.
  - revert Hr2. apply rep_equiv. split_and!; [done|done|]. simpl. by apply delete_insert_id.
Qed.

Lemma recover_run s a st bl :
  rep dv (lbio s) a → refs a = ∅ → logdev (llog s) st → header (cur a st) bl → (length bl ≤ 30)%nat →
  (∀ b, b ∈ bl → 0 ≤ b < 2 ^ 31 ∧ ¬ (st ≤ b ≤ st + LOGSIZE)) →
  ∃ b' l', recover_from_log s = Ok () (mklg b' l') ∧ logok dv l' [] ∧ lstart l' = st ∧
    rep dv b' (wview a (zip bl (logged (cur a) st 0 (length bl)) ++ [(st, put_header [] (cur a st))]) ∅).
Proof.
  intros Hr Hrf Hld Hh Hle Hhome.
  destruct (read_head_run s a st bl Hr Hrf Hld Hh Hle Hhome) as (b1 & l1 & Hrun & Ho & Hs & Hr1).
  unfold recover_from_log. runs Hrun. clear Hrun. unfold install_trans. rewrite bind_assoc. runs getl_ok. cbn [llog].
  rewrite (lo_n _ _ _ Ho), Nat2Z.id.
  destruct (install_recover_loop_run dv (mklg b1 l1) a bl 0 Hr1 Ho Hrf) as (b2 & Hrun & Hr2).
  rewrite drop_0 in Hrun, Hr2. runs Hrun. clear Hrun. cbn [llog] in *. rewrite Hs in Hr2. runs setl_ok. cbn [lbio llog].
  set (a2 := wview a (zip bl (logged (cur a) st 0 (length bl))) ∅) in *.
  destruct (write_head_run dv (mklg b2 (set_lh_n 0 l1)) a2 [] Hr2) as (b3 & Hrun & Hr3).
  { by eapply logok_clear. } { intros b _. by apply empty_unref. } { simpl. rewrite map_size_empty. unfold NBUF. lia. }
  exists b3, (set_lh_n 0 l1). split; [exact Hrun|]. split; [by eapply logok_clear|]. split; [done|].
  cbn [llog lstart set_lh_n] in Hr3. rewrite Hs in Hr3.
  assert (cur a2 st = cur a st) as Hst.
  { apply apply_writes_notin. intros d Hin%zip_home. destruct (Hhome st Hin) as [_ Hn]. apply Hn. unfold LOGSIZE, MAXOPBLOCKS. lia. }
  rewrite Hst in Hr3. unfold a2 in Hr3. by rewrite wview_wview in Hr3.
Qed.

(** ** Crash states *)

Lemma prefix_of_app {A} (p l1 l2 : list A) :
  p `prefix_of` l1 ++ l2 → p `prefix_of` l1 ∨ ∃ q, p = l1 ++ q ∧ q `prefix_of` l2.
Proof.
  revert p; induction l1 as [|x l1 IH]; intros p Hp; simpl in *; [right; by exists p|].
  destruct p as [|y p]; [left; apply prefix_nil|]. apply prefix_cons_inv_1 in Hp as Hy. subst y.
  apply prefix_cons_inv_2, IH in Hp as [Hp|(q & -> & Hq)]; [left; by apply prefix_cons|right; by exists q].
Qed.

Lemma prefix_of_snoc {A} (p l : list A) x : p `prefix_of` l ++ [x] → p `prefix_of` l ∨ p = l ++ [x].
Proof.
  intros [Hp|(q & -> & Hq)]%prefix_of_app; [by left|]. destruct q as [|y q]; [left; by rewrite app_nil_r|right].
  apply prefix_cons_inv_1 in Hq as Hy. subst y. apply prefix_cons_inv_2, prefix_nil_inv in Hq. by subst q.
Qed.

Lemma prefix_elem {A} (p l : list A) x : p `prefix_of` l → x ∈ p → x ∈ l.
Proof. intros [k ->]. set_solver. Qed.

Section states.
Context (st : Z) (bl : list Z) (old new : Z → list Z).
Implicit Types D X : Z → list Z.

(** Nothing is logged, and the blocks outside the log are those of [X]. *)
Definition stable D X : Prop :=
  Z.of_nat (length (D st)) = BSIZE ∧ header (D st) [] ∧ ∀ b, ¬ (st ≤ b ≤ st + LOGSIZE) → D b = X b.

(** The transaction is in the log; its blocks may have been installed or not. *)
Definition committed D : Prop :=
  Z.of_nat (length (D st)) = BSIZE ∧ header (D st) bl ∧ logged D st 0 (length bl) = new <$> bl ∧
  ∀ b, ¬ (st ≤ b ≤ st + LOGSIZE) → b ∉ bl → D b = new b.

Definition crash_ok D : Prop := stable D old ∨ committed D ∨ stable D new.

Hypothesis Hlen : (length bl ≤ 30)%nat.
Hypothesis Hhome : ∀ b, b ∈ bl → 0 ≤ b < 2 ^ 31 ∧ ¬ (st ≤ b ≤ st + LOGSIZE).

Lemma header_empty bs : Z.of_nat (length bs) = BSIZE → header (put_header [] bs) [] ∧ Z.of_nat (length (put_header [] bs)) = BSIZE.
Proof.
  clear Hlen Hhome. intros Hl. destruct (header_roundtrip [] bs Hl) as (H1 & H2 & H3); [simpl; lia|set_solver|]. split; [|lia]. by split.
Qed.

Lemma header_put bs : Z.of_nat (length bs) = BSIZE → header (put_header bl bs) bl ∧ Z.of_nat (length (put_header bl bs)) = BSIZE.
Proof.
  intros Hl. destruct (header_roundtrip bl bs Hl Hlen) as (H1 & H2 & H3); [apply Hhome|]. split; [|lia]. by split.
Qed.

(** Clearing the header. *)
Lemma stable_clear D X : stable D X → stable (<[st := put_header [] (D st)]> D) X.
Proof.
  clear Hlen Hhome. intros (Hl & _ & Hx). destruct (header_empty _ Hl) as [Hh Hl']. unfold stable. rewrite fn_lookup_insert.
  split_and!; [done..|]. intros b Hb. rewrite fn_lookup_insert_ne; [by apply Hx|].
  intros <-. apply Hb. unfold LOGSIZE, MAXOPBLOCKS. lia.
Qed.

Lemma committed_clear D :
  committed D → stable (<[st := put_header [] (D st)]> (apply_writes D (zip bl (new <$> bl)))) new.
Proof.
  clear Hlen Hhome. intros (Hl & _ & Hlg & Hx). destruct (header_empty _ Hl) as [Hh Hl']. unfold stable. rewrite fn_lookup_insert.
  split_and!; [done..|]. intros b Hb. rewrite fn_lookup_insert_ne by (intros <-; apply Hb; unfold LOGSIZE, MAXOPBLOCKS; lia).
  destruct (decide (b ∈ bl)) as [Hin|Hn]; [by apply apply_zip|].
  rewrite apply_writes_notin; [by apply Hx|]. intros d Hd%zip_home. done.
Qed.

(** Installing any number of blocks. *)
Lemma committed_install D p : committed D → p `prefix_of` zip bl (new <$> bl) → committed (apply_writes D p).
Proof.
  intros (Hl & Hh & Hlg & Hx) Hp.
  assert (∀ b, (st ≤ b ≤ st + LOGSIZE) ∨ b ∉ bl → apply_writes D p b = D b) as Hsame.
  { intros b Hb. apply apply_writes_notin. intros d Hin. apply (prefix_elem _ _ _ Hp), zip_home in Hin.
    destruct Hb as [Hb|]; [|done]. by destruct (Hhome b Hin). }
  assert (st ≤ st ≤ st + LOGSIZE) as Hst by (unfold LOGSIZE, MAXOPBLOCKS; lia).
  unfold committed. rewrite !(Hsame st) by auto. split_and!; [done|done| |].
  - rewrite <- Hlg. apply logged_ext. intros k Hk. apply Hsame. left. unfold LOGSIZE, MAXOPBLOCKS. lia.
  - intros b Hb Hn. rewrite Hsame by auto. by apply Hx.
Qed.
End states.

(** ** Booting from a disk *)

Definition log0 : logst := mklog false 0 0 0 false 0 0 (replicate (Z.to_nat LOGSIZE) 0).

(** The machine after [binit], with the disk contents [D]. *)
Definition boot (D : Z → list Z) : lgst := mklg (binit_state (mkdisk D [])) log0.

Lemma initlog_run sb D bl :
  0 < dv < 2 ^ 31 → 0 ≤ sb_logstart sb < 2 ^ 30 →
  header (D (sb_logstart sb)) bl → (length bl ≤ 30)%nat →
  (∀ b, b ∈ bl → 0 ≤ b < 2 ^ 31 ∧ ¬ (sb_logstart sb ≤ b ≤ sb_logstart sb + LOGSIZE)) →
  ∃ s', initlog dv sb (boot D) = Ok () s' ∧
    dsk (lbio s') = mkdisk D (zip bl (logged D (sb_logstart sb) 0 (length bl)) ++
                              [(sb_logstart sb, put_header [] (D (sb_logstart sb)))]).
Proof.
  intros Hdv Hst Hh Hle Hhome. unfold initlog. change (BSIZE <=? 4 + 4 * LOGSIZE) with false. cbn [when].
  rewrite ret_bind. runs setl_ok. runs setl_ok. cbn [lbio llog boot].
  assert (rep dv (binit_state (mkdisk D [])) (mkview (disk_read (mkdisk D [])) (mkdisk D []) ∅)) as Hr by (apply binit_rep; lia).
  edestruct (recover_run (mklg (binit_state (mkdisk D [])) (mklog false (s32 (sb_logstart sb)) (s32 (sb_nlog sb)) 0 false dv 0
    (replicate (Z.to_nat LOGSIZE) 0))) _ (sb_logstart sb) bl Hr) as (b' & l' & Hrun & _ & _ & Hr'); [done| |done|done|done|].
  - unfold logdev. simpl. rewrite swrap_small by lia. split_and!; try done; lia.
  - exists (mklg b' l'). split; [exact Hrun|]. simpl. rewrite (rep_disk dv _ _ Hr'). done.
Qed.

(** What a crash can leave on disk: a commit interrupted between two block
    writes, then any number of interrupted recoveries. *)
Inductive crashed (sb : superblock) (s : lgst) : (Z → list Z) → Prop :=
| crash_commit s' p :
    commit s = Ok () s' → writes (dsk (lbio s)) `prefix_of` p → p `prefix_of` writes (dsk (lbio s')) →
    crashed sb s (apply_writes (image (dsk (lbio s))) p)
| crash_recovery D s' p :
    crashed sb s D → initlog dv sb (boot D) = Ok () s' → p `prefix_of` writes (dsk (lbio s')) →
    crashed sb s (apply_writes D p).

(** Recovery from a crash state, and from its own crashes. *)
Lemma recover_crash_ok sb bl old new D :
  let st := sb_logstart sb in
  0 < dv < 2 ^ 31 → 0 ≤ st < 2 ^ 30 → (length bl ≤ 30)%nat →
  (∀ b, b ∈ bl → 0 ≤ b < 2 ^ 31 ∧ ¬ (st ≤ b ≤ st + LOGSIZE)) →
  crash_ok st bl old new D →
  ∃ s', initlog dv sb (boot D) = Ok () s' ∧ image (dsk (lbio s')) = D ∧
    (∀ p, p `prefix_of` writes (dsk (lbio s')) → crash_ok st bl old new (apply_writes D p)) ∧
    (stable st (disk_read (dsk (lbio s'))) old ∨ stable st (disk_read (dsk (lbio s'))) new).
Proof.
  intros st Hdv Hst Hlen Hhome. assert (∀ b : Z, b ∈ [] → 0 ≤ b < 2 ^ 31 ∧ ¬ (st ≤ b ≤ st + LOGSIZE)) as Hnil by set_solver.
  assert (∀ X, stable st D X → (X = old ∨ X = new) → ∃ s', initlog dv sb (boot D) = Ok () s' ∧ image (dsk (lbio s')) = D ∧
    (∀ p, p `prefix_of` writes (dsk (lbio s')) → crash_ok st bl old new (apply_writes D p)) ∧
    (stable st (disk_read (dsk (lbio s'))) old ∨ stable st (disk_read (dsk (lbio s'))) new)) as Hstable.
  { intros X Hs HX. pose proof (stable_clear st D X Hs) as Hcl. assert (header (D st) []) as Hh by apply Hs.
    destruct (initlog_run sb D [] Hdv Hst Hh ltac:(simpl; lia) Hnil) as (s' & Hrun & Hdk).
    exists s'. rewrite Hdk. split_and!; [done|done| |].
    - intros p Hp. apply (prefix_of_snoc p []) in Hp as [Hp| ->].
      + apply prefix_nil_inv in Hp. subst p. destruct HX as [-> | ->]; unfold crash_ok; auto.
      + destruct HX as [-> | ->]; unfold crash_ok; auto.
    - destruct HX as [-> | ->]; auto. }
  intros [Hs|[Hc|Hs]]; [by apply (Hstable old); auto| |by apply (Hstable new); auto].
  pose proof Hc as (_ & Hh & Hlg & _). destruct (initlog_run sb D bl Hdv Hst Hh Hlen Hhome) as (s' & Hrun & Hdk).
  fold st in Hdk. rewrite Hlg in Hdk. exists s'. rewrite Hdk. split_and!; [done|done| |].
  - intros p [Hp| ->]%prefix_of_snoc.
    + right. left. by apply committed_install.
    + right. right. rewrite apply_writes_app. by apply committed_clear.
  - right. unfold disk_read. simpl. rewrite apply_writes_app. by apply committed_clear.
Qed.

(** Writing log entries does not touch a stable disk. *)
Lemma stable_logging st D X ds p :
  (length ds ≤ 30)%nat → stable st D X → p `prefix_of` log_ws st 0 ds → stable st (apply_writes D p) X.
Proof.
  intros Hlen (Hl & Hh & Hx) Hp.
  assert (∀ b, b = st ∨ ¬ (st ≤ b ≤ st + LOGSIZE) → apply_writes D p b = D b) as Hsame.
  { intros b Hb. apply apply_writes_notin. intros d Hin. apply (prefix_elem _ _ _ Hp), log_ws_in in Hin.
    unfold LOGSIZE, MAXOPBLOCKS in Hb. lia. }
  unfold stable. rewrite !(Hsame st) by auto. split_and!; [done..|]. intros b Hb. rewrite Hsame by auto. by apply Hx.
Qed.

(** The header write commits. *)
Lemma committed_header st bl D N :
  (length bl ≤ 30)%nat → (∀ b, b ∈ bl → 0 ≤ b < 2 ^ 31 ∧ ¬ (st ≤ b ≤ st + LOGSIZE)) →
  Z.of_nat (length (D st)) = BSIZE → (∀ b, ¬ (st ≤ b ≤ st + LOGSIZE) → b ∉ bl → D b = N b) →
  committed st bl N (<[st := put_header bl (D st)]> (apply_writes D (log_ws st 0 (N <$> bl)))).
Proof.
  intros Hlen Hhome Hl Hx. destruct (header_put st bl Hlen Hhome (D st) Hl) as [Hh Hl']. unfold committed.
  rewrite fn_lookup_insert. split_and!; [done|done| |].
  - rewrite <- (logged_log_ws D st 0 (N <$> bl)) at 2. rewrite length_fmap. apply logged_ext. intros k _. apply fn_lookup_insert_ne. lia.
  - intros b Hb Hn. rewrite fn_lookup_insert_ne by (intros <-; apply Hb; unfold LOGSIZE, MAXOPBLOCKS; lia).
    rewrite apply_writes_notin; [by apply Hx|]. intros d Hin%log_ws_in. rewrite length_fmap in Hin.
    apply Hb. unfold LOGSIZE, MAXOPBLOCKS. lia.
Qed.

Lemma commit_crash_ok l bl D N p :
  let st := lstart l in
  (length bl ≤ 30)%nat → (∀ b, b ∈ bl → 0 ≤ b < 2 ^ 31 ∧ ¬ (st ≤ b ≤ st + LOGSIZE)) →
  stable st D D → N st = D st → (∀ b, ¬ (st ≤ b ≤ st + LOGSIZE) → b ∉ bl → D b = N b) →
  p `prefix_of` commit_ws l N bl → crash_ok st bl D N (apply_writes D p).
Proof.
  intros st Hlen Hhome Hs HN Hx. unfold commit_ws. fold st. rewrite HN.
  assert ((length (N <$> bl) ≤ 30)%nat) as Hlen' by (by rewrite length_fmap).
  pose proof (committed_header st bl D N Hlen Hhome (proj1 Hs) Hx) as Hc.
  set (D1 := <[st := put_header bl (D st)]> (apply_writes D (log_ws st 0 (N <$> bl)))) in *.
  intros [Hp|(q & -> & Hq)]%prefix_of_app; [left; by eapply stable_logging|]. rewrite apply_writes_app.
  destruct q as [|w q]; [left; by apply (stable_logging st D D (N <$> bl))|]. apply prefix_cons_inv_1 in Hq as Hw. subst w.
  apply prefix_cons_inv_2 in Hq. rewrite apply_writes_cons. cbn [fst snd]. fold D1.
  apply prefix_of_snoc in Hq as [Hq| ->].
  - right. left. by apply committed_install.
  - right. right. rewrite apply_writes_app. replace (put_header bl (D st)) with (D1 st) by apply fn_lookup_insert.
    by apply committed_clear.
Qed.

Lemma commit_final l bl D N :
  let st := lstart l in
  (length bl ≤ 30)%nat → (∀ b, b ∈ bl → 0 ≤ b < 2 ^ 31 ∧ ¬ (st ≤ b ≤ st + LOGSIZE)) →
  stable st D D → N st = D st → (∀ b, ¬ (st ≤ b ≤ st + LOGSIZE) → b ∉ bl → D b = N b) →
  stable st (apply_writes D (commit_ws l N bl)) N.
Proof.
  intros st Hlen Hhome Hs HN Hx. unfold commit_ws. fold st. rewrite HN.
  pose proof (committed_header st bl D N Hlen Hhome (proj1 Hs) Hx) as Hc.
  set (D1 := <[st := put_header bl (D st)]> (apply_writes D (log_ws st 0 (N <$> bl)))) in *.
  rewrite !apply_writes_app. pose proof (committed_clear st bl N D1 Hc) as Hf.
  replace (D1 st) with (put_header bl (D st)) in Hf by (symmetry; apply fn_lookup_insert). exact Hf.
Qed.

(** C3: the log is atomic.  Take any state in which the blocks [bl] of a
    transaction are logged in memory, and let the machine crash between any two
    block writes of [commit], and again between any two writes of any number of
    recoveries.  Then [initlog] returns, the log is empty, and the blocks
    outside the log are all as they were before the commit, or all as the
    transaction left them; a commit that is not interrupted leaves the latter. *)
Theorem log_atomic s a bl sb :
  rep dv (lbio s) a → logok dv (llog s) bl → bl ≠ [] → NoDup bl → pins (refs a) bl → (size (refs a) < NBUF)%nat →
  0 < dv < 2 ^ 31 → sb_logstart sb = lstart (llog s) →
  Z.of_nat (length (cur a (lstart (llog s)))) = BSIZE → header (cur a (lstart (llog s))) [] →
  let outside b := ¬ in_log (llog s) b in
  (∃ s', commit s = Ok () s' ∧ lh_n (llog s') = 0 ∧ ∀ b, outside b → disk_read (dsk (lbio s')) b = cur a b) ∧
  (∀ D, crashed sb s D →
     ∃ s', initlog dv sb (boot D) = Ok () s' ∧
       header (disk_read (dsk (lbio s')) (lstart (llog s))) [] ∧
       ((∀ b, outside b → disk_read (dsk (lbio s')) b = disk_read (dsk (lbio s)) b) ∨
        (∀ b, outside b → disk_read (dsk (lbio s')) b = cur a b))).
Proof.
  intros Hr Ho Hne Hnd Hp Hsz Hdv Hsb Hl Hh outside. set (st := lstart (llog s)) in *.
  pose proof (lo_length _ _ _ Ho) as Hlen. pose proof (lo_start _ _ _ Ho) as Hst. pose proof (lo_home _ _ _ Ho) as Hhome.
  destruct (commit_run s a bl Hr Ho Hne Hnd Hp Hsz) as (b' & Hrun & Hr'). rewrite (rep_disk dv _ _ Hr).
  assert (logfree (llog s) a) as Hf by (by eapply pins_logfree).
  set (D0 := disk_read (dk a)). assert (cur a st = D0 st) as Hst0.
  { apply (rep_clean dv _ _ Hr), Hf. unfold in_log, LOGSIZE, MAXOPBLOCKS. subst st. lia. }
  assert (stable st D0 D0) as Hs0 by (rewrite Hst0 in Hl, Hh; by split_and!).
  assert (∀ b, ¬ (st ≤ b ≤ st + LOGSIZE) → b ∉ bl → D0 b = cur a b) as Hx.
  { intros b _ Hb. symmetry. apply (rep_clean dv _ _ Hr). intros i r Hi Heq. apply (proj2 Hp) in Hi. by rewrite Heq in Hi. }
  assert (∀ p, p `prefix_of` commit_ws (llog s) (cur a) bl → crash_ok st bl D0 (cur a) (apply_writes D0 p)) as Hcr.
  { intros p. by apply commit_crash_ok. }
  split.
  - eexists. split; [exact Hrun|]. split; [done|]. intros b Hb. simpl. rewrite (rep_disk dv _ _ Hr').
    rewrite disk_read_wview. by apply (commit_final (llog s) bl D0 (cur a)).
  - intros D Hcd. assert (crash_ok st bl D0 (cur a) D) as Hok.
    { induction Hcd as [s' p Hc Hp1 Hp2|D s' p Hcd IH Hini Hpre].
      - rewrite Hrun in Hc. injection Hc as <-. simpl in Hp2. rewrite (rep_disk dv _ _ Hr') in Hp2.
        rewrite (rep_disk dv _ _ Hr) in *. destruct Hp1 as [q ->]. simpl in Hp2. apply prefix_app_inv in Hp2.
        rewrite apply_writes_app. by apply Hcr.
      - destruct (recover_crash_ok sb bl D0 (cur a) D) as (s2 & Hrun2 & _ & Hpre2 & _); rewrite ?Hsb; [done..|].
        rewrite Hini in Hrun2. injection Hrun2 as <-. rewrite Hsb in Hpre2. by apply Hpre2. }
    destruct (recover_crash_ok sb bl D0 (cur a) D) as (s2 & Hrun2 & _ & _ & Hfin); rewrite ?Hsb; [done..|].
    exists s2. split; [done|]. rewrite Hsb in Hfin. destruct Hfin as [(_ & Hh' & Hx')|(_ & Hh' & Hx')]; (split; [done|]); [left|right]; done.
Qed.
End crash.
