(* ===== verification/LogSpace.v ===== *)
(** * Log space

    [begin_op] admits an operation only when the log has room for all the
    blocks it may write: no interleaving of admitted operations makes
    [log_write] panic.  The log on a concrete disk of zeroed blocks gives
    instances of this and of the theorems of [LogCrash]. *)
From S2P Require Import Prelude Mem Sleeplock Block Bio BioList BioSpec Log LogSpec LogCrash.
From stdpp Require Import functions list gmap.

#[local] Open Scope Z_scope.

Section space.
Context `{Running}.

(** ** Code that leaves the in-memory log alone *)

Definition keeps {A} (m : M lgst A) : Prop := ∀ s r s', m s = Ok r s' → llog s' = llog s.

Lemma keeps_ret {A} (r : A) : keeps (mret r).
Proof. intros s r' s' [= _ <-]. done. Qed.

Lemma keeps_fail {A} e : keeps (fail e : M lgst A).
Proof. by intros s r s'. Qed.

Lemma keeps_bind {A B} (m : M lgst A) (k : A → M lgst B) : keeps m → (∀ a, keeps (k a)) → keeps (m ≫= k).
Proof. intros Hm Hk s r s' (a & s1 & H1 & H2)%bind_inv_ok. rewrite (Hk a s1 r s' H2). by apply (Hm s a). Qed.

Lemma keeps_bio {A} (m : M bio A) : keeps (bio_op m).
Proof. intros s r s'. unfold bio_op, zoom. destruct (m (lbio s)); [|done]. by intros [= _ <-]. Qed.

Lemma keeps_getl {A} (f : logst → A) : keeps (getl f).
Proof. by intros s r s' [= _ <-]. Qed.

Lemma keeps_when b (m : M lgst unit) : keeps m → keeps (when b m).
Proof. intros Hm. destruct b; [done|apply keeps_ret]. Qed.

Lemma keeps_lh_get i : keeps (lh_get i).
Proof. apply keeps_bind; [apply keeps_getl|]. intros [b|]; [apply keeps_ret|apply keeps_fail]. Qed.

#[local] Create HintDb keeps.
#[local] Hint Resolve keeps_ret keeps_fail keeps_bio keeps_getl keeps_when keeps_lh_get : keeps.
#[local] Hint Extern 1 (keeps (_ ≫= _)) => apply keeps_bind; [|intros ?] : keeps.

Lemma keeps_install r t n : keeps (install_loop r t n).
Proof. revert t; induction n as [|n IH]; intros t; simpl; [auto with keeps|]. unfold install_block. auto 30 with keeps. Qed.

Lemma keeps_write_log t n : keeps (write_log_loop t n).
Proof. revert t; induction n as [|n IH]; intros t; simpl; [auto with keeps|]. unfold write_log_block. auto 30 with keeps. Qed.

Lemma keeps_write_head_loop b i n : keeps (write_head_loop b i n).
Proof. revert i; induction n as [|n IH]; intros i; simpl; auto 30 with keeps. Qed.
#[local] Hint Resolve keeps_install keeps_write_log keeps_write_head_loop : keeps.

Lemma keeps_write_head : keeps write_head.
Proof. unfold write_head. auto 30 with keeps. Qed.

(** [commit] empties the log and changes nothing else of it. *)
Lemma commit_log s s' : commit s = Ok () s' → llog s' = if 0 <? lh_n (llog s) then set_lh_n 0 (llog s) else llog s.
Proof.
  unfold commit. intros (n & s1 & [= <- <-] & Hc)%bind_inv_ok. destruct (0 <? lh_n (llog s)); [|by injection Hc as <-].
  cbn [when] in Hc. apply bind_inv_ok in Hc as ([] & s1 & H1 & Hc). apply bind_inv_ok in Hc as ([] & s2 & H2 & Hc).
  apply bind_inv_ok in Hc as ([] & s3 & H3 & Hc). apply bind_inv_ok in Hc as ([] & s4 & [= <-] & Hc).
  apply keeps_write_head in Hc, H2. assert (keeps write_log) as Hw by (unfold write_log; auto with keeps).
  assert (keeps (install_trans false)) as Hi by (unfold install_trans; auto with keeps).
  apply Hw in H1. apply Hi in H3. rewrite Hc. simpl. congruence.
Qed.

(** ** Interleaved operations *)

(** How many blocks each admitted operation may still write. *)
Abbreviation budgets := (list nat).

(** A step of some process: it starts an operation, logs a block for one it is
    in, ends one, or uses the cache. *)
Inductive lstep : lgst * budgets → lgst * budgets → Prop :=
| step_begin s s' bs : begin_op s = Ok () s' → lstep (s, bs) (s', bs ++ [Z.to_nat MAXOPBLOCKS])
| step_write s s' bs i k b : bs !! i = Some (S k) → log_write b s = Ok () s' → lstep (s, bs) (s', <[i := k]> bs)
| step_end s s' bs1 k bs2 : end_op s = Ok () s' → lstep (s, bs1 ++ k :: bs2) (s', bs1 ++ bs2)
| step_cache s b bs : lstep (s, bs) (mklg b (llog s), bs).

Definition total (bs : budgets) : Z := foldr (λ k z, Z.of_nat k + z) 0 bs.

Lemma total_app bs1 bs2 : total (bs1 ++ bs2) = total bs1 + total bs2.
Proof. induction bs1; simpl; lia. Qed.

Lemma total_pos bs : 0 ≤ total bs.
Proof. induction bs; simpl; lia. Qed.

Lemma total_insert bs i k k' : bs !! i = Some k → total (<[i := k']> bs) = total bs - Z.of_nat k + Z.of_nat k'.
Proof.
  revert i; induction bs as [|k0 bs IH]; intros [|i] Hi; simpl in *; [done|done|injection Hi as ->; lia|].
  rewrite (IH i Hi). lia.
Qed.

Lemma total_lookup bs i k : bs !! i = Some k → Z.of_nat k ≤ total bs.
Proof.
  revert i; induction bs as [|k0 bs IH]; intros [|i] Hi; simpl in *; [done|done|injection Hi as ->; pose proof (total_pos bs); lia|].
  apply IH in Hi. lia.
Qed.

(** What the admitted operations may still write fits in the log. *)
Definition space_inv (size : Z) (c : lgst * budgets) : Prop :=
  let l := llog c.1 in
  committing l = false ∧ lsize l = size ∧ outstanding l = Z.of_nat (length c.2) ∧ 0 ≤ lh_n l ∧ lh_n l + total c.2 ≤ LOGSIZE ∧
  Forall (λ k, k ≤ Z.to_nat MAXOPBLOCKS)%nat c.2.

Lemma total_le bs : Forall (λ k, k ≤ Z.to_nat MAXOPBLOCKS)%nat bs → total bs ≤ MAXOPBLOCKS * Z.of_nat (length bs).
Proof. unfold MAXOPBLOCKS. induction 1; simpl in *; lia. Qed.

Lemma log_acquire_inv s s' : log_acquire s = Ok () s' → s' = mklg (lbio s) (set_llk true (llog s)).
Proof. unfold log_acquire, mbind, M_bind, getl, gets. destruct (llk (llog s)); simpl; [done|]. by intros [= <-]. Qed.

Lemma log_release_inv s s' : log_release s = Ok () s' → s' = mklg (lbio s) (set_llk false (llog s)).
Proof. unfold log_release, mbind, M_bind, getl, gets. destruct (llk (llog s)); simpl; [|done]. by intros [= <-]. Qed.

Lemma begin_space size s s' bs :
  space_inv size (s, bs) → begin_op s = Ok () s' → space_inv size (s', bs ++ [Z.to_nat MAXOPBLOCKS]).
Proof.
  intros (Hc & Hs & Ho & Hn & Ht & Hf). unfold begin_op. intros ([] & s1 & ->%log_acquire_inv & Hb)%bind_inv_ok.
  unfold getl, gets, mbind, M_bind in Hb. simpl in *. rewrite Hc in Hb. rewrite Ho in Hb.
  destruct (Z.ltb_spec LOGSIZE (lh_n (llog s) + (Z.of_nat (length bs) + 1) * MAXOPBLOCKS)) as [|Hle]; [done|].
  apply log_release_inv in Hb as ->. unfold space_inv. simpl. rewrite length_app, total_app. simpl.
  pose proof (total_le bs Hf). unfold MAXOPBLOCKS in *. split_and!; [done|done|lia|done|lia|].
  apply Forall_app. split; [done|]. by repeat constructor.
Qed.

(** [log_write] adds at most one block. *)
Lemma log_write_log b s s' :
  log_write b s = Ok () s' →
  same_log (llog s) (llog s') ∧ lh_n (llog s) ≤ lh_n (llog s') ≤ lh_n (llog s) + 1.
Proof.
  unfold log_write. intros ([] & s1 & ->%log_acquire_inv & Hw)%bind_inv_ok.
  apply bind_inv_ok in Hw as (n & s1 & [= <- <-] & Hw). apply bind_inv_ok in Hw as (sz & s1 & [= <- <-] & Hw).
  apply bind_inv_ok in Hw as (o & s1 & [= <- <-] & Hw). apply bind_inv_ok in Hw as ([] & s1 & H1 & Hw).
  apply bind_inv_ok in Hw as ([] & s2 & H2 & Hw). apply bind_inv_ok in Hw as (x & s3 & H3 & Hw).
  apply bind_inv_ok in Hw as (i & s4 & H4 & Hw). apply bind_inv_ok in Hw as ([] & s5 & H5 & Hw).
  apply bind_inv_ok in Hw as ([] & s6 & H6 & Hw). apply log_release_inv in Hw as ->.
  assert (llog s4 = set_llk true (llog s)) as Hs4.
  { apply (keeps_when _ _ (keeps_fail _)) in H1, H2. apply keeps_bio in H3.
    assert (∀ bno i n, keeps (log_find bno i n)) as Hk.
    { intros bno j m. revert j. induction m as [|m IH]; intros j; simpl; [auto with keeps|].
      apply keeps_bind; [auto with keeps|]. intros b'. destruct (u32 b' =? bno); auto with keeps. }
    apply Hk in H4. rewrite H4, H3, H2, H1. done. }
  assert (∃ bl, llog s5 = set_lh_block bl (llog s4)) as [bl Hs5].
  { unfold lh_set in H5. apply bind_inv_ok in H5 as (bl & s' & [= <- <-] & H5). apply bind_inv_ok in H5 as ([] & s' & H5 & [= <-]).
    apply (keeps_when _ _ (keeps_fail _)) in H5. eexists. simpl. by rewrite H5. }
  destruct (Z.of_nat i =? _); cbn [when] in H6.
  - apply bind_inv_ok in H6 as ([] & s6' & H6 & [= <-]). apply keeps_bio in H6. simpl. rewrite H6, Hs5, Hs4. simpl.
    split; [done|lia].
  - injection H6 as <-. simpl. rewrite Hs5, Hs4. simpl. split; [done|lia].
Qed.

Lemma end_op_log s s' :
  end_op s = Ok () s' → committing (llog s) = false →
  outstanding (llog s') = outstanding (llog s) - 1 ∧ lsize (llog s') = lsize (llog s) ∧ committing (llog s') = false ∧
  (lh_n (llog s') = lh_n (llog s) ∨ lh_n (llog s') = 0).
Proof.
  unfold end_op. intros ([] & s1 & ->%log_acquire_inv & He)%bind_inv_ok Hc.
  apply bind_inv_ok in He as ([] & s1 & [= <-] & He). apply bind_inv_ok in He as (c & s1 & [= <- <-] & He).
  apply bind_inv_ok in He as ([] & s1 & H1 & He). cbn [llog set_outstanding set_llk committing] in H1. rewrite Hc in H1.
  injection H1 as <-. apply bind_inv_ok in He as (o & s1 & [= <- <-] & He). cbn [llog set_outstanding set_llk outstanding] in He.
  destruct (outstanding (llog s) - 1 =? 0).
  - apply bind_inv_ok in He as ([] & s1 & [= <-] & He). apply bind_inv_ok in He as ([] & s1 & ->%log_release_inv & He).
    apply bind_inv_ok in He as ([] & s1 & Hcm%commit_log & He). apply bind_inv_ok in He as ([] & s2 & ->%log_acquire_inv & He).
    apply bind_inv_ok in He as ([] & s2 & [= <-] & ->%log_release_inv). simpl in *. rewrite Hcm. simpl.
    destruct (0 <? lh_n (llog s)); simpl; auto.
  - apply bind_inv_ok in He as ([] & s1 & [= <-] & He). apply bind_inv_ok in He as ([] & s1 & ->%log_release_inv & [= <-]).
    simpl. auto.
Qed.

Lemma space_step size c c' : space_inv size c → lstep c c' → space_inv size c'.
Proof.
  intros Hi Hs. destruct Hs as [s s' bs Hb|s s' bs i k b Hk Hw|s s' bs1 k bs2 He|s b bs].
  - by eapply begin_space.
  - destruct Hi as (Hc & Hsz & Ho & Hn & Ht & Hf). apply log_write_log in Hw as [(_ & H2 & H3 & H4) Hn']. unfold space_inv. simpl in *.
    rewrite length_insert, (total_insert _ _ _ _ Hk). split_and!; [congruence|congruence|congruence|lia|lia|].
    apply Forall_insert; [done|]. pose proof (Forall_lookup_1 _ _ _ _ Hf Hk). simpl in *. lia.
  - destruct Hi as (Hc & Hsz & Ho & Hn & Ht & Hf). apply end_op_log in He as (H1 & H2 & H3 & H4); [|done]. unfold space_inv. simpl in *.
    rewrite length_app, total_app in *. simpl in *. pose proof (total_pos bs1). pose proof (total_pos bs2).
    apply Forall_app in Hf as [Hf1 Hf2]. apply Forall_cons in Hf2 as [_ Hf2].
    split_and!; [done|congruence|lia|lia|lia|by apply Forall_app].
  - exact Hi.
Qed.

Lemma space_reach size c c' : space_inv size c → rtc lstep c c' → space_inv size c'.
Proof. intros Hi Hr. induction Hr as [|c c1 c2 Hs _ IH]; [done|]. apply IH. by eapply space_step. Qed.

End space.

(** ** The log on a concrete disk *)

Module LogWitness.
#[export] Instance running1 : Running := 7.

Definition disk1 : disk := mkdisk (λ _, replicate (Z.to_nat BSIZE) 0) [].
Definition sb1 : superblock := mksb 270544960 2000 1954 200 31 2 33 45.
Definition log1 : logst := mklog false 2 31 0 false 1 0 (replicate (Z.to_nat LOGSIZE) 0).
Definition view1 : bview := mkview (disk_read disk1) disk1 ∅.

Lemma view1_unref bno : unref view1 bno.
Proof. intros i r. simpl. by rewrite lookup_empty. Qed.

Lemma view1_free : ∃ i, (i < NBUF)%nat ∧ refs view1 !! i = None.
Proof. exists 0%nat. split; [unfold NBUF; lia|done]. Qed.

(** Block 500 read into a buffer. *)
Lemma read500 : ∃ b c, rep ROOTDEV c (with_ref view1 b (mkbref 500 1 (Some 7))).
Proof.
  destruct (bread_fresh ROOTDEV (binit_state disk1) view1 500) as (b & c & _ & _ & Hr).
  - apply binit_rep. done.
  - apply view1_unref.
  - apply view1_free.
  - by exists b, c.
Qed.


(** A transaction that wrote block 500. *)
Definition new500 : list Z := replicate (Z.to_nat BSIZE) 1.
Definition log500 : logst := mklog false 2 31 0 true 1 1 (500 :: replicate 29 0).
Definition view500 (b : nat) : bview := mkview (<[500 := new500]> (disk_read disk1)) disk1 {[ b := mkbref 500 1 None ]}.

Lemma logged500 : ∃ b c, rep ROOTDEV c (view500 b).
Proof.
  destruct read500 as (b & c & Hr).
  destruct (setdata_run ROOTDEV c _ b (mkbref 500 1 (Some 7)) new500 Hr) as (c1 & _ & Hr1); [apply lookup_insert_eq|].
  destruct (bpin_run ROOTDEV c1 _ b (mkbref 500 1 (Some 7)) Hr1) as (c2 & _ & Hr2); [apply lookup_insert_eq|done|].
  destruct (brelse_shared ROOTDEV c2 _ b (mkbref 500 2 (Some 7)) Hr2) as (c3 & _ & Hr3); [apply lookup_insert_eq|done|done|].
  exists b, c3. revert Hr3. apply rep_equiv. split; [done|]. split; [done|]. simpl. by rewrite !insert_insert_eq.
Qed.

Lemma log_atomic_witness :
  ∃ c s', commit (mklg c log500) = Ok () s' ∧ disk_read (dsk (lbio s')) 500 = new500.
Proof.
  destruct logged500 as (b & c & Hr). exists c.
  assert (cur (view500 b) 2 = replicate (Z.to_nat BSIZE) 0) as H2.
  { simpl. rewrite fn_lookup_insert_ne by lia. reflexivity. }
  destruct (log_atomic ROOTDEV (mklg c log500) (view500 b) [500] sb1 Hr) as [(s' & Hrun & _ & Hfin) _].
  - split; try reflexivity; [unfold ROOTDEV; simpl; lia|simpl; lia|].
    intros b' Hb'. apply list_elem_of_singleton in Hb' as ->. split; [lia|]. unfold in_log. simpl. unfold LOGSIZE, MAXOPBLOCKS. lia.
  - discriminate.
  - apply NoDup_singleton.
  - split.
    + intros b' Hb'. apply list_elem_of_singleton in Hb' as ->. exists b. apply lookup_singleton_eq.
    + intros i r Hi. simpl in Hi. apply lookup_singleton_Some in Hi as [_ <-]. set_solver.
  - simpl. rewrite map_size_singleton. unfold NBUF. lia.
  - unfold ROOTDEV. lia.
  - reflexivity.
  - change (lstart (llog (mklg c log500))) with 2. rewrite H2. reflexivity.
  - change (lstart (llog (mklg c log500))) with 2. rewrite H2. split; [vm_compute; reflexivity|]. intros k b' Hk. discriminate.
  - exists s'. split; [exact Hrun|]. rewrite Hfin.
    + apply fn_lookup_insert.
    + unfold in_log. simpl. unfold LOGSIZE, MAXOPBLOCKS. lia.
Defined.
End LogWitness.
