(* ===== verification/Fs.v ===== *)
(** * kernel/fs.c: blocks, inodes, directories and paths

    The inode layer on top of the log: the in-memory inode table, the block
    allocator, file contents, directories and path lookup.  An inode pointer is
    an index into [itable.inode]; the null pointer is [None].  User memory is
    behind an interface ([UserMem]). *)
From S2P Require Import Prelude Mem Sleeplock Block Bio Log.

#[local] Open Scope Z_scope.

(** ** On-disk format, kernel/fs.h *)

Definition ROOTINO : Z := 1.
Definition FSMAGIC : Z := 270544960.
Definition NDIRECT : nat := 12.
Definition NINDIRECT : nat := 256.
Definition MAXFILE : Z := Z.of_nat NDIRECT + Z.of_nat NINDIRECT.
Definition DINODE_SIZE : nat := 64.
Definition IPB : Z := 16.
Definition BPB : Z := BSIZE * 8.
Definition DIRSIZ : nat := 14.
Definition DIRENT_SIZE : nat := 16.
Definition IBLOCK (i : Z) (sb : superblock) : Z := u32 (i / IPB + sb_inodestart sb).
Definition BBLOCK (b : Z) (sb : superblock) : Z := u32 (b / BPB + sb_bmapstart sb).

(** kernel/stat.h *)
Definition T_DIR : Z := 1.
Definition T_FILE : Z := 2.
Definition T_DEVICE : Z := 3.

(** kernel/param.h *)
Definition NINODE : nat := 50.

(** struct dinode at byte [o] of a block *)
Definition di_type (o : nat) (bs : list Z) : Z := s16 (rd 2 o bs).
Definition di_major (o : nat) (bs : list Z) : Z := s16 (rd 2 (o + 2) bs).
Definition di_minor (o : nat) (bs : list Z) : Z := s16 (rd 2 (o + 4) bs).
Definition di_nlink (o : nat) (bs : list Z) : Z := s16 (rd 2 (o + 6) bs).
Definition di_size (o : nat) (bs : list Z) : Z := rd 4 (o + 8) bs.
Definition di_addr (o k : nat) (bs : list Z) : Z := rd 4 (o + 12 + 4 * k) bs.
Definition di_addrs (o : nat) (bs : list Z) : list Z := (λ k, di_addr o k bs) <$> seq 0 (S NDIRECT).

Fixpoint put_addrs (o : nat) (al : list Z) (bs : list Z) : list Z :=
  match al with
  | [] => bs
  | a :: al => put_addrs (o + 4) al (wr 4 o a bs)
  end.

(** ** State *)

(** struct inode, kernel/file.h *)
Record inode := mkinode {
  idev : Z; inum : Z; iref : Z; ilk : sleeplock; ivalid : bool;
  itype : Z; imajor : Z; iminor : Z; inlink : Z; isize : Z; iaddrs : list Z }.

Definition set_iref v i := mkinode (idev i) (inum i) v (ilk i) (ivalid i) (itype i) (imajor i) (iminor i) (inlink i) (isize i) (iaddrs i).
Definition set_ilk v i := mkinode (idev i) (inum i) (iref i) v (ivalid i) (itype i) (imajor i) (iminor i) (inlink i) (isize i) (iaddrs i).
Definition set_ivalid v i := mkinode (idev i) (inum i) (iref i) (ilk i) v (itype i) (imajor i) (iminor i) (inlink i) (isize i) (iaddrs i).
Definition set_itype v i := mkinode (idev i) (inum i) (iref i) (ilk i) (ivalid i) v (imajor i) (iminor i) (inlink i) (isize i) (iaddrs i).
Definition set_idevnos ma mi i := mkinode (idev i) (inum i) (iref i) (ilk i) (ivalid i) (itype i) ma mi (inlink i) (isize i) (iaddrs i).
Definition set_inlink v i := mkinode (idev i) (inum i) (iref i) (ilk i) (ivalid i) (itype i) (imajor i) (iminor i) v (isize i) (iaddrs i).
Definition set_isize v i := mkinode (idev i) (inum i) (iref i) (ilk i) (ivalid i) (itype i) (imajor i) (iminor i) (inlink i) v (iaddrs i).
Definition set_iaddr k v i := mkinode (idev i) (inum i) (iref i) (ilk i) (ivalid i) (itype i) (imajor i) (iminor i) (inlink i) (isize i) (<[k := v]> (iaddrs i)).

(** The memory of the running process, as [either_copyout] and [either_copyin]
    reach it: [ucopyout va bs] is 0 or -1; [ucopyin va n] also gives the bytes
    that were copied before it returned. *)
Class UserMem (U : Type) := {
  ucopyout : Z → list Z → M U Z;
  ucopyin : Z → Z → M U (Z * list Z) }.

(** [itlk] tells whether [itable.lock] is held; [fcwd] is [myproc()->cwd]. *)
Record fsst (U : Type) := mkfs {
  flg : lgst; fsb : superblock; itlk : bool; itab : list inode; fcwd : nat; fuser : U }.
Arguments mkfs {U}.
Arguments flg {U}.
Arguments fsb {U}.
Arguments itlk {U}.
Arguments itab {U}.
Arguments fcwd {U}.
Arguments fuser {U}.

(** What a process sleeps on for an inode's lock. *)
Definition ichan (ip : nat) : Z := 2000 + Z.of_nat ip.

Section code.
Context {U : Type} `{UserMem U, Running}.
Abbreviation F A := (M (fsst U) A).

Definition log_op {A} (m : M lgst A) : F A :=
  zoom flg (λ l s, mkfs l (fsb s) (itlk s) (itab s) (fcwd s) (fuser s)) m.
Definition buf_op {A} (m : M bio A) : F A := log_op (bio_op m).
Definition user_op {A} (m : M U A) : F A :=
  zoom fuser (λ u s, mkfs (flg s) (fsb s) (itlk s) (itab s) (fcwd s) u) m.

Definition it_acquire : F unit :=
  l ← gets itlk; when l (fail (Panic "acquire"));;
  modify (λ s, mkfs (flg s) (fsb s) true (itab s) (fcwd s) (fuser s)).
Definition it_release : F unit :=
  l ← gets itlk; when (negb l) (fail (Panic "release"));;
  modify (λ s, mkfs (flg s) (fsb s) false (itab s) (fcwd s) (fuser s)).

(** *ip *)
Definition geti (ip : nat) : F inode :=
  r ← gets (λ s, itab s !! ip);
  match r with Some i => mret i | None => fail (Undef "inode") end.
Definition seti (ip : nat) (f : inode → inode) : F unit :=
  i ← geti ip;
  modify (λ s, mkfs (flg s) (fsb s) (itlk s) (<[ip := f i]> (itab s)) (fcwd s) (fuser s)).

(** ** Super block *)

Definition sb_of (bs : list Z) : superblock :=
  mksb (rd 4 0 bs) (rd 4 4 bs) (rd 4 8 bs) (rd 4 12 bs) (rd 4 16 bs) (rd 4 20 bs) (rd 4 24 bs) (rd 4 28 bs).

Definition readsb (dv : Z) : F unit :=
  bp ← buf_op (bread dv 1);
  x ← buf_op (getb bp);
  modify (λ s, mkfs (flg s) (sb_of (data x)) (itlk s) (itab s) (fcwd s) (fuser s));;
  buf_op (brelse bp).

Definition fsinit (dv : Z) : F unit :=
  readsb dv;;
  sb ← gets fsb;
  when (negb (sb_magic sb =? FSMAGIC)) (fail (Panic "invalid file system"));;
  log_op (initlog dv sb).

(** ** Blocks *)

Definition bzero (dv bno : Z) : F unit :=
  bp ← buf_op (bread dv bno);
  buf_op (setb bp (set_data (replicate (Z.to_nat BSIZE) 0)));;
  log_op (log_write bp);;
  buf_op (brelse bp).

(** Bit [bi] of a bitmap block. *)
Definition bit_set (bs : list Z) (bi : Z) : bool :=
  negb (Z.land (rd 1 (Z.to_nat (bi / 8)) bs) (Z.shiftl 1 (bi `mod` 8)) =? 0).
Definition put_bit (bs : list Z) (bi : Z) (v : bool) : list Z :=
  let o := Z.to_nat (bi / 8) in
  let m := Z.shiftl 1 (bi `mod` 8) in
  wr 1 o (if v then Z.lor (rd 1 o bs) m else Z.land (rd 1 o bs) (Z.lnot m)) bs.

(** The inner loop of [balloc]: the first clear bit among [n] from [bi] on. *)
Fixpoint find_clear (bs : list Z) (bi : Z) (n : nat) : option Z :=
  match n with
  | O => None
  | S n => if bit_set bs bi then find_clear bs (bi + 1) n else Some bi
  end.

Fixpoint balloc_loop (dv b : Z) (n : nat) : F Z :=
  match n with
  | O => mret 0
  | S n =>
      sb ← gets fsb;
      bp ← buf_op (bread dv (BBLOCK b sb));
      x ← buf_op (getb bp);
      match find_clear (data x) 0 (Z.to_nat (Z.min BPB (sb_size sb - b))) with
      | Some bi =>
          buf_op (setb bp (λ x, set_data (put_bit (data x) bi true) x));;
          log_op (log_write bp);;
          buf_op (brelse bp);;
          bzero dv (b + bi);;
          mret (b + bi)
      | None =>
          buf_op (brelse bp);;
          balloc_loop dv (b + BPB) n
      end
  end.

(** The outer loop runs while [b < sb.size]. *)
Definition balloc (dv : Z) : F Z :=
  sb ← gets fsb;
  balloc_loop dv 0 (Z.to_nat ((sb_size sb + BPB - 1) / BPB)).

Definition bfree (dv b : Z) : F unit :=
  sb ← gets fsb;
  bp ← buf_op (bread dv (BBLOCK b sb));
  let bi := b `mod` BPB in
  x ← buf_op (getb bp);
  when (negb (bit_set (data x) bi)) (fail (Panic "freeing free block"));;
  buf_op (setb bp (λ x, set_data (put_bit (data x) bi false) x));;
  log_op (log_write bp);;
  buf_op (brelse bp).

(** ** Inodes *)

Fixpoint iinit_loop (i n : nat) : F unit :=
  match n with
  | O => mret ()
  | S n => seti i (set_ilk initsleeplock);; iinit_loop (S i) n
  end.
Definition iinit : F unit :=
  modify (λ s, mkfs (flg s) (fsb s) false (itab s) (fcwd s) (fuser s));;
  iinit_loop 0 NINODE.

(** The loop of [iget]: the entry of (dv, inum), or the first empty slot. *)
Fixpoint iget_loop (tab : list inode) (dv ino : Z) (k : nat) (empty : option nat) : nat + option nat :=
  match tab with
  | [] => inr empty
  | i :: tab =>
      if (0 <? iref i) && (idev i =? dv) && (inum i =? ino) then inl k
      else iget_loop tab dv ino (S k)
             (if (bool_decide (empty = None)) && (iref i =? 0) then Some k else empty)
  end.

Definition iget (dv ino : Z) : F nat :=
  it_acquire;;
  tab ← gets itab;
  match iget_loop tab dv ino 0 None with
  | inl ip => seti ip (λ i, set_iref (iref i + 1) i);; it_release;; mret ip
  | inr None => fail (Panic "iget: no inodes")
  | inr (Some ip) =>
      seti ip (λ i, mkinode dv ino 1 (ilk i) false (itype i) (imajor i) (iminor i) (inlink i) (isize i) (iaddrs i));;
      it_release;; mret ip
  end.

Definition dinode_off (ino : Z) : nat := Z.to_nat (ino `mod` IPB) * DINODE_SIZE.

Fixpoint ialloc_loop (dv type ino : Z) (n : nat) : F (option nat) :=
  match n with
  | O => mret None
  | S n =>
      sb ← gets fsb;
      bp ← buf_op (bread dv (IBLOCK ino sb));
      let o := dinode_off ino in
      x ← buf_op (getb bp);
      if di_type o (data x) =? 0 then
        buf_op (setb bp (λ x, set_data (overwrite o (replicate DINODE_SIZE 0) (data x)) x));;
        buf_op (setb bp (λ x, set_data (wr 2 o type (data x)) x));;
        log_op (log_write bp);;
        buf_op (brelse bp);;
        ip ← iget dv ino;
        mret (Some ip)
      else
        buf_op (brelse bp);;
        ialloc_loop dv type (ino + 1) n
  end.

Definition ialloc (dv type : Z) : F (option nat) :=
  sb ← gets fsb;
  ialloc_loop dv type 1 (Z.to_nat (sb_ninodes sb - 1)).

(** The assignments of [iupdate] to the on-disk inode at [o]. *)
Definition put_dinode (o : nat) (i : inode) (bs : list Z) : list Z :=
  put_addrs (o + 12) (iaddrs i)
    (wr 4 (o + 8) (isize i) (wr 2 (o + 6) (inlink i) (wr 2 (o + 4) (iminor i)
      (wr 2 (o + 2) (imajor i) (wr 2 o (itype i) bs))))).

Definition iupdate (ip : nat) : F unit :=
  i ← geti ip;
  sb ← gets fsb;
  bp ← buf_op (bread (idev i) (IBLOCK (inum i) sb));
  i ← geti ip;
  buf_op (setb bp (λ x, set_data (put_dinode (dinode_off (inum i)) i (data x)) x));;
  log_op (log_write bp);;
  buf_op (brelse bp).

Definition idup (ip : nat) : F nat :=
  it_acquire;;
  seti ip (λ i, set_iref (iref i + 1) i);;
  it_release;;
  mret ip.

Definition acquiresleep_i (ip : nat) : F unit :=
  i ← geti ip;
  lk ← acquiresleep mypid (ichan ip) (ilk i);
  seti ip (set_ilk lk).

Definition ilock (ip : nat) : F unit :=
  i ← geti ip;
  when (iref i <? 1) (fail (Panic "ilock"));;
  acquiresleep_i ip;;
  i ← geti ip;
  when (negb (ivalid i)) (
    sb ← gets fsb;
    bp ← buf_op (bread (idev i) (IBLOCK (inum i) sb));
    let o := dinode_off (inum i) in
    x ← buf_op (getb bp);
    seti ip (λ i, mkinode (idev i) (inum i) (iref i) (ilk i) (ivalid i) (di_type o (data x)) (di_major o (data x))
                    (di_minor o (data x)) (di_nlink o (data x)) (di_size o (data x)) (di_addrs o (data x)));;
    buf_op (brelse bp);;
    seti ip (set_ivalid true);;
    i ← geti ip;
    when (itype i =? 0) (fail (Panic "ilock: no type"))).

Definition iunlock (ip : nat) : F unit :=
  i ← geti ip;
  when (negb (holdingsleep mypid (ilk i)) || (iref i <? 1)) (fail (Panic "iunlock"));;
  seti ip (λ i, set_ilk (releasesleep (ilk i)) i).

(** ** Contents *)

(** ip->addrs[k] *)
Definition get_iaddr (ip k : nat) : F Z :=
  i ← geti ip;
  match iaddrs i !! k with Some a => mret a | None => fail (Undef "ip->addrs") end.

(** The disk block that holds block [bn] of the file; 0 when the disk is full. *)
Definition bmap (ip : nat) (bn : Z) : F Z :=
  i ← geti ip;
  if bn <? Z.of_nat NDIRECT then
    addr ← get_iaddr ip (Z.to_nat bn);
    if addr =? 0 then
      addr ← balloc (idev i);
      if addr =? 0 then mret 0
      else seti ip (set_iaddr (Z.to_nat bn) addr);; mret addr
    else mret addr
  else
    let bn := bn - Z.of_nat NDIRECT in
    if bn <? Z.of_nat NINDIRECT then
      addr ← get_iaddr ip NDIRECT;
      addr ← (if addr =? 0 then
                addr ← balloc (idev i);
                when (negb (addr =? 0)) (seti ip (set_iaddr NDIRECT addr));;
                mret addr
              else mret addr);
      if addr =? 0 then mret 0 else
      bp ← buf_op (bread (idev i) addr);
      x ← buf_op (getb bp);
      let addr := rd 4 (4 * Z.to_nat bn) (data x) in
      addr ← (if addr =? 0 then
                addr ← balloc (idev i);
                when (negb (addr =? 0)) (
                  buf_op (setb bp (λ x, set_data (wr 4 (4 * Z.to_nat bn) addr (data x)) x));;
                  log_op (log_write bp));;
                mret addr
              else mret addr);
      buf_op (brelse bp);;
      mret addr
    else fail (Panic "bmap: out of range").

Fixpoint itrunc_direct (ip k n : nat) : F unit :=
  match n with
  | O => mret ()
  | S n =>
      a ← get_iaddr ip k;
      when (negb (a =? 0)) (
        i ← geti ip;
        bfree (idev i) a;;
        seti ip (set_iaddr k 0));;
      itrunc_direct ip (S k) n
  end.

Fixpoint itrunc_indirect (ip bp j n : nat) : F unit :=
  match n with
  | O => mret ()
  | S n =>
      x ← buf_op (getb bp);
      let a := rd 4 (4 * j) (data x) in
      when (negb (a =? 0)) (i ← geti ip; bfree (idev i) a);;
      itrunc_indirect ip bp (S j) n
  end.

Definition itrunc (ip : nat) : F unit :=
  itrunc_direct ip 0 NDIRECT;;
  a ← get_iaddr ip NDIRECT;
  when (negb (a =? 0)) (
    i ← geti ip;
    bp ← buf_op (bread (idev i) a);
    itrunc_indirect ip bp 0 NINDIRECT;;
    buf_op (brelse bp);;
    a ← get_iaddr ip NDIRECT;
    bfree (idev i) a;;
    seti ip (set_iaddr NDIRECT 0));;
  seti ip (set_isize 0);;
  iupdate ip.

Definition iput (ip : nat) : F unit :=
  it_acquire;;
  i ← geti ip;
  when ((iref i =? 1) && ivalid i && (inlink i =? 0)) (
    acquiresleep_i ip;;
    it_release;;
    itrunc ip;;
    seti ip (set_itype 0);;
    iupdate ip;;
    seti ip (set_ivalid false);;
    seti ip (λ i, set_ilk (releasesleep (ilk i)) i);;
    it_acquire);;
  seti ip (λ i, set_iref (iref i - 1) i);;
  it_release.

Definition iunlockput (ip : nat) : F unit := iunlock ip;; iput ip.

(** struct stat as [stati] fills it, kernel/stat.h *)
Record stat := mkstat { st_dev : Z; st_ino : Z; st_type : Z; st_nlink : Z; st_size : Z }.
Definition stati (ip : nat) : F stat :=
  i ← geti ip;
  mret (mkstat (s32 (idev i)) (inum i) (itype i) (inlink i) (isize i)).

(** The target of [readi]: a user address, or a kernel buffer, whose new
    contents are returned. *)
Definition either_copyout (dst : option Z) (bs : list Z) : F Z :=
  match dst with Some va => user_op (ucopyout va bs) | None => mret 0 end.

(** The rounds of the loop of [readi] move [tot], [off] and [dst] on together;
    each round but the last ends at a block boundary, so there are at most
    [n/BSIZE + 2] rounds before the one that finds nothing left. *)
Definition rounds (n : Z) : nat := Z.to_nat (n / BSIZE + 3).

Fixpoint readi_loop (fuel ip : nat) (dst : option Z) (tot off n : Z) (acc : list Z) : F (Z * list Z) :=
  match fuel with
  | O => fail NoFuel
  | S fuel =>
      if tot <? n then
        addr ← bmap ip (off / BSIZE);
        if addr =? 0 then mret (tot, acc) else
        i ← geti ip;
        bp ← buf_op (bread (idev i) addr);
        let m := Z.min (n - tot) (BSIZE - off `mod` BSIZE) in
        x ← buf_op (getb bp);
        let bs := slice (Z.to_nat (off `mod` BSIZE)) (Z.to_nat m) (data x) in
        r ← either_copyout dst bs;
        if r =? -1 then
          buf_op (brelse bp);; mret (u32 (-1), acc)
        else
          buf_op (brelse bp);;
          readi_loop fuel ip ((λ va, u64 (va + m)) <$> dst) (tot + m) (u32 (off + m)) n (acc ++ bs)
      else mret (tot, acc)
  end.

Definition readi (ip : nat) (dst : option Z) (off n : Z) : F (Z * list Z) :=
  i ← geti ip;
  if (isize i <? off) || (u32 (off + n) <? off) then mret (0, [])
  else
    let n := if isize i <? u32 (off + n) then u32 (isize i - off) else n in
    r ← readi_loop (rounds n) ip dst 0 off n [];
    mret (s32 (r.1), r.2).

(** The source of [writei]: a user address, or the bytes of a kernel buffer. *)
Inductive wsrc := UserSrc (va : Z) | KernSrc (bs : list Z).

Definition either_copyin (src : wsrc) (n : Z) : F (Z * list Z) :=
  match src with
  | UserSrc va => user_op (ucopyin va n)
  | KernSrc bs => mret (0, take (Z.to_nat n) bs)
  end.

Definition src_plus (m : Z) (src : wsrc) : wsrc :=
  match src with
  | UserSrc va => UserSrc (u64 (va + m))
  | KernSrc bs => KernSrc (drop (Z.to_nat m) bs)
  end.

Fixpoint writei_loop (fuel ip : nat) (src : wsrc) (tot off n : Z) : F (Z * Z) :=
  match fuel with
  | O => fail NoFuel
  | S fuel =>
      if tot <? n then
        addr ← bmap ip (off / BSIZE);
        if addr =? 0 then mret (tot, off) else
        i ← geti ip;
        bp ← buf_op (bread (idev i) addr);
        let m := Z.min (n - tot) (BSIZE - off `mod` BSIZE) in
        r ← either_copyin src m;
        buf_op (setb bp (λ x, set_data (overwrite (Z.to_nat (off `mod` BSIZE)) (r.2) (data x)) x));;
        if r.1 =? -1 then
          buf_op (brelse bp);; mret (tot, off)
        else
          log_op (log_write bp);;
          buf_op (brelse bp);;
          writei_loop fuel ip (src_plus m src) (tot + m) (u32 (off + m)) n
      else mret (tot, off)
  end.

Definition writei (ip : nat) (src : wsrc) (off n : Z) : F Z :=
  i ← geti ip;
  if (isize i <? off) || (u32 (off + n) <? off) then mret (-1)
  else if MAXFILE * BSIZE <? u32 (off + n) then mret (-1)
  else
    r ← writei_loop (rounds n) ip src 0 off n;
    i ← geti ip;
    when (isize i <? r.2) (seti ip (set_isize (r.2)));;
    iupdate ip;;
    mret (s32 (r.1)).

(** ** Directories *)

(** strncmp on the characters of two names; a name ends at its first zero or
    after [n] characters. *)
Fixpoint strncmp_name (s t : list Z) (n : nat) : Z :=
  match n with
  | O => 0
  | S n =>
      let a := hd 0 s in let b := hd 0 t in
      if (a =? 0) || negb (a =? b) then a - b else strncmp_name (tl s) (tl t) n
  end.
Definition namecmp (s t : list Z) : Z := strncmp_name s t DIRSIZ.

(** strncpy into a field of [n] characters *)
Fixpoint strncpy_name (s : list Z) (n : nat) : list Z :=
  match n with
  | O => []
  | S n => if hd 0 s =? 0 then replicate (S n) 0 else hd 0 s :: strncpy_name (tl s) n
  end.

(** struct dirent *)
Definition de_inum (de : list Z) : Z := rd 2 0 de.
Definition de_name (de : list Z) : list Z := slice 2 DIRSIZ de.
Definition mkdirent (ino : Z) (nm : list Z) : list Z := wr 2 0 ino ([0; 0] ++ strncpy_name nm DIRSIZ).

(** The entry at [off], read as [dirlookup] and [dirlink] do. *)
Definition read_dirent (dp : nat) (off : Z) (msg : string) : F (list Z) :=
  r ← readi dp None off (Z.of_nat DIRENT_SIZE);
  when (negb (r.1 =? Z.of_nat DIRENT_SIZE)) (fail (Panic msg));;
  mret (r.2).

(** The number of steps of 16 that [off] takes to pass [size]. *)
Definition dirents (size : Z) : nat := Z.to_nat ((size + 15) / 16).

Fixpoint dirlookup_loop (dp : nat) (nm : list Z) (off : Z) (n : nat) : F (option (nat * Z)) :=
  match n with
  | O => mret None
  | S n =>
      de ← read_dirent dp off "dirlookup read";
      if de_inum de =? 0 then dirlookup_loop dp nm (off + 16) n
      else if namecmp nm (de_name de) =? 0 then
        i ← geti dp;
        ip ← iget (idev i) (de_inum de);
        mret (Some (ip, off))
      else dirlookup_loop dp nm (off + 16) n
  end.

(** The inode found, with the offset [poff] receives. *)
Definition dirlookup (dp : nat) (nm : list Z) : F (option (nat * Z)) :=
  i ← geti dp;
  when (negb (itype i =? T_DIR)) (fail (Panic "dirlookup not DIR"));;
  dirlookup_loop dp nm 0 (dirents (isize i)).

Fixpoint dirlink_loop (dp : nat) (off : Z) (n : nat) : F Z :=
  match n with
  | O => mret off
  | S n =>
      de ← read_dirent dp off "dirlink read";
      if de_inum de =? 0 then mret off else dirlink_loop dp (off + 16) n
  end.

Definition dirlink (dp : nat) (nm : list Z) (ino : Z) : F Z :=
  r ← dirlookup dp nm;
  match r with
  | Some (ip, _) => iput ip;; mret (-1)
  | None =>
      i ← geti dp;
      off ← dirlink_loop dp 0 (dirents (isize i));
      r ← writei dp (KernSrc (mkdirent ino nm)) off (Z.of_nat DIRENT_SIZE);
      mret (if r =? Z.of_nat DIRENT_SIZE then 0 else -1)
  end.

(** ** Paths *)

Definition SLASH : Z := 47.

Fixpoint skip_slashes (path : list Z) : list Z :=
  match path with
  | c :: p => if c =? SLASH then skip_slashes p else path
  | [] => []
  end.

(** The element at the front of the path, and the rest. *)
Fixpoint span_elem (path : list Z) : list Z * list Z :=
  match path with
  | c :: p => if c =? SLASH then ([], path) else let '(e, r) := span_elem p in (c :: e, r)
  | [] => ([], [])
  end.

(** [path] is a string without its terminator, [nm] the contents of the buffer
    [name]; the result is the rest of the path and the new contents. *)
Definition skipelem (path nm : list Z) : option (list Z * list Z) :=
  let path := skip_slashes path in
  match path with
  | [] => None
  | _ =>
      let '(s, path) := span_elem path in
      let len := length s in
      let nm := if (DIRSIZ <=? len)%nat then overwrite 0 (take DIRSIZ s) nm
                else overwrite 0 (s ++ [0]) nm in
      Some (skip_slashes path, nm)
  end.

(** Every round takes a character off the path, so its length bounds the
    rounds. *)
Fixpoint namex_loop (fuel ip : nat) (path : list Z) (parent : bool) (nm : list Z)
    : F (option nat * list Z) :=
  match fuel with
  | O => fail NoFuel
  | S fuel =>
      match skipelem path nm with
      | None => if parent then iput ip;; mret (None, nm) else mret (Some ip, nm)
      | Some (path, nm) =>
          ilock ip;;
          i ← geti ip;
          if negb (itype i =? T_DIR) then iunlockput ip;; mret (None, nm)
          else if parent && bool_decide (path = []) then iunlock ip;; mret (Some ip, nm)
          else
            next ← dirlookup ip nm;
            match next with
            | None => iunlockput ip;; mret (None, nm)
            | Some (next, _) => iunlockput ip;; namex_loop fuel next path parent nm
            end
      end
  end.

Definition namex (path : list Z) (parent : bool) (nm : list Z) : F (option nat * list Z) :=
  ip ← (if hd 0 path =? SLASH then iget ROOTDEV ROOTINO
        else c ← gets fcwd; idup c);
  namex_loop (S (length path)) ip path parent nm.

Definition namei (path : list Z) : F (option nat) :=
  r ← namex path false (replicate DIRSIZ 0); mret (r.1).

Definition nameiparent (path nm : list Z) : F (option nat * list Z) := namex path true nm.
End code.
