(* ===== verification/FsView.v ===== *)
(** * A file system operation's view of the disk

    Between [begin_op] and [end_op] an operation sees the current contents of
    the blocks, the room it has left in the log, and the buffers it has locked.
    The lemmas here give each use of the cache and the log as a step of that
    view. *)
From S2P Require Import Prelude Mem Sleeplock Block Bio BioList BioSpec Log LogSpec Fs.
From stdpp Require Import functions list gmap.

#[local] Open Scope Z_scope.

(** The buffers left to the operation beside those pinned by the log. *)
Definition SPARE : nat := 3.

Section view.
Context {U : Type} `{UserMem U, Running} (dv st : Z).

(** [h] maps the buffers the process has locked to their blocks.  A buffer is
    referenced when it is locked or its block is in the log, and a block that
    is in neither is as on disk. *)
Record refs_ok (a : bview) (bl : list Z) (h : gmap nat Z) : Prop := {
  ro_ref : ∀ i r, refs a !! i = Some r →
    rcnt r = (if decide (rbn r ∈ bl) then 1 else 0) + (if h !! i then 1 else 0) ∧
    rlk r = (if h !! i then Some mypid else None) ∧ (rbn r ∈ bl ∨ h !! i = Some (rbn r));
  ro_held : ∀ i bn, h !! i = Some bn → ∃ r, refs a !! i = Some r ∧ rbn r = bn;
  ro_pins : ∀ b, b ∈ bl → ∃ i r, refs a !! i = Some r ∧ rbn r = b;
  ro_clean : ∀ i bn, h !! i = Some bn → bn ∉ bl → cur a bn = disk_read (dk a) bn }.

(** Current contents [C], room for [k] more blocks in the log, buffers [h]. *)
Definition txn (l : lgst) (C : Z → list Z) (k : nat) (h : gmap nat Z) : Prop :=
  ∃ a bl, rep dv (lbio l) a ∧ logok dv (llog l) bl ∧ refs_ok a bl h ∧ (∀ b, cur a b = C b) ∧
    (length bl + k + SPARE ≤ NBUF)%nat ∧ Z.of_nat (length bl + k) ≤ lsize (llog l) - 1 ∧
    1 ≤ outstanding (llog l) ∧ lstart (llog l) = st.

(** A block of the file system proper, outside the log. *)
Definition home (b : Z) : Prop := 0 ≤ b < 2 ^ 31 ∧ ¬ (st ≤ b ≤ st + LOGSIZE).

Definition with_flg (l : lgst) (s : fsst U) : fsst U := mkfs l (fsb s) (itlk s) (itab s) (fcwd s) (fuser s).

Lemma txn_ext l C C' k h : (∀ b, C b = C' b) → txn l C k h → txn l C' k h.
Proof.
  intros He (a & bl & H1 & H2 & H3 & H4 & H5). exists a, bl. split_and!; [done..| |apply H5|apply H5|apply H5|apply H5].
  intros b. by rewrite H4.
Qed.

Lemma txn_weaken l C k k' h : (k' ≤ k)%nat → txn l C k h → txn l C k' h.
Proof.
  intros He (a & bl & H1 & H2 & H3 & H4 & H5 & H6 & H7 & H8). exists a, bl. split_and!; [done..|lia|lia|done|done].
Qed.

Lemma buf_op_ok {A} (m : M bio A) (s : fsst U) r b' :
  m (lbio (flg s)) = Ok r b' → buf_op m s = Ok r (with_flg (mklg b' (llog (flg s))) s).
Proof. intros Hm. unfold buf_op, log_op, zoom. by rewrite (bio_op_ok _ _ _ _ Hm). Qed.

Lemma log_op_ok {A} (m : M lgst A) (s : fsst U) r l' : m (flg s) = Ok r l' → log_op m s = Ok r (with_flg l' s).
Proof. intros Hm. unfold log_op, zoom. by rewrite Hm. Qed.

Lemma with_flg_twice l l' s : with_flg l (with_flg l' s) = with_flg l s.
Proof. done. Qed.

(** ** Counting buffers *)

Lemma refs_size a bl h s :
  rep dv s a → refs_ok a bl h → (size (refs a) ≤ length bl + size h)%nat.
Proof.
  intros Hr Ho. rewrite <- (length_map_to_list (refs a)), <- (length_map_to_list h).
  rewrite <- (length_fmap (λ p, rbn p.2)), <- (length_fmap snd (map_to_list h)), <- length_app.
  apply submseteq_length, NoDup_submseteq.
  - apply NoDup_fmap_2_strong; [|apply NoDup_map_to_list]. intros [i r] [j r'] Hi%elem_of_map_to_list Hj%elem_of_map_to_list Hb.
    simpl in Hb. assert (i = j) as <- by (by apply (rep_refs_unique dv s a i j r r')). congruence.
  - intros b ([i r] & -> & Hi%elem_of_map_to_list)%list_elem_of_fmap. simpl. apply elem_of_app.
    destruct (ro_ref a bl h Ho i r Hi) as (_ & _ & [?|Hh]); [by left|right]. apply list_elem_of_fmap. exists (i, rbn r).
    split; [done|]. by apply elem_of_map_to_list.
Qed.

Lemma held_unref a bl h s bno :
  rep dv s a → refs_ok a bl h → (∀ i, h !! i ≠ Some bno) → bno ∉ bl → unref a bno.
Proof.
  intros Hr Ho Hh Hb i r Hi He. destruct (ro_ref a bl h Ho i r Hi) as (_ & _ & [?|?]); [congruence|]. apply (Hh i). congruence.
Qed.

(** ** The steps *)

Lemma refs_ok_lock a bl h b bno :
  refs_ok a bl h → h !! b = None → (∀ r, refs a !! b = Some r → rbn r = bno) →
  (bno ∉ bl → cur a bno = disk_read (dk a) bno) →
  refs_ok (with_ref a b (mkbref bno ((if decide (bno ∈ bl) then 1 else 0) + 1) (Some mypid))) bl (<[b := bno]> h).
Proof.
  intros Hf Hhb Hsame Hcl. split; simpl.
  - intros i r. destruct (decide (i = b)) as [->|Hne].
    + rewrite !lookup_insert_eq. intros [= <-]. simpl. auto.
    + rewrite !lookup_insert_ne by done. apply (ro_ref a bl h Hf).
  - intros i bn. destruct (decide (i = b)) as [->|Hne].
    + rewrite !lookup_insert_eq. intros [= <-]. eauto.
    + rewrite !lookup_insert_ne by done. apply (ro_held a bl h Hf).
  - intros b' Hb'. destruct (ro_pins a bl h Hf b' Hb') as (i & r & Hi & Hbi). destruct (decide (i = b)) as [->|Hne].
    + exists b. rewrite lookup_insert_eq. eexists. split; [done|]. simpl. rewrite <- Hbi. symmetry. by apply Hsame.
    + exists i, r. by rewrite lookup_insert_ne.
  - intros i bn. destruct (decide (i = b)) as [->|Hne].
    + rewrite lookup_insert_eq. by intros [= <-].
    + rewrite lookup_insert_ne by done. apply (ro_clean a bl h Hf).
Qed.

Lemma bread_t (s : fsst U) C k h bno :
  txn (flg s) C k h → (∀ i, h !! i ≠ Some bno) → (size h < SPARE)%nat →
  ∃ b l', buf_op (bread dv bno) s = Ok b (with_flg l' s) ∧ h !! b = None ∧ txn l' C k (<[b := bno]> h).
Proof.
  intros (a & bl & Hr & Ho & Hf & HC & Hk & Hsz & Hout & Hst) Hh Hs.
  assert (∀ b, (∀ r, refs a !! b = Some r → rbn r = bno) → h !! b = None) as Hhb.
  { intros b Hsame. destruct (h !! b) as [bn|] eqn:E; [|done]. destruct (ro_held a bl h Hf b bn E) as (r & Hr' & <-).
    destruct (Hh b). rewrite E. f_equal. by apply Hsame. }
  assert (∃ b s', (∀ r, refs a !! b = Some r → rbn r = bno) ∧ bread dv bno (lbio (flg s)) = Ok b s' ∧
    rep dv s' (with_ref a b (mkbref bno ((if decide (bno ∈ bl) then 1 else 0) + 1) (Some mypid)))) as (b & s' & Hsame & Hrun & Hr').
  { case_decide as Hb.
    - destruct (ro_pins a bl h Hf bno Hb) as (b & r & Hbr & Hbn). destruct (ro_ref a bl h Hf b r Hbr) as (Hc & Hl & _).
      assert (∀ r, refs a !! b = Some r → rbn r = bno) as Hsame by congruence.
      rewrite Hbn, decide_True, (Hhb b Hsame) in Hc by done. rewrite (Hhb b Hsame) in Hl.
      destruct (bread_shared dv (lbio (flg s)) a b r Hr Hbr Hl) as (s' & Hrun & Hr'); [lia|]. rewrite Hbn, Hc in *. eauto.
    - destruct (bread_fresh dv (lbio (flg s)) a bno Hr) as (b & s' & Hbn & Hrun & Hr'); [by eapply held_unref| |].
      + pose proof (refs_size a bl h _ Hr Hf). apply (free_buffer dv (lbio (flg s))); [done|]. unfold SPARE in *. lia.
      + exists b, s'. split_and!; [congruence|done..]. }
  exists b, (mklg s' (llog (flg s))). split_and!; [by apply buf_op_ok|by apply Hhb|].
  eexists _, bl. split_and!; [exact Hr'|done| |done..]. apply refs_ok_lock; [done|by apply Hhb|done|].
  intros Hb. apply (rep_clean dv _ a Hr). by eapply held_unref.
Qed.

Lemma getb_t (s : fsst U) C k h b bno :
  txn (flg s) C k h → h !! b = Some bno →
  ∃ x, buf_op (getb b) s = Ok x s ∧ data x = C bno ∧ blockno x = bno.
Proof.
  intros (a & bl & Hr & Ho & Hf & HC & _) Hb. destruct (ro_held a bl h Hf b bno Hb) as (r & Hbr & <-).
  destruct (getb_run dv (lbio (flg s)) a b r Hr Hbr) as (x & Hrun & [= _ _ Hbn _ _ Hd]). exists x.
  split_and!; [|by rewrite <- HC|done]. rewrite (buf_op_ok _ s x (lbio (flg s)) Hrun). destruct s as [[] ? ? ? ? ?]. done.
Qed.

Lemma refs_ok_unlock a bl h b r (a' : bview) :
  refs_ok a bl h → refs a !! b = Some r → cur a' = cur a → dk a' = dk a →
  (∀ i, i ≠ b → refs a' !! i = refs a !! i) →
  refs a' !! b = (if decide (rbn r ∈ bl) then Some (mkbref (rbn r) 1 None) else None) →
  refs_ok a' bl (delete b h).
Proof.
  intros Hf Hbr Hc Hd Hne Hb. split.
  - intros i r'. destruct (decide (i = b)) as [->|Hi].
    + rewrite Hb, lookup_delete_eq. case_decide; [|done]. intros [= <-]. simpl. rewrite decide_True by done. auto.
    + rewrite Hne, lookup_delete_ne by done. apply (ro_ref a bl h Hf).
  - intros i bn (Hi & Hh)%lookup_delete_Some. rewrite Hne by done. by apply (ro_held a bl h Hf).
  - intros b' Hb'. destruct (ro_pins a bl h Hf b' Hb') as (i & r' & Hi & Hbi). destruct (decide (i = b)) as [->|Hib].
    + exists b. assert (r' = r) as -> by congruence. rewrite Hb, decide_True by congruence. eexists. split; [done|]. done.
    + exists i, r'. by rewrite Hne.
  - intros i bn (Hi & Hh)%lookup_delete_Some. rewrite Hc, Hd. by apply (ro_clean a bl h Hf i).
Qed.

Lemma brelse_t (s : fsst U) C k h b bno :
  txn (flg s) C k h → h !! b = Some bno →
  ∃ l', buf_op (brelse b) s = Ok () (with_flg l' s) ∧ txn l' C k (delete b h).
Proof.
  intros (a & bl & Hr & Ho & Hf & HC & Hk & Hsz & Hout & Hst) Hb. destruct (ro_held a bl h Hf b bno Hb) as (r & Hbr & Hbn).
  destruct (ro_ref a bl h Hf b r Hbr) as (Hc & Hl & _). rewrite Hb in Hc, Hl.
  assert (∃ s' a', brelse b (lbio (flg s)) = Ok () s' ∧ rep dv s' a' ∧ cur a' = cur a ∧ dk a' = dk a ∧
    (∀ i, i ≠ b → refs a' !! i = refs a !! i) ∧
    refs a' !! b = (if decide (rbn r ∈ bl) then Some (mkbref (rbn r) 1 None) else None)) as (s' & a' & Hrun & Hr' & Hc' & Hd' & Hne & Hb').
  { case_decide as Hin.
    - destruct (brelse_shared dv (lbio (flg s)) a b r Hr Hbr Hl) as (s' & Hrun & Hr'); [lia|]. rewrite Hc in Hr'.
      eexists s', _. split_and!; [done..| |]; simpl; [intros; by rewrite lookup_insert_ne|by rewrite lookup_insert_eq].
    - destruct (brelse_last dv (lbio (flg s)) a b r Hr Hbr Hl) as (s' & Hrun & Hr'); [done|rewrite Hbn in *; by apply (ro_clean a bl h Hf b)|].
      eexists s', _. split_and!; [done..| |]; simpl; [intros; by rewrite lookup_delete_ne|by rewrite lookup_delete_eq]. }
  exists (mklg s' (llog (flg s))). split; [by apply buf_op_ok|]. exists a', bl. split_and!; [done|done| |by rewrite Hc'|done..].
  by eapply refs_ok_unlock.
Qed.

(** Changing the data of a locked buffer and logging the block. *)
Lemma update_t (s : fsst U) C k h b bno (f : list Z → list Z) :
  txn (flg s) C (S k) h → h !! b = Some bno → home bno →
  ∃ l1 l2, buf_op (setb b (λ x, set_data (f (data x)) x)) s = Ok () (with_flg l1 s) ∧
    log_op (log_write b) (with_flg l1 s) = Ok () (with_flg l2 s) ∧ txn l2 (<[bno := f (C bno)]> C) k h.
Proof.
  intros (a & bl & Hr & Ho & Hf & HC & Hk & Hsz & Hout & Hst) Hb [Hrg Hhome].
  destruct (ro_held a bl h Hf b bno Hb) as (r & Hbr & Hbn). destruct (ro_ref a bl h Hf b r Hbr) as (Hc & Hl & _). rewrite Hb in Hc, Hl.
  destruct (setdata_fun dv (lbio (flg s)) a b r f Hr Hbr) as (s1 & Hrun1 & Hr1). rewrite Hbn in *.
  set (a1 := with_cur a bno (f (cur a bno))) in *. set (l1 := mklg s1 (llog (flg s))). exists l1.
  assert (rcnt r + 1 < 2 ^ 32) as Hrc by (rewrite Hc; case_decide; lia).
  destruct (log_write_run dv l1 a1 bl b r Hr1 Ho Hbr Hrc) as (b2 & l2 & Hrun2 & (S1 & S2 & S3 & S4) & Hres);
    [rewrite Hbn; lia|unfold in_log; cbn [llog l1]; rewrite Hst, Hbn; done|unfold SPARE, NBUF in *; lia|cbn [llog l1]; lia|done|].
  exists (mklg b2 l2). split_and!; [by apply buf_op_ok|by apply (log_op_ok _ (with_flg l1 s))|].
  assert (∀ b', cur a1 b' = <[bno := f (C bno)]> C b') as HC1.
  { intros b'. simpl. rewrite HC. destruct (decide (b' = bno)) as [->|]; [by rewrite !fn_lookup_insert|by rewrite !fn_lookup_insert_ne]. }
  assert (∀ bl' : list Z, bno ∈ bl' → (∀ b, b ∈ bl' ↔ b ∈ bl ∨ b = bno) → ∀ i bn, h !! i = Some bn → bn ∉ bl' → cur a1 bn = disk_read (dk a) bn) as Hcl.
  { intros bl' _ Hbl i bn Hi Hn. simpl. rewrite fn_lookup_insert_ne by naive_solver. apply (ro_clean a bl h Hf i); naive_solver. }
  cbn [llog l1] in *. destruct Hres as [(Hin & Ho2 & Hr2)|(Hin & Ho2 & Hr2)]; rewrite Hbn in *.
  - exists a1, bl. split_and!; [done|done| |done|lia|cbn [llog]; lia|cbn [llog]; lia|cbn [llog]; congruence]. split; [apply Hf..|].
    apply (Hcl bl); [done|naive_solver].
  - eexists _, (bl ++ [bno]). rewrite length_app. split_and!; [done|done| |done|simpl; lia|cbn [llog length]; lia|cbn [llog]; lia|cbn [llog]; congruence].
    rewrite decide_False in Hc by done. split; simpl.
    + intros i r'. destruct (decide (i = b)) as [->|Hne].
      * rewrite lookup_insert_eq. intros [= <-]. simpl. rewrite decide_True, Hb by set_solver. split_and!; [lia|done|by right].
      * rewrite lookup_insert_ne by done. intros Hi. destruct (ro_ref a bl h Hf i r' Hi) as (H1 & H2 & H3).
        assert (rbn r' ≠ bno) by (intros He; apply Hne; apply (rep_refs_unique dv _ a i b r' r Hr Hi Hbr); congruence).
        split_and!; [|done|set_solver]. rewrite H1. f_equal. by apply decide_ext; set_solver.
    + intros i bn Hi. destruct (decide (i = b)) as [->|Hne].
      * rewrite lookup_insert_eq. eexists. split; [done|]. simpl. congruence.
      * rewrite lookup_insert_ne by done. by apply (ro_held a bl h Hf).
    + intros b' [Hb'|Hb'%list_elem_of_singleton]%elem_of_app.
      * destruct (ro_pins a bl h Hf b' Hb') as (i & r' & Hi & Hbi). exists i, r'. rewrite lookup_insert_ne by congruence. done.
      * exists b. rewrite lookup_insert_eq. eexists. split; [done|]. done.
    + apply (Hcl (bl ++ [bno])); set_solver.
Qed.
End view.
