(* ===== verification/FsAlloc.v ===== *)
(** * The block allocator

    [balloc] and [bfree] against the bitmap on disk: a block is [used] when its
    bit is set. *)
From S2P Require Import Prelude Mem Sleeplock Block Bio BioSpec Log LogSpec Fs FsView.
From stdpp Require Import functions list gmap.

#[local] Open Scope Z_scope.

(** ** Bits of a bitmap block *)

Lemma testbit_land x j : 0 ≤ j → negb (Z.land x (Z.shiftl 1 j) =? 0) = Z.testbit x j.
Proof.
  intros Hj. rewrite Z.shiftl_1_l. destruct (Z.eqb_spec (Z.land x (2 ^ j)) 0) as [He|He]; simpl.
  - assert (Z.testbit (Z.land x (2 ^ j)) j = false) as Hb by (rewrite He; apply Z.bits_0).
    rewrite Z.land_spec, Z.pow2_bits_true in Hb by done. by rewrite andb_true_r in Hb.
  - destruct (Z.testbit x j) eqn:Hb; [done|]. destruct He. apply Z.bits_inj'. intros k Hk.
    rewrite Z.land_spec, Z.bits_0, Z.pow2_bits_eqb by done. destruct (Z.eqb_spec j k) as [<-|]; [by rewrite Hb|by rewrite andb_false_r].
Qed.

(** A byte with bit [j] changed. *)
Lemma testbit_set x j (v : bool) k :
  0 ≤ j < 8 → 0 ≤ k < 8 →
  Z.testbit ((if v then Z.lor x (Z.shiftl 1 j) else Z.land x (Z.lnot (Z.shiftl 1 j))) `mod` 2 ^ 8) k =
  if k =? j then v else Z.testbit x k.
Proof.
  intros Hj Hk. rewrite Z.mod_pow2_bits_low by lia. rewrite Z.shiftl_1_l. destruct v.
  - rewrite Z.lor_spec, Z.pow2_bits_eqb, (Z.eqb_sym j k) by lia.
    destruct (k =? j); [apply orb_true_r|apply orb_false_r].
  - rewrite Z.land_spec, Z.lnot_spec, Z.pow2_bits_eqb, (Z.eqb_sym j k) by lia.
    destruct (k =? j); [apply andb_false_r|apply andb_true_r].
Qed.

Section bits.
Context (bs : list Z) (Hlen : Z.of_nat (length bs) = BSIZE).

Lemma length_put_bit bi v : 0 ≤ bi < BPB → length (put_bit bs bi v) = length bs.
Proof. intros Hb. apply length_wr. unfold BPB, BSIZE in *. assert (bi / 8 < 1024) by dlia. lia. Qed.

Lemma bit_set_put bi bj v :
  0 ≤ bi < BPB → 0 ≤ bj < BPB → bit_set (put_bit bs bi v) bj = if bj =? bi then v else bit_set bs bj.
Proof.
  intros Hi Hj. unfold bit_set, put_bit. rewrite !testbit_land by dlia. unfold BPB, BSIZE in *.
  assert (0 ≤ bi / 8 < 1024) as Hi8 by dlia. assert (0 ≤ bj / 8 < 1024) as Hj8 by dlia.
  destruct (decide (bi / 8 = bj / 8)) as [He|He].
  - rewrite He, rd_wr by lia. change (256 ^ Z.of_nat 1) with (2 ^ 8). rewrite testbit_set by dlia.
    destruct (Z.eqb_spec (bj `mod` 8) (bi `mod` 8)), (Z.eqb_spec bj bi); first [done|exfalso; dlia].
  - rewrite rd_wr_ne by lia. destruct (Z.eqb_spec bj bi) as [->|]; done.
Qed.

Lemma put_bit_bytes bi v : Forall is_byte bs → Forall is_byte (put_bit bs bi v).
Proof. apply Forall_wr. Qed.
End bits.

Lemma find_clear_spec bs bi n :
  match find_clear bs bi n with
  | Some j => bi ≤ j < bi + Z.of_nat n ∧ bit_set bs j = false ∧ ∀ i, bi ≤ i < j → bit_set bs i = true
  | None => ∀ i, bi ≤ i < bi + Z.of_nat n → bit_set bs i = true
  end.
Proof.
  revert bi; induction n as [|n IH]; intros bi; cbn [find_clear]; [lia|].
  destruct (bit_set bs bi) eqn:Hb; [|split_and!; [lia|lia|done|lia]]. specialize (IH (bi + 1)).
  destruct (find_clear bs (bi + 1) n) as [j|].
  - destruct IH as (H1 & H2 & H3). split_and!; [lia|lia|done|]. intros i Hi. destruct (decide (i = bi)) as [->|]; [done|]. apply H3. lia.
  - intros i Hi. destruct (decide (i = bi)) as [->|]; [done|]. apply IH. lia.
Qed.

(** ** Layout of the disk *)

(** Boot block, super block, log, inodes, bitmap, data: the order of kernel/fs.h. *)
Definition nbitmap (sb : superblock) : Z := (sb_size sb + BPB - 1) / BPB.
Definition dstart (sb : superblock) : Z := sb_bmapstart sb + nbitmap sb.
Definition ninodeblocks (sb : superblock) : Z := sb_ninodes sb / IPB + 1.

Record layout (st : Z) (sb : superblock) : Prop := {
  ly_log : 2 ≤ st;
  ly_inodes : st + LOGSIZE < sb_inodestart sb;
  ly_ninodes : 0 ≤ sb_ninodes sb < 2 ^ 16;
  ly_bmap : sb_inodestart sb + ninodeblocks sb ≤ sb_bmapstart sb;
  ly_data : dstart sb ≤ sb_size sb;
  ly_size : sb_size sb < 2 ^ 30 }.

(** Contents of the right shape. *)
Definition blockdata (bs : list Z) : Prop := Z.of_nat (length bs) = BSIZE ∧ Forall is_byte bs.
Definition blocks (C : Z → list Z) : Prop := ∀ b, blockdata (C b).

Lemma blocks_insert C b d : blocks C → blockdata d → blocks (<[b := d]> C).
Proof.
  intros Hc Hd b'. destruct (decide (b' = b)) as [->|]; [by rewrite fn_lookup_insert|by rewrite fn_lookup_insert_ne].
Qed.

Definition zeros : list Z := replicate (Z.to_nat BSIZE) 0.
Lemma blockdata_zeros : blockdata zeros.
Proof. split; [done|]. apply Forall_replicate. by vm_compute. Qed.

Section alloc.
Context {U : Type} `{UserMem U, Running} (dv st : Z) (sb : superblock) (Hly : layout st sb).

Definition used (C : Z → list Z) (b : Z) : bool := bit_set (C (BBLOCK b sb)) (b `mod` BPB).

(** The contents with the bit of block [b] changed. *)
Definition mark (C : Z → list Z) (b : Z) (v : bool) : Z → list Z :=
  <[BBLOCK b sb := put_bit (C (BBLOCK b sb)) (b `mod` BPB) v]> C.

Definition is_bitmap (b : Z) : Prop := sb_bmapstart sb ≤ b < dstart sb.

Lemma bblock b : 0 ≤ b < sb_size sb → BBLOCK b sb = b / BPB + sb_bmapstart sb ∧ is_bitmap (BBLOCK b sb).
Proof using Hly.
  intros Hb. destruct Hly as [H1 H2 H3 H4 H5 H6]. unfold BBLOCK, is_bitmap, dstart, nbitmap, ninodeblocks, LOGSIZE, MAXOPBLOCKS, BPB, BSIZE, IPB in *.
  assert (0 ≤ sb_ninodes sb / 16) by dlia.
  assert (0 ≤ b / (1024 * 8) < (sb_size sb + 1024 * 8 - 1) / (1024 * 8)) by dlia.
  rewrite wrap_small by lia. split; [done|lia].
Qed.

Lemma bitmap_home b : is_bitmap b → home st b.
Proof using Hly.
  intros Hb. destruct Hly as [H1 H2 H3 H4 H5 H6]. unfold home, is_bitmap, ninodeblocks, LOGSIZE, MAXOPBLOCKS, IPB in *.
  assert (0 ≤ sb_ninodes sb / 16) by dlia. lia.
Qed.

Lemma data_home b : dstart sb ≤ b < sb_size sb → home st b.
Proof using Hly.
  intros Hb. destruct Hly as [H1 H2 H3 H4 H5 H6].
  unfold home, dstart, nbitmap, ninodeblocks, LOGSIZE, MAXOPBLOCKS, IPB, BPB, BSIZE in *.
  assert (0 ≤ sb_ninodes sb / 16) by dlia. assert (0 ≤ (sb_size sb + 1024 * 8 - 1) / (1024 * 8)) by dlia. lia.
Qed.

Lemma used_mark C b v b' :
  blocks C → 0 ≤ b < sb_size sb → 0 ≤ b' < sb_size sb → used (mark C b v) b' = if b' =? b then v else used C b'.
Proof using Hly.
  intros HC Hb Hb'. unfold used, mark. destruct (bblock b Hb) as [E _], (bblock b' Hb') as [E' _].
  assert (0 < BPB) by done. pose proof (Z.mod_pos_bound b BPB). pose proof (Z.mod_pos_bound b' BPB).
  pose proof (Z.div_mod b BPB). pose proof (Z.div_mod b' BPB).
  destruct (decide (BBLOCK b' sb = BBLOCK b sb)) as [He|He].
  - rewrite He, fn_lookup_insert, bit_set_put by (try apply HC; lia).
    destruct (Z.eqb_spec (b' `mod` BPB) (b `mod` BPB)), (Z.eqb_spec b' b); first [done|exfalso; nia|congruence].
  - rewrite fn_lookup_insert_ne by done. destruct (Z.eqb_spec b' b) as [->|]; done.
Qed.

Lemma blocks_mark C b v : blocks C → blocks (mark C b v).
Proof using.
  clear Hly. intros HC. apply blocks_insert; [done|]. destruct (HC (BBLOCK b sb)) as [H1 H2].
  pose proof (Z.mod_pos_bound b BPB). split; [|by apply put_bit_bytes].
  rewrite length_put_bit; [done|done|]. apply Z.mod_pos_bound. done.
Qed.

(** ** Runs *)

Lemma gets_ok {A} (f : fsst U → A) s : gets f s = Ok (f s) s.
Proof. done. Qed.

Lemma not_held (h : gmap nat Z) (P : Z → Prop) b : (∀ i b, h !! i = Some b → ¬ P b) → P b → ∀ i, h !! i ≠ Some b.
Proof. intros Hh Hp i Hi. by apply (Hh i b). Qed.

(** Read a block, change it, log it, release it. *)
Lemma rmw_run (s : fsst U) C k h bno (f : list Z → list Z) :
  txn dv st (flg s) C (S k) h → (∀ i, h !! i ≠ Some bno) → (size h < SPARE)%nat → home st bno →
  ∃ b l1 l', buf_op (bread dv bno) s = Ok b (with_flg l1 s) ∧ h !! b = None ∧ txn dv st l1 C (S k) (<[b := bno]> h) ∧
    (∃ l2 l3, buf_op (setb b (λ x, set_data (f (data x)) x)) (with_flg l1 s) = Ok () (with_flg l2 s) ∧
      log_op (log_write b) (with_flg l2 s) = Ok () (with_flg l3 s) ∧
      buf_op (brelse b) (with_flg l3 s) = Ok () (with_flg l' s)) ∧
    txn dv st l' (<[bno := f (C bno)]> C) k h.
Proof using.
  clear Hly. intros Ht Hh Hsz Hhome. destruct (bread_t dv st s C (S k) h bno Ht Hh Hsz) as (b & l1 & Hrun1 & Hb & Ht1).
  destruct (update_t dv st (with_flg l1 s) C k _ b bno f Ht1) as (l2 & l3 & Hrun2 & Hrun3 & Ht3); [by rewrite lookup_insert_eq|done|].
  destruct (brelse_t dv st (with_flg l3 s) _ k _ b bno Ht3) as (l4 & Hrun4 & Ht4); [by rewrite lookup_insert_eq|].
  exists b, l1, l4. split_and!; [done|done|done| |by rewrite delete_insert_id in Ht4]. exists l2, l3. done.
Qed.

Lemma bzero_run (s : fsst U) C k h bno :
  txn dv st (flg s) C (S k) h → (∀ i, h !! i ≠ Some bno) → (size h < SPARE)%nat → home st bno →
  ∃ l', bzero dv bno s = Ok () (with_flg l' s) ∧ txn dv st l' (<[bno := zeros]> C) k h.
Proof using.
  clear Hly. intros Ht Hh Hsz Hhome.
  destruct (rmw_run s C k h bno (λ _, zeros) Ht Hh Hsz Hhome) as (b & l1 & l4 & Hrun1 & _ & _ & (l2 & l3 & Hrun2 & Hrun3 & Hrun4) & Ht').
  exists l4. split; [|done]. unfold bzero. runs Hrun1.
  change (set_data (replicate (Z.to_nat BSIZE) 0)) with (λ x, set_data ((λ _ : list Z, zeros) (data x)) x).
  runs Hrun2. runs Hrun3. exact Hrun4.
Qed.

(** The blocks before the data are used, bitmap blocks among them. *)
Definition meta_used (C : Z → list Z) : Prop := ∀ b, 0 ≤ b < dstart sb → used C b = true.

(** What [balloc] leaves: block [r] marked and zeroed. *)
Definition allocated (C : Z → list Z) (r : Z) : Z → list Z := <[r := zeros]> (mark C r true).

(** The first free block. *)
Definition first_free (C : Z → list Z) (r : Z) : Prop :=
  0 ≤ r < sb_size sb ∧ used C r = false ∧ ∀ b, 0 ≤ b < r → used C b = true.

(** The buffers of [h] hold neither bitmap nor free blocks. *)
Definition held_ok (C : Z → list Z) (h : gmap nat Z) : Prop :=
  (size h < SPARE)%nat ∧ ∀ i b, h !! i = Some b → ¬ is_bitmap b ∧ used C b = true.

Lemma free_data C r : meta_used C → first_free C r → dstart sb ≤ r < sb_size sb.
Proof using.
  intros Hm ([Hr1 Hr2] & Hu & _). split; [|done]. destruct (decide (r < dstart sb)); [|lia].
  rewrite Hm in Hu by lia. done.
Qed.

(** The block [b + bi] is the [bi]th of the group that starts at [b]. *)
Lemma group_bit b bi : 0 ≤ bi < BPB → b `mod` BPB = 0 → (b + bi) / BPB = b / BPB ∧ (b + bi) `mod` BPB = bi.
Proof using. clear Hly. intros Hb Hm. unfold BPB, BSIZE in *. split; dlia. Qed.

Lemma balloc_loop_run n b (s : fsst U) C k h :
  fsb s = sb → txn dv st (flg s) C (S (S k)) h → blocks C → meta_used C → held_ok C h →
  0 ≤ b → b `mod` BPB = 0 → Z.of_nat n = (sb_size sb - b + BPB - 1) / BPB → (∀ b', 0 ≤ b' < Z.min b (sb_size sb) → used C b' = true) →
  ∃ r l', balloc_loop dv b n s = Ok r (with_flg l' s) ∧
    ((r = 0 ∧ (∀ b, 0 ≤ b < sb_size sb → used C b = true) ∧ txn dv st l' C (S (S k)) h) ∨
     (first_free C r ∧ txn dv st l' (allocated C r) k h)).
Proof using Hly.
  revert b s; induction n as [|n IH]; intros b s Hsb Ht HC Hm [Hsz Hh] Hb Hmod Hn Hused.
  { exists 0, (flg s). split; [by destruct s|]. left. split_and!; [done| |done]. intros b' Hb'. apply Hused. unfold BPB, BSIZE in *. dlia. }
  cbn [balloc_loop]. runs gets_ok. rewrite Hsb.
  assert (b < sb_size sb) as Hlt by (unfold BPB, BSIZE in *; dlia). destruct (bblock b) as [Ebb Hbm]; [lia|].
  destruct (bread_t dv st s C _ h (BBLOCK b sb) Ht) as (bp & l1 & Hrun1 & Hbp & Ht1).
  { apply (not_held h is_bitmap); [|done]. intros i b' Hi. apply (Hh i b' Hi). }
  { unfold SPARE in *. lia. }
  runs Hrun1. destruct (getb_t dv st (with_flg l1 s) C _ _ bp (BBLOCK b sb) Ht1) as (x & Hgx & Hx & _); [by rewrite lookup_insert_eq|].
  runs Hgx. rewrite Hx. pose proof (find_clear_spec (C (BBLOCK b sb)) 0 (Z.to_nat (Z.min BPB (sb_size sb - b)))) as Hfc.
  assert (∀ bi, 0 ≤ bi < Z.min BPB (sb_size sb - b) → used C (b + bi) = bit_set (C (BBLOCK b sb)) bi ∧ BBLOCK (b + bi) sb = BBLOCK b sb) as Hgrp.
  { intros bi Hbi. unfold used. destruct (group_bit b bi) as [E1 E2]; [lia|done|]. destruct (bblock (b + bi)) as [E3 _]; [lia|].
    rewrite E2, E3, Ebb, E1. done. }
  destruct (find_clear _ _ _) as [bi|].
  - destruct Hfc as (Hbi & Hclr & Hbef). destruct (Hgrp bi) as [Hu Ebi]; [lia|].
    assert (first_free C (b + bi)) as Hff.
    { split_and!; [lia|lia|congruence|]. intros b' Hb'. destruct (decide (b' < b)); [apply Hused; lia|].
      replace b' with (b + (b' - b)) by lia. destruct (Hgrp (b' - b)) as [-> _]; [lia|]. apply Hbef. lia. }
    destruct (update_t dv st (with_flg l1 s) C (S k) _ bp (BBLOCK b sb) (λ d, put_bit d bi true) Ht1) as (l2 & l3 & Hrun2 & Hrun3 & Ht3);
      [by rewrite lookup_insert_eq|by apply bitmap_home|].
    runs Hrun2. runs Hrun3. destruct (brelse_t dv st (with_flg l3 s) _ _ _ bp (BBLOCK b sb) Ht3) as (l4 & Hrun4 & Ht4); [by rewrite lookup_insert_eq|].
    runs Hrun4. rewrite delete_insert_id in Ht4 by done.
    destruct (bzero_run (with_flg l4 s) _ k h (b + bi) Ht4) as (l5 & Hrun5 & Ht5).
    + intros i Hi. destruct (Hh i _ Hi) as [_ ?]. destruct Hff as (_ & ? & _). congruence.
    + done.
    + apply data_home. by eapply free_data.
    + runs Hrun5. exists (b + bi), l5. split; [done|]. right. split; [done|]. revert Ht5. unfold allocated, mark. rewrite Ebi.
      destruct (group_bit b bi) as [_ ->]; [lia|done|]. done.
  - destruct (brelse_t dv st (with_flg l1 s) _ _ _ bp (BBLOCK b sb) Ht1) as (l2 & Hrun2 & Ht2); [by rewrite lookup_insert_eq|].
    rewrite delete_insert_id in Ht2 by done. runs Hrun2.
    destruct (IH (b + BPB) (with_flg l2 s)) as (r & l' & Hrun & Hres); [done|done|done|done|done|unfold BPB, BSIZE; lia| | | |by exists r, l'].
    + unfold BPB, BSIZE in *. dlia.
    + unfold BPB, BSIZE in *. dlia.
    + intros b' Hb'. destruct (decide (b' < b)); [apply Hused; lia|].
      replace b' with (b + (b' - b)) by lia. destruct (Hgrp (b' - b)) as [-> _]; [lia|]. apply Hfc. lia.
Qed.

Lemma balloc_run (s : fsst U) C k h :
  fsb s = sb → txn dv st (flg s) C (S (S k)) h → blocks C → meta_used C → held_ok C h →
  ∃ r l', balloc dv s = Ok r (with_flg l' s) ∧
    ((r = 0 ∧ (∀ b, 0 ≤ b < sb_size sb → used C b = true) ∧ txn dv st l' C (S (S k)) h) ∨
     (first_free C r ∧ txn dv st l' (allocated C r) k h)).
Proof using Hly.
  intros Hsb Ht HC Hm Hh. unfold balloc. runs gets_ok. rewrite Hsb.
  assert (0 ≤ sb_size sb) as Hsz by (pose proof (data_home (dstart sb)); destruct Hly; unfold dstart, nbitmap, ninodeblocks, LOGSIZE, MAXOPBLOCKS, BPB, BSIZE, IPB in *; dlia).
  apply balloc_loop_run; [done|done|done|done|done|lia|done| |lia].
  rewrite Z2Nat.id; [f_equal; lia|]. unfold BPB, BSIZE. dlia.
Qed.

Lemma bfree_run (s : fsst U) C k h b :
  fsb s = sb → txn dv st (flg s) C (S k) h → held_ok C h → 0 ≤ b < sb_size sb → used C b = true →
  ∃ l', bfree dv b s = Ok () (with_flg l' s) ∧ txn dv st l' (mark C b false) k h.
Proof using Hly.
  intros Hsb Ht [Hsz Hh] Hb Hu. unfold bfree. runs gets_ok. rewrite Hsb. destruct (bblock b Hb) as [_ Hbm].
  destruct (rmw_run s C k h (BBLOCK b sb) (λ d, put_bit d (b `mod` BPB) false) Ht) as (bp & l1 & l4 & Hrun1 & Hbp & Ht1 & (l2 & l3 & Hrun2 & Hrun3 & Hrun4) & Ht').
  - apply (not_held h is_bitmap); [|done]. intros i b' Hi. apply (Hh i b' Hi).
  - done.
  - by apply bitmap_home.
  - exists l4. split; [|done]. runs Hrun1.
    destruct (getb_t dv st (with_flg l1 s) C _ _ bp (BBLOCK b sb) Ht1) as (x & Hgx & Hx & _); [by rewrite lookup_insert_eq|].
    runs Hgx. rewrite Hx. change (bit_set (C (BBLOCK b sb)) (b `mod` BPB)) with (used C b). rewrite Hu. cbn [negb when]. rewrite ret_bind.
    runs Hrun2. runs Hrun3. exact Hrun4.
Qed.

Lemma bfree_panics (s : fsst U) C k h b :
  fsb s = sb → txn dv st (flg s) C k h → held_ok C h → 0 ≤ b < sb_size sb → used C b = false →
  bfree dv b s = Err (Panic "freeing free block").
Proof using Hly.
  intros Hsb Ht [Hsz Hh] Hb Hu. unfold bfree. runs gets_ok. rewrite Hsb. destruct (bblock b Hb) as [_ Hbm].
  destruct (bread_t dv st s C _ h (BBLOCK b sb) Ht) as (bp & l1 & Hrun1 & Hbp & Ht1).
  { apply (not_held h is_bitmap); [|done]. intros i b' Hi. apply (Hh i b' Hi). }
  { done. }
  runs Hrun1. destruct (getb_t dv st (with_flg l1 s) C _ _ bp (BBLOCK b sb) Ht1) as (x & Hgx & Hx & _); [by rewrite lookup_insert_eq|].
  runs Hgx. rewrite Hx. change (bit_set (C (BBLOCK b sb)) (b `mod` BPB)) with (used C b). by rewrite Hu.
Qed.
End alloc.
