(* ===== verification/FsInode.v ===== *)
(** * Inodes on disk and in the table

    The encoding of an inode in its block, the runs of [iupdate] and [ilock],
    and the operations on one entry of the inode table. *)
From S2P Require Import Prelude Mem Sleeplock Block Bio BioSpec Log LogSpec Fs FsView FsAlloc.
From stdpp Require Import functions list gmap.

#[local] Open Scope Z_scope.

(** ** The encoding *)

(** Lengths of blocks under writes. *)
Ltac wrlen := repeat rewrite length_wr by wrlen; lia.

Lemma length_put_addrs al o bs : (o + 4 * length al ≤ length bs)%nat → length (put_addrs o al bs) = length bs.
Proof.
  revert o bs; induction al as [|a al IH]; intros o bs Hl; simpl in *; [done|].
  rewrite IH; rewrite length_wr; lia.
Qed.

Lemma put_addrs_ne al o bs w o' :
  (o + 4 * length al ≤ length bs)%nat → (o' + w ≤ o ∨ o + 4 * length al ≤ o')%nat →
  rd w o' (put_addrs o al bs) = rd w o' bs.
Proof.
  revert o bs; induction al as [|a al IH]; intros o bs Hl Hd; simpl in *; [done|].
  rewrite IH by (rewrite ?length_wr; lia). apply rd_wr_ne; lia.
Qed.

Lemma put_addrs_get al o bs k a :
  (o + 4 * length al ≤ length bs)%nat → al !! k = Some a → 0 ≤ a < 2 ^ 32 → rd 4 (o + 4 * k) (put_addrs o al bs) = a.
Proof.
  revert o bs k; induction al as [|a' al IH]; intros o bs k Hl Hk Ha; [done|]. cbn [put_addrs length] in *. destruct k as [|k]; simpl in Hk.
  - injection Hk as ->. replace (o + 4 * 0)%nat with o by lia. rewrite put_addrs_ne by (rewrite ?length_wr; lia).
    rewrite rd_wr by lia. change (256 ^ Z.of_nat 4) with (2 ^ 32). by apply Z.mod_small.
  - replace (o + 4 * S k)%nat with (o + 4 + 4 * k)%nat by lia. apply IH; [rewrite length_wr; lia|done|done].
Qed.

Lemma Forall_put_addrs al o bs : Forall is_byte bs → Forall is_byte (put_addrs o al bs).
Proof. revert o bs; induction al as [|a al IH]; intros o bs Hb; simpl; [done|]. by apply IH, Forall_wr. Qed.

(** An inode whose fields fit their C types. *)
Record inode_fits (i : inode) : Prop := {
  if_type : - 2 ^ 15 ≤ itype i < 2 ^ 15;
  if_major : - 2 ^ 15 ≤ imajor i < 2 ^ 15;
  if_minor : - 2 ^ 15 ≤ iminor i < 2 ^ 15;
  if_nlink : - 2 ^ 15 ≤ inlink i < 2 ^ 15;
  if_size : 0 ≤ isize i < 2 ^ 32;
  if_addrs : length (iaddrs i) = S NDIRECT ∧ Forall (λ a, 0 ≤ a < 2 ^ 32) (iaddrs i) }.

Lemma s16_mod v : - 2 ^ 15 ≤ v < 2 ^ 15 → s16 (v `mod` 256 ^ Z.of_nat 2) = v.
Proof. intros Hv. unfold swrap. change (256 ^ Z.of_nat 2) with 65536. change (2 ^ 16) with 65536. change (2 ^ (16 - 1)) with 32768. dlia. Qed.

(** What the disk inode at [o] says, in the fields of an inode. *)
Definition of_disk (o : nat) (bs : list Z) (i : inode) : inode :=
  mkinode (idev i) (inum i) (iref i) (ilk i) (ivalid i) (di_type o bs) (di_major o bs) (di_minor o bs) (di_nlink o bs)
    (di_size o bs) (di_addrs o bs).

(** The fields that live on disk. *)
Definition disk_fields (i : inode) : Z * Z * Z * Z * Z * list Z :=
  (itype i, imajor i, iminor i, inlink i, isize i, iaddrs i).

Lemma length_put_dinode o i bs :
  inode_fits i → (o + DINODE_SIZE ≤ length bs)%nat → length (put_dinode o i bs) = length bs.
Proof.
  intros Hi Ho. destruct (if_addrs i Hi) as [Hl _]. unfold put_dinode, DINODE_SIZE, NDIRECT in *.
  rewrite length_put_addrs; rewrite ?Hl; wrlen.
Qed.

Lemma put_dinode_bytes o i bs : Forall is_byte bs → Forall is_byte (put_dinode o i bs).
Proof. intros Hb. unfold put_dinode. apply Forall_put_addrs. by repeat apply Forall_wr. Qed.

(** Another inode of the block is not touched. *)
Lemma put_dinode_ne o i bs w o' :
  inode_fits i → (o + DINODE_SIZE ≤ length bs)%nat → (o' + w ≤ o ∨ o + DINODE_SIZE ≤ o')%nat →
  rd w o' (put_dinode o i bs) = rd w o' bs.
Proof.
  intros Hi Ho Hd. destruct (if_addrs i Hi) as [Hl _]. unfold put_dinode, DINODE_SIZE, NDIRECT in *.
  rewrite put_addrs_ne by (rewrite ?Hl; wrlen). rewrite !rd_wr_ne by wrlen. done.
Qed.

(** What is written is read back. *)
Lemma dinode_roundtrip o i bs j :
  inode_fits i → (o + DINODE_SIZE ≤ length bs)%nat → disk_fields (of_disk o (put_dinode o i bs) j) = disk_fields i.
Proof.
  intros Hi Ho. destruct (if_addrs i Hi) as [Hl Ha]. unfold DINODE_SIZE, NDIRECT in *.
  assert (di_addrs o (put_dinode o i bs) = iaddrs i) as Eaddr.
  { apply list_eq. intros k. unfold di_addrs. rewrite list_lookup_fmap. unfold NDIRECT. destruct (decide (k < 13)%nat) as [Hk|Hk].
    - rewrite lookup_seq_lt by done. simpl. destruct (lookup_lt_is_Some_2 (iaddrs i) k) as [a Hka]; [lia|]. rewrite Hka. f_equal.
      unfold di_addr, put_dinode. apply put_addrs_get; [rewrite Hl; wrlen|done|]. by apply (Forall_lookup_1 _ _ _ _ Ha Hka).
    - rewrite lookup_seq_ge by lia. symmetry. apply lookup_ge_None. lia. }
  unfold disk_fields, of_disk. simpl. rewrite Eaddr. clear Eaddr. unfold di_type, di_major, di_minor, di_nlink, di_size, put_dinode.
  rewrite !put_addrs_ne by (rewrite ?Hl; wrlen).
  assert (∀ w o' v bs', (o' + w ≤ length bs)%nat → length bs' = length bs → rd w o' (wr w o' v bs') = v `mod` 256 ^ Z.of_nat w) as Hsame
    by (intros; apply rd_wr; lia).
  assert (∀ w o' v w' o'' bs', (o' + w ≤ length bs)%nat → length bs' = length bs → (o'' + w' ≤ o' ∨ o' + w ≤ o'')%nat → rd w' o'' (wr w o' v bs') = rd w' o'' bs') as Hdiff
    by (intros; apply rd_wr_ne; lia).
  repeat first [rewrite Hsame by wrlen|rewrite Hdiff by wrlen].
  destruct Hi as [H1 H2 H3 H4 H5 _]. rewrite !s16_mod by done. change (256 ^ Z.of_nat 4) with (2 ^ 32). by rewrite Z.mod_small.
Qed.

(** ** One entry of the table *)

Section inode.
Context {U : Type} `{UserMem U, Running} (dv st : Z) (sb : superblock) (Hly : layout st sb).

Definition with_inode (ip : nat) (i : inode) (s : fsst U) : fsst U :=
  mkfs (flg s) (fsb s) (itlk s) (<[ip := i]> (itab s)) (fcwd s) (fuser s).

Lemma geti_ok ip i (s : fsst U) : itab s !! ip = Some i → geti ip s = Ok i s.
Proof. intros Hi. unfold geti, gets, mbind, M_bind. by rewrite Hi. Qed.

Lemma seti_ok ip f i (s : fsst U) : itab s !! ip = Some i → seti ip f s = Ok () (with_inode ip (f i) s).
Proof. intros Hi. unfold seti. runs (geti_ok ip i s Hi). done. Qed.

Definition is_inodeblock (b : Z) : Prop := sb_inodestart sb ≤ b < sb_bmapstart sb.

Lemma iblock ino : 0 ≤ ino < sb_ninodes sb → IBLOCK ino sb = ino / IPB + sb_inodestart sb ∧ is_inodeblock (IBLOCK ino sb).
Proof using Hly.
  intros Hi. destruct Hly as [H1 H2 H3 H4 H5 H6]. unfold IBLOCK, is_inodeblock, dstart, nbitmap, ninodeblocks, LOGSIZE, MAXOPBLOCKS, BPB, BSIZE, IPB in *.
  assert (0 ≤ ino / 16 ≤ sb_ninodes sb / 16) by dlia.
  assert (0 ≤ (sb_size sb + 1024 * 8 - 1) / (1024 * 8)) by dlia. rewrite wrap_small by lia. lia.
Qed.

Lemma inodeblock_home b : is_inodeblock b → home st b.
Proof using Hly.
  intros Hb. destruct Hly as [H1 H2 H3 H4 H5 H6]. unfold home, is_inodeblock, dstart, nbitmap, ninodeblocks, LOGSIZE, MAXOPBLOCKS, IPB, BPB, BSIZE in *.
  assert (0 ≤ (sb_size sb + 1024 * 8 - 1) / (1024 * 8)) by dlia. lia.
Qed.

Lemma dinode_off_ok ino bs : blockdata bs → 0 ≤ ino → (dinode_off ino + DINODE_SIZE ≤ length bs)%nat.
Proof using.
  clear Hly. intros [Hl _] Hi. unfold dinode_off, DINODE_SIZE, IPB, BSIZE in *. assert (0 ≤ ino `mod` 16 < 16) by dlia. lia.
Qed.

(** The contents after [iupdate]. *)
Definition updated (C : Z → list Z) (i : inode) : Z → list Z :=
  <[IBLOCK (inum i) sb := put_dinode (dinode_off (inum i)) i (C (IBLOCK (inum i) sb))]> C.

Lemma iupdate_run (s : fsst U) C k h ip i :
  fsb s = sb → txn dv st (flg s) C (S k) h → (size h < SPARE)%nat → (∀ n, h !! n ≠ Some (IBLOCK (inum i) sb)) →
  itab s !! ip = Some i → idev i = dv → 0 ≤ inum i < sb_ninodes sb →
  ∃ l', iupdate ip s = Ok () (with_flg l' s) ∧ txn dv st l' (updated C i) k h.
Proof using Hly.
  intros Hsb Ht Hsz Hh Hi Hd Hn. destruct (iblock (inum i) Hn) as [_ Hib].
  destruct (rmw_run dv st s C k h (IBLOCK (inum i) sb) (put_dinode (dinode_off (inum i)) i) Ht Hh Hsz) as (bp & l1 & l4 & Hrun1 & _ & _ & (l2 & l3 & Hrun2 & Hrun3 & Hrun4) & Ht').
  { by apply inodeblock_home. }
  exists l4. split; [|done]. unfold iupdate. runs (geti_ok ip i s Hi). runs gets_ok. rewrite Hsb, Hd. runs Hrun1.
  runs (geti_ok ip i) by exact Hi. runs Hrun2. runs Hrun3. exact Hrun4.
Qed.

Lemma acquiresleep_i_run (s : fsst U) ip i :
  itab s !! ip = Some i → slocked (ilk i) = false →
  acquiresleep_i ip s = Ok () (with_inode ip (set_ilk (mksleeplock true mypid) i) s).
Proof using.
  clear Hly. intros Hi Hl. unfold acquiresleep_i. runs (geti_ok ip i s Hi). unfold acquiresleep, try_acquiresleep. rewrite Hl.
  rewrite ret_bind. by apply seti_ok.
Qed.

Lemma with_inode_twice ip i i' (s : fsst U) : with_inode ip i (with_inode ip i' s) = with_inode ip i s.
Proof. unfold with_inode. simpl. by rewrite list_insert_insert_eq. Qed.

Lemma with_inode_lookup ip i i0 (s : fsst U) : itab s !! ip = Some i0 → itab (with_inode ip i s) !! ip = Some i.
Proof. intros Hi. simpl. apply list_lookup_insert_eq. by eapply lookup_lt_Some. Qed.

(** What [ilock] leaves in the entry. *)
Definition locked (C : Z → list Z) (i : inode) : inode :=
  set_ilk (mksleeplock true mypid)
    (if ivalid i then i else set_ivalid true (of_disk (dinode_off (inum i)) (C (IBLOCK (inum i) sb)) i)).

Lemma ilock_run (s : fsst U) C k h ip i :
  fsb s = sb → txn dv st (flg s) C k h → (size h < SPARE)%nat → (∀ n, h !! n ≠ Some (IBLOCK (inum i) sb)) →
  itab s !! ip = Some i → 1 ≤ iref i → slocked (ilk i) = false → idev i = dv → itype (locked C i) ≠ 0 →
  ∃ l', ilock ip s = Ok () (with_flg l' (with_inode ip (locked C i) s)) ∧ txn dv st l' C k h.
Proof using.
  clear Hly. intros Hsb Ht Hsz Hh Hi Hr Hl Hd Hty. unfold ilock. runs (geti_ok ip i s Hi).
  destruct (Z.ltb_spec (iref i) 1); [lia|]. cbn [when]. rewrite ret_bind. runs (acquiresleep_i_run s ip i Hi Hl).
  set (i1 := set_ilk (mksleeplock true mypid) i). set (s1 := with_inode ip i1 s).
  assert (itab s1 !! ip = Some i1) as Hi1 by (by eapply with_inode_lookup). runs (geti_ok ip i1 s1 Hi1). unfold locked in *.
  change (ivalid i1) with (ivalid i). destruct (ivalid i) eqn:Hv; cbn [negb when].
  - exists (flg s). split; [by destruct s|done].
  - runs gets_ok. change (fsb s1) with (fsb s). rewrite Hsb. change (idev i1) with (idev i). rewrite Hd. change (inum i1) with (inum i).
    destruct (bread_t dv st s1 C k h (IBLOCK (inum i) sb) Ht Hh Hsz) as (b & l1 & Hrun1 & Hb & Ht1). runs Hrun1.
    destruct (getb_t dv st (with_flg l1 s1) C _ _ b (IBLOCK (inum i) sb) Ht1) as (x & Hgx & Hx & _); [by rewrite lookup_insert_eq|]. runs Hgx. rewrite Hx.
    runs (seti_ok ip _ i1) by exact Hi1. match goal with |- context [with_inode ip ?j _] => set (i2 := j) end.
    set (s2 := with_inode ip i2 (with_flg l1 s1)).
    destruct (brelse_t dv st s2 C k _ b (IBLOCK (inum i) sb) Ht1) as (l2 & Hrun2 & Ht2); [by rewrite lookup_insert_eq|]. runs Hrun2.
    rewrite delete_insert_id in Ht2 by done. set (s3 := with_flg l2 s2).
    assert (itab s3 !! ip = Some i2) as Hi3 by (by eapply (with_inode_lookup ip i2 i1)).
    runs (seti_ok ip _ i2 s3 Hi3). set (s4 := with_inode ip (set_ivalid true i2) s3).
    assert (itab s4 !! ip = Some (set_ivalid true i2)) as Hi4 by (by eapply with_inode_lookup). runs (geti_ok ip _ s4 Hi4).
    change (itype (set_ivalid true i2)) with (di_type (dinode_off (inum i)) (C (IBLOCK (inum i) sb))).
    destruct (Z.eqb_spec (di_type (dinode_off (inum i)) (C (IBLOCK (inum i) sb))) 0) as [He|_]; [by destruct Hty|].
    exists l2. split; [|done]. unfold s4, s3, s2, s1, with_inode, with_flg. simpl. by rewrite !list_insert_insert_eq.
Qed.
End inode.
