(* ===== verification/FsFile.v ===== *)
(** * The blocks of a file

    [bmap] as a map from block numbers in the file to disk blocks that only
    grows: the blocks a file has stay where they are, and a new one was free. *)
From S2P Require Import Prelude Mem Sleeplock Block Bio BioSpec Log LogSpec Fs FsView FsAlloc FsInode.
From stdpp Require Import functions list gmap.

#[local] Open Scope Z_scope.

Definition NBLOCKS : nat := NDIRECT + NINDIRECT.

(** The indirect block of a file, and the disk block of its [n]th block; 0 when
    there is none. *)
Definition ind (i : inode) : Z := iaddrs i !!! NDIRECT.
Definition addr_of (C : Z → list Z) (i : inode) (n : nat) : Z :=
  if (n <? NDIRECT)%nat then iaddrs i !!! n
  else if ind i =? 0 then 0 else rd 4 (4 * (n - NDIRECT)) (C (ind i)).

(** A disk block that belongs to the file. *)
Definition owns (C : Z → list Z) (i : inode) (b : Z) : Prop :=
  b ≠ 0 ∧ (b = ind i ∨ ∃ n, (n < NBLOCKS)%nat ∧ addr_of C i n = b).

Definition with_addrs (al : list Z) (i : inode) : inode :=
  mkinode (idev i) (inum i) (iref i) (ilk i) (ivalid i) (itype i) (imajor i) (iminor i) (inlink i) (isize i) al.

Section file.
Context {U : Type} `{UserMem U, Running} (dv st : Z) (sb : superblock) (Hly : layout st sb).

Abbreviation used := (used sb).
Abbreviation is_bitmap := (is_bitmap sb).

Definition data_block (C : Z → list Z) (b : Z) : Prop := dstart sb ≤ b < sb_size sb ∧ used C b = true.

Record file_ok (C : Z → list Z) (i : inode) : Prop := {
  fo_len : length (iaddrs i) = S NDIRECT;
  fo_ind : ind i ≠ 0 → data_block C (ind i);
  fo_addr : ∀ n, (n < NBLOCKS)%nat → addr_of C i n ≠ 0 → data_block C (addr_of C i n) ∧ addr_of C i n ≠ ind i;
  fo_inj : ∀ n m, (n < NBLOCKS)%nat → (m < NBLOCKS)%nat → addr_of C i n ≠ 0 → addr_of C i n = addr_of C i m → n = m;
  fo_size : 0 ≤ isize i ≤ MAXFILE * BSIZE;
  fo_full : ∀ n, Z.of_nat n * BSIZE < isize i → addr_of C i n ≠ 0 }.

Lemma owns_data C i b : file_ok C i → owns C i b → data_block C b.
Proof using.
  intros Hf [Hb [->|(n & Hn & <-)]]; [by apply (fo_ind C i Hf)|]. by apply (fo_addr C i Hf).
Qed.

(** How a file and the disk change while blocks are added to the file. *)
Record ext (C : Z → list Z) (i : inode) (C' : Z → list Z) (i' : inode) : Prop := {
  x_inode : i' = with_addrs (iaddrs i') i;
  x_addr : ∀ n, (n < NBLOCKS)%nat → addr_of C i n ≠ 0 → addr_of C' i' n = addr_of C i n;
  x_data : ∀ n, (n < NBLOCKS)%nat → addr_of C i n ≠ 0 → C' (addr_of C i n) = C (addr_of C i n);
  x_own : ∀ b, owns C' i' b → owns C i b ∨ used C b = false;
  x_used : ∀ b, 0 ≤ b < sb_size sb → used C b = true → used C' b = true;
  x_frame : ∀ b, 0 ≤ b < sb_size sb → used C b = true → ¬ is_bitmap b → ¬ owns C i b → C' b = C b }.

Lemma ext_refl C i : ext C i C i.
Proof using. split; try done; [by destruct i|by left]. Qed.

Lemma dstart_pos : 0 < dstart sb.
Proof using Hly.
  destruct Hly as [H1 H2 H3 H4 H5 H6]. unfold dstart, nbitmap, ninodeblocks, LOGSIZE, MAXOPBLOCKS, IPB, BPB, BSIZE in *. dlia.
Qed.

Lemma data_not_bitmap C b : data_block C b → 0 ≤ b < sb_size sb ∧ used C b = true ∧ ¬ is_bitmap b.
Proof using Hly. pose proof dstart_pos. intros [Hb Hu]. unfold FsAlloc.is_bitmap. split_and!; [lia|lia|done|lia]. Qed.

Lemma ext_trans C1 i1 C2 i2 C3 i3 :
  file_ok C3 i3 → ext C1 i1 C2 i2 → ext C2 i2 C3 i3 → ext C1 i1 C3 i3.
Proof using Hly.
  intros Hf H12 H23. assert (∀ b, owns C3 i3 b → owns C1 i1 b ∨ used C1 b = false) as Hown.
  { intros b Hb. destruct (data_not_bitmap C3 b) as (Hr & _); [by eapply owns_data|].
    destruct (x_own _ _ _ _ H23 b Hb) as [Hb2|Hu]; [by apply (x_own _ _ _ _ H12)|right].
    destruct (used C1 b) eqn:E; [|done]. rewrite (x_used _ _ _ _ H12) in Hu; [done|lia|done]. }
  split.
  - rewrite (x_inode _ _ _ _ H23) at 1. rewrite (x_inode _ _ _ _ H12). done.
  - intros n Hn Ha. rewrite (x_addr _ _ _ _ H23); rewrite ?(x_addr _ _ _ _ H12); done.
  - intros n Hn Ha. pose proof (x_addr _ _ _ _ H12 n Hn Ha) as E. rewrite <- (x_data _ _ _ _ H12) by done.
    rewrite <- E. apply (x_data _ _ _ _ H23); [done|congruence].
  - exact Hown.
  - intros b Hb Hu. apply (x_used _ _ _ _ H23); [done|]. by apply (x_used _ _ _ _ H12).
  - intros b Hb Hu Hbm Hn. rewrite (x_frame _ _ _ _ H23); [by apply (x_frame _ _ _ _ H12)|done|by apply (x_used _ _ _ _ H12)|done|].
    intros Ho. destruct (x_own _ _ _ _ H12 b Ho) as [?|?]; [done|congruence].
Qed.

(** ** One new block *)

Lemma allocated_facts C r :
  blocks C → meta_used sb C → first_free sb C r →
  let C' := allocated sb C r in
  blocks C' ∧ dstart sb ≤ r < sb_size sb ∧ (∀ b, 0 ≤ b < sb_size sb → used C' b = (b =? r) || used C b) ∧
  (∀ b, ¬ is_bitmap b → b ≠ r → C' b = C b) ∧ C' r = zeros.
Proof using Hly.
  intros HC Hm Hff C'. pose proof (free_data sb C r Hm Hff) as Hr. pose proof Hff as (Hr0 & Hu & _).
  assert (∀ b, 0 ≤ b < sb_size sb → BBLOCK b sb ≠ r) as Hne.
  { intros b Hb. destruct (bblock st sb Hly b Hb) as [_ Hbm]. unfold FsAlloc.is_bitmap in Hbm. lia. }
  split_and!; [apply blocks_insert; [by apply blocks_mark|apply blockdata_zeros]|lia|lia| | |apply fn_lookup_insert].
  - intros b Hb. unfold C', allocated, FsAlloc.used. rewrite fn_lookup_insert_ne by (pose proof (Hne b Hb); congruence).
    change (used (mark sb C r true) b = (b =? r) || used C b). rewrite (used_mark st) by done. by destruct (b =? r).
  - intros b Hbm Hbr. unfold C', allocated, mark. rewrite !fn_lookup_insert_ne; [done| |congruence].
    intros <-. destruct Hbm. by apply (bblock st sb Hly).
Qed.

Lemma meta_allocated C r : blocks C → meta_used sb C → first_free sb C r → meta_used sb (allocated sb C r).
Proof using Hly.
  intros HC Hm Hff. destruct (allocated_facts C r HC Hm Hff) as (_ & Hr & Hu & _). intros b Hb. rewrite Hu by lia.
  rewrite (Hm b Hb). apply orb_true_r.
Qed.

(** Adding block [r] to the file, as its [n]th block or as its indirect block. *)
Lemma add_block C i C' i' r :
  file_ok C i → dstart sb ≤ r < sb_size sb → used C r = false →
  i' = with_addrs (iaddrs i') i → length (iaddrs i') = S NDIRECT →
  (∀ b, 0 ≤ b < sb_size sb → used C' b = (b =? r) || used C b) →
  (∀ b, ¬ is_bitmap b → b ≠ r → (ind i ≠ 0 → b ≠ ind i) → C' b = C b) →
  (ind i' = ind i ∧ ∃ n, ∀ m, (m < NBLOCKS)%nat → addr_of C' i' m = addr_of C i m ∨ (m = n ∧ addr_of C i m = 0 ∧ addr_of C' i' m = r)) ∨
  (ind i = 0 ∧ ind i' = r ∧ ∀ m, (m < NBLOCKS)%nat → addr_of C' i' m = addr_of C i m) →
  file_ok C' i' ∧ ext C i C' i'.
Proof using Hly.
  intros Hf Hr Hfree Hi' Hlen Hused Hsame Hcase. pose proof dstart_pos as Hd0.
  assert (data_block C' r) as Hdr by (split; [done|]; rewrite Hused by lia; by rewrite Z.eqb_refl).
  assert (∀ b, data_block C b → data_block C' b ∧ b ≠ r) as Hdb.
  { intros b [Hb Hu]. split; [split; [done|]; rewrite Hused, Hu by lia; apply orb_true_r|congruence]. }
  assert (isize i' = isize i) as Hsz by (by rewrite Hi').
  assert (∀ m, (m < NBLOCKS)%nat → addr_of C' i' m = addr_of C i m ∨ addr_of C i m = 0 ∧ addr_of C' i' m = r ∧ ind i' = ind i) as Hadr.
  { intros m Hm. destruct Hcase as [(E & n & Hn)|(_ & _ & He)]; [|left; by apply He]. destruct (Hn m Hm); naive_solver. }
  assert (ind i' = ind i ∨ ind i = 0 ∧ ind i' = r) as Hind by (destruct Hcase as [[? _]|(? & ? & _)]; auto).
  split; [split|split]; try done.
  - destruct Hind as [->|[_ ->]]; [|done]. intros Hi. by apply Hdb, (fo_ind C i Hf).
  - intros n Hn Ha. destruct (Hadr n Hn) as [E|(_ & E & Ei)]; rewrite E in *.
    + destruct (fo_addr C i Hf n Hn Ha) as [Hb Hbi]. split; [by apply Hdb|]. destruct Hind as [->|[_ ->]]; [done|by apply Hdb].
    + split; [done|]. rewrite Ei. intros ->. destruct (Hdb (ind i)); [by apply (fo_ind C i Hf)|done].
  - intros n m Hn Hm Ha He. destruct Hcase as [(E & n0 & Hc)|(_ & _ & Hc)].
    + destruct (Hc n Hn) as [En|(-> & _ & En)], (Hc m Hm) as [Em|(-> & _ & Em)]; rewrite ?En, ?Em in *; try done.
      * by apply (fo_inj C i Hf).
      * destruct (fo_addr C i Hf n Hn Ha) as [[_ ?] _]. congruence.
      * rewrite He in Ha. destruct (fo_addr C i Hf m Hm Ha) as [[_ ?] _]. congruence.
    + rewrite (Hc n Hn) in *. rewrite (Hc m Hm) in *. by apply (fo_inj C i Hf).
  - rewrite Hsz. apply (fo_size C i Hf).
  - intros n Hn. rewrite Hsz in Hn. pose proof (fo_full C i Hf n Hn) as Ha. assert (n < NBLOCKS)%nat as Hn'.
    { pose proof (fo_size C i Hf). unfold MAXFILE, NBLOCKS, NDIRECT, NINDIRECT, BSIZE in *. lia. }
    destruct (Hadr n Hn') as [->|(? & _)]; done.
  - intros n Hn Ha. destruct (Hadr n Hn) as [?|(? & _)]; done.
  - intros n Hn Ha. destruct (fo_addr C i Hf n Hn Ha) as [Hb Hbi]. destruct (data_not_bitmap C _ Hb) as (_ & _ & ?).
    apply Hsame; [done|by apply Hdb|done].
  - intros b [Hb [->|(n & Hn & <-)]].
    + destruct Hind as [E|[_ ->]]; [|by right]. left. rewrite E in *. split; [done|by left].
    + destruct (Hadr n Hn) as [E|(_ & E & _)]; rewrite E in *; [|by right]. left. split; [done|right; by exists n].
  - intros b Hb Hu. rewrite Hused, Hu by done. apply orb_true_r.
  - intros b Hb Hu Hbm Hno. apply Hsame; [done|congruence|]. intros Hi0 ->. destruct Hno. split; [done|by left].
Qed.

Lemma rd_zeros w o : rd w o zeros = 0.
Proof using.
  clear Hly. unfold rd, slice, zeros. rewrite drop_replicate, take_replicate. generalize (w `min` (Z.to_nat BSIZE - o))%nat.
  intros n. induction n as [|n IH]; [done|]. simpl. lia.
Qed.

Lemma insert_addr (al : list Z) n r m : (n < length al)%nat → <[n := r]> al !!! m = if decide (m = n) then r else al !!! m.
Proof using.
  clear Hly. intros Hn. case_decide as Hm; [subst; by apply list_lookup_total_insert_eq|by apply list_lookup_total_insert_ne].
Qed.

(** The file has room and the disk a free block. *)
Record growing (C : Z → list Z) (i : inode) (r : Z) : Prop := {
  gr_blocks : blocks C;
  gr_meta : meta_used sb C;
  gr_file : file_ok C i;
  gr_free : first_free sb C r }.

Lemma ind_kept C i r : growing C i r → ind i ≠ 0 → allocated sb C r (ind i) = C (ind i).
Proof using Hly.
  intros [HC Hm Hf Hff] Hi. destruct (allocated_facts C r HC Hm Hff) as (_ & _ & _ & Hsame & _).
  destruct (fo_ind C i Hf Hi) as [Hd Hu]. destruct Hff as (_ & Hfr & _). apply Hsame; [unfold FsAlloc.is_bitmap; lia|congruence].
Qed.

Lemma add_direct C i r n :
  growing C i r → (n < NDIRECT)%nat → iaddrs i !!! n = 0 →
  file_ok (allocated sb C r) (set_iaddr n r i) ∧ ext C i (allocated sb C r) (set_iaddr n r i).
Proof using Hly.
  intros Hg Hn Ha. pose proof (ind_kept C i r Hg) as Hkeep. destruct Hg as [HC Hm Hf Hff].
  destruct (allocated_facts C r HC Hm Hff) as (_ & Hr & Hused & Hsame & _). pose proof (fo_len C i Hf) as Hl.
  assert (ind (set_iaddr n r i) = ind i) as Hind.
  { unfold ind. simpl. rewrite insert_addr by lia. rewrite decide_False; [done|lia]. }
  eapply add_block; [done|done|apply Hff|done|simpl; by rewrite length_insert|done|auto|]. left. split; [done|]. exists n.
  intros m _. unfold addr_of. rewrite Hind. cbn [iaddrs set_iaddr]. destruct (Nat.ltb_spec m NDIRECT).
  - rewrite insert_addr by lia. case_decide as E; [right; rewrite E; auto|by left].
  - left. destruct (Z.eqb_spec (ind i) 0); [done|]. by rewrite Hkeep.
Qed.

Lemma add_ind C i r :
  growing C i r → ind i = 0 →
  file_ok (allocated sb C r) (set_iaddr NDIRECT r i) ∧ ext C i (allocated sb C r) (set_iaddr NDIRECT r i).
Proof using Hly.
  intros [HC Hm Hf Hff] Hi. destruct (allocated_facts C r HC Hm Hff) as (_ & Hr & Hused & Hsame & Hz). pose proof (fo_len C i Hf) as Hl.
  assert (ind (set_iaddr NDIRECT r i) = r) as Hind.
  { unfold ind. simpl. rewrite insert_addr by lia. by rewrite decide_True. }
  eapply add_block; [done|done|apply Hff|done|simpl; by rewrite length_insert|done|auto|]. right. split_and!; [done|done|].
  intros m _. unfold addr_of. rewrite Hind, Hi. cbn [iaddrs set_iaddr]. destruct (Nat.ltb_spec m NDIRECT).
  - rewrite insert_addr by lia. rewrite decide_False; [done|lia].
  - rewrite Hz, rd_zeros. by destruct (r =? 0).
Qed.

(** The indirect block with its entry for block [n] of the file set. *)
Definition set_entry (C : Z → list Z) (i : inode) (n : nat) (r : Z) : Z → list Z :=
  <[ind i := wr 4 (4 * (n - NDIRECT)) r (C (ind i))]> C.

Lemma add_entry C i r n :
  growing C i r → ind i ≠ 0 → (NDIRECT ≤ n < NBLOCKS)%nat → addr_of C i n = 0 →
  file_ok (set_entry (allocated sb C r) i n r) i ∧ ext C i (set_entry (allocated sb C r) i n r) i ∧
  addr_of (set_entry (allocated sb C r) i n r) i n = r.
Proof using Hly.
  intros Hg Hi Hn Ha. pose proof (ind_kept C i r Hg Hi) as Hkeep. destruct Hg as [HC Hm Hf Hff].
  destruct (allocated_facts C r HC Hm Hff) as (HC' & Hr & Hused & Hsame & _).
  destruct (fo_ind C i Hf Hi) as [Hdi _]. destruct (HC (ind i)) as [Hlen _]. unfold BSIZE in Hlen.
  assert (∀ m, addr_of (set_entry (allocated sb C r) i n r) i m = if decide (m = n) then r else addr_of C i m) as Hadr.
  { intros m. unfold addr_of, set_entry. rewrite fn_lookup_insert. unfold NBLOCKS, NDIRECT, NINDIRECT in *. destruct (Nat.ltb_spec m 12).
    - rewrite decide_False; [done|lia].
    - destruct (Z.eqb_spec (ind i) 0); [done|]. rewrite Hkeep. case_decide as E.
      + rewrite E, rd_wr by lia. change (256 ^ Z.of_nat 4) with (2 ^ 32). apply Z.mod_small. destruct Hly. pose proof dstart_pos. lia.
      + rewrite rd_wr_ne by lia. done. }
  set (C' := set_entry (allocated sb C r) i n r) in *.
  enough (file_ok C' i ∧ ext C i C' i) as [? ?] by (split_and!; [done|done|rewrite Hadr; by rewrite decide_True]).
  assert (∀ b, 0 ≤ b < sb_size sb → BBLOCK b sb ≠ ind i) as Hne.
  { intros b Hb. destruct (bblock st sb Hly b Hb) as [_ Hbm]. unfold FsAlloc.is_bitmap in Hbm. lia. }
  eapply (add_block C i _ i r); [done|done|apply Hff|by destruct i|apply (fo_len C i Hf)| | |left; split; [done|]].
  - intros b Hb. unfold FsAlloc.used, C', set_entry. rewrite fn_lookup_insert_ne by (pose proof (Hne b Hb); congruence). by apply Hused.
  - intros b Hbm Hbr Hbi. unfold C', set_entry. rewrite fn_lookup_insert_ne by (by apply not_eq_sym, Hbi). by apply Hsame.
  - exists n. intros m _. rewrite Hadr. case_decide as E; [|by left]. right. by rewrite E.
Qed.

(** ** Runs of [bmap] *)

(** The state of an operation that works on inode [ip]. *)
Record fstate (s : fsst U) (C : Z → list Z) (k : nat) (ip : nat) (i : inode) : Prop := {
  fs_sb : fsb s = sb;
  fs_txn : txn dv st (flg s) C k ∅;
  fs_blocks : blocks C;
  fs_meta : meta_used sb C;
  fs_inode : itab s !! ip = Some i;
  fs_dev : idev i = dv;
  fs_file : file_ok C i }.

Definition disk_full (C : Z → list Z) : Prop := ∀ b, 0 ≤ b < sb_size sb → used C b = true.

Lemma get_iaddr_ok (s : fsst U) ip i n :
  itab s !! ip = Some i → (n < length (iaddrs i))%nat → get_iaddr ip n s = Ok (iaddrs i !!! n) s.
Proof using.
  clear Hly. intros Hi Hn. unfold get_iaddr. runs (geti_ok ip i s Hi). destruct (lookup_lt_is_Some_2 (iaddrs i) n Hn) as [a Ha].
  by rewrite Ha, (list_lookup_total_correct _ _ _ Ha).
Qed.

Lemma held_ok_empty C : held_ok sb C ∅.
Proof using. clear Hly. split; [rewrite map_size_empty; unfold SPARE; lia|]. intros n b Hn. by rewrite lookup_empty in Hn. Qed.

Lemma held_ok_one C n b : data_block C b → held_ok sb C {[n := b]}.
Proof using Hly.
  intros Hb. split; [rewrite map_size_singleton; unfold SPARE; lia|]. intros m b' [_ <-]%lookup_singleton_Some.
  destruct (data_not_bitmap C b Hb) as (_ & ? & ?). done.
Qed.

Lemma size_empty_spare : (size (∅ : gmap nat Z) < SPARE)%nat.
Proof using. clear Hly. rewrite map_size_empty. unfold SPARE. lia. Qed.

(** Opening the indirect block. *)
Lemma open_ind (s : fsst U) C k ip i :
  fstate s C k ip i → ind i ≠ 0 →
  ∃ b l1 x, buf_op (bread dv (ind i)) s = Ok b (with_flg l1 s) ∧ txn dv st l1 C k {[b := ind i]} ∧
    buf_op (getb b) (with_flg l1 s) = Ok x (with_flg l1 s) ∧ data x = C (ind i).
Proof using.
  clear Hly. intros [Hsb Ht HC Hm Hi Hd Hf] Hn. destruct (bread_t dv st s C k ∅ (ind i) Ht) as (b & l1 & Hrun & _ & Ht1);
    [intros n; by rewrite lookup_empty|apply size_empty_spare|].
  rewrite insert_empty in Ht1.
  destruct (getb_t dv st (with_flg l1 s) C k {[b := ind i]} b (ind i) Ht1) as (x & Hgx & Hx & _); [by rewrite lookup_singleton_eq|].
  exists b, l1, x. done.
Qed.

(** A block the file has. *)
Lemma bmap_mapped (s : fsst U) C k ip i n :
  fstate s C k ip i → (n < NBLOCKS)%nat → addr_of C i n ≠ 0 →
  ∃ l', bmap ip (Z.of_nat n) s = Ok (addr_of C i n) (with_flg l' s) ∧ txn dv st l' C k ∅.
Proof using.
  clear Hly. intros Hs Hn Ha. pose proof Hs as [Hsb Ht HC Hm Hi Hd Hf]. pose proof (fo_len C i Hf) as Hl. unfold bmap. runs (geti_ok ip i s Hi).
  unfold addr_of in *. destruct (Nat.ltb_spec n NDIRECT) as [Hlt|Hge].
  - destruct (Z.ltb_spec (Z.of_nat n) (Z.of_nat NDIRECT)); [|lia]. rewrite Nat2Z.id. runs (get_iaddr_ok s ip i n Hi) by lia.
    destruct (Z.eqb_spec (iaddrs i !!! n) 0); [done|]. exists (flg s). split; [by destruct s|done].
  - destruct (Z.ltb_spec (Z.of_nat n) (Z.of_nat NDIRECT)); [lia|].
    destruct (Z.ltb_spec (Z.of_nat n - Z.of_nat NDIRECT) (Z.of_nat NINDIRECT)); [|unfold NBLOCKS in *; lia].
    runs (get_iaddr_ok s ip i NDIRECT Hi) by lia. change (iaddrs i !!! NDIRECT) with (ind i).
    destruct (Z.eqb_spec (ind i) 0) as [|Hi0]; [done|]. rewrite ret_bind. destruct (Z.eqb_spec (ind i) 0); [done|]. rewrite Hd.
    destruct (open_ind s C k ip i Hs Hi0) as (b & l1 & x & Hrun1 & Ht1 & Hgx & Hx). runs Hrun1. runs Hgx. rewrite Hx.
    replace (Z.to_nat (Z.of_nat n - Z.of_nat NDIRECT)) with (n - NDIRECT)%nat by lia.
    destruct (Z.eqb_spec (rd 4 (4 * (n - NDIRECT)) (C (ind i))) 0); [done|]. rewrite ret_bind.
    destruct (brelse_t dv st (with_flg l1 s) C k _ b (ind i) Ht1) as (l2 & Hrun2 & Ht2); [by rewrite lookup_singleton_eq|].
    runs Hrun2. exists l2. split; [done|]. by rewrite delete_singleton_eq in Ht2.
Qed.

(** What a call of [bmap] establishes. *)
Definition bmapped (s : fsst U) (C : Z → list Z) (k : nat) (ip : nat) (i : inode) (n : nat) (o : outcome (fsst U) Z) : Prop :=
  ∃ C' i' l', o = Ok (addr_of C' i' n) (with_flg l' (with_inode ip i' s)) ∧
    fstate (with_flg l' (with_inode ip i' s)) C' k ip i' ∧ ext C i C' i' ∧ (addr_of C' i' n = 0 → disk_full C').

Lemma fstate_change (s : fsst U) C k ip i C' k' i' l' :
  fstate s C k ip i → txn dv st l' C' k' ∅ → blocks C' → meta_used sb C' → file_ok C' i' → idev i' = dv →
  fstate (with_flg l' (with_inode ip i' s)) C' k' ip i'.
Proof using. clear Hly. intros [Hsb Ht HC Hm Hi Hd Hf] ? ? ? ? ?. split; try done. by eapply with_inode_lookup. Qed.

Lemma fstate_same (s : fsst U) C k ip i l' : fstate s C k ip i → with_flg l' s = with_flg l' (with_inode ip i s).
Proof using. clear Hly. intros Hs. unfold with_flg, with_inode. simpl. rewrite list_insert_id; [done|]. apply Hs. Qed.

(** [balloc] while the file is worked on. *)
Lemma balloc_file (s : fsst U) C k i h :
  fsb s = sb → txn dv st (flg s) C (S (S k)) h → blocks C → meta_used sb C → file_ok C i → held_ok sb C h →
  ∃ r l', balloc dv s = Ok r (with_flg l' s) ∧
    ((r = 0 ∧ disk_full C ∧ txn dv st l' C (S (S k)) h) ∨
     (r ≠ 0 ∧ growing C i r ∧ txn dv st l' (allocated sb C r) k h)).
Proof using Hly.
  intros Hsb Ht HC Hm Hf Hh. destruct (balloc_run dv st sb Hly s C k h Hsb Ht HC Hm Hh) as (r & l' & Hrun & [(-> & Hu & Ht')|(Hff & Ht')]).
  - exists 0, l'. split; [done|]. by left.
  - exists r, l'. split; [done|]. right. pose proof (free_data sb C r Hm Hff). pose proof dstart_pos. split_and!; [lia|by split|done].
Qed.

Lemma bmap_direct (s : fsst U) C k ip i n :
  fstate s C (S (S k)) ip i → (n < NDIRECT)%nat → bmapped s C k ip i n (bmap ip (Z.of_nat n) s).
Proof using Hly.
  intros Hs Hn. pose proof Hs as [Hsb Ht HC Hm Hi Hd Hf]. pose proof (fo_len C i Hf) as Hl.
  assert (∀ C' i', addr_of C' i' n = iaddrs i' !!! n) as Hadr by (intros; unfold addr_of; destruct (Nat.ltb_spec n NDIRECT); [done|lia]).
  destruct (decide (iaddrs i !!! n = 0)) as [E|E].
  - unfold bmap. runs (geti_ok ip i s Hi). destruct (Z.ltb_spec (Z.of_nat n) (Z.of_nat NDIRECT)); [|lia]. rewrite Nat2Z.id.
    runs (get_iaddr_ok s ip i n Hi) by lia. rewrite E, Hd. cbn [Z.eqb].
    destruct (balloc_file s C k i ∅ Hsb Ht HC Hm Hf (held_ok_empty C)) as (r & l' & Hrun & [(-> & Hfu & Ht')|(Hr & Hg & Ht')]); runs Hrun.
    + exists C, i, l'. rewrite Hadr, E. split_and!; [by rewrite <- (fstate_same _ _ _ _ _ _ Hs)| |apply ext_refl|done].
      eapply fstate_change; [done|by eapply txn_weaken, Ht'; lia|done..].
    + destruct (Z.eqb_spec r 0); [done|]. runs (seti_ok ip (set_iaddr n r) i) by exact Hi.
      destruct (add_direct C i r n Hg Hn E) as [Hf' Hx']. destruct (allocated_facts C r HC Hm (gr_free _ _ _ Hg)) as (HC' & _).
      exists (allocated sb C r), (set_iaddr n r i), l'. rewrite Hadr. cbn [iaddrs set_iaddr]. rewrite list_lookup_total_insert_eq by lia.
      split_and!; [done| |done|done]. eapply fstate_change; [done|done|done|by apply meta_allocated; [..|apply Hg]|done|done].
  - destruct (bmap_mapped s C (S (S k)) ip i n Hs) as (l' & Hrun & Ht'); [unfold NBLOCKS; lia|by rewrite Hadr|].
    exists C, i, l'. split_and!; [by rewrite <- (fstate_same _ _ _ _ _ _ Hs)| |apply ext_refl|by rewrite Hadr].
    eapply fstate_change; [done|by eapply txn_weaken, Ht'; lia|done..].
Qed.

(** The part of [bmap] after the indirect block is known. *)
Definition bmap_entry (ip : nat) (dev addr bn : Z) : M (fsst U) Z :=
  if addr =? 0 then mret 0 else
  bp ← buf_op (bread dev addr);
  x ← buf_op (getb bp);
  let addr := rd 4 (4 * Z.to_nat bn) (data x) in
  addr ← (if addr =? 0 then
            addr ← balloc dev;
            when (negb (addr =? 0)) (
              buf_op (setb bp (λ x, set_data (wr 4 (4 * Z.to_nat bn) addr (data x)) x));;
              log_op (log_write bp));;
            mret addr
          else mret addr);
  buf_op (brelse bp);;
  mret addr.

Lemma bmap_entry_run (s : fsst U) C k ip i n :
  fstate s C (S (S (S k))) ip i → (NDIRECT ≤ n < NBLOCKS)%nat → ind i ≠ 0 →
  bmapped s C k ip i n (bmap_entry ip dv (ind i) (Z.of_nat n - Z.of_nat NDIRECT) s).
Proof using Hly.
  intros Hs Hn Hi0. pose proof Hs as [Hsb Ht HC Hm Hi Hd Hf]. unfold bmap_entry. destruct (Z.eqb_spec (ind i) 0); [done|].
  destruct (open_ind s C _ ip i Hs Hi0) as (b & l1 & x & Hrun1 & Ht1 & Hgx & Hx). runs Hrun1. runs Hgx. rewrite Hx.
  replace (Z.to_nat (Z.of_nat n - Z.of_nat NDIRECT)) with (n - NDIRECT)%nat by lia.
  assert (rd 4 (4 * (n - NDIRECT)) (C (ind i)) = addr_of C i n) as ->.
  { unfold addr_of. destruct (Nat.ltb_spec n NDIRECT); [lia|]. by destruct (Z.eqb_spec (ind i) 0). }
  assert (∀ l C' k' , txn dv st l C' k' {[b := ind i]} → ∃ l', buf_op (brelse b) (with_flg l s) = Ok () (with_flg l' s) ∧ txn dv st l' C' k' ∅) as Hrel.
  { intros l C' k' Hl. destruct (brelse_t dv st (with_flg l s) C' k' _ b (ind i) Hl) as (l2 & ? & Ht2); [by rewrite lookup_singleton_eq|].
    exists l2. split; [done|]. by rewrite delete_singleton_eq in Ht2. }
  destruct (Z.eqb_spec (addr_of C i n) 0) as [Ha|Ha].
  - rewrite bind_assoc. pose proof (fo_ind C i Hf Hi0) as Hdi.
    destruct (balloc_file (with_flg l1 s) C (S k) i {[b := ind i]} Hsb Ht1 HC Hm Hf (held_ok_one C b _ Hdi)) as (r & l2 & Hrun & [(-> & Hfu & Ht2)|(Hr & Hg & Ht2)]);
      runs Hrun; rewrite bind_assoc.
    + cbn [Z.eqb negb when]. rewrite !ret_bind. destruct (Hrel l2 C _ Ht2) as (l3 & Hrun3 & Ht3). runs Hrun3.
      exists C, i, l3. rewrite Ha. split_and!; [by rewrite <- (fstate_same _ _ _ _ _ _ Hs)| |apply ext_refl|done].
      eapply fstate_change; [done|by eapply txn_weaken, Ht3; lia|done..].
    + destruct (Z.eqb_spec r 0); [done|]. cbn [negb when].
      destruct (update_t dv st (with_flg l2 s) (allocated sb C r) k _ b (ind i) (wr 4 (4 * (n - NDIRECT)) r) Ht2) as (l3 & l4 & Hrun3 & Hrun4 & Ht4);
        [by rewrite lookup_singleton_eq|by apply (data_home st sb Hly); apply Hdi|].
      rewrite bind_assoc. runs Hrun3. runs Hrun4. rewrite ret_bind. destruct (Hrel l4 _ _ Ht4) as (l5 & Hrun5 & Ht5). runs Hrun5.
      destruct (add_entry C i r n Hg Hi0 Hn Ha) as (Hf' & Hx' & Hadr). destruct (allocated_facts C r HC Hm (gr_free _ _ _ Hg)) as (HC' & Hr' & Hu' & _).
      exists (set_entry (allocated sb C r) i n r), i, l5. rewrite Hadr. split_and!; [by rewrite <- (fstate_same _ _ _ _ _ _ Hs)| |done|done].
      eapply fstate_change; [done|done| | |done|done].
      * apply blocks_insert; [done|]. destruct (HC' (ind i)) as [Hlen Hby]. unfold BSIZE, NBLOCKS, NDIRECT, NINDIRECT in *.
        split; [rewrite length_wr; unfold BSIZE; lia|by apply Forall_wr].
      * intros b' Hb'. apply (x_used _ _ _ _ Hx'); [destruct Hly; lia|by apply Hm].
  - rewrite ret_bind. destruct (Hrel l1 C _ Ht1) as (l3 & Hrun3 & Ht3). runs Hrun3.
    exists C, i, l3. split_and!; [by rewrite <- (fstate_same _ _ _ _ _ _ Hs)| |apply ext_refl|done].
    eapply fstate_change; [done|by eapply txn_weaken, Ht3; lia|done..].
Qed.

Lemma bmap_run (s : fsst U) C k ip i n :
  fstate s C (5 + k) ip i → (n < NBLOCKS)%nat → bmapped s C k ip i n (bmap ip (Z.of_nat n) s).
Proof using Hly.
  intros Hs Hn. pose proof Hs as [Hsb Ht HC Hm Hi Hd Hf]. pose proof (fo_len C i Hf) as Hl.
  assert (∀ k', (k' ≤ 5 + k)%nat → fstate s C k' ip i) as Hw by (intros; split; try done; by eapply txn_weaken).
  destruct (decide (n < NDIRECT)%nat) as [Hlt|Hge]; [apply bmap_direct; [apply Hw; lia|done]|].
  unfold bmap. runs (geti_ok ip i s Hi). destruct (Z.ltb_spec (Z.of_nat n) (Z.of_nat NDIRECT)); [lia|].
  destruct (Z.ltb_spec (Z.of_nat n - Z.of_nat NDIRECT) (Z.of_nat NINDIRECT)); [|unfold NBLOCKS in *; lia].
  runs (get_iaddr_ok s ip i NDIRECT Hi) by lia. change (iaddrs i !!! NDIRECT) with (ind i). rewrite Hd.
  change (bmapped s C k ip i n ((addr ← (if ind i =? 0 then addr ← balloc dv; when (negb (addr =? 0)) (seti ip (set_iaddr NDIRECT addr));; mret addr
     else mret (ind i)); bmap_entry ip dv addr (Z.of_nat n - Z.of_nat NDIRECT)) s)).
  destruct (Z.eqb_spec (ind i) 0) as [Hi0|Hi0].
  - rewrite bind_assoc. destruct (balloc_file s C (3 + k) i ∅ Hsb Ht HC Hm Hf (held_ok_empty C)) as (r & l2 & Hrun & [(-> & Hfu & Ht2)|(Hr & Hg & Ht2)]);
      runs Hrun; rewrite bind_assoc.
    + cbn [Z.eqb negb when]. rewrite !ret_bind. exists C, i, l2.
      assert (addr_of C i n = 0) as -> by (unfold addr_of; rewrite Hi0; by destruct (Nat.ltb_spec n NDIRECT); [lia|]).
      split_and!; [by rewrite <- (fstate_same _ _ _ _ _ _ Hs)| |apply ext_refl|done].
      eapply fstate_change; [done|by eapply txn_weaken, Ht2; lia|done..].
    + destruct (Z.eqb_spec r 0); [done|]. cbn [negb when]. runs (seti_ok ip _ i) by exact Hi. rewrite ret_bind.
      destruct (add_ind C i r Hg Hi0) as [Hf' Hx']. destruct (allocated_facts C r HC Hm (gr_free _ _ _ Hg)) as (HC' & _).
      set (i1 := set_iaddr NDIRECT r i) in *. set (s1 := with_inode ip i1 (with_flg l2 s)).
      assert (fstate s1 (allocated sb C r) (3 + k) ip i1) as Hs1.
      { apply (fstate_change s C (5 + k) ip i); [done|done|done|by apply meta_allocated; [..|apply Hg]|done|done]. }
      assert (ind i1 = r) as Hi1 by (unfold ind; simpl; by rewrite list_lookup_total_insert_eq by lia).
      rewrite <- Hi1. destruct (bmap_entry_run s1 (allocated sb C r) k ip i1 n Hs1) as (C3 & i3 & l3 & -> & Hs3 & Hx3 & Hfu); [lia|by rewrite Hi1|].
      exists C3, i3, l3. assert (with_inode ip i3 s1 = with_flg l2 (with_inode ip i3 s)) as Es.
      { unfold s1, with_inode, with_flg. simpl. by rewrite list_insert_insert_eq. }
      rewrite Es in *. split_and!; [done|done| |done]. by eapply ext_trans; [apply Hs3|..].
  - rewrite ret_bind. apply bmap_entry_run; [apply Hw; lia|lia|done].
Qed.
End file.
