(* ===== verification/FsRead.v ===== *)
(** * Reading a file

    The contents of a file as its blocks give them, the interface to user
    memory, and the run of [readi]. *)
From S2P Require Import Prelude Mem Sleeplock Block Bio BioSpec Log LogSpec Fs FsView FsAlloc FsInode FsFile.
From stdpp Require Import functions list gmap.

#[local] Open Scope Z_scope.

(** Byte [p] of a file, and [n] bytes from [off] on. *)
Definition BS : nat := 1024.
Definition byte_at (C : Z → list Z) (i : inode) (p : nat) : Z := C (addr_of C i (p / BS)) !!! (p `mod` BS)%nat.
Definition contents (C : Z → list Z) (i : inode) (off n : nat) : list Z := byte_at C i <$> seq off n.

Lemma length_contents C i off n : length (contents C i off n) = n.
Proof. unfold contents. by rewrite length_fmap, length_seq. Qed.

Lemma contents_app C i off n m : contents C i off (n + m) = contents C i off n ++ contents C i (off + n) m.
Proof. unfold contents. by rewrite seq_app, fmap_app. Qed.

(** Within a block. *)
Lemma slice_contents C i off m :
  blocks C → (off `mod` BS + m ≤ BS)%nat → slice (off `mod` BS) m (C (addr_of C i (off / BS))) = contents C i off m.
Proof.
  intros HC Hm. apply list_eq. intros j. rewrite slice_lookup. unfold contents. rewrite list_lookup_fmap.
  destruct (HC (addr_of C i (off / BS))) as [Hl _]. unfold BS, BSIZE in *. case_decide as Hj.
  - rewrite lookup_seq_lt by lia. simpl. unfold byte_at, BS.
    pose proof (Nat.div_mod off 1024). pose proof (Nat.mod_upper_bound off 1024).
    assert ((off + j) / 1024 = off / 1024)%nat as -> by (symmetry; apply (Nat.div_unique _ _ _ (off `mod` 1024 + j)); lia).
    assert ((off + j) `mod` 1024 = off `mod` 1024 + j)%nat as -> by (symmetry; apply (Nat.mod_unique _ _ (off / 1024)); lia).
    apply list_lookup_lookup_total_lt. lia.
  - rewrite lookup_seq_ge by lia. done.
Qed.

(** ** User memory *)

(** What the file system relies on when it copies to and from user memory that
    the process can access. *)
Class UserLaws (U : Type) `{UserMem U} := {
  uview : U → Z → option Z;
  ucopyout_ok u va bs : (∀ j, (j < length bs)%nat → is_Some (uview u (va + Z.of_nat j))) →
    ∃ u', ucopyout va bs u = Ok 0 u' ∧
      ∀ a, uview u' a = if decide (va ≤ a < va + Z.of_nat (length bs)) then bs !! Z.to_nat (a - va) else uview u a;
  ucopyin_ok u va bs : (∀ j b, bs !! j = Some b → uview u (va + Z.of_nat j) = Some b) →
    ucopyin va (Z.of_nat (length bs)) u = Ok (0, bs) u }.

Section io.
Context {U : Type} `{UserLaws U, Running} (dv st : Z) (sb : superblock) (Hly : layout st sb).

Definition with_user (u : U) (s : fsst U) : fsst U := mkfs (flg s) (fsb s) (itlk s) (itab s) (fcwd s) u.

(** The destination of a read of [n] bytes, and the memory after it. *)
Definition dst_ok (u : U) (dst : option Z) (n : nat) : Prop :=
  match dst with
  | Some va => 0 ≤ va ∧ va + Z.of_nat n < 2 ^ 64 ∧ ∀ j, (j < n)%nat → is_Some (uview u (va + Z.of_nat j))
  | None => True
  end.
Definition dst_done (u : U) (dst : option Z) (bs : list Z) (u' : U) : Prop :=
  match dst with
  | Some va => ∀ a, uview u' a = if decide (va ≤ a < va + Z.of_nat (length bs)) then bs !! Z.to_nat (a - va) else uview u a
  | None => u' = u
  end.

Lemma either_copyout_ok (s : fsst U) dst bs :
  dst_ok (fuser s) dst (length bs) →
  ∃ u', either_copyout dst bs s = Ok 0 (with_user u' s) ∧ dst_done (fuser s) dst bs u'.
Proof using.
  clear Hly. destruct dst as [va|]; simpl.
  - intros (_ & _ & Ha). destruct (ucopyout_ok (fuser s) va bs Ha) as (u' & Hrun & Hu). exists u'. split; [|done].
    unfold user_op, zoom. by rewrite Hrun.
  - intros _. exists (fuser s). split; [by destruct s|done].
Qed.

(** The destination moved on. *)
Abbreviation dst_plus m dst := ((λ va, u64 (va + m)) <$> dst : option Z).

Lemma dst_ok_plus u u' dst bs n :
  dst_ok u dst (length bs + n) → dst_done u dst bs u' → dst_ok u' (dst_plus (Z.of_nat (length bs)) dst) n.
Proof using.
  clear Hly. destruct dst as [va|]; simpl; [|done]. intros (Hv1 & Hv2 & H3) Hd. rewrite wrap_small by lia. split_and!; [lia|lia|].
  intros j Hj. rewrite Hd. rewrite decide_False by lia. replace (va + _ + _) with (va + Z.of_nat (length bs + j)) by lia. apply H3. lia.
Qed.

Lemma dst_done_app u dst bs1 u1 bs2 u2 n :
  dst_ok u dst (length bs1 + n) → dst_done u dst bs1 u1 → dst_done u1 (dst_plus (Z.of_nat (length bs1)) dst) bs2 u2 →
  dst_done u dst (bs1 ++ bs2) u2.
Proof using.
  clear Hly. destruct dst as [va|]; simpl; [|congruence]. intros (Hv1 & Hv2 & _) Hd1 Hd2 a. rewrite wrap_small in Hd2 by lia.
  rewrite Hd2, Hd1, length_app. repeat case_decide; try lia; try done.
  - rewrite lookup_app_r by lia. f_equal. lia.
  - rewrite lookup_app_l by lia. done.
Qed.

Lemma dst_done_nil u dst : dst_done u dst [] u.
Proof using. clear Hly. destruct dst as [va|]; simpl; [|done]. intros a. rewrite decide_False; [done|lia]. Qed.

(** ** The loop of [readi] *)

(** The blocks touched by [r] bytes at [off]. *)
Definition blocks_left (off r : nat) : nat := if (r =? 0)%nat then 0%nat else ((off `mod` BS + r + BS - 1) / BS)%nat.

Lemma blocks_left_step off r :
  (0 < r)%nat →
  let m := (r `min` (BS - off `mod` BS))%nat in
  (0 < m ≤ r)%nat ∧ (off `mod` BS + m ≤ BS)%nat ∧ (S (blocks_left (off + m) (r - m)) ≤ blocks_left off r)%nat.
Proof using.
  clear. intros Hr m. unfold blocks_left, BS in *. pose proof (Nat.mod_upper_bound off 1024). split_and!; [lia|lia|lia|].
  destruct (Nat.eqb_spec r 0); [lia|]. destruct (Nat.eqb_spec (r - m) 0) as [E|E].
  - apply Nat.div_str_pos. lia.
  - assert (m = 1024 - off `mod` 1024)%nat as Hm by lia. pose proof (Nat.div_mod off 1024).
    assert ((off + m) `mod` 1024 = 0)%nat as -> by (symmetry; apply (Nat.mod_unique _ _ (off / 1024 + 1)); lia).
    assert (off `mod` 1024 + r + 1024 - 1 = 1 * 1024 + (0 + (r - m) + 1024 - 1))%nat as -> by lia.
    rewrite Nat.div_add_l by lia. lia.
Qed.

Lemma Z_div_BSIZE off : Z.of_nat off / BSIZE = Z.of_nat (off / BS) ∧ Z.of_nat off `mod` BSIZE = Z.of_nat (off `mod` BS).
Proof using. clear. unfold BSIZE, BS. rewrite Nat2Z.inj_div, Nat2Z.inj_mod. done. Qed.

(** A position inside a file of legal size. *)
Lemma in_file C i p : file_ok sb C i → (Z.of_nat p < isize i) → (p / BS < NBLOCKS)%nat ∧ addr_of C i (p / BS) ≠ 0.
Proof using.
  clear Hly. intros Hf Hp. pose proof (fo_size _ C i Hf). pose proof (Nat.div_mod p 1024). unfold BS in *. split.
  - apply Nat.Div0.div_lt_upper_bound. unfold MAXFILE, NBLOCKS, NDIRECT, NINDIRECT, BSIZE in *. lia.
  - apply (fo_full _ C i Hf). unfold BSIZE. lia.
Qed.

Lemma readi_loop_run fuel (s : fsst U) C k ip i dst tot off r acc :
  fstate dv st sb s C k ip i → Z.of_nat (off + r) ≤ isize i → dst_ok (fuser s) dst r → (blocks_left off r < fuel)%nat →
  ∃ l' u', readi_loop fuel ip dst (Z.of_nat tot) (Z.of_nat off) (Z.of_nat (tot + r)) acc s =
      Ok (Z.of_nat (tot + r), acc ++ contents C i off r) (with_user u' (with_flg l' s)) ∧
    txn dv st l' C k ∅ ∧ dst_done (fuser s) dst (contents C i off r) u'.
Proof using.
  clear Hly. revert s dst tot off r acc. induction fuel as [|fuel IH]; intros s dst tot off r acc Hs Hsz Hdst Hfuel; [lia|].
  pose proof Hs as [Hsb Ht HC Hm Hi Hd Hf]. cbn [readi_loop]. destruct (Z.ltb_spec (Z.of_nat tot) (Z.of_nat (tot + r))) as [Hlt|Hge].
  2: { replace r with 0%nat in * by lia. exists (flg s), (fuser s). rewrite Nat.add_0_r, app_nil_r. split_and!; [by destruct s|done|apply dst_done_nil]. }
  destruct (Z_div_BSIZE off) as [-> ->]. destruct (in_file C i off Hf) as [Hn Ha]; [lia|].
  destruct (bmap_mapped dv st sb s C k ip i (off / BS) Hs Hn Ha) as (l1 & Hrun1 & Ht1). runs Hrun1.
  destruct (Z.eqb_spec (addr_of C i (off / BS)) 0); [done|]. runs (geti_ok ip i) by exact Hi. rewrite Hd.
  destruct (bread_t dv st (with_flg l1 s) C k ∅ (addr_of C i (off / BS)) Ht1) as (b & l2 & Hrun2 & _ & Ht2);
    [intros n0; by rewrite lookup_empty|apply size_empty_spare|]. rewrite insert_empty in Ht2. runs Hrun2. rewrite with_flg_twice.
  destruct (getb_t dv st (with_flg l2 s) C k _ b _ Ht2 (lookup_singleton_eq _ _)) as (x & Hgx & Hx & _). runs Hgx. rewrite Hx.
  destruct (blocks_left_step off r) as (Hm1 & Hm2 & Hm3); [lia|]. set (m := (r `min` (BS - off `mod` BS))%nat) in *.
  assert (Z.min (Z.of_nat (tot + r) - Z.of_nat tot) (BSIZE - Z.of_nat (off `mod` BS)) = Z.of_nat m) as ->.
  { unfold m, BSIZE, BS. pose proof (Nat.mod_upper_bound off 1024). lia. }
  rewrite !Nat2Z.id, slice_contents by done.
  assert (dst_ok (fuser s) dst (length (contents C i off m) + (r - m))) as Hdst' by (rewrite length_contents; by replace (m + (r - m))%nat with r by lia).
  destruct (either_copyout_ok (with_flg l2 s) dst (contents C i off m)) as (u1 & Hrun3 & Hd1).
  { destruct dst as [va|]; [|done]. destruct Hdst' as (H1' & H2' & H3'). simpl. split_and!; [lia|lia|]. intros j Hj. apply H3'. lia. }
  runs Hrun3. cbn [Z.eqb]. pose proof (fo_size _ C i Hf) as Hfs.
  destruct (brelse_t dv st (with_user u1 (with_flg l2 s)) C k _ b _ Ht2 (lookup_singleton_eq _ _)) as (l3 & Hrun4 & Ht4).
  runs Hrun4. rewrite delete_singleton_eq in Ht4. set (s1 := with_flg l3 (with_user u1 (with_flg l2 s))).
  assert (fstate dv st sb s1 C k ip i) as Hs1 by (by split).
  pose proof (dst_ok_plus _ _ _ _ _ Hdst' Hd1) as Hdst1. rewrite length_contents in Hdst1.
  destruct (IH s1 (dst_plus (Z.of_nat m) dst) (tot + m)%nat (off + m)%nat (r - m)%nat (acc ++ contents C i off m)) as (l' & u' & Hrun & Ht' & Hd'); [done|lia|done|lia|].
  exists l', u'. replace (Z.of_nat (tot + m + (r - m))) with (Z.of_nat (tot + r)) in Hrun by lia.
  rewrite <- (Nat2Z.inj_add tot m), wrap_small by (unfold MAXFILE, NDIRECT, NINDIRECT, BSIZE in *; lia). rewrite <- Nat2Z.inj_add, Hrun.
  assert (contents C i off r = contents C i off m ++ contents C i (off + m) (r - m)) as Ec by (rewrite <- contents_app; f_equal; lia).
  split_and!; [by rewrite Ec, (assoc_L (++))|done|]. rewrite Ec. eapply dst_done_app; [exact Hdst'|exact Hd1|]. by rewrite length_contents.
Qed.

(** How many bytes [readi] delivers. *)
Definition readable (i : inode) (off n : Z) : Z :=
  if (isize i <? off) || (2 ^ 32 <=? off + n) then 0 else Z.min n (isize i - off).

Lemma rounds_enough off n : (blocks_left off n < rounds (Z.of_nat n))%nat.
Proof using.
  clear. unfold rounds, blocks_left, BS, BSIZE. pose proof (Nat.mod_upper_bound off 1024).
  assert ((off `mod` 1024 + n + 1024 - 1) / 1024 < n / 1024 + 3)%nat by (apply Nat.Div0.div_lt_upper_bound; pose proof (Nat.div_mod n 1024); pose proof (Nat.mod_upper_bound n 1024); lia).
  assert (Z.of_nat n / 1024 = Z.of_nat (n / 1024)) as -> by (by rewrite Nat2Z.inj_div). destruct (n =? 0)%nat; lia.
Qed.

Lemma readi_run (s : fsst U) C k ip i dst off n :
  fstate dv st sb s C k ip i → 0 ≤ off < 2 ^ 32 → 0 ≤ n < 2 ^ 32 → dst_ok (fuser s) dst (Z.to_nat (readable i off n)) →
  ∃ l' u', let bs := contents C i (Z.to_nat off) (Z.to_nat (readable i off n)) in
    readi ip dst off n s = Ok (readable i off n, bs) (with_user u' (with_flg l' s)) ∧
    txn dv st l' C k ∅ ∧ dst_done (fuser s) dst bs u'.
Proof using.
  clear Hly. intros Hs Ho Hn Hdst. pose proof Hs as [Hsb Ht HC Hm Hi Hd Hf]. pose proof (fo_size _ C i Hf) as Hsz.
  unfold readi. runs (geti_ok ip i) by exact Hi. unfold readable in *.
  assert ((u32 (off + n) <? off) = (2 ^ 32 <=? off + n)) as ->.
  { unfold wrap. destruct (Z.leb_spec (2 ^ 32) (off + n)); [apply Z.ltb_lt|apply Z.ltb_ge]; [|rewrite Z.mod_small; lia].
    rewrite <- (Z.mod_unique (off + n) (2 ^ 32) 1 (off + n - 2 ^ 32)); lia. }
  destruct ((isize i <? off) || (2 ^ 32 <=? off + n)) eqn:E.
  { exists (flg s), (fuser s). split_and!; [by destruct s|done|apply dst_done_nil]. }
  apply orb_false_iff in E as [E1%Z.ltb_ge E2%Z.leb_gt]. rewrite (wrap_small 32 (off + n)) by lia.
  set (r := Z.min n (isize i - off)) in *.
  assert ((if isize i <? off + n then u32 (isize i - off) else n) = Z.of_nat (Z.to_nat r)) as ->.
  { destruct (Z.ltb_spec (isize i) (off + n)); unfold MAXFILE, NDIRECT, NINDIRECT, BSIZE in *; [rewrite wrap_small|]; lia. }
  destruct (readi_loop_run (rounds (Z.of_nat (Z.to_nat r))) s C k ip i dst 0 (Z.to_nat off) (Z.to_nat r) []) as (l' & u' & Hrun & Ht' & Hd');
    [done|lia|done|apply rounds_enough|].
  exists l', u'. rewrite (Z2Nat.id off) in Hrun by lia. change (Z.of_nat 0) with 0 in Hrun. runs Hrun.
  cbn [fst snd app Nat.add]. split_and!; [|done|done]. rewrite swrap_small by (unfold MAXFILE, NDIRECT, NINDIRECT, BSIZE in *; lia).
  rewrite Z2Nat.id by lia. done.
Qed.

(** The bytes of a file; what [readi] delivers to the kernel is a part of them. *)
Definition file_bytes (C : Z → list Z) (i : inode) : list Z := contents C i 0 (Z.to_nat (isize i)).

Lemma contents_part C i off n :
  0 ≤ off → 0 ≤ n → off + n ≤ isize i →
  contents C i (Z.to_nat off) (Z.to_nat n) = take (Z.to_nat n) (drop (Z.to_nat off) (file_bytes C i)).
Proof using.
  clear. intros Ho Hn Hi. unfold file_bytes.
  replace (Z.to_nat (isize i)) with (Z.to_nat off + (Z.to_nat n + Z.to_nat (isize i - off - n)))%nat by lia.
  rewrite !contents_app, drop_app_length', take_app_length'; [done|by rewrite length_contents..].
Qed.

Lemma readi_kernel (s : fsst U) C k ip i off n :
  fstate dv st sb s C k ip i → 0 ≤ off < 2 ^ 32 → 0 ≤ n < 2 ^ 32 →
  ∃ s', readi ip None off n s = Ok (file_read (file_bytes C i) off n) s' ∧ fstate dv st sb s' C k ip i.
Proof using H0.
  clear Hly. intros Hs Ho Hn. destruct (readi_run s C k ip i None off n Hs Ho Hn) as (l' & u' & Hrun & Ht & _); [done|].
  exists (with_user u' (with_flg l' s)). pose proof Hs as [Hsb _ HC Hm Hi Hd Hf]. pose proof (fo_size _ C i Hf) as Hsz.
  split; [|by split]. rewrite Hrun. f_equal. unfold file_read, readable.
  assert (Z.of_nat (length (file_bytes C i)) = isize i) as -> by (unfold file_bytes; rewrite length_contents; lia).
  destruct ((isize i <? off) || (2 ^ 32 <=? off + n)) eqn:E; [done|]. apply orb_false_iff in E as [E1%Z.ltb_ge E2%Z.leb_gt].
  cbn zeta. f_equal. apply contents_part; lia.
Qed.
End io.
