(* ===== verification/FsWrite.v ===== *)
(** * Writing a file

    The run of [writei]: the bytes it was given are in the file, the rest of the
    file and of the disk is as before. *)
From S2P Require Import Prelude Mem Sleeplock Block Bio BioSpec Log LogSpec Fs FsView FsAlloc FsInode FsFile FsRead.
From stdpp Require Import functions list gmap.

#[local] Open Scope Z_scope.

Section write.
Context {U : Type} `{UserLaws U, Running} (dv st : Z) (sb : superblock) (Hly : layout st sb).

Abbreviation used := (used sb).
Abbreviation file_ok := (file_ok sb).
Abbreviation is_bitmap := (is_bitmap sb).

(** ** The source *)

Definition src_ok (u : U) (src : wsrc) (bs : list Z) : Prop :=
  match src with
  | UserSrc va => 0 ≤ va ∧ va + Z.of_nat (length bs) < 2 ^ 64 ∧ ∀ j b, bs !! j = Some b → uview u (va + Z.of_nat j) = Some b
  | KernSrc l => take (length bs) l = bs
  end.

Lemma either_copyin_ok (s : fsst U) src bs m :
  src_ok (fuser s) src bs → (m ≤ length bs)%nat → either_copyin src (Z.of_nat m) s = Ok (0, take m bs) s.
Proof using.
  clear Hly. destruct src as [va|l]; simpl.
  - intros (_ & _ & Hb) Hm. unfold user_op, zoom. rewrite <- (length_take_le bs m) at 1 by done. rewrite ucopyin_ok; [by destruct s|].
    intros j b (Hj & _)%lookup_take_Some. by apply Hb.
  - intros Hl Hm. rewrite Nat2Z.id. assert (take m l = take m bs) as ->; [|done]. rewrite <- Hl, take_take. f_equal. lia.
Qed.

Lemma src_ok_plus u src bs m :
  src_ok u src bs → (m ≤ length bs)%nat → src_ok u (src_plus (Z.of_nat m) src) (drop m bs).
Proof using.
  clear Hly. destruct src as [va|l]; simpl.
  - intros (Hv1 & Hv2 & Hb) Hm. rewrite wrap_small by lia. rewrite length_drop. split_and!; [lia|lia|].
    intros j b Hj. rewrite lookup_drop in Hj. apply Hb in Hj. rewrite <- Hj. f_equal. lia.
  - intros Hl Hm. rewrite Nat2Z.id, length_drop. rewrite <- Hl at 2. by rewrite skipn_firstn_comm.
Qed.

(** ** What a write does *)

(** The file and the disk after [bs] was written at [off]. *)
Record wrote (C : Z → list Z) (i : inode) (C' : Z → list Z) (i' : inode) (off : nat) (bs : list Z) : Prop := {
  w_inode : i' = with_addrs (iaddrs i') i;
  w_addr : ∀ n, (n < NBLOCKS)%nat → addr_of C i n ≠ 0 → addr_of C' i' n = addr_of C i n;
  w_cover : ∀ p, (off ≤ p < off + length bs)%nat → addr_of C' i' (p / BS) ≠ 0;
  w_new : ∀ p, (off ≤ p < off + length bs)%nat → byte_at C' i' p = bs !!! (p - off)%nat;
  w_old : ∀ p, (p / BS < NBLOCKS)%nat → addr_of C i (p / BS) ≠ 0 → ¬ (off ≤ p < off + length bs)%nat → byte_at C' i' p = byte_at C i p;
  w_own : ∀ b, owns C' i' b → owns C i b ∨ used C b = false;
  w_used : ∀ b, 0 ≤ b < sb_size sb → used C b = true → used C' b = true;
  w_frame : ∀ b, 0 ≤ b < sb_size sb → used C b = true → ¬ is_bitmap b → ¬ owns C i b → C' b = C b }.

Lemma wrote_nil C i C' i' off : ext sb C i C' i' → wrote C i C' i' off [].
Proof using.
  clear Hly. intros Hx. split; simpl; try apply Hx; try lia. intros p Hp Ha _. unfold byte_at.
  rewrite (x_addr _ _ _ _ _ Hx), (x_data _ _ _ _ _ Hx) by done. done.
Qed.

Lemma wrote_app C1 i1 C2 i2 C3 i3 off bs1 bs2 :
  file_ok C3 i3 → (∀ p, (off ≤ p < off + length bs1)%nat → (p / BS < NBLOCKS)%nat) →
  wrote C1 i1 C2 i2 off bs1 → wrote C2 i2 C3 i3 (off + length bs1) bs2 → wrote C1 i1 C3 i3 off (bs1 ++ bs2).
Proof using Hly.
  intros Hf Hrng H12 H23. assert (∀ b, owns C3 i3 b → owns C1 i1 b ∨ used C1 b = false) as Hown.
  { intros b Hb. destruct (data_not_bitmap st sb Hly C3 b) as (Hr & _); [by eapply owns_data|].
    destruct (w_own _ _ _ _ _ _ H23 b Hb) as [Hb2|Hu]; [by apply (w_own _ _ _ _ _ _ H12)|right].
    destruct (used C1 b) eqn:E; [|done]. rewrite (w_used _ _ _ _ _ _ H12) in Hu; [done|lia|done]. }
  split; rewrite ?length_app.
  - rewrite (w_inode _ _ _ _ _ _ H23) at 1. rewrite (w_inode _ _ _ _ _ _ H12). done.
  - intros n Hn Ha. rewrite (w_addr _ _ _ _ _ _ H23); rewrite ?(w_addr _ _ _ _ _ _ H12); done.
  - intros p Hp. destruct (decide (p < off + length bs1)%nat) as [Hlt|Hge]; [|apply (w_cover _ _ _ _ _ _ H23); lia].
    pose proof (w_cover _ _ _ _ _ _ H12 p) as Hc. rewrite (w_addr _ _ _ _ _ _ H23); [apply Hc; lia|apply Hrng; lia|apply Hc; lia].
  - intros p Hp. destruct (decide (p < off + length bs1)%nat) as [Hlt|Hge].
    + rewrite (w_old _ _ _ _ _ _ H23), (w_new _ _ _ _ _ _ H12); [|lia|apply Hrng; lia|apply (w_cover _ _ _ _ _ _ H12); lia|lia].
      rewrite lookup_total_app_l; [done|lia].
    + rewrite (w_new _ _ _ _ _ _ H23) by lia. rewrite lookup_total_app_r by lia. f_equal. lia.
  - intros p Hn Ha Hp. rewrite (w_old _ _ _ _ _ _ H23), (w_old _ _ _ _ _ _ H12); try done; try lia.
    by rewrite (w_addr _ _ _ _ _ _ H12).
  - exact Hown.
  - intros b Hb Hu. apply (w_used _ _ _ _ _ _ H23); [done|]. by apply (w_used _ _ _ _ _ _ H12).
  - intros b Hb Hu Hbm Hn. rewrite (w_frame _ _ _ _ _ _ H23); [by apply (w_frame _ _ _ _ _ _ H12)|done|by apply (w_used _ _ _ _ _ _ H12)|done|].
    intros Ho. destruct (w_own _ _ _ _ _ _ H12 b Ho) as [?|?]; [done|congruence].
Qed.

Lemma addr_of_ext C C' i m : C' (ind i) = C (ind i) → addr_of C' i m = addr_of C i m.
Proof using. clear Hly. intros E. unfold addr_of. by rewrite E. Qed.

Lemma overwrite_total off new bs k :
  (off + length new ≤ length bs)%nat →
  overwrite off new bs !!! k = if decide (off ≤ k < off + length new)%nat then new !!! (k - off)%nat else bs !!! k.
Proof using.
  clear Hly. intros Hl. rewrite !list_lookup_total_alt, overwrite_lookup by done. by case_decide.
Qed.

(** Changing a block that is neither in the bitmap nor the indirect block. *)
Lemma plain_write C i b0 d :
  blocks C → meta_used sb C → file_ok C i → (ind i ≠ 0 → b0 ≠ ind i) → ¬ is_bitmap b0 → blockdata d →
  let C' := <[b0 := d]> C in
  blocks C' ∧ meta_used sb C' ∧ file_ok C' i ∧ (∀ m, addr_of C' i m = addr_of C i m) ∧
  (∀ b, 0 ≤ b < sb_size sb → used C' b = used C b).
Proof using Hly.
  intros HC Hm Hf Hni Hnb Hd C'. assert (∀ b, b ≠ b0 → C' b = C b) as Hne by (intros b Hb; unfold C'; by rewrite fn_lookup_insert_ne).
  assert (∀ m, addr_of C' i m = addr_of C i m) as Hadr.
  { intros m. destruct (decide (ind i = 0)) as [E|E]; [unfold addr_of; by rewrite E|]. apply addr_of_ext, Hne. by apply not_eq_sym, Hni. }
  assert (∀ b, 0 ≤ b < sb_size sb → used C' b = used C b) as Hu.
  { intros b Hb. unfold FsAlloc.used. rewrite Hne; [done|]. intros E. destruct Hnb. rewrite <- E. by apply (bblock st sb Hly). }
  pose proof (dstart_pos st sb Hly) as Hd0.
  assert (∀ b, data_block sb C b → data_block sb C' b) as Hdd by (intros b [? ?]; split; [done|]; rewrite Hu; [done|lia]).
  split_and!; [by apply blocks_insert| | |done|done].
  - intros b Hb. rewrite Hu; [by apply Hm|destruct Hly; lia].
  - destruct Hf as [F1 F2 F3 F4 F5 F6]. split; [done|auto| | |done|].
    + intros m Hm' Ha'. rewrite Hadr in *. destruct (F3 m Hm' Ha'). auto.
    + intros m m' H1' H2'. rewrite !Hadr. by apply F4.
    + intros m Hm'. rewrite Hadr. by apply F6.
Qed.

Lemma inodeblock_low b : is_inodeblock sb b → b < dstart sb ∧ ¬ is_bitmap b ∧ 0 ≤ b < sb_size sb.
Proof using Hly.
  destruct Hly as [H1' H2' H3' H4' H5' H6']. unfold is_inodeblock, FsAlloc.is_bitmap, dstart, nbitmap, ninodeblocks, LOGSIZE, MAXOPBLOCKS, IPB, BPB, BSIZE in *.
  dlia.
Qed.

Lemma wrote_data C i off bs :
  blocks C → meta_used sb C → file_ok C i → (off / BS < NBLOCKS)%nat → addr_of C i (off / BS) ≠ 0 →
  (off `mod` BS + length bs ≤ BS)%nat →
  wrote C i (<[addr_of C i (off / BS) := overwrite (off `mod` BS) bs (C (addr_of C i (off / BS)))]> C) i off bs.
Proof using Hly.
  intros HC Hm Hf Hn Ha Hlen. set (a := addr_of C i (off / BS)) in *. set (C' := <[a := _]> C).
  destruct (HC a) as [Hla _]. assert (length (C a) = BS) as Hla' by (unfold BSIZE, BS in *; lia).
  assert (∀ p, (off ≤ p < off + length bs)%nat → (p / BS = off / BS)%nat ∧ (p `mod` BS = off `mod` BS + (p - off))%nat) as Hblk.
  { intros p Hp. pose proof (Nat.div_mod off BS). unfold BS in *.
    split; symmetry; [apply (Nat.div_unique _ _ _ (off `mod` 1024 + (p - off)))|apply (Nat.mod_unique _ _ (off / 1024))]; lia. }
  assert (∀ m, addr_of C' i m = addr_of C i m) as Hadr.
  { intros m. apply addr_of_ext. unfold C'. rewrite fn_lookup_insert_ne; [done|]. by apply (fo_addr _ C i Hf). }
  destruct (fo_addr _ C i Hf _ Hn Ha) as [Hdb _]. destruct (data_not_bitmap st sb Hly C _ Hdb) as (_ & _ & Hnb).
  split; [by destruct i|auto| | | | | |].
  - intros p Hp. destruct (Hblk p Hp) as [-> _]. by rewrite Hadr.
  - intros p Hp. unfold byte_at. destruct (Hblk p Hp) as [-> ->]. rewrite Hadr. fold a. unfold C'. rewrite fn_lookup_insert.
    rewrite overwrite_total by lia. rewrite decide_True by lia. f_equal. lia.
  - intros p Hpn Hpa Hp. unfold byte_at. rewrite Hadr. destruct (decide (addr_of C i (p / BS) = a)) as [E|E].
    + assert (p / BS = off / BS)%nat as E' by (by apply (fo_inj _ C i Hf); [..|congruence|]). rewrite E. unfold C'. rewrite fn_lookup_insert.
      rewrite overwrite_total by lia. rewrite decide_False; [done|]. pose proof (Nat.div_mod p BS). pose proof (Nat.div_mod off BS).
      unfold BS in *. lia.
    + unfold C'. by rewrite fn_lookup_insert_ne.
  - intros b [Hb Ho]. left. split; [done|]. destruct Ho as [?|(m & Hm' & <-)]; [by left|right]. exists m. by rewrite Hadr.
  - intros b Hb Hu. unfold FsAlloc.used, C'. rewrite fn_lookup_insert_ne; [done|]. intros E. destruct Hnb. fold a. rewrite E. by apply (bblock st sb Hly).
  - intros b Hb Hu Hbm Hno. unfold C'. rewrite fn_lookup_insert_ne; [done|]. intros <-. destruct Hno. split; [done|right]. by exists (off / BS)%nat.
Qed.

(** ** The loop of [writei] *)

Lemma fstate_weaken (s : fsst U) C k k' ip i : (k' ≤ k)%nat → fstate dv st sb s C k ip i → fstate dv st sb s C k' ip i.
Proof using. clear Hly. intros Hk [? ? ? ? ? ? ?]. split; try done. by eapply txn_weaken. Qed.

(** One round after [bmap]: the chunk goes to its block. *)
Lemma write_chunk (s : fsst U) C k ip i off bs m src :
  fstate dv st sb s C (S k) ip i → (off / BS < NBLOCKS)%nat → addr_of C i (off / BS) ≠ 0 →
  src_ok (fuser s) src bs → (m ≤ length bs)%nat → (off `mod` BS + m ≤ BS)%nat → Forall is_byte bs →
  ∃ b l1 l2 l3 l4 C', buf_op (bread dv (addr_of C i (off / BS))) s = Ok b (with_flg l1 s) ∧
    either_copyin src (Z.of_nat m) (with_flg l1 s) = Ok (0, take m bs) (with_flg l1 s) ∧
    buf_op (setb b (λ x, set_data (overwrite (off `mod` BS) (take m bs) (data x)) x)) (with_flg l1 s) = Ok () (with_flg l2 s) ∧
    log_op (log_write b) (with_flg l2 s) = Ok () (with_flg l3 s) ∧
    buf_op (brelse b) (with_flg l3 s) = Ok () (with_flg l4 s) ∧
    fstate dv st sb (with_flg l4 s) C' k ip i ∧ wrote C i C' i off (take m bs).
Proof using Hly.
  intros Hs Hn Ha Hsrc Hm Hmod Hby. pose proof Hs as [Hsb Ht HC Hme Hi Hd Hf]. set (a := addr_of C i (off / BS)) in *.
  destruct (fo_addr _ C i Hf _ Hn Ha) as [[Hdr _] _].
  destruct (rmw_run dv st s C k ∅ a (overwrite (off `mod` BS) (take m bs)) Ht) as (b & l1 & l4 & Hrun1 & _ & _ & (l2 & l3 & Hrun2 & Hrun3 & Hrun4) & Ht');
    [intros n0; by rewrite lookup_empty|apply size_empty_spare|by apply (data_home st sb Hly)|].
  destruct (HC a) as [Hla Hba]. assert (length (C a) = BS) as Hla' by (unfold BSIZE, BS in *; lia).
  assert (blockdata (overwrite (off `mod` BS) (take m bs) (C a))) as Hbd.
  { split; [rewrite length_overwrite; [done|rewrite length_take_le; lia]|]. apply Forall_overwrite; [by apply Forall_take|done]. }
  destruct (fo_addr _ C i Hf _ Hn Ha) as [Hdb Hni]. destruct (data_not_bitmap st sb Hly C _ Hdb) as (_ & _ & Hnb).
  destruct (plain_write C i a _ HC Hme Hf (λ _, Hni) Hnb Hbd) as (HC' & Hm' & Hf' & _).
  exists b, l1, l2, l3, l4, (<[a := overwrite (off `mod` BS) (take m bs) (C a)]> C). split_and!; try done.
  - by apply either_copyin_ok.
  - apply wrote_data; try done. rewrite length_take_le; lia.
Qed.

Lemma writei_loop_run fuel (s : fsst U) C k ip i src tot off bs :
  fstate dv st sb s C (6 * blocks_left off (length bs) + k) ip i → Z.of_nat (off + length bs) ≤ MAXFILE * BSIZE →
  src_ok (fuser s) src bs → Forall is_byte bs → (blocks_left off (length bs) < fuel)%nat →
  ∃ t C' i' l', writei_loop fuel ip src (Z.of_nat tot) (Z.of_nat off) (Z.of_nat (tot + length bs)) s =
      Ok (Z.of_nat (tot + t), Z.of_nat (off + t)) (with_flg l' (with_inode ip i' s)) ∧
    (t ≤ length bs)%nat ∧ ((t < length bs)%nat → disk_full sb C') ∧
    fstate dv st sb (with_flg l' (with_inode ip i' s)) C' k ip i' ∧ wrote C i C' i' off (take t bs).
Proof using Hly.
  revert s C i src tot off bs. induction fuel as [|fuel IH]; intros s C i src tot off bs Hs Hsz Hsrc Hby Hfuel; [lia|].
  set (r := length bs) in *. cbn [writei_loop]. destruct (Z.ltb_spec (Z.of_nat tot) (Z.of_nat (tot + r))) as [Hlt|Hge].
  2: { exists 0%nat, C, i, (flg s). assert (with_flg (flg s) (with_inode ip i s) = s) as Es.
       { rewrite <- (fstate_same _ _ _ _ _ _ _ _ _ Hs). by destruct s. }
       rewrite !Nat.add_0_r, Es. split_and!; [done|lia|lia|by eapply fstate_weaken, Hs; lia|]. rewrite take_0. apply wrote_nil, ext_refl. }
  destruct (blocks_left_step off r) as (Hm1 & Hm2 & Hm3); [lia|]. set (m := (r `min` (BS - off `mod` BS))%nat) in *.
  destruct (Z_div_BSIZE off) as [-> ->]. assert (off / BS < NBLOCKS)%nat as Hn.
  { apply Nat.Div0.div_lt_upper_bound. unfold MAXFILE, NBLOCKS, NDIRECT, NINDIRECT, BSIZE, BS in *. lia. }
  set (k1 := (S (6 * blocks_left (off + m) (r - m) + k))%nat).
  destruct (bmap_run dv st sb Hly s C k1 ip i (off / BS)) as (C1 & i1 & l1 & Hrun1 & Hs1 & Hx1 & Hfull); [eapply fstate_weaken, Hs; lia|done|].
  rewrite (bind_ok _ _ _ _ _ Hrun1). pose proof (wrote_nil C i C1 i1 off Hx1) as Hw1.
  destruct (Z.eqb_spec (addr_of C1 i1 (off / BS)) 0) as [Ha|Ha].
  { exists 0%nat, C1, i1, l1. rewrite !Nat.add_0_r. split_and!; [done|lia|by intros _; apply Hfull|by eapply fstate_weaken, Hs1; lia|by rewrite take_0]. }
  set (s1 := with_flg l1 (with_inode ip i1 s)) in *. pose proof Hs1 as [_ _ _ _ Hi1 Hd1 _]. runs (geti_ok ip i1 s1 Hi1). rewrite Hd1.
  destruct (write_chunk s1 C1 (6 * blocks_left (off + m) (r - m) + k) ip i1 off bs m src Hs1 Hn Ha Hsrc) as
    (b & l2 & l3 & l4 & l5 & C2 & R1 & R2 & R3 & R4 & R5 & Hs2 & Hw2); [lia|lia|done|].
  assert (Z.min (Z.of_nat (tot + r) - Z.of_nat tot) (BSIZE - Z.of_nat (off `mod` BS)) = Z.of_nat m) as ->.
  { unfold m, BSIZE, BS. pose proof (Nat.mod_upper_bound off 1024). lia. }
  runs R1. runs R2. cbn [fst snd]. rewrite !Nat2Z.id. runs R3. cbn [Z.eqb]. runs R4. runs R5.
  assert (length (take m bs) = m) as Hlm by (apply length_take_le; lia).
  assert (length (drop m bs) = r - m)%nat as Hld by (by rewrite length_drop).
  destruct (IH (with_flg l5 s1) C2 i1 (src_plus (Z.of_nat m) src) (tot + m)%nat (off + m)%nat (drop m bs)) as (t & C' & i' & l' & Hrun & Htr & Hfl & Hs' & Hw');
    [by rewrite Hld|rewrite Hld; lia|apply src_ok_plus; [done|lia]|by apply Forall_drop|rewrite Hld; lia|].
  rewrite Hld in *. exists (m + t)%nat, C', i', l'.
  assert (with_flg l' (with_inode ip i' (with_flg l5 s1)) = with_flg l' (with_inode ip i' s)) as Es.
  { unfold s1, with_inode, with_flg. simpl. by rewrite list_insert_insert_eq. }
  rewrite Es in *. replace (Z.of_nat (tot + m + (r - m))) with (Z.of_nat (tot + r)) in Hrun by lia.
  rewrite <- (Nat2Z.inj_add tot m), wrap_small by (unfold MAXFILE, NDIRECT, NINDIRECT, BSIZE in *; lia). rewrite <- Nat2Z.inj_add, Hrun.
  split_and!; [f_equal; f_equal; lia|lia|intros; apply Hfl; lia|done|].
  assert (∀ p, (off ≤ p < off + length (take m bs))%nat → (p / BS < NBLOCKS)%nat) as Hrng.
  { intros p Hp. apply Nat.Div0.div_lt_upper_bound. unfold MAXFILE, NBLOCKS, NDIRECT, NINDIRECT, BSIZE, BS in *. lia. }
  replace (take (m + t) bs) with (take m bs ++ take t (drop m bs)) by (rewrite <- (take_drop m bs) at 3; rewrite take_app_add'; [done|lia]).
  apply (wrote_app _ _ C2 i1); [apply Hs'|done| |by rewrite Hlm].
  apply (wrote_app C i C1 i1 C2 i1 off []); [apply Hs2|simpl; lia|done|by rewrite Nat.add_0_r].
Qed.

(** ** [writei] *)

(** The fields of an inode that [writei] leaves alone fit their types. *)
Definition small_fields (i : inode) : Prop :=
  - 2 ^ 15 ≤ itype i < 2 ^ 15 ∧ - 2 ^ 15 ≤ imajor i < 2 ^ 15 ∧ - 2 ^ 15 ≤ iminor i < 2 ^ 15 ∧ - 2 ^ 15 ≤ inlink i < 2 ^ 15.

Lemma file_fits C i : file_ok C i → small_fields i → inode_fits i.
Proof using Hly.
  intros Hf (H1' & H2' & H3' & H4'). pose proof (fo_size _ C i Hf) as Hsz. split; try done; [unfold MAXFILE, NDIRECT, NINDIRECT, BSIZE in *; lia|].
  split; [apply (fo_len _ C i Hf)|]. apply Forall_lookup. intros n a Hn. pose proof (lookup_lt_Some _ _ _ Hn) as Hlt.
  rewrite (fo_len _ C i Hf) in Hlt. apply list_lookup_total_correct in Hn. destruct (decide (a = 0)) as [->|Ha]; [lia|].
  assert (data_block sb C a) as [Hd _].
  { destruct (decide (n = NDIRECT)) as [->|]; [subst a; by apply (fo_ind _ C i Hf)|].
    assert (addr_of C i n = a) as E by (unfold addr_of; destruct (Nat.ltb_spec n NDIRECT); [done|lia]).
    rewrite <- E. apply (fo_addr _ C i Hf); [unfold NBLOCKS, NDIRECT, NINDIRECT in *; lia|congruence]. }
  destruct Hly. pose proof (dstart_pos st sb Hly). lia.
Qed.

(** The file after its size was set: blocks up to the new size are there. *)
Lemma file_ok_resize C i sz :
  file_ok C i → 0 ≤ sz ≤ MAXFILE * BSIZE → (∀ n, Z.of_nat n * BSIZE < sz → addr_of C i n ≠ 0) → file_ok C (set_isize sz i).
Proof using. clear Hly. intros [F1 F2 F3 F4 F5 F6] Hsz Hfull. by split. Qed.

(** What a call of [writei] that returns [t] leaves behind. *)
Record written (C : Z → list Z) (i : inode) (C' : Z → list Z) (i' : inode) (off : nat) (bs : list Z) : Prop := {
  wn_same : (idev i', inum i', iref i', ilk i', ivalid i', itype i', imajor i', iminor i', inlink i') =
    (idev i, inum i, iref i, ilk i, ivalid i, itype i, imajor i, iminor i, inlink i);
  wn_size : isize i' = Z.max (isize i) (Z.of_nat (off + length bs));
  wn_bytes : ∀ p, Z.of_nat p < isize i' →
    byte_at C' i' p = if decide (off ≤ p < off + length bs)%nat then bs !!! (p - off)%nat else byte_at C i p;
  wn_disk : disk_fields (of_disk (dinode_off (inum i)) (C' (IBLOCK (inum i) sb)) i') = disk_fields i';
  wn_own : ∀ b, owns C' i' b → owns C i b ∨ used C b = false;
  wn_used : ∀ b, 0 ≤ b < sb_size sb → used C b = true → used C' b = true;
  wn_frame : ∀ b, 0 ≤ b < sb_size sb → used C b = true → ¬ is_bitmap b → ¬ owns C i b → b ≠ IBLOCK (inum i) sb → C' b = C b }.

(** The end of [writei]: the size and the inode on disk. *)
Lemma wrote_written C i C1 i1 off bs sz :
  blocks C1 → meta_used sb C1 → file_ok C i → file_ok C1 i1 → small_fields i → 0 ≤ inum i < sb_ninodes sb →
  Z.of_nat off ≤ isize i → Z.of_nat (off + length bs) ≤ MAXFILE * BSIZE → sz = Z.max (isize i) (Z.of_nat (off + length bs)) →
  wrote C i C1 i1 off bs →
  let i2 := set_isize sz i1 in let C2 := updated sb C1 i2 in
  written C i C2 i2 off bs ∧ blocks C2 ∧ meta_used sb C2 ∧ file_ok C2 i2.
Proof using Hly.
  intros HC Hm Hf0 Hf Hsm Hn Hoff Hmax Hsz [W1 W2 W3 W4 W5 W6 W7 W8] i2 C2. pose proof (fo_size _ C i Hf0) as Hsz0.
  assert (inum i1 = inum i ∧ isize i1 = isize i) as [En Es] by (by rewrite W1).
  assert (∀ p, Z.of_nat p < sz → ¬ (off ≤ p < off + length bs)%nat → Z.of_nat p < isize i) as Hold by lia.
  assert (∀ n, Z.of_nat n * BSIZE < sz → addr_of C1 i1 n ≠ 0) as Hfull.
  { intros n Hn'. destruct (decide (Z.of_nat n * BSIZE < isize i)); [apply (fo_full _ C1 i1 Hf); lia|].
    replace n with (n * BS / BS)%nat by (by rewrite Nat.div_mul). apply W3. unfold BS, BSIZE in *. lia. }
  assert (file_ok C1 i2) as Hf2 by (apply file_ok_resize; [done|lia|done]).
  assert (small_fields i2) as Hsm2 by (unfold small_fields, i2; simpl; by rewrite W1).
  assert (inode_fits i2) as Hfit by (by eapply file_fits).
  destruct (iblock st sb Hly (inum i) Hn) as [_ Hib]. destruct (inodeblock_low _ Hib) as (Hlow & Hnb & Hrg).
  assert (inum i2 = inum i) as En2 by done.
  assert (∀ b, data_block sb C1 b → b ≠ IBLOCK (inum i) sb) as Hdn by (intros b [? _]; lia).
  assert (blockdata (put_dinode (dinode_off (inum i)) i2 (C1 (IBLOCK (inum i) sb)))) as Hbd.
  { destruct (HC (IBLOCK (inum i) sb)) as [Hl Hb]. split; [|by apply put_dinode_bytes].
    rewrite length_put_dinode; [done|done|]. apply dinode_off_ok; [done|lia]. }
  destruct (plain_write C1 i2 (IBLOCK (inum i) sb) (put_dinode (dinode_off (inum i)) i2 (C1 (IBLOCK (inum i) sb))) HC Hm Hf2) as (HC2 & Hm2 & Hf2' & Hadr & Hu2); [|exact Hnb|exact Hbd|].
  { intros Hi E. apply (Hdn (ind i2)); [by apply (fo_ind _ C1 i2 Hf2)|done]. }
  unfold C2, updated. rewrite En2. set (C3 := <[IBLOCK (inum i) sb := _]> C1) in *.
  assert (∀ b, b ≠ IBLOCK (inum i) sb → C3 b = C1 b) as Hne by (intros b Hb; unfold C3; by rewrite fn_lookup_insert_ne).
  split; [|done]. split.
  - simpl. by rewrite W1.
  - done.
  - intros p Hp. destruct (in_file sb C1 i2 p Hf2 Hp) as [Hpn Hpa].
    assert (byte_at C3 i2 p = byte_at C1 i1 p) as ->.
    { unfold byte_at. rewrite Hadr. rewrite Hne; [done|]. apply Hdn. by apply (fo_addr _ C1 i2 Hf2). }
    case_decide as Hr; [by apply W4|]. destruct (in_file sb C i p Hf0) as [? ?]; [by apply Hold|]. by apply W5.
  - unfold C3. rewrite fn_lookup_insert. apply dinode_roundtrip; [done|]. apply dinode_off_ok; [apply HC|lia].
  - intros b [Hb Ho]. apply W6. split; [done|]. destruct Ho as [Ho|(n & Hn' & Ho)]; [by left|right]. exists n. by rewrite <- Ho, Hadr.
  - intros b Hb Hu. rewrite Hu2 by done. by apply W7.
  - intros b Hb Hu Hbm Hno Hbi. rewrite Hne by done. by apply W8.
Qed.

Lemma writei_run (s : fsst U) C k ip i src off bs :
  fstate dv st sb s C (6 * blocks_left off (length bs) + S k) ip i → small_fields i → 0 ≤ inum i < sb_ninodes sb →
  Z.of_nat off ≤ isize i → Z.of_nat (off + length bs) ≤ MAXFILE * BSIZE → src_ok (fuser s) src bs → Forall is_byte bs →
  ∃ t C' i' l', writei ip src (Z.of_nat off) (Z.of_nat (length bs)) s = Ok (Z.of_nat t) (with_flg l' (with_inode ip i' s)) ∧
    (t ≤ length bs)%nat ∧ ((t < length bs)%nat → disk_full sb C') ∧
    fstate dv st sb (with_flg l' (with_inode ip i' s)) C' k ip i' ∧ written C i C' i' off (take t bs).
Proof using Hly.
  intros Hs Hsm Hn Hoff Hmax Hsrc Hby. pose proof Hs as [Hsb Ht HC Hm Hi Hd Hf]. unfold writei. runs (geti_ok ip i s Hi).
  assert (u32 (Z.of_nat off + Z.of_nat (length bs)) = Z.of_nat off + Z.of_nat (length bs)) as -> by (apply wrap_small; unfold MAXFILE, NDIRECT, NINDIRECT, BSIZE in *; lia).
  destruct (Z.ltb_spec (isize i) (Z.of_nat off)); [lia|]. destruct (Z.ltb_spec (Z.of_nat off + Z.of_nat (length bs)) (Z.of_nat off)); [lia|]. cbn [orb].
  destruct (Z.ltb_spec (MAXFILE * BSIZE) (Z.of_nat off + Z.of_nat (length bs))); [lia|].
  destruct (writei_loop_run (rounds (Z.of_nat (length bs))) s C (S k) ip i src 0 off bs Hs Hmax Hsrc Hby (rounds_enough off _)) as
    (t & C1 & i1 & l1 & Hrun & Htr & Hfl & Hs1 & Hw). cbn [Nat.add] in Hrun. runs Hrun. cbn [fst snd].
  set (s1 := with_flg l1 (with_inode ip i1 s)) in *. pose proof Hs1 as [_ Ht1 HC1 Hm1 Hi1 Hd1 Hf1]. runs (geti_ok ip i1 s1 Hi1).
  assert (isize i1 = isize i) as Es by (by rewrite (w_inode _ _ _ _ _ _ Hw)).
  set (sz := Z.max (isize i) (Z.of_nat (off + t))). set (i2 := set_isize sz i1).
  assert (when (isize i1 <? Z.of_nat (off + t)) (seti ip (set_isize (Z.of_nat (off + t)))) s1 = Ok () (with_flg l1 (with_inode ip i2 s))) as Hsz.
  { assert (with_flg l1 (with_inode ip i2 s) = with_inode ip i2 s1) as -> by (unfold s1, with_flg, with_inode; simpl; by rewrite list_insert_insert_eq).
    rewrite Es. destruct (Z.ltb_spec (isize i) (Z.of_nat (off + t))); cbn [when].
    - rewrite (seti_ok ip _ i1 s1 Hi1). unfold i2, sz. by rewrite Z.max_r by lia.
    - unfold i2, sz. rewrite Z.max_l, <- Es by lia. unfold with_inode. rewrite list_insert_id; [by destruct s1|]. rewrite Hi1. by destruct i1. }
  runs Hsz. set (s2 := with_flg l1 (with_inode ip i2 s)).
  assert (length (take t bs) = t) as Hlt by (apply length_take_le; lia).
  destruct (wrote_written C i C1 i1 off (take t bs) sz HC1 Hm1 Hf Hf1 Hsm Hn Hoff) as (Hwn & HC2 & Hm2 & Hf2); [rewrite Hlt; lia|by rewrite Hlt|done|].
  assert (itab s2 !! ip = Some i2) as Hi2 by (by eapply with_inode_lookup).
  assert (inum i2 = inum i) as En by (unfold i2; simpl; by rewrite (w_inode _ _ _ _ _ _ Hw)).
  destruct (iupdate_run dv st sb Hly s2 C1 k ∅ ip i2) as (l3 & Hrun3 & Ht3); [done|done|apply size_empty_spare|intros n; by rewrite lookup_empty|done|done|by rewrite En|].
  runs Hrun3. exists t, (updated sb C1 i2), i2, l3. split_and!; [|done| | |done].
  - rewrite swrap_small; [done|lia|]. unfold MAXFILE, NDIRECT, NINDIRECT, BSIZE in *. lia.
  - intros Hlt'. intros b Hb. destruct (iblock st sb Hly (inum i2)) as [_ Hib]; [by rewrite En|]. destruct (inodeblock_low _ Hib) as (_ & Hnb & _).
    unfold FsAlloc.used, updated. rewrite fn_lookup_insert_ne; [by apply (Hfl Hlt')|]. intros E. destruct Hnb. rewrite E. by apply (bblock st sb Hly).
  - split; try done.
Qed.
End write.
