(* ===== verification/FsDir.v ===== *)
(** * Directories

    A directory as the list of its entries: [dirlookup] finds the first entry
    with the name, [dirlink] adds one that [dirlookup] finds. *)
From S2P Require Import Prelude Mem Sleeplock Block Bio BioSpec Log LogSpec Fs FsView FsAlloc FsInode FsFile FsRead FsWrite.
From stdpp Require Import functions list gmap.

#[local] Open Scope Z_scope.

(** ** Names *)

(** The characters of a name up to its end. *)
Fixpoint chars (s : list Z) (n : nat) : list Z :=
  match n with
  | O => []
  | S n => if hd 0 s =? 0 then [] else hd 0 s :: chars (tl s) n
  end.

Lemma strncmp_name_chars s t n : strncmp_name s t n = 0 ↔ chars s n = chars t n.
Proof.
  revert s t; induction n as [|n IH]; intros s t; [done|]. cbn [strncmp_name chars].
  destruct (Z.eqb_spec (hd 0 s) 0) as [Es|Es]; cbn [orb].
  - rewrite Es. destruct (Z.eqb_spec (hd 0 t) 0) as [Et|Et]; [|split; [lia|done]]. rewrite Et. done.
  - destruct (Z.eqb_spec (hd 0 s) (hd 0 t)) as [E|E]; cbn [negb].
    + rewrite IH, <- E. destruct (Z.eqb_spec (hd 0 s) 0); [done|]. split; congruence.
    + split; [lia|]. destruct (Z.eqb_spec (hd 0 t) 0); congruence.
Qed.

Lemma chars_zeros k n : chars (replicate k 0) n = [].
Proof. destruct n; [done|]. by destruct k. Qed.

Lemma chars_strncpy s n : chars (strncpy_name s n) n = chars s n.
Proof.
  revert s; induction n as [|n IH]; intros s; [done|]. cbn [strncpy_name chars]. destruct (Z.eqb_spec (hd 0 s) 0) as [E|E]; [done|].
  cbn [hd tl]. destruct (Z.eqb_spec (hd 0 s) 0); [done|]. by rewrite IH.
Qed.

Lemma length_strncpy s n : length (strncpy_name s n) = n.
Proof.
  revert s; induction n as [|n IH]; intros s; [done|]. cbn [strncpy_name]. destruct (hd 0 s =? 0); [by rewrite length_replicate|].
  simpl. by rewrite IH.
Qed.

Lemma strncpy_bytes s n : Forall is_byte s → Forall is_byte (strncpy_name s n).
Proof.
  revert s; induction n as [|n IH]; intros s Hs; [done|]. cbn [strncpy_name]. destruct (hd 0 s =? 0).
  - apply Forall_replicate. by vm_compute.
  - destruct s as [|c s]; simpl; [|by inversion Hs; constructor; auto]. constructor; [by vm_compute|]. by apply IH.
Qed.

(** ** Entries *)

Lemma length_mkdirent ino nm : length (mkdirent ino nm) = DIRENT_SIZE.
Proof.
  unfold mkdirent. assert (length ([0; 0] ++ strncpy_name nm DIRSIZ) = DIRENT_SIZE) as E by (by rewrite length_app, length_strncpy).
  rewrite length_wr; [done|]. rewrite E. by vm_compute; lia.
Qed.

Lemma mkdirent_bytes ino nm : Forall is_byte nm → Forall is_byte (mkdirent ino nm).
Proof.
  intros Hn. apply Forall_wr. apply Forall_app. split; [repeat constructor; by vm_compute|]. by apply strncpy_bytes.
Qed.

Lemma mkdirent_fields ino nm :
  0 ≤ ino < 2 ^ 16 → de_inum (mkdirent ino nm) = ino ∧ de_name (mkdirent ino nm) = strncpy_name nm DIRSIZ.
Proof.
  intros Hi. assert (length ([0; 0] ++ strncpy_name nm DIRSIZ) = DIRENT_SIZE) as E by (by rewrite length_app, length_strncpy).
  unfold DIRENT_SIZE in E. split.
  - unfold de_inum, mkdirent. rewrite rd_wr by lia. change (256 ^ Z.of_nat 2) with (2 ^ 16). by apply Z.mod_small.
  - unfold de_name, mkdirent, wr. rewrite slice_overwrite_ne by (rewrite ?length_le_split; lia). unfold slice.
    change (take DIRSIZ (strncpy_name nm DIRSIZ) = strncpy_name nm DIRSIZ). rewrite take_ge; [done|]. by rewrite length_strncpy.
Qed.

(** Does an entry have this name? *)
Definition de_match (nm de : list Z) : bool := negb (de_inum de =? 0) && (namecmp nm (de_name de) =? 0).

(** The first entry with the name: its index and inode number. *)
Fixpoint dir_find (nm : list Z) (k : nat) (des : list (list Z)) : option (nat * Z) :=
  match des with
  | [] => None
  | de :: des => if de_match nm de then Some (k, de_inum de) else dir_find nm (S k) des
  end.

(** Names that compare equal are found alike. *)
Lemma dir_find_same nm nm' j des : namecmp nm nm' = 0 → dir_find nm j des = dir_find nm' j des.
Proof.
  intros He. apply strncmp_name_chars in He. revert j; induction des as [|de des IH]; intros j; simpl; [done|]. rewrite IH.
  assert (de_match nm de = de_match nm' de) as ->; [|done]. unfold de_match, namecmp. f_equal.
  apply eq_iff_eq_true. rewrite !Z.eqb_eq, !strncmp_name_chars. by rewrite He.
Qed.

(** The first free slot, or the end. *)
Fixpoint dir_slot (k : nat) (des : list (list Z)) : nat :=
  match des with
  | [] => k
  | de :: des => if de_inum de =? 0 then k else dir_slot (S k) des
  end.

(** A directory with an entry put in slot [k]. *)
Definition dir_put (k : nat) (de : list Z) (des : list (list Z)) : list (list Z) :=
  if decide (k < length des)%nat then <[k := de]> des else des ++ [de].

Lemma dir_slot_le j des : (j ≤ dir_slot j des ≤ j + length des)%nat.
Proof. revert j; induction des as [|de des IH]; intros j; simpl; [lia|]. destruct (de_inum de =? 0); [lia|]. specialize (IH (S j)). lia. Qed.

(** The new entry is found under its name, others as before. *)
Lemma dir_find_put nm j ino des nm' :
  0 < ino < 2 ^ 16 → (namecmp nm' nm = 0 → dir_find nm' j des = None) →
  dir_find nm' j (dir_put (dir_slot j des - j) (mkdirent ino nm) des) =
    if namecmp nm' nm =? 0 then Some (dir_slot j des, ino) else dir_find nm' j des.
Proof.
  intros Hi. destruct (mkdirent_fields ino nm) as [E1 E2]; [lia|].
  assert (de_match nm' (mkdirent ino nm) = (namecmp nm' nm =? 0)) as Em.
  { unfold de_match. rewrite E1, E2. destruct (Z.eqb_spec ino 0); [lia|]. cbn [negb andb]. unfold namecmp.
    apply eq_iff_eq_true. rewrite !Z.eqb_eq, !strncmp_name_chars, chars_strncpy. done. }
  revert j; induction des as [|de des IH]; intros j Hnone.
  - simpl. unfold dir_put. simpl. rewrite Em, E1. done.
  - simpl in Hnone |- *. destruct (Z.eqb_spec (de_inum de) 0) as [E0|E0].
    + rewrite Nat.sub_diag. unfold dir_put. rewrite decide_True by (simpl; lia). simpl. rewrite Em, E1.
      assert (de_match nm' de = false) as -> by (unfold de_match; by rewrite E0). done.
    + pose proof (dir_slot_le (S j) des). replace (dir_slot (S j) des - j)%nat with (S (dir_slot (S j) des - S j)) by lia.
      assert (dir_put (S (dir_slot (S j) des - S j)) (mkdirent ino nm) (de :: des) = de :: dir_put (dir_slot (S j) des - S j) (mkdirent ino nm) des) as ->.
      { unfold dir_put. simpl. repeat case_decide; try lia; done. }
      simpl. destruct (de_match nm' de); [|by apply IH]. destruct (Z.eqb_spec (namecmp nm' nm) 0) as [E|]; [|done]. by apply Hnone in E.
Qed.

Section dir.
Context {U : Type} `{UserMem U, HL : !UserLaws U, Running} (dv st : Z) (sb : superblock) (Hly : layout st sb).

(** The entries of a directory with [n] of them. *)
Definition entries (C : Z → list Z) (i : inode) (n : nat) : list (list Z) := (λ k, contents C i (16 * k) 16) <$> seq 0 n.

Lemma length_entries C i n : length (entries C i n) = n.
Proof. unfold entries. by rewrite length_fmap, length_seq. Qed.

Lemma entries_lookup C i n k : (k < n)%nat → entries C i n !! k = Some (contents C i (16 * k) 16).
Proof. intros Hk. unfold entries. by rewrite list_lookup_fmap, lookup_seq_lt. Qed.

(** A directory of [n] entries that the operation has locked. *)
Record dirstate (s : fsst U) (C : Z → list Z) (k : nat) (dp : nat) (i : inode) (n : nat) : Prop := {
  dr_state : fstate dv st sb s C k dp i;
  dr_type : itype i = T_DIR;
  dr_size : isize i = Z.of_nat (16 * n) }.

Lemma read_dirent_run (s : fsst U) C k dp i n j msg :
  dirstate s C k dp i n → (j < n)%nat →
  ∃ l', read_dirent dp (Z.of_nat (16 * j)) msg s = Ok (contents C i (16 * j) 16) (with_flg l' s) ∧ txn dv st l' C k ∅.
Proof using HL.
  clear Hly. intros [Hs Hty Hsz] Hj. pose proof (fo_size _ C i (fs_file _ _ _ _ _ _ _ _ Hs)) as Hmax. unfold MAXFILE, NDIRECT, NINDIRECT, BSIZE in Hmax.
  assert (readable i (Z.of_nat (16 * j)) (Z.of_nat DIRENT_SIZE) = Z.of_nat DIRENT_SIZE) as Hrd.
  { unfold readable, DIRENT_SIZE. destruct (Z.ltb_spec (isize i) (Z.of_nat (16 * j))); [lia|].
    destruct (Z.leb_spec (2 ^ 32) (Z.of_nat (16 * j) + Z.of_nat 16)); [lia|]. cbn [orb]. lia. }
  destruct (readi_run dv st sb s C k dp i None (Z.of_nat (16 * j)) (Z.of_nat DIRENT_SIZE) Hs) as (l' & u' & Hrun & Ht & Hu); [lia|by vm_compute|done|].
  simpl in Hu. subst u'. exists l'. split; [|done]. unfold read_dirent. runs Hrun. rewrite Hrd. cbn [fst snd]. rewrite Z.eqb_refl, !Nat2Z.id. done.
Qed.

Lemma dirstate_flg s C k dp i n l' : dirstate s C k dp i n → txn dv st l' C k ∅ → dirstate (with_flg l' s) C k dp i n.
Proof using. clear Hly. intros [[? ? ? ? ? ? ?] ? ?] Ht. by split. Qed.

(** The search, given the result of [iget] where it ends in one. *)
Lemma dirlookup_loop_run (s : fsst U) C k dp i n nm m j :
  dirstate s C k dp i n → (j + m = n)%nat →
  ∃ l', dirlookup_loop dp nm (Z.of_nat (16 * j)) m s =
      (match dir_find nm j (drop j (entries C i n)) with
       | None => mret None
       | Some (e, ino) => ip ← iget dv ino; mret (Some (ip, Z.of_nat (16 * e)))
       end) (with_flg l' s) ∧ txn dv st l' C k ∅.
Proof using HL.
  clear Hly. revert s j. induction m as [|m IH]; intros s j Hs Hj.
  { exists (flg s). rewrite drop_ge by (rewrite length_entries; lia). split; [by destruct s|apply Hs]. }
  cbn [dirlookup_loop]. destruct (read_dirent_run s C k dp i n j "dirlookup read" Hs) as (l1 & Hrun & Ht1); [lia|]. runs Hrun.
  pose proof (dirstate_flg s C k dp i n l1 Hs Ht1) as Hs1. rewrite (drop_S _ _ _ (entries_lookup C i n j ltac:(lia))). cbn [dir_find].
  set (de := contents C i (16 * j) 16). replace (Z.of_nat (16 * j) + 16) with (Z.of_nat (16 * S j)) by lia.
  destruct (IH (with_flg l1 s) (S j) Hs1) as (l2 & Hrun2 & Ht2); [lia|]. unfold de_match.
  destruct (Z.eqb_spec (de_inum de) 0) as [E|E]; cbn [negb andb]; [by exists l2|].
  destruct (Z.eqb_spec (namecmp nm (de_name de)) 0) as [E'|E']; [|by exists l2].
  exists l1. split; [|done]. runs (geti_ok dp i) by apply Hs1. by rewrite (fs_dev _ _ _ _ _ _ _ _ (dr_state _ _ _ _ _ _ Hs)).
Qed.

Lemma dirents_size i n : isize i = Z.of_nat (16 * n) → dirents (isize i) = n.
Proof using. clear. intros ->. unfold dirents. dlia. Qed.

Lemma dirlookup_run (s : fsst U) C k dp i n nm :
  dirstate s C k dp i n →
  ∃ l', dirlookup dp nm s =
      (match dir_find nm 0 (entries C i n) with
       | None => mret None
       | Some (e, ino) => ip ← iget dv ino; mret (Some (ip, Z.of_nat (16 * e)))
       end) (with_flg l' s) ∧ txn dv st l' C k ∅.
Proof using HL.
  clear Hly. intros Hs. unfold dirlookup. runs (geti_ok dp i) by apply Hs. rewrite (dr_type _ _ _ _ _ _ Hs). cbn [T_DIR Z.eqb Pos.eqb negb when].
  rewrite ret_bind, (dirents_size _ n (dr_size _ _ _ _ _ _ Hs)). by apply (dirlookup_loop_run s C k dp i n nm n 0).
Qed.

Lemma dirlink_loop_run (s : fsst U) C k dp i n m j :
  dirstate s C k dp i n → (j + m = n)%nat →
  ∃ l', dirlink_loop dp (Z.of_nat (16 * j)) m s = Ok (Z.of_nat (16 * dir_slot j (drop j (entries C i n)))) (with_flg l' s) ∧
    txn dv st l' C k ∅.
Proof using HL.
  clear Hly. revert s j. induction m as [|m IH]; intros s j Hs Hj.
  { exists (flg s). rewrite drop_ge by (rewrite length_entries; lia). split; [by destruct s|apply Hs]. }
  cbn [dirlink_loop]. destruct (read_dirent_run s C k dp i n j "dirlink read" Hs) as (l1 & Hrun & Ht1); [lia|]. runs Hrun.
  pose proof (dirstate_flg s C k dp i n l1 Hs Ht1) as Hs1. rewrite (drop_S _ _ _ (entries_lookup C i n j ltac:(lia))). cbn [dir_slot].
  replace (Z.of_nat (16 * j) + 16) with (Z.of_nat (16 * S j)) by lia. destruct (IH (with_flg l1 s) (S j) Hs1) as (l2 & Hrun2 & Ht2); [lia|].
  destruct (Z.eqb_spec (de_inum (contents C i (16 * j) 16)) 0) as [E|E]; [|by exists l2]. by exists l1.
Qed.

(** The entries after one was written. *)
Lemma entries_written C i C' i' n e de :
  isize i = Z.of_nat (16 * n) → (e ≤ n)%nat → length de = 16%nat → written sb C i C' i' (16 * e) de →
  let n' := Nat.max n (S e) in
  isize i' = Z.of_nat (16 * n') ∧ entries C' i' n' = dir_put e de (entries C i n).
Proof using.
  clear Hly. intros Hsz He Hl [_ W2 W3 _ _ _ _] n'. assert (isize i' = Z.of_nat (16 * n')) as Hsz' by (rewrite W2, Hsz, Hl; lia). split; [done|].
  assert (∀ k, (k < n')%nat → contents C' i' (16 * k) 16 = if decide (k = e) then de else contents C i (16 * k) 16) as Hc.
  { intros k Hk. apply list_eq. intros j. destruct (decide (j < 16)%nat) as [Hj|Hj].
    - unfold contents at 1. rewrite list_lookup_fmap, lookup_seq_lt by done. simpl. rewrite W3 by lia. rewrite Hl.
      destruct (decide (k = e)) as [->|Hne].
      + rewrite decide_True by lia. symmetry. rewrite list_lookup_lookup_total_lt by lia. f_equal. f_equal. lia.
      + rewrite decide_False by lia. unfold contents. rewrite list_lookup_fmap, lookup_seq_lt by done. done.
    - rewrite !lookup_ge_None_2; [done| |rewrite length_contents; lia]. case_decide; [lia|]. rewrite length_contents. lia. }
  unfold dir_put. rewrite length_entries. apply list_eq. intros k. destruct (decide (k < n')%nat) as [Hk|Hk].
  - rewrite entries_lookup by done. rewrite Hc by done. destruct (decide (e < n)%nat) as [Hen|Hen].
    + destruct (decide (k = e)) as [->|Hne]; [by rewrite list_lookup_insert_eq by (by rewrite length_entries)|].
      rewrite list_lookup_insert_ne by done. by rewrite entries_lookup by lia.
    + destruct (decide (k = e)) as [->|Hne].
      * rewrite lookup_app_r by (rewrite length_entries; lia). rewrite length_entries. by replace (e - n)%nat with 0%nat by lia.
      * rewrite lookup_app_l by (rewrite length_entries; lia). by rewrite entries_lookup by lia.
  - rewrite !lookup_ge_None_2; [done| |rewrite length_entries; lia]. case_decide; rewrite ?length_insert, ?length_app, length_entries; simpl; lia.
Qed.

Lemma dirent_one_block e : blocks_left (16 * e) 16 = 1%nat.
Proof using.
  clear. unfold blocks_left, BS. cbn [Nat.eqb]. assert ((16 * e) `mod` 1024 = 16 * (e `mod` 64))%nat as -> by (change 1024%nat with (16 * 64)%nat; by rewrite Nat.Div0.mul_mod_distr_l).
  pose proof (Nat.mod_upper_bound e 64). symmetry. apply (Nat.div_unique _ _ _ (16 * (e `mod` 64) + 16 + 1024 - 1 - 1024)); lia.
Qed.

(** A name that is not there is added. *)
Lemma dirlink_run (s : fsst U) C k dp i n nm ino :
  dirstate s C (7 + k) dp i n → small_fields i → 0 ≤ inum i < sb_ninodes sb → 0 ≤ ino < 2 ^ 16 → Forall is_byte nm →
  dir_find nm 0 (entries C i n) = None → Z.of_nat (16 * S n) ≤ MAXFILE * BSIZE →
  ∃ r C' i' l', dirlink dp nm ino s = Ok r (with_flg l' (with_inode dp i' s)) ∧
    ((r = -1 ∧ disk_full sb C') ∨
     (r = 0 ∧ ∃ n', dirstate (with_flg l' (with_inode dp i' s)) C' k dp i' n' ∧
        entries C' i' n' = dir_put (dir_slot 0 (entries C i n)) (mkdirent ino nm) (entries C i n))).
Proof using Hly HL.
  intros Hs Hsm Hn Hino Hby Hnone Hmax. unfold dirlink. destruct (dirlookup_run s C (7 + k) dp i n nm Hs) as (l1 & Hrun1 & Ht1).
  rewrite Hnone in Hrun1. rewrite (bind_ok _ _ _ _ _ Hrun1). pose proof (dirstate_flg _ _ _ _ _ _ _ Hs Ht1) as Hs1.
  runs (geti_ok dp i) by apply Hs1. rewrite (dirents_size _ n (dr_size _ _ _ _ _ _ Hs)).
  destruct (dirlink_loop_run (with_flg l1 s) C (7 + k) dp i n n 0 Hs1 eq_refl) as (l2 & Hrun2 & Ht2). runs Hrun2. rewrite drop_0.
  pose proof (dirstate_flg _ _ _ _ _ _ _ Hs1 Ht2) as Hs2. set (e := dir_slot 0 (entries C i n)).
  assert (e ≤ n)%nat as He by (unfold e; pose proof (dir_slot_le 0 (entries C i n)); rewrite length_entries in *; lia).
  set (de := mkdirent ino nm). assert (length de = 16%nat) as Hlde by apply length_mkdirent.
  assert (Z.of_nat DIRENT_SIZE = Z.of_nat (length de)) as -> by (by rewrite Hlde).
  destruct (writei_run dv st sb Hly (with_flg l2 s) C k dp i (KernSrc de) (16 * e) de) as (t & C' & i' & l' & Hrun & Htr & Hfull & Hs' & Hw).
  - rewrite Hlde, dirent_one_block. eapply fstate_weaken, Hs2. lia.
  - done.
  - done.
  - rewrite (dr_size _ _ _ _ _ _ Hs). lia.
  - rewrite Hlde. lia.
  - change (take (length de) de = de). apply take_ge. lia.
  - by apply mkdirent_bytes.
  - runs Hrun. change (with_flg l' (with_inode dp i' (with_flg l2 (with_flg l1 s)))) with (with_flg l' (with_inode dp i' s)) in *.
    eexists _, C', i', l'. split; [reflexivity|]. destruct (Z.eqb_spec (Z.of_nat t) (Z.of_nat (length de))) as [E|E].
    + right. split; [done|]. rewrite take_ge in Hw by lia.
      destruct (entries_written C i C' i' n e de (dr_size _ _ _ _ _ _ Hs) He Hlde Hw) as [Hsz Hent]. eexists. split; [|exact Hent]. split; [done| |done].
      destruct Hw as [W1 _ _ _ _ _ _]. injection W1 as ? ? ? ? ? Hty ? ? ?. rewrite Hty. apply Hs.
    + left. split; [done|]. apply Hfull. lia.
Qed.
End dir.
