(* ===== verification/FsTheorems.v ===== *)
(** * The file system

    The theorems on kernel/fs.c: allocation of blocks, contents of files,
    inodes on disk, directories and path elements; and a small disk on which
    they apply. *)
From S2P Require Import Prelude Mem Sleeplock Block Bio BioList BioSpec Log LogSpec Fs FsView FsAlloc FsInode FsFile FsRead FsWrite FsDir.
From stdpp Require Import functions list gmap.

#[local] Open Scope Z_scope.

Section theorems.
Context {U : Type} `{UserMem U, HL : !UserLaws U, Running} (dv st : Z) (sb : superblock) (Hly : layout st sb).

(** C32: in a transaction with room in the log, [balloc] returns 0 exactly when
    every block is used, and otherwise the first block that was free, a data
    block: it is now used and zeroed, and no other block's bit or contents changed.  [bfree]
    gives it back, and panics when it is called twice. *)
Theorem balloc_correct (s : fsst U) C k :
  fsb s = sb → txn dv st (flg s) C (3 + k) ∅ → blocks C → meta_used sb C →
  ∃ r l', balloc dv s = Ok r (with_flg l' s) ∧
    ((r = 0 ∧ disk_full sb C ∧ txn dv st l' C (3 + k) ∅) ∨
     (dstart sb ≤ r < sb_size sb ∧ used sb C r = false ∧ (∀ b, 0 ≤ b < r → used sb C b = true) ∧ ∃ C' l'', txn dv st l' C' (1 + k) ∅ ∧ C' r = zeros ∧
        (∀ b, 0 ≤ b < sb_size sb → used sb C' b = (b =? r) || used sb C b) ∧ (∀ b, ¬ is_bitmap sb b → b ≠ r → C' b = C b) ∧
        bfree dv r (with_flg l' s) = Ok () (with_flg l'' s) ∧ bfree dv r (with_flg l'' s) = Err (Panic "freeing free block"))).
Proof using Hly.
  intros Hsb Ht HC Hm. destruct (balloc_run dv st sb Hly s C (1 + k) ∅ Hsb Ht HC Hm (held_ok_empty sb C)) as (r & l' & Hrun & [(-> & Hu & Ht')|(Hff & Ht')]).
  - exists 0, l'. split; [done|]. by left.
  - destruct (allocated_facts st sb Hly C r HC Hm Hff) as (HC' & Hr & Hu & Hsame & Hz). pose proof (dstart_pos st sb Hly) as Hd0.
    exists r, l'. split; [done|]. right. split; [done|]. split; [apply Hff|]. split; [apply Hff|]. exists (allocated sb C r).
    destruct (bfree_run dv st sb Hly (with_flg l' s) (allocated sb C r) k ∅ r Hsb Ht' (held_ok_empty sb _)) as (l'' & Hrun' & Ht''); [lia|by rewrite Hu, Z.eqb_refl by lia|].
    exists l''. split_and!; try done. apply (bfree_panics dv st sb Hly (with_flg l'' s) (mark sb (allocated sb C r) r false) k ∅); [done|done|apply held_ok_empty|lia|].
    rewrite (used_mark st), Z.eqb_refl by (done || lia). done.
Qed.

(** A whole file. *)
Definition whole (C : Z → list Z) (i : inode) : list Z := contents C i 0 (Z.to_nat (isize i)).

Lemma written_whole C i C' i' off bs :
  file_ok sb C i → Z.of_nat off ≤ isize i → written sb C i C' i' off bs →
  whole C' i' = take off (whole C i) ++ bs ++ drop (off + length bs) (whole C i).
Proof using.
  clear Hly. intros Hf Hoff [_ W2 W3 _ _ _ _]. pose proof (fo_size _ C i Hf) as Hsz.
  assert (length (whole C i) = Z.to_nat (isize i)) as Hl by apply length_contents.
  apply list_eq. intros p. unfold whole at 1, contents at 1. rewrite list_lookup_fmap. destruct (decide (p < Z.to_nat (isize i'))%nat) as [Hp|Hp].
  - rewrite lookup_seq_lt by done. simpl. rewrite W3 by lia.
    assert (∀ q, (q < Z.to_nat (isize i))%nat → whole C i !! q = Some (byte_at C i q)) as Hold.
    { intros q Hq. unfold whole, contents. by rewrite list_lookup_fmap, lookup_seq_lt. }
    case_decide as Hr.
    + rewrite lookup_app_r by (rewrite length_take; lia). rewrite length_take, Hl, Nat.min_l, lookup_app_l by lia.
      symmetry. apply list_lookup_lookup_total_lt. lia.
    + destruct (decide (p < off)%nat).
      * rewrite lookup_app_l by (rewrite length_take; lia). rewrite lookup_take_lt by lia. symmetry. apply Hold. lia.
      * rewrite !lookup_app_r by (rewrite ?length_take; lia). rewrite length_take, Hl, lookup_drop, Nat.min_l by lia. symmetry.
        replace (off + length bs + (p - off - length bs))%nat with p by lia. apply Hold. lia.
  - rewrite lookup_seq_ge by lia. symmetry. apply lookup_ge_None. rewrite !length_app, length_take, length_drop. lia.
Qed.

(** C12: [writei] of [bs] at [off] returns how many bytes it wrote, fewer than
    asked only when the disk is full; after it the file is the old one with
    those bytes in place, the inode on disk is up to date, [readi] of the range
    returns what was written, and blocks that belong to no one or to other
    files are as before. *)
Theorem write_read (s : fsst U) C k ip i src off bs :
  fstate dv st sb s C (6 * blocks_left off (length bs) + S k) ip i → small_fields i → 0 ≤ inum i < sb_ninodes sb →
  Z.of_nat off ≤ isize i → Z.of_nat (off + length bs) ≤ MAXFILE * BSIZE → src_ok (fuser s) src bs → Forall is_byte bs →
  ∃ t C' i' s', writei ip src (Z.of_nat off) (Z.of_nat (length bs)) s = Ok (Z.of_nat t) s' ∧
    (t ≤ length bs)%nat ∧ ((t < length bs)%nat → disk_full sb C') ∧ fstate dv st sb s' C' k ip i' ∧
    whole C' i' = take off (whole C i) ++ take t bs ++ drop (off + t) (whole C i) ∧
    disk_fields (of_disk (dinode_off (inum i)) (C' (IBLOCK (inum i) sb)) i') = disk_fields i' ∧
    (∃ s'', readi ip None (Z.of_nat off) (Z.of_nat t) s' = Ok (Z.of_nat t, take t bs) s'') ∧
    (∀ b, 0 ≤ b < sb_size sb → used sb C b = true → ¬ is_bitmap sb b → ¬ owns C i b → b ≠ IBLOCK (inum i) sb → C' b = C b).
Proof using Hly HL.
  intros Hs Hsm Hn Hoff Hmax Hsrc Hby. pose proof (fs_file _ _ _ _ _ _ _ _ Hs) as Hf.
  destruct (writei_run dv st sb Hly s C k ip i src off bs Hs Hsm Hn Hoff Hmax Hsrc Hby) as (t & C' & i' & l' & Hrun & Htr & Hfull & Hs' & Hw).
  assert (length (take t bs) = t) as Hlt by (apply length_take_le; lia).
  exists t, C', i', (with_flg l' (with_inode ip i' s)). split_and!; try done.
  - rewrite (written_whole C i C' i' off (take t bs) Hf Hoff Hw), Hlt. done.
  - apply Hw.
  - destruct Hw as [_ W2 W3 _ _ _ _]. rewrite Hlt in *. unfold MAXFILE, NDIRECT, NINDIRECT, BSIZE in Hmax.
    assert (readable i' (Z.of_nat off) (Z.of_nat t) = Z.of_nat t) as Hrd.
    { unfold readable. destruct (Z.ltb_spec (isize i') (Z.of_nat off)); [lia|]. destruct (Z.leb_spec (2 ^ 32) (Z.of_nat off + Z.of_nat t)); [lia|]. cbn [orb]. lia. }
    destruct (readi_run dv st sb (with_flg l' (with_inode ip i' s)) C' k ip i' None (Z.of_nat off) (Z.of_nat t) Hs') as (l2 & u2 & Hrun2 & _ & _); [lia|lia|done|].
    rewrite Hrd, !Nat2Z.id in Hrun2. eexists. rewrite Hrun2. repeat f_equal. apply list_eq. intros j. unfold contents. rewrite list_lookup_fmap.
    destruct (decide (j < t)%nat) as [Hj|Hj].
    + rewrite lookup_seq_lt by done. simpl. rewrite W3 by lia. rewrite decide_True by lia. replace (off + j - off)%nat with j by lia.
      symmetry. apply list_lookup_lookup_total_lt. lia.
    + rewrite lookup_seq_ge by lia. symmetry. apply lookup_ge_None. lia.
  - apply Hw.
Qed.

(** An inode written with [iupdate] is read back by [ilock]: another table
    entry for the same inode, not yet valid, gets the same fields and stands
    for the same file. *)
Theorem inode_roundtrip (s : fsst U) C k ip i jp j :
  fstate dv st sb s C (S k) ip i → small_fields i → itype i ≠ 0 → 0 ≤ inum i < sb_ninodes sb →
  itab s !! jp = Some j → jp ≠ ip → inum j = inum i → idev j = dv → ivalid j = false → 1 ≤ iref j → slocked (ilk j) = false →
  ∃ s' s'' j', iupdate ip s = Ok () s' ∧ ilock jp s' = Ok () s'' ∧ itab s'' !! jp = Some j' ∧
    disk_fields j' = disk_fields i ∧ ivalid j' = true ∧ ilk j' = mksleeplock true mypid ∧
    ∃ C', txn dv st (flg s'') C' k ∅ ∧ whole C' j' = whole C i.
Proof using Hly.
  intros Hs Hsm Hty Hn Hj Hne Hnj Hdj Hvj Hrj Hlj. pose proof Hs as [Hsb Ht HC Hm Hi Hd Hf].
  destruct (iupdate_run dv st sb Hly s C k ∅ ip i) as (l1 & Hrun1 & Ht1); [done|done|apply size_empty_spare|intros n; by rewrite lookup_empty|done|done|done|].
  destruct (iblock st sb Hly (inum i) Hn) as [_ Hib]. destruct (inodeblock_low st sb Hly _ Hib) as (Hlow & Hnb & Hrg).
  pose proof (file_fits st sb Hly C i Hf Hsm) as Hfit.
  assert (disk_fields (locked sb (updated sb C i) j) = disk_fields i) as Hdf.
  { unfold locked. rewrite Hvj, Hnj. unfold updated. rewrite fn_lookup_insert.
    change (disk_fields (of_disk (dinode_off (inum i)) (put_dinode (dinode_off (inum i)) i (C (IBLOCK (inum i) sb))) j) = disk_fields i).
    apply dinode_roundtrip; [done|]. apply dinode_off_ok; [apply HC|lia]. }
  assert (itype (locked sb (updated sb C i) j) = itype i) as Hty' by exact (f_equal (λ p, p.1.1.1.1.1) Hdf).
  assert (isize (locked sb (updated sb C i) j) = isize i) as Hsz by exact (f_equal (λ p, p.1.2) Hdf).
  assert (iaddrs (locked sb (updated sb C i) j) = iaddrs i) as Hal by exact (f_equal snd Hdf).
  destruct (ilock_run dv st sb (with_flg l1 s) (updated sb C i) k ∅ jp j) as (l2 & Hrun2 & Ht2);
    [done|done|apply size_empty_spare|intros n; by rewrite lookup_empty|done|done|done|done|by rewrite Hty'|].
  eexists _, _, (locked sb (updated sb C i) j). split_and!; [exact Hrun1|exact Hrun2|by eapply with_inode_lookup|done|unfold locked; by rewrite Hvj|done|].
  exists (updated sb C i). split; [done|]. unfold whole. rewrite Hsz. unfold contents. apply list_fmap_ext.
  intros n p Hp. unfold byte_at. assert (∀ m, addr_of (updated sb C i) (locked sb (updated sb C i) j) m = addr_of C i m) as Hadr.
  { intros m. unfold addr_of, ind. rewrite Hal. destruct (m <? NDIRECT)%nat; [done|]. destruct (Z.eqb_spec (iaddrs i !!! NDIRECT) 0); [done|].
    unfold updated. rewrite fn_lookup_insert_ne; [done|]. destruct (fo_ind _ C i Hf) as [? _]; [done|]. unfold ind in *. lia. }
  rewrite Hadr. unfold updated. rewrite fn_lookup_insert_ne; [done|].
  assert (Z.of_nat p < isize i) as Hps. { apply lookup_seq in Hp as [-> Hp]. pose proof (fo_size _ C i Hf). lia. }
  destruct (in_file sb C i p Hf Hps) as [Hpn Hpa]. destruct (fo_addr _ C i Hf _ Hpn Hpa) as [[? _] _]. lia.
Qed.

(** C29: [dirlink] of a name that the directory does not have returns 0 and adds
    an entry, or -1 when the disk is full.  [dirlookup] finds the name in the new
    directory, with the inode number and the offset of its entry, and finds
    every other name as before. *)
Theorem dirlink_dirlookup (s : fsst U) C k dp i n nm ino :
  dirstate dv st sb s C (7 + k) dp i n → small_fields i → 0 ≤ inum i < sb_ninodes sb → 0 < ino < 2 ^ 16 → Forall is_byte nm →
  dir_find nm 0 (entries C i n) = None → Z.of_nat (16 * S n) ≤ MAXFILE * BSIZE →
  ∃ r C' i' s', dirlink dp nm ino s = Ok r s' ∧
    ((r = -1 ∧ disk_full sb C') ∨
     (r = 0 ∧ ∀ nm', ∃ l', txn dv st l' C' k ∅ ∧
        dirlookup dp nm' s' =
          (match (if namecmp nm' nm =? 0 then Some (dir_slot 0 (entries C i n), ino) else dir_find nm' 0 (entries C i n)) with
           | None => mret None
           | Some (e, ino') => ip ← iget dv ino'; mret (Some (ip, Z.of_nat (16 * e)))
           end) (with_flg l' (with_inode dp i' s)))).
Proof using Hly HL.
  intros Hs Hsm Hn Hino Hby Hnone Hmax.
  destruct (dirlink_run dv st sb Hly s C k dp i n nm ino Hs Hsm Hn) as (r & C' & i' & l' & Hrun & Hres); [lia|done|done|done|].
  exists r, C', i', (with_flg l' (with_inode dp i' s)). split; [done|]. destruct Hres as [?|(-> & n' & Hs' & Hent)]; [by left|right].
  split; [done|]. intros nm'. destruct (dirlookup_run dv st sb _ C' k dp i' n' nm' Hs') as (l2 & Hrun2 & Ht2).
  exists l2. split; [done|]. pose proof (dir_find_put nm 0 ino (entries C i n) nm' Hino) as E. rewrite Nat.sub_0_r in E.
  rewrite Hrun2, Hent, E; [done|]. intros He. by rewrite (dir_find_same nm' nm 0 (entries C i n) He).
Qed.
End theorems.
