(* ===== verification/FsWitness.v ===== *)
(** * The file system on a small disk

    Forty blocks: the log at 2, one block of inodes in use, the bitmap at 35,
    four data blocks.  Instances of the theorems of [FsTheorems]. *)
From S2P Require Import Prelude Mem Sleeplock Block Bio BioList BioSpec Log LogSpec Fs FsView FsAlloc FsInode FsFile FsRead FsWrite FsDir FsTheorems.
From stdpp Require Import functions list gmap.

#[local] Open Scope Z_scope.

(** ** A user memory *)

Module FsWitness.
Fixpoint uput (u : gmap Z Z) (va : Z) (bs : list Z) : gmap Z Z :=
  match bs with
  | [] => u
  | b :: bs => uput (<[va := b]> u) (va + 1) bs
  end.

Definition uget (u : gmap Z Z) (va : Z) (n : nat) : option (list Z) := mapM (λ j, u !! (va + Z.of_nat j)) (seq 0 n).

#[export] Instance umem : UserMem (gmap Z Z) := {
  ucopyout va bs := λ u, match uget u va (length bs) with Some _ => Ok 0 (uput u va bs) | None => Ok (-1) u end;
  ucopyin va n := λ u, match uget u va (Z.to_nat n) with Some bs => Ok (0, bs) u | None => Ok (-1, []) u end }.

Lemma uput_lookup bs u va a :
  uput u va bs !! a = if decide (va ≤ a < va + Z.of_nat (length bs)) then bs !! Z.to_nat (a - va) else u !! a.
Proof.
  revert u va; induction bs as [|b bs IH]; intros u va; cbn [uput length].
  - rewrite decide_False; [done|lia].
  - rewrite IH. destruct (decide (a = va)) as [->|Hne].
    + rewrite decide_False, decide_True by lia. rewrite Z.sub_diag, lookup_insert_eq. done.
    + destruct (decide (va + 1 ≤ a < va + 1 + Z.of_nat (length bs))).
      * rewrite decide_True by lia. replace (Z.to_nat (a - va)) with (S (Z.to_nat (a - (va + 1)))) by lia. done.
      * rewrite decide_False by lia. by rewrite lookup_insert_ne.
Qed.

#[export] Instance ulaws : UserLaws (gmap Z Z).
Proof.
  refine {| uview u a := u !! a |}.
  - intros u va bs Hb. exists (uput u va bs). split; [|intros a; apply uput_lookup]. simpl.
    destruct (uget u va (length bs)) eqn:E; [done|]. apply mapM_None_1 in E. apply Exists_exists in E as (j & Hj%elem_of_seq & Hn).
    destruct (Hb j) as [? ?]; [lia|]. congruence.
  - intros u va bs Hb. simpl. rewrite Nat2Z.id. assert (uget u va (length bs) = Some bs) as ->; [|done].
    apply mapM_Some_2. apply Forall2_same_length_lookup_2; [by rewrite length_seq|]. intros k j b Hk Hbk.
    apply lookup_seq in Hk as [-> _]. by apply Hb.
Defined.

(** ** The disk *)

#[export] Instance running2 : Running := 7.

Definition sb2 : superblock := mksb FSMAGIC 40 4 16 31 2 33 35.
Definition bitmap2 : list Z := replicate 4 255 ++ [15] ++ replicate 1019 0.
Definition blocks2 (b : Z) : list Z := if b =? 35 then bitmap2 else zeros.
Definition disk2 : disk := mkdisk blocks2 [].
Definition log2 : logst := mklog false 2 31 1 false 1 0 (replicate (Z.to_nat LOGSIZE) 0).

(** An empty, locked directory in entry 0, and an entry for the same inode that
    has not been read. *)
Definition inode2 : inode := mkinode 1 3 1 (mksleeplock true 7) true T_DIR 0 0 1 0 (replicate 13 0).
Definition inode3 : inode := mkinode 1 3 1 (mksleeplock false 0) false 0 0 0 0 0 (replicate 13 0).
Definition fs2 : fsst (gmap Z Z) := mkfs (mklg (binit_state disk2) log2) sb2 false [inode2; inode3] 0 ∅.

Lemma layout2 : layout 2 sb2.
Proof. split; vm_compute; intuition discriminate. Qed.

Lemma bytes_check bs : forallb (λ x, (0 <=? x) && (x <? 256)) bs = true → Forall is_byte bs.
Proof.
  induction bs as [|b bs IH]; intros H; [apply Forall_nil_2|]. simpl in H. apply andb_prop in H as [[H1%Z.leb_le H2%Z.ltb_lt]%andb_prop H].
  apply Forall_cons_2; [by split|by apply IH].
Qed.

Lemma blocks2_ok : blocks blocks2.
Proof.
  intros b. unfold blocks2. destruct (b =? 35); [|apply blockdata_zeros]. split; [reflexivity|].
  apply bytes_check. vm_compute. reflexivity.
Qed.

Lemma used2 b : 0 ≤ b < 40 → used sb2 blocks2 b = (b <? 36).
Proof.
  intros Hb. assert (forallb (λ n, Bool.eqb (used sb2 blocks2 (Z.of_nat n)) (Z.of_nat n <? 36)) (seq 0 40) = true) as E by (vm_compute; reflexivity).
  rewrite forallb_forall in E. specialize (E (Z.to_nat b)). rewrite Z2Nat.id in E by lia. apply eqb_prop, E.
  apply in_seq. lia.
Qed.

Lemma meta2 : meta_used sb2 blocks2.
Proof. intros b Hb. change (dstart sb2) with 36 in Hb. rewrite used2 by lia. apply Z.ltb_lt. lia. Qed.

Lemma txn2 : txn ROOTDEV 2 (flg fs2) blocks2 27 ∅.
Proof.
  exists (mkview (disk_read disk2) disk2 ∅), []. split; [apply binit_rep; discriminate|]. split.
  { split; try reflexivity; [unfold ROOTDEV; simpl; lia|simpl; lia|set_solver]. }
  split. { split; [intros i r Hi|intros i bn Hi|intros b Hb|intros i bn Hi]; try (simpl in Hi; by rewrite lookup_empty in Hi). set_solver. }
  split; [reflexivity|]. simpl. unfold NBUF, SPARE. lia.
Qed.

Lemma addr2 n : addr_of blocks2 inode2 n = 0.
Proof.
  unfold addr_of. destruct (Nat.ltb_spec n NDIRECT) as [Hn|]; [|reflexivity]. unfold NDIRECT in Hn.
  do 12 (destruct n as [|n]; [reflexivity|]). lia.
Qed.

Lemma file2 : file_ok sb2 blocks2 inode2.
Proof. split; [done|done| | |by vm_compute|simpl; unfold BSIZE; lia]; intros; rewrite addr2 in *; done. Qed.

Lemma fstate2 k : (k ≤ 27)%nat → fstate ROOTDEV 2 sb2 fs2 blocks2 k 0 inode2.
Proof.
  intros Hk. split; [reflexivity|eapply txn_weaken, txn2; done|apply blocks2_ok|apply meta2|reflexivity|reflexivity|apply file2].
Qed.

Lemma balloc_correct_witness : ∃ r l', balloc ROOTDEV fs2 = Ok r (with_flg l' fs2) ∧ 36 ≤ r.
Proof.
  destruct (balloc_correct ROOTDEV 2 sb2 layout2 fs2 blocks2 24 eq_refl txn2 blocks2_ok meta2) as (r & l' & Hrun & [(_ & Hfull & _)|(Hr & _)]).
  - exfalso. assert (0 ≤ 36 < sb_size sb2) as H36 by (simpl; lia). apply Hfull in H36. rewrite used2 in H36 by lia. discriminate.
  - exists r, l'. split; [exact Hrun|]. apply Hr.
Defined.

(** Five bytes written from a kernel buffer at the start of the file. *)
Lemma write_read_witness :
  ∃ t s' s'', writei 0 (KernSrc [104; 101; 108; 108; 111]) 0 5 fs2 = Ok (Z.of_nat t) s' ∧
    readi 0 None 0 (Z.of_nat t) s' = Ok (Z.of_nat t, take t [104; 101; 108; 108; 111]) s''.
Proof.
  destruct (write_read ROOTDEV 2 sb2 layout2 fs2 blocks2 20 0 inode2 (KernSrc [104; 101; 108; 108; 111]) 0 [104; 101; 108; 108; 111])
    as (t & C' & i' & s' & Hrun & _ & _ & _ & _ & _ & (s'' & Hread) & _).
  - apply fstate2. apply Nat.leb_le. reflexivity.
  - vm_compute. intuition discriminate.
  - simpl. lia.
  - simpl. lia.
  - vm_compute. discriminate.
  - reflexivity.
  - apply bytes_check. reflexivity.
  - exists t, s', s''. split; [exact Hrun|exact Hread].
Defined.

Lemma inode_roundtrip_witness :
  ∃ s' s'' j', iupdate 0 fs2 = Ok () s' ∧ ilock 1 s' = Ok () s'' ∧ itab s'' !! 1%nat = Some j' ∧ itype j' = T_DIR.
Proof.
  destruct (inode_roundtrip ROOTDEV 2 sb2 layout2 fs2 blocks2 20 0 inode2 1 inode3) as (s' & s'' & j' & H1 & H2 & H3 & H4 & _).
  - apply fstate2. lia.
  - vm_compute. intuition discriminate.
  - discriminate.
  - simpl. lia.
  - reflexivity.
  - discriminate.
  - reflexivity.
  - reflexivity.
  - reflexivity.
  - simpl. lia.
  - reflexivity.
  - exists s', s'', j'. split; [exact H1|]. split; [exact H2|]. split; [exact H3|]. exact (f_equal (λ p, p.1.1.1.1.1) H4).
Defined.

(** The name "a" linked to inode 5. *)
Lemma dirlink_dirlookup_witness : ∃ r s', dirlink 0 [97] 5 fs2 = Ok r s' ∧ (r = -1 ∨ r = 0).
Proof.
  destruct (dirlink_dirlookup ROOTDEV 2 sb2 layout2 fs2 blocks2 20 0 inode2 0 [97] 5) as (r & C' & i' & s' & Hrun & Hres).
  - split; [apply fstate2; lia|reflexivity|reflexivity].
  - vm_compute. intuition discriminate.
  - simpl. lia.
  - lia.
  - apply bytes_check. reflexivity.
  - reflexivity.
  - vm_compute. discriminate.
  - exists r, s'. split; [exact Hrun|]. destruct Hres as [[-> _]|[-> _]]; [left|right]; reflexivity.
Defined.
End FsWitness.
