(* ===== verification/FsPath.v ===== *)
(** * Path names

    [skipelem] against splitting a path at its slashes. *)
From S2P Require Import Prelude Block Fs FsDir.

#[local] Open Scope Z_scope.

(** The pieces of a path between its slashes, and those that are not empty. *)
Fixpoint split_slash (path : list Z) : list (list Z) :=
  match path with
  | [] => [[]]
  | c :: path =>
      if c =? SLASH then [] :: split_slash path
      else match split_slash path with e :: es => (c :: e) :: es | [] => [[c]] end
  end.
Definition elems (path : list Z) : list (list Z) := filter (λ e, e ≠ []) (split_slash path).

Lemma split_slash_cons path : ∃ e es, split_slash path = e :: es.
Proof. induction path as [|c path (e & es & IH)]; simpl; [eauto|]. rewrite IH. destruct (c =? SLASH); eauto. Qed.

Lemma elems_slash path : elems (SLASH :: path) = elems path.
Proof. unfold elems. simpl. by rewrite filter_cons_False by tauto. Qed.

Lemma elems_skip path : elems (skip_slashes path) = elems path.
Proof.
  induction path as [|c path IH]; [done|]. simpl. destruct (Z.eqb_spec c SLASH) as [->|]; [|done]. by rewrite IH, elems_slash.
Qed.

(** An element followed by the end or by a slash. *)
Definition at_end (rest : list Z) : Prop := rest = [] ∨ ∃ rest', rest = SLASH :: rest'.

Lemma elems_app e rest :
  e ≠ [] → Forall (λ c, c ≠ SLASH) e → at_end rest → elems (e ++ rest) = e :: elems rest.
Proof.
  intros Hne He Hr. unfold elems. assert (∃ es, split_slash (e ++ rest) = e :: es ∧ filter (λ x : list Z, x ≠ []) es = filter (λ x : list Z, x ≠ []) (split_slash rest)) as (es & -> & Hes).
  { clear Hne. induction He as [|c e Hc _ (es & IH & Hes)]; simpl.
    - destruct Hr as [->|(rest' & ->)]; simpl; [by exists []|]. exists (split_slash rest'). split; [done|]. by rewrite filter_cons_False by tauto.
    - destruct (Z.eqb_spec c SLASH); [done|]. rewrite IH. by exists es. }
  by rewrite filter_cons_True, Hes.
Qed.

Lemma span_elem_spec path : 
  let '(e, rest) := span_elem path in path = e ++ rest ∧ Forall (λ c, c ≠ SLASH) e ∧ at_end rest.
Proof.
  induction path as [|c path IH]; simpl; [split_and!; [done|constructor|by left]|].
  destruct (Z.eqb_spec c SLASH) as [->|Hc]; [split_and!; [done|constructor|right; eauto]|].
  destruct (span_elem path) as [e rest]. destruct IH as (-> & He & Hr). split_and!; [done|by constructor|done].
Qed.

Lemma skip_slashes_suffix path : ∃ k, skip_slashes path = drop k path.
Proof. induction path as [|c path [k IH]]; simpl; [by exists 0%nat|]. destruct (c =? SLASH); [by exists (S k)|by exists 0%nat]. Qed.

Lemma skip_slashes_head path c p : skip_slashes path = c :: p → c ≠ SLASH.
Proof.
  induction path as [|c' path IH]; simpl; [done|]. destruct (Z.eqb_spec c' SLASH); [done|]. congruence.
Qed.

(** Characters that do not end a string. *)
Definition no_nul (s : list Z) : Prop := Forall (λ c, c ≠ 0) s.

Lemma chars_take s n : no_nul s → (n ≤ length s)%nat → chars s n = take n s.
Proof.
  intros Hs. revert n; induction Hs as [|c s Hc _ IH]; intros [|n] Hn; simpl in *; [done|lia|done|].
  destruct (Z.eqb_spec c 0); [done|]. by rewrite IH by lia.
Qed.

Lemma chars_short s n rest : no_nul s → (length s < n)%nat → chars (s ++ 0 :: rest) n = s.
Proof.
  intros Hs. revert n; induction Hs as [|c s Hc _ IH]; intros [|n] Hn; simpl in *; [lia|done|lia|].
  destruct (Z.eqb_spec c 0); [done|]. by rewrite IH by lia.
Qed.

(** One call of [skipelem]. *)
Lemma skipelem_spec path nm :
  no_nul path → length nm = DIRSIZ →
  match elems path with
  | [] => skipelem path nm = None
  | e :: es => ∃ rest nm', skipelem path nm = Some (rest, nm') ∧ elems rest = es ∧ (length rest < length path)%nat ∧
      no_nul rest ∧ length nm' = DIRSIZ ∧ chars nm' DIRSIZ = take DIRSIZ e
  end.
Proof.
  intros Hn Hl. unfold skipelem. destruct (skip_slashes_suffix path) as [k Hk]. rewrite <- (elems_skip path).
  destruct (skip_slashes path) as [|c p] eqn:E; [done|]. pose proof (skip_slashes_head _ _ _ E) as Hc.
  pose proof (span_elem_spec (c :: p)) as Hsp. destruct (span_elem (c :: p)) as [e rest] eqn:Esp. destruct Hsp as (Hp & He & Hr).
  assert (e ≠ []) as Hne by (intros ->; simpl in Esp; destruct (Z.eqb_spec c SLASH); [done|destruct (span_elem p); congruence]).
  assert (no_nul (e ++ rest)) as [Hne' Hnr]%Forall_app by (rewrite <- Hp, Hk; by apply Forall_drop).
  rewrite Hp, (elems_app e rest Hne He Hr). destruct (skip_slashes_suffix rest) as [k' Hk'].
  eexists _, _. split; [reflexivity|]. rewrite elems_skip. split_and!; [done| |rewrite Hk'; by apply Forall_drop| |].
  - rewrite Hk', length_drop. assert (length (e ++ rest) ≤ length path)%nat by (rewrite <- Hp, Hk, length_drop; lia).
    rewrite length_app in *. destruct e; [done|]. simpl in *. lia.
  - destruct (Nat.leb_spec DIRSIZ (length e)) as [Hle|Hgt]; (rewrite length_overwrite; [done|]).
    + rewrite length_take_le by done. lia.
    + rewrite length_app. change (length [0]) with 1%nat. lia.
  - destruct (Nat.leb_spec DIRSIZ (length e)).
    + rewrite overwrite_all by (rewrite length_take_le; lia). rewrite chars_take; [by rewrite take_take, Nat.min_id|by apply Forall_take|].
      rewrite length_take_le; lia.
    + rewrite (take_ge e) by lia. unfold overwrite. rewrite <- (assoc_L (++)).
      change (take 0 nm ++ e ++ [0] ++ drop (0 + length (e ++ [0])) nm) with (e ++ 0 :: drop (0 + length (e ++ [0])) nm). by apply chars_short.
Qed.

(** The contents of [name] after each call, as in the loop of [namex]. *)
Fixpoint path_names (fuel : nat) (path nm : list Z) : list (list Z) :=
  match fuel with
  | O => []
  | S fuel => match skipelem path nm with
              | None => []
              | Some (path, nm) => nm :: path_names fuel path nm
              end
  end.

Lemma path_names_run fuel path nm :
  no_nul path → length nm = DIRSIZ → (length path < fuel)%nat →
  (λ s, chars s DIRSIZ) <$> path_names fuel path nm = take DIRSIZ <$> elems path.
Proof.
  revert path nm; induction fuel as [|fuel IH]; intros path nm Hn Hl Hf; [lia|]. cbn [path_names].
  pose proof (skipelem_spec path nm Hn Hl) as Hs. destruct (elems path) as [|e es]; [by rewrite Hs|].
  destruct Hs as (rest & nm' & -> & <- & Hlt & Hnr & Hl' & Hch). rewrite !fmap_cons, Hch, IH; [done|done|done|lia].
Qed.

(** The calls of [skipelem] that walk a path of [n] characters end after at
    most [n] of them, and yield exactly the non-empty pieces between the
    slashes of the path, each cut to [DIRSIZ] characters. *)
Theorem skipelem_splits path nm :
  no_nul path → length nm = DIRSIZ →
  (λ s, chars s DIRSIZ) <$> path_names (S (length path)) path nm = take DIRSIZ <$> elems path.
Proof. intros Hn Hl. apply path_names_run; [done|done|lia]. Qed.

(** "//a/bb" *)
Lemma skipelem_splits_witness :
  (λ s, chars s DIRSIZ) <$> path_names 7 [47; 47; 97; 47; 98; 98] (replicate 14 0) = [[97]; [98; 98]].
Proof.
  exact (skipelem_splits [47; 47; 97; 47; 98; 98] (replicate 14 0)
    (ltac:(repeat (apply List.Forall_cons; [discriminate|]); apply List.Forall_nil)) eq_refl).
Defined.
