(* ===== verification/Virtio.v ===== *)
(** * kernel/virtio_disk.c: the disk driver

    The driver's descriptors and rings, its functions as code that runs while
    [vdisk_lock] is held, cut where the code sleeps, and the system of
    processes that call [virtio_disk_rw], the interrupt handler and the
    device.  A process is identified by the buffer it passes, which it has
    locked.

    The device is hardware: it takes chains of descriptors from the available
    ring in order, may finish them in any order, writes only where a chain
    says, reports success, and then puts the chain in the used ring.  What data
    it reads is arbitrary. *)
From stdpp Require Import list gmap.
From S2P Require Import Prelude Sleeplock Bio.

#[local] Open Scope Z_scope.

(** kernel/virtio.h *)
Definition NUM : nat := 8.
Definition VRING_DESC_F_NEXT : Z := 1.
Definition VRING_DESC_F_WRITE : Z := 2.
Definition VIRTIO_BLK_T_IN : Z := 0.
Definition VIRTIO_BLK_T_OUT : Z := 1.

(** What a descriptor points to: [&disk.ops[i]], [b->data], [&disk.info[i].status]. *)
Inductive dptr := DNull | DOps (i : nat) | DData (b : nat) | DStatus (i : nat).
Record virtq_desc := mkdesc { daddr : dptr; dlen : Z; dflags : Z; dnext : nat }.
Record virtio_blk_req := mkreq { rtype : Z; rreserved : Z; rsector : Z }.

(** The fields of [struct buf] that the driver uses. *)
Record vbuf := mkvbuf { vblockno : Z; vdisk : bool; vdata : list Z }.

(** The sleep channels [&disk.free[0]] and [b]. *)
Inductive vchan := OnFree | OnBuf (b : nat).

#[export] Instance vchan_eq_dec : EqDecision vchan.
Proof. solve_decision. Defined.

(** [struct disk] with its three queue pages, the buffers, and which processes
    sleep on which channel. *)
Record disk := mkdisk {
  desc : list virtq_desc;
  avail_ring : list nat; avail_idx : Z;
  used_ring : list nat; used_ridx : Z;
  dfree : list bool; used_idx : Z;
  info_b : list (option nat); info_status : list Z;
  ops : list virtio_blk_req;
  vdisk_lock : bool;
  vbufs : gmap nat vbuf;
  vasleep : gmap nat vchan }.

Definition set_desc x d := mkdisk x (avail_ring d) (avail_idx d) (used_ring d) (used_ridx d) (dfree d) (used_idx d) (info_b d) (info_status d) (ops d) (vdisk_lock d) (vbufs d) (vasleep d).
Definition set_avail x y d := mkdisk (desc d) x y (used_ring d) (used_ridx d) (dfree d) (used_idx d) (info_b d) (info_status d) (ops d) (vdisk_lock d) (vbufs d) (vasleep d).
Definition set_used x y d := mkdisk (desc d) (avail_ring d) (avail_idx d) x y (dfree d) (used_idx d) (info_b d) (info_status d) (ops d) (vdisk_lock d) (vbufs d) (vasleep d).
Definition set_dfree x d := mkdisk (desc d) (avail_ring d) (avail_idx d) (used_ring d) (used_ridx d) x (used_idx d) (info_b d) (info_status d) (ops d) (vdisk_lock d) (vbufs d) (vasleep d).
Definition set_used_idx x d := mkdisk (desc d) (avail_ring d) (avail_idx d) (used_ring d) (used_ridx d) (dfree d) x (info_b d) (info_status d) (ops d) (vdisk_lock d) (vbufs d) (vasleep d).
Definition set_info_b x d := mkdisk (desc d) (avail_ring d) (avail_idx d) (used_ring d) (used_ridx d) (dfree d) (used_idx d) x (info_status d) (ops d) (vdisk_lock d) (vbufs d) (vasleep d).
Definition set_info_status x d := mkdisk (desc d) (avail_ring d) (avail_idx d) (used_ring d) (used_ridx d) (dfree d) (used_idx d) (info_b d) x (ops d) (vdisk_lock d) (vbufs d) (vasleep d).
Definition set_ops x d := mkdisk (desc d) (avail_ring d) (avail_idx d) (used_ring d) (used_ridx d) (dfree d) (used_idx d) (info_b d) (info_status d) x (vdisk_lock d) (vbufs d) (vasleep d).
Definition set_vlock x d := mkdisk (desc d) (avail_ring d) (avail_idx d) (used_ring d) (used_ridx d) (dfree d) (used_idx d) (info_b d) (info_status d) (ops d) x (vbufs d) (vasleep d).
Definition set_vbufs x d := mkdisk (desc d) (avail_ring d) (avail_idx d) (used_ring d) (used_ridx d) (dfree d) (used_idx d) (info_b d) (info_status d) (ops d) (vdisk_lock d) x (vasleep d).
Definition set_vasleep x d := mkdisk (desc d) (avail_ring d) (avail_idx d) (used_ring d) (used_ridx d) (dfree d) (used_idx d) (info_b d) (info_status d) (ops d) (vdisk_lock d) (vbufs d) x.

Abbreviation V := (M disk).
Definition u16 (z : Z) : Z := wrap 16 z.

(** An array element; an index out of range is undefined. *)
Definition elem {A} (f : disk → list A) (i : nat) : V A := λ d,
  match f d !! i with Some a => Ok a d | None => Err (Undef "array index") end.

Definition vlock : V unit := λ d, if vdisk_lock d then Err (Panic "acquire") else Ok () (set_vlock true d).
Definition vunlock : V unit := λ d, if vdisk_lock d then Ok () (set_vlock false d) else Err (Panic "release").

(** [wakeup(chan)]. *)
Definition vwakeup (ch : vchan) : V unit := modify (λ d, set_vasleep (filter (λ p, p.2 ≠ ch) (vasleep d)) d).

Definition get_vbuf (b : nat) : V vbuf := λ d,
  match vbufs d !! b with Some x => Ok x d | None => Err (Fault (Z.of_nat b)) end.
Definition set_disk_flag (b : nat) (x : bool) : V unit :=
  v ← get_vbuf b;
  modify (λ d, set_vbufs (<[b := mkvbuf (vblockno v) x (vdata v)]> (vbufs d)) d).

(** The search of [alloc_desc] from descriptor [i] on. *)
Fixpoint alloc_from (i : nat) (l : list bool) : option nat :=
  match l with
  | [] => None
  | true :: _ => Some i
  | false :: l => alloc_from (S i) l
  end.
Definition alloc_desc : V (option nat) :=
  l ← gets dfree;
  match alloc_from 0 l with
  | Some i => modify (λ d, set_dfree (<[i := false]> (dfree d)) d);; mret (Some i)
  | None => mret None
  end.

Definition free_desc (i : nat) : V unit :=
  when (NUM <=? i)%nat (fail (Panic "free_desc 1"));;
  b ← elem dfree i;
  when b (fail (Panic "free_desc 2"));;
  modify (λ d, set_desc (<[i := mkdesc DNull 0 0 0]> (desc d)) d);;
  modify (λ d, set_dfree (<[i := true]> (dfree d)) d);;
  vwakeup OnFree.

(** A chain has at most [NUM] descriptors: freeing one twice panics. *)
Fixpoint free_chain_loop (fuel i : nat) : V unit :=
  match fuel with
  | O => fail NoFuel
  | S fuel =>
      x ← elem desc i;
      free_desc i;;
      if truth (Z.land (dflags x) VRING_DESC_F_NEXT) then free_chain_loop fuel (dnext x) else mret ()
  end.
Definition free_chain (i : nat) : V unit := free_chain_loop (S NUM) i.

Fixpoint free_all (l : list nat) : V unit :=
  match l with [] => mret () | i :: l => free_desc i;; free_all l end.

(** The loop of [alloc3_desc]: [n] descriptors to go, [idx] those found. *)
Fixpoint alloc3_loop (n : nat) (idx : list nat) : V (option (list nat)) :=
  match n with
  | O => mret (Some idx)
  | S n =>
      r ← alloc_desc;
      match r with
      | Some i => alloc3_loop n (idx ++ [i])
      | None => free_all idx;; mret None
      end
  end.
Definition alloc3_desc : V (option (list nat)) := alloc3_loop 3 [].

Definition put_desc (i : nat) (x : virtq_desc) : V unit :=
  elem desc i;; modify (λ d, set_desc (<[i := x]> (desc d)) d).

(** [virtio_disk_rw] from the formatting of the descriptors to the notification
    of the device. *)
Definition submit (b : nat) (write : bool) (sector : Z) (i0 i1 i2 : nat) : V unit :=
  elem ops i0;;
  modify (λ d, set_ops (<[i0 := mkreq (if write then VIRTIO_BLK_T_OUT else VIRTIO_BLK_T_IN) 0 sector]> (ops d)) d);;
  put_desc i0 (mkdesc (DOps i0) 16 VRING_DESC_F_NEXT i1);;
  put_desc i1 (mkdesc (DData b) BSIZE (Z.lor (if write then 0 else VRING_DESC_F_WRITE) VRING_DESC_F_NEXT) i2);;
  elem info_status i0;;
  modify (λ d, set_info_status (<[i0 := 255]> (info_status d)) d);;
  put_desc i2 (mkdesc (DStatus i0) 1 VRING_DESC_F_WRITE 0);;
  set_disk_flag b true;;
  elem info_b i0;;
  modify (λ d, set_info_b (<[i0 := Some b]> (info_b d)) d);;
  a ← gets avail_idx;
  modify (λ d, set_avail (<[Z.to_nat (a `mod` Z.of_nat NUM) := i0]> (avail_ring d)) (u16 (a + 1)) d).

(** How a call of [virtio_disk_rw] leaves the CPU: asleep until descriptors are
    free, asleep until the request with head [i] is finished, or done. *)
Inductive vres := NoDesc | Waiting (i : nat) | Finished.

(** [sleep(chan, &disk.vdisk_lock)] up to the switch to another process. *)
Definition vsleep (b : nat) (ch : vchan) : V unit :=
  modify (λ d, set_vasleep (<[b := ch]> (vasleep d)) d);; vunlock.

(** The second loop of [virtio_disk_rw] and what follows. *)
Definition rw_wait (b i0 : nat) : V vres :=
  v ← get_vbuf b;
  if vdisk v then vsleep b (OnBuf b);; mret (Waiting i0) else
  elem info_b i0;;
  modify (λ d, set_info_b (<[i0 := None]> (info_b d)) d);;
  free_chain i0;;
  vunlock;;
  mret Finished.

(** The first loop, then the rest. *)
Definition rw_alloc (b : nat) (write : bool) : V vres :=
  v ← get_vbuf b;
  let sector := u32 (vblockno v * (BSIZE / 512)) in
  r ← alloc3_desc;
  match r with
  | Some [i0; i1; i2] => submit b write sector i0 i1 i2;; rw_wait b i0
  | Some _ => fail (Undef "idx")
  | None => vsleep b OnFree;; mret NoDesc
  end.

Definition virtio_disk_rw (b : nat) (write : bool) : V vres := vlock;; rw_alloc b write.

(** A sleeper runs again: [sleep] takes the lock back. *)
Definition rw_resume (b : nat) (write : bool) (r : vres) : V vres :=
  vlock;;
  match r with
  | NoDesc => rw_alloc b write
  | Waiting i0 => rw_wait b i0
  | Finished => fail (Undef "not asleep")
  end.

(** The loop of [virtio_disk_intr]; [fuel] bounds the new entries of the used
    ring. *)
Fixpoint intr_loop (fuel : nat) : V unit :=
  u ← gets used_idx;
  r ← gets used_ridx;
  if u =? r then mret () else
  match fuel with
  | O => fail NoFuel
  | S fuel =>
      id ← elem used_ring (Z.to_nat (u `mod` Z.of_nat NUM));
      st ← elem info_status id;
      when (negb (st =? 0)) (fail (Panic "virtio_disk_intr status"));;
      ob ← elem info_b id;
      match ob with
      | None => fail (Fault 0)
      | Some b =>
          set_disk_flag b false;;
          vwakeup (OnBuf b);;
          modify (set_used_idx (u16 (u + 1)));;
          intr_loop fuel
      end
  end.
Definition virtio_disk_intr : V unit :=
  vlock;;
  intr_loop (Z.to_nat (2 ^ 16));;
  vunlock.

(** The part of [virtio_disk_init] about the descriptors, on zeroed pages. *)
Definition virtio_disk_init (bufs : gmap nat vbuf) : disk :=
  mkdisk (replicate NUM (mkdesc DNull 0 0 0)) (replicate NUM 0%nat) 0 (replicate NUM 0%nat) 0
    (replicate NUM true) 0 (replicate NUM None) (replicate NUM 0) (replicate NUM (mkreq 0 0 0))
    false bufs ∅.

(** ** Processes, interrupts and the device *)

(** The device has taken [taken] entries of the available ring; [busy] are the
    chains it works on.  [vcalls] are the calls in progress with their mode,
    [vdone] counts the requests the device finished and the calls that
    returned, for each buffer. *)
Record vsys := mkvsys {
  vd : disk; taken : Z; busy : list nat; vcalls : gmap nat (bool * vres);
  served : gmap nat nat; returned : gmap nat nat }.

Definition count (m : gmap nat nat) (b : nat) : nat := default 0%nat (m !! b).
Definition bump (b : nat) (m : gmap nat nat) : gmap nat nat := <[b := S (count m b)]> m.

(** After a call or a resumption ends in [r]. *)
Definition after_rw (x : vsys) (b : nat) (write : bool) (r : vres) (d : disk) : vsys :=
  match r with
  | Finished => mkvsys d (taken x) (busy x) (delete b (vcalls x)) (served x) (bump b (returned x))
  | _ => mkvsys d (taken x) (busy x) (<[b := (write, r)]> (vcalls x)) (served x) (returned x)
  end.

(** The chain with head [h] asks to transfer the data of [b], to the disk if
    [write], at [sector]; its status byte is [info[j].status]. *)
Definition chain_is (d : disk) (h b : nat) (write : bool) (sector : Z) (j : nat) : Prop :=
  ∃ d0 d1 d2 i q, desc d !! h = Some d0 ∧ daddr d0 = DOps i ∧ dlen d0 = 16 ∧ dflags d0 = VRING_DESC_F_NEXT ∧
    ops d !! i = Some q ∧ rtype q = (if write then VIRTIO_BLK_T_OUT else VIRTIO_BLK_T_IN) ∧ rsector q = sector ∧
    desc d !! dnext d0 = Some d1 ∧ daddr d1 = DData b ∧ dlen d1 = BSIZE ∧
    dflags d1 = (if write then VRING_DESC_F_NEXT else VRING_DESC_F_WRITE + VRING_DESC_F_NEXT) ∧
    desc d !! dnext d1 = Some d2 ∧ daddr d2 = DStatus j ∧ dlen d2 = 1 ∧ dflags d2 = VRING_DESC_F_WRITE.

(** The device finishes that request: [bs] is what it read. *)
Definition device_done (d : disk) (h b : nat) (write : bool) (j : nat) (v : vbuf) (bs : list Z) : disk :=
  let d := if write then d else set_vbufs (<[b := mkvbuf (vblockno v) (vdisk v) bs]> (vbufs d)) d in
  let d := set_info_status (<[j := 0]> (info_status d)) d in
  set_used (<[Z.to_nat (used_ridx d `mod` Z.of_nat NUM) := h]> (used_ring d)) (u16 (used_ridx d + 1)) d.

Inductive vstep : vsys → vsys → Prop :=
  | step_call x b write r d :
      vcalls x !! b = None → virtio_disk_rw b write (vd x) = Ok r d →
      vstep x (after_rw x b write r d)
  | step_resume x b write r r' d :
      vcalls x !! b = Some (write, r) → vasleep (vd x) !! b = None →
      rw_resume b write r (vd x) = Ok r' d → vstep x (after_rw x b write r' d)
  | step_interrupt x d :
      virtio_disk_intr (vd x) = Ok () d →
      vstep x (mkvsys d (taken x) (busy x) (vcalls x) (served x) (returned x))
  | step_take x h :
      taken x ≠ avail_idx (vd x) → avail_ring (vd x) !! Z.to_nat (taken x `mod` Z.of_nat NUM) = Some h →
      vstep x (mkvsys (vd x) (u16 (taken x + 1)) (h :: busy x) (vcalls x) (served x) (returned x))
  | step_finish x l h l' b write sector j v bs :
      busy x = l ++ h :: l' → chain_is (vd x) h b write sector j → vbufs (vd x) !! b = Some v →
      vstep x (mkvsys (device_done (vd x) h b write j v bs) (taken x) (l ++ l') (vcalls x)
                 (bump b (served x)) (returned x)).

Definition vboot (bufs : gmap nat vbuf) : vsys := mkvsys (virtio_disk_init bufs) 0 [] ∅ ∅ ∅.
