(* ===== verification/VirtioSpec.v ===== *)
(** * What the disk driver does with its descriptors

    The requests in flight, what the driver's memory holds for each of them, and
    the effect of each of the driver's functions. *)
From stdpp Require Import list gmap.
From S2P Require Import Prelude Sleeplock Bio Virtio.

#[local] Open Scope Z_scope.

(** ** Requests in flight *)

Record req := mkrq { qb : nat; qw : bool; q0 : nat; q1 : nat; q2 : nat }.

Definition idxs (r : req) : list nat := [q0 r; q1 r; q2 r].
Definition Idx (rs : list req) : list nat := mjoin (idxs <$> rs).

Definition sector_of (v : vbuf) : Z := u32 (vblockno v * (BSIZE / 512)).

(** What the driver's memory holds for a request. *)
Record req_ok (d : disk) (r : req) : Prop := {
  ro_d0 : desc d !! q0 r = Some (mkdesc (DOps (q0 r)) 16 VRING_DESC_F_NEXT (q1 r));
  ro_d1 : desc d !! q1 r = Some (mkdesc (DData (qb r)) BSIZE
            (Z.lor (if qw r then 0 else VRING_DESC_F_WRITE) VRING_DESC_F_NEXT) (q2 r));
  ro_d2 : desc d !! q2 r = Some (mkdesc (DStatus (q0 r)) 1 VRING_DESC_F_WRITE 0);
  ro_op v : vbufs d !! qb r = Some v →
    ops d !! q0 r = Some (mkreq (if qw r then VIRTIO_BLK_T_OUT else VIRTIO_BLK_T_IN) 0 (sector_of v));
  ro_info : info_b d !! q0 r = Some (Some (qb r));
  ro_buf : is_Some (vbufs d !! qb r);
}.

(** [l] is in the ring from position [start] on. *)
Definition ring_at (ring : list nat) (start : Z) (l : list nat) : Prop :=
  ∀ k h, l !! k = Some h → ring !! Z.to_nat ((start + Z.of_nat k) `mod` Z.of_nat NUM) = Some h.

Definition free_count (d : disk) : nat := length (filter (λ b, b = true) (dfree d)).

(** The driver's memory: [pend] are the requests the device or the interrupt
    handler still has to finish, [fin] those that wait to be collected. *)
Record disk_ok (d : disk) (pend fin : list req) : Prop := {
  do_desc : length (desc d) = NUM;
  do_aring : length (avail_ring d) = NUM;
  do_uring : length (used_ring d) = NUM;
  do_free : length (dfree d) = NUM;
  do_infob : length (info_b d) = NUM;
  do_status : length (info_status d) = NUM;
  do_ops : length (ops d) = NUM;
  do_nodup : NoDup (Idx (pend ++ fin));
  do_used i b : dfree d !! i = Some b → b = false ↔ i ∈ Idx (pend ++ fin);
  do_lt i : i ∈ Idx (pend ++ fin) → (i < NUM)%nat;
  do_ok r : r ∈ pend ++ fin → req_ok d r;
  do_bufs : NoDup (qb <$> (pend ++ fin));
  do_pend r v : r ∈ pend → vbufs d !! qb r = Some v → vdisk v = true;
  do_fin r v : r ∈ fin → vbufs d !! qb r = Some v → vdisk v = false;
}.

Lemma elem_Idx i rs : i ∈ Idx rs ↔ ∃ r, r ∈ rs ∧ i ∈ idxs r.
Proof. unfold Idx. rewrite list_elem_of_join. setoid_rewrite list_elem_of_fmap. naive_solver. Qed.

Lemma Idx_app a b : Idx (a ++ b) = Idx a ++ Idx b.
Proof. unfold Idx. by rewrite fmap_app, join_app. Qed.

Lemma Idx_length rs : length (Idx rs) = (3 * length rs)%nat.
Proof.
  induction rs as [|r rs IH]; [done|]. change (Idx (r :: rs)) with (idxs r ++ Idx rs).
  rewrite length_app, IH. simpl. lia.
Qed.

#[global] Instance Idx_perm : Proper ((≡ₚ) ==> (≡ₚ)) Idx.
Proof. intros a b Hab. unfold Idx. by rewrite Hab. Qed.

(** At most two requests are in flight. *)
Lemma few_requests d pend fin : disk_ok d pend fin → (length pend + length fin ≤ 2)%nat.
Proof.
  intros Hd. assert (length (Idx (pend ++ fin)) ≤ length (seq 0 NUM))%nat as Hl.
  { apply submseteq_length, NoDup_submseteq; [apply Hd|]. intros i Hi%(do_lt _ _ _ Hd). apply elem_of_seq. lia. }
  rewrite Idx_length, length_app, length_seq in Hl. unfold NUM in Hl. lia.
Qed.

(** ** Ring arithmetic *)

Lemma u16_mod8 z : u16 z `mod` Z.of_nat NUM = z `mod` Z.of_nat NUM.
Proof.
  unfold u16, wrap, NUM. symmetry. apply Znumtheory.Zmod_div_mod; [lia|lia|]. by exists 8192.
Qed.

Lemma ring_push ring start l h :
  length ring = NUM → (length l < NUM)%nat → ring_at ring start l →
  ring_at (<[Z.to_nat (u16 (start + Z.of_nat (length l)) `mod` Z.of_nat NUM) := h]> ring) start (l ++ [h]).
Proof.
  intros Hr Hl Ha k h' Hk. rewrite u16_mod8.
  assert (∀ z, (Z.to_nat (z `mod` Z.of_nat NUM) < length ring)%nat) as Hb.
  { intros z. rewrite Hr. unfold NUM. pose proof (Z.mod_pos_bound z (Z.of_nat 8)). lia. }
  apply lookup_app_Some in Hk as [Hk|[Hge Hk]].
  - rewrite list_lookup_insert_ne; [by apply Ha|]. apply lookup_lt_Some in Hk. intros Heq%Z2Nat.inj; cycle 1.
    { apply Z.mod_pos_bound. unfold NUM. lia. }
    { apply Z.mod_pos_bound. unfold NUM. lia. }
    unfold NUM in *. Z.div_mod_to_equations. lia.
  - apply list_lookup_singleton_Some in Hk as [Hk <-]. replace k with (length l) by lia.
    by rewrite list_lookup_insert_eq.
Qed.

Lemma ring_pop ring start h l : ring_at ring start (h :: l) → ring_at ring (u16 (start + 1)) l.
Proof.
  intros Ha k h' Hk. specialize (Ha (S k) h' Hk).
  rewrite <- Zplus_mod_idemp_l, u16_mod8, Zplus_mod_idemp_l. rewrite <- Ha. do 3 f_equal. lia.
Qed.

(** ** Descriptors *)

Definition null_desc : virtq_desc := mkdesc DNull 0 0 0.
Definition woken_up (ch : vchan) (d : disk) : disk := set_vasleep (filter (λ p, p.2 ≠ ch) (vasleep d)) d.
Definition freed (i : nat) (d : disk) : disk :=
  woken_up OnFree (set_dfree (<[i := true]> (dfree d)) (set_desc (<[i := null_desc]> (desc d)) d)).

Lemma free_desc_run i d :
  (i < NUM)%nat → dfree d !! i = Some false → free_desc i d = Ok () (freed i d).
Proof.
  intros Hi Hf. unfold free_desc, elem, mbind, M_bind. destruct (Nat.leb_spec NUM i); [lia|].
  simpl. by rewrite Hf.
Qed.

Lemma alloc_from_Some k l i : alloc_from k l = Some i → ∃ j, i = (k + j)%nat ∧ l !! j = Some true.
Proof.
  induction l as [|[] l IH] in k |- *; simpl; [done|..].
  - intros [= <-]. exists 0%nat. split; [lia|done].
  - intros (j & -> & Hj)%IH. exists (S j). split; [lia|done].
Qed.

Lemma alloc_from_None k l : alloc_from k l = None → filter (λ b, b = true) l = [].
Proof. induction l as [|[] l IH] in k |- *; simpl; [done|done|]. apply IH. Qed.

Lemma count_insert (l : list bool) i :
  l !! i = Some true →
  length (filter (λ b, b = true) l) = S (length (filter (λ b, b = true) (<[i := false]> l))).
Proof.
  induction l as [|b l IH] in i |- *; [done|]. destruct i as [|i]; simpl.
  - intros [= ->]. rewrite !filter_cons. by rewrite decide_True, decide_False.
  - intros H. specialize (IH i H). rewrite !filter_cons. destruct (decide _); simpl; lia.
Qed.

(** A search that found too few descriptors and gave them back: what is not free
    did not change, and sleepers may have been woken up. *)
Record gave_back (d d' : disk) : Prop := {
  gb_desc i : dfree d !! i = Some false → desc d' !! i = desc d !! i;
  gb_len : length (desc d') = length (desc d);
  gb_same : ∃ x y, d' = set_vasleep y (set_desc x d) ∧ ∀ b ch, y !! b = Some ch → vasleep d !! b = Some ch;
}.

Lemma gave_back_refl d : gave_back d d.
Proof. split; [done|done|]. exists (desc d), (vasleep d). by destruct d. Qed.

Definition taken3 (i0 i1 i2 : nat) (d : disk) : disk :=
  set_dfree (<[i2 := false]> (<[i1 := false]> (<[i0 := false]> (dfree d)))) d.

Lemma alloc_desc_run d :
  (∃ i, alloc_desc d = Ok (Some i) (set_dfree (<[i := false]> (dfree d)) d) ∧ dfree d !! i = Some true) ∨
  (alloc_desc d = Ok None d ∧ filter (λ b, b = true) (dfree d) = []).
Proof.
  unfold alloc_desc, mbind, M_bind, gets. destruct (alloc_from 0 (dfree d)) as [i|] eqn:Ha.
  - apply alloc_from_Some in Ha as (j & -> & Hj). left. by exists j.
  - right. split; [done|]. by eapply alloc_from_None.
Qed.

Lemma alloc3_run d :
  length (dfree d) = NUM →
  (∃ i0 i1 i2, alloc3_desc d = Ok (Some [i0; i1; i2]) (taken3 i0 i1 i2 d) ∧ NoDup [i0; i1; i2] ∧
     ∀ i, i ∈ [i0; i1; i2] → dfree d !! i = Some true) ∨
  (∃ d', alloc3_desc d = Ok None d' ∧ gave_back d d' ∧ (free_count d < 3)%nat).
Proof.
  intros Hlen. unfold alloc3_desc, free_count. cbn [alloc3_loop].
  assert (∀ l i, length l = NUM → l !! i = Some false → free_desc i (set_dfree l d) = Ok () (freed i (set_dfree l d))) as Hfree.
  { intros l i Hl Hi. apply free_desc_run; [|done]. rewrite <- Hl. by eapply lookup_lt_Some. }
  destruct (alloc_desc_run d) as [(i0 & H0 & Hf0)|[H0 Hf0]].
  2: { right. exists d. runs H0. split_and!; [done|apply gave_back_refl|]. rewrite Hf0. simpl. lia. }
  runs H0. set (d1 := set_dfree _ d) in *.
  assert (dfree d1 = <[i0 := false]> (dfree d)) as Hd1 by done.
  destruct (alloc_desc_run d1) as [(i1 & H1 & Hf1)|[H1 Hf1]].
  2: { right. eexists. runs H1. cbn [free_all app]. rewrite bind_assoc.
       erewrite bind_ok by (apply Hfree; [by rewrite length_insert|apply list_lookup_insert_eq; by eapply lookup_lt_Some]).
       split_and!; [reflexivity| |].
       - split; simpl; [|by rewrite length_insert|].
         + intros j Hj. rewrite list_lookup_insert_ne; [done|]. intros ->. congruence.
         + eexists _, _. split; [|by intros b ch [? _]%map_lookup_filter_Some].
           unfold freed, woken_up, d1. simpl. rewrite list_insert_insert_eq, (list_insert_id (dfree d)) by done.
           by destruct d.
       - rewrite (count_insert _ i0) by done. rewrite Hd1 in Hf1. rewrite Hf1. simpl. lia. }
  runs H1. set (d2 := set_dfree _ d1) in *.
  assert (dfree d2 = <[i1 := false]> (<[i0 := false]> (dfree d))) as Hd2 by done.
  assert (i0 < length (dfree d))%nat as Hlt0 by by eapply lookup_lt_Some.
  assert (i1 ≠ i0) as Hne. { intros ->. rewrite Hd1, list_lookup_insert_eq in Hf1 by done. done. }
  assert (dfree d !! i1 = Some true) as Hf1'. { by rewrite Hd1, list_lookup_insert_ne in Hf1. }
  assert (i1 < length (dfree d))%nat as Hlt1 by by eapply lookup_lt_Some.
  destruct (alloc_desc_run d2) as [(i2 & H2 & Hf2)|[H2 Hf2]].
  - left. exists i0, i1, i2. runs H2. split_and!; [done| |].
    + assert (i2 ≠ i1). { intros ->. rewrite Hd2, list_lookup_insert_eq in Hf2 by by rewrite length_insert. done. }
      assert (i2 ≠ i0).
      { intros ->. rewrite Hd2, list_lookup_insert_ne, list_lookup_insert_eq in Hf2 by done. done. }
      repeat constructor; set_solver.
    + rewrite Hd2 in Hf2. intros i Hi.
      assert (dfree d !! i2 = Some true).
      { destruct (decide (i2 = i1)) as [->|]; [done|]. rewrite list_lookup_insert_ne in Hf2 by done.
        destruct (decide (i2 = i0)) as [->|]; [done|]. by rewrite list_lookup_insert_ne in Hf2. }
      set_solver.
  - right. eexists. runs H2. cbn [free_all app]. rewrite !bind_assoc.
    erewrite bind_ok.
    2: { apply free_desc_run; [lia|]. rewrite Hd2, list_lookup_insert_ne by done. by apply list_lookup_insert_eq. }
    rewrite bind_assoc. erewrite bind_ok.
    2: { apply free_desc_run; [lia|]. simpl. rewrite list_lookup_insert_ne by done. apply list_lookup_insert_eq.
         by rewrite !length_insert. }
    split_and!; [reflexivity| |].
    + split; simpl; [|by rewrite !length_insert|].
      * intros j Hj. rewrite !list_lookup_insert_ne; [done|..]; intros ->; congruence.
      * eexists _, _. split; [|intros b ch [[? _]%map_lookup_filter_Some _]%map_lookup_filter_Some; done].
        unfold freed, woken_up, d2, d1. simpl.
        rewrite (list_insert_insert_ne _ i1 i0 false false), (list_insert_insert_eq _ i0) by done.
        rewrite (list_insert_insert_ne _ i0 i1 true false), (list_insert_insert_eq _ i1) by done.
        rewrite (list_insert_id (dfree d) i0), (list_insert_id (dfree d) i1) by done.
        by destruct d.
    + rewrite (count_insert _ i0) by done. rewrite (count_insert _ i1) by by rewrite list_lookup_insert_ne.
      rewrite Hd2 in Hf2. rewrite Hf2. simpl. lia.
Qed.

(** ** Submitting a request *)

Definition sent (b : nat) (w : bool) (i0 i1 i2 : nat) (v : vbuf) (d : disk) : disk :=
  let d := set_ops (<[i0 := mkreq (if w then VIRTIO_BLK_T_OUT else VIRTIO_BLK_T_IN) 0 (sector_of v)]> (ops d)) d in
  let d := set_desc (<[i2 := mkdesc (DStatus i0) 1 VRING_DESC_F_WRITE 0]>
    (<[i1 := mkdesc (DData b) BSIZE (Z.lor (if w then 0 else VRING_DESC_F_WRITE) VRING_DESC_F_NEXT) i2]>
    (<[i0 := mkdesc (DOps i0) 16 VRING_DESC_F_NEXT i1]> (desc d)))) d in
  let d := set_info_status (<[i0 := 255]> (info_status d)) d in
  let d := set_vbufs (<[b := mkvbuf (vblockno v) true (vdata v)]> (vbufs d)) d in
  let d := set_info_b (<[i0 := Some b]> (info_b d)) d in
  set_avail (<[Z.to_nat (avail_idx d `mod` Z.of_nat NUM) := i0]> (avail_ring d)) (u16 (avail_idx d + 1)) d.

Lemma elem_run {A} (f : disk → list A) i d : (i < length (f d))%nat → ∃ a, elem f i d = Ok a d.
Proof. intros Hi. unfold elem. destruct (lookup_lt_is_Some_2 (f d) i Hi) as [a ->]. by exists a. Qed.

(** Run an [elem] whose result is not used. *)
Ltac skip_elem :=
  match goal with |- context [(elem ?f ?i ≫= _) ?d] =>
    let H := fresh in let a := fresh in
    destruct (elem_run f i d) as [a H]; [simpl; rewrite ?length_insert; lia|];
    erewrite (bind_ok _ _ d _ _ H); cbv beta; clear H a end.

Lemma put_desc_run i x d :
  (i < length (desc d))%nat → put_desc i x d = Ok () (set_desc (<[i := x]> (desc d)) d).
Proof. intros Hi. unfold put_desc. by skip_elem. Qed.

Lemma set_disk_flag_run b x v d :
  vbufs d !! b = Some v →
  set_disk_flag b x d = Ok () (set_vbufs (<[b := mkvbuf (vblockno v) x (vdata v)]> (vbufs d)) d).
Proof. intros Hv. unfold set_disk_flag, get_vbuf, mbind, M_bind. by rewrite Hv. Qed.

Lemma submit_run b w v i0 i1 i2 d :
  length (desc d) = NUM → length (ops d) = NUM → length (info_b d) = NUM → length (info_status d) = NUM →
  (i0 < NUM)%nat → (i1 < NUM)%nat → (i2 < NUM)%nat → vbufs d !! b = Some v →
  submit b w (sector_of v) i0 i1 i2 d = Ok () (sent b w i0 i1 i2 v d).
Proof.
  intros H1 H2 H3 H4 Hi0 Hi1 Hi2 Hv. unfold submit. skip_elem.
  erewrite bind_ok by reflexivity. cbv beta.
  erewrite bind_ok by (apply put_desc_run; simpl; lia). cbv beta.
  erewrite bind_ok by (apply put_desc_run; simpl; rewrite ?length_insert; lia). cbv beta. skip_elem.
  erewrite bind_ok by reflexivity. cbv beta.
  erewrite bind_ok by (apply put_desc_run; simpl; rewrite ?length_insert; lia). cbv beta.
  erewrite bind_ok by (by apply set_disk_flag_run). cbv beta. skip_elem. done.
Qed.

(** The requests already in flight keep their memory. *)
Lemma req_ok_sent d r b w i0 i1 i2 v :
  req_ok d r → (∀ i, i ∈ idxs r → i ∉ [i0; i1; i2]) → qb r ≠ b →
  req_ok (sent b w i0 i1 i2 v d) r.
Proof.
  intros [H0 H1 H2 H3 H4 H5] Hi Hb.
  assert (∀ i, i ∈ idxs r → i ≠ i0 ∧ i ≠ i1 ∧ i ≠ i2) as Hne by (intros i Hin%Hi; set_solver).
  assert (q0 r ∈ idxs r ∧ q1 r ∈ idxs r ∧ q2 r ∈ idxs r) as (Q0 & Q1 & Q2) by (unfold idxs; set_solver).
  destruct (Hne _ Q0) as (? & ? & ?), (Hne _ Q1) as (? & ? & ?), (Hne _ Q2) as (? & ? & ?).
  split; simpl; rewrite ?list_lookup_insert_ne by done; try done.
  - rewrite lookup_insert_ne by done. apply H3.
  - by rewrite lookup_insert_ne.
Qed.

Lemma req_ok_new d b w i0 i1 i2 v :
  length (desc d) = NUM → length (ops d) = NUM → length (info_b d) = NUM →
  (i0 < NUM)%nat → (i1 < NUM)%nat → (i2 < NUM)%nat → NoDup [i0; i1; i2] →
  req_ok (sent b w i0 i1 i2 v d) (mkrq b w i0 i1 i2).
Proof.
  intros H1 H2 H3 Hi0 Hi1 Hi2 Hnd.
  assert (i0 ≠ i1 ∧ i0 ≠ i2 ∧ i1 ≠ i2) as (N1 & N2 & N3).
  { apply NoDup_cons in Hnd as [Ha Hnd]. apply NoDup_cons in Hnd as [Hb _]. set_solver. }
  split; simpl.
  - rewrite !(list_lookup_insert_ne _ _ i0) by done. apply list_lookup_insert_eq. lia.
  - rewrite (list_lookup_insert_ne _ _ i1) by done. apply list_lookup_insert_eq. rewrite length_insert. lia.
  - apply list_lookup_insert_eq. rewrite !length_insert. lia.
  - rewrite lookup_insert_eq. intros v' [= <-]. apply list_lookup_insert_eq. lia.
  - apply list_lookup_insert_eq. lia.
  - rewrite lookup_insert_eq. done.
Qed.

(** ** The driver's memory *)

Lemma taken3_in d i0 i1 i2 i x :
  i ∈ [i0; i1; i2] → dfree (taken3 i0 i1 i2 d) !! i = Some x → x = false.
Proof.
  intros Hin. simpl. rewrite !list_lookup_insert_Some, !length_insert.
  assert (i = i0 ∨ i = i1 ∨ i = i2) as Hc by set_solver. naive_solver.
Qed.
Lemma taken3_out d i0 i1 i2 i x :
  i ∉ [i0; i1; i2] → dfree (taken3 i0 i1 i2 d) !! i = Some x → dfree d !! i = Some x.
Proof.
  intros Hin. simpl. assert (i ≠ i0 ∧ i ≠ i1 ∧ i ≠ i2) as (? & ? & ?) by set_solver.
  by rewrite !list_lookup_insert_ne.
Qed.

Lemma disk_ok_perm d pend fin pend' fin' :
  pend ≡ₚ pend' → fin ≡ₚ fin' → disk_ok d pend fin → disk_ok d pend' fin'.
Proof.
  intros Hp Hf []. split; try done.
  - by rewrite <- Hp, <- Hf.
  - intros i b. rewrite <- Hp, <- Hf. auto.
  - intros i. rewrite <- Hp, <- Hf. auto.
  - intros r. rewrite <- Hp, <- Hf. auto.
  - by rewrite <- Hp, <- Hf.
  - intros r v. rewrite <- Hp. eauto.
  - intros r v. rewrite <- Hf. eauto.
Qed.

(** The fields that the requests do not depend on. *)
Record core (d d' : disk) : Prop := {
  co_desc : desc d' = desc d;
  co_free : dfree d' = dfree d;
  co_infob : info_b d' = info_b d;
  co_ops : ops d' = ops d;
  co_bufs : vbufs d' = vbufs d;
  co_aring : length (avail_ring d') = length (avail_ring d);
  co_uring : length (used_ring d') = length (used_ring d);
  co_status : length (info_status d') = length (info_status d);
}.

Lemma disk_ok_core d d' pend fin : core d d' → disk_ok d pend fin → disk_ok d' pend fin.
Proof.
  intros [E1 E2 E3 E4 E5 E6 E7 E8] []. split; rewrite ?E1, ?E2, ?E3, ?E4, ?E5, ?E6, ?E7, ?E8; try done.
  intros r Hr. destruct (do_ok0 r Hr). split; rewrite ?E1, ?E3, ?E4, ?E5; done.
Qed.

Lemma core_lock x d : core d (set_vlock x d).
Proof. done. Qed.
Lemma core_asleep x d : core d (set_vasleep x d).
Proof. done. Qed.

Lemma disk_ok_gave_back d d' pend fin : gave_back d d' → disk_ok d pend fin → disk_ok d' pend fin.
Proof.
  intros [Hd Hl (x & y & -> & _)] H. destruct H. split; simpl in *; try done; [congruence|].
  intros r Hr. pose proof (do_ok0 r Hr) as []. split; simpl; try done.
  all: rewrite Hd; [done|].
  all: assert (∀ i, i ∈ idxs r → dfree d !! i = Some false) as Hf; [|apply Hf; unfold idxs; set_solver].
  all: intros i Hi; assert (i ∈ Idx (pend ++ fin)) as Hi' by (apply elem_Idx; eauto).
  all: destruct (dfree d !! i) as [b|] eqn:Hb;
    [by rewrite (proj2 (do_used0 i b Hb) Hi')|apply lookup_ge_None in Hb; apply do_lt0 in Hi'; lia].
Qed.

Lemma disk_ok_sent d pend fin b w i0 i1 i2 v :
  disk_ok d pend fin → NoDup [i0; i1; i2] → (∀ i, i ∈ [i0; i1; i2] → dfree d !! i = Some true) →
  vbufs d !! b = Some v → b ∉ qb <$> (pend ++ fin) →
  disk_ok (sent b w i0 i1 i2 v (taken3 i0 i1 i2 d)) (mkrq b w i0 i1 i2 :: pend) fin.
Proof.
  intros Hd Hnd Hf Hv Hb. pose proof Hd as [L1 L2 L3 L4 L5 L6 L7 Dn Du Dl Do Db Dp Df].
  assert (∀ i, i ∈ [i0; i1; i2] → (i < NUM)%nat ∧ i ∉ Idx (pend ++ fin)) as Hi.
  { intros i Hin. pose proof (Hf i Hin) as Hfi. split; [rewrite <- L4; by eapply lookup_lt_Some|].
    intros Hx%(Du i true Hfi). done. }
  destruct (Hi i0) as [Hl0 Hn0]; [set_solver|]. destruct (Hi i1) as [Hl1 Hn1]; [set_solver|].
  destruct (Hi i2) as [Hl2 Hn2]; [set_solver|].
  change ((mkrq b w i0 i1 i2 :: pend) ++ fin) with (mkrq b w i0 i1 i2 :: (pend ++ fin)).
  assert (∀ r, r ∈ pend ++ fin → qb r ≠ b) as Hqb.
  { intros r Hr <-. apply Hb, list_elem_of_fmap. eauto. }
  split; rewrite <- ?app_comm_cons; simpl; rewrite ?length_insert; try done.
  - change (Idx (mkrq b w i0 i1 i2 :: pend ++ fin)) with ([i0; i1; i2] ++ Idx (pend ++ fin)).
    apply NoDup_app. split_and!; [done| |done]. intros i Hin. by apply Hi.
  - intros i x. change (Idx (mkrq b w i0 i1 i2 :: pend ++ fin)) with ([i0; i1; i2] ++ Idx (pend ++ fin)).
    rewrite elem_of_app. intros Hx. destruct (decide (i ∈ [i0; i1; i2])) as [Hin|Hin].
    + rewrite (taken3_in d i0 i1 i2 i x Hin Hx). naive_solver.
    + apply (taken3_out d) in Hx; [|done]. rewrite (Du i x Hx). naive_solver.
  - intros i. change (Idx (mkrq b w i0 i1 i2 :: pend ++ fin)) with ([i0; i1; i2] ++ Idx (pend ++ fin)).
    rewrite elem_of_app. intros [Hin|Hin]; [by apply Hi|by apply Dl].
  - intros r [->|Hr]%elem_of_cons; [by apply req_ok_new|].
    apply (req_ok_sent (taken3 i0 i1 i2 d)); [by destruct (Do r Hr)| |by apply Hqb].
    intros i Hir Hin. destruct (Hi i Hin) as [_ []]. apply elem_Idx. eauto.
  - apply NoDup_cons. split; [|done]. done.
  - intros r v' [->|Hr]%elem_of_cons; simpl.
    + rewrite lookup_insert_eq. by intros [= <-].
    + rewrite lookup_insert_ne; [by apply Dp|]. apply not_eq_sym, Hqb, elem_of_app. by left.
  - intros r v' Hr. rewrite lookup_insert_ne; [by apply Df|]. apply not_eq_sym, Hqb, elem_of_app. by right.
Qed.

(** ** Collecting a finished request *)

Definition freed3 (r : req) (d : disk) : disk := freed (q2 r) (freed (q1 r) (freed (q0 r) d)).

Lemma in_flight d pend fin r :
  disk_ok d pend fin → r ∈ pend ++ fin →
  NoDup (idxs r) ∧ ∀ i, i ∈ idxs r → (i < NUM)%nat ∧ dfree d !! i = Some false.
Proof.
  intros Hd Hr. split.
  - pose proof (do_nodup _ _ _ Hd) as Hn. apply list_elem_of_split in Hr as (l1 & l2 & Heq).
    rewrite Heq in Hn. unfold Idx in Hn. rewrite fmap_app, join_app in Hn.
    apply NoDup_app in Hn as (_ & _ & Hn). simpl in Hn.
    apply (NoDup_app (idxs r)) in Hn. apply Hn.
  - intros i Hi. assert (i ∈ Idx (pend ++ fin)) as Hi' by (apply elem_Idx; eauto).
    pose proof (do_lt _ _ _ Hd i Hi') as Hlt. split; [done|].
    destruct (lookup_lt_is_Some_2 (dfree d) i) as [b Hb]; [by rewrite (do_free _ _ _ Hd)|].
    by rewrite Hb, (proj2 (do_used _ _ _ Hd i b Hb) Hi').
Qed.

Lemma idxs_ne r : NoDup (idxs r) → q0 r ≠ q1 r ∧ q0 r ≠ q2 r ∧ q1 r ≠ q2 r.
Proof. unfold idxs. intros [Ha [Hb _]%NoDup_cons]%NoDup_cons. set_solver. Qed.

Lemma free_chain_one fuel i x d :
  desc d !! i = Some x → (i < NUM)%nat → dfree d !! i = Some false →
  free_chain_loop (S fuel) i d =
    if truth (Z.land (dflags x) VRING_DESC_F_NEXT) then free_chain_loop fuel (dnext x) (freed i d)
    else Ok () (freed i d).
Proof.
  intros Hx Hi Hf. cbn [free_chain_loop]. erewrite bind_ok by (unfold elem; by rewrite Hx). cbv beta.
  erewrite bind_ok by (by apply free_desc_run). by destruct (truth _).
Qed.

Lemma free_chain_run d r :
  desc d !! q0 r = Some (mkdesc (DOps (q0 r)) 16 VRING_DESC_F_NEXT (q1 r)) →
  desc d !! q1 r = Some (mkdesc (DData (qb r)) BSIZE
            (Z.lor (if qw r then 0 else VRING_DESC_F_WRITE) VRING_DESC_F_NEXT) (q2 r)) →
  desc d !! q2 r = Some (mkdesc (DStatus (q0 r)) 1 VRING_DESC_F_WRITE 0) →
  NoDup (idxs r) → (∀ i, i ∈ idxs r → (i < NUM)%nat ∧ dfree d !! i = Some false) →
  free_chain (q0 r) d = Ok () (freed3 r d).
Proof.
  intros D0 D1 D2 Hnd Hf. destruct (idxs_ne r Hnd) as (N1 & N2 & N3).
  assert (q0 r ∈ idxs r ∧ q1 r ∈ idxs r ∧ q2 r ∈ idxs r) as (Q0 & Q1 & Q2) by (unfold idxs; set_solver).
  destruct (Hf _ Q0) as [L0 F0], (Hf _ Q1) as [L1 F1], (Hf _ Q2) as [L2 F2].
  unfold free_chain. rewrite (free_chain_one _ _ _ d D0 L0 F0).
  change (free_chain_loop NUM (q1 r) (freed (q0 r) d) = Ok () (freed3 r d)). unfold NUM.
  erewrite (free_chain_one 7) by (simpl; rewrite ?list_lookup_insert_ne by done; done).
  cbn [dflags dnext]. replace (truth _) with true by (by destruct (qw r)).
  erewrite (free_chain_one 6) by (simpl; rewrite ?list_lookup_insert_ne by done; done). done.
Qed.

Definition collected (r : req) (d : disk) : disk := freed3 r (set_info_b (<[q0 r := None]> (info_b d)) d).

Lemma req_ok_collected d r r' :
  req_ok d r' → (∀ i, i ∈ idxs r' → i ∉ idxs r) → req_ok (collected r d) r'.
Proof.
  intros [H0 H1 H2 H3 H4 H5] Hi.
  assert (∀ i, i ∈ idxs r' → i ≠ q0 r ∧ i ≠ q1 r ∧ i ≠ q2 r) as Hne by (intros i Hin%Hi; unfold idxs in Hin; set_solver).
  assert (q0 r' ∈ idxs r' ∧ q1 r' ∈ idxs r' ∧ q2 r' ∈ idxs r') as (Q0 & Q1 & Q2) by (unfold idxs; set_solver).
  destruct (Hne _ Q0) as (? & ? & ?), (Hne _ Q1) as (? & ? & ?), (Hne _ Q2) as (? & ? & ?).
  split; simpl; rewrite ?list_lookup_insert_ne by done; done.
Qed.

Lemma collected_free d r i x :
  dfree (collected r d) !! i = Some x →
  (i ∈ idxs r ∧ x = true) ∨ (i ∉ idxs r ∧ dfree d !! i = Some x).
Proof.
  simpl. unfold idxs. rewrite !list_lookup_insert_Some. set_solver.
Qed.

Lemma disk_ok_collected d pend fin r :
  disk_ok d pend (r :: fin) → disk_ok (collected r d) pend fin.
Proof.
  intros Hd. pose proof Hd as [L1 L2 L3 L4 L5 L6 L7 Dn Du Dl Do Db Dp Df].
  assert (pend ++ r :: fin ≡ₚ r :: (pend ++ fin)) as Hp by (symmetry; apply Permutation_middle).
  rewrite Hp in Dn, Db. change (Idx (r :: pend ++ fin)) with (idxs r ++ Idx (pend ++ fin)) in Dn.
  apply NoDup_app in Dn as (_ & Dx & Dn). apply NoDup_cons in Db as [_ Db].
  assert (∀ r', r' ∈ pend ++ fin → r' ∈ pend ++ r :: fin) as Hin by (intros r'; rewrite !elem_of_app; set_solver).
  split; simpl; rewrite ?length_insert; try done.
  - intros i x Hx%collected_free. destruct Hx as [[Hi ->]|[Hi Hx]].
    + split; [done|]. intros Hi'. by apply Dx in Hi.
    + rewrite (Du i x Hx), Hp. change (Idx (r :: pend ++ fin)) with (idxs r ++ Idx (pend ++ fin)).
      rewrite elem_of_app. naive_solver.
  - intros i (r' & Hr' & Hi)%elem_Idx. apply Dl, elem_Idx. eauto.
  - intros r' Hr'. apply req_ok_collected; [auto|]. intros i Hi Hi'. apply (Dx i Hi'), elem_Idx. eauto.
  - intros r' v Hr'. apply Df. by right.
Qed.

(** ** The interrupt handler *)

(** The request [r] of buffer [v] is acknowledged. *)
Definition acked (r : req) (v : vbuf) (d : disk) : disk :=
  set_used_idx (u16 (used_idx d + 1))
    (woken_up (OnBuf (qb r)) (set_vbufs (<[qb r := mkvbuf (vblockno v) false (vdata v)]> (vbufs d)) d)).

Lemma disk_ok_acked d pend fin r v :
  disk_ok d (r :: pend) fin → vbufs d !! qb r = Some v → disk_ok (acked r v d) pend (r :: fin).
Proof.
  intros Hd Hv. pose proof Hd as [L1 L2 L3 L4 L5 L6 L7 Dn Du Dl Do Db Dp Df].
  assert (pend ++ r :: fin ≡ₚ (r :: pend) ++ fin) as Hp by (symmetry; apply Permutation_middle).
  pose proof Db as Db'. simpl in Db'. apply NoDup_cons in Db' as [Hnr _].
  split; simpl; rewrite ?Hp; try done.
  - intros i x. rewrite Hp. apply Du.
  - intros i. rewrite Hp. apply Dl.
  - intros r'. rewrite Hp. intros Hr'. destruct (Do r' Hr') as [H0 H1 H2 H3 H4 H5]. split; simpl; try done.
    + destruct (decide (qb r' = qb r)) as [Heq|Hne].
      * rewrite Heq, lookup_insert_eq. intros v' [= <-]. rewrite Heq in H3. by apply (H3 v).
      * rewrite lookup_insert_ne by done. apply H3.
    + destruct (decide (qb r' = qb r)) as [->|Hne]; [by rewrite lookup_insert_eq|by rewrite lookup_insert_ne].
  - intros r' v' Hr'. rewrite lookup_insert_ne; [apply Dp; by right|].
    intros Heq. apply Hnr. rewrite Heq. apply list_elem_of_fmap. exists r'. set_solver.
  - intros r' v' [->|Hr']%elem_of_cons; [rewrite lookup_insert_eq; by intros [= <-]|].
    rewrite lookup_insert_ne; [by apply Df|]. intros Heq. apply Hnr. rewrite Heq. apply list_elem_of_fmap.
    exists r'. set_solver.
Qed.
