(* ===== verification/VirtioTheorems.v ===== *)
(** * The disk driver among processes, interrupts and the device *)
From stdpp Require Import list gmap.
From S2P Require Import Prelude Sleeplock Bio Virtio VirtioSpec.

#[local] Open Scope Z_scope.

(** ** The driver's functions on a consistent memory *)

Definition slept (b : nat) (ch : vchan) (d : disk) : disk :=
  set_vlock false (set_vasleep (<[b := ch]> (vasleep d)) d).

Lemma disk_ok_slept b ch d pend fin : disk_ok d pend fin → disk_ok (slept b ch d) pend fin.
Proof. intros Hd. apply (disk_ok_core _ _ _ _ (core_lock _ _)), (disk_ok_core _ _ _ _ (core_asleep _ _)), Hd. Qed.

Lemma vunlock_run d : vdisk_lock d = true → vunlock d = Ok () (set_vlock false d).
Proof. unfold vunlock. by intros ->. Qed.

Lemma rw_wait_busy b i0 v d :
  vdisk_lock d = true → vbufs d !! b = Some v → vdisk v = true →
  rw_wait b i0 d = Ok (Waiting i0) (slept b (OnBuf b) d).
Proof.
  intros Hl Hv Hd. unfold rw_wait, get_vbuf, mbind, M_bind. rewrite Hv, Hd.
  unfold vsleep, vunlock, modify, mbind, M_bind. simpl. by rewrite Hl.
Qed.

Lemma rw_wait_done d pend fin r v :
  disk_ok d pend (r :: fin) → vdisk_lock d = true → vbufs d !! qb r = Some v →
  rw_wait (qb r) (q0 r) d = Ok Finished (set_vlock false (collected r d)).
Proof.
  intros Hd Hl Hv. assert (r ∈ pend ++ r :: fin) as Hr by (rewrite elem_of_app; right; by left).
  unfold rw_wait. erewrite bind_ok by (unfold get_vbuf; by rewrite Hv). cbv beta.
  rewrite (do_fin _ _ _ Hd r v (list_elem_of_here _ _) Hv).
  destruct (elem_run info_b (q0 r) d) as [a Ha].
  { rewrite (do_infob _ _ _ Hd). apply (in_flight _ _ _ _ Hd Hr). unfold idxs. by left. }
  runs Ha. erewrite bind_ok by reflexivity. cbv beta.
  destruct (in_flight _ _ _ _ Hd Hr) as [Hnd Hf]. destruct (do_ok _ _ _ Hd r Hr) as [D0 D1 D2 _ _ _].
  erewrite bind_ok by (by apply free_chain_run). cbv beta.
  erewrite bind_ok by (apply vunlock_run; exact Hl). reflexivity.
Qed.

(** One try to get descriptors. *)
Lemma rw_alloc_run d pend fin b w v :
  disk_ok d pend fin → vdisk_lock d = true → vbufs d !! b = Some v →
  (∃ i0 i1 i2, rw_alloc b w d = Ok (Waiting i0) (slept b (OnBuf b) (sent b w i0 i1 i2 v (taken3 i0 i1 i2 d))) ∧
     NoDup [i0; i1; i2] ∧ ∀ i, i ∈ [i0; i1; i2] → dfree d !! i = Some true) ∨
  (∃ d', rw_alloc b w d = Ok NoDesc (slept b OnFree d') ∧ gave_back d d' ∧ (free_count d < 3)%nat).
Proof.
  intros Hd Hl Hv. unfold rw_alloc. erewrite bind_ok by (unfold get_vbuf; by rewrite Hv). cbv beta zeta.
  destruct (alloc3_run d (do_free _ _ _ Hd)) as [(i0 & i1 & i2 & Ha & Hnd & Hf)|(d' & Ha & Hg & Hc)].
  - left. exists i0, i1, i2. runs Ha. split_and!; [|done..].
    assert (∀ i, i ∈ [i0; i1; i2] → (i < NUM)%nat) as Hi.
    { intros i Hi%Hf. rewrite <- (do_free _ _ _ Hd). by eapply lookup_lt_Some. }
    erewrite bind_ok.
    2: { apply (submit_run b w v); [apply Hd..| | | |done]; apply Hi; set_solver. }
    cbv beta. apply (rw_wait_busy _ _ (mkvbuf (vblockno v) true (vdata v))); [done| |done].
    simpl. apply lookup_insert_eq.
  - right. exists d'. runs Ha. split_and!; [|done..]. destruct Hg as [_ _ (x & y & -> & _)].
    unfold vsleep, vunlock, modify, mbind, M_bind. simpl. by rewrite Hl.
Qed.

Lemma u16_plus a b : u16 (u16 a + b) = u16 (a + b).
Proof. unfold u16, wrap. by rewrite Zplus_mod_idemp_l. Qed.

(** The interrupt handler acknowledges the requests [us] of the used ring. *)
Record intr_done (us : list req) (d d' : disk) : Prop := {
  id_ring : avail_ring d' = avail_ring d ∧ avail_idx d' = avail_idx d ∧ used_ring d' = used_ring d ∧
            used_ridx d' = used_ridx d ∧ vdisk_lock d' = vdisk_lock d ∧ dfree d' = dfree d;
  id_used : used_idx d' = used_ridx d;
  id_sleep b ch : vasleep d' !! b = Some ch → vasleep d !! b = Some ch ∧ ∀ r, r ∈ us → ch ≠ OnBuf (qb r);
  id_bufs b : is_Some (vbufs d !! b) → is_Some (vbufs d' !! b);
}.

Lemma intr_loop_run us fuel d pend fin :
  disk_ok d (us ++ pend) fin → used_ridx d = u16 (used_idx d + Z.of_nat (length us)) →
  0 ≤ used_idx d < 2 ^ 16 → ring_at (used_ring d) (used_idx d) (q0 <$> us) →
  (∀ r, r ∈ us → info_status d !! q0 r = Some 0) → (length us ≤ fuel)%nat →
  ∃ d', intr_loop fuel d = Ok () d' ∧ disk_ok d' pend (us ++ fin) ∧ intr_done us d d'.
Proof.
  induction us as [|r us IH] in fuel, d, fin |- *; intros Hd Hr Hu Hring Hst Hfuel.
  - exists d. simpl in Hr. rewrite Z.add_0_r in Hr. unfold u16, wrap in Hr. rewrite Z.mod_small in Hr by done.
    split_and!; [|done|].
    + destruct fuel; cbn [intr_loop]; unfold mbind, M_bind, gets; by rewrite Hr, Z.eqb_refl.
    + split; try done. intros b ch Hb. split; [done|]. by intros r ?%elem_of_nil.
  - destruct fuel as [|fuel]; [simpl in Hfuel; lia|].
    assert (r ∈ (r :: us ++ pend) ++ fin) as Hin by by left.
    pose proof (do_ok _ _ _ Hd r Hin) as [_ _ _ _ Hib [v Hv]].
    assert (used_idx d ≠ used_ridx d) as Hne.
    { pose proof (few_requests _ _ _ Hd) as Hf. rewrite Hr. simpl length in *. rewrite length_app in Hf.
      unfold u16, wrap. Z.div_mod_to_equations. lia. }
    assert (elem used_ring (Z.to_nat (used_idx d `mod` Z.of_nat NUM)) d = Ok (q0 r) d) as He.
    { unfold elem. specialize (Hring 0%nat (q0 r) eq_refl). rewrite Z.add_0_r in Hring. by rewrite Hring. }
    cbn [intr_loop]. erewrite bind_ok by reflexivity. cbv beta. erewrite bind_ok by reflexivity. cbv beta.
    destruct (Z.eqb_spec (used_idx d) (used_ridx d)); [done|]. runs He.
    erewrite bind_ok by (unfold elem; by rewrite (Hst r (list_elem_of_here _ _))). cbv beta. simpl when.
    erewrite bind_ok by reflexivity. cbv beta. erewrite bind_ok by (unfold elem; by rewrite Hib). cbv beta iota.
    erewrite bind_ok by (by apply set_disk_flag_run). cbv beta.
    erewrite bind_ok by reflexivity. cbv beta. erewrite bind_ok by reflexivity. cbv beta.
    change (∃ d', intr_loop fuel (acked r v d) = Ok () d' ∧ disk_ok d' pend ((r :: us) ++ fin) ∧ intr_done (r :: us) d d').
    destruct (IH fuel (acked r v d) (r :: fin)) as (d' & Hrun & Hok & [Hir Hiu His Hib']).
    + by apply disk_ok_acked.
    + simpl. rewrite Hr. simpl length. by rewrite u16_plus, Nat2Z.inj_succ, <- Z.add_1_l, Z.add_assoc.
    + simpl. unfold u16, wrap. apply Z.mod_pos_bound. lia.
    + by apply ring_pop in Hring.
    + intros r' Hr'. apply (Hst r'). by right.
    + simpl in Hfuel. lia.
    + exists d'. split_and!; [done|..].
      * eapply disk_ok_perm; [done| |done]. simpl. symmetry. apply Permutation_middle.
      * split; [done|done|..].
        -- intros b ch [Hb Hn]%His. simpl in Hb. apply map_lookup_filter_Some in Hb as [Hb Hx].
           split; [done|]. intros r' [->|Hr']%elem_of_cons; [done|by apply Hn].
        -- intros b Hb. apply Hib'. simpl. destruct (decide (b = qb r)) as [->|].
           ++ by rewrite lookup_insert_eq.
           ++ by rewrite lookup_insert_ne.
Qed.

(** ** The system *)

Record vinv (x : vsys) (av bs us fin : list req) : Prop := {
  vi_ok : disk_ok (vd x) (av ++ bs ++ us) fin;
  vi_lock : vdisk_lock (vd x) = false;
  vi_calls b w i : vcalls x !! b = Some (w, Waiting i) ↔
    ∃ r, r ∈ (av ++ bs ++ us) ++ fin ∧ qb r = b ∧ qw r = w ∧ q0 r = i;
  vi_open b w r : vcalls x !! b = Some (w, r) → r ≠ Finished ∧ is_Some (vbufs (vd x) !! b);
  vi_avail : avail_idx (vd x) = u16 (taken x + Z.of_nat (length av));
  vi_aring : ring_at (avail_ring (vd x)) (taken x) (q0 <$> av);
  vi_taken : 0 ≤ taken x < 2 ^ 16;
  vi_busy : busy x = q0 <$> bs;
  vi_used : used_ridx (vd x) = u16 (used_idx (vd x) + Z.of_nat (length us));
  vi_uring : ring_at (used_ring (vd x)) (used_idx (vd x)) (q0 <$> us);
  vi_uidx : 0 ≤ used_idx (vd x) < 2 ^ 16;
  vi_status r : r ∈ us → info_status (vd x) !! q0 r = Some 0;
  vi_count b : count (served x) b = (count (returned x) b + if decide (b ∈ qb <$> us ++ fin) then 1 else 0)%nat;
  vi_sleep b ch : vasleep (vd x) !! b = Some ch →
    (ch = OnFree ∧ (∃ w, vcalls x !! b = Some (w, NoDesc)) ∧ (free_count (vd x) < 3)%nat) ∨
    (ch = OnBuf b ∧ ∃ r, r ∈ av ++ bs ++ us ∧ qb r = b);
}.

Lemma vboot_inv bufs : vinv (vboot bufs) [] [] [] [].
Proof.
  split; simpl; try done.
  - split; simpl; try done; [apply NoDup_nil_2| | | |apply NoDup_nil_2|..].
    + intros i b Hb. change (replicate NUM true !! i = Some b) in Hb. apply lookup_replicate in Hb as [-> _]. split; [done|by intros ?%elem_of_nil].
    + by intros i ?%elem_of_nil.
    + by intros r ?%elem_of_nil.
    + by intros r v ?%elem_of_nil.
    + by intros r v ?%elem_of_nil.
  - intros b w i. rewrite lookup_empty. split; [done|]. by intros (r & ?%elem_of_nil & _).
  - by intros r ?%elem_of_nil.
Qed.

(** *** A process gets descriptors, or not *)

Lemma three_free d i0 i1 i2 :
  NoDup [i0; i1; i2] → (∀ i, i ∈ [i0; i1; i2] → dfree d !! i = Some true) → (3 ≤ free_count d)%nat.
Proof.
  intros Hnd Hf. unfold free_count.
  assert (i0 ≠ i1 ∧ i0 ≠ i2 ∧ i1 ≠ i2) as (N1 & N2 & N3).
  { apply NoDup_cons in Hnd as [Ha Hnd]. apply NoDup_cons in Hnd as [Hb _]. set_solver. }
  rewrite (count_insert _ i0) by (apply Hf; set_solver).
  rewrite (count_insert _ i1) by (rewrite list_lookup_insert_ne by done; apply Hf; set_solver).
  rewrite (count_insert _ i2) by (rewrite !list_lookup_insert_ne by done; apply Hf; set_solver).
  lia.
Qed.

Lemma not_in_flight x av bs us fin b :
  vinv x av bs us fin → (vcalls x !! b = None ∨ ∃ w, vcalls x !! b = Some (w, NoDesc)) →
  b ∉ qb <$> (av ++ bs ++ us) ++ fin.
Proof.
  intros Hx Hb (r & -> & Hr)%list_elem_of_fmap.
  assert (vcalls x !! qb r = Some (qw r, Waiting (q0 r))) as Hc by (apply Hx; eauto). naive_solver.
Qed.

Lemma vinv_sent x av bs us fin b w i0 i1 i2 v :
  vinv x av bs us fin → (vcalls x !! b = None ∨ ∃ w, vcalls x !! b = Some (w, NoDesc)) →
  vbufs (vd x) !! b = Some v → NoDup [i0; i1; i2] →
  (∀ i, i ∈ [i0; i1; i2] → dfree (vd x) !! i = Some true) →
  vinv (after_rw x b w (Waiting i0) (slept b (OnBuf b) (sent b w i0 i1 i2 v (taken3 i0 i1 i2 (set_vlock true (vd x))))))
    (av ++ [mkrq b w i0 i1 i2]) bs us fin.
Proof.
  intros Hx Hb Hv Hnd Hf. pose proof (not_in_flight _ _ _ _ _ _ Hx Hb) as Hnb.
  pose proof (vi_ok _ _ _ _ _ Hx) as Hd. set (rq := mkrq b w i0 i1 i2).
  assert ((av ++ [rq]) ++ bs ++ us ≡ₚ rq :: (av ++ bs ++ us)) as Hp.
  { rewrite <- (assoc_L (++)). simpl. symmetry. apply Permutation_middle. }
  assert (∀ r, r ∈ (av ++ bs ++ us) ++ fin → i0 ∉ idxs r) as Hi0.
  { intros r Hr Hi. destruct (in_flight _ _ _ _ Hd Hr) as [_ Hfr]. destruct (Hfr i0 Hi) as [_ Hfr'].
    rewrite Hf in Hfr' by set_solver. done. }
  assert (disk_ok (sent b w i0 i1 i2 v (taken3 i0 i1 i2 (set_vlock true (vd x)))) (rq :: (av ++ bs ++ us)) fin) as Hd'.
  { apply disk_ok_sent; [|done..]. by apply (disk_ok_core _ _ _ _ (core_lock _ _)). }
  apply (disk_ok_perm _ _ fin _ fin (symmetry Hp)), (disk_ok_slept b (OnBuf b)) in Hd'; [|done].
  split; [exact Hd'|simpl; clear Hd'..].
  - done.
  - intros b' w' i. assert (∀ r, r ∈ ((av ++ [rq]) ++ bs ++ us) ++ fin ↔ r = rq ∨ r ∈ (av ++ bs ++ us) ++ fin) as Hin.
    { intros r. rewrite Hp. apply elem_of_cons. }
    setoid_rewrite Hin. destruct (decide (b' = b)) as [->|Hne].
    + rewrite lookup_insert_eq. split.
      * intros [= -> ->]. exists rq. split; [by left|done].
      * intros (r & [->|Hr] & Hq & <- & <-); [done|]. destruct Hnb. apply list_elem_of_fmap. exists r. done.
    + rewrite lookup_insert_ne by done. rewrite (vi_calls _ _ _ _ _ Hx). split; [naive_solver|].
      intros (r & [->|Hr] & Hq & ?); [done|eauto].
  - intros b' w' r. destruct (decide (b' = b)) as [->|Hne].
    + rewrite !lookup_insert_eq. intros [= _ <-]. done.
    + rewrite !lookup_insert_ne by done. apply (vi_open _ _ _ _ _ Hx).
  - rewrite (vi_avail _ _ _ _ _ Hx), u16_plus, length_app. simpl. f_equal. lia.
  - rewrite (vi_avail _ _ _ _ _ Hx), fmap_app, <- (length_fmap q0 av).
    apply ring_push; [apply Hd| |apply Hx]. pose proof (few_requests _ _ _ Hd) as Hfew.
    rewrite length_fmap, !length_app in *. unfold NUM. lia.
  - apply Hx.
  - apply Hx.
  - apply Hx.
  - apply Hx.
  - apply Hx.
  - intros r Hr. rewrite list_lookup_insert_ne; [by apply Hx|]. intros Heq. apply (Hi0 r).
    + rewrite !elem_of_app. auto.
    + rewrite Heq. unfold idxs. by left.
  - apply Hx.
  - intros b' ch. destruct (decide (b' = b)) as [->|Hne].
    + rewrite lookup_insert_eq. intros [= <-]. right. split; [done|]. exists rq. rewrite Hp. split; [by left|done].
    + rewrite lookup_insert_ne by done. intros [(-> & _ & Hc)|(-> & r & Hr & Hq)]%(vi_sleep _ _ _ _ _ Hx).
      * pose proof (three_free (vd x) i0 i1 i2 Hnd Hf). lia.
      * right. split; [done|]. exists r. rewrite Hp. split; [by right|done].
Qed.

Lemma vinv_nodesc x av bs us fin b w d' :
  vinv x av bs us fin → (vcalls x !! b = None ∨ ∃ w, vcalls x !! b = Some (w, NoDesc)) →
  is_Some (vbufs (vd x) !! b) → gave_back (set_vlock true (vd x)) d' → (free_count (vd x) < 3)%nat →
  vinv (after_rw x b w NoDesc (slept b OnFree d')) av bs us fin.
Proof.
  intros Hx Hb Hv Hg Hc. pose proof (not_in_flight _ _ _ _ _ _ Hx Hb) as Hnb.
  assert (disk_ok d' (av ++ bs ++ us) fin) as Hd.
  { eapply disk_ok_gave_back; [done|]. by apply (disk_ok_core _ _ _ _ (core_lock _ _)), Hx. }
  destruct Hg as [_ _ (y & z & -> & Hz)]. split; [by apply disk_ok_slept|simpl; try apply Hx..].
  - done.
  - intros b' w' i. destruct (decide (b' = b)) as [->|Hne].
    + rewrite lookup_insert_eq. split; [done|]. intros (r & Hr & Hq & _). destruct Hnb. apply list_elem_of_fmap. eauto.
    + rewrite lookup_insert_ne by done. apply Hx.
  - intros b' w' r. destruct (decide (b' = b)) as [->|Hne].
    + rewrite !lookup_insert_eq. intros [= _ <-]. done.
    + rewrite !lookup_insert_ne by done. apply (vi_open _ _ _ _ _ Hx).
  - intros b' ch. destruct (decide (b' = b)) as [->|Hne].
    + rewrite lookup_insert_eq. intros [= <-]. left. split_and!; [done|exists w; by rewrite lookup_insert_eq|done].
    + rewrite lookup_insert_ne by done. intros Hs%Hz. simpl in Hs.
      destruct (vi_sleep _ _ _ _ _ Hx _ _ Hs) as [(-> & [w' Hw] & _)|?]; [left|by right].
      split_and!; [done|exists w'; by rewrite lookup_insert_ne|done].
Qed.

(** *** A sleeper looks at its buffer again *)

Lemma vinv_again x av bs us fin r :
  vinv x av bs us fin → r ∈ av ++ bs ++ us →
  vinv (after_rw x (qb r) (qw r) (Waiting (q0 r)) (slept (qb r) (OnBuf (qb r)) (set_vlock true (vd x)))) av bs us fin.
Proof.
  intros Hx Hr. assert (vcalls x !! qb r = Some (qw r, Waiting (q0 r))) as Hc.
  { apply Hx. exists r. rewrite elem_of_app. auto. }
  simpl. rewrite (insert_id (vcalls x)) by done. split; [|simpl; try apply Hx..].
  - apply disk_ok_slept. by apply (disk_ok_core _ _ _ _ (core_lock _ _)), Hx.
  - done.
  - intros b' ch. destruct (decide (b' = qb r)) as [->|Hne].
    + rewrite lookup_insert_eq. intros [= <-]. right. eauto.
    + rewrite lookup_insert_ne by done. apply Hx.
Qed.

Lemma vinv_perm x av bs us fin fin' : fin ≡ₚ fin' → vinv x av bs us fin → vinv x av bs us fin'.
Proof.
  intros Hp Hx. split; try apply Hx.
  - by eapply disk_ok_perm, Hx.
  - intros b w i. rewrite (vi_calls _ _ _ _ _ Hx). by setoid_rewrite Hp.
  - intros b. rewrite (vi_count _ _ _ _ _ Hx). f_equal. apply decide_ext. by rewrite Hp.
Qed.

Lemma count_bump m b b' : count (bump b m) b' = (count m b' + if decide (b' = b) then 1 else 0)%nat.
Proof.
  unfold count, bump. destruct (decide (b' = b)) as [->|Hne].
  - rewrite lookup_insert_eq. simpl. unfold count. lia.
  - rewrite lookup_insert_ne by done. lia.
Qed.

(** A buffer has one request. *)
Lemma one_request d pend fin r r' l :
  disk_ok d pend fin → pend ++ fin ≡ₚ r :: l → r' ∈ l → qb r' ≠ qb r.
Proof.
  intros Hd Hp Hr Heq. pose proof (do_bufs _ _ _ Hd) as Hn. rewrite Hp in Hn.
  apply NoDup_cons in Hn as [Hn _]. apply Hn. rewrite <- Heq. apply list_elem_of_fmap. eauto.
Qed.

Lemma not_asleep_free (m : gmap nat vchan) b ch :
  filter (λ p, p.2 ≠ OnFree) m !! b = Some ch → m !! b = Some ch ∧ ch ≠ OnFree.
Proof. by intros [? ?]%map_lookup_filter_Some. Qed.

Lemma vinv_collected x av bs us fin r :
  vinv x av bs us (r :: fin) →
  vinv (after_rw x (qb r) (qw r) Finished (set_vlock false (collected r (set_vlock true (vd x))))) av bs us fin.
Proof.
  intros Hx. pose proof (vi_ok _ _ _ _ _ Hx) as Hd. set (pend := av ++ bs ++ us) in *.
  assert (pend ++ r :: fin ≡ₚ r :: (pend ++ fin)) as Hp by (symmetry; apply Permutation_middle).
  assert (∀ r', r' ∈ pend ++ fin → qb r' ≠ qb r) as H1.
  { intros r'. by apply (one_request _ _ _ _ _ _ Hd Hp). }
  split; [|simpl; try apply Hx..].
  - apply (disk_ok_core _ _ _ _ (core_lock _ _)), disk_ok_collected.
    by apply (disk_ok_core _ _ _ _ (core_lock _ _)).
  - done.
  - intros b w i. fold pend. destruct (decide (b = qb r)) as [->|Hne].
    + rewrite lookup_delete_eq. split; [done|]. intros (r' & Hr' & Hq & _). by destruct (H1 r').
    + rewrite lookup_delete_ne by done. rewrite (vi_calls _ _ _ _ _ Hx). fold pend. setoid_rewrite Hp.
      setoid_rewrite elem_of_cons. split; [|naive_solver]. intros (r' & [->|Hr'] & Hq & ?); [done|eauto].
  - intros b w r' (Hne & Hc)%lookup_delete_Some. by apply (vi_open _ _ _ _ _ Hx) in Hc.
  - intros b. rewrite count_bump, (vi_count _ _ _ _ _ Hx).
    assert (b ∈ qb <$> us ++ r :: fin ↔ b = qb r ∨ b ∈ qb <$> us ++ fin) as Hin.
    { rewrite <- (Permutation_middle us fin r). apply elem_of_cons. }
    assert (b = qb r → b ∉ qb <$> us ++ fin) as Hno.
    { intros -> (r' & Hq & Hr')%list_elem_of_fmap. apply (H1 r'); [|done]. unfold pend. rewrite !elem_of_app in *. tauto. }
    destruct (decide (b = qb r)), (decide (b ∈ qb <$> us ++ r :: fin)), (decide (b ∈ qb <$> us ++ fin)); tauto || lia.
  - intros b ch Hs. repeat (apply not_asleep_free in Hs as [Hs ?]).
    destruct (vi_sleep _ _ _ _ _ Hx _ _ Hs) as [(-> & _)|?]; [done|by right].
Qed.

(** *** An interrupt *)

Lemma u16_small z : 0 ≤ z < 2 ^ 16 → u16 z = z.
Proof. intros Hz. unfold u16, wrap. by rewrite Z.mod_small. Qed.
Lemma u16_range z : 0 ≤ u16 z < 2 ^ 16.
Proof. unfold u16, wrap. apply Z.mod_pos_bound. lia. Qed.

Lemma vinv_intr x av bs us fin :
  vinv x av bs us fin →
  ∃ d, virtio_disk_intr (vd x) = Ok () d ∧
    vinv (mkvsys d (taken x) (busy x) (vcalls x) (served x) (returned x)) av bs [] (us ++ fin).
Proof.
  intros Hx. pose proof (vi_ok _ _ _ _ _ Hx) as Hd.
  destruct (intr_loop_run us (Z.to_nat (2 ^ 16)) (set_vlock true (vd x)) (av ++ bs) fin)
    as (d & Hrun & Hok & [(I1 & I2 & I3 & I4 & I5 & I6) I7 I8 I9]); try apply Hx.
  { apply (disk_ok_core _ _ _ _ (core_lock _ _)). eapply disk_ok_perm; [|reflexivity|exact Hd].
    rewrite (assoc_L (++)). apply Permutation_app_comm. }
  { pose proof (few_requests _ _ _ Hd) as Hfew. rewrite !length_app in Hfew. lia. }
  exists (set_vlock false d). split.
  { unfold virtio_disk_intr. erewrite bind_ok by (unfold vlock; by rewrite (vi_lock _ _ _ _ _ Hx)). cbv beta.
    erewrite bind_ok by exact Hrun. cbv beta. by apply vunlock_run. }
  assert ((av ++ bs ++ []) ++ us ++ fin = (av ++ bs ++ us) ++ fin) as Hl.
  { by rewrite (right_id_L [] (++)), <- !(assoc_L (++)). }
  clear Hrun. simpl in *. split; [|simpl; rewrite ?I1, ?I2, ?I3, ?I4, ?I7; try apply Hx..].
  - rewrite (right_id_L [] (++)). by apply (disk_ok_core _ _ _ _ (core_lock _ _)).
  - done.
  - intros b w i. rewrite Hl. apply Hx.
  - intros b w r Hc. destruct (vi_open _ _ _ _ _ Hx _ _ _ Hc) as [? Hb]. split; [done|]. by apply I9.
  - rewrite Z.add_0_r. symmetry. apply u16_small. rewrite (vi_used _ _ _ _ _ Hx). apply u16_range.
  - done.
  - rewrite (vi_used _ _ _ _ _ Hx). apply u16_range.
  - by intros r ?%elem_of_nil.
  - intros b ch [Hs Hn]%I8. unfold free_count. simpl. rewrite I6. rewrite (right_id_L [] (++)).
    destruct (vi_sleep _ _ _ _ _ Hx _ _ Hs) as [?|(-> & r & Hr & <-)]; [by left|right]. split; [done|].
    exists r. split; [|done]. rewrite !elem_of_app in *. destruct Hr as [?|[?|Hr]]; [auto..|]. by destruct (Hn r Hr).
Qed.

(** *** The device *)

Lemma vinv_take x av bs us fin h :
  vinv x av bs us fin → taken x ≠ avail_idx (vd x) →
  avail_ring (vd x) !! Z.to_nat (taken x `mod` Z.of_nat NUM) = Some h →
  ∃ r av', av = r :: av' ∧ h = q0 r ∧
    vinv (mkvsys (vd x) (u16 (taken x + 1)) (h :: busy x) (vcalls x) (served x) (returned x)) av' (r :: bs) us fin.
Proof.
  intros Hx Ht Hh. destruct av as [|r av].
  { destruct Ht. rewrite (vi_avail _ _ _ _ _ Hx). simpl. rewrite Z.add_0_r, u16_small; [done|apply Hx]. }
  assert (h = q0 r) as ->.
  { pose proof (vi_aring _ _ _ _ _ Hx 0%nat (q0 r) eq_refl) as Hr. rewrite Z.add_0_r in Hr. congruence. }
  exists r, av. split_and!; [done..|].
  assert (av ++ (r :: bs) ++ us ≡ₚ (r :: av) ++ bs ++ us) as Hp by (simpl; symmetry; apply Permutation_middle).
  split; [|simpl; try apply Hx..].
  - eapply disk_ok_perm; [symmetry; apply Hp|reflexivity|apply Hx].
  - intros b w i. rewrite (vi_calls _ _ _ _ _ Hx). assert (∀ r', r' ∈ (av ++ (r :: bs) ++ us) ++ fin ↔ r' ∈ ((r :: av) ++ bs ++ us) ++ fin) as Hin.
    { intros r'. by rewrite Hp. } by setoid_rewrite Hin.
  - rewrite (vi_avail _ _ _ _ _ Hx), u16_plus. f_equal. simpl. lia.
  - eapply ring_pop, Hx.
  - apply u16_range.
  - by rewrite (vi_busy _ _ _ _ _ Hx).
  - intros b ch Hs. destruct (vi_sleep _ _ _ _ _ Hx _ _ Hs) as [?|(-> & r' & Hr' & <-)]; [by left|right].
    split; [done|]. exists r'. split; [|done]. by rewrite Hp.
Qed.

(** The chain of a request says what the call asked for. *)
Lemma chain_of d r b w sector j v :
  req_ok d r → vbufs d !! qb r = Some v → chain_is d (q0 r) b w sector j →
  b = qb r ∧ w = qw r ∧ sector = sector_of v ∧ j = q0 r.
Proof.
  intros [H0 H1 H2 H3 _ _] Hv (d0 & d1 & d2 & i & q & E0 & A0 & _ & _ & Eq & Tq & Sq & E1 & A1 & _ & F1 & E2 & A2 & _).
  rewrite H0 in E0. injection E0 as <-. simpl in *. injection A0 as <-. rewrite (H3 v Hv) in Eq. injection Eq as <-.
  rewrite H1 in E1. injection E1 as <-. simpl in *. injection A1 as <-. rewrite H2 in E2. injection E2 as <-.
  simpl in *. injection A2 as <-. split_and!; [done| |done..]. by destruct w, (qw r).
Qed.

(** The device changes the data of a buffer, the status bytes and the used ring. *)
Lemma disk_ok_device d pend fin h b w j v bs :
  disk_ok d pend fin → vbufs d !! b = Some v → disk_ok (device_done d h b w j v bs) pend fin.
Proof.
  intros Hd Hv. unfold device_done. cbv zeta. eapply disk_ok_core.
  { split; simpl; rewrite ?length_insert; reflexivity. }
  destruct w; [done|]. destruct Hd as [L1 L2 L3 L4 L5 L6 L7 Dn Du Dl Do Db Dp Df].
  assert (∀ b' v', <[b := mkvbuf (vblockno v) (vdisk v) bs]> (vbufs d) !! b' = Some v' →
    ∃ v0, vbufs d !! b' = Some v0 ∧ vblockno v0 = vblockno v' ∧ vdisk v0 = vdisk v') as Hb.
  { intros b' v'. destruct (decide (b' = b)) as [->|Hne].
    - rewrite lookup_insert_eq. intros [= <-]. by exists v.
    - rewrite lookup_insert_ne by done. intros ?. by exists v'. }
  split; simpl; try done.
  - intros r Hr. destruct (Do r Hr) as [H0 H1 H2 H3 H4 H5]. split; simpl; try done.
    + intros v' (v0 & Hv0 & Hn & _)%Hb. unfold sector_of. rewrite <- Hn. by apply H3.
    + destruct (decide (qb r = b)) as [->|]; [by rewrite lookup_insert_eq|by rewrite lookup_insert_ne].
  - intros r v' Hr (v0 & Hv0 & _ & <-)%Hb. eauto.
  - intros r v' Hr (v0 & Hv0 & _ & <-)%Hb. eauto.
Qed.

Lemma fmap_split {A B} (f : A → B) (l : list A) k h k' :
  f <$> l = k ++ h :: k' → ∃ l1 a l2, l = l1 ++ a :: l2 ∧ k = f <$> l1 ∧ h = f a ∧ k' = f <$> l2.
Proof.
  induction l as [|a l IH] in k |- *; destruct k as [|x k]; simpl; intros Heq; try done.
  - injection Heq as <- <-. by exists [], a, l.
  - injection Heq as <- Heq. destruct (IH k Heq) as (l1 & a' & l2 & -> & -> & -> & ->). by exists (a :: l1), a', l2.
Qed.

Lemma device_frame d h b w j v data :
  ∃ bufs, device_done d h b w j v data =
      set_used (<[Z.to_nat (used_ridx d `mod` Z.of_nat NUM) := h]> (used_ring d)) (u16 (used_ridx d + 1))
        (set_info_status (<[j := 0]> (info_status d)) (set_vbufs bufs d)) ∧
    ∀ b', is_Some (vbufs d !! b') → is_Some (bufs !! b').
Proof.
  destruct w; [by exists (vbufs d)|]. eexists. split; [done|]. intros b' Hb.
  destruct (decide (b' = b)) as [->|]; [by rewrite lookup_insert_eq|by rewrite lookup_insert_ne].
Qed.

(** A request leaves the device. *)
Lemma leave_perm {A} (av B1 B2 us : list A) r :
  av ++ (B1 ++ B2) ++ us ++ [r] ≡ₚ av ++ (B1 ++ r :: B2) ++ us.
Proof.
  apply Permutation_app_head. rewrite (assoc_L (++)), <- (Permutation_middle B1 B2 r).
  by rewrite Permutation_app_comm.
Qed.

Lemma vinv_finish x av us fin l h l' bs b w sector j v data :
  vinv x av bs us fin → busy x = l ++ h :: l' → chain_is (vd x) h b w sector j → vbufs (vd x) !! b = Some v →
  ∃ B1 r B2, bs = B1 ++ r :: B2 ∧
    vinv (mkvsys (device_done (vd x) h b w j v data) (taken x) (l ++ l') (vcalls x) (bump b (served x)) (returned x))
      av (B1 ++ B2) (us ++ [r]) fin.
Proof.
  intros Hx Hbusy Hc Hv. pose proof (vi_ok _ _ _ _ _ Hx) as Hd. rewrite (vi_busy _ _ _ _ _ Hx) in Hbusy.
  apply fmap_split in Hbusy as (B1 & r & B2 & -> & -> & -> & ->). exists B1, r, B2. split; [done|].
  set (pend := av ++ (B1 ++ r :: B2) ++ us) in *.
  assert (r ∈ pend ++ fin) as Hr by (unfold pend; rewrite !elem_of_app, elem_of_cons; tauto).
  destruct (do_ok _ _ _ Hd r Hr) as [H0 H1 H2 H3 H4 [v' Hv']].
  destruct (chain_of _ r b w sector j v' (do_ok _ _ _ Hd r Hr) Hv' Hc) as (-> & -> & -> & ->).
  assert (av ++ (B1 ++ B2) ++ us ++ [r] ≡ₚ pend) as Hp by apply leave_perm.
  assert (pend ++ fin ≡ₚ r :: (av ++ (B1 ++ B2) ++ us) ++ fin) as Hpr.
  { rewrite <- Hp, !(assoc_L (++)). rewrite <- (assoc_L (++) _ [r] fin). symmetry. apply Permutation_middle. }
  pose proof (few_requests _ _ _ Hd) as Hfew.
  pose proof (disk_ok_device _ _ _ (q0 r) _ (qw r) (q0 r) v data Hd Hv) as Hd'.
  destruct (device_frame (vd x) (q0 r) (qb r) (qw r) (q0 r) v data) as (bufs & Heq & Hb). rewrite Heq in Hd' |- *.
  split; [|simpl; try apply Hx..].
  - by apply (disk_ok_perm _ _ fin _ fin (symmetry Hp)).
  - intros b w i. rewrite (vi_calls _ _ _ _ _ Hx). fold pend.
    assert (∀ r', r' ∈ (av ++ (B1 ++ B2) ++ us ++ [r]) ++ fin ↔ r' ∈ pend ++ fin) as Hin by (intros r'; by rewrite Hp).
    by setoid_rewrite Hin.
  - intros b w q Hq. destruct (vi_open _ _ _ _ _ Hx _ _ _ Hq). split; [done|]. auto.
  - by rewrite fmap_app.
  - rewrite (vi_used _ _ _ _ _ Hx), u16_plus, length_app. simpl. f_equal. lia.
  - rewrite (vi_used _ _ _ _ _ Hx), fmap_app, <- (length_fmap q0 us). apply ring_push; [apply Hd| |apply Hx].
    unfold pend in Hfew. rewrite length_fmap, !length_app in *. unfold NUM. lia.
  - intros r' Hr'. destruct (decide (q0 r' = q0 r)) as [->|Hne].
    + apply list_lookup_insert_eq. rewrite (do_status _ _ _ Hd). apply (in_flight _ _ _ _ Hd Hr). unfold idxs. by left.
    + rewrite list_lookup_insert_ne by done. apply Hx. apply elem_of_app in Hr' as [?|Hr']; [done|]. apply list_elem_of_singleton in Hr' as ->. done.
  - intros b. rewrite count_bump, (vi_count _ _ _ _ _ Hx).
    assert (b ∈ qb <$> (us ++ [r]) ++ fin ↔ b = qb r ∨ b ∈ qb <$> us ++ fin) as Hin.
    { rewrite <- (assoc_L (++)). simpl. rewrite <- (Permutation_middle us fin r). apply elem_of_cons. }
    assert (b = qb r → b ∉ qb <$> us ++ fin) as Hno.
    { intros -> (r' & Hq & Hr')%list_elem_of_fmap. apply (one_request _ _ _ _ r' _ Hd Hpr); [|done].
      rewrite !elem_of_app in *. tauto. }
    destruct (decide (b = qb r)), (decide (b ∈ qb <$> (us ++ [r]) ++ fin)), (decide (b ∈ qb <$> us ++ fin)); tauto || lia.
  - intros b ch Hs. destruct (vi_sleep _ _ _ _ _ Hx _ _ Hs) as [?|(-> & r' & Hr' & <-)]; [by left|right].
    split; [done|]. exists r'. split; [|done]. by rewrite Hp.
Qed.

(** *** Calls *)

Lemma alloc_inv x av bs us fin b w :
  vinv x av bs us fin → (vcalls x !! b = None ∨ ∃ w, vcalls x !! b = Some (w, NoDesc)) →
  is_Some (vbufs (vd x) !! b) →
  ∃ r d av', rw_alloc b w (set_vlock true (vd x)) = Ok r d ∧ vinv (after_rw x b w r d) av' bs us fin.
Proof.
  intros Hx Hb [v Hv]. destruct (rw_alloc_run (set_vlock true (vd x)) (av ++ bs ++ us) fin b w v)
    as [(i0 & i1 & i2 & Hr & Hnd & Hf)|(d' & Hr & Hg & Hc)]; [|done|done|..].
  - by apply (disk_ok_core _ _ _ _ (core_lock _ _)), Hx.
  - eexists _, _, _. split; [exact Hr|]. by apply vinv_sent.
  - eexists _, _, av. split; [exact Hr|]. by apply vinv_nodesc.
Qed.

Lemma vlock_run {A} (k : V A) x av bs us fin :
  vinv x av bs us fin → (vlock;; k) (vd x) = k (set_vlock true (vd x)).
Proof. intros Hx. unfold vlock, mbind, M_bind. by rewrite (vi_lock _ _ _ _ _ Hx). Qed.

Lemma call_inv x av bs us fin b w :
  vinv x av bs us fin → vcalls x !! b = None → is_Some (vbufs (vd x) !! b) →
  ∃ r d av', virtio_disk_rw b w (vd x) = Ok r d ∧ vinv (after_rw x b w r d) av' bs us fin.
Proof.
  intros Hx Hc Hb. unfold virtio_disk_rw. rewrite (vlock_run _ _ _ _ _ _ Hx). eapply alloc_inv; eauto.
Qed.

Lemma resume_inv x av bs us fin b w r :
  vinv x av bs us fin → vcalls x !! b = Some (w, r) →
  ∃ r' d av' fin', rw_resume b w r (vd x) = Ok r' d ∧ vinv (after_rw x b w r' d) av' bs us fin'.
Proof.
  intros Hx Hc. unfold rw_resume. rewrite (vlock_run _ _ _ _ _ _ Hx).
  destruct (vi_open _ _ _ _ _ Hx _ _ _ Hc) as [Hnf Hb]. destruct r as [|i|]; [|clear Hnf|done].
  - destruct (alloc_inv x av bs us fin b w Hx) as (r & d & av' & ? & ?); eauto 10.
  - apply (vi_calls _ _ _ _ _ Hx) in Hc as (r & Hr & <- & <- & <-). destruct Hb as [v Hv].
    assert (disk_ok (set_vlock true (vd x)) (av ++ bs ++ us) fin) as Hd by apply (disk_ok_core _ _ _ _ (core_lock _ _)), Hx.
    apply elem_of_app in Hr as [Hr|Hr].
    + eexists _, _, av, fin. split; [|by apply vinv_again]. apply (rw_wait_busy _ _ v); [done..|].
      by apply (do_pend _ _ _ Hd r).
    + apply list_elem_of_split in Hr as (f1 & f2 & ->).
      assert (f1 ++ r :: f2 ≡ₚ r :: (f1 ++ f2)) as Hp by (symmetry; apply Permutation_middle).
      eexists _, _, av, (f1 ++ f2). split; [|by apply vinv_collected, (vinv_perm _ _ _ _ _ _ Hp)].
      apply (rw_wait_done _ (av ++ bs ++ us) (f1 ++ f2) r v); [|done..].
      by apply (disk_ok_perm _ _ _ _ _ (reflexivity _) Hp).
Qed.

Lemma vinv_step x y av bs us fin :
  vstep x y → vinv x av bs us fin → ∃ av' bs' us' fin', vinv y av' bs' us' fin'.
Proof.
  intros Hs Hx. destruct Hs as [x b w r d Hc Hr|x b w r r' d Hc _ Hr|x d Hr|x h Ht Hh|x l h l' b w s j v data Hb Hch Hv].
  - destruct (vbufs (vd x) !! b) as [v|] eqn:Hv.
    + destruct (call_inv x av bs us fin b w) as (r' & d' & av' & Hr' & ?); eauto.
      rewrite Hr in Hr'. injection Hr' as <- <-. eauto.
    + exfalso. revert Hr. unfold virtio_disk_rw. rewrite (vlock_run _ _ _ _ _ _ Hx).
      unfold rw_alloc, get_vbuf, mbind, M_bind. simpl. by rewrite Hv.
  - destruct (resume_inv x av bs us fin b w r) as (r0 & d' & av' & fin' & Hr' & ?); eauto.
    rewrite Hr in Hr'. injection Hr' as <- <-. eauto.
  - destruct (vinv_intr x av bs us fin Hx) as (d' & Hr' & ?). rewrite Hr in Hr'. injection Hr' as <-. eauto.
  - destruct (vinv_take x av bs us fin h Hx Ht Hh) as (r & av' & _ & _ & ?). eauto.
  - destruct (vinv_finish x av us fin l h l' bs b w s j v data Hx Hb Hch Hv) as (B1 & r & B2 & _ & ?). eauto.
Qed.

Lemma vinv_reach bufs x : rtc vstep (vboot bufs) x → ∃ av bs us fin, vinv x av bs us fin.
Proof.
  intros Hr. remember (vboot bufs) as x0 eqn:Heq.
  assert (∃ av bs us fin, vinv x0 av bs us fin) as H0 by (subst; eauto using vboot_inv).
  clear Heq. induction Hr as [x|x y z Hs _ IH]; [done|]. destruct H0 as (av & bs & us & fin & H0).
  apply IH. by eapply vinv_step.
Qed.

Lemma chain_of_request d r v :
  req_ok d r → vbufs d !! qb r = Some v → chain_is d (q0 r) (qb r) (qw r) (sector_of v) (q0 r).
Proof.
  intros [H0 H1 H2 H3 _ _] Hv. eexists _, _, _, _, _. split_and!; [exact H0|done|done|done|by apply H3|done|done|exact H1|done|done|by destruct (qw r)|exact H2|done..].
Qed.

(** C8: Whatever order calls, sleepers, interrupts and the device run in, no
    panic of the driver is reached.  Each request is served once: the requests
    the device finished for a buffer are the calls that returned, plus at most
    one still to be collected.  The chains the device works on ask for the
    buffer, the direction and the sector of a call that waits for them; and a
    process that sleeps has a reason: fewer than three descriptors are free, or
    its buffer still belongs to the disk. *)
Theorem virtio_correct bufs x :
  rtc vstep (vboot bufs) x →
  (∀ b w, vcalls x !! b = None → is_Some (vbufs (vd x) !! b) → ∃ r d, virtio_disk_rw b w (vd x) = Ok r d) ∧
  (∀ b w r, vcalls x !! b = Some (w, r) → ∃ r' d, rw_resume b w r (vd x) = Ok r' d) ∧
  (∃ d, virtio_disk_intr (vd x) = Ok () d) ∧
  (∀ b, (count (returned x) b ≤ count (served x) b ≤ S (count (returned x) b))%nat ∧
     (vcalls x !! b = None → count (served x) b = count (returned x) b)) ∧
  (∀ h, h ∈ busy x → ∃ b w v, vcalls x !! b = Some (w, Waiting h) ∧ vbufs (vd x) !! b = Some v ∧
     chain_is (vd x) h b w (sector_of v) h) ∧
  (∀ b ch, vasleep (vd x) !! b = Some ch →
     (ch = OnFree ∧ (free_count (vd x) < 3)%nat) ∨
     (ch = OnBuf b ∧ ∃ v, vbufs (vd x) !! b = Some v ∧ vdisk v = true)).
Proof.
  intros (av & bs & us & fin & Hx)%vinv_reach. pose proof (vi_ok _ _ _ _ _ Hx) as Hd. split_and!.
  - intros b w Hc Hb. destruct (call_inv _ _ _ _ _ b w Hx Hc Hb) as (r & d & _ & ? & _). eauto.
  - intros b w r Hc. destruct (resume_inv _ _ _ _ _ b w r Hx Hc) as (r' & d & _ & _ & ? & _). eauto.
  - destruct (vinv_intr _ _ _ _ _ Hx) as (d & ? & _). eauto.
  - intros b. rewrite (vi_count _ _ _ _ _ Hx). split; [destruct (decide _); lia|]. intros Hc.
    rewrite decide_False; [lia|]. intros (r & -> & Hr)%list_elem_of_fmap.
    rewrite (proj2 (vi_calls _ _ _ _ _ Hx (qb r) (qw r) (q0 r))) in Hc; [done|]. exists r.
    split; [|done]. rewrite !elem_of_app in *. tauto.
  - intros h. rewrite (vi_busy _ _ _ _ _ Hx). intros (r & -> & Hr)%list_elem_of_fmap.
    assert (r ∈ (av ++ bs ++ us) ++ fin) as Hin by (rewrite !elem_of_app; tauto).
    pose proof (do_ok _ _ _ Hd r Hin) as Ho. destruct (ro_buf _ _ Ho) as [v Hv].
    exists (qb r), (qw r), v. split_and!; [apply Hx; eauto|done|by apply chain_of_request].
  - intros b ch [(-> & _ & ?)|(-> & r & Hr & <-)]%(vi_sleep _ _ _ _ _ Hx); [by left|right]. split; [done|].
    destruct (ro_buf _ _ (do_ok _ _ _ Hd r (proj2 (elem_of_app _ _ r) (or_introl Hr)))) as [v Hv].
    exists v. split; [done|]. by apply (do_pend _ _ _ Hd r).
Qed.

Lemma all_free d : disk_ok d [] [] → free_count d = NUM.
Proof.
  intros Hd. unfold free_count. rewrite <- (do_free _ _ _ Hd).
  assert (∀ b, b ∈ dfree d → b = true) as Hb.
  { intros b [i Hi]%list_elem_of_lookup. destruct b; [done|].
    by destruct (not_elem_of_nil i (proj1 (do_used _ _ _ Hd i false Hi) eq_refl)). }
  clear Hd. induction (dfree d) as [|b l IH]; [done|]. rewrite filter_cons, decide_True by (apply Hb; set_solver).
  simpl. f_equal. apply IH. intros b' ?. apply Hb. set_solver.
Qed.

Lemma u16_ne z n : 0 ≤ z < 2 ^ 16 → (0 < n ≤ 2)%nat → u16 (z + Z.of_nat n) ≠ z.
Proof. intros Hz Hn. unfold u16, wrap. Z.div_mod_to_equations. lia. Qed.

(** C28: No wakeup is lost: while a call of [virtio_disk_rw] is in progress, a
    call is ready to run, the device has a request to take or to finish, or the
    used ring has an entry that the interrupt handler has not seen. *)
Theorem virtio_no_deadlock bufs x b w r :
  rtc vstep (vboot bufs) x → vcalls x !! b = Some (w, r) →
  (∃ b' c, vcalls x !! b' = Some c ∧ vasleep (vd x) !! b' = None) ∨
  taken x ≠ avail_idx (vd x) ∨ busy x ≠ [] ∨ used_idx (vd x) ≠ used_ridx (vd x).
Proof.
  intros (av & bs & us & fin & Hx)%vinv_reach Hc. pose proof (vi_ok _ _ _ _ _ Hx) as Hd.
  pose proof (few_requests _ _ _ Hd) as Hfew. rewrite !length_app in Hfew.
  destruct av as [|r0 av]; [|right; left; rewrite (vi_avail _ _ _ _ _ Hx); apply not_eq_sym, u16_ne; [apply Hx|simpl in *; lia]].
  destruct bs as [|r0 bs]; [|right; right; left; rewrite (vi_busy _ _ _ _ _ Hx); done].
  destruct us as [|r0 us]; [|right; right; right; rewrite (vi_used _ _ _ _ _ Hx); apply not_eq_sym, u16_ne; [apply Hx|simpl in *; lia]].
  left. assert (∀ b ch, vasleep (vd x) !! b = Some ch → (∃ w, vcalls x !! b = Some (w, NoDesc)) ∧ (free_count (vd x) < 3)%nat) as Hs.
  { intros b' ch [(_ & ? & ?)|(_ & r' & Hr' & _)]%(vi_sleep _ _ _ _ _ Hx); [done|]. by apply elem_of_nil in Hr'. }
  destruct fin as [|r0 fin].
  - exists b, (w, r). split; [done|]. destruct (vasleep (vd x) !! b) as [ch|] eqn:Hb; [|done].
    destruct (Hs _ _ Hb) as [_ Hf]. rewrite (all_free _ Hd) in Hf. unfold NUM in Hf. lia.
  - assert (vcalls x !! qb r0 = Some (qw r0, Waiting (q0 r0))) as Hc0.
    { apply Hx. exists r0. split; [by left|done]. }
    exists (qb r0), (qw r0, Waiting (q0 r0)). split; [done|].
    destruct (vasleep (vd x) !! qb r0) as [ch|] eqn:Hb; [|done]. destruct (Hs _ _ Hb) as [[w' Hw] _]. congruence.
Qed.

(** ** A run: buffer 5 is read *)
Module VirtioWitness.

Definition ok_state {A} (r : outcome disk A) (d : disk) : disk := match r with Ok _ d' => d' | Err _ => d end.

Definition x0 : vsys := vboot {[5%nat := mkvbuf 7 false []]}.
Definition x1 : vsys := after_rw x0 5 false (Waiting 0) (ok_state (virtio_disk_rw 5 false (vd x0)) (vd x0)).
Definition x2 : vsys := mkvsys (vd x1) 1 [0%nat] (vcalls x1) (served x1) (returned x1).
Definition x3 : vsys :=
  mkvsys (device_done (vd x2) 0 5 false 0 (mkvbuf 7 true []) [65; 66]) 1 [] (vcalls x2) (bump 5 (served x2)) (returned x2).
Definition x4 : vsys :=
  mkvsys (ok_state (virtio_disk_intr (vd x3)) (vd x3)) 1 [] (vcalls x3) (served x3) (returned x3).
Definition x5 : vsys := after_rw x4 5 false Finished (ok_state (rw_resume 5 false (Waiting 0) (vd x4)) (vd x4)).

Lemma run2 : rtc vstep x0 x2.
Proof.
  eapply rtc_l; [apply (step_call x0 5 false (Waiting 0)); vm_compute; reflexivity|].
  eapply rtc_l; [|apply rtc_refl]. apply (step_take x1 0); [by vm_compute|]. vm_compute. reflexivity.
Qed.

Lemma chain2 : chain_is (vd x2) 0 5 false 14 0.
Proof.
  eexists _, _, _, 0%nat, _. split_and!; vm_compute; reflexivity.
Qed.

Lemma run5 : rtc vstep x0 x5.
Proof.
  transitivity x2; [apply run2|].
  eapply rtc_l; [apply (step_finish x2 [] 0 [] 5 false 14 0 (mkvbuf 7 true []) [65; 66]);
    [reflexivity|apply chain2|vm_compute; reflexivity]|].
  eapply rtc_l; [apply (step_interrupt x3 (vd x4)); vm_compute; reflexivity|].
  eapply rtc_l; [apply (step_resume x4 5 false (Waiting 0) Finished (vd x5)); vm_compute; reflexivity|].
  apply rtc_refl.
Qed.

Lemma virtio_correct_witness :
  vbufs (vd x5) !! 5%nat = Some (mkvbuf 7 false [65; 66]) ∧ count (served x5) 5 = 1%nat ∧
  count (served x5) 5 = count (returned x5) 5 ∧ ∃ r d, virtio_disk_rw 5 true (vd x5) = Ok r d.
Proof.
  destruct (virtio_correct {[5%nat := mkvbuf 7 false []]} x5 run5) as (Hcall & _ & _ & Hcount & _).
  split_and!; [vm_compute; reflexivity|vm_compute; reflexivity|..].
  - apply (Hcount 5%nat). vm_compute. reflexivity.
  - apply Hcall; [vm_compute; reflexivity|]. eexists. vm_compute. reflexivity.
Defined.

Lemma virtio_no_deadlock_witness :
  busy x2 = [0%nat] ∧
  ((∃ b' c, vcalls x2 !! b' = Some c ∧ vasleep (vd x2) !! b' = None) ∨
   taken x2 ≠ avail_idx (vd x2) ∨ busy x2 ≠ [] ∨ used_idx (vd x2) ≠ used_ridx (vd x2)).
Proof.
  split; [reflexivity|].
  apply (virtio_no_deadlock {[5%nat := mkvbuf 7 false []]} x2 5 false (Waiting 0) run2). vm_compute. reflexivity.
Defined.

End VirtioWitness.
