(* ===== verification/Pipe.v ===== *)
(** * kernel/pipe.c: the bytes between two processes

    [struct pipe] and the functions on it.  A call runs under [pi->lock] until
    it returns or sleeps; each such part is one definition, so that the calls
    of several processes interleave exactly where the code lets go of the lock.
    [pipealloc], which also makes the two files, is with the file table. *)
From S2P Require Import Prelude Mem Sleeplock Block Bio Log Fs.

#[local] Open Scope Z_scope.

Definition PIPESIZE : Z := 512.

(** struct pipe; [nread] and [nwrite] are of type uint. *)
Record pipe := mkpipe {
  plock : bool; pdata : list Z; nread : Z; nwrite : Z; readopen : bool; writeopen : bool }.

(** The addresses &pi->nread and &pi->nwrite that processes sleep on. *)
Definition nread_ch (pi : Z) : Z := pi + 536.
Definition nwrite_ch (pi : Z) : Z := pi + 540.

(** The pipe, the processes that sleep and what on, the memory of the caller. *)
Record pst (U : Type) := mkpst { pip : pipe; asleep : gmap nat Z; pusr : U }.
Arguments mkpst {U}.
Arguments pip {U}.
Arguments asleep {U}.
Arguments pusr {U}.

Section code.
Context {U : Type} `{UserMem U}.
Abbreviation P A := (M (pst U) A).

(** The pipe's address and the process that runs the code. *)
Context (pi : Z) (me : nat).

Definition getp {A} (f : pipe → A) : P A := gets (λ s, f (pip s)).
Definition setp (f : pipe → pipe) : P unit := modify (λ s, mkpst (f (pip s)) (asleep s) (pusr s)).
Definition pusr_op {A} (m : M U A) : P A := zoom pusr (λ u s, mkpst (pip s) (asleep s) u) m.

Definition acquire_pi : P unit :=
  l ← getp plock; when l (fail (Panic "acquire"));;
  setp (λ p, mkpipe true (pdata p) (nread p) (nwrite p) (readopen p) (writeopen p)).
Definition release_pi : P unit :=
  l ← getp plock; when (negb l) (fail (Panic "release"));;
  setp (λ p, mkpipe false (pdata p) (nread p) (nwrite p) (readopen p) (writeopen p)).

Definition wakeup (ch : Z) : P unit :=
  modify (λ s, mkpst (pip s) (filter (λ x, x.2 ≠ ch) (asleep s)) (pusr s)).
(** Up to the switch to the scheduler. *)
Definition sleep (ch : Z) : P unit :=
  release_pi;;
  modify (λ s, mkpst (pip s) (<[me := ch]> (asleep s)) (pusr s)).

(** pi->data[pi->nwrite++ % PIPESIZE] = ch *)
Definition put_byte (ch : Z) : P unit :=
  setp (λ p, mkpipe (plock p) (<[Z.to_nat (nwrite p `mod` PIPESIZE) := ch]> (pdata p))
               (nread p) (u32 (nwrite p + 1)) (readopen p) (writeopen p)).

(** ch = pi->data[pi->nread++ % PIPESIZE] *)
Definition take_byte : P Z :=
  r ← getp (λ p, pdata p !! Z.to_nat (nread p `mod` PIPESIZE));
  setp (λ p, mkpipe (plock p) (pdata p) (u32 (nread p + 1)) (nwrite p) (readopen p) (writeopen p));;
  match r with Some ch => mret ch | None => fail (Undef "pi->data") end.

(** How a part of a call ends: with a result, or asleep on a channel with [i]
    bytes done. *)
Inductive pres := Done (r : Z) | Asleep (ch i : Z).

(** The end of [pipewrite]. *)
Definition pipewrite_end (i : Z) : P pres :=
  wakeup (nread_ch pi);;
  release_pi;;
  mret (Done i).

(** The loop of [pipewrite] from [i] on, with [k] bytes to go; [killed i] is
    what [killed(pr)] returns then: it can change at any time. *)
Fixpoint pipewrite_loop (killed : Z → bool) (addr i : Z) (k : nat) : P pres :=
  match k with
  | O => pipewrite_end i
  | S k =>
      ro ← getp readopen;
      if negb ro || killed i then release_pi;; mret (Done (-1)) else
      r ← getp nread; w ← getp nwrite;
      if w =? u32 (r + PIPESIZE) then
        wakeup (nread_ch pi);;
        sleep (nwrite_ch pi);;
        mret (Asleep (nwrite_ch pi) i)
      else
        r ← pusr_op (ucopyin (u64 (addr + i)) 1);
        if r.1 =? -1 then pipewrite_end i else
        match r.2 with
        | [ch] => put_byte ch;; pipewrite_loop killed addr (i + 1) k
        | _ => fail (Undef "ch")
        end
  end.

(** From the lock on: the first part of [pipewrite] with [i] = 0, the part
    after [sleep] with the [i] it slept with. *)
Definition pipewrite_from (killed : Z → bool) (addr i n : Z) : P pres :=
  acquire_pi;;
  pipewrite_loop killed addr i (Z.to_nat (n - i)).
Definition pipewrite (killed : Z → bool) (addr n : Z) : P pres := pipewrite_from killed addr 0 n.

(** The copying loop of [piperead], with [k] bytes to go. *)
Fixpoint piperead_loop (addr i : Z) (k : nat) : P Z :=
  match k with
  | O => mret i
  | S k =>
      r ← getp nread; w ← getp nwrite;
      if r =? w then mret i else
      ch ← take_byte;
      r ← pusr_op (ucopyout (u64 (addr + i)) [ch]);
      if r =? -1 then mret i else piperead_loop addr (i + 1) k
  end.

(** [piperead] up to the first [sleep], which is also what follows a [sleep]. *)
Definition piperead (killed : bool) (addr n : Z) : P pres :=
  acquire_pi;;
  r ← getp nread; w ← getp nwrite; wo ← getp writeopen;
  if (r =? w) && wo then
    if killed then release_pi;; mret (Done (-1))
    else sleep (nread_ch pi);; mret (Asleep (nread_ch pi) 0)
  else
    i ← piperead_loop addr 0 (Z.to_nat n);
    wakeup (nwrite_ch pi);;
    release_pi;;
    mret (Done i).

(** [pipeclose] up to [kfree]: whether the pipe's page is to be freed. *)
Definition pipeclose (writable : bool) : P bool :=
  acquire_pi;;
  (if writable then
     setp (λ p, mkpipe (plock p) (pdata p) (nread p) (nwrite p) (readopen p) false);; wakeup (nread_ch pi)
   else
     setp (λ p, mkpipe (plock p) (pdata p) (nread p) (nwrite p) false (writeopen p));; wakeup (nwrite_ch pi));;
  ro ← getp readopen; wo ← getp writeopen;
  release_pi;;
  mret (negb ro && negb wo).
End code.
