(* ===== verification/PipeSpec.v ===== *)
(** * Pipes as queues

    The ring buffer with its two wrapping counters holds a queue of at most
    [PIPESIZE] bytes; what each part of [pipewrite] and [piperead] does to the
    queue, to the sleeping processes and to the callers' memory. *)
From S2P Require Import Prelude Mem Sleeplock Block Bio Log Fs FsRead Pipe.

#[local] Open Scope Z_scope.

(** The queue [q] is in the ring. *)
Record holds (p : pipe) (q : list Z) : Prop := {
  h_data : length (pdata p) = Z.to_nat PIPESIZE;
  h_fits : Z.of_nat (length q) ≤ PIPESIZE;
  h_nread : 0 ≤ nread p < 2 ^ 32;
  h_nwrite : nwrite p = u32 (nread p + Z.of_nat (length q));
  h_byte j : (j < length q)%nat → pdata p !! Z.to_nat ((nread p + Z.of_nat j) `mod` PIPESIZE) = q !! j }.

(** 2^32 is a multiple of the ring's size. *)
Lemma u32_ring z : u32 z `mod` PIPESIZE = z `mod` PIPESIZE.
Proof. unfold wrap, PIPESIZE. dlia. Qed.

Lemma holds_full p q : holds p q → (nwrite p =? u32 (nread p + PIPESIZE)) = (Z.of_nat (length q) =? PIPESIZE).
Proof. intros [_ Hf Hr -> _]. unfold wrap, PIPESIZE in *. apply eq_true_iff_eq. rewrite !Z.eqb_eq. dlia. Qed.

Lemma holds_empty p q : holds p q → (nread p =? nwrite p) = bool_decide (q = []).
Proof.
  intros [_ Hf Hr -> _]. unfold wrap, PIPESIZE in *. apply eq_true_iff_eq. rewrite Z.eqb_eq, bool_decide_eq_true.
  rewrite <- length_zero_iff_nil. dlia.
Qed.

Lemma holds_put p q ch :
  holds p q → Z.of_nat (length q) < PIPESIZE →
  holds (mkpipe (plock p) (<[Z.to_nat (nwrite p `mod` PIPESIZE) := ch]> (pdata p)) (nread p) (u32 (nwrite p + 1)) (readopen p) (writeopen p))
    (q ++ [ch]).
Proof.
  intros [Hd Hf Hr Hw Hb] Hlt. split; cbn [pdata nread nwrite]; try done.
  - by rewrite length_insert.
  - rewrite length_app. simpl. lia.
  - rewrite Hw, length_app. simpl. unfold wrap, PIPESIZE in *. dlia.
  - intros j Hj. rewrite length_app in Hj. simpl in Hj. rewrite Hw, u32_ring. destruct (decide (j = length q)) as [->|Hne].
    + rewrite lookup_app_r, Nat.sub_diag by lia. apply list_lookup_insert_eq. rewrite Hd. unfold PIPESIZE. dlia.
    + rewrite lookup_app_l by lia. rewrite list_lookup_insert_ne; [apply Hb; lia|]. unfold PIPESIZE in *. dlia.
Qed.

Lemma holds_take p ch q :
  holds p (ch :: q) →
  pdata p !! Z.to_nat (nread p `mod` PIPESIZE) = Some ch ∧
  holds (mkpipe (plock p) (pdata p) (u32 (nread p + 1)) (nwrite p) (readopen p) (writeopen p)) q.
Proof.
  intros [Hd Hf Hr Hw Hb]. simpl in Hf, Hw. split.
  - specialize (Hb 0%nat ltac:(simpl; lia)). by rewrite Z.add_0_r in Hb.
  - split; cbn [pdata nread nwrite]; [done|lia|unfold wrap; dlia|rewrite Hw; unfold wrap; dlia|].
    intros j Hj. specialize (Hb (S j) ltac:(simpl; lia)). simpl in Hb. rewrite <- Hb. do 2 f_equal.
    rewrite Zplus_mod, u32_ring, <- Zplus_mod. f_equal. lia.
Qed.

Lemma holds_lock p q b : holds p q → holds (mkpipe b (pdata p) (nread p) (nwrite p) (readopen p) (writeopen p)) q.
Proof. intros [? ? ? ? ?]. by split. Qed.

(** A copy of one byte to or from memory that the process does not have fails. *)
Class UserFaults (U : Type) `{UserLaws U} := {
  ucopyout_fault u va b : uview u va = None → ucopyout va [b] u = Ok (-1) u;
  ucopyin_fault u va : uview u va = None → ∃ bs, ucopyin va 1 u = Ok (-1, bs) u }.

Section calls.
Context {U : Type} `{HU : UserMem U} `{HL : !UserLaws U} (pi : Z) (me : nat).
Abbreviation ust := (pst U).

(** The [n] bytes of a process from address [a] on; addresses wrap around. *)
Definition ubytes (u : U) (a : Z) (n : nat) : list Z := (λ j, default 0 (uview u (u64 (a + Z.of_nat j)))) <$> seq 0 n.
Definition accessible (u : U) (a n : Z) : Prop :=
  0 ≤ a ∧ a + n < 2 ^ 64 ∧ ∀ j, 0 ≤ j < n → is_Some (uview u (a + j)).

Lemma length_ubytes u a n : length (ubytes u a n) = n.
Proof using. unfold ubytes. by rewrite length_fmap, length_seq. Qed.

Lemma ubytes_S u a n : ubytes u a (S n) = default 0 (uview u (u64 a)) :: ubytes u (a + 1) n.
Proof using.
  unfold ubytes. simpl. rewrite Z.add_0_r. f_equal. rewrite <- fmap_S_seq, <- list_fmap_compose.
  apply list_fmap_ext. intros _ j _. simpl. do 3 f_equal. lia.
Qed.

Lemma ubytes_app u a n m : ubytes u a (n + m) = ubytes u a n ++ ubytes u (a + Z.of_nat n) m.
Proof using.
  revert a; induction n as [|n IH]; intros a; [by rewrite Z.add_0_r|]. rewrite Nat.add_succ_l, !ubytes_S, IH. simpl. do 3 f_equal. lia.
Qed.

(** What is known of copies from and to the [n] bytes at [a]: they succeed or
    fail; which is so for all memory under [UserFaults], and for memory that is
    accessible. *)
Definition copies_in (u : U) (a : Z) (n : nat) : Prop :=
  ∀ j, (j < n)%nat → uview u (u64 (a + Z.of_nat j)) = None → ∃ bs, ucopyin (u64 (a + Z.of_nat j)) 1 u = Ok (-1, bs) u.
Definition copies_out (u : U) (a : Z) (n : nat) : Prop :=
  ∀ j, (j < n)%nat → is_Some (uview u (u64 (a + Z.of_nat j))) ∨
    ∀ u' b, uview u' (u64 (a + Z.of_nat j)) = None → ucopyout (u64 (a + Z.of_nat j)) [b] u' = Ok (-1) u'.

Lemma copies_in_S u a n : copies_in u a (S n) → copies_in u (a + 1) n.
Proof using. intros Hc j Hj. specialize (Hc (S j) ltac:(lia)). by replace (a + 1 + Z.of_nat j) with (a + Z.of_nat (S j)) by lia. Qed.
Lemma copies_in_faults `{!UserFaults U} u a n : copies_in u a n.
Proof using. intros j _. apply ucopyin_fault. Qed.
Lemma copies_out_faults `{!UserFaults U} u a n : copies_out u a n.
Proof using. intros j _. right. intros u' b. apply ucopyout_fault. Qed.

Lemma accessible_hole u a n j : accessible u a n → 0 ≤ j < n → uview u (u64 (a + j)) ≠ None.
Proof using. intros (Ha & Hn & Hv) Hj. rewrite wrap_small by lia. destruct (Hv j Hj) as [x ->]. done. Qed.
Lemma copies_in_accessible u a n i k : accessible u a n → 0 ≤ i → i + Z.of_nat k ≤ n → copies_in u (a + i) k.
Proof using.
  intros Ha Hi Hk j Hj Hn. exfalso. revert Hn. replace (a + i + Z.of_nat j) with (a + (i + Z.of_nat j)) by lia. apply (accessible_hole u a n); [done|lia].
Qed.
Lemma copies_out_accessible u a n : accessible u a n → copies_out u a (Z.to_nat n).
Proof using.
  intros Ha j Hj. left. pose proof (accessible_hole u a n (Z.of_nat j) Ha ltac:(lia)) as Hn. destruct (uview u _); [done|done].
Qed.

Definition wake (ch : Z) (m : gmap nat Z) : gmap nat Z := filter (λ x, x.2 ≠ ch) m.

Definition unlocked (p : pipe) : pipe := mkpipe false (pdata p) (nread p) (nwrite p) (readopen p) (writeopen p).

Lemma release_pi_run (s : ust) : plock (pip s) = true → release_pi s = Ok () (mkpst (unlocked (pip s)) (asleep s) (pusr s)).
Proof using. intros Hl. unfold release_pi, getp, setp, gets, modify, mbind, M_bind. rewrite Hl. done. Qed.

Lemma getp_bind {A B} (f : pipe → A) (k : A → M ust B) (s : ust) : (getp f ≫= k) s = k (f (pip s)) s.
Proof using. done. Qed.

(** The parts of [s] that a call leaves as they are. *)
Definition same_ends (p p' : pipe) : Prop := readopen p' = readopen p ∧ writeopen p' = writeopen p.

(** A part of [pipewrite]: [m] bytes went into the pipe. *)
Inductive wrote_part (killed : Z → bool) (addr i : Z) (k : nat) (s s' : ust) (m : nat) : pres → Prop :=
| wp_done : m = k → asleep s' = wake (nread_ch pi) (asleep s) →
    wrote_part killed addr i k s s' m (Done (i + Z.of_nat k))
| wp_hole : (m < k)%nat → killed (i + Z.of_nat m) = false → uview (pusr s) (u64 (addr + i + Z.of_nat m)) = None → asleep s' = wake (nread_ch pi) (asleep s) →
    wrote_part killed addr i k s s' m (Done (i + Z.of_nat m))
| wp_refused : asleep s' = asleep s → (readopen (pip s) = false ∧ m = 0%nat) ∨ killed (i + Z.of_nat m) = true →
    wrote_part killed addr i k s s' m (Done (-1))
| wp_full : nwrite (pip s') = u32 (nread (pip s') + PIPESIZE) → readopen (pip s) = true → (m < k)%nat → killed (i + Z.of_nat m) = false →
    asleep s' = <[me := nwrite_ch pi]> (wake (nread_ch pi) (asleep s)) →
    wrote_part killed addr i k s s' m (Asleep (nwrite_ch pi) (i + Z.of_nat m)).

Lemma wrote_part_S killed addr i k s s1 s' m r :
  wrote_part killed addr (i + 1) k s1 s' m r → readopen (pip s1) = true → readopen (pip s) = true → asleep s1 = asleep s → pusr s1 = pusr s →
  wrote_part killed addr i (S k) s s' (S m) r.
Proof using.
  intros Hw Hro1 Hro Ha Hu. destruct Hw as [Em Hw|Hm Hk Hh Hw|Hw Hk|Hf _ Hmk Hk Hw]; rewrite Ha in Hw.
  - subst m. replace (i + 1 + Z.of_nat k) with (i + Z.of_nat (S k)) by lia. by apply wp_done.
  - replace (i + 1 + Z.of_nat m) with (i + Z.of_nat (S m)) in * by lia. apply wp_hole; [lia|done| |done]. rewrite <- Hu, <- Hh. do 2 f_equal. lia.
  - apply wp_refused; [done|]. destruct Hk as [[Hro' _]|Hk]; [congruence|right]. rewrite <- Hk. f_equal. lia.
  - replace (i + 1 + Z.of_nat m) with (i + Z.of_nat (S m)) in * by lia. apply wp_full; [done|done|lia|done|done].
Qed.

Lemma pipewrite_end_run i (s : ust) : plock (pip s) = true →
  pipewrite_end pi i s = Ok (Done i) (mkpst (unlocked (pip s)) (wake (nread_ch pi) (asleep s)) (pusr s)).
Proof using.
  intros Hl. unfold pipewrite_end.
  runs (eq_refl : wakeup (nread_ch pi) s = Ok () (mkpst (pip s) (wake (nread_ch pi) (asleep s)) (pusr s))).
  by runs release_pi_run by done.
Qed.

Lemma pipewrite_loop_run killed addr i k (s : ust) q :
  holds (pip s) q → plock (pip s) = true → copies_in (pusr s) (addr + i) k →
  ∃ r s' m, pipewrite_loop pi me killed addr i k s = Ok r s' ∧ (m ≤ k)%nat ∧
    holds (pip s') (q ++ ubytes (pusr s) (addr + i) m) ∧ plock (pip s') = false ∧ same_ends (pip s) (pip s') ∧
    pusr s' = pusr s ∧ nread (pip s') = nread (pip s) ∧ wrote_part killed addr i k s s' m r ∧ (∀ j, i ≤ j < i + Z.of_nat m → killed j = false).
Proof using HL.
  revert i s q. induction k as [|k IH]; intros i s q Hq Hlk Hin0; cbn [pipewrite_loop].
  { rewrite pipewrite_end_run by done. eexists _, _, 0%nat. split; [reflexivity|]. cbn [pip pusr asleep]. rewrite app_nil_r.
    split_and!; try done; [by apply holds_lock| |lia]. replace (Done i) with (Done (i + Z.of_nat 0)) by (f_equal; lia). by apply wp_done. }
  rewrite getp_bind.
  destruct (negb (readopen (pip s)) || killed i) eqn:Ek.
  { runs release_pi_run by done. eexists _, _, 0%nat. split; [reflexivity|]. cbn [pip pusr]. rewrite app_nil_r.
    split_and!; try done; [lia|by apply holds_lock| |lia]. apply wp_refused; [done|]. rewrite Z.add_0_r. apply orb_prop in Ek as [Ek%negb_true_iff|]; auto. }
  apply orb_false_elim in Ek as [Ero%negb_false_iff Ek].
  rewrite !getp_bind, (holds_full _ _ Hq).
  destruct (Z.eqb_spec (Z.of_nat (length q)) PIPESIZE) as [Efull|Hfull].
  { runs (eq_refl : wakeup (nread_ch pi) s = Ok () (mkpst (pip s) (wake (nread_ch pi) (asleep s)) (pusr s))).
    unfold sleep. rewrite bind_assoc. runs release_pi_run by done. eexists _, _, 0%nat. split; [reflexivity|]. cbn [pip pusr]. rewrite app_nil_r.
    split_and!; try done; [lia|by apply holds_lock| |lia]. replace (Asleep (nwrite_ch pi) i) with (Asleep (nwrite_ch pi) (i + Z.of_nat 0)) by (f_equal; lia). apply wp_full; [|done|lia|by rewrite Z.add_0_r|done].
    simpl. rewrite (h_nwrite _ _ Hq). by rewrite Efull. }
  destruct (uview (pusr s) (u64 (addr + i))) as [ch|] eqn:Hch; last first.
  { destruct (Hin0 0%nat ltac:(lia)) as [bs Hin]; rewrite Z.add_0_r in *; [done|].
    assert (pusr_op (ucopyin (u64 (addr + i)) 1) s = Ok (-1, bs) s) as Hcp by (unfold pusr_op, zoom; rewrite Hin; by destruct s).
    runs Hcp. cbv beta iota. cbn [fst]. change (-1 =? -1) with true. cbv iota. rewrite pipewrite_end_run by done.
    eexists _, _, 0%nat. split; [reflexivity|]. cbn [pip pusr asleep]. rewrite app_nil_r. split_and!; try done; [lia|by apply holds_lock| |lia].
    replace (Done i) with (Done (i + Z.of_nat 0)) by (f_equal; lia). apply wp_hole; [lia|by rewrite Z.add_0_r|by rewrite Z.add_0_r|done]. }
  assert (ucopyin (u64 (addr + i)) 1 (pusr s) = Ok (0, [ch]) (pusr s)) as Hin.
  { apply (ucopyin_ok _ _ [ch]). intros [|j] b Hb'; [|done]. injection Hb' as <-. by rewrite Z.add_0_r. }
  assert (pusr_op (ucopyin (u64 (addr + i)) 1) s = Ok (0, [ch]) s) as Hcp.
  { unfold pusr_op, zoom. rewrite Hin. by destruct s. }
  runs Hcp. cbv beta iota. cbn [fst snd]. change (0 =? -1) with false. cbv iota.
  set (s1 := mkpst (mkpipe (plock (pip s)) (<[Z.to_nat (nwrite (pip s) `mod` PIPESIZE) := ch]> (pdata (pip s))) (nread (pip s)) (u32 (nwrite (pip s) + 1)) (readopen (pip s)) (writeopen (pip s))) (asleep s) (pusr s)).
  runs (eq_refl : put_byte ch s = Ok () s1). pose proof (h_fits _ _ Hq).
  destruct (IH (i + 1) s1 (q ++ [ch])) as (r & s' & m & Hrun & Hm & Hq' & Hl' & He & Hu & Hn & Hw & Hkj); [apply holds_put; [done|lia]|done|rewrite Z.add_assoc; by apply copies_in_S|].
  exists r, s', (S m). split_and!; try done; [lia| |by eapply wrote_part_S|].
  - rewrite ubytes_S. rewrite <- (assoc_L (++)) in Hq'. simpl in Hq'. rewrite Hch. simpl. by rewrite <- Z.add_assoc.
  - intros j Hj. destruct (decide (j = i)) as [->|]; [done|]. apply Hkj. lia.
Qed.

(** [u'] is [u] with the bytes [bs] at [a]. *)
Definition stored (u : U) (a : Z) (bs : list Z) (u' : U) : Prop :=
  ∀ x, uview u' x = if decide (0 ≤ x < 2 ^ 64 ∧ u64 (x - a) < Z.of_nat (length bs)) then bs !! Z.to_nat (u64 (x - a)) else uview u x.

Lemma stored_nil u a : stored u a [] u.
Proof using. intros x. rewrite decide_False; [done|]. simpl. unfold wrap. dlia. Qed.

Lemma stored_cons u u1 u2 a b bs : Z.of_nat (length bs) < 2 ^ 64 → stored u a [b] u1 → stored u1 (a + 1) bs u2 → stored u a (b :: bs) u2.
Proof using.
  intros Hl H1 H2 x. rewrite H2, H1. change (length [b]) with 1%nat. change (length (b :: bs)) with (S (length bs)).
  destruct (decide (0 ≤ x < 2 ^ 64)) as [Hx|Hx]; [|by rewrite !decide_False by tauto].
  destruct (decide (u64 (x - a) = 0)) as [E|E].
  - assert (u64 (x - (a + 1)) = 2 ^ 64 - 1) as E1 by (unfold wrap in *; dlia). rewrite E, E1.
    rewrite decide_False, decide_True, decide_True by lia. done.
  - assert (u64 (x - (a + 1)) = u64 (x - a) - 1) as -> by (unfold wrap in *; dlia).
    pose proof (wrap_range 64 (x - a) ltac:(lia)). destruct (decide (0 ≤ x < 2 ^ 64 ∧ u64 (x - a) - 1 < Z.of_nat (length bs))).
    + rewrite decide_True by lia. by replace (Z.to_nat (u64 (x - a))) with (S (Z.to_nat (u64 (x - a) - 1))) by lia.
    + by rewrite !decide_False by lia.
Qed.

Lemma stored_ubytes u a bs u' : Z.of_nat (length bs) < 2 ^ 64 → stored u a bs u' → ubytes u' a (length bs) = bs.
Proof using.
  intros Hl Hs. apply list_eq. intros j. unfold ubytes. rewrite list_lookup_fmap. destruct (decide (j < length bs)%nat) as [Hj|Hj].
  - rewrite lookup_seq_lt by done. simpl. rewrite Hs. assert (u64 (u64 (a + Z.of_nat j) - a) = Z.of_nat j) as -> by (unfold wrap; dlia).
    pose proof (wrap_range 64 (a + Z.of_nat j) ltac:(lia)). rewrite decide_True, Nat2Z.id by lia.
    destruct (lookup_lt_is_Some_2 bs j Hj) as [b ->]. done.
  - rewrite lookup_seq_ge by lia. simpl. symmetry. apply lookup_ge_None. lia.
Qed.

Lemma accessible_stored u a n bs b u' : accessible u a n → stored u b bs u' → accessible u' a n.
Proof using.
  intros (H1 & H2 & H3) Hs. split_and!; [done|done|]. intros j Hj. rewrite Hs. destruct (decide _); [|by apply H3].
  apply lookup_lt_is_Some_2. pose proof (wrap_range 64 (a + j - b) ltac:(lia)). lia.
Qed.

Lemma ucopyout_byte u a b : is_Some (uview u (u64 a)) → ∃ u', ucopyout (u64 a) [b] u = Ok 0 u' ∧ stored u a [b] u'.
Proof using HL.
  intros Hb. destruct (ucopyout_ok u (u64 a) [b]) as (u' & Hout & Hu).
  { intros [|j] Hj; [by rewrite Z.add_0_r|simpl in Hj; lia]. }
  exists u'. split; [done|]. intros x. rewrite Hu. change (length [b]) with 1%nat. pose proof (wrap_range 64 a ltac:(lia)).
  destruct (decide (x = u64 a)) as [->|Hx].
  - assert (u64 (u64 a - a) = 0) as -> by (unfold wrap; dlia). rewrite !decide_True by lia. by rewrite Z.sub_diag.
  - rewrite !decide_False; [done| |lia]. unfold wrap in *. dlia.
Qed.

Lemma copies_out_stored u u' a b n : copies_out u a (S n) → stored u a [b] u' → copies_out u' (a + 1) n.
Proof using.
  intros Hc Hs j Hj. replace (a + 1 + Z.of_nat j) with (a + Z.of_nat (S j)) by lia. destruct (Hc (S j) ltac:(lia)) as [Hv|Hv]; [left|by right].
  rewrite Hs. destruct (decide _) as [[_ Hd]|]; [|done]. apply lookup_lt_is_Some_2. pose proof (wrap_range 64 (u64 (a + Z.of_nat (S j)) - a) ltac:(lia)). simpl in *. lia.
Qed.

(** The copying loop of [piperead] takes bytes as long as there are any; [lost]
    is the byte it took out of the pipe when it could not store it. *)
Lemma piperead_loop_run addr i k (s : ust) q :
  holds (pip s) q → copies_out (pusr s) (addr + i) k →
  ∃ m lost s', piperead_loop addr i k s = Ok (i + Z.of_nat m) s' ∧ q = take m q ++ lost ++ drop (m + length lost) q ∧ (m ≤ k `min` length q)%nat ∧
    holds (pip s') (drop (m + length lost) q) ∧ plock (pip s') = plock (pip s) ∧
    same_ends (pip s) (pip s') ∧ stored (pusr s) (addr + i) (take m q) (pusr s') ∧ nwrite (pip s') = nwrite (pip s) ∧
    asleep s' = asleep s ∧
    (lost = [] ∧ m = (k `min` length q)%nat ∨ length lost = 1%nat ∧ (m < k)%nat ∧ uview (pusr s') (u64 (addr + i + Z.of_nat m)) = None).
Proof using HL.
  revert i s q. induction k as [|k IH]; intros i s q Hq Ho0; cbn [piperead_loop].
  { exists 0%nat, [], s. simpl. rewrite Z.add_0_r. split_and!; try done; [apply stored_nil|by left]. }
  rewrite !getp_bind. rewrite (holds_empty _ _ Hq). destruct q as [|ch q].
  { exists 0%nat, [], s. simpl. rewrite Z.add_0_r. split_and!; try done; [apply stored_nil|by left]. }
  rewrite bool_decide_eq_false_2 by done. destruct (holds_take _ _ _ Hq) as [Hch Hq1].
  set (s1 := mkpst (mkpipe (plock (pip s)) (pdata (pip s)) (u32 (nread (pip s) + 1)) (nwrite (pip s)) (readopen (pip s)) (writeopen (pip s))) (asleep s) (pusr s)).
  assert (take_byte s = Ok ch s1) as Htk by (unfold take_byte; rewrite getp_bind, Hch; done). runs Htk.
  destruct (uview (pusr s) (u64 (addr + i))) as [b0|] eqn:Hb0; last first.
  { assert (pusr_op (ucopyout (u64 (addr + i)) [ch]) s1 = Ok (-1) s1) as Hop.
    { destruct (Ho0 0%nat ltac:(lia)) as [Hv|Hv]; rewrite Z.add_0_r in Hv; [rewrite Hb0 in Hv; by destruct Hv|].
      unfold pusr_op, zoom. cbn [pusr s1]. by rewrite (Hv _ ch Hb0). }
    runs Hop. change (-1 =? -1) with true. cbv iota. exists 0%nat, [ch], s1. simpl. rewrite Z.add_0_r, drop_0.
    split_and!; try done; [lia|apply stored_nil|right]. split_and!; [done|lia|]. by rewrite Z.add_0_r. }
  destruct (ucopyout_byte (pusr s) (addr + i) ch) as (u1 & Hout & Hu1); [by exists b0|].
  assert (pusr_op (ucopyout (u64 (addr + i)) [ch]) s1 = Ok 0 (mkpst (pip s1) (asleep s) u1)) as Hop.
  { unfold pusr_op, zoom. cbn [pusr s1]. by rewrite Hout. }
  runs Hop. change (0 =? -1) with false. cbv iota. pose proof (h_fits _ _ Hq) as Hfit. simpl in Hfit.
  destruct (IH (i + 1) (mkpst (pip s1) (asleep s) u1) q) as (m & lost & s' & Hrun & Eq & Hm & Hq' & Hl' & He & Hst & Hn & Has & Hlast); [done|rewrite Z.add_assoc; by eapply copies_out_stored|].
  exists (S m), lost, s'. cbn [take drop length app Nat.add Nat.min]. split_and!; try done.
  - rewrite Hrun. f_equal. lia.
  - by rewrite <- Eq.
  - lia.
  - rewrite Z.add_assoc in Hst. eapply stored_cons; [|done|exact Hst]. rewrite length_take. unfold PIPESIZE in Hfit. lia.
  - destruct Hlast as [[-> ->]|(Hlen & Hmk & Hh)]; [by left|right]. split_and!; [done|lia|]. rewrite <- Hh. do 2 f_equal. lia.
Qed.

Lemma acquire_pi_run (s : ust) : plock (pip s) = false →
  acquire_pi s = Ok () (mkpst (mkpipe true (pdata (pip s)) (nread (pip s)) (nwrite (pip s)) (readopen (pip s)) (writeopen (pip s))) (asleep s) (pusr s)).
Proof using. intros Hl. unfold acquire_pi, getp, setp, gets, modify, mbind, M_bind. rewrite Hl. done. Qed.

(** A part of [piperead]: the bytes [bs] arrived, [lost] was taken and not stored. *)
Inductive read_part (killed : bool) (addr n : Z) (s s' : ust) (q bs lost : list Z) : pres → Prop :=
| rp_done : q ≠ [] ∨ writeopen (pip s) = false → asleep s' = wake (nwrite_ch pi) (asleep s) →
    lost = [] ∧ bs = take (Z.to_nat n) q ∨ length lost = 1%nat ∧ Z.of_nat (length bs) < n ∧ uview (pusr s') (u64 (addr + Z.of_nat (length bs))) = None →
    read_part killed addr n s s' q bs lost (Done (Z.of_nat (length bs)))
| rp_killed : killed = true → bs = [] → lost = [] → asleep s' = asleep s → read_part killed addr n s s' q bs lost (Done (-1))
| rp_empty : q = [] → writeopen (pip s) = true → bs = [] → lost = [] → asleep s' = <[me := nread_ch pi]> (asleep s) →
    read_part killed addr n s s' q bs lost (Asleep (nread_ch pi) 0).

Lemma piperead_run killed addr n (s : ust) q :
  holds (pip s) q → plock (pip s) = false → copies_out (pusr s) addr (Z.to_nat n) →
  ∃ r s' bs lost, piperead pi me killed addr n s = Ok r s' ∧ q = bs ++ lost ++ drop (length bs + length lost) q ∧
    holds (pip s') (drop (length bs + length lost) q) ∧
    plock (pip s') = false ∧ same_ends (pip s) (pip s') ∧ stored (pusr s) addr bs (pusr s') ∧ nwrite (pip s') = nwrite (pip s) ∧
    read_part killed addr n s s' q bs lost r.
Proof using HL.
  intros Hq Hlk Ho0. unfold piperead. runs acquire_pi_run by done. rewrite !getp_bind. cbn [pip nread nwrite writeopen].
  rewrite (holds_empty _ _ Hq). destruct (bool_decide (q = []) && writeopen (pip s)) eqn:Ew.
  - apply andb_prop in Ew as [->%bool_decide_eq_true Ewo]. destruct killed.
    + runs release_pi_run by done. eexists _, _, [], []. split; [reflexivity|].
      split_and!; try done; [exact (holds_lock (pip s) [] false Hq)|apply stored_nil|]. by apply rp_killed.
    + unfold sleep. rewrite bind_assoc. runs release_pi_run by done. eexists _, _, [], []. split; [reflexivity|].
      split_and!; try done; [exact (holds_lock (pip s) [] false Hq)|apply stored_nil|]. by apply rp_empty.
  - set (s1 := mkpst _ _ _). destruct (piperead_loop_run addr 0 (Z.to_nat n) s1 q) as (m & lost & s' & Hrun & Eq & Hm & Hq' & Hl' & He & Hst & Hn & Has & Hlast); [by apply holds_lock|by rewrite Z.add_0_r|].
    runs Hrun. runs (eq_refl : wakeup (nwrite_ch pi) s' = Ok () (mkpst (pip s') (wake (nwrite_ch pi) (asleep s')) (pusr s'))). runs release_pi_run by done.
    assert (length (take m q) = m) as Hlm by (rewrite length_take; lia).
    eexists _, _, (take m q), lost. split; [reflexivity|]. rewrite Hlm. cbn [pip pusr asleep]. rewrite Z.add_0_r in Hst, Hlast.
    split_and!; try done; [by apply holds_lock|]. replace (Done (0 + Z.of_nat m)) with (Done (Z.of_nat (length (take m q)))) by (by rewrite Hlm).
    apply rp_done; [|simpl; by rewrite Has|].
    + apply andb_false_iff in Ew as [Ew%bool_decide_eq_false|Ew]; auto.
    + destruct Hlast as [[-> ->]|(Hlen & Hmk & Hh)]; [left|right; rewrite Hlm; split_and!; [done|lia|done]]. split; [done|].
      destruct (Nat.min_spec (Z.to_nat n) (length q)) as [[? ->]|[? ->]]; [done|by rewrite !take_ge by lia].
Qed.
End calls.
