(* ===== verification/PipeTheorems.v ===== *)
(** * What pipes guarantee

    Any number of processes that read, write and close one pipe, their calls
    interleaved at every point where the code releases [pi->lock].  A pipe
    between two processes, one writing the bytes 7 and 8, gives instances of
    the theorems, and the run that loses a wakeup. *)
From S2P Require Import Prelude Mem Sleeplock Block Bio Log Fs FsRead Pipe PipeSpec FsWitness.
From stdpp Require Import functions list gmap.

#[local] Open Scope Z_scope.

(** ** The processes *)

(** Where a process is: in no call, or in one of these, about to run its next
    part (or asleep before it). *)
Inductive pcall :=
| Outside
| Writing (addr i n : Z)
| Reading (addr n : Z).

Section system.
Context {U : Type} `{HU : UserMem U} `{HL : !UserLaws U} `{HF : !UserFaults U} (pi : Z).

(** The pipe, the sleeping processes, and each process' call and memory. *)
Record psys := mkpsys { sp : pipe; sas : gmap nat Z; spr : gmap nat (pcall * U) }.

(** The call after a part of it ended in [r]. *)
Definition next_call (c : pcall) (r : pres) : pcall :=
  match r, c with
  | Asleep _ i, Writing addr _ n => Writing addr i n
  | Asleep _ _, _ => c
  | Done _, _ => Outside
  end.

(** When a writer may be found killed: at any byte, or only where a part of its
    call begins. *)
Definition kills_ok (anytime : bool) (killed : Z → bool) (i : Z) : Prop :=
  anytime = true ∨ ∀ j, i < j → killed j = false.

(** What a part of a read took out of the pipe: the bytes it left in the reader's
    memory, the byte it could not store, and whether the memory of the reader
    has a hole behind the former. *)
Record taken := mktaken { got : list Z; lost : list Z; hole : bool }.

Definition delivered (r : pres) : nat := match r with Done c => Z.to_nat c | Asleep _ _ => 0%nat end.
Definition ring_bytes (p : pipe) (from : Z) (n : nat) : list Z :=
  (λ j, default 0 (pdata p !! Z.to_nat ((from + Z.of_nat j) `mod` PIPESIZE))) <$> seq 0 n.
Definition take_of (p p' : pipe) (addr : Z) (u : U) (r : pres) : taken :=
  let c := delivered r in
  mktaken (ubytes u addr c)
    (ring_bytes p (nread p + Z.of_nat c) (Z.to_nat (u32 (nread p' - nread p)) - c))
    (bool_decide (uview u (u64 (addr + Z.of_nat c)) = None)).

(** One step, with the bytes it took from the writer's memory, as many as the
    counter advanced, and what it took out of the pipe.  Buffers are arbitrary
    addresses.  [ps_kill] is what [kill] does to a process that sleeps. *)
Inductive pstep (anytime : bool) (s : psys) : list Z → list taken → psys → Prop :=
| ps_call p u c : spr s !! p = Some (Outside, u) →
    match c with Writing _ i _ => i = 0 | _ => True end →
    pstep anytime s [] [] (mkpsys (sp s) (sas s) (<[p := (c, u)]> (spr s)))
| ps_write p addr i n u killed r t :
    spr s !! p = Some (Writing addr i n, u) → sas s !! p = None → kills_ok anytime killed i →
    pipewrite_from pi p killed addr i n (mkpst (sp s) (sas s) u) = Ok r t →
    pstep anytime s (ubytes u (addr + i) (Z.to_nat (u32 (nwrite (pip t) - nwrite (sp s))))) []
      (mkpsys (pip t) (asleep t) (<[p := (next_call (Writing addr i n) r, pusr t)]> (spr s)))
| ps_read p addr n u killed r t :
    spr s !! p = Some (Reading addr n, u) → sas s !! p = None →
    piperead pi p killed addr n (mkpst (sp s) (sas s) u) = Ok r t →
    pstep anytime s [] [take_of (sp s) (pip t) addr (pusr t) r]
      (mkpsys (pip t) (asleep t) (<[p := (next_call (Reading addr n) r, pusr t)]> (spr s)))
| ps_close p u writable b t :
    spr s !! p = Some (Outside, u) → pipeclose pi writable (mkpst (sp s) (sas s) u) = Ok b t →
    pstep anytime s [] [] (mkpsys (pip t) (asleep t) (spr s))
| ps_kill p : pstep anytime s [] [] (mkpsys (sp s) (delete p (sas s)) (spr s)).

Inductive psteps (anytime : bool) (s0 : psys) : list Z → list taken → psys → Prop :=
| pss_nil : psteps anytime s0 [] [] s0
| pss_snoc ins outs s i o s' :
    psteps anytime s0 ins outs s → pstep anytime s i o s' → psteps anytime s0 (ins ++ i) (outs ++ o) s'.

(** A pipe as [pipealloc] makes it; its data is whatever was in the page. *)
Definition new_pipe (bs : list Z) : pipe := mkpipe false bs 0 0 true true.
Definition new_sys (bs : list Z) (us : gmap nat U) : psys := mkpsys (new_pipe bs) ∅ ((λ u, (Outside, u)) <$> us).

(** ** The queue *)

Record sys_ok (s : psys) (q : list Z) : Prop := {
  so_holds : holds (sp s) q;
  so_lock : plock (sp s) = false }.

(** The bytes that left the pipe, and when one of them is lost. *)
Definition out_bytes (outs : list taken) : list Z := concat ((λ x, got x ++ lost x) <$> outs).
Definition loss_ok (x : taken) : Prop := lost x = [] ∨ length (lost x) = 1%nat ∧ hole x = true.

Lemma out_bytes_app o1 o2 : out_bytes (o1 ++ o2) = out_bytes o1 ++ out_bytes o2.
Proof using. unfold out_bytes. by rewrite fmap_app, concat_app. Qed.

Lemma holds_app_len p p' q bs : holds p q → holds p' (q ++ bs) → nread p' = nread p → Z.to_nat (u32 (nwrite p' - nwrite p)) = length bs.
Proof using.
  clear. intros [_ _ _ -> _] [_ Hf _ -> _] ->. rewrite length_app in *. unfold wrap, PIPESIZE in *. dlia.
Qed.

Lemma holds_drop_len p p' q n : holds p q → holds p' (drop n q) → (n ≤ length q)%nat → nwrite p' = nwrite p →
  Z.to_nat (u32 (nread p' - nread p)) = n.
Proof using.
  clear. intros [_ Hf Hr Hw _] [_ Hf' Hr' Hw' _] Hn E. rewrite length_drop in *. rewrite Hw, Hw' in E. unfold wrap, PIPESIZE in *. dlia.
Qed.

Lemma holds_ring p q j l : holds p q → (∃ rest, drop j q = l ++ rest) → (j ≤ length q)%nat →
  ring_bytes p (nread p + Z.of_nat j) (length l) = l.
Proof using.
  clear. intros Hq [rest E] Hj. apply list_eq. intros i. unfold ring_bytes. rewrite list_lookup_fmap.
  destruct (decide (i < length l)%nat) as [Hi|Hi].
  - rewrite lookup_seq_lt by done. simpl. pose proof (f_equal length E) as El. rewrite length_drop, length_app in El.
    replace (nread p + Z.of_nat j + Z.of_nat i) with (nread p + Z.of_nat (j + i)) by lia. rewrite (h_byte _ _ Hq) by lia.
    rewrite <- lookup_drop, E, lookup_app_l by done. destruct (lookup_lt_is_Some_2 l i Hi) as [b ->]. done.
  - rewrite lookup_seq_ge by lia. simpl. symmetry. apply lookup_ge_None. lia.
Qed.

Lemma write_step p addr i n killed u s q :
  sys_ok s q → spr s !! p = Some (Writing addr i n, u) →
  ∃ r t m, pipewrite_from pi p killed addr i n (mkpst (sp s) (sas s) u) = Ok r t ∧
    Z.to_nat (u32 (nwrite (pip t) - nwrite (sp s))) = m ∧ pusr t = u ∧
    sys_ok (mkpsys (pip t) (asleep t) (<[p := (next_call (Writing addr i n) r, pusr t)]> (spr s))) (q ++ ubytes u (addr + i) m) ∧
    same_ends (sp s) (pip t) ∧ wrote_part pi p killed addr i (Z.to_nat (n - i)) (mkpst (sp s) (sas s) u) t m r.
Proof using HL HF.
  intros Hok Hp. unfold pipewrite_from. runs acquire_pi_run by apply Hok.
  set (s1 := mkpst _ _ _). assert (holds (pip s1) q) as Hq by (apply holds_lock, Hok).
  destruct (pipewrite_loop_run pi p killed addr i (Z.to_nat (n - i)) s1 q Hq) as (r & t & m & Hrun & Hm & Hq' & Hl & He & Hu & Hr & Hw & _); [done|apply copies_in_faults|].
  rewrite Hrun. exists r, t, m. simpl in Hu. split_and!; try done.
  - change (nwrite (sp s)) with (nwrite (pip s1)). by rewrite (holds_app_len (pip s1) (pip t) q (ubytes u (addr + i) m) Hq Hq' Hr), length_ubytes.
  - destruct Hw; by constructor.
Qed.

Lemma read_step p addr n killed u s q :
  sys_ok s q → spr s !! p = Some (Reading addr n, u) →
  ∃ r t bs l, piperead pi p killed addr n (mkpst (sp s) (sas s) u) = Ok r t ∧
    got (take_of (sp s) (pip t) addr (pusr t) r) = bs ∧ lost (take_of (sp s) (pip t) addr (pusr t) r) = l ∧
    loss_ok (take_of (sp s) (pip t) addr (pusr t) r) ∧
    q = (bs ++ l) ++ drop (length bs + length l) q ∧
    sys_ok (mkpsys (pip t) (asleep t) (<[p := (next_call (Reading addr n) r, pusr t)]> (spr s))) (drop (length bs + length l) q) ∧
    same_ends (sp s) (pip t) ∧ read_part pi p killed addr n (mkpst (sp s) (sas s) u) t q bs l r.
Proof using HL HF.
  intros Hok Hp. pose proof (so_holds _ _ Hok) as Hq.
  destruct (piperead_run pi p killed addr n (mkpst (sp s) (sas s) u) q Hq) as (r & t & bs & l & Hrun & Eq & Hq' & Hl & He & Hst & Hn & Hr); [apply Hok|apply copies_out_faults|].
  rewrite Hrun. exists r, t, bs, l. simpl in Hn. pose proof (f_equal length Eq) as El. rewrite !length_app in El. pose proof (h_fits _ _ Hq) as Hfit.
  assert (delivered r = length bs) as Hd by (destruct Hr; simpl; subst; simpl; lia).
  assert (lost (take_of (sp s) (pip t) addr (pusr t) r) = l) as Hlost.
  { unfold take_of. cbn [lost]. rewrite Hd, (holds_drop_len _ _ q (length bs + length l) Hq Hq') by (done || lia).
    replace (length bs + length l - length bs)%nat with (length l) by lia. apply (holds_ring _ q); [done| |lia].
    exists (drop (length bs + length l) q). rewrite Eq at 1. by rewrite drop_app_length. }
  split_and!; try done.
  - unfold take_of. cbn [got]. rewrite Hd. eapply stored_ubytes; [|exact Hst]. unfold PIPESIZE in *. lia.
  - unfold loss_ok. rewrite Hlost. destruct Hr as [_ _ [[? _]|(Hl1 & _ & Hh)]|_ _ ? _|_ _ _ ? _]; [by left| |by left..].
    right. split; [done|]. unfold take_of. cbn [hole]. rewrite Hd. by apply bool_decide_eq_true.
  - by rewrite <- (assoc_L (++)).
Qed.

Lemma close_run w (s : pst U) q : holds (pip s) q → plock (pip s) = false →
  ∃ b t, pipeclose pi w s = Ok b t ∧ holds (pip t) q ∧ plock (pip t) = false ∧
    asleep t = wake (if w then nread_ch pi else nwrite_ch pi) (asleep s) ∧
    readopen (pip t) = (if w then readopen (pip s) else false) ∧ writeopen (pip t) = (if w then false else writeopen (pip s)).
Proof using.
  intros [? ? ? ? ?] Hl. unfold pipeclose. runs acquire_pi_run by done. destruct w.
  - eexists _, _. split; [reflexivity|]. split_and!; done.
  - eexists _, _. split; [reflexivity|]. split_and!; done.
Qed.

(** Every step keeps the queue's account. *)
Lemma pstep_queue anytime s i o s' q :
  sys_ok s q → pstep anytime s i o s' → ∃ q', sys_ok s' q' ∧ q ++ i = out_bytes o ++ q' ∧ Forall loss_ok o.
Proof using HL HF.
  intros Hok Hs. destruct Hs as [p u c Hp _|p addr i n u killed r t Hp Ha Hk Hrun|p addr n u killed r t Hp Ha Hrun|p u w b t Hp Hrun|p].
  - exists q. rewrite app_nil_r. split_and!; [by destruct Hok|done|done].
  - destruct (write_step p addr i n killed u s q Hok Hp) as (r' & t' & m & Hrun' & Hm & Hu & Hok' & _). rewrite Hrun in Hrun'. injection Hrun' as <- <-.
    eexists. split; [exact Hok'|]. rewrite Hm. done.
  - destruct (read_step p addr n killed u s q Hok Hp) as (r' & t' & bs & l & Hrun' & Hg & Hl & Hlo & Eq & Hok' & _). rewrite Hrun in Hrun'. injection Hrun' as <- <-.
    eexists. split; [exact Hok'|]. unfold out_bytes. cbn [fmap list_fmap concat]. rewrite Hg, Hl, !app_nil_r. split; [done|]. by apply Forall_singleton.
  - destruct (close_run w (mkpst (sp s) (sas s) u) q) as (b' & t' & Hrun' & Hq & Hl & _); [apply Hok|apply Hok|]. rewrite Hrun in Hrun'. injection Hrun' as <- <-.
    exists q. rewrite app_nil_r. done.
  - exists q. rewrite app_nil_r. split_and!; [by destruct Hok|done|done].
Qed.

Lemma new_sys_ok bs us : length bs = Z.to_nat PIPESIZE → sys_ok (new_sys bs us) [].
Proof using.
  intros Hl. split; cbn [new_sys sp spr]; [|done].
  split; cbn [new_pipe pdata nread nwrite]; [done|done|lia|done|]. intros j Hj. simpl in Hj. lia.
Qed.

Lemma psteps_queue anytime bs us ins outs s :
  length bs = Z.to_nat PIPESIZE → psteps anytime (new_sys bs us) ins outs s →
  ∃ q, sys_ok s q ∧ ins = out_bytes outs ++ q ∧ Forall loss_ok outs.
Proof using HL HF.
  intros Hl Hs. induction Hs as [|ins outs s i o s' _ (q & Hok & -> & Hlo) Hstep].
  - exists []. split; [by apply new_sys_ok|done].
  - destruct (pstep_queue _ _ _ _ _ _ Hok Hstep) as (q' & Hok' & E & Hlo'). exists q'. split; [done|].
    rewrite out_bytes_app, <- !(assoc_L (++)), E. split; [done|]. by apply Forall_app.
Qed.

(** C11: a pipe is a queue.  For any number of processes that write, read and
    close it in any interleaving, with any buffers, each also killed at any
    time: the bytes taken from the writers' memory are, in order, the bytes
    that left the pipe followed by the at most [PIPESIZE] bytes in the ring
    buffer; and the bytes a read took out arrived in the reader's memory, except
    that the byte for which the reader's memory has a hole, at most one per
    read, is lost.  The counters wrap around at 2^32 without harm. *)
Theorem pipe_fifo bs us ins outs s :
  length bs = Z.to_nat PIPESIZE → psteps true (new_sys bs us) ins outs s →
  ∃ q, ins = out_bytes outs ++ q ∧ holds (sp s) q ∧ Forall loss_ok outs.
Proof using HL HF. intros Hl Hs. destruct (psteps_queue _ _ _ _ _ _ Hl Hs) as (q & Hok & E & Hlo). exists q. split_and!; [done|apply Hok|done]. Qed.

(** ** Wakeups *)

(** Nobody sleeps for something that is there. *)
Record awake_ok (s : psys) (q : list Z) : Prop := {
  aw_read p : sas s !! p = Some (nread_ch pi) → q = [] ∧ writeopen (sp s) = true;
  aw_write p : sas s !! p = Some (nwrite_ch pi) → Z.of_nat (length q) = PIPESIZE ∧ readopen (sp s) = true }.

Lemma wake_lookup ch (m : gmap nat Z) p c : wake ch m !! p = Some c ↔ m !! p = Some c ∧ c ≠ ch.
Proof using. clear. unfold wake. rewrite map_lookup_filter_Some. done. Qed.

Lemma ch_ne : nread_ch pi ≠ nwrite_ch pi.
Proof using. clear. unfold nread_ch, nwrite_ch. lia. Qed.

Lemma write_awake p addr i n killed u s q q' r t m :
  awake_ok s q → sas s !! p = None → kills_ok false killed i → same_ends (sp s) (pip t) → holds (pip t) q' → q' = q ++ ubytes u (addr + i) m →
  wrote_part pi p killed addr i (Z.to_nat (n - i)) (mkpst (sp s) (sas s) u) t m r →
  awake_ok (mkpsys (pip t) (asleep t) (<[p := (next_call (Writing addr i n) r, pusr t)]> (spr s))) q'.
Proof using.
  intros [Hr Hw] Hp Hk [Ero Ewo] Hq Eq Hpart. pose proof ch_ne. pose proof (h_fits _ _ Hq) as Hf. pose proof (f_equal length Eq) as El. rewrite length_app, length_ubytes in El.
  destruct Hpart as [Hm Ha|Hm _ _ Ha|Ha Hkl|Hfull Hro Hm _ Ha]; simpl in *; split; cbn [sas sp]; rewrite Ha.
  - intros p'. rewrite wake_lookup. naive_solver.
  - intros p'. rewrite wake_lookup. intros [Hp' _]. destruct (Hw p' Hp') as [? ?]. split; [lia|congruence].
  - intros p'. rewrite wake_lookup. naive_solver.
  - intros p'. rewrite wake_lookup. intros [Hp' _]. destruct (Hw p' Hp') as [? ?]. split; [lia|congruence].
  - intros p' Hp'. destruct (Hr p' Hp') as [-> ?]. split; [|congruence]. subst q'. simpl.
    assert (m = 0%nat) as ->; [|done]. destruct Hkl as [[_ ?]|Hkl]; [done|]. destruct Hk as [|Hk]; [done|].
    destruct m as [|m]; [done|]. rewrite Hk in Hkl by lia. done.
  - intros p' Hp'. destruct (Hw p' Hp') as [? ?]. split; [lia|congruence].
  - intros p'. destruct (decide (p' = p)) as [->|]; [rewrite lookup_insert_eq; congruence|]. rewrite lookup_insert_ne, wake_lookup by done. naive_solver.
  - intros p' _. split; [|congruence]. pose proof (holds_full _ _ Hq) as Hfq. rewrite Hfull, Z.eqb_refl in Hfq. symmetry in Hfq. by apply Z.eqb_eq in Hfq.
Qed.

Lemma read_awake p addr n killed u s q q' r t bs l :
  awake_ok s q → sas s !! p = None → same_ends (sp s) (pip t) → q' = drop (length bs + length l) q →
  read_part pi p killed addr n (mkpst (sp s) (sas s) u) t q bs l r →
  awake_ok (mkpsys (pip t) (asleep t) (<[p := (next_call (Reading addr n) r, pusr t)]> (spr s))) q'.
Proof using.
  clear HF. intros [Hr Hw] Hp [Ero Ewo] Eq Hpart. pose proof ch_ne.
  destruct Hpart as [Hne Ha _|Hkl Hbs Hl Ha|He Hwo Hbs Hl Ha]; simpl in *; split; cbn [sas sp]; rewrite Ha.
  - intros p'. rewrite wake_lookup. intros [Hp' _]. destruct (Hr p' Hp') as [-> ?]. subst q'. rewrite drop_nil. split; [done|congruence].
  - intros p'. rewrite wake_lookup. naive_solver.
  - intros p' Hp'. destruct (Hr p' Hp') as [-> ?]. subst q'. rewrite drop_nil. split; [done|congruence].
  - intros p' Hp'. destruct (Hw p' Hp') as [? ?]. subst q' bs l. split; [done|congruence].
  - intros p' _. subst q q'. rewrite drop_nil. split; [done|congruence].
  - intros p'. destruct (decide (p' = p)) as [->|]; [rewrite lookup_insert_eq; congruence|]. rewrite lookup_insert_ne by done.
    intros Hp'. destruct (Hw p' Hp') as [? ?]. subst q' bs l. split; [done|congruence].
Qed.

Lemma pstep_awake s i o s' q :
  sys_ok s q → awake_ok s q → pstep false s i o s' → ∃ q', sys_ok s' q' ∧ awake_ok s' q'.
Proof using HL HF.
  intros Hok Haw Hs. destruct Hs as [p u c Hp _|p addr i n u killed r t Hp Ha Hk Hrun|p addr n u killed r t Hp Ha Hrun|p u w b t Hp Hrun|p].
  - exists q. by destruct Haw, Hok.
  - destruct (write_step p addr i n killed u s q Hok Hp) as (r' & t' & m & Hrun' & Hm & Hu & Hok' & He & Hpart). rewrite Hrun in Hrun'. injection Hrun' as <- <-.
    eexists. split; [exact Hok'|]. eapply write_awake; [done|done|done|done|apply (so_holds _ _ Hok')|done|done].
  - destruct (read_step p addr n killed u s q Hok Hp) as (r' & t' & bs & l & Hrun' & _ & _ & _ & _ & Hok' & He & Hpart). rewrite Hrun in Hrun'. injection Hrun' as <- <-.
    eexists. split; [exact Hok'|]. by eapply read_awake.
  - destruct (close_run w (mkpst (sp s) (sas s) u) q) as (b' & t' & Hrun' & Hq & Hl & Ha & Ero & Ewo); [apply Hok|apply Hok|]. rewrite Hrun in Hrun'. injection Hrun' as <- <-.
    exists q. split; [done|]. destruct Haw as [Hr Hw]. pose proof ch_ne. simpl in *. split; cbn [sas sp]; intros p'; rewrite Ha, wake_lookup; intros [Hp' ?].
    + rewrite Ewo. destruct w; [done|]. by apply (Hr p').
    + rewrite Ero. destruct w; [|done]. by apply (Hw p').
  - exists q. split; [by destruct Hok|]. destruct Haw as [Hr Hw]. split; cbn [sas sp]; intros p' [_ Hp']%lookup_delete_Some; eauto.
Qed.

(** C26: no wakeup is lost.  As long as a writer is found killed only where a
    part of its call begins, in every interleaving a process that sleeps for
    bytes has an empty pipe with its write end open before it, and a process
    that sleeps for space a full pipe with its read end open. *)
Theorem pipe_wakeups bs us ins outs s p :
  length bs = Z.to_nat PIPESIZE → psteps false (new_sys bs us) ins outs s →
  (sas s !! p = Some (nread_ch pi) → nread (sp s) = nwrite (sp s) ∧ writeopen (sp s) = true) ∧
  (sas s !! p = Some (nwrite_ch pi) → nwrite (sp s) = u32 (nread (sp s) + PIPESIZE) ∧ readopen (sp s) = true).
Proof using HL HF.
  intros Hl Hs. assert (∃ q, sys_ok s q ∧ awake_ok s q) as (q & Hok & Haw).
  { induction Hs as [|ins outs s i o s' _ (q & Hok & Haw) Hstep]; [|by eapply pstep_awake].
    exists []. split; [by apply new_sys_ok|]. by split; intros p' Hp'; simpl in Hp'; rewrite lookup_empty in Hp'. }
  destruct Haw as [Hr Hw]. pose proof (so_holds _ _ Hok) as Hq. split; intros Hp.
  - destruct (Hr p Hp) as [-> ?]. split; [|done]. pose proof (holds_empty _ _ Hq) as E. by apply Z.eqb_eq in E.
  - destruct (Hw p Hp) as [Hlq ?]. split; [|done]. rewrite (h_nwrite _ _ Hq). by rewrite Hlq.
Qed.

(** ** Progress *)

(** The writer [w] and the reader [r] take turns: whenever the writer sleeps, one
    call of the reader runs, after which the writer must be awake.  The result
    of the writer, what the reader got, and the pipe at the end. *)
Fixpoint transfer (fuel w r : nat) (addr i n raddr k : Z) (uw ur : U) (p : pipe) (a : gmap nat Z) : option (Z * list Z * pipe) :=
  match fuel with
  | O => None
  | S fuel =>
      match pipewrite_from pi w (λ _, false) addr i n (mkpst p a uw) with
      | Ok (Done x) s => Some (x, [], pip s)
      | Ok (Asleep _ i') s =>
          match piperead pi r false raddr k (mkpst (pip s) (asleep s) ur) with
          | Ok (Done c) t =>
              if asleep t !! w is Some _ then None else
              o ← transfer fuel w r addr i' n raddr k uw (pusr t) (pip t) (asleep t);
              Some (o.1.1, ubytes (pusr t) raddr (Z.to_nat c) ++ o.1.2, o.2)
          | _ => None
          end
      | Err _ => None
      end
  end.

(** The rounds that are left: one for each byte, and one when the pipe is full. *)
Definition rounds_left (n i : Z) (q : list Z) : nat :=
  Z.to_nat (n - i) + (if Z.of_nat (length q) =? PIPESIZE then 1 else 0).

(** A read into memory that is there takes what it can. *)
Lemma read_all r raddr k ur p a q :
  holds p q → plock p = false → q ≠ [] → 1 ≤ k → accessible ur raddr k →
  ∃ t bs, piperead pi r false raddr k (mkpst p a ur) = Ok (Done (Z.of_nat (length bs))) t ∧ bs = take (Z.to_nat k) q ∧
    q = bs ++ drop (length bs) q ∧ holds (pip t) (drop (length bs) q) ∧ plock (pip t) = false ∧ readopen (pip t) = readopen p ∧
    stored ur raddr bs (pusr t) ∧ asleep t = wake (nwrite_ch pi) a.
Proof using HL.
  intros Hq Hl Hne Hk Hr.
  destruct (piperead_run pi r false raddr k (mkpst p a ur) q Hq Hl (copies_out_accessible _ _ _ Hr)) as (y & t & bs & l & Hrun & Eq & Hq2 & Hl2 & [He2 _] & Hst & _ & Hrp).
  simpl in He2, Hst. destruct Hrp as [_ Ht Hcase| |]; [|done|done].
  destruct Hcase as [[-> Hbs]|(Hlen & Hlt & Hh)].
  - rewrite Nat.add_0_r in Eq, Hq2. by exists t, bs.
  - exfalso. revert Hh. eapply accessible_hole; [by eapply accessible_stored|]. lia.
Qed.

(** A write from memory that is there stops only when the pipe is full. *)
Lemma write_all w addr i n uw p a q :
  holds p q → plock p = false → readopen p = true → 0 ≤ i ≤ n → accessible uw addr n →
  ∃ r s m, pipewrite_from pi w (λ _, false) addr i n (mkpst p a uw) = Ok r s ∧ holds (pip s) (q ++ ubytes uw (addr + i) m) ∧
    plock (pip s) = false ∧ readopen (pip s) = true ∧ (m ≤ Z.to_nat (n - i))%nat ∧
    (r = Done n ∧ m = Z.to_nat (n - i) ∨
     r = Asleep (nwrite_ch pi) (i + Z.of_nat m) ∧ Z.of_nat (length q + m) = PIPESIZE ∧ asleep s = <[w := nwrite_ch pi]> (wake (nread_ch pi) a)).
Proof using HL.
  intros Hq Hl Hro Hi Hw. unfold pipewrite_from. runs acquire_pi_run by done. set (s1 := mkpst _ _ _).
  destruct (pipewrite_loop_run pi w (λ _, false) addr i (Z.to_nat (n - i)) s1 q) as (x & s & m & Hrun & Hm & Hq' & Hl' & [He _] & Hu & _ & Hpart & _);
    [by apply holds_lock|done|apply (copies_in_accessible uw addr n); [done|lia|lia]|]. simpl in He, Hq'. rewrite Hrun. exists x, s, m. split_and!; try done; [congruence|].
  destruct Hpart as [Em _|Hmk _ Hh _|_ [[? _]|]|Hfull _ Hmk _ Ha]; [| |simpl in *; congruence|done|].
  - left. split; [f_equal; lia|done].
  - exfalso. revert Hh. replace (addr + i + Z.of_nat m) with (addr + (i + Z.of_nat m)) by lia. apply (accessible_hole uw addr n); [done|lia].
  - right. split_and!; [done| |done]. pose proof (holds_full _ _ Hq') as Hfq. rewrite Hfull, Z.eqb_refl in Hfq. symmetry in Hfq.
    apply Z.eqb_eq in Hfq. by rewrite length_app, length_ubytes in Hfq.
Qed.

Lemma transfer_run f w r addr i n raddr k uw ur p a q :
  holds p q → plock p = false → readopen p = true → 0 ≤ i ≤ n → accessible uw addr n → 1 ≤ k → accessible ur raddr k →
  (rounds_left n i q < f)%nat →
  ∃ got p' q', transfer f w r addr i n raddr k uw ur p a = Some (n, got, p') ∧
    holds p' q' ∧ got ++ q' = q ++ ubytes uw (addr + i) (Z.to_nat (n - i)).
Proof using HL.
  intros Hq Hl Hro Hi Hw Hk Hr. revert i ur p a q Hq Hl Hro Hr Hi. induction f as [|f IH]; intros i ur p a q Hq Hl Hro Hr Hi Hf; [lia|]. cbn [transfer].
  destruct (write_all w addr i n uw p a q Hq Hl Hro Hi Hw) as (x & s & m & Hrun & Hq' & Hl' & Hro' & Hm & [[-> ->]|(-> & Hfq & Ha)]); rewrite Hrun.
  { by eexists [], _, _. }
  destruct (read_all r raddr k ur (pip s) (asleep s) (q ++ ubytes uw (addr + i) m)) as (t & bs & Hrun2 & Hbs & Eq & Hq2 & Hl2 & Hro2 & Hst & Ht);
    [done|done|intros E; apply (f_equal length) in E; rewrite length_app, length_ubytes in E; unfold PIPESIZE in *; simpl in E; lia|done|done|].
  rewrite Hrun2. assert (asleep t !! w = None) as ->.
  { rewrite Ht. destruct (wake (nwrite_ch pi) (asleep s) !! w) as [c|] eqn:E; [|done]. apply wake_lookup in E as [E Hc].
    rewrite Ha, lookup_insert_eq in E. congruence. }
  pose proof (h_fits _ _ Hq') as Hf1. rewrite length_app, length_ubytes in Hf1. pose proof (f_equal length Eq) as El. rewrite !length_app, length_ubytes in El.
  assert (Z.of_nat (length bs) < 2 ^ 64) as Hlb by (unfold PIPESIZE in *; lia). rewrite Nat2Z.id, (stored_ubytes _ _ _ _ Hlb Hst).
  assert (0 < length bs)%nat as Hpos by (rewrite Hbs, length_take, length_app, length_ubytes; unfold PIPESIZE in *; lia).
  destruct (IH (i + Z.of_nat m) (pusr t) (pip t) (asleep t) (drop (length bs) (q ++ ubytes uw (addr + i) m))) as (got & p' & q' & Hrec & Hqf & Egot);
    [done|done|congruence|by eapply accessible_stored|lia| |].
  { unfold rounds_left, PIPESIZE in *. rewrite length_drop, length_app, length_ubytes. destruct (Z.eqb_spec (Z.of_nat (length q + m - length bs)) 512); [lia|].
    destruct (Z.eqb_spec (Z.of_nat (length q)) 512); lia. }
  rewrite Hrec. eexists _, _, _. split; [reflexivity|]. split; [exact Hqf|]. cbn [fst snd]. rewrite <- (assoc_L (++)), Egot, (assoc_L (++)), <- Eq.
  rewrite <- (assoc_L (++)), Z.add_assoc. f_equal. replace (Z.to_nat (n - i)) with (m + Z.to_nat (n - (i + Z.of_nat m)))%nat by lia. symmetry. apply ubytes_app.
Qed.

(** C27: a write gets through.  With the read end open and a reader that asks
    for [k] >= 1 bytes whenever the writer sleeps, [pipewrite] of [n] bytes
    returns [n] after at most [n + 1] reads: each read wakes the writer and
    makes room.  What the reader got and what is left in the pipe are what was
    in it before, then the [n] bytes. *)
Theorem pipe_progress w r addr n raddr k uw ur p a q :
  holds p q → plock p = false → readopen p = true → 0 ≤ n → accessible uw addr n → 1 ≤ k → accessible ur raddr k →
  ∃ got p' q', transfer (Z.to_nat n + 2) w r addr 0 n raddr k uw ur p a = Some (n, got, p') ∧
    holds p' q' ∧ got ++ q' = q ++ ubytes uw addr (Z.to_nat n).
Proof using HL.
  intros Hq Hl Hro Hn Hw Hk Hr. destruct (transfer_run (Z.to_nat n + 2) w r addr 0 n raddr k uw ur p a q) as (got & p' & q' & Hrun & Hq' & E); try done.
  - unfold rounds_left. rewrite Z.sub_0_r. destruct (_ =? _); lia.
  - rewrite Z.add_0_r, Z.sub_0_r in E. by exists got, p', q'.
Qed.

(** ** Lost wakeups *)

(** C38: the exception to the above.  A writer that is found killed after it
    has put [m] bytes into a pipe on which processes sleep for bytes, and before
    it has filled it, returns -1 without waking anybody: the readers sleep on,
    although the [m] bytes are there for them. *)
Theorem pipe_lost_wakeup w r addr n killed (m : nat) u p a :
  holds p [] → plock p = false → readopen p = true → a !! r = Some (nread_ch pi) →
  (0 < m)%nat → Z.of_nat m < n → Z.of_nat m ≤ PIPESIZE → accessible u addr (Z.of_nat m) →
  (∀ j, 0 ≤ j < Z.of_nat m → killed j = false) → killed (Z.of_nat m) = true →
  ∃ t, pipewrite pi w killed addr n (mkpst p a u) = Ok (Done (-1)) t ∧ asleep t = a ∧ asleep t !! r = Some (nread_ch pi) ∧
    holds (pip t) (ubytes u addr m) ∧ nread (pip t) ≠ nwrite (pip t).
Proof using HL HF.
  intros Hq Hl Hro Hr Hm Hmn Hms Hacc Hk Hkm. unfold pipewrite, pipewrite_from. runs acquire_pi_run by done. set (s1 := mkpst _ _ _).
  destruct (pipewrite_loop_run pi w killed addr 0 (Z.to_nat (n - 0)) s1 []) as (x & s & m' & Hrun & Hm' & Hq' & Hl' & _ & _ & Hn & Hpart & Hkj);
    [by apply holds_lock|done|apply copies_in_faults|]. simpl in Hq'. rewrite Z.add_0_r in Hq'. rewrite Hrun.
  assert (m' ≤ m)%nat as Hle. { destruct (decide (m' ≤ m)%nat); [done|]. rewrite Hkj in Hkm by lia. done. }
  assert ((m' < m)%nat → killed (0 + Z.of_nat m') = false) as Hlt by (intros; apply Hk; lia).
  destruct Hpart as [Em _|Hmk Hkf Hh _|Ha Hwhy|Hfull _ Hmk Hkf Ha].
  - lia.
  - exfalso. destruct (decide (m' = m)) as [->|]; [by rewrite Z.add_0_l, Hkm in Hkf|].
    revert Hh. rewrite Z.add_0_r. apply (accessible_hole u addr (Z.of_nat m)); [done|lia].
  - assert (m' = m) as ->. { destruct Hwhy as [[? _]|Hkt]; [simpl in *; congruence|]. destruct (decide (m' = m)); [done|]. rewrite Hlt in Hkt by lia. done. }
    simpl in Ha. exists s. split_and!; [done|done|by rewrite Ha|done|].
    rewrite (h_nwrite _ _ Hq'), length_ubytes. pose proof (h_nread _ _ Hq'). unfold wrap, PIPESIZE in *. dlia.
  - exfalso. destruct (decide (m' = m)) as [->|]; [by rewrite Z.add_0_l, Hkm in Hkf|].
    pose proof (holds_full _ _ Hq') as Hfq. rewrite Hfull, Z.eqb_refl, length_ubytes in Hfq. symmetry in Hfq. apply Z.eqb_eq in Hfq. lia.
Qed.
End system.

(** ** A pipe between two processes *)

Module PipeWitness.
Import FsWitness.

#[export] Instance ufaults : UserFaults (gmap Z Z).
Proof.
  split.
  - intros u va b Hu. simpl in *. unfold uget. simpl. by rewrite Z.add_0_r, Hu.
  - intros u va Hu. exists []. simpl in *. unfold uget. change (Z.to_nat 1) with 1%nat. simpl. by rewrite Z.add_0_r, Hu.
Qed.

Definition page : list Z := replicate 512 170.
Definition writer : gmap Z Z := {[100 := 7; 101 := 8]}.
Definition reader : gmap Z Z := {[200 := 0]}.
Definition users : gmap nat (gmap Z Z) := {[1%nat := writer; 2%nat := reader]}.
Definition sys0 : psys := new_sys page users.

(** The steps as functions. *)
Definition call (p : nat) (c : pcall) (s : psys (U := gmap Z Z)) : psys :=
  mkpsys (sp s) (sas s) (alter (λ x, (c, x.2)) p (spr s)).
Definition run_write (p : nat) (addr i n : Z) (s : psys (U := gmap Z Z)) : option (pres * pst (gmap Z Z)) :=
  match spr s !! p, sas s !! p with
  | Some (Writing a j m, u), None =>
      if (a =? addr) && (j =? i) && (m =? n) then
        match pipewrite_from 4096 p (λ _, false) addr i n (mkpst (sp s) (sas s) u) with Ok r t => Some (r, t) | Err _ => None end
      else None
  | _, _ => None
  end.
Definition run_read (p : nat) (addr n : Z) (s : psys (U := gmap Z Z)) : option (pres * pst (gmap Z Z)) :=
  match spr s !! p, sas s !! p with
  | Some (Reading a m, u), None =>
      if (a =? addr) && (m =? n) then
        match piperead 4096 p false addr n (mkpst (sp s) (sas s) u) with Ok r t => Some (r, t) | Err _ => None end
      else None
  | _, _ => None
  end.
Definition after (p : nat) (c : pcall) (x : option (pres * pst (gmap Z Z))) (s : psys (U := gmap Z Z)) : psys :=
  match x with
  | Some (r, t) => mkpsys (pip t) (asleep t) (<[p := (next_call c r, pusr t)]> (spr s))
  | None => s
  end.
Definition memory (p : nat) (s : psys (U := gmap Z Z)) : gmap Z Z := from_option snd ∅ (spr s !! p).

Lemma step_write a ins outs s0 s p addr i n bs r t :
  psteps 4096 a s0 ins outs s → run_write p addr i n s = Some (r, t) →
  bs = ubytes (memory p s) (addr + i) (Z.to_nat (u32 (nwrite (pip t) - nwrite (sp s)))) →
  psteps 4096 a s0 (ins ++ bs) outs (after p (Writing addr i n) (Some (r, t)) s).
Proof.
  intros Hs Hr ->. unfold run_write, memory in *. rewrite <- (app_nil_r outs). destruct (spr s !! p) as [[[|a' j m|] u]|] eqn:Ep; try done.
  destruct (sas s !! p) eqn:Ea; [done|]. destruct ((a' =? addr) && (j =? i) && (m =? n)) eqn:Eb; [|done].
  apply andb_prop in Eb as [[->%Z.eqb_eq ->%Z.eqb_eq]%andb_prop ->%Z.eqb_eq].
  destruct (pipewrite_from _ _ _ _ _ _ _) as [r' t'|] eqn:E; [|done]. injection Hr as -> ->. eapply pss_snoc; [exact Hs|].
  simpl. eapply ps_write; [exact Ep|exact Ea| |exact E]. by right.
Qed.

Lemma step_read a ins outs s0 s p addr n x r t :
  psteps 4096 a s0 ins outs s → run_read p addr n s = Some (r, t) → x = take_of (sp s) (pip t) addr (pusr t) r →
  psteps 4096 a s0 ins (outs ++ [x]) (after p (Reading addr n) (Some (r, t)) s).
Proof.
  intros Hs Hr ->. unfold run_read in *. rewrite <- (app_nil_r ins). destruct (spr s !! p) as [[[| |a' m] u]|] eqn:Ep; try done.
  destruct (sas s !! p) eqn:Ea; [done|]. destruct ((a' =? addr) && (m =? n)) eqn:Eb; [|done]. apply andb_prop in Eb as [->%Z.eqb_eq ->%Z.eqb_eq].
  destruct (piperead _ _ _ _ _ _) as [r' t'|] eqn:E; [|done]. injection Hr as -> ->. eapply pss_snoc; [exact Hs|].
  simpl. by eapply ps_read.
Qed.

Lemma step_call a ins outs s0 s p c :
  psteps 4096 a s0 ins outs s → fst <$> spr s !! p = Some Outside → match c with Writing _ i _ => i = 0 | _ => True end →
  psteps 4096 a s0 ins outs (call p c s).
Proof.
  intros Hs Hp Hi. unfold call. rewrite <- (app_nil_r ins), <- (app_nil_r outs). destruct (spr s !! p) as [[c' u]|] eqn:Ep; [|done]. simpl in *. injection Hp as ->.
  eapply pss_snoc; [exact Hs|]. assert (alter (λ x, (c, x.2)) p (spr s) = <[p := (c, u)]> (spr s)) as ->.
  { apply map_eq. intros q. destruct (decide (q = p)) as [->|]; [by rewrite lookup_alter_eq, lookup_insert_eq, Ep|by rewrite lookup_alter_ne, lookup_insert_ne by done]. }
  by apply ps_call.
Qed.

(** The reader calls and sleeps; the writer calls and writes 7 and 8; the
    reader, woken, takes both bytes, but has room for one only. *)
Definition s1 : psys := call 2 (Reading 200 2) sys0.
Definition s2 : psys := call 1 (Writing 100 0 2) (after 2 (Reading 200 2) (run_read 2 200 2 s1) s1).
Definition s3 : psys := after 1 (Writing 100 0 2) (run_write 1 100 0 2 s2) s2.
Definition s4 : psys := after 2 (Reading 200 2) (run_read 2 200 2 s3) s3.
Definition idle : taken := mktaken [] [] false.
Definition torn : taken := mktaken [7] [8] true.

(** A computed result, as a pair. *)
Lemma some_pair {A B} (o : option (A * B)) : bool_decide (is_Some o) = true → ∃ a b, o = Some (a, b).
Proof. intros H%bool_decide_eq_true. destruct H as [[a b] ->]. by exists a, b. Qed.

Lemma s2_steps a : psteps 4096 a sys0 [] [idle] s2.
Proof.
  unfold s2. apply step_call; [|vm_compute; reflexivity|reflexivity].
  destruct (some_pair (run_read 2 200 2 s1)) as (r & t & E); [vm_compute; reflexivity|]. rewrite E.
  apply (step_read a [] [] _ _ _ _ _ idle); [|exact E|].
  - apply step_call; [apply pss_nil|vm_compute; reflexivity|exact I].
  - assert (Some idle = (λ x, take_of (sp s1) (pip x.2) 200 (pusr x.2) x.1) <$> run_read 2 200 2 s1) as E' by (vm_compute; reflexivity).
    rewrite E in E'. by apply (inj Some) in E'.
Qed.

Lemma s4_steps : psteps 4096 true sys0 [7; 8] [idle; torn] s4.
Proof.
  unfold s4. destruct (some_pair (run_read 2 200 2 s3)) as (r & t & E); [vm_compute; reflexivity|]. rewrite E.
  apply (step_read true [7; 8] [idle] _ _ _ _ _ torn); [|exact E|].
  - unfold s3. destruct (some_pair (run_write 1 100 0 2 s2)) as (r' & t' & Ew); [vm_compute; reflexivity|]. rewrite Ew.
    apply (step_write true [] [idle] _ _ _ _ _ _ [7; 8]); [apply s2_steps|exact Ew|].
    assert (Some [7; 8] = (λ x, ubytes (memory 1 s2) (100 + 0) (Z.to_nat (u32 (nwrite (pip x.2) - nwrite (sp s2))))) <$> run_write 1 100 0 2 s2) as E' by (vm_compute; reflexivity).
    rewrite Ew in E'. by apply (inj Some) in E'.
  - assert (Some torn = (λ x, take_of (sp s3) (pip x.2) 200 (pusr x.2) x.1) <$> run_read 2 200 2 s3) as E' by (vm_compute; reflexivity).
    rewrite E in E'. by apply (inj Some) in E'.
Qed.

Lemma pipe_fifo_witness :
  psteps 4096 true sys0 [7; 8] [idle; torn] s4 ∧ ∃ q, [7; 8] = out_bytes [idle; torn] ++ q ∧ holds (sp s4) q ∧ Forall loss_ok [idle; torn].
Proof. split; [exact s4_steps|]. apply (pipe_fifo 4096 page users [7; 8] [idle; torn] s4); [reflexivity|exact s4_steps]. Defined.

(** Before the write the reader sleeps on an empty pipe. *)
Lemma pipe_wakeups_witness : sas s2 !! 2%nat = Some (nread_ch 4096) ∧ nread (sp s2) = nwrite (sp s2) ∧ writeopen (sp s2) = true.
Proof.
  split; [vm_compute; reflexivity|].
  apply (pipe_wakeups 4096 page users [] [idle] s2 2); [reflexivity|apply s2_steps|vm_compute; reflexivity].
Defined.

Lemma accessible_one (u : gmap Z Z) a : is_Some (u !! a) → 0 ≤ a < 1000 → accessible u a 1.
Proof. intros H0 Ha. split_and!; [lia|lia|]. intros j Hj. simpl. by replace (a + j) with a by lia. Qed.

Lemma writer_ok : accessible writer 100 2.
Proof. split_and!; [lia|lia|]. intros j Hj. simpl. assert (j = 0 ∨ j = 1) as [-> | ->] by lia; by eexists. Qed.

Lemma pipe_progress_witness :
  ∃ got p' q', transfer 4096 4 1 2 100 0 2 200 1 writer reader (new_pipe page) ∅ = Some (2, got, p') ∧ holds p' q' ∧
    got ++ q' = [] ++ ubytes writer 100 2.
Proof.
  apply (pipe_progress 4096 1 2 100 2 200 1 writer reader (new_pipe page) ∅ []); try reflexivity; try lia.
  - exact (so_holds _ _ (new_sys_ok page users eq_refl)).
  - exact writer_ok.
  - apply accessible_one; [by eexists|lia].
Defined.

(** The writer of two bytes is killed after the first. *)
Lemma pipe_lost_wakeup_witness :
  ∃ t, pipewrite 4096 1 (λ j, j =? 1) 100 2 (mkpst (sp s2) (sas s2) writer) = Ok (Done (-1)) t ∧ asleep t !! 2%nat = Some (nread_ch 4096) ∧
    holds (pip t) (ubytes writer 100 1) ∧ nread (pip t) ≠ nwrite (pip t).
Proof.
  destruct (pipe_lost_wakeup 4096 1 2 100 2 (λ j, j =? 1) 1 writer (sp s2) (sas s2)) as (t & Hrun & _ & Ha & Hq & Hne).
  - destruct (psteps_queue 4096 true page users [] [idle] s2 eq_refl (s2_steps true)) as (q & [Hq _] & E & _). simpl in E. by subst q.
  - vm_compute. reflexivity.
  - vm_compute. reflexivity.
  - vm_compute. reflexivity.
  - lia.
  - done.
  - done.
  - apply accessible_one; [by eexists|lia].
  - intros j Hj. by replace j with 0 by (simpl in Hj; lia).
  - done.
  - by exists t.
Defined.
End PipeWitness.
