(* ===== verification/File.v ===== *)
(** * kernel/file.c: open files

    The table of open files, on top of inodes, pipes and devices; and
    [pipealloc] of kernel/pipe.c.  A file pointer is an index into
    [ftable.file]; a pipe pointer is the address of its page. *)
From S2P Require Import Prelude Param Mem Sleeplock Block Bio Log Fs Pipe.

#[local] Open Scope Z_scope.

(** kernel/param.h *)
Definition NFILE : nat := 100.
Definition NDEV : Z := 10.

(** struct file, kernel/file.h *)
Inductive fdtype := FD_NONE | FD_PIPE | FD_INODE | FD_DEVICE.
Record file := mkfile {
  ftype : fdtype; fref : Z; freadable : bool; fwritable : bool; fpipe : Z; fip : nat; foff : Z; fmajor : Z }.

#[export] Instance fdtype_eq_dec : EqDecision fdtype.
Proof. solve_decision. Defined.

Definition set_ftype v f := mkfile v (fref f) (freadable f) (fwritable f) (fpipe f) (fip f) (foff f) (fmajor f).
Definition set_fref v f := mkfile (ftype f) v (freadable f) (fwritable f) (fpipe f) (fip f) (foff f) (fmajor f).
Definition set_foff v f := mkfile (ftype f) (fref f) (freadable f) (fwritable f) (fpipe f) (fip f) v (fmajor f).

(** kernel/kalloc.c as this file uses it: a page or 0; giving it back. *)
Class Pages (G : Type) := { palloc : M G Z; pfree : Z → M G unit }.

(** [ftlk] tells whether [ftable.lock] is held, [fasleep] which processes sleep
    in a pipe, [fkilled] whether the running process was killed. *)
Record fst_ (U G : Type) := mkft {
  ffs : fsst U; fpages : G; ftlk : bool; ftab : list file; fpipes : gmap Z pipe; fasleep : gmap nat Z; fkilled : bool }.
Arguments mkft {U G}.
Arguments ffs {U G}.
Arguments fpages {U G}.
Arguments ftlk {U G}.
Arguments ftab {U G}.
Arguments fpipes {U G}.
Arguments fasleep {U G}.
Arguments fkilled {U G}.

Section code.
Context {U G : Type} `{UserMem U, Pages G, Running}.
Abbreviation T A := (M (fst_ U G) A).

(** devsw[major].read and .write, where they are set. *)
Context (devread devwrite : Z → option (Z → Z → M U Z)).

Definition fs_op {A} (m : M (fsst U) A) : T A :=
  zoom ffs (λ x s, mkft x (fpages s) (ftlk s) (ftab s) (fpipes s) (fasleep s) (fkilled s)) m.
Definition page_op {A} (m : M G A) : T A :=
  zoom fpages (λ x s, mkft (ffs s) x (ftlk s) (ftab s) (fpipes s) (fasleep s) (fkilled s)) m.
Definition set_fpipes (f : gmap Z pipe → gmap Z pipe) : T unit :=
  modify (λ s, mkft (ffs s) (fpages s) (ftlk s) (ftab s) (f (fpipes s)) (fasleep s) (fkilled s)).

(** A function of pipe.c on the pipe at [pi]. *)
Definition pipe_op {A} (pi : Z) (m : M (pst U) A) : T A := λ s,
  match fpipes s !! pi with
  | None => Err (Fault pi)
  | Some p =>
      match m (mkpst p (fasleep s) (fuser (ffs s))) with
      | Ok a t =>
          let x := ffs s in
          Ok a (mkft (mkfs (flg x) (fsb x) (itlk x) (itab x) (fcwd x) (pusr t)) (fpages s) (ftlk s) (ftab s)
                     (<[pi := pip t]> (fpipes s)) (asleep t) (fkilled s))
      | Err e => Err e
      end
  end.

Definition ft_acquire : T unit :=
  l ← gets ftlk; when l (fail (Panic "acquire"));;
  modify (λ s, mkft (ffs s) (fpages s) true (ftab s) (fpipes s) (fasleep s) (fkilled s)).
Definition ft_release : T unit :=
  l ← gets ftlk; when (negb l) (fail (Panic "release"));;
  modify (λ s, mkft (ffs s) (fpages s) false (ftab s) (fpipes s) (fasleep s) (fkilled s)).

(** *f *)
Definition getf (f : nat) : T file :=
  r ← gets (λ s, ftab s !! f);
  match r with Some x => mret x | None => fail (Undef "file") end.
Definition setf (f : nat) (g : file → file) : T unit :=
  x ← getf f;
  modify (λ s, mkft (ffs s) (fpages s) (ftlk s) (<[f := g x]> (ftab s)) (fpipes s) (fasleep s) (fkilled s)).

Definition fileinit : T unit :=
  modify (λ s, mkft (ffs s) (fpages s) false (ftab s) (fpipes s) (fasleep s) (fkilled s)).

(** The loop of [filealloc]: the first entry without references. *)
Fixpoint first_unused (l : list file) (k : nat) : option nat :=
  match l with
  | [] => None
  | f :: l => if fref f =? 0 then Some k else first_unused l (S k)
  end.

Definition filealloc : T (option nat) :=
  ft_acquire;;
  tab ← gets ftab;
  match first_unused tab 0 with
  | Some f => setf f (set_fref 1);; ft_release;; mret (Some f)
  | None => ft_release;; mret None
  end.

Definition filedup (f : nat) : T nat :=
  ft_acquire;;
  x ← getf f;
  when (fref x <? 1) (fail (Panic "filedup"));;
  setf f (λ x, set_fref (fref x + 1) x);;
  ft_release;;
  mret f.

(** [pipeclose] with its [kfree]. *)
Definition pipeclose_free (pi : Z) (writable : bool) : T unit :=
  last ← pipe_op pi (pipeclose pi writable);
  when last (set_fpipes (delete pi);; page_op (pfree pi)).

Definition fileclose (f : nat) : T unit :=
  ft_acquire;;
  x ← getf f;
  when (fref x <? 1) (fail (Panic "fileclose"));;
  setf f (λ x, set_fref (fref x - 1) x);;
  if 0 <? fref x - 1 then ft_release else
  ff ← getf f;
  setf f (λ x, set_ftype FD_NONE (set_fref 0 x));;
  ft_release;;
  match ftype ff with
  | FD_PIPE => pipeclose_free (fpipe ff) (fwritable ff)
  | FD_INODE | FD_DEVICE =>
      fs_op (log_op begin_op);;
      fs_op (iput (fip ff));;
      fs_op (log_op end_op)
  | FD_NONE => mret ()
  end.

(** struct stat in memory; the four bytes of padding before [size] are what was
    on the kernel's stack. *)
Definition stat_bytes (pad : list Z) (st : stat) : list Z :=
  le_split 4 (st_dev st) ++ le_split 4 (st_ino st) ++ le_split 2 (st_type st) ++ le_split 2 (st_nlink st) ++
  pad ++ le_split 8 (st_size st).

Definition filestat (pad : list Z) (f : nat) (addr : Z) : T Z :=
  x ← getf f;
  match ftype x with
  | FD_INODE | FD_DEVICE =>
      fs_op (ilock (fip x));;
      st ← fs_op (stati (fip x));
      fs_op (iunlock (fip x));;
      r ← fs_op (user_op (ucopyout addr (stat_bytes pad st)));
      mret (if r <? 0 then -1 else 0)
  | _ => mret (-1)
  end.

(** A call of pipe.c that must not sleep in this run. *)
Definition pipe_wait (pi : Z) (m : M (pst U) pres) : T Z :=
  r ← pipe_op pi m;
  match r with Done x => mret x | Asleep ch _ => fail (Sleeping ch) end.

Definition fileread (f : nat) (addr n : Z) : T Z :=
  x ← getf f;
  if negb (freadable x) then mret (-1) else
  match ftype x with
  | FD_PIPE =>
      k ← gets fkilled;
      pipe_wait (fpipe x) (piperead (fpipe x) (Z.to_nat mypid) k addr n)
  | FD_DEVICE =>
      if (fmajor x <? 0) || (NDEV <=? fmajor x) then mret (-1) else
      match devread (fmajor x) with
      | None => mret (-1)
      | Some rd => fs_op (user_op (rd addr n))
      end
  | FD_INODE =>
      fs_op (ilock (fip x));;
      r ← fs_op (readi (fip x) (Some addr) (foff x) (u32 n));
      when (0 <? r.1) (setf f (λ x, set_foff (u32 (foff x + r.1)) x));;
      fs_op (iunlock (fip x));;
      mret (r.1)
  | FD_NONE => fail (Panic "fileread")
  end.

(** int max = ((MAXOPBLOCKS-1-1-2) / 2) * BSIZE *)
Definition write_max : Z := (MAXOPBLOCKS - 1 - 1 - 2) / 2 * BSIZE.

(** The loop of [filewrite]; every round but the last writes [write_max] bytes. *)
Fixpoint filewrite_loop (fuel f : nat) (addr i n : Z) : T Z :=
  match fuel with
  | O => fail NoFuel
  | S fuel =>
      if i <? n then
        let n1 := if write_max <? n - i then write_max else n - i in
        fs_op (log_op begin_op);;
        x ← getf f;
        fs_op (ilock (fip x));;
        r ← fs_op (writei (fip x) (UserSrc (u64 (addr + i))) (foff x) n1);
        when (0 <? r) (setf f (λ x, set_foff (u32 (foff x + r)) x));;
        fs_op (iunlock (fip x));;
        fs_op (log_op end_op);;
        if negb (r =? n1) then mret i else filewrite_loop fuel f addr (i + r) n
      else mret i
  end.

Definition filewrite (f : nat) (addr n : Z) : T Z :=
  x ← getf f;
  if negb (fwritable x) then mret (-1) else
  match ftype x with
  | FD_PIPE =>
      k ← gets fkilled;
      pipe_wait (fpipe x) (pipewrite (fpipe x) (Z.to_nat mypid) (λ _, k) addr n)
  | FD_DEVICE =>
      if (fmajor x <? 0) || (NDEV <=? fmajor x) then mret (-1) else
      match devwrite (fmajor x) with
      | None => mret (-1)
      | Some wr => fs_op (user_op (wr addr n))
      end
  | FD_INODE =>
      i ← filewrite_loop (Z.to_nat (Z.max 0 n / write_max + 2)) f addr 0 n;
      mret (if i =? n then n else -1)
  | FD_NONE => fail (Panic "filewrite")
  end.

(** ** pipealloc, kernel/pipe.c *)

(** The two ends; the data of the new pipe is what was in its page. *)
Definition pipealloc (junk : list Z) : T (option (nat * nat)) :=
  f0 ← filealloc;
  match f0 with
  | None => mret None
  | Some f0 =>
      f1 ← filealloc;
      match f1 with
      | None => fileclose f0;; mret None
      | Some f1 =>
          pi ← page_op palloc;
          if pi =? 0 then fileclose f0;; fileclose f1;; mret None else
          set_fpipes (<[pi := mkpipe false junk 0 0 true true]>);;
          setf f0 (λ x, mkfile FD_PIPE (fref x) true false pi (fip x) (foff x) (fmajor x));;
          setf f1 (λ x, mkfile FD_PIPE (fref x) false true pi (fip x) (foff x) (fmajor x));;
          mret (Some (f0, f1))
      end
  end.
End code.
