(* ===== verification/Sysfile.v ===== *)
(** * kernel/sysfile.c: the system calls on files

    The argument functions of kernel/syscall.c, the descriptor table of the
    running process, and the system calls that take descriptors and paths.  A
    string that was fetched is the list of its characters without the NUL. *)
From S2P Require Import Prelude Param Mem Sleeplock Block Bio Log Fs Pipe File.

#[local] Open Scope Z_scope.

(** [copyinstr] from the memory of the running process: 0 and the string up to
    its NUL, or -1. *)
Class UserStr (U : Type) := { ucopyinstr : Z → Z → M U (Z * list Z) }.

(** What the calls use of [myproc()]: the descriptors, the size of its memory,
    and the registers a0 .. a5 of its trap frame. *)
Record sysst (U G : Type) := mksys { sft : fst_ U G; sofile : list (option nat); ssz : Z; sargs : list Z }.
Arguments mksys {U G}.
Arguments sft {U G}.
Arguments sofile {U G}.
Arguments ssz {U G}.
Arguments sargs {U G}.

Section code.
Context {U G : Type} `{UserMem U, UserStr U, Pages G, Running}.
Context (devread devwrite : Z → option (Z → Z → M U Z)).
Abbreviation Y A := (M (sysst U G) A).

Definition ft_op {A} (m : M (fst_ U G) A) : Y A :=
  zoom sft (λ x s, mksys x (sofile s) (ssz s) (sargs s)) m.
Definition inode_op {A} (m : M (fsst U) A) : Y A := ft_op (fs_op m).
Definition copy_op {A} (m : M U A) : Y A := inode_op (user_op m).
Definition begin_op_ : Y unit := inode_op (log_op begin_op).
Definition end_op_ : Y unit := inode_op (log_op end_op).

(** ** Arguments, kernel/syscall.c *)

Definition fetchaddr (addr : Z) : Y (Z * Z) :=
  sz ← gets ssz;
  if (sz <=? addr) || (sz <? u64 (addr + 8)) then mret (-1, 0) else
  r ← copy_op (ucopyin addr 8);
  if negb (r.1 =? 0) then mret (-1, 0) else mret (0, le_combine (r.2)).

Definition fetchstr (addr max : Z) : Y (Z * list Z) :=
  r ← copy_op (ucopyinstr addr max);
  if r.1 <? 0 then mret (-1, []) else mret (Z.of_nat (length (r.2)), r.2).

Definition argraw (n : nat) : Y Z :=
  if (n <? 6)%nat then
    r ← gets (λ s, sargs s !! n);
    match r with Some a => mret a | None => fail (Undef "trapframe") end
  else fail (Panic "argraw").

Definition argint (n : nat) : Y Z := a ← argraw n; mret (s32 a).
Definition argaddr (n : nat) : Y Z := argraw n.
Definition argstr (n : nat) (max : Z) : Y (Z * list Z) := a ← argaddr n; fetchstr a max.

(** ** Descriptors *)

Definition set_ofile (fd : nat) (f : option nat) : Y unit :=
  modify (λ s, mksys (sft s) (<[fd := f]> (sofile s)) (ssz s) (sargs s)).

(** The descriptor and its file, or -1. *)
Definition argfd (n : nat) : Y (option (nat * nat)) :=
  fd ← argint n;
  if (fd <? 0) || (Z.of_nat NOFILE <=? fd) then mret None else
  r ← gets (λ s, sofile s !! Z.to_nat fd);
  match r with
  | Some (Some f) => mret (Some (Z.to_nat fd, f))
  | Some None => mret None
  | None => fail (Undef "ofile")
  end.

(** The first free descriptor. *)
Fixpoint first_free (l : list (option nat)) (k : nat) : option nat :=
  match l with
  | [] => None
  | None :: _ => Some k
  | Some _ :: l => first_free l (S k)
  end.

Definition fdalloc (f : nat) : Y Z :=
  l ← gets sofile;
  match first_free l 0 with
  | Some fd => set_ofile fd (Some f);; mret (Z.of_nat fd)
  | None => mret (-1)
  end.

Definition sys_dup : Y Z :=
  r ← argfd 0;
  match r with
  | None => mret (-1)
  | Some (_, f) =>
      fd ← fdalloc f;
      if fd <? 0 then mret (-1) else
      ft_op (filedup f);;
      mret fd
  end.

Definition sys_read : Y Z :=
  p ← argaddr 1;
  n ← argint 2;
  r ← argfd 0;
  match r with
  | None => mret (-1)
  | Some (_, f) => ft_op (fileread devread f p n)
  end.

Definition sys_write : Y Z :=
  p ← argaddr 1;
  n ← argint 2;
  r ← argfd 0;
  match r with
  | None => mret (-1)
  | Some (_, f) => ft_op (filewrite devwrite f p n)
  end.

Definition sys_close : Y Z :=
  r ← argfd 0;
  match r with
  | None => mret (-1)
  | Some (fd, f) =>
      set_ofile fd None;;
      ft_op (fileclose f);;
      mret 0
  end.

Definition sys_fstat (pad : list Z) : Y Z :=
  st ← argaddr 1;
  r ← argfd 0;
  match r with
  | None => mret (-1)
  | Some (_, f) => ft_op (filestat pad f st)
  end.

(** ** Paths *)

(** The buffer [name[DIRSIZ]]. *)
Definition name_buf : list Z := replicate DIRSIZ 0.

(** The label [bad] of [sys_link]. *)
Definition link_bad (ip : nat) : Y Z :=
  inode_op (ilock ip);;
  inode_op (seti ip (λ i, set_inlink (s16 (inlink i - 1)) i));;
  inode_op (iupdate ip);;
  inode_op (iunlockput ip);;
  end_op_;;
  mret (-1).

Definition sys_link : Y Z :=
  old ← argstr 0 MAXPATH;
  if old.1 <? 0 then mret (-1) else
  new ← argstr 1 MAXPATH;
  if new.1 <? 0 then mret (-1) else
  begin_op_;;
  r ← inode_op (namei (old.2));
  match r with
  | None => end_op_;; mret (-1)
  | Some ip =>
      inode_op (ilock ip);;
      i ← inode_op (geti ip);
      if itype i =? T_DIR then inode_op (iunlockput ip);; end_op_;; mret (-1) else
      inode_op (seti ip (λ i, set_inlink (s16 (inlink i + 1)) i));;
      inode_op (iupdate ip);;
      inode_op (iunlock ip);;
      r ← inode_op (nameiparent (new.2) name_buf);
      match r with
      | (None, _) => link_bad ip
      | (Some dp, name) =>
          inode_op (ilock dp);;
          d ← inode_op (geti dp);
          i ← inode_op (geti ip);
          x ← (if negb (idev d =? idev i) then mret (-1) else inode_op (dirlink dp name (inum i)));
          if x <? 0 then inode_op (iunlockput dp);; link_bad ip else
          inode_op (iunlockput dp);;
          inode_op (iput ip);;
          end_op_;;
          mret 0
      end
  end.

(** The loop of [isdirempty] over [n] entries from [off] on. *)
Fixpoint isdirempty_loop (dp : nat) (off : Z) (n : nat) : Y bool :=
  match n with
  | O => mret true
  | S n =>
      de ← inode_op (read_dirent dp off "isdirempty: readi");
      if negb (de_inum de =? 0) then mret false else isdirempty_loop dp (off + 16) n
  end.
Definition isdirempty (dp : nat) : Y bool :=
  i ← inode_op (geti dp);
  isdirempty_loop dp 32 (dirents (isize i - 32)).

(** The label [bad] of [sys_unlink]. *)
Definition unlink_bad (dp : nat) : Y Z :=
  inode_op (iunlockput dp);;
  end_op_;;
  mret (-1).

Definition sys_unlink : Y Z :=
  path ← argstr 0 MAXPATH;
  if path.1 <? 0 then mret (-1) else
  begin_op_;;
  r ← inode_op (nameiparent (path.2) name_buf);
  match r with
  | (None, _) => end_op_;; mret (-1)
  | (Some dp, name) =>
      inode_op (ilock dp);;
      if (namecmp name [46] =? 0) || (namecmp name [46; 46] =? 0) then unlink_bad dp else
      r ← inode_op (dirlookup dp name);
      match r with
      | None => unlink_bad dp
      | Some (ip, off) =>
          inode_op (ilock ip);;
          i ← inode_op (geti ip);
          when (inlink i <? 1) (fail (Panic "unlink: nlink < 1"));;
          busy ← (if itype i =? T_DIR then e ← isdirempty ip; mret (negb e) else mret false);
          if busy : bool then inode_op (iunlockput ip);; unlink_bad dp else
          x ← inode_op (writei dp (KernSrc (replicate DIRENT_SIZE 0)) off (Z.of_nat DIRENT_SIZE));
          when (negb (x =? Z.of_nat DIRENT_SIZE)) (fail (Panic "unlink: writei"));;
          when (itype i =? T_DIR) (
            inode_op (seti dp (λ i, set_inlink (s16 (inlink i - 1)) i));;
            inode_op (iupdate dp));;
          inode_op (iunlockput dp);;
          inode_op (seti ip (λ i, set_inlink (s16 (inlink i - 1)) i));;
          inode_op (iupdate ip);;
          inode_op (iunlockput ip);;
          end_op_;;
          mret 0
      end
  end.

(** The label [fail] of [create]. *)
Definition create_fail (ip dp : nat) : Y (option nat) :=
  inode_op (seti ip (set_inlink 0));;
  inode_op (iupdate ip);;
  inode_op (iunlockput ip);;
  inode_op (iunlockput dp);;
  mret None.

Definition create (path : list Z) (type major minor : Z) : Y (option nat) :=
  r ← inode_op (nameiparent path name_buf);
  match r with
  | (None, _) => mret None
  | (Some dp, name) =>
      inode_op (ilock dp);;
      r ← inode_op (dirlookup dp name);
      match r with
      | Some (ip, _) =>
          inode_op (iunlockput dp);;
          inode_op (ilock ip);;
          i ← inode_op (geti ip);
          if (type =? T_FILE) && ((itype i =? T_FILE) || (itype i =? T_DEVICE)) then mret (Some ip) else
          inode_op (iunlockput ip);;
          mret None
      | None =>
          d ← inode_op (geti dp);
          r ← inode_op (ialloc (idev d) type);
          match r with
          | None => inode_op (iunlockput dp);; mret None
          | Some ip =>
              inode_op (ilock ip);;
              inode_op (seti ip (λ i, set_inlink 1 (set_idevnos major minor i)));;
              inode_op (iupdate ip);;
              i ← inode_op (geti ip);
              d ← inode_op (geti dp);
              x ← (if type =? T_DIR then
                     x ← inode_op (dirlink ip [46] (inum i));
                     if x <? 0 then mret x else inode_op (dirlink ip [46; 46] (inum d))
                   else mret 0);
              if x <? 0 then create_fail ip dp else
              x ← inode_op (dirlink dp name (inum i));
              if x <? 0 then create_fail ip dp else
              when (type =? T_DIR) (
                inode_op (seti dp (λ i, set_inlink (s16 (inlink i + 1)) i));;
                inode_op (iupdate dp));;
              inode_op (iunlockput dp);;
              mret (Some ip)
          end
      end
  end.

(** The common ending of the failures of [sys_open] with a locked inode. *)
Definition open_bad (ip : nat) : Y Z :=
  inode_op (iunlockput ip);;
  end_op_;;
  mret (-1).

(** [sys_open] from [filealloc] on. *)
Definition open_file (ip : nat) (omode : Z) : Y Z :=
  i ← inode_op (geti ip);
  if (itype i =? T_DEVICE) && ((imajor i <? 0) || (NDEV <=? imajor i)) then open_bad ip else
  f ← ft_op filealloc;
  match f with
  | None => open_bad ip
  | Some f =>
      fd ← fdalloc f;
      if fd <? 0 then ft_op (fileclose f);; open_bad ip else
      let rd := Z.land omode O_WRONLY =? 0 in
      let wr := truth (Z.land omode O_WRONLY) || truth (Z.land omode O_RDWR) in
      ft_op (setf f (λ x,
        if itype i =? T_DEVICE then mkfile FD_DEVICE (fref x) rd wr (fpipe x) ip (foff x) (imajor i)
        else mkfile FD_INODE (fref x) rd wr (fpipe x) ip 0 (fmajor x)));;
      (if truth (Z.land omode O_TRUNC) && (itype i =? T_FILE) then inode_op (itrunc ip) else mret ());;
      inode_op (iunlock ip);;
      end_op_;;
      mret fd
  end.

Definition sys_open : Y Z :=
  omode ← argint 1;
  path ← argstr 0 MAXPATH;
  if path.1 <? 0 then mret (-1) else
  begin_op_;;
  if truth (Z.land omode O_CREATE) then
    r ← create (path.2) T_FILE 0 0;
    match r with
    | None => end_op_;; mret (-1)
    | Some ip => open_file ip omode
    end
  else
    r ← inode_op (namei (path.2));
    match r with
    | None => end_op_;; mret (-1)
    | Some ip =>
        inode_op (ilock ip);;
        i ← inode_op (geti ip);
        if (itype i =? T_DIR) && negb (omode =? O_RDONLY) then open_bad ip else
        open_file ip omode
    end.

(** The end of [sys_mkdir] and [sys_mknod]. *)
Definition make_done (r : option nat) : Y Z :=
  match r with
  | None => end_op_;; mret (-1)
  | Some ip => inode_op (iunlockput ip);; end_op_;; mret 0
  end.

Definition sys_mkdir : Y Z :=
  begin_op_;;
  path ← argstr 0 MAXPATH;
  r ← (if path.1 <? 0 then mret None else create (path.2) T_DIR 0 0);
  make_done r.

Definition sys_mknod : Y Z :=
  begin_op_;;
  major ← argint 1;
  minor ← argint 2;
  path ← argstr 0 MAXPATH;
  r ← (if path.1 <? 0 then mret None else create (path.2) T_DEVICE (s16 major) (s16 minor));
  make_done r.

Definition sys_chdir : Y Z :=
  begin_op_;;
  path ← argstr 0 MAXPATH;
  r ← (if path.1 <? 0 then mret None else inode_op (namei (path.2)));
  match r with
  | None => end_op_;; mret (-1)
  | Some ip =>
      inode_op (ilock ip);;
      i ← inode_op (geti ip);
      if negb (itype i =? T_DIR) then open_bad ip else
      inode_op (iunlock ip);;
      cwd ← inode_op (gets fcwd);
      inode_op (iput cwd);;
      end_op_;;
      inode_op (modify (λ s, mkfs (flg s) (fsb s) (itlk s) (itab s) ip (fuser s)));;
      mret 0
  end.

(** ** Pipes *)

Definition sys_pipe (junk : list Z) : Y Z :=
  fdarray ← argaddr 0;
  r ← ft_op (pipealloc junk);
  match r with
  | None => mret (-1)
  | Some (rf, wf) =>
      fd0 ← fdalloc rf;
      fd1 ← (if fd0 <? 0 then mret (-1) else fdalloc wf);
      if (fd0 <? 0) || (fd1 <? 0) then
        (if 0 <=? fd0 then set_ofile (Z.to_nat fd0) None else mret ());;
        ft_op (fileclose rf);;
        ft_op (fileclose wf);;
        mret (-1)
      else
        x ← copy_op (ucopyout fdarray (le_split 4 fd0));
        x ← (if x <? 0 then mret x else copy_op (ucopyout (u64 (fdarray + 4)) (le_split 4 fd1)));
        if x <? 0 then
          set_ofile (Z.to_nat fd0) None;;
          set_ofile (Z.to_nat fd1) None;;
          ft_op (fileclose rf);;
          ft_op (fileclose wf);;
          mret (-1)
        else mret 0
  end.
End code.
