(* ===== verification/Quiet.v ===== *)
(** * The panics below the file layer

    The buffer cache, the log and the file system have panics of their own; none
    of their functions ends in a panic of file.c. *)
From S2P Require Import Prelude Mem Sleeplock Block Bio Log Fs.

#[local] Open Scope Z_scope.

(** The panics of file.c. *)
Definition file_panic (e : err) : bool :=
  bool_decide (e ∈ [Panic "filedup"; Panic "fileclose"; Panic "fileread"; Panic "filewrite"]).

Definition quiet {S A} (m : M S A) : Prop := ∀ s e, m s = Err e → file_panic e = false.

Create HintDb quiet.
#[export] Hint Constants Opaque : quiet.

Section rules.
Context {S : Type}.
Implicit Types s : S.

Lemma quiet_ret {A} (a : A) : quiet (S := S) (mret a).
Proof. done. Qed.
Lemma quiet_gets {A} (f : S → A) : quiet (gets f).
Proof. done. Qed.
Lemma quiet_modify (f : S → S) : quiet (modify f).
Proof. done. Qed.
Lemma quiet_fail {A} e : file_panic e = false → quiet (S := S) (A := A) (fail e).
Proof. by intros He s e' [= <-]. Qed.
Lemma quiet_bind {A B} (m : M S A) (k : A → M S B) : quiet m → (∀ a, quiet (k a)) → quiet (m ≫= k).
Proof. intros Hm Hk s e. unfold mbind, M_bind. destruct (m s) as [a s'|e'] eqn:E; [apply Hk|]. intros [= <-]. by eapply Hm. Qed.
Lemma quiet_when b (m : M S unit) : quiet m → quiet (when b m).
Proof. by destruct b. Qed.
Lemma quiet_zoom {T A} (p : T → S) i (m : M S A) : quiet m → quiet (zoom p i m).
Proof. intros Hm s e. unfold zoom. destruct (m (p s)) eqn:E; [done|]. intros [= <-]. by eapply Hm. Qed.
End rules.

#[export] Hint Resolve quiet_ret quiet_gets quiet_modify quiet_when quiet_zoom : quiet.
#[export] Hint Extern 1 (quiet (fail _)) => apply quiet_fail; reflexivity : quiet.

(** Taking the code apart down to functions that are known. *)
Ltac quiet_step :=
  first [solve [eauto 2 with quiet]
        |apply quiet_bind; [|intros ?]
        |apply quiet_when
        |case_match].
Ltac quiets := repeat quiet_step.

(** ** Buffer cache and log *)

Section io.
Context `{Running}.

Lemma quiet_acquiresleep {S} p c lk : quiet (S := S) (acquiresleep p c lk).
Proof. unfold acquiresleep. quiets. Qed.
Hint Resolve quiet_acquiresleep : quiet.
Lemma quiet_getb b : quiet (getb b).
Proof. unfold getb. quiets. Qed.
Hint Resolve quiet_getb : quiet.
Lemma quiet_setb b f : quiet (setb b f).
Proof. unfold setb. quiets. Qed.
Hint Resolve quiet_setb : quiet.
Lemma quiet_disk_rw b w : quiet (disk_rw b w).
Proof. unfold disk_rw. quiets. Qed.
Hint Resolve quiet_disk_rw : quiet.
Lemma quiet_bget_cached fuel b dv bno : quiet (bget_cached fuel b dv bno).
Proof. revert b; induction fuel; intros b; simpl; quiets. Qed.
Lemma quiet_bget_unused fuel b : quiet (bget_unused fuel b).
Proof. revert b; induction fuel; intros b; simpl; quiets. Qed.
Hint Resolve quiet_bget_cached quiet_bget_unused : quiet.
Lemma quiet_bread dv bno : quiet (bread dv bno).
Proof. unfold bread, bget, acquiresleep_buf, acquire, release. quiets. Qed.
Lemma quiet_bwrite b : quiet (bwrite b).
Proof. unfold bwrite. quiets. Qed.
Lemma quiet_brelse b : quiet (brelse b).
Proof. unfold brelse, brelse_move, acquire, release. quiets. Qed.
Lemma quiet_bpin b : quiet (bpin b).
Proof. unfold bpin, acquire, release. quiets. Qed.
Lemma quiet_bunpin b : quiet (bunpin b).
Proof. unfold bunpin, acquire, release. quiets. Qed.
Hint Resolve quiet_bread quiet_bwrite quiet_brelse quiet_bpin quiet_bunpin : quiet.

Lemma quiet_bio_op {A} (m : M bio A) : quiet m → quiet (bio_op m).
Proof. apply quiet_zoom. Qed.
Lemma quiet_getl {A} (f : logst → A) : quiet (getl f).
Proof. done. Qed.
Lemma quiet_setl f : quiet (setl f).
Proof. done. Qed.
Hint Resolve quiet_bio_op quiet_getl quiet_setl : quiet.
Lemma quiet_lh_get i : quiet (lh_get i).
Proof. unfold lh_get. quiets. Qed.
Lemma quiet_lh_set i b : quiet (lh_set i b).
Proof. unfold lh_set. quiets. Qed.
Hint Resolve quiet_lh_get quiet_lh_set : quiet.
Lemma quiet_install_loop r t n : quiet (install_loop r t n).
Proof. revert t; induction n; intros t; simpl; unfold install_block; quiets. Qed.
Lemma quiet_write_head_loop b i n : quiet (write_head_loop b i n).
Proof. revert i; induction n; intros i; simpl; quiets. Qed.
Lemma quiet_write_log_loop t n : quiet (write_log_loop t n).
Proof. revert t; induction n; intros t; simpl; unfold write_log_block; quiets. Qed.
Lemma quiet_log_find bno i n : quiet (log_find bno i n).
Proof. revert i; induction n; intros i; simpl; quiets. Qed.
Hint Resolve quiet_install_loop quiet_write_head_loop quiet_write_log_loop quiet_log_find : quiet.
Lemma quiet_commit : quiet commit.
Proof. unfold commit, write_log, write_head, install_trans. quiets. Qed.
Hint Resolve quiet_commit : quiet.
Lemma quiet_begin_op : quiet begin_op.
Proof. unfold begin_op, log_acquire, log_release. quiets. Qed.
Lemma quiet_end_op : quiet end_op.
Proof. unfold end_op, log_acquire, log_release. quiets. Qed.
Lemma quiet_log_write b : quiet (log_write b).
Proof. unfold log_write, log_acquire, log_release. quiets. Qed.
End io.

#[export] Hint Resolve quiet_acquiresleep quiet_getb quiet_setb quiet_bread quiet_brelse quiet_begin_op quiet_end_op quiet_log_write : quiet.

(** ** File system *)

Section fs.
Context {U : Type} `{UserMem U, Running}.
Context (Hout : ∀ va bs, quiet (ucopyout (U := U) va bs)) (Hin : ∀ va n, quiet (ucopyin (U := U) va n)).

Lemma quiet_log_op {A} (m : M lgst A) : quiet m → quiet (log_op (U := U) m).
Proof using. apply quiet_zoom. Qed.
Lemma quiet_buf_op {A} (m : M bio A) : quiet m → quiet (buf_op (U := U) m).
Proof using. intros. by apply quiet_zoom, quiet_zoom. Qed.
Lemma quiet_user_op {A} (m : M U A) : quiet m → quiet (user_op m).
Proof using. apply quiet_zoom. Qed.
Hint Resolve quiet_log_op quiet_buf_op quiet_user_op : quiet.
Lemma quiet_geti ip : quiet (geti (U := U) ip).
Proof using. unfold geti. quiets. Qed.
Hint Resolve quiet_geti : quiet.
Lemma quiet_seti ip f : quiet (seti (U := U) ip f).
Proof using. unfold seti. quiets. Qed.
Hint Resolve quiet_seti : quiet.
Lemma quiet_bzero dv b : quiet (bzero (U := U) dv b).
Proof using. unfold bzero. quiets. Qed.
Hint Resolve quiet_bzero : quiet.
Lemma quiet_balloc_loop dv b n : quiet (balloc_loop (U := U) dv b n).
Proof using. revert b; induction n; intros b; cbn [balloc_loop]; quiets. Qed.
Hint Resolve quiet_balloc_loop : quiet.
Lemma quiet_balloc dv : quiet (balloc (U := U) dv).
Proof using. unfold balloc. quiets. Qed.
Lemma quiet_bfree dv b : quiet (bfree (U := U) dv b).
Proof using. unfold bfree. quiets. Qed.
Hint Resolve quiet_balloc quiet_bfree : quiet.
Lemma quiet_iget dv ino : quiet (iget (U := U) dv ino).
Proof using. unfold iget, it_acquire, it_release. quiets. Qed.
Hint Resolve quiet_iget : quiet.
Lemma quiet_ialloc_loop dv ty i n : quiet (ialloc_loop (U := U) dv ty i n).
Proof using. revert i; induction n; intros i; cbn [ialloc_loop]; quiets. Qed.
Hint Resolve quiet_ialloc_loop : quiet.
Lemma quiet_ialloc dv ty : quiet (ialloc (U := U) dv ty).
Proof using. unfold ialloc. quiets. Qed.
Lemma quiet_iupdate ip : quiet (iupdate (U := U) ip).
Proof using. unfold iupdate. quiets. Qed.
Lemma quiet_idup ip : quiet (idup (U := U) ip).
Proof using. unfold idup, it_acquire, it_release. quiets. Qed.
Lemma quiet_ilock ip : quiet (ilock (U := U) ip).
Proof using. unfold ilock, acquiresleep_i. quiets. Qed.
Lemma quiet_iunlock ip : quiet (iunlock (U := U) ip).
Proof using. unfold iunlock. quiets. Qed.
Lemma quiet_get_iaddr ip k : quiet (get_iaddr (U := U) ip k).
Proof using. unfold get_iaddr. quiets. Qed.
Hint Resolve quiet_ialloc quiet_iupdate quiet_idup quiet_ilock quiet_iunlock quiet_get_iaddr : quiet.
Lemma quiet_bmap ip bn : quiet (bmap (U := U) ip bn).
Proof using. unfold bmap. quiets. Qed.
Hint Resolve quiet_bmap : quiet.
Lemma quiet_itrunc_direct ip k n : quiet (itrunc_direct (U := U) ip k n).
Proof using. revert k; induction n; intros k; cbn [itrunc_direct]; quiets. Qed.
Lemma quiet_itrunc_indirect ip bp j n : quiet (itrunc_indirect (U := U) ip bp j n).
Proof using. revert j; induction n; intros j; cbn [itrunc_indirect]; quiets. Qed.
Hint Resolve quiet_itrunc_direct quiet_itrunc_indirect : quiet.
Lemma quiet_itrunc ip : quiet (itrunc (U := U) ip).
Proof using. unfold itrunc. quiets. Qed.
Hint Resolve quiet_itrunc : quiet.
Lemma quiet_iput ip : quiet (iput (U := U) ip).
Proof using. unfold iput, it_acquire, it_release, acquiresleep_i. quiets. Qed.
Hint Resolve quiet_iput : quiet.
Lemma quiet_iunlockput ip : quiet (iunlockput (U := U) ip).
Proof using. unfold iunlockput. quiets. Qed.
Lemma quiet_stati ip : quiet (stati (U := U) ip).
Proof using. unfold stati. quiets. Qed.
Hint Resolve quiet_iunlockput : quiet.
Lemma quiet_readi_loop fuel ip dst t o n acc : quiet (readi_loop (U := U) fuel ip dst t o n acc).
Proof using Hout. revert dst t o acc; induction fuel; intros; cbn [readi_loop]; unfold either_copyout; quiets. Qed.
Lemma quiet_writei_loop fuel ip src t o n : quiet (writei_loop (U := U) fuel ip src t o n).
Proof using Hin. revert src t o; induction fuel; intros; cbn [writei_loop]; unfold either_copyin; quiets. Qed.
Hint Resolve quiet_readi_loop quiet_writei_loop : quiet.
Lemma quiet_readi ip dst o n : quiet (readi (U := U) ip dst o n).
Proof using Hout. unfold readi. quiets. Qed.
Lemma quiet_writei ip src o n : quiet (writei (U := U) ip src o n).
Proof using Hin. unfold writei. quiets. Qed.
Hint Resolve quiet_readi quiet_writei : quiet.
Lemma quiet_read_dirent dp o : ∀ msg, file_panic (Panic msg) = false → quiet (read_dirent (U := U) dp o msg).
Proof using Hout. intros msg Hm. unfold read_dirent. quiets. by apply quiet_fail. Qed.
Hint Resolve quiet_read_dirent : quiet.
Lemma quiet_dirlookup_loop dp nm o n : quiet (dirlookup_loop (U := U) dp nm o n).
Proof using Hout. revert o; induction n; intros; cbn [dirlookup_loop]; quiets. Qed.
Lemma quiet_dirlink_loop dp o n : quiet (dirlink_loop (U := U) dp o n).
Proof using Hout. revert o; induction n; intros; cbn [dirlink_loop]; quiets. Qed.
Hint Resolve quiet_dirlookup_loop quiet_dirlink_loop : quiet.
Lemma quiet_dirlookup dp nm : quiet (dirlookup (U := U) dp nm).
Proof using Hout. unfold dirlookup. quiets. Qed.
Hint Resolve quiet_dirlookup : quiet.
Lemma quiet_dirlink dp nm ino : quiet (dirlink (U := U) dp nm ino).
Proof using Hout Hin. unfold dirlink. quiets. Qed.
Lemma quiet_namex_loop fuel ip p b nm : quiet (namex_loop (U := U) fuel ip p b nm).
Proof using Hout. revert ip p nm; induction fuel; intros; cbn [namex_loop]; quiets. Qed.
Hint Resolve quiet_namex_loop : quiet.
Lemma quiet_namex p b nm : quiet (namex (U := U) p b nm).
Proof using Hout. unfold namex. quiets. Qed.
Hint Resolve quiet_namex : quiet.
Lemma quiet_namei p : quiet (namei (U := U) p).
Proof using Hout. unfold namei. quiets. Qed.
Lemma quiet_nameiparent p nm : quiet (nameiparent (U := U) p nm).
Proof using Hout. unfold nameiparent. quiets. Qed.
End fs.

#[export] Hint Resolve quiet_log_op quiet_buf_op quiet_user_op quiet_geti quiet_seti quiet_ialloc quiet_iupdate quiet_idup quiet_ilock
  quiet_iunlock quiet_itrunc quiet_iput quiet_iunlockput quiet_stati quiet_readi quiet_writei quiet_read_dirent quiet_dirlookup quiet_dirlink
  quiet_namei quiet_nameiparent : quiet.
