(* ===== verification/FileSpec.v ===== *)
(** * The invariant of the file table

    How many references every open file has, and how the files of type FD_PIPE
    and the pipes belong together.  Each function of file.c is described by the
    change it makes to the reference counts. *)
From S2P Require Import Prelude Mem Sleeplock Block Bio Log Fs Pipe File Quiet.

#[local] Open Scope Z_scope.

(** [m], from a state in [P], ends in [Q] or fails without a panic of file.c. *)
Definition triple {S A} (P : S → Prop) (m : M S A) (Q : A → S → Prop) : Prop :=
  ∀ s, P s → match m s with Ok a s' => Q a s' | Err e => file_panic e = false end.

Lemma triple_ret {S A} (P : S → Prop) (a : A) (Q : A → S → Prop) : (∀ s, P s → Q a s) → triple P (mret a) Q.
Proof. done. Qed.
Lemma triple_bind {S A B} (P : S → Prop) (m : M S A) R (k : A → M S B) Q :
  triple P m R → (∀ a, triple (R a) (k a) Q) → triple P (m ≫= k) Q.
Proof.
  intros Hm Hk s HP. specialize (Hm s HP). unfold mbind, M_bind. destruct (m s) as [a s'|e]; [|done]. by apply Hk.
Qed.
Lemma triple_pre {S A} (P P' : S → Prop) (m : M S A) Q : (∀ s, P' s → P s) → triple P m Q → triple P' m Q.
Proof. intros HP Hm s Hs. apply Hm. auto. Qed.
Lemma triple_ok {S A} (P : S → Prop) (m : M S A) (Q : A → S → Prop) :
  (∀ s, P s → ∃ a s', m s = Ok a s' ∧ Q a s') → triple P m Q.
Proof. intros Hm s Hs. destruct (Hm s Hs) as (a & s' & -> & HQ). done. Qed.

(** Adding [d] references to [f]. *)
Definition bump (refs : nat → Z) (f : nat) (d : Z) : nat → Z := λ g, if decide (g = f) then refs g + d else refs g.

(** Arithmetic on reference counts. *)
Ltac bumps := unfold bump in *; repeat case_decide; try congruence; lia.

(** What the pages of pipes rely on. *)
Class PageLaws (G : Type) `{Pages G} := {
  plive : G → gset Z;
  palloc_ok g : match palloc g with
                | Ok a g' => a = 0 ∧ plive g' = plive g ∨ a ≠ 0 ∧ a ∉ plive g ∧ plive g' = {[a]} ∪ plive g
                | Err e => file_panic e = false
                end;
  pfree_ok g a : a ∈ plive g → ∃ g', pfree a g = Ok () g' ∧ plive g' = plive g ∖ {[a]} }.

(** Whether an end of a pipe is open, and whether [f] is it. *)
Definition end_open (w : bool) (p : pipe) : bool := if w then writeopen p else readopen p.
Definition is_end (tab : list file) (pi : Z) (w : bool) (f : nat) : Prop :=
  ∃ x, tab !! f = Some x ∧ ftype x = FD_PIPE ∧ fpipe x = pi ∧ fwritable x = w.

Section inv.
Context {U G : Type} `{HU : UserMem U} `{HP : Pages G} `{HPL : !PageLaws G} `{HR : Running}.
Abbreviation T A := (M (fst_ U G) A).

(** [refs f] references to file [f]; the files in [raw] are still being made. *)
Record finv (refs : nat → Z) (raw : gset nat) (s : fst_ U G) : Prop := {
  f_lock : ftlk s = false;
  f_pos f : 0 ≤ refs f;
  f_in f : 0 < refs f → (f < length (ftab s))%nat;
  f_ref f x : ftab s !! f = Some x → fref x = refs f;
  f_type f x : ftab s !! f = Some x → 0 < refs f → f ∉ raw → ftype x ≠ FD_NONE;
  f_none f x : ftab s !! f = Some x → refs f = 0 ∨ f ∈ raw → ftype x = FD_NONE;
  f_pipe f x : ftab s !! f = Some x → ftype x = FD_PIPE → is_Some (fpipes s !! fpipe x);
  f_two f g pi w : is_end (ftab s) pi w f → is_end (ftab s) pi w g → f = g;
  f_unlocked pi p : fpipes s !! pi = Some p → plock p = false;
  f_open pi p w : fpipes s !! pi = Some p → end_open w p = true ↔ ∃ f, is_end (ftab s) pi w f;
  f_half pi p : fpipes s !! pi = Some p → end_open true p = true ∨ end_open false p = true;
  f_live : dom (fpipes s) ⊆ plive (fpages s) }.

Lemma finv_ext refs refs' raw s : (∀ f, refs f = refs' f) → finv refs raw s → finv refs' raw s.
Proof using.
  intros E [H1 H2 H3 H4 H5 H6 H7 H8 H9 H10 H11 H12]. split; try done; intros f; rewrite <- E; eauto.
Qed.

(** The parts of the state the invariant is about. *)
Lemma finv_same refs raw s s' :
  ftlk s' = ftlk s → ftab s' = ftab s → fpipes s' = fpipes s → fpages s' = fpages s → finv refs raw s → finv refs raw s'.
Proof using. intros E1 E2 E3 E4 [H1 H2 H3 H4 H5 H6 H7 H8 H9 H10 H11 H12]. split; rewrite ?E1, ?E2, ?E3, ?E4; done. Qed.

(** A file that lost its references is not being made any more. *)
Lemma finv_unraw refs raw f s : refs f = 0 → finv refs ({[f]} ∪ raw) s → finv refs raw s.
Proof using.
  intros Hf [H1 H2 H3 H4 H5 H6 H7 H8 H9 H10 H11 H12]. split; try done; intros g x Hg.
  - intros Hpos Hr. apply (H5 g x Hg Hpos). intros [->%elem_of_singleton|?]%elem_of_union; [lia|done].
  - intros [?|?]; apply (H6 g x Hg); [by left|right; set_solver].
Qed.

(** Code of the file system leaves all of it alone. *)
Lemma fs_op_triple {A} (m : M (fsst U) A) refs raw : quiet m → triple (finv refs raw) (fs_op m) (λ _, finv refs raw).
Proof using.
  intros Hm s Hs. unfold fs_op, zoom. destruct (m (ffs s)) as [a x|e] eqn:E; [|by eapply Hm]. by eapply finv_same, Hs.
Qed.

(** ** Reading and writing entries *)

Definition with_tab (tab : list file) (s : fst_ U G) : fst_ U G :=
  mkft (ffs s) (fpages s) (ftlk s) tab (fpipes s) (fasleep s) (fkilled s).
Definition with_lock (l : bool) (s : fst_ U G) : fst_ U G :=
  mkft (ffs s) (fpages s) l (ftab s) (fpipes s) (fasleep s) (fkilled s).

Lemma getf_run f x (s : fst_ U G) : ftab s !! f = Some x → getf f s = Ok x s.
Proof using. intros Hx. unfold getf, gets, mbind, M_bind. by rewrite Hx. Qed.
Lemma setf_run f g x (s : fst_ U G) : ftab s !! f = Some x → setf f g s = Ok () (with_tab (<[f := g x]> (ftab s)) s).
Proof using. intros Hx. unfold setf. by runs getf_run by done. Qed.
Lemma ft_acquire_run (s : fst_ U G) : ftlk s = false → ft_acquire s = Ok () (with_lock true s).
Proof using. intros Hl. unfold ft_acquire, gets, modify, mbind, M_bind. by rewrite Hl. Qed.
Lemma ft_release_run (s : fst_ U G) : ftlk s = true → ft_release s = Ok () (with_lock false s).
Proof using. intros Hl. unfold ft_release, gets, modify, mbind, M_bind. by rewrite Hl. Qed.

Lemma is_end_insert tab f x y pi w g :
  tab !! f = Some x → is_end (<[f := y]> tab) pi w g ↔
    if decide (g = f) then ftype y = FD_PIPE ∧ fpipe y = pi ∧ fwritable y = w else is_end tab pi w g.
Proof using.
  clear. intros Hx. unfold is_end. destruct (decide (g = f)) as [->|Hne].
  - rewrite list_lookup_insert_eq by (by eapply lookup_lt_Some). naive_solver.
  - by rewrite list_lookup_insert_ne.
Qed.

(** A change of an entry that keeps its type and its pipe. *)
Lemma finv_setf refs raw s f x y d :
  finv refs raw s → ftab s !! f = Some x → ftype y = ftype x → fpipe y = fpipe x → fwritable y = fwritable x → fref y = fref x + d →
  (0 < refs f ∧ 0 < refs f + d ∨ d = 0) → finv (bump refs f d) raw (with_tab (<[f := y]> (ftab s)) s).
Proof using.
  intros [H1 H2 H3 H4 H5 H6 H7 H8 H9 H10 H11 H12] Hx Et Ep Ew Er Hd.
  assert (∀ pi w g, is_end (<[f := y]> (ftab s)) pi w g ↔ is_end (ftab s) pi w g) as He.
  { intros pi w g. rewrite (is_end_insert _ _ _ _ _ _ _ Hx). destruct (decide (g = f)) as [->|]; [|done]. unfold is_end. rewrite Hx, Et, Ep, Ew. naive_solver. }
  assert (∀ g z, <[f := y]> (ftab s) !! g = Some z → ∃ z', ftab s !! g = Some z' ∧ ftype z = ftype z' ∧ fpipe z = fpipe z' ∧
      fref z = (if decide (g = f) then fref z' + d else fref z')) as Hl.
  { intros g z. destruct (decide (g = f)) as [->|]; [|rewrite list_lookup_insert_ne by done; eauto 10].
    rewrite list_lookup_insert_eq by (by eapply lookup_lt_Some). intros [= <-]. eauto 10. }
  assert (∀ g, (0 < bump refs f d g ↔ 0 < refs g) ∧ 0 ≤ bump refs f d g ∧ (bump refs f d g = 0 ↔ refs g = 0)) as Hb.
  { intros g. unfold bump. pose proof (H2 g). destruct (decide (g = f)) as [->|]; lia. }
  split; cbn [with_tab ftlk ftab fpipes fpages]; try done.
  - intros g. apply Hb.
  - intros g Hg. rewrite length_insert. apply H3, Hb, Hg.
  - intros g z (z' & Hz & _ & _ & ->)%Hl. rewrite (H4 _ _ Hz). unfold bump. by destruct (decide _).
  - intros g z (z' & Hz & -> & _)%Hl Hg. apply (H5 _ _ Hz). by apply Hb.
  - intros g z (z' & Hz & -> & _)%Hl Hg. apply (H6 _ _ Hz). destruct Hg as [Hg|]; [left; by apply Hb|by right].
  - intros g z (z' & Hz & -> & -> & _)%Hl. by apply (H7 _ _ Hz).
  - intros g h pi w. rewrite !He. apply H8.
  - intros pi p w Hp. rewrite (H10 pi p w Hp). by setoid_rewrite He.
Qed.

(** ** filealloc and filedup *)

Lemma first_unused_spec l k f : first_unused l k = Some f → ∃ x, (k ≤ f)%nat ∧ l !! (f - k)%nat = Some x ∧ fref x = 0.
Proof using.
  clear. revert k; induction l as [|x l IH]; intros k; simpl; [done|]. destruct (Z.eqb_spec (fref x) 0) as [Hx|_].
  - intros [= <-]. exists x. by rewrite Nat.sub_diag.
  - intros (y & Hk & Hy & Hz)%IH. exists y. split_and!; [lia| |done]. by replace (f - k)%nat with (S (f - S k)) by lia.
Qed.

(** A free entry gets its first reference. *)
Lemma finv_alloc refs raw s f x :
  finv refs raw s → ftab s !! f = Some x → fref x = 0 →
  finv (bump refs f 1) ({[f]} ∪ raw) (with_tab (<[f := set_fref 1 x]> (ftab s)) s).
Proof using.
  intros Hf Hx H0. pose proof Hf as [H1 H2 H3 H4 H5 H6 H7 H8 H9 H10 H11 H12]. pose proof (H4 _ _ Hx) as Hr. rewrite H0 in Hr.
  pose proof (H6 _ _ Hx (or_introl (eq_sym Hr))) as Ht.
  assert (∀ pi w g, is_end (<[f := set_fref 1 x]> (ftab s)) pi w g ↔ is_end (ftab s) pi w g) as He.
  { intros pi w g. rewrite (is_end_insert _ _ _ _ _ _ _ Hx). destruct (decide (g = f)) as [->|]; [|done]. unfold is_end. rewrite Hx. simpl. naive_solver. }
  assert (∀ g z, <[f := set_fref 1 x]> (ftab s) !! g = Some z → g = f ∧ z = set_fref 1 x ∨ g ≠ f ∧ ftab s !! g = Some z) as Hl.
  { intros g z. destruct (decide (g = f)) as [->|]; [|rewrite list_lookup_insert_ne by done; auto].
    rewrite list_lookup_insert_eq by (by eapply lookup_lt_Some). intros [= <-]. auto. }
  split; cbn [with_tab ftlk ftab fpipes fpages]; try done.
  - intros g. unfold bump. pose proof (H2 g). case_decide; lia.
  - intros g. rewrite length_insert. unfold bump. case_decide; [subst; intros _; by eapply lookup_lt_Some|apply H3].
  - intros g z [[-> ->]|[? Hz]]%Hl; unfold bump; [rewrite decide_True by done; simpl; lia|rewrite decide_False by done; by apply H4].
  - intros g z [[-> ->]|[? Hz]]%Hl; [set_solver|]. unfold bump. rewrite decide_False by done. intros Hg Hn. apply (H5 _ _ Hz Hg). set_solver.
  - intros g z [[-> ->]|[? Hz]]%Hl; [done|]. unfold bump. rewrite decide_False by done. intros Hg. apply (H6 _ _ Hz). set_solver.
  - intros g z [[-> ->]|[? Hz]]%Hl; [simpl; congruence|]. by apply (H7 _ _ Hz).
  - intros g h pi w. rewrite !He. apply H8.
  - intros pi p w Hp. rewrite (H10 pi p w Hp). by setoid_rewrite He.
Qed.

Lemma filealloc_triple refs raw :
  triple (finv refs raw) filealloc (λ r s, match r with
    | Some f => refs f = 0 ∧ finv (bump refs f 1) ({[f]} ∪ raw) s
    | None => finv refs raw s
    end).
Proof using.
  apply triple_ok. intros s Hs. unfold filealloc. runs ft_acquire_run by apply Hs. unfold gets at 1, mbind at 1, M_bind at 1.
  cbn [with_lock ftab]. destruct (first_unused (ftab s) 0) as [f|] eqn:Ef.
  - destruct (first_unused_spec _ _ _ Ef) as (x & _ & Hx & H0). rewrite Nat.sub_0_r in Hx. runs (setf_run f (set_fref 1) x) by done. runs ft_release_run by done.
    eexists _, _. split; [reflexivity|]. split; [rewrite <- H0; symmetry; by eapply f_ref|]. eapply finv_same; [..|by eapply finv_alloc]; simpl; try done.
    symmetry. apply Hs.
  - runs ft_release_run by done. eexists _, _. split; [reflexivity|]. eapply finv_same, Hs; simpl; try done. symmetry. apply Hs.
Qed.

Lemma filedup_triple refs raw f : 1 ≤ refs f → triple (finv refs raw) (filedup f) (λ _, finv (bump refs f 1) raw).
Proof using.
  intros Hf. apply triple_ok. intros s Hs. destruct (lookup_lt_is_Some_2 (ftab s) f) as [x Hx]; [apply (f_in _ _ _ Hs); lia|].
  pose proof (f_ref _ _ _ Hs _ _ Hx) as Hr. unfold filedup. runs ft_acquire_run by apply Hs. runs (getf_run f x) by done.
  destruct (Z.ltb_spec (fref x) 1); [lia|]. cbn [when]. rewrite ret_bind. runs (setf_run f (λ x, set_fref (fref x + 1) x) x) by done. runs ft_release_run by done.
  eexists _, _. split; [reflexivity|]. eapply finv_same; [..|eapply (finv_setf _ _ s f x (set_fref (fref x + 1) x) 1)]; simpl; try done; [symmetry; apply Hs|lia].
Qed.

(** ** fileclose *)

(** The pipe after one end was closed. *)
Definition close_end (w : bool) (p : pipe) : pipe :=
  mkpipe false (pdata p) (nread p) (nwrite p) (if w then readopen p else false) (if w then false else writeopen p).

Lemma pipeclose_run pi w (t : pst U) : plock (pip t) = false →
  ∃ a, pipeclose pi w t = Ok (negb (end_open (negb w) (pip t))) (mkpst (close_end w (pip t)) a (pusr t)).
Proof using.
  clear. destruct t as [[l d nr nw ro wo] a u]. simpl. intros ->. unfold pipeclose. destruct w; eexists; simpl.
  - unfold mbind, M_bind, acquire_pi, getp, gets, setp, modify, mret, M_ret. simpl. by rewrite andb_true_r.
  - unfold mbind, M_bind, acquire_pi, getp, gets, setp, modify, mret, M_ret. simpl. done.
Qed.

(** The entry that loses its last reference. *)
Definition closed (x : file) : file := set_ftype FD_NONE (set_fref 0 x).

Lemma is_end_closed tab f x pi w g : tab !! f = Some x →
  is_end (<[f := closed x]> tab) pi w g ↔ g ≠ f ∧ is_end tab pi w g.
Proof using.
  intros Hx. rewrite (is_end_insert _ _ _ _ _ _ _ Hx). destruct (decide (g = f)) as [->|]; simpl; naive_solver.
Qed.

(** The entry [f] is gone, and the pipes are the ones of the other files. *)
Lemma finv_closed refs raw s s' f x pipes g' :
  finv refs raw s → ftab s !! f = Some x → refs f = 1 → ftlk s' = false → ftab s' = <[f := closed x]> (ftab s) →
  fpipes s' = pipes → fpages s' = g' →
  (∀ g y, ftab s !! g = Some y → g ≠ f → ftype y = FD_PIPE → is_Some (pipes !! fpipe y)) →
  (∀ pi p, pipes !! pi = Some p → plock p = false) →
  (∀ pi p w, pipes !! pi = Some p → end_open w p = true ↔ ∃ g, g ≠ f ∧ is_end (ftab s) pi w g) →
  (∀ pi p, pipes !! pi = Some p → end_open true p = true ∨ end_open false p = true) →
  dom pipes ⊆ plive g' →
  finv (bump refs f (-1)) raw s'.
Proof using.
  intros [H1 H2 H3 H4 H5 H6 H7 H8 H9 H10 H11 H12] Hx Hr El Et Ep Eg P1 P2 P3 P4 P5.
  assert (∀ g z, <[f := closed x]> (ftab s) !! g = Some z → g = f ∧ z = closed x ∨ g ≠ f ∧ ftab s !! g = Some z) as Hl.
  { intros g z. destruct (decide (g = f)) as [->|]; [|rewrite list_lookup_insert_ne by done; auto].
    rewrite list_lookup_insert_eq by (by eapply lookup_lt_Some). intros [= <-]. auto. }
  split; rewrite ?El, ?Et, ?Ep, ?Eg; try done.
  - intros g. unfold bump. pose proof (H2 g). case_decide; [subst; lia|done].
  - intros g. rewrite length_insert. unfold bump. case_decide; [subst; lia|apply H3].
  - intros g z [[-> ->]|[? Hz]]%Hl; unfold bump; [rewrite decide_True by done; simpl; lia|rewrite decide_False by done; by apply H4].
  - intros g z [[-> ->]|[? Hz]]%Hl; unfold bump; [rewrite decide_True by done; lia|rewrite decide_False by done; by apply H5].
  - intros g z [[-> ->]|[? Hz]]%Hl; unfold bump; [done|rewrite decide_False by done; by apply H6].
  - intros g z [[-> ->]|[? Hz]]%Hl; [done|]. by apply (P1 g).
  - intros g h pi w. rewrite !(is_end_closed _ f x) by done. intros [_ Hg] [_ Hh]. by apply (H8 g h pi w).
  - intros pi p w Hp. rewrite (P3 pi p w Hp). by setoid_rewrite (is_end_closed _ f x); [|done].
Qed.

(** A file that is no pipe takes nothing with it. *)
Lemma finv_closed_other refs raw s s' f x :
  finv refs raw s → ftab s !! f = Some x → refs f = 1 → ftype x ≠ FD_PIPE → ftlk s' = false → ftab s' = <[f := closed x]> (ftab s) →
  fpipes s' = fpipes s → fpages s' = fpages s → finv (bump refs f (-1)) raw s'.
Proof using.
  intros Hs Hx Hr Hp El Et Ep Eg. eapply (finv_closed refs raw s s' f x); try done.
  - intros g y Hy _. by apply (f_pipe _ _ _ Hs g).
  - apply Hs.
  - intros pi p w Hpi. rewrite (f_open _ _ _ Hs pi p w Hpi). split; intros [g Hg]; exists g; [|apply Hg]. split; [|done].
    intros ->. destruct Hg as (y & Hy & Ht & _). congruence.
  - apply Hs.
  - apply Hs.
Qed.

(** The end that is closed, and the rest of the pipes. *)
Lemma close_end_open w w' p : end_open w' (close_end w p) = end_open w' p && negb (bool_decide (w = w')).
Proof using. clear. destruct w, w'; simpl; by rewrite ?andb_true_r, ?andb_false_r. Qed.

(** The state after code that ran on the pipe [pi]. *)
Definition after_pipe (pi : Z) (t : pst U) (s : fst_ U G) : fst_ U G :=
  let x := ffs s in
  mkft (mkfs (flg x) (fsb x) (itlk x) (itab x) (fcwd x) (pusr t)) (fpages s) (ftlk s) (ftab s) (<[pi := pip t]> (fpipes s)) (asleep t) (fkilled s).

Lemma pipe_op_run {A} pi (m : M (pst U) A) (s : fst_ U G) p a t :
  fpipes s !! pi = Some p → m (mkpst p (fasleep s) (fuser (ffs s))) = Ok a t → pipe_op pi m s = Ok a (after_pipe pi t s).
Proof using. intros Hp Hm. unfold pipe_op. by rewrite Hp, Hm. Qed.

Lemma pipeclose_free_triple refs raw f x s :
  finv refs raw s → ftab s !! f = Some x → refs f = 1 → ftype x = FD_PIPE →
  triple (λ s', ftlk s' = false ∧ ftab s' = <[f := closed x]> (ftab s) ∧ fpipes s' = fpipes s ∧ fpages s' = fpages s)
    (pipeclose_free (fpipe x) (fwritable x)) (λ _, finv (bump refs f (-1)) raw).
Proof using.
  intros Hs Hx Hr Ht. apply triple_ok. intros s' (El & Et & Ep & Eg). set (pi := fpipe x) in *. set (w := fwritable x) in *.
  destruct (f_pipe _ _ _ Hs _ _ Hx Ht) as [p Hp]. fold pi in Hp. pose proof (f_unlocked _ _ _ Hs _ _ Hp) as Hul.
  destruct (pipeclose_run pi w (mkpst p (fasleep s') (fuser (ffs s'))) Hul) as [a Hrun]. unfold pipeclose_free.
  rewrite <- Ep in Hp. runs (pipe_op_run pi (pipeclose pi w) s' p _ _ Hp Hrun). rewrite Ep in Hp. unfold after_pipe. cbn [pip pusr].
  assert (is_end (ftab s) pi w f) as Hend by (exists x; done).
  assert (∀ g, is_end (ftab s) pi w g → g = f) as Honly by (intros g Hg; by apply (f_two _ _ _ Hs g f pi w)).
  assert (∀ g w', g ≠ f → is_end (ftab s) pi w' g → w' = negb w) as Hother.
  { intros g w' Hne Hg. destruct w, w'; simpl; try done; exfalso; apply Hne; by apply Honly. }
  assert (∀ w' g, is_end (ftab s) pi w' g → end_open w' p = true) as Hopen by (intros w' g Hg; apply (f_open _ _ _ Hs pi p w' Hp); eauto).
  (* the other pipes are as before *)
  assert (∀ pi' q w', pi' ≠ pi → fpipes s !! pi' = Some q → end_open w' q = true ↔ ∃ g, g ≠ f ∧ is_end (ftab s) pi' w' g) as Hrest.
  { intros pi' q w' Hne Hq. rewrite (f_open _ _ _ Hs pi' q w' Hq). split; intros [g Hg]; exists g; [|apply Hg]. split; [|done].
    intros ->. destruct Hg as (y & Hy & _ & Hpy & _). apply Hne. unfold pi. congruence. }
  destruct (end_open (negb w) p) eqn:Eo; cbn [negb when].
  - eexists _, _. split; [reflexivity|]. eapply (finv_closed refs raw s _ f x); cbn [ftlk ftab fpipes fpages]; try done; rewrite ?Ep.
    + intros g y Hy Hne Hpy. destruct (decide (fpipe y = pi)) as [->|]; [rewrite lookup_insert_eq; eauto|rewrite lookup_insert_ne by done]. by apply (f_pipe _ _ _ Hs g).
    + intros pi' q. destruct (decide (pi' = pi)) as [->|]; [rewrite lookup_insert_eq; by intros [= <-]|rewrite lookup_insert_ne by done]. apply Hs.
    + intros pi' q w'. destruct (decide (pi' = pi)) as [->|]; [rewrite lookup_insert_eq; intros [= <-]|rewrite lookup_insert_ne by done; by apply Hrest].
      rewrite close_end_open. case_bool_decide as Hw; rewrite ?andb_false_r, ?andb_true_r.
      * split; [done|]. intros (g & Hne & Hg). subst w'. by apply Honly in Hg.
      * rewrite (f_open _ _ _ Hs pi p w' Hp). split; intros [g Hg]; exists g; [|apply Hg]. split; [|done]. intros ->. destruct Hg as (y & Hy & _ & _ & Hwy). apply Hw. unfold w. congruence.
    + intros pi' q. destruct (decide (pi' = pi)) as [->|]; [rewrite lookup_insert_eq; intros [= <-]|rewrite lookup_insert_ne by done; apply Hs].
      rewrite !close_end_open. destruct w; simpl in *; rewrite Eo; auto.
    + rewrite dom_insert_L. pose proof (f_live _ _ _ Hs). apply elem_of_dom_2 in Hp. set_solver.
  - pose proof (f_live _ _ _ Hs) as Hlive. assert (pi ∈ plive (fpages s)) as Hin by (apply Hlive; by apply elem_of_dom_2 in Hp).
    destruct (pfree_ok (fpages s) pi Hin) as (g' & Hfree & Hg'). unfold set_fpipes, modify. unfold mbind, M_bind. unfold page_op, zoom. cbn [fpages]. rewrite Eg, Hfree.
    eexists _, _. split; [reflexivity|]. eapply (finv_closed refs raw s _ f x); cbn [ftlk ftab fpipes fpages]; try done; rewrite ?Ep, ?delete_insert_eq.
    + intros g y Hy Hne Hpy. destruct (decide (fpipe y = pi)) as [E|]; [|rewrite lookup_delete_ne by done; by apply (f_pipe _ _ _ Hs g)].
      exfalso. assert (is_end (ftab s) pi (fwritable y) g) as He by (exists y; done). pose proof (Hother g _ Hne He) as Ew. pose proof (Hopen _ _ He). rewrite Ew in *. congruence.
    + intros pi' q [_ Hq]%lookup_delete_Some. by apply (f_unlocked _ _ _ Hs pi').
    + intros pi' q w' [Hne Hq]%lookup_delete_Some. by apply Hrest.
    + intros pi' q [_ Hq]%lookup_delete_Some. by apply (f_half _ _ _ Hs pi').
    + rewrite Hg', dom_delete_L. set_solver.
Qed.

Lemma fileclose_triple refs raw f : 1 ≤ refs f → triple (finv refs raw) (fileclose f) (λ _, finv (bump refs f (-1)) raw).
Proof using.
  intros Hf s Hs. destruct (lookup_lt_is_Some_2 (ftab s) f) as [x Hx]; [apply (f_in _ _ _ Hs); lia|].
  pose proof (f_ref _ _ _ Hs _ _ Hx) as Hr. pose proof (lookup_lt_Some _ _ _ Hx) as Hlt. unfold fileclose. runs ft_acquire_run by apply Hs. runs (getf_run f x) by done.
  destruct (Z.ltb_spec (fref x) 1); [lia|]. cbn [when]. rewrite ret_bind. runs (setf_run f (λ x, set_fref (fref x - 1) x) x) by done. destruct (Z.ltb_spec 0 (fref x - 1)).
  - rewrite ft_release_run by done. eapply finv_same; [..|eapply (finv_setf _ _ s f x (set_fref (fref x - 1) x) (-1))]; simpl; try done; [symmetry; apply Hs|lia].
  - runs (getf_run f (set_fref (fref x - 1) x)) by (apply list_lookup_insert_eq; done).
    runs (setf_run f (λ x, set_ftype FD_NONE (set_fref 0 x)) (set_fref (fref x - 1) x)) by (apply list_lookup_insert_eq; done). runs ft_release_run by done.
    cbn [with_tab with_lock ftab]. rewrite list_insert_insert_eq. set (s1 := with_lock false _).
    assert (ftlk s1 = false ∧ ftab s1 = <[f := closed x]> (ftab s) ∧ fpipes s1 = fpipes s ∧ fpages s1 = fpages s) as Hs1 by done.
    assert (refs f = 1) as Hr1 by lia. clearbody s1. cbn [set_fref ftype fpipe fwritable fip].
    assert (ftype x ≠ FD_PIPE → finv (bump refs f (-1)) raw s1) as Hnp by (intros Hp; destruct Hs1 as (? & ? & ? & ?); by eapply finv_closed_other).
    assert (finv (bump refs f (-1)) raw s1 → match (fs_op (log_op begin_op);; fs_op (iput (fip x));; fs_op (log_op end_op)) s1 with Ok _ s' => finv (bump refs f (-1)) raw s' | Err e => file_panic e = false end) as Hio.
    { intros Hinv. clear Hs1 Hnp. revert s1 Hinv. change (triple (finv (bump refs f (-1)) raw) (fs_op (log_op begin_op);; fs_op (iput (fip x));; fs_op (log_op end_op)) (λ _, finv (bump refs f (-1)) raw)).
      eapply triple_bind; [apply fs_op_triple; eauto with quiet|intros ?; cbv beta]. eapply triple_bind; [apply fs_op_triple; eauto with quiet|intros ?; cbv beta]. apply fs_op_triple. eauto with quiet. }
    destruct (ftype x) eqn:Et; [by apply Hnp| |by apply Hio, Hnp..]. by eapply (pipeclose_free_triple refs raw f x s).
Qed.

(** ** pipealloc *)

(** A file in the making becomes an end of a new pipe. *)
Lemma finv_pipe_ends refs raw s pi f0 f1 x0 x1 junk y0 y1 g' :
  finv refs ({[f1]} ∪ ({[f0]} ∪ raw)) s → f0 ≠ f1 → ftab s !! f0 = Some x0 → ftab s !! f1 = Some x1 → f0 ∉ raw → f1 ∉ raw →
  0 < refs f0 → 0 < refs f1 → fpipes s !! pi = None → plive g' = {[pi]} ∪ plive (fpages s) →
  y0 = mkfile FD_PIPE (fref x0) true false pi (fip x0) (foff x0) (fmajor x0) →
  y1 = mkfile FD_PIPE (fref x1) false true pi (fip x1) (foff x1) (fmajor x1) →
  finv refs raw (mkft (ffs s) g' (ftlk s) (<[f1 := y1]> (<[f0 := y0]> (ftab s))) (<[pi := mkpipe false junk 0 0 true true]> (fpipes s)) (fasleep s) (fkilled s)).
Proof using.
  intros [H1 H2 H3 H4 H5 H6 H7 H8 H9 H10 H11 H12] Hne Hx0 Hx1 Hr0 Hr1 Hq0 Hq1 Hpi Hg E0 E1. pose proof (lookup_lt_Some _ _ _ Hx0) as Hl0. pose proof (lookup_lt_Some _ _ _ Hx1) as Hl1.
  set (tab := <[f1 := y1]> (<[f0 := y0]> (ftab s))). pose proof (H6 _ _ Hx0 ltac:(set_solver)) as Hn0. pose proof (H6 _ _ Hx1 ltac:(set_solver)) as Hn1.
  assert (∀ g z, tab !! g = Some z → g = f0 ∧ z = y0 ∨ g = f1 ∧ z = y1 ∨ g ≠ f0 ∧ g ≠ f1 ∧ ftab s !! g = Some z) as Hl.
  { intros g z. unfold tab. destruct (decide (g = f1)) as [->|N1]; [rewrite list_lookup_insert_eq by (by rewrite length_insert); intros [= <-]; auto|rewrite list_lookup_insert_ne by done].
    destruct (decide (g = f0)) as [->|N0]; [rewrite list_lookup_insert_eq by done; intros [= <-]; auto|rewrite list_lookup_insert_ne by done; auto 10]. }
  assert (tab !! f0 = Some y0 ∧ tab !! f1 = Some y1) as [Ht0 Ht1].
  { unfold tab. split; [rewrite list_lookup_insert_ne, list_lookup_insert_eq by done; done|by rewrite list_lookup_insert_eq by (by rewrite length_insert)]. }
  assert (∀ g, is_end (ftab s) pi true g ∨ is_end (ftab s) pi false g → False) as Hno.
  { intros g [(y & Hy & Ht & Hp & _)|(y & Hy & Ht & Hp & _)]; destruct (H7 _ _ Hy Ht) as [? Hs']; congruence. }
  assert (∀ pi' w g, is_end tab pi' w g ↔ if decide (pi' = pi) then g = (if w then f1 else f0) else is_end (ftab s) pi' w g) as He.
  { intros pi' w g. split.
    - intros (z & [[-> ->]|[[-> ->]|(N0 & N1 & Hz)]]%Hl & Ht & Hp & Hw); subst y0 y1; simpl in *; [subst; by rewrite decide_True|subst; by rewrite decide_True|].
      case_decide; [|by exists z]. subst. exfalso. apply (Hno g). destruct (fwritable z) eqn:Ew; [left|right]; by exists z.
    - case_decide; [intros ->; subst; destruct w; eexists; (split; [eassumption|done])|]. intros (z & Hz & Ht & Hp & Hw). exists z. split; [|done].
      unfold tab. rewrite !list_lookup_insert_ne; [done|intros <-; congruence|intros <-; congruence]. }
  split; cbn [ftlk ftab fpipes fpages]; fold tab; try done.
  - intros g Hg'. unfold tab. rewrite !length_insert. by apply H3.
  - intros g z [[-> ->]|[[-> ->]|(N0 & N1 & Hz)]]%Hl; [subst y0; simpl; by apply H4|subst y1; simpl; by apply H4|by apply H4].
  - intros g z [[-> ->]|[[-> ->]|(N0 & N1 & Hz)]]%Hl Hp Hr; [by subst y0|by subst y1|]. apply (H5 _ _ Hz Hp). set_solver.
  - intros g z [[-> ->]|[[-> ->]|(N0 & N1 & Hz)]]%Hl Hp; [exfalso; destruct Hp; [lia|done]|exfalso; destruct Hp; [lia|done]|apply (H6 _ _ Hz); set_solver].
  - intros g z [[-> ->]|[[-> ->]|(N0 & N1 & Hz)]]%Hl Ht; [subst y0; simpl; by rewrite lookup_insert_eq|subst y1; simpl; by rewrite lookup_insert_eq|].
    apply lookup_insert_is_Some. destruct (decide (pi = fpipe z)); [by left|right]. split; [done|]. by apply (H7 _ _ Hz).
  - intros g h pi' w. rewrite !He. case_decide; [congruence|apply H8].
  - intros pi' p. destruct (decide (pi' = pi)) as [->|]; [rewrite lookup_insert_eq; by intros [= <-]|rewrite lookup_insert_ne by done; apply H9].
  - intros pi' p w. setoid_rewrite He. destruct (decide (pi' = pi)) as [->|]; [rewrite lookup_insert_eq; intros [= <-]|rewrite lookup_insert_ne by done; apply H10].
    split; [eauto|]. by destruct w.
  - intros pi' p. destruct (decide (pi' = pi)) as [->|]; [rewrite lookup_insert_eq; intros [= <-]; by left|rewrite lookup_insert_ne by done; apply H11].
  - rewrite dom_insert_L, Hg. set_solver.
Qed.

Lemma bump_eq refs f d : bump refs f d f = refs f + d.
Proof using. clear. unfold bump. by rewrite decide_True. Qed.
Lemma bump_ne refs f d g : g ≠ f → bump refs f d g = refs g.
Proof using. clear. intros. unfold bump. by rewrite decide_False. Qed.
Lemma bump_bump refs f g : bump (bump refs f (-1)) f 1 g = refs g.
Proof using. clear. unfold bump. case_decide; lia. Qed.

Lemma palloc_triple refs raw :
  triple (finv refs raw) (page_op palloc) (λ a s, if a =? 0 then finv refs raw s else
    fpipes s !! a = None ∧ ∃ s0, finv refs raw s0 ∧ s = mkft (ffs s0) (fpages s) (ftlk s0) (ftab s0) (fpipes s0) (fasleep s0) (fkilled s0) ∧
      plive (fpages s) = {[a]} ∪ plive (fpages s0)).
Proof using.
  intros s Hs. unfold page_op, zoom. pose proof (palloc_ok (fpages s)) as Hok. destruct (palloc (fpages s)) as [a g'|e]; [|done].
  destruct Hok as [[-> E]|(Ha & Hn & E)].
  - destruct Hs as [H1 H2 H3 H4 H5 H6 H7 H8 H9 H10 H11 H12]. split; simpl; try done. by rewrite E.
  - destruct (Z.eqb_spec a 0); [done|]. cbn [fpipes fpages]. split; [|by exists s].
    apply not_elem_of_dom. intros Hd. apply Hn. by apply (f_live _ _ _ Hs).
Qed.

Lemma pipealloc_triple refs junk :
  triple (finv refs ∅) (pipealloc junk) (λ r s, match r with
    | Some (f0, f1) => f0 ≠ f1 ∧ finv (bump (bump refs f0 1) f1 1) ∅ s
    | None => finv refs ∅ s
    end).
Proof using.
  unfold pipealloc. eapply triple_bind; [apply filealloc_triple|]. intros [f0|]; [|by apply triple_ret].
  intros s [Hz0 Hs]. revert s Hs. change (triple (finv (bump refs f0 1) ({[f0]} ∪ ∅)) (f1 ← filealloc; match f1 with
    | None => fileclose f0;; mret None | Some f1 => pi ← page_op palloc; if pi =? 0 then fileclose f0;; fileclose f1;; mret None else
      set_fpipes (<[pi := mkpipe false junk 0 0 true true]>);; setf f0 (λ x, mkfile FD_PIPE (fref x) true false pi (fip x) (foff x) (fmajor x));;
      setf f1 (λ x, mkfile FD_PIPE (fref x) false true pi (fip x) (foff x) (fmajor x));; mret (Some (f0, f1)) end)
    (λ r s, match r with Some (f0, f1) => f0 ≠ f1 ∧ finv (bump (bump refs f0 1) f1 1) ∅ s | None => finv refs ∅ s end)).
  eapply triple_bind; [apply filealloc_triple|]. intros [f1|].
  2:{ eapply triple_bind; [apply fileclose_triple; bumps|]. intros ?. apply triple_ret. intros s Hs.
      apply (finv_unraw _ _ f0); [done|]. eapply finv_ext, Hs. intros g. bumps. }
  intros s [Hz1 Hs]. assert (f0 ≠ f1) as Hne by (intros ->; bumps). rewrite bump_ne in Hz1 by done. pose proof (palloc_triple _ _ s Hs) as Hpa.
  unfold mbind at 1, M_bind at 1. destruct (page_op palloc s) as [pi s1|e]; [|done]. destruct (Z.eqb_spec pi 0) as [->|Hpi].
  - revert s1 Hpa. change (triple (finv (bump (bump refs f0 1) f1 1) ({[f1]} ∪ ({[f0]} ∪ ∅))) (fileclose f0;; fileclose f1;; mret None)
      (λ (r : option (nat * nat)) s, match r with Some (f0, f1) => f0 ≠ f1 ∧ finv (bump (bump refs f0 1) f1 1) ∅ s | None => finv refs ∅ s end)).
    eapply triple_bind; [apply fileclose_triple; bumps|intros ?; cbv beta].
    eapply triple_bind; [apply fileclose_triple; bumps|intros ?]. apply triple_ret. intros t Ht.
    apply (finv_unraw _ _ f0); [done|]. apply (finv_unraw _ _ f1); [done|]. eapply finv_ext, Ht. intros g. bumps.
  - destruct Hpa as (Hnp & s0 & Hs0 & Es & Hlive). destruct (lookup_lt_is_Some_2 (ftab s0) f0) as [x0 Hx0]; [apply (f_in _ _ _ Hs0); bumps|].
    destruct (lookup_lt_is_Some_2 (ftab s0) f1) as [x1 Hx1]; [apply (f_in _ _ _ Hs0); bumps|].
    unfold set_fpipes, modify. unfold mbind at 1, M_bind at 1.
    runs (setf_run f0 (λ x, mkfile FD_PIPE (fref x) true false pi (fip x) (foff x) (fmajor x)) x0) by (rewrite Es; done).
    runs (setf_run f1 (λ x, mkfile FD_PIPE (fref x) false true pi (fip x) (foff x) (fmajor x)) x1) by (rewrite Es; simpl; by rewrite list_lookup_insert_ne).
    split; [done|]. rewrite Es. unfold with_tab. cbn [ftab fpipes fpages ftlk ffs fasleep fkilled]. rewrite Es in Hnp.
    eapply (finv_pipe_ends _ _ s0); try done; [bumps|bumps].
Qed.
End inv.
