(* ===== verification/SysfileSpec.v ===== *)
(** * Descriptors and references

    Reading and writing keep the reference counts and the ends of the pipes; a
    system call that makes or drops descriptors changes the counts by as much. *)
From S2P Require Import Prelude Mem Sleeplock Block Bio Log Fs Pipe File Sysfile Quiet FileSpec.

#[local] Open Scope Z_scope.

(** ** Pipes *)

Section pipes.
Context {U : Type} `{HU : UserMem U}.
Context (Hout : ∀ va bs, quiet (ucopyout (U := U) va bs)) (Hin : ∀ va n, quiet (ucopyin (U := U) va n)).

(** The lock and the two ends of the pipe. *)
Definition pipe_is (l ro wo : bool) (t : pst U) : Prop := plock (pip t) = l ∧ readopen (pip t) = ro ∧ writeopen (pip t) = wo.

Lemma pusr_op_triple {A} (m : M U A) l ro wo : quiet m → triple (pipe_is l ro wo) (pusr_op m) (λ _, pipe_is l ro wo).
Proof using. intros Hm t Ht. unfold pusr_op, zoom. destruct (m (pusr t)) eqn:E; [done|by eapply Hm]. Qed.
Lemma getp_triple {A} (f : pipe → A) l ro wo : triple (pipe_is l ro wo) (getp f) (λ _, pipe_is l ro wo).
Proof using. by intros t Ht. Qed.
Lemma acquire_pi_triple ro wo : triple (pipe_is false ro wo) acquire_pi (λ _, pipe_is true ro wo).
Proof using. intros t (Hl & Hr & Hw). unfold acquire_pi, getp, gets, setp, modify, mbind, M_bind. rewrite Hl. done. Qed.
Lemma release_pi_triple ro wo : triple (pipe_is true ro wo) release_pi (λ _, pipe_is false ro wo).
Proof using. intros t (Hl & Hr & Hw). unfold release_pi, getp, gets, setp, modify, mbind, M_bind. rewrite Hl. done. Qed.
Lemma wakeup_triple ch l ro wo : triple (pipe_is l ro wo) (wakeup ch) (λ _, pipe_is l ro wo).
Proof using. by intros t Ht. Qed.
Lemma sleep_triple me ch ro wo : triple (pipe_is true ro wo) (sleep me ch) (λ _, pipe_is false ro wo).
Proof using. unfold sleep. eapply triple_bind; [apply release_pi_triple|]. intros _ t Ht. done. Qed.

Lemma pipewrite_end_triple pi i ro wo : triple (pipe_is true ro wo) (pipewrite_end pi i) (λ _, pipe_is false ro wo).
Proof using.
  unfold pipewrite_end. eapply triple_bind; [apply wakeup_triple|intros ?]. eapply triple_bind; [apply release_pi_triple|intros ?]. by apply triple_ret.
Qed.

Lemma pipewrite_loop_triple pi me killed addr i k ro wo :
  triple (pipe_is true ro wo) (pipewrite_loop pi me killed addr i k) (λ _, pipe_is false ro wo).
Proof using Hin.
  clear Hout. revert i; induction k as [|k IH]; intros i; cbn [pipewrite_loop]; [apply pipewrite_end_triple|].
  eapply triple_bind; [apply getp_triple|intros ?; cbv beta]. case_match; [eapply triple_bind; [apply release_pi_triple|intros ?; by apply triple_ret]|].
  eapply triple_bind; [apply getp_triple|intros ?; cbv beta]. eapply triple_bind; [apply getp_triple|intros ?; cbv beta]. case_match.
  - eapply triple_bind; [apply wakeup_triple|intros ?; cbv beta]. eapply triple_bind; [apply sleep_triple|intros ?]. by apply triple_ret.
  - eapply triple_bind; [by apply pusr_op_triple|intros r; cbv beta]. case_match; [apply pipewrite_end_triple|].
    destruct (r.2) as [|ch [|? ?]]; [by intros t _|eapply triple_bind; [|intros ?; apply IH]; by intros t Ht|by intros t _].
Qed.

Lemma pipewrite_triple pi me killed addr n ro wo :
  triple (pipe_is false ro wo) (pipewrite pi me killed addr n) (λ _, pipe_is false ro wo).
Proof using Hin. unfold pipewrite, pipewrite_from. eapply triple_bind; [apply acquire_pi_triple|intros ?]. apply pipewrite_loop_triple. Qed.

Lemma piperead_loop_triple addr i k ro wo : triple (pipe_is true ro wo) (piperead_loop addr i k) (λ _, pipe_is true ro wo).
Proof using Hout.
  clear Hin. revert i; induction k as [|k IH]; intros i; cbn [piperead_loop]; [by apply triple_ret|].
  eapply triple_bind; [apply getp_triple|intros ?; cbv beta]. eapply triple_bind; [apply getp_triple|intros ?; cbv beta]. case_match; [by apply triple_ret|].
  eapply triple_bind; [|intros ch; eapply triple_bind; [apply pusr_op_triple, Hout|intros ?; cbv beta; case_match; [by apply triple_ret|apply IH]]].
  intros t Ht. unfold take_byte, getp, gets, setp, modify, mbind, M_bind. destruct (pdata (pip t) !! _); done.
Qed.

Lemma piperead_triple pi me killed addr n ro wo :
  triple (pipe_is false ro wo) (piperead pi me killed addr n) (λ _, pipe_is false ro wo).
Proof using Hout.
  clear Hin. unfold piperead. eapply triple_bind; [apply acquire_pi_triple|intros ?; cbv beta].
  do 3 (eapply triple_bind; [apply getp_triple|intros ?; cbv beta]). case_match; [case_match|].
  - eapply triple_bind; [apply release_pi_triple|intros ?]. by apply triple_ret.
  - eapply triple_bind; [apply sleep_triple|intros ?]. by apply triple_ret.
  - eapply triple_bind; [apply piperead_loop_triple|intros ?; cbv beta]. eapply triple_bind; [apply wakeup_triple|intros ?; cbv beta].
    eapply triple_bind; [apply release_pi_triple|intros ?]. by apply triple_ret.
Qed.
End pipes.

(** ** Reading and writing files *)

Section files.
Context {U G : Type} `{HU : UserMem U} `{HP : Pages G} `{HPL : !PageLaws G} `{HR : Running}.
Context (Hout : ∀ va bs, quiet (ucopyout (U := U) va bs)) (Hin : ∀ va n, quiet (ucopyin (U := U) va n)).
Context (devread devwrite : Z → option (Z → Z → M U Z)).
Context (Hdr : ∀ m f va n, devread m = Some f → quiet (f va n)) (Hdw : ∀ m f va n, devwrite m = Some f → quiet (f va n)).
Context (refs : nat → Z) (raw : gset nat).
Abbreviation inv := (finv (U := U) (G := G) refs raw).

Lemma getf_triple f : 1 ≤ refs f → f ∉ raw →
  triple inv (getf f) (λ x s, inv s ∧ ftab s !! f = Some x ∧ ftype x ≠ FD_NONE).
Proof using.
  clear. intros Hf Hr. apply triple_ok. intros s Hs. destruct (lookup_lt_is_Some_2 (ftab s) f) as [x Hx]; [apply (f_in _ _ _ Hs); lia|].
  exists x, s. split; [by apply getf_run|]. split_and!; [done|done|]. apply (f_type _ _ _ Hs f x Hx); [lia|done].
Qed.

(** A pipe whose end is a live file. *)
Lemma pipe_wait_triple m f x :
  (∀ ro wo, triple (pipe_is false ro wo) m (λ _, pipe_is false ro wo)) →
  triple (λ s, inv s ∧ ftab s !! f = Some x ∧ ftype x = FD_PIPE) (pipe_wait (fpipe x) m) (λ _, inv).
Proof using.
  clear. intros Hm s (Hs & Hx & Ht). destruct (f_pipe _ _ _ Hs _ _ Hx Ht) as [p Hp]. pose proof (f_unlocked _ _ _ Hs _ _ Hp) as Hul.
  specialize (Hm (readopen p) (writeopen p) (mkpst p (fasleep s) (fuser (ffs s)))). unfold pipe_wait, mbind, M_bind.
  destruct (m _) as [r t|e] eqn:E.
  - rewrite (pipe_op_run _ m s p r t Hp E). destruct Hm as (H1 & H2 & H3); [done|]. destruct r; [|done].
    assert (∀ w, end_open w (pip t) = end_open w p) as He by (intros []; simpl; done).
    destruct Hs as [A1 A2 A3 A4 A5 A6 A7 A8 A9 A10 A11 A12]. split; cbn [after_pipe ftlk ftab fpipes fpages]; try done.
    + intros g y Hy Hty. apply lookup_insert_is_Some. destruct (decide (fpipe x = fpipe y)); [by left|right]. split; [done|]. by apply (A7 g).
    + intros pi q. destruct (decide (pi = fpipe x)) as [->|]; [rewrite lookup_insert_eq; by intros [= <-]|rewrite lookup_insert_ne by done; apply A9].
    + intros pi q w. destruct (decide (pi = fpipe x)) as [->|]; [rewrite lookup_insert_eq; intros [= <-]; rewrite He; by apply A10|rewrite lookup_insert_ne by done; apply A10].
    + intros pi q. destruct (decide (pi = fpipe x)) as [->|]; [rewrite lookup_insert_eq; intros [= <-]; rewrite !He; by apply (A11 (fpipe x))|rewrite lookup_insert_ne by done; apply A11].
    + rewrite dom_insert_L. apply elem_of_dom_2 in Hp. set_solver.
  - unfold pipe_op. rewrite Hp, E. by apply Hm.
Qed.

Lemma setf_off_triple f (o : file → Z) : 1 ≤ refs f → triple inv (setf f (λ x, set_foff (o x) x)) (λ _, inv).
Proof using.
  clear. intros Hf. apply triple_ok. intros s Hs. destruct (lookup_lt_is_Some_2 (ftab s) f) as [x Hx]; [apply (f_in _ _ _ Hs); lia|].
  eexists _, _. split; [by apply setf_run|]. eapply finv_ext; [|eapply (finv_setf _ _ _ f x _ 0); try done; [simpl; lia|by right]].
  intros g. bumps.
Qed.

Lemma when_triple {S} (P : S → Prop) b (m : M S unit) : triple P m (λ _, P) → triple P (when b m) (λ _, P).
Proof using. clear. destruct b; [done|]. intros _. by apply triple_ret. Qed.

(** Code of the file system inside a triple. *)
Ltac fs_step := eapply triple_bind; [apply fs_op_triple; eauto with quiet|intros ?; cbv beta].

Lemma filestat_triple pad f addr : 1 ≤ refs f → f ∉ raw → triple inv (filestat pad f addr) (λ _, inv).
Proof using Hout.
  intros Hf Hr. unfold filestat. eapply triple_bind; [by apply getf_triple|]. intros x. cbv beta.
  assert (triple inv (fs_op (ilock (fip x));; st ← fs_op (stati (fip x)); fs_op (iunlock (fip x));;
    r ← fs_op (user_op (ucopyout addr (stat_bytes pad st))); mret (if r <? 0 then -1 else 0)) (λ _, inv)) as Hio.
  { do 3 fs_step. eapply triple_bind; [apply fs_op_triple, quiet_user_op, Hout|intros ?]. by apply triple_ret. }
  apply (triple_pre inv); [by intros s (Hs & _)|]. destruct (ftype x); [by apply triple_ret..|done|done].
Qed.

Lemma fileread_triple f addr n : 1 ≤ refs f → f ∉ raw → triple inv (fileread devread f addr n) (λ _, inv).
Proof using Hout Hdr.
  intros Hf Hr. unfold fileread. eapply triple_bind; [by apply getf_triple|]. intros x. cbv beta.
  destruct (negb (freadable x)); [apply triple_ret; by intros s (? & _)|]. destruct (ftype x) eqn:Et.
  - intros s (_ & _ & ?). done.
  - eapply triple_bind; [|intros k; apply (pipe_wait_triple _ f x); intros ro wo; by apply piperead_triple]. intros s (Hs & Hx & _). simpl. done.
  - apply (triple_pre inv); [by intros s (Hs & _)|]. fs_step. eapply triple_bind; [apply fs_op_triple; eauto with quiet|intros ?; cbv beta].
    eapply triple_bind; [by apply when_triple, setf_off_triple|intros ?; cbv beta]. fs_step. by apply triple_ret.
  - apply (triple_pre inv); [by intros s (Hs & _)|]. case_match; [by apply triple_ret|]. destruct (devread (fmajor x)) eqn:Ed; [|by apply triple_ret].
    apply fs_op_triple, quiet_user_op. by eapply Hdr.
Qed.

Lemma filewrite_loop_triple fuel f addr i n : 1 ≤ refs f → f ∉ raw → triple inv (filewrite_loop fuel f addr i n) (λ _, inv).
Proof using Hin.
  intros Hf Hr. revert i; induction fuel as [|fuel IH]; intros i; cbn [filewrite_loop]; [by intros s _|]. case_match; [|by apply triple_ret].
  fs_step. eapply triple_bind; [by apply getf_triple|]. intros x. cbv beta. apply (triple_pre inv); [by intros s (Hs & _)|].
  fs_step. eapply triple_bind; [apply fs_op_triple; eauto with quiet|intros ?; cbv beta].
  eapply triple_bind; [by apply when_triple, setf_off_triple|intros ?; cbv beta]. do 2 fs_step. case_match; [by apply triple_ret|apply IH].
Qed.

Lemma filewrite_triple f addr n : 1 ≤ refs f → f ∉ raw → triple inv (filewrite devwrite f addr n) (λ _, inv).
Proof using Hin Hdw.
  intros Hf Hr. unfold filewrite. eapply triple_bind; [by apply getf_triple|]. intros x. cbv beta.
  destruct (negb (fwritable x)); [apply triple_ret; by intros s (? & _)|]. destruct (ftype x) eqn:Et.
  - intros s (_ & _ & ?). done.
  - eapply triple_bind; [|intros k; apply (pipe_wait_triple _ f x); intros ro wo; by apply pipewrite_triple]. intros s (Hs & Hx & _). simpl. done.
  - apply (triple_pre inv); [by intros s (Hs & _)|]. eapply triple_bind; [by apply filewrite_loop_triple|intros ?]. by apply triple_ret.
  - apply (triple_pre inv); [by intros s (Hs & _)|]. case_match; [by apply triple_ret|]. destruct (devwrite (fmajor x)) eqn:Ed; [|by apply triple_ret].
    apply fs_op_triple, quiet_user_op. by eapply Hdw.
Qed.
End files.
