(* ===== verification/SysfileTheorems.v ===== *)
(** * Every system call keeps the descriptors' account

    The number of references of every open file is the number of descriptors
    that refer to it; a pipe exists as long as one of its ends is open. *)
From S2P Require Import Prelude Param Mem Sleeplock Block Bio Log Fs FsRead FsWitness Pipe PipeTheorems File Sysfile Quiet FileSpec SysfileSpec.
From stdpp Require Import functions list gmap.

#[local] Open Scope Z_scope.

(** The descriptors in [l] that refer to file [f]. *)
Definition fd_count (l : list (option nat)) (f : nat) : Z := Z.of_nat (length (filter (λ o, o = Some f) l)).

Lemma fd_count_insert l fd o o' f :
  l !! fd = Some o → fd_count (<[fd := o']> l) f = fd_count l f - b2z (bool_decide (o = Some f)) + b2z (bool_decide (o' = Some f)).
Proof.
  intros Hl. unfold fd_count. rewrite <- (take_drop_middle l fd o Hl) at 2. rewrite insert_take_drop by (by eapply lookup_lt_Some).
  rewrite !filter_app, !length_app, !filter_cons. repeat case_bool_decide; repeat case_decide; try done; simpl; lia.
Qed.

Lemma fd_count_pos l fd f : l !! fd = Some (Some f) → 1 ≤ fd_count l f.
Proof.
  intros Hl. unfold fd_count. rewrite <- (take_drop_middle l fd _ Hl), filter_app, length_app, filter_cons, decide_True by done. simpl. lia.
Qed.

Lemma first_free_spec l k fd : first_free l k = Some fd → ∃ j, fd = (k + j)%nat ∧ l !! j = Some None.
Proof.
  revert k; induction l as [|[f|] l IH]; intros k; simpl; [done|..].
  - intros (j & -> & Hj)%IH. exists (S j). split; [lia|done].
  - intros [= <-]. exists 0%nat. split; [lia|done].
Qed.

Section calls.
Context {U G : Type} `{HU : UserMem U} `{HS : UserStr U} `{HP : Pages G} `{HPL : !PageLaws G} `{HR : Running}.
Context (Hout : ∀ va bs, quiet (ucopyout (U := U) va bs)) (Hin : ∀ va n, quiet (ucopyin (U := U) va n)).
Context (Hstr : ∀ va n, quiet (ucopyinstr (U := U) va n)).
Context (devread devwrite : Z → option (Z → Z → M U Z)).
Context (Hdr : ∀ m f va n, devread m = Some f → quiet (f va n)) (Hdw : ∀ m f va n, devwrite m = Some f → quiet (f va n)).

(** The account of the running process; [ext f] references to [f] are held by
    other processes. *)
Record fdinv (ext : nat → Z) (s : sysst U G) : Prop := {
  fd_len : length (sofile s) = NOFILE;
  fd_ext f : 0 ≤ ext f;
  fd_inv : finv (λ f, fd_count (sofile s) f + ext f) ∅ (sft s) }.

(** The file table with [refs], and the descriptors [l]. *)
Definition at_fds (refs : nat → Z) (raw : gset nat) (l : list (option nat)) (s : sysst U G) : Prop :=
  finv refs raw (sft s) ∧ sofile s = l.

Lemma ft_op_triple {A} (m : M (fst_ U G) A) P Q l :
  triple P m Q → triple (λ s, P (sft s) ∧ sofile s = l) (ft_op m) (λ a s, Q a (sft s) ∧ sofile s = l).
Proof using.
  clear. intros Hm s [Hs El]. specialize (Hm _ Hs). unfold ft_op, zoom. destruct (m (sft s)); [|done]. done.
Qed.

Lemma inode_op_triple {A} (m : M (fsst U) A) refs raw l : quiet m → triple (at_fds refs raw l) (inode_op m) (λ _, at_fds refs raw l).
Proof using. clear. intros Hm. apply (ft_op_triple _ _ (λ _, finv refs raw)). by apply fs_op_triple. Qed.

Lemma gets_triple {S A} (P : S → Prop) (f : S → A) : triple P (gets f) (λ a s, P s ∧ a = f s).
Proof using. clear. by intros s Hs. Qed.

Lemma fail_triple {S A} (P : S → Prop) e Q : file_panic e = false → triple P (fail (A := A) e) Q.
Proof using. clear. by intros He s _. Qed.

Lemma argraw_triple (P : sysst U G → Prop) n : triple P (argraw n) (λ _, P).
Proof using.
  clear. unfold argraw. case_match; [|by apply fail_triple]. eapply triple_bind; [apply gets_triple|]. intros [a|]; [|by apply fail_triple].
  apply triple_ret. by intros s [? _].
Qed.

Lemma argint_triple (P : sysst U G → Prop) n : triple P (argint n) (λ _, P).
Proof using. clear. unfold argint. eapply triple_bind; [apply argraw_triple|intros ?]. by apply triple_ret. Qed.

Lemma argstr_triple refs raw l n max : triple (at_fds refs raw l) (argstr n max) (λ _, at_fds refs raw l).
Proof using Hstr.
  clear - Hstr. unfold argstr, argaddr, fetchstr, copy_op. eapply triple_bind; [apply argraw_triple|intros ?; cbv beta].
  eapply triple_bind; [apply inode_op_triple, quiet_user_op, Hstr|intros ?; cbv beta]. case_match; by apply triple_ret.
Qed.

(** A descriptor that was found is there. *)
Lemma argfd_triple refs raw l n :
  triple (at_fds refs raw l) (argfd n) (λ r s, at_fds refs raw l s ∧ match r with Some (fd, f) => l !! fd = Some (Some f) | None => True end).
Proof using.
  clear. unfold argfd. eapply triple_bind; [apply argint_triple|intros fd; cbv beta]. case_match; [apply triple_ret; by intros s Hs|].
  eapply triple_bind; [apply gets_triple|]. intros [[f|]|]; [| |by apply fail_triple]; apply triple_ret; intros s [[Hs <-] E]; done.
Qed.

Lemma fdalloc_triple refs raw l f :
  triple (at_fds refs raw l) (fdalloc f) (λ r s, (r = -1 ∧ at_fds refs raw l s) ∨
    ∃ fd, r = Z.of_nat fd ∧ l !! fd = Some None ∧ at_fds refs raw (<[fd := Some f]> l) s).
Proof using.
  clear. apply triple_ok. intros s [Hs <-]. unfold fdalloc, gets, mbind, M_bind. destruct (first_free (sofile s) 0) as [fd|] eqn:E.
  - destruct (first_free_spec _ _ _ E) as (j & -> & Hj). eexists _, _. split; [reflexivity|]. right. exists (0 + j)%nat. split_and!; [done|done|]. by split.
  - eexists _, _. split; [reflexivity|]. by left.
Qed.

(** Reading the account before and after. *)
Lemma fdinv_at ext s : fdinv ext s → at_fds (λ f, fd_count (sofile s) f + ext f) ∅ (sofile s) s.
Proof using. clear. intros [H1 H2 H3]. done. Qed.
Lemma at_fdinv ext refs l s : at_fds refs ∅ l s → length l = NOFILE → (∀ f, 0 ≤ ext f) → (∀ f, refs f = fd_count l f + ext f) → fdinv ext s.
Proof using. clear. intros [Hs <-] Hl He Hr. split; [done|done|]. by eapply finv_ext. Qed.

(** ** Calls that only use the file system *)

Definition files_only {A} (m : M (sysst U G) A) : Prop := ∀ refs raw l, triple (at_fds refs raw l) m (λ _, at_fds refs raw l).

Lemma fo_ret {A} (a : A) : files_only (mret a).
Proof using. clear. intros refs raw l. by apply triple_ret. Qed.
Lemma fo_fail {A} e : file_panic e = false → files_only (fail (A := A) e).
Proof using. clear. intros He refs raw l. by apply fail_triple. Qed.
Lemma fo_bind {A B} (m : M (sysst U G) A) (k : A → M (sysst U G) B) : files_only m → (∀ a, files_only (k a)) → files_only (m ≫= k).
Proof using. clear. intros Hm Hk refs raw l. eapply triple_bind; [apply Hm|intros a; apply Hk]. Qed.
Lemma fo_when b m : files_only m → files_only (when b m).
Proof using. clear. intros Hm. destruct b; [done|apply fo_ret]. Qed.
Lemma fo_inode {A} (m : M (fsst U) A) : quiet m → files_only (inode_op m).
Proof using. clear. intros Hm refs raw l. by apply inode_op_triple. Qed.
Lemma fo_argint n : files_only (argint n).
Proof using. clear. intros refs raw l. apply argint_triple. Qed.
Lemma fo_argstr n max : files_only (argstr n max).
Proof using Hstr. clear - Hstr. intros refs raw l. by apply argstr_triple. Qed.
Lemma fo_begin : files_only begin_op_.
Proof using. clear. apply fo_inode. eauto with quiet. Qed.
Lemma fo_end : files_only end_op_.
Proof using. clear. apply fo_inode. eauto with quiet. Qed.
Hint Resolve fo_ret fo_argint fo_argstr fo_begin fo_end : files.
Hint Extern 1 (files_only (inode_op _)) => apply fo_inode; eauto 2 with quiet : files.
Hint Extern 1 (files_only (fail _)) => apply fo_fail; reflexivity : files.

(** Taking such a call apart. *)
Ltac fo_step := first [solve [eauto 2 with files] | apply fo_when | apply fo_bind; [|intros ?] | case_match].
Ltac fo := repeat fo_step.

Lemma fo_link : files_only sys_link.
Proof using Hstr Hout Hin. unfold sys_link, link_bad. fo. Qed.
Lemma fo_isdirempty dp : files_only (isdirempty dp).
Proof using Hout.
  clear - Hout. assert (∀ off n, files_only (isdirempty_loop (U := U) (G := G) dp off n)) as Hl; [|unfold isdirempty; fo].
  intros off n. revert off; induction n as [|n IH]; intros off; cbn [isdirempty_loop]; fo.
Qed.
Hint Resolve fo_isdirempty : files.
Lemma fo_unlink : files_only sys_unlink.
Proof using Hstr Hout Hin. unfold sys_unlink, unlink_bad. fo. Qed.
Lemma fo_create path ty ma mi : files_only (create path ty ma mi).
Proof using Hout Hin. clear - Hout Hin. unfold create, create_fail. fo. Qed.
Hint Resolve fo_create : files.
Lemma fo_mkdir : files_only sys_mkdir.
Proof using Hstr Hout Hin. unfold sys_mkdir, make_done. fo. Qed.
Lemma fo_mknod : files_only sys_mknod.
Proof using Hstr Hout Hin. unfold sys_mknod, make_done. fo. Qed.
Lemma fo_chdir : files_only sys_chdir.
Proof using Hstr Hout Hin. unfold sys_chdir, open_bad. fo. Qed.

(** ** Calls on descriptors *)

Section process.
Context (ext : nat → Z) (l : list (option nat)) (Hlen : length l = NOFILE) (Hext : ∀ f, 0 ≤ ext f).

(** The counts as they are between two calls. *)
Definition resting : nat → Z := λ f, fd_count l f + ext f.
Abbreviation rest := (at_fds resting ∅ l).

Lemma fd_count_nonneg l' f : 0 ≤ fd_count l' f.
Proof using. clear. unfold fd_count. lia. Qed.

Lemma rest_fdinv s : rest s → fdinv ext s.
Proof using Hlen Hext. intros Hs. by eapply at_fdinv. Qed.

Lemma rest_ref fd f : l !! fd = Some (Some f) → 1 ≤ resting f.
Proof using Hext. clear Hlen. intros Hf%fd_count_pos. unfold resting. pose proof (Hext f). lia. Qed.

(** A call that gives a file it has the reference to a descriptor. *)
Lemma read_call {A} (k : nat → M (fst_ U G) A) (bad : A) :
  (∀ f, 1 ≤ resting f → triple (finv resting ∅) (k f) (λ _, finv resting ∅)) →
  triple rest (r ← argfd 0; match r with None => mret bad | Some (_, f) => ft_op (k f) end) (λ _, rest).
Proof using Hext.
  intros Hk. eapply triple_bind; [apply argfd_triple|]. intros [[fd f]|]; [|apply triple_ret; by intros s [? _]].
  intros s [Hs Hl]. revert s Hs. apply (ft_op_triple _ (finv resting ∅) (λ _, finv resting ∅)). apply Hk. by eapply rest_ref.
Qed.

Lemma dup_triple : triple rest sys_dup (λ _, fdinv ext).
Proof using Hlen Hext.
  unfold sys_dup. eapply triple_bind; [apply argfd_triple|]. intros [[fd f]|]; [|apply triple_ret; intros s [? _]; by apply rest_fdinv].
  intros s [Hs Hl]. pose proof (rest_ref _ _ Hl) as Hf. revert s Hs.
  change (triple rest (fd ← fdalloc f; if fd <? 0 then mret (-1) else ft_op (filedup f);; mret fd) (λ _, fdinv ext)).
  eapply triple_bind; [apply fdalloc_triple|]. intros r s [[-> Hs]|(fd' & -> & Hfd & Hs)]; [by apply rest_fdinv|].
  destruct (Z.ltb_spec (Z.of_nat fd') 0); [lia|]. revert s Hs. change (triple (at_fds resting ∅ (<[fd' := Some f]> l)) (ft_op (filedup f);; mret (Z.of_nat fd')) (λ _, fdinv ext)).
  eapply triple_bind; [apply (ft_op_triple _ _ _ _ (filedup_triple _ ∅ f Hf))|intros ?]. apply triple_ret. intros s Hs.
  eapply (at_fdinv ext); [exact Hs|by rewrite length_insert|done|]. intros g. rewrite (fd_count_insert _ _ _ _ _ Hfd). unfold bump, resting.
  repeat case_bool_decide; case_decide; simplify_eq; simpl; lia.
Qed.

Lemma close_triple : triple rest sys_close (λ _, fdinv ext).
Proof using Hlen Hext.
  unfold sys_close. eapply triple_bind; [apply argfd_triple|]. intros [[fd f]|]; [|apply triple_ret; intros s [? _]; by apply rest_fdinv].
  intros s [Hs Hl]. pose proof (rest_ref _ _ Hl) as Hf. revert s Hs.
  change (triple rest (set_ofile fd None;; ft_op (fileclose f);; mret 0) (λ _, fdinv ext)).
  eapply (triple_bind _ _ (λ _, at_fds resting ∅ (<[fd := None]> l))); [intros s [Hs <-]; by split|intros ?].
  eapply triple_bind; [apply (ft_op_triple _ _ _ _ (fileclose_triple _ ∅ f Hf))|intros ?]. apply triple_ret. intros s Hs.
  eapply (at_fdinv ext); [exact Hs|by rewrite length_insert|done|]. intros g. rewrite (fd_count_insert _ _ _ _ _ Hl). unfold bump, resting.
  repeat case_bool_decide; case_decide; simplify_eq; simpl; lia.
Qed.

(** The new file's type is set when it already has its descriptor. *)
Lemma setf_open_triple refs l' f (y : file → file) :
  refs f ≠ 0 → (∀ x, ftype (y x) ≠ FD_NONE ∧ ftype (y x) ≠ FD_PIPE ∧ fref (y x) = fref x) →
  triple (at_fds refs ({[f]} ∪ ∅) l') (ft_op (setf f y)) (λ _, at_fds refs ∅ l').
Proof using.
  clear. intros Hf Hy. apply (ft_op_triple _ _ (λ _, finv refs ∅)). apply triple_ok. intros s Hs. pose proof (f_pos _ _ _ Hs f).
  destruct (lookup_lt_is_Some_2 (ftab s) f) as [x Hx]; [apply (f_in _ _ _ Hs); lia|]. eexists _, _. split; [by apply setf_run|].
  destruct (Hy x) as (Hy1 & Hy2 & Hy3). pose proof (f_none _ _ _ Hs _ _ Hx ltac:(set_solver)) as Hn. destruct Hs as [H1 H2 H3 H4 H5 H6 H7 H8 H9 H10 H11 H12].
  assert (∀ pi w g, is_end (<[f := y x]> (ftab s)) pi w g ↔ is_end (ftab s) pi w g) as He.
  { intros pi w g. rewrite (is_end_insert _ _ _ _ _ _ _ Hx). destruct (decide (g = f)) as [->|]; [|done]. unfold is_end. rewrite Hx. naive_solver congruence. }
  assert (∀ g z, <[f := y x]> (ftab s) !! g = Some z → g = f ∧ z = y x ∨ g ≠ f ∧ ftab s !! g = Some z) as Hl.
  { intros g z. destruct (decide (g = f)) as [->|]; [|rewrite list_lookup_insert_ne by done; auto].
    rewrite list_lookup_insert_eq by (by eapply lookup_lt_Some). intros [= <-]. auto. }
  split; cbn [with_tab ftlk ftab fpipes fpages]; try done.
  - intros g. rewrite length_insert. apply H3.
  - intros g z [[-> ->]|[? Hz]]%Hl; [rewrite Hy3; by apply H4|by apply H4].
  - intros g z [[-> ->]|[? Hz]]%Hl Hg _; [done|]. apply (H5 _ _ Hz Hg). set_solver.
  - intros g z [[-> ->]|[? Hz]]%Hl Hg; [destruct Hg; [lia|set_solver]|]. apply (H6 _ _ Hz). set_solver.
  - intros g z [[-> ->]|[? Hz]]%Hl; [done|]. by apply (H7 _ _ Hz).
  - intros g h pi w. rewrite !He. apply H8.
  - intros pi p w Hp. rewrite (H10 pi p w Hp). by setoid_rewrite He.
Qed.

Lemma open_bad_triple ip : triple rest (open_bad ip) (λ _, rest).
Proof using. assert (files_only (open_bad (U := U) (G := G) ip)) as Hb by (unfold open_bad; fo). apply Hb. Qed.

Lemma rest_of {A} (m : M (sysst U G) A) : triple rest m (λ _, rest) → triple rest m (λ _, fdinv ext).
Proof using Hlen Hext. intros Hm s Hs. specialize (Hm s Hs). destruct (m s); [by apply rest_fdinv|done]. Qed.

Lemma open_file_triple ip omode : triple rest (open_file ip omode) (λ _, fdinv ext).
Proof using Hlen Hext.
  unfold open_file. eapply triple_bind; [apply inode_op_triple; eauto with quiet|intros i; cbv beta].
  case_match; [apply rest_of, open_bad_triple|]. eapply triple_bind; [apply (ft_op_triple _ _ _ _ (filealloc_triple resting ∅))|].
  intros [f|]; [|apply rest_of, open_bad_triple]. intros s [[Hz Hs] El]. pose proof (conj Hs El : at_fds (bump resting f 1) ({[f]} ∪ ∅) l s) as Hs'. clear Hs El. revert s Hs'.
  match goal with |- ∀ s, _ → match ?m s with _ => _ end => change (triple (at_fds (bump resting f 1) ({[f]} ∪ ∅) l) m (λ _, fdinv ext)) end.
  eapply triple_bind; [apply fdalloc_triple|]. intros r s [[-> Hs]|(fd & -> & Hfd & Hs)].
  - change (-1 <? 0) with true. cbv iota. revert s Hs.
    match goal with |- ∀ s, _ → match ?m s with _ => _ end => change (triple (at_fds (bump resting f 1) ({[f]} ∪ ∅) l) m (λ _, fdinv ext)) end.
    eapply triple_bind; [apply (ft_op_triple _ _ _ _ (fileclose_triple (bump resting f 1) ({[f]} ∪ ∅) f ltac:(bumps)))|intros ?; cbv beta].
    apply (triple_pre rest); [|apply rest_of, open_bad_triple]. intros s [Hs El]. split; [|done]. apply (finv_unraw _ _ f); [done|]. eapply finv_ext, Hs. intros g. bumps.
  - destruct (Z.ltb_spec (Z.of_nat fd) 0); [lia|]. revert s Hs.
    match goal with |- ∀ s, _ → match ?m s with _ => _ end => change (triple (at_fds (bump resting f 1) ({[f]} ∪ ∅) (<[fd := Some f]> l)) m (λ _, fdinv ext)) end.
    eapply triple_bind; [apply setf_open_triple; [bumps|intros x; case_match; done]|intros ?; cbv beta].
    eapply triple_bind; [case_match; [apply inode_op_triple; eauto with quiet|by apply triple_ret]|intros ?; cbv beta].
    eapply triple_bind; [apply inode_op_triple; eauto with quiet|intros ?; cbv beta]. eapply triple_bind; [apply fo_end|intros ?]. apply triple_ret. intros s Hs.
    eapply (at_fdinv ext); [exact Hs|by rewrite length_insert|done|]. intros g. rewrite (fd_count_insert _ _ _ _ _ Hfd). unfold bump, resting.
    repeat case_bool_decide; case_decide; simplify_eq; simpl; lia.
Qed.

Lemma open_triple : triple rest sys_open (λ _, fdinv ext).
Proof using Hstr Hout Hin Hlen Hext.
  unfold sys_open. eapply triple_bind; [apply argint_triple|intros omode; cbv beta]. eapply triple_bind; [by apply argstr_triple|intros path; cbv beta].
  case_match; [by apply rest_of, triple_ret|]. eapply triple_bind; [apply fo_begin|intros ?; cbv beta].
  assert (triple rest (end_op_;; mret (-1)) (λ _, fdinv ext)) as Hend.
  { apply rest_of. eapply triple_bind; [apply fo_end|intros ?]. by apply triple_ret. }
  case_match.
  - eapply triple_bind; [by apply fo_create|]. intros [ip|]; [apply open_file_triple|done].
  - eapply triple_bind; [apply inode_op_triple; eauto with quiet|]. intros [ip|]; [|done]. cbv beta iota.
    eapply triple_bind; [apply inode_op_triple; eauto with quiet|intros ?; cbv beta]. eapply triple_bind; [apply inode_op_triple; eauto with quiet|intros ?; cbv beta].
    case_match; [apply rest_of, open_bad_triple|apply open_file_triple].
Qed.

(** Both ends are closed again. *)
Lemma close_both refs l' rf wf :
  1 ≤ refs rf → 1 ≤ refs wf → rf ≠ wf → (∀ f, bump (bump refs rf (-1)) wf (-1) f = fd_count l' f + ext f) → length l' = NOFILE →
  triple (at_fds refs ∅ l') (ft_op (fileclose rf);; ft_op (fileclose wf);; mret (-1)) (λ _, fdinv ext).
Proof using Hext.
  clear Hlen. intros Hr Hw Hne Heq Hl'. eapply triple_bind; [apply (ft_op_triple _ _ _ _ (fileclose_triple refs ∅ rf Hr))|intros ?; cbv beta].
  eapply triple_bind; [apply (ft_op_triple _ _ _ _ (fileclose_triple (bump refs rf (-1)) ∅ wf ltac:(bumps)))|intros ?]. apply triple_ret. intros s Hs. by eapply at_fdinv.
Qed.

Lemma set_ofile_triple refs l' fd o : triple (at_fds refs ∅ l') (set_ofile fd o) (λ _, at_fds refs ∅ (<[fd := o]> l')).
Proof using. clear. intros s [Hs <-]. by split. Qed.

(** The ends have no descriptors yet, and the counts account for them. *)
Definition two_new (rf wf : nat) : nat → Z := bump (bump resting rf 1) wf 1.

Lemma pipe_fail rf wf fd0 : rf ≠ wf → l !! fd0 = Some None →
  triple (at_fds (two_new rf wf) ∅ (<[fd0 := Some rf]> l)) (set_ofile fd0 None;; ft_op (fileclose rf);; ft_op (fileclose wf);; mret (-1)) (λ _, fdinv ext).
Proof using Hlen Hext.
  intros Hne H0. pose proof (fd_count_nonneg l) as Hc. eapply triple_bind; [apply set_ofile_triple|intros ?; cbv beta]. rewrite list_insert_insert_eq, list_insert_id by done.
  pose proof (Hext rf). pose proof (Hext wf). pose proof (Hc rf). pose proof (Hc wf). unfold two_new. apply close_both; [unfold resting; bumps|unfold resting; bumps|done| |done].
  intros f. unfold resting. bumps.
Qed.

Lemma pipe_two rf wf fd0 fd1 junk : rf ≠ wf → l !! fd0 = Some None → <[fd0 := Some rf]> l !! fd1 = Some None →
  triple (at_fds (two_new rf wf) ∅ (<[fd1 := Some wf]> (<[fd0 := Some rf]> l)))
    (x ← copy_op (ucopyout junk (le_split 4 (Z.of_nat fd0)));
     x ← (if x <? 0 then mret x else copy_op (ucopyout (u64 (junk + 4)) (le_split 4 (Z.of_nat fd1))));
     if x <? 0 then set_ofile (Z.to_nat (Z.of_nat fd0)) None;; set_ofile (Z.to_nat (Z.of_nat fd1)) None;; ft_op (fileclose rf);; ft_op (fileclose wf);; mret (-1) else mret 0) (λ _, fdinv ext).
Proof using Hout Hlen Hext.
  intros Hne H0 H1. pose proof (fd_count_nonneg l) as Hc. pose proof (Hext rf). pose proof (Hext wf). pose proof (Hc rf). pose proof (Hc wf). rewrite !Nat2Z.id.
  assert (fd0 ≠ fd1) as Hfd by (intros ->; rewrite list_lookup_insert_eq in H1 by (by eapply lookup_lt_Some); done).
  rewrite list_lookup_insert_ne in H1 by done. pose proof (lookup_lt_Some _ _ _ H0) as Hl0. pose proof (lookup_lt_Some _ _ _ H1) as Hl1.
  eapply triple_bind; [apply inode_op_triple, quiet_user_op, Hout|intros x; cbv beta].
  eapply triple_bind; [instantiate (1 := λ _, at_fds (two_new rf wf) ∅ (<[fd1 := Some wf]> (<[fd0 := Some rf]> l))); case_match; [by apply triple_ret|apply inode_op_triple, quiet_user_op, Hout]|intros y; cbv beta].
  case_match.
  - eapply triple_bind; [apply set_ofile_triple|intros ?; cbv beta]. eapply triple_bind; [apply set_ofile_triple|intros ?; cbv beta].
    rewrite (list_insert_insert_ne _ fd0 fd1), list_insert_insert_eq, list_insert_insert_eq by done.
    rewrite (list_insert_id l fd0), (list_insert_id l fd1) by done. unfold two_new. apply close_both; [unfold resting; bumps|unfold resting; bumps|done| |done]. intros f. unfold resting. bumps.
  - apply triple_ret. intros s Hs. eapply (at_fdinv ext); [exact Hs|by rewrite !length_insert|done|]. intros f.
    assert (<[fd0 := Some rf]> l !! fd1 = Some None) as H1' by (by rewrite list_lookup_insert_ne).
    rewrite (fd_count_insert _ _ _ _ _ H1'), (fd_count_insert _ _ _ _ _ H0). unfold two_new, resting. unfold bump.
    repeat case_bool_decide; repeat case_decide; simplify_eq; simpl; lia.
Qed.

Lemma pipe_triple junk : triple rest (sys_pipe junk) (λ _, fdinv ext).
Proof using Hout Hlen Hext.
  unfold sys_pipe, argaddr. eapply triple_bind; [apply argraw_triple|intros fdarray; cbv beta].
  eapply triple_bind; [apply (ft_op_triple _ _ _ _ (pipealloc_triple resting junk))|]. intros [[rf wf]|]; [|by apply rest_of, triple_ret].
  intros s [[Hne Hs] El]. pose proof (conj Hs El : at_fds (two_new rf wf) ∅ l s) as Hs'. clear Hs El. revert s Hs'.
  match goal with |- ∀ s, _ → match ?m s with _ => _ end => change (triple (at_fds (two_new rf wf) ∅ l) m (λ _, fdinv ext)) end.
  pose proof (fd_count_nonneg l) as Hc. pose proof (Hext rf) as E0. pose proof (Hext wf) as E1. pose proof (Hc rf) as C0. pose proof (Hc wf) as C1.
  eapply triple_bind; [apply fdalloc_triple|]. intros r s [[-> Hs]|(fd0 & -> & Hf0 & Hs)].
  - change (-1 <? 0) with true. cbv iota. rewrite ret_bind. change (-1 <? 0) with true. cbv beta iota. change (true || _) with true. change (0 <=? -1) with false. cbv iota. rewrite ret_bind. revert s Hs.
    apply close_both; [unfold two_new, resting; bumps|unfold two_new, resting; bumps|done| |done]. intros f. unfold two_new, resting. bumps.
  - destruct (Z.ltb_spec (Z.of_nat fd0) 0); [lia|]. revert s Hs.
    match goal with |- ∀ s, _ → match ?m s with _ => _ end => change (triple (at_fds (two_new rf wf) ∅ (<[fd0 := Some rf]> l)) m (λ _, fdinv ext)) end.
    eapply triple_bind; [apply fdalloc_triple|]. intros r s [[-> Hs]|(fd1 & -> & Hf1 & Hs)].
    + change (false || (-1 <? 0)) with true. destruct (Z.leb_spec 0 (Z.of_nat fd0)); [|lia]. rewrite Nat2Z.id. cbv iota. revert s Hs. by apply pipe_fail.
    + destruct (Z.ltb_spec (Z.of_nat fd1) 0); [lia|]. change (false || false) with false. cbv iota. revert s Hs. by apply pipe_two.
Qed.
End process.

(** The system calls of sysfile.c. *)
Inductive filecall :=
| Dup | Read | Write | Close | Fstat (pad : list Z) | Open | Pipe_ (junk : list Z) | Link | Unlink | Mkdir | Mknod | Chdir.

Definition run_call (c : filecall) : M (sysst U G) Z :=
  match c with
  | Dup => sys_dup | Read => sys_read devread | Write => sys_write devwrite | Close => sys_close | Fstat pad => sys_fstat pad
  | Open => sys_open | Pipe_ junk => sys_pipe junk | Link => sys_link | Unlink => sys_unlink | Mkdir => sys_mkdir | Mknod => sys_mknod
  | Chdir => sys_chdir
  end.

(** C4: the system calls on files keep the account of references.  If the
    number of references of every open file is the number of descriptors that
    refer to it, every live file has a type, and the pipes are exactly the ones
    with an open end that a file refers to, then all of this holds after any of
    the calls returns, on its error paths too.  No call uses a pipe that was
    freed or ends in one of the panics of filedup, fileclose, fileread or
    filewrite. *)
Theorem sysfile_refs ext c s :
  fdinv ext s → match run_call c s with Ok _ s' => fdinv ext s' | Err e => file_panic e = false end.
Proof using Hstr Hout Hin Hdr Hdw.
  intros Hs. pose proof (fdinv_at _ _ Hs) as Hat. destruct Hs as [Hlen Hext _].
  assert (∀ l, length l = NOFILE → triple (at_fds (resting ext l) ∅ l) (run_call c) (λ _, fdinv ext)) as Hcall; [|by apply (Hcall (sofile s))].
  clear s Hlen Hat. intros l Hlen. destruct c; simpl.
  - by apply dup_triple.
  - apply rest_of; [done..|]. unfold sys_read, argaddr. eapply triple_bind; [apply argraw_triple|intros ?; cbv beta]. eapply triple_bind; [apply argint_triple|intros ?; cbv beta].
    apply read_call; [done|]. intros f Hf. by apply fileread_triple.
  - apply rest_of; [done..|]. unfold sys_write, argaddr. eapply triple_bind; [apply argraw_triple|intros ?; cbv beta]. eapply triple_bind; [apply argint_triple|intros ?; cbv beta].
    apply read_call; [done|]. intros f Hf. by apply filewrite_triple.
  - by apply close_triple.
  - apply rest_of; [done..|]. unfold sys_fstat, argaddr. eapply triple_bind; [apply argraw_triple|intros ?; cbv beta].
    apply read_call; [done|]. intros f Hf. by apply filestat_triple.
  - by apply open_triple.
  - by apply pipe_triple.
  - apply rest_of; [done..|]. apply fo_link.
  - apply rest_of; [done..|]. apply fo_unlink.
  - apply rest_of; [done..|]. apply fo_mkdir.
  - apply rest_of; [done..|]. apply fo_mknod.
  - apply rest_of; [done..|]. apply fo_chdir.
Qed.
End calls.

(** A process without descriptors calls [pipe]. *)
Module SysfileWitness.
Import FsWitness PipeWitness.

(** Two pages; the set of those in use. *)
Definition free_pages (g : gset Z) : list Z := filter (λ a, a ∉ g) [4096; 8192].
#[export] Instance pages2 : Pages (gset Z) := {
  palloc := λ g, match free_pages g with [] => Ok 0 g | a :: _ => Ok a ({[a]} ∪ g) end;
  pfree a := λ g, Ok () (g ∖ {[a]}) }.

#[export] Instance page_laws2 : PageLaws (gset Z).
Proof.
  refine {| plive := id |}.
  - intros g. simpl. destruct (free_pages g) as [|a l] eqn:E; [by left|]. right.
    assert (a ∈ free_pages g) as [Hn Ha]%list_elem_of_filter by (rewrite E; set_solver). split_and!; [set_solver|done|done].
  - intros g a _. by exists (g ∖ {[a]}).
Defined.

Fixpoint ustring (u : gmap Z Z) (va : Z) (n : nat) : option (list Z) :=
  match n with
  | O => None
  | S n => match u !! va with None => None | Some c => if c =? 0 then Some [] else cons c <$> ustring u (va + 1) n end
  end.
#[export] Instance ustr2 : UserStr (gmap Z Z) := {
  ucopyinstr va max := λ u, match ustring u va (Z.to_nat max) with Some s => Ok (0, s) u | None => Ok (-1, []) u end }.

Lemma quiet_umem : (∀ va bs, quiet (ucopyout (U := gmap Z Z) va bs)) ∧ (∀ va n, quiet (ucopyin (U := gmap Z Z) va n)) ∧
  (∀ va n, quiet (ucopyinstr (U := gmap Z Z) va n)).
Proof. split_and!; intros va x u e; simpl; by case_match. Qed.

Definition no_dev (major : Z) : option (Z → Z → M (gmap Z Z) Z) := None.

(** The descriptors are to be stored at address 300. *)
Definition fdarray : gmap Z Z := list_to_map ((λ j, (300 + Z.of_nat j, 0)) <$> seq 0 8).
Definition sys0 : sysst (gmap Z Z) (gset Z) :=
  mksys (mkft (mkfs (flg fs2) (fsb fs2) (itlk fs2) (itab fs2) (fcwd fs2) fdarray) ∅ false (replicate NFILE (mkfile FD_NONE 0 false false 0 0 0 0)) ∅ ∅ false)
    (replicate NOFILE None) 4096 [300; 0; 0; 0; 0; 0].

Lemma sys0_inv : fdinv (λ _, 0) sys0.
Proof.
  split; [reflexivity|done|]. assert (∀ f, fd_count (sofile sys0) f = 0) as H0 by done.
  split; cbn [sys0 sft ftlk ftab fpipes fpages]; try done;
    try (intros f; rewrite H0; lia); try (intros f x [-> _]%lookup_replicate; by rewrite ?H0); try (intros pi p; by rewrite lookup_empty); try (intros pi p w; by rewrite lookup_empty).
  intros f g pi w (x & [-> _]%lookup_replicate & ? & _). done.
Qed.

(** Descriptors 0 and 1 refer to files 0 and 1. *)
Lemma sysfile_refs_witness :
  match run_call no_dev no_dev (Pipe_ page) sys0 with
  | Ok r s => r = 0 ∧ sofile s !! 0%nat = Some (Some 0%nat) ∧ sofile s !! 1%nat = Some (Some 1%nat) ∧ fdinv (λ _, 0) s
  | Err _ => False
  end.
Proof.
  destruct quiet_umem as (H1 & H2 & H3).
  pose proof (sysfile_refs H1 H2 H3 no_dev no_dev ltac:(intros; discriminate) ltac:(intros; discriminate) (λ _, 0) (Pipe_ page) sys0 sys0_inv) as Hr.
  assert (match run_call no_dev no_dev (Pipe_ page) sys0 with Ok r s => (r =? 0) && bool_decide (sofile s !! 0%nat = Some (Some 0%nat)) && bool_decide (sofile s !! 1%nat = Some (Some 1%nat)) | Err _ => false end = true) as Hc by (vm_compute; reflexivity).
  destruct (run_call no_dev no_dev (Pipe_ page) sys0) as [r s|e]; [|discriminate].
  apply andb_prop in Hc as [[Hr0%Z.eqb_eq Hf0%bool_decide_eq_true]%andb_prop Hf1%bool_decide_eq_true]. auto.
Defined.
End SysfileWitness.
