(* ===== verification/Sh.v ===== *)
(** * user/sh.c: the shell

    The parser works on the command line in [buf] through positions, and builds
    its nodes on the heap, where [parseexec] goes on filling the argument array
    of a node that is already wrapped in redirections.  [runcmd] is the tree of
    system calls it makes. *)
From S2P Require Import Prelude Param.

#[local] Open Scope Z_scope.

Definition EXEC : Z := 1.
Definition REDIR : Z := 2.
Definition PIPE : Z := 3.
Definition LIST : Z := 4.
Definition BACK : Z := 5.
Definition MAXARGS : nat := 10.

(** The structs behind a [struct cmd *]; pointers to nodes are indices in the
    heap, pointers into the line are positions.  [argv] holds the pairs of
    [argv[i]] and [eargv[i]] up to the terminating null. *)
Inductive node :=
| execcmd_ (argv : list (nat * nat))
| redircmd_ (cmd : nat) (file efile : nat) (mode fd : Z)
| pipecmd_ (left right : nat)
| listcmd_ (left right : nat)
| backcmd_ (cmd : nat).

(** The line, the nodes allocated so far, and how many more [malloc] grants. *)
Record sh := mksh { buf : list Z; nodes : list node; room : nat }.

Abbreviation P A := (M sh A).

(** panic: a message on descriptor 2, then exit(1) *)
Definition panic {A} (msg : string) : P A := fail (Panic msg).

(** malloc and the memset after it, which faults on a null pointer *)
Definition new (n : node) : P nat :=
  r ← gets room;
  match r with
  | O => fail (Fault 0)
  | S r => ns ← gets nodes; b ← gets buf; put (mksh b (ns ++ [n]) r);; mret (length ns)
  end.

Definition execcmd : P nat := new (execcmd_ []).
Definition redircmd (subcmd file efile : nat) (mode fd : Z) : P nat := new (redircmd_ subcmd file efile mode fd).
Definition pipecmd (left right : nat) : P nat := new (pipecmd_ left right).
Definition listcmd (left right : nat) : P nat := new (listcmd_ left right).
Definition backcmd (subcmd : nat) : P nat := new (backcmd_ subcmd).

(** cmd->argv[argc] = q; cmd->eargv[argc] = eq *)
Definition add_arg (cmd : nat) (q eq : nat) : P unit :=
  ns ← gets nodes;
  match ns !! cmd with
  | Some (execcmd_ argv) =>
      when (MAXARGS <=? length argv)%nat (fail (Undef "argv"));;
      modify (λ s, mksh (buf s) (<[cmd := execcmd_ (argv ++ [(q, eq)])]> (nodes s)) (room s))
  | _ => fail (Undef "execcmd")
  end.

(** ** Scanning *)

Definition whitespace : list Z := [32; 9; 13; 10; 11].
Definition symbols : list Z := [60; 124; 62; 38; 59; 40; 41].

(** strchr(set, c) is not null; a null character is in no set *)
Definition strchr (set : list Z) (c : Z) : bool := bool_decide (c ∈ set) && negb (c =? 0).

(** *s *)
Definition at_ (s : nat) : P Z :=
  r ← gets (λ st, buf st !! s);
  match r with Some c => mret c | None => fail (Undef "line") end.

(** while(s < es and cond of the character at s) s++ *)
Fixpoint skip_while (cond : Z → bool) (n s es : nat) : P nat :=
  match n with
  | O => mret s
  | S n =>
      if (s <? es)%nat then
        c ← at_ s;
        if cond c then skip_while cond n (S s) es else mret s
      else mret s
  end.
(** The loop takes at most [es - s] steps. *)
Definition skip (cond : Z → bool) (s es : nat) : P nat := skip_while cond (es - s) s es.

Definition skip_space : nat → nat → P nat := skip (strchr whitespace).

(** The token, its start and end, and the new position. *)
Definition gettoken (s es : nat) : P (Z * nat * nat * nat) :=
  s ← skip_space s es;
  let q := s in
  c ← at_ s;
  r ← (if c =? 0 then mret (c, s)
       else if bool_decide (c ∈ [124; 40; 41; 59; 38; 60]) then mret (c, S s)
       else if c =? 62 then
         c' ← at_ (S s);
         mret (if c' =? 62 then (43, S (S s)) else (c, S s))
       else
         s ← skip (λ c, negb (strchr whitespace c) && negb (strchr symbols c)) s es;
         mret (97, s));
  let '(ret, eq) := r in
  s ← skip_space eq es;
  mret (ret, q, eq, s).

(** The answer and the new position. *)
Definition peek (s es : nat) (toks : list Z) : P (bool * nat) :=
  s ← skip_space s es;
  c ← at_ s;
  mret (negb (c =? 0) && strchr toks c, s).

(** ** Parsing *)

Definition parseredir (cmd s es : nat) : P (nat * nat) :=
  r ← gettoken s es;
  let '(tok, _, _, s) := r in
  r ← gettoken s es;
  let '(tok', q, eq, s) := r in
  when (negb (tok' =? 97)) (panic "missing file for redirection");;
  cmd ← (if tok =? 60 then redircmd cmd q eq O_RDONLY 0
         else if tok =? 62 then redircmd cmd q eq (Z.lor O_WRONLY (Z.lor O_CREATE O_TRUNC)) 1
         else if tok =? 43 then redircmd cmd q eq (Z.lor O_WRONLY O_CREATE) 1
         else mret cmd);
  mret (cmd, s).

(** Loops and recursion take a bound; every round takes a character, and
    [parsecmd] passes one that is enough. *)
Fixpoint parseredirs (fuel cmd s es : nat) : P (nat * nat) :=
  match fuel with
  | O => fail NoFuel
  | S fuel =>
      r ← peek s es [60; 62];
      let '(b, s) := r in
      if b : bool then
        r ← parseredir cmd s es;
        let '(cmd, s) := r in
        parseredirs fuel cmd s es
      else mret (cmd, s)
  end.

(** The loop of [parseexec]; [cmd] is the execcmd, [ret] what wraps it. *)
Fixpoint parseargs (fuel cmd ret argc s es : nat) : P (nat * nat) :=
  match fuel with
  | O => fail NoFuel
  | S fuel =>
      r ← peek s es [124; 41; 38; 59];
      let '(b, s) := r in
      if b : bool then mret (ret, s) else
      r ← gettoken s es;
      let '(tok, q, eq, s) := r in
      if tok =? 0 then mret (ret, s) else
      when (negb (tok =? 97)) (panic "syntax");;
      add_arg cmd q eq;;
      let argc := S argc in
      when (MAXARGS <=? argc)%nat (panic "too many args");;
      r ← parseredirs fuel ret s es;
      let '(ret, s) := r in
      parseargs fuel cmd ret argc s es
  end.

(** The loop of [parseline] over "&". *)
Fixpoint parseback (fuel cmd s es : nat) : P (nat * nat) :=
  match fuel with
  | O => fail NoFuel
  | S fuel =>
      r ← peek s es [38];
      let '(b, s) := r in
      if b : bool then
        r ← gettoken s es;
        let '(_, _, _, s) := r in
        cmd ← backcmd cmd;
        parseback fuel cmd s es
      else mret (cmd, s)
  end.

Fixpoint parseline (fuel s es : nat) : P (nat * nat) :=
  match fuel with
  | O => fail NoFuel
  | S fuel =>
      r ← parsepipe fuel s es;
      let '(cmd, s) := r in
      r ← parseback fuel cmd s es;
      let '(cmd, s) := r in
      r ← peek s es [59];
      let '(b, s) := r in
      if b : bool then
        r ← gettoken s es;
        let '(_, _, _, s) := r in
        r ← parseline fuel s es;
        let '(rt, s) := r in
        cmd ← listcmd cmd rt;
        mret (cmd, s)
      else mret (cmd, s)
  end
with parsepipe (fuel s es : nat) : P (nat * nat) :=
  match fuel with
  | O => fail NoFuel
  | S fuel =>
      r ← parseexec fuel s es;
      let '(cmd, s) := r in
      r ← peek s es [124];
      let '(b, s) := r in
      if b : bool then
        r ← gettoken s es;
        let '(_, _, _, s) := r in
        r ← parsepipe fuel s es;
        let '(rt, s) := r in
        cmd ← pipecmd cmd rt;
        mret (cmd, s)
      else mret (cmd, s)
  end
with parseexec (fuel s es : nat) : P (nat * nat) :=
  match fuel with
  | O => fail NoFuel
  | S fuel =>
      r ← peek s es [40];
      let '(b, s) := r in
      if b : bool then parseblock fuel s es
      else
        cmd ← execcmd;
        r ← parseredirs fuel cmd s es;
        let '(ret, s) := r in
        parseargs fuel cmd ret 0 s es
  end
with parseblock (fuel s es : nat) : P (nat * nat) :=
  match fuel with
  | O => fail NoFuel
  | S fuel =>
      r ← peek s es [40];
      let '(b, s) := r in
      when (negb b) (panic "parseblock");;
      r ← gettoken s es;
      let '(_, _, _, s) := r in
      r ← parseline fuel s es;
      let '(cmd, s) := r in
      r ← peek s es [41];
      let '(b, s) := r in
      when (negb b) (panic "syntax - missing )");;
      r ← gettoken s es;
      let '(_, _, _, s) := r in
      parseredirs fuel cmd s es
  end.

(** *p = 0 *)
Definition terminate (p : nat) : P unit :=
  b ← gets buf;
  when (length b <=? p)%nat (fail (Undef "line"));;
  modify (λ s, mksh (<[p := 0]> (buf s)) (nodes s) (room s)).

Fixpoint terminate_all (ps : list (nat * nat)) : P unit :=
  match ps with
  | [] => mret ()
  | (_, eq) :: ps => terminate eq;; terminate_all ps
  end.

(** A node is older than those that point to it, so its index bounds the depth. *)
Fixpoint nulterminate (fuel cmd : nat) : P unit :=
  match fuel with
  | O => fail NoFuel
  | S fuel =>
      ns ← gets nodes;
      match ns !! cmd with
      | Some (execcmd_ argv) => terminate_all argv
      | Some (redircmd_ cmd _ efile _ _) => nulterminate fuel cmd;; terminate efile
      | Some (pipecmd_ l r) => nulterminate fuel l;; nulterminate fuel r
      | Some (listcmd_ l r) => nulterminate fuel l;; nulterminate fuel r
      | Some (backcmd_ cmd) => nulterminate fuel cmd
      | None => fail (Undef "cmd")
      end
  end.

(** The length of the string at the start of the line. *)
Fixpoint strlen (b : list Z) : nat :=
  match b with
  | [] => 0
  | c :: b => if c =? 0 then 0 else S (strlen b)
  end.

Definition parse_fuel (n : nat) : nat := 4 * n + 8.

Definition parsecmd : P nat :=
  b ← gets buf;
  let es := strlen b in
  r ← parseline (parse_fuel es) 0 es;
  let '(cmd, s) := r in
  r ← peek s es [];
  let '(_, s) := r in
  when (negb (s =? es)%nat) (panic "syntax");;
  nulterminate (S cmd) cmd;;
  mret cmd.
