(* ===== verification/ShRun.v ===== *)
(** * user/sh.c: running commands

    [runcmd] and [main] as trees of system calls, and what they do to the file
    descriptors of the processes they create. *)
From S2P Require Import Prelude Param Sh.
From stdpp Require Import gmap.

#[local] Open Scope Z_scope.

(** ** Commands as trees *)

(** A [struct cmd] with what it points to; strings without their terminator. *)
Inductive cmd :=
| Exec (argv : list (list Z))
| Redir (c : cmd) (file : list Z) (mode fd : Z)
| Pipe (l r : cmd)
| List (l r : cmd)
| Back (c : cmd).

(** The string at position [p]. *)
Definition cstr (b : list Z) (p : nat) : list Z := take (strlen (drop p b)) (drop p b).

Fixpoint cmd_at (fuel : nat) (b : list Z) (ns : list node) (p : nat) : option cmd :=
  match fuel with
  | O => None
  | S fuel =>
      match ns !! p with
      | Some (execcmd_ argv) => Some (Exec ((λ a, cstr b a.1) <$> argv))
      | Some (redircmd_ c file _ mode fd) => (λ c, Redir c (cstr b file) mode fd) <$> cmd_at fuel b ns c
      | Some (pipecmd_ l r) => l ← cmd_at fuel b ns l; r ← cmd_at fuel b ns r; Some (Pipe l r)
      | Some (listcmd_ l r) => l ← cmd_at fuel b ns l; r ← cmd_at fuel b ns r; Some (List l r)
      | Some (backcmd_ c) => Back <$> cmd_at fuel b ns c
      | None => None
      end
  end.

(** ** System calls *)

(** A process up to its exit; each call with what follows it. *)
Inductive prog :=
| exit_ (status : Z)
| exec_ (path : list Z) (argv : list (list Z)) (failed : prog)
| open_ (path : list Z) (mode : Z) (k : Z → prog)
| close_ (fd : Z) (k : prog)
| dup_ (fd : Z) (k : prog)
| pipe_ (k : Z → Z → prog) (failed : prog)
| fork_ (child parent failed : prog)
| wait_ (k : prog)
| chdir_ (path : list Z) (k : Z → prog)
| print_ (fd : Z) (msg : string) (arg : list Z) (k : prog).

Definition shpanic (msg : string) : prog := print_ 2 msg [] (exit_ 1).

(** fork, or panic *)
Definition fork1 (child parent : prog) : prog := fork_ child parent (shpanic "fork").

Fixpoint runcmd (c : cmd) : prog :=
  match c with
  | Exec argv =>
      match argv with
      | [] => exit_ 1
      | path :: _ => exec_ path argv (print_ 2 "exec %s failed" path (exit_ 0))
      end
  | Redir c file mode fd =>
      close_ fd (open_ file mode (λ r,
        if r <? 0 then print_ 2 "open %s failed" file (exit_ 1) else runcmd c))
  | List l r => fork1 (runcmd l) (wait_ (runcmd r))
  | Pipe l r =>
      pipe_ (λ p0 p1,
        fork1 (close_ 1 (dup_ p1 (close_ p0 (close_ p1 (runcmd l)))))
        (fork1 (close_ 0 (dup_ p0 (close_ p0 (close_ p1 (runcmd r)))))
        (close_ p0 (close_ p1 (wait_ (wait_ (exit_ 0)))))))
        (shpanic "pipe")
  | Back c => fork1 (runcmd c) (exit_ 0)
  end.

(** What the child does with a line: parse it and run it. *)
Definition child (line : list Z) (mem : nat) : prog :=
  match parsecmd (mksh line [] mem) with
  | Ok c s => match cmd_at (S c) (buf s) (nodes s) c with Some t => runcmd t | None => exit_ 1 end
  | Err (Panic msg) => shpanic msg
  | Err _ => exit_ (-1)
  end.

(** "cd " at the start of a line *)
Definition is_cd (line : list Z) : bool :=
  bool_decide (take 3 line = [99; 100; 32]).

(** buf[strlen(buf)-1] = 0, then the path behind "cd " *)
Definition cd_path (line : list Z) : list Z := drop 3 (take (strlen line - 1) line).

(** getcmd: the prompt, and a line, or the end of the input *)
Definition getcmd (line : list Z) (eof ok : prog) : prog :=
  print_ 2 "$ " [] (if hd 0 line =? 0 then eof else ok).

(** The loop of [main] over the lines that [gets] reads. *)
Fixpoint main_loop (lines : list (list Z)) (mem : nat) : prog :=
  match lines with
  | [] => getcmd [] (exit_ 0) (exit_ 0)
  | line :: lines =>
      getcmd line (exit_ 0) (
        if is_cd line then
          chdir_ (cd_path line) (λ r,
            if r <? 0 then print_ 2 "cannot cd %s" (cd_path line) (main_loop lines mem) else main_loop lines mem)
        else fork1 (child line mem) (wait_ (main_loop lines mem)))
  end.

(** "console" *)
Definition CONSOLE : list Z := [99; 111; 110; 115; 111; 108; 101].

(** The loop that opens the first three descriptors ends when [open] fails or
    returns more than 2; at most [NOFILE] calls succeed. *)
Fixpoint open_console (n : nat) (k : prog) : prog :=
  match n with
  | O => k
  | S n => open_ CONSOLE O_RDWR (λ fd, if fd <? 0 then k else if 3 <=? fd then close_ fd k else open_console n k)
  end.

Definition main (lines : list (list Z)) (mem : nat) : prog := open_console 17 (main_loop lines mem).

(** ** File descriptors *)

Inductive ofile :=
| File (path : list Z) (mode : Z)
| ReadEnd (pipe : nat)
| WriteEnd (pipe : nat).

Abbreviation fdtab := (gmap Z ofile).

(** The lowest free descriptor, as the kernel's fdalloc finds it. *)
Fixpoint lowest_free (t : fdtab) (fd : Z) (n : nat) : option Z :=
  match n with
  | O => None
  | S n => match t !! fd with None => Some fd | Some _ => lowest_free t (fd + 1) n end
  end.
Definition fd_add (t : fdtab) (f : ofile) : option (Z * fdtab) :=
  (λ fd, (fd, <[fd := f]> t)) <$> lowest_free t 0 NOFILE.

(** The programs that a process and its children run, each with its descriptors
    and the number of pipes made before; [fails] tells which files cannot be
    opened.  [fork] succeeds. *)
Section execs.
Context (fails : list Z → Z → bool).

Fixpoint execs (p : prog) (t : fdtab) (n : nat) : list (list (list Z) * fdtab) * nat :=
  match p with
  | exit_ _ => ([], n)
  | exec_ _ argv _ => ([(argv, t)], n)
  | open_ path mode k =>
      if fails path mode then execs (k (-1)) t n
      else match fd_add t (File path mode) with
           | Some (fd, t) => execs (k fd) t n
           | None => execs (k (-1)) t n
           end
  | close_ fd k => execs k (delete fd t) n
  | dup_ fd k =>
      match t !! fd with
      | Some f => match fd_add t f with Some (_, t) => execs k t n | None => execs k t n end
      | None => execs k t n
      end
  | pipe_ k failed =>
      match fd_add t (ReadEnd n) with
      | Some (p0, t0) =>
          match fd_add t0 (WriteEnd n) with
          | Some (p1, t1) => execs (k p0 p1) t1 (S n)
          | None => execs failed t n
          end
      | None => execs failed t n
      end
  | fork_ child parent _ =>
      let '(l1, n) := execs child t n in
      let '(l2, n) := execs parent t n in (l1 ++ l2, n)
  | wait_ k => execs k t n
  | chdir_ _ k => execs (k 0) t n
  | print_ _ _ _ k => execs k t n
  end.
End execs.

(** ** The descriptors of a pipeline *)

Lemma lowest_free_spec t fd n r :
  lowest_free t fd n = Some r → fd ≤ r < fd + Z.of_nat n ∧ t !! r = None ∧ ∀ x, fd ≤ x < r → is_Some (t !! x).
Proof.
  revert fd; induction n as [|n IH]; intros fd Hr; [done|]. cbn [lowest_free] in Hr. destruct (t !! fd) as [f|] eqn:E.
  - apply IH in Hr as (H1 & H2 & H3). split_and!; [lia|lia|done|]. intros x Hx. destruct (decide (x = fd)) as [->|]; [eauto|]. apply H3. lia.
  - injection Hr as <-. split_and!; [lia|lia|done|lia].
Qed.

(** The descriptor a process closed is the one it gets next, when those below
    it are in use. *)
Lemma fd_add_closed t fd f :
  0 ≤ fd < 3 → (∀ x, 0 ≤ x < fd → is_Some (t !! x)) → fd_add (delete fd t) f = Some (fd, <[fd := f]> t).
Proof.
  intros Hfd Hlow. unfold fd_add. assert (lowest_free (delete fd t) 0 NOFILE = Some fd) as ->; [|simpl; by rewrite insert_delete_eq].
  assert (∀ x, 0 ≤ x < fd → is_Some (delete fd t !! x)) as Hlow' by (intros x Hx; rewrite lookup_delete_ne by lia; by apply Hlow).
  assert (delete fd t !! fd = None) as Hn by apply lookup_delete_eq.
  assert (fd = 0 ∨ fd = 1 ∨ fd = 2) as [-> | [-> | ->]] by lia; unfold NOFILE; simpl; change (0 + 1 + 1) with 2; change (0 + 1) with 1.
  - by rewrite Hn.
  - destruct (Hlow' 0) as [? ->]; [lia|]. by rewrite Hn.
  - destruct (Hlow' 0) as [? ->]; [lia|]. destruct (Hlow' 1) as [? ->]; [lia|]. by rewrite Hn.
Qed.

Lemma execs_redir fails c file mode fd t n :
  0 ≤ fd < 3 → (∀ x, 0 ≤ x < fd → is_Some (t !! x)) → fails file mode = false →
  execs fails (runcmd (Redir c file mode fd)) t n = execs fails (runcmd c) (<[fd := File file mode]> t) n.
Proof.
  intros Hfd Hlow Hok. cbn [runcmd execs]. rewrite Hok, fd_add_closed by done. destruct (Z.ltb_spec fd 0); [lia|done].
Qed.

Lemma execs_pipe fails l r t n p0 p1 :
  is_Some (t !! 0) → is_Some (t !! 1) →
  lowest_free t 0 NOFILE = Some p0 → lowest_free (<[p0 := ReadEnd n]> t) 0 NOFILE = Some p1 →
  execs fails (runcmd (Pipe l r)) t n =
    let '(el, nl) := execs fails (runcmd l) (<[1 := WriteEnd n]> t) (S n) in
    let '(er, nr) := execs fails (runcmd r) (<[0 := ReadEnd n]> t) nl in (el ++ er, nr).
Proof.
  intros H0 H1 Hp0 Hp1. cbn [runcmd execs]. unfold fd_add at 1. rewrite Hp0. cbn [fmap option_fmap option_map]. unfold fd_add at 1. rewrite Hp1.
  cbn [fmap option_fmap option_map fork1 execs]. set (t1 := <[p1 := WriteEnd n]> (<[p0 := ReadEnd n]> t)).
  apply lowest_free_spec in Hp0 as (R0 & F0 & _), Hp1 as (R1 & F1 & _).
  assert (p0 ≠ 0 ∧ p0 ≠ 1) as [? ?] by (split; intros ->; destruct H0, H1; congruence).
  assert (p1 ≠ p0) as Hne by (intros ->; by rewrite lookup_insert_eq in F1). rewrite lookup_insert_ne in F1 by done.
  assert (p1 ≠ 0 ∧ p1 ≠ 1) as [? ?] by (split; intros ->; destruct H0, H1; congruence).
  assert (∀ x, x = 0 ∨ x = 1 → is_Some (t1 !! x)) as Ht1.
  { intros x Hx. unfold t1. rewrite !lookup_insert_ne by naive_solver. naive_solver. }
  assert (∀ fd f, fd = 0 ∨ fd = 1 → delete p1 (delete p0 (<[fd := f]> t1)) = <[fd := f]> t) as Hmap.
  { intros fd f Hfd. apply map_eq. intros x. destruct (decide (x = p1)) as [->|]; [rewrite lookup_delete_eq, lookup_insert_ne by naive_solver; done|].
    rewrite lookup_delete_ne by done. destruct (decide (x = p0)) as [->|]; [rewrite lookup_delete_eq, lookup_insert_ne by naive_solver; done|].
    rewrite lookup_delete_ne by done. destruct (decide (x = fd)) as [->|]; [by rewrite !lookup_insert_eq|].
    unfold t1. by rewrite !lookup_insert_ne. }
  rewrite lookup_delete_ne by lia. assert (t1 !! p1 = Some (WriteEnd n)) as -> by apply lookup_insert_eq.
  rewrite (fd_add_closed t1 1) by (first [lia|intros; apply Ht1; lia]). rewrite Hmap by auto.
  destruct (execs fails (runcmd l) _ _) as [el nl]. rewrite lookup_delete_ne by lia.
  assert (t1 !! p0 = Some (ReadEnd n)) as -> by (unfold t1; rewrite lookup_insert_ne by done; apply lookup_insert_eq).
  rewrite (fd_add_closed t1 0) by (first [lia|intros; apply Ht1; lia]). rewrite Hmap by auto.
  destruct (execs fails (runcmd r) _ _) as [er nr]. by rewrite app_nil_r.
Qed.

(** C31: the descriptors a command starts with.  In [l | r], with descriptors 0
    and 1 open and two more free, every program of [l] has the write end of a
    new pipe as its descriptor 1, every program of [r] the read end as its
    descriptor 0, and neither has any other descriptor of the pipe: all else is
    as in the shell.  In a redirection of [fd] the programs of the command have
    the file as [fd]. *)
Theorem runcmd_descriptors fails t n :
  (∀ l r p0 p1, is_Some (t !! 0) → is_Some (t !! 1) →
     lowest_free t 0 NOFILE = Some p0 → lowest_free (<[p0 := ReadEnd n]> t) 0 NOFILE = Some p1 →
     execs fails (runcmd (Pipe l r)) t n =
       let '(el, nl) := execs fails (runcmd l) (<[1 := WriteEnd n]> t) (S n) in
       let '(er, nr) := execs fails (runcmd r) (<[0 := ReadEnd n]> t) nl in (el ++ er, nr)) ∧
  (∀ c file mode fd, 0 ≤ fd < 3 → (∀ x, 0 ≤ x < fd → is_Some (t !! x)) → fails file mode = false →
     execs fails (runcmd (Redir c file mode fd)) t n = execs fails (runcmd c) (<[fd := File file mode]> t) n).
Proof. split; [intros; by apply execs_pipe with p0 p1|intros; by apply execs_redir]. Qed.

(** a | b, started with the console as 0, 1 and 2 *)
Lemma runcmd_descriptors_witness :
  let t : fdtab := <[0 := File CONSOLE 2]> (<[1 := File CONSOLE 2]> {[2 := File CONSOLE 2]}) in
  execs (λ _ _, false) (runcmd (Pipe (Exec [[97]]) (Exec [[98]]))) t 0 =
    ([([[97]], <[1 := WriteEnd 0]> t); ([[98]], <[0 := ReadEnd 0]> t)], 1%nat).
Proof.
  intros t. destruct (runcmd_descriptors (λ _ _, false) t 0) as [Hp _].
  rewrite (Hp (Exec [[97]]) (Exec [[98]]) 3 4); [reflexivity| | | |]; [by eexists|by eexists|reflexivity|reflexivity].
Defined.
