(* ===== verification/ShSafe.v ===== *)
(** * The shell's parser never runs off the line

    On every line the parser ends, with a command or with a message: it reads
    only the line, its argument arrays do not overflow, and the strings of the
    command it returns are the words of the line. *)
From S2P Require Import Prelude Param Sh ShRun.

#[local] Open Scope Z_scope.

(** [m] returns with [Q] or ends in [panic]. *)
Definition wp {A} (m : P A) (st : sh) (Q : A → sh → Prop) : Prop :=
  match m st with
  | Ok a st' => Q a st'
  | Err (Panic _) => True
  | Err _ => False
  end.

Lemma shwp_ret {A} (a : A) st Q : Q a st → wp (mret a) st Q.
Proof. done. Qed.

Lemma shwp_bind {A B} (m : P A) (k : A → P B) st Q : wp m st (λ a st', wp (k a) st' Q) → wp (m ≫= k) st Q.
Proof. unfold wp, mbind, M_bind. destruct (m st) as [a st'|[]]; done. Qed.

Lemma wp_mono {A} (m : P A) st (Q Q' : A → sh → Prop) : wp m st Q → (∀ a st', Q a st' → Q' a st') → wp m st Q'.
Proof. unfold wp. destruct (m st) as [a st'|[]]; auto. Qed.

Lemma wp_ok {A} (m : P A) st a st' (Q : A → sh → Prop) : m st = Ok a st' → Q a st' → wp m st Q.
Proof. unfold wp. intros ->. done. Qed.

Lemma wp_check (c : bool) (msg : string) st Q : (c = false → Q () st) → wp (when c (panic msg)) st Q.
Proof. unfold wp. destruct c; simpl; auto. Qed.

(** ** Scanning the line *)

Section line.
Context (b : list Z) (es : nat).

(** The line ends at [es]. *)
Record line_ok : Prop := {
  lk_end : b !! es = Some 0;
  lk_char : ∀ k, (k < es)%nat → ∃ c, b !! k = Some c ∧ c ≠ 0 }.

Context (Hb : line_ok).

Lemma at_ok st k c : buf st = b → b !! k = Some c → at_ k st = Ok c st.
Proof using. clear Hb. intros Es Hk. unfold at_, gets, mbind, M_bind. by rewrite Es, Hk. Qed.

Lemma lk_lookup k : (k ≤ es)%nat → ∃ c, b !! k = Some c ∧ (c = 0 → k = es).
Proof using Hb.
  intros Hk. destruct (decide (k = es)) as [->|Hne]; [exists 0; split; [apply (lk_end Hb)|done]|].
  destruct (lk_char Hb k) as (c & Hc & Hc0); [lia|]. by exists c.
Qed.

(** Where a scan stops. *)
Definition stops (cond : Z → bool) (s r : nat) : Prop :=
  (s ≤ r ≤ es)%nat ∧ (∀ k, (s ≤ k < r)%nat → ∃ c, b !! k = Some c ∧ cond c = true) ∧
  (r = es ∨ ∃ c, b !! r = Some c ∧ cond c = false).

Lemma skip_stops st cond s r : buf st = b → stops cond s r → skip cond s es st = Ok r st.
Proof using.
  clear Hb. intros Es (Hr & Hin & Hend). unfold skip. assert (∃ d, r = s + d)%nat as [d ->] by (exists (r - s)%nat; lia).
  remember (es - s)%nat as n eqn:En. revert s d Hr Hin Hend En. induction n as [|n IH]; intros s d Hr Hin Hend En.
  { replace (s + d)%nat with s by lia. done. }
  cbn [skip_while]. destruct (Nat.ltb_spec s es); [|lia]. destruct d as [|d].
  - rewrite Nat.add_0_r in *. destruct Hend as [?|(c & Hc & Hf)]; [lia|]. runs (at_ok st s c Es Hc). by rewrite Hf.
  - destruct (Hin s) as (c & Hc & Ht); [lia|]. runs (at_ok st s c Es Hc). rewrite Ht.
    replace (s + S d)%nat with (S s + d)%nat in * by lia. apply IH; [lia|intros k Hk; apply Hin; lia|done|lia].
Qed.

Lemma stops_ex cond s : (s ≤ es)%nat → ∃ r, stops cond s r.
Proof using Hb.
  intros Hs. remember (es - s)%nat as n eqn:En. revert s Hs En. induction n as [|n IH]; intros s Hs En.
  { exists s. split_and!; [lia|lia|intros; lia|left; lia]. }
  destruct (lk_char Hb s) as (c & Hc & _); [lia|]. destruct (cond c) eqn:Ec.
  - destruct (IH (S s)) as (r & Hr & Hin & Hend); [lia|lia|]. exists r. split_and!; [lia|lia| |done].
    intros k Hk. destruct (decide (k = s)) as [->|]; [eauto|]. apply Hin. lia.
  - exists s. split_and!; [lia|lia|intros; lia|eauto].
Qed.

Lemma skip_ex st cond s : buf st = b → (s ≤ es)%nat → ∃ r, skip cond s es st = Ok r st ∧ stops cond s r.
Proof using Hb. intros Es Hs. destruct (stops_ex cond s Hs) as [r Hr]. exists r. split; [by apply skip_stops|done]. Qed.

(** A character of a word. *)
Definition wordchar (c : Z) : bool := negb (strchr whitespace c) && negb (strchr symbols c) && negb (c =? 0).

(** Positions [q..eq) are a whole word. *)
Definition word (q eq : nat) : Prop :=
  (q < eq ≤ es)%nat ∧ (∀ k, (q ≤ k < eq)%nat → ∃ c, b !! k = Some c ∧ wordchar c = true) ∧
  ∃ c, b !! eq = Some c ∧ wordchar c = false.

(** Where [gettoken] goes: at the end of the line it stays, otherwise it takes
    at least a character, and only "a" is a word. *)
Definition token (s : nat) (r : Z * nat * nat * nat) : Prop :=
  let '(tok, q, eq, s') := r in
  (s ≤ q ≤ eq)%nat ∧ (eq ≤ s' ≤ es)%nat ∧ (tok = 0 ∨ (q < s')%nat) ∧ (tok = 97 → word q eq).

Lemma gettoken_ok st s : buf st = b → (s ≤ es)%nat → ∃ r, gettoken s es st = Ok r st ∧ token s r.
Proof using Hb.
  intros Es Hs. unfold gettoken, skip_space. destruct (skip_ex st (strchr whitespace) s Es Hs) as (q & Hrun & (Hq & _ & Hend)). runs Hrun.
  destruct (lk_lookup q) as (c & Hc & Hc0); [lia|]. runs (at_ok st q c Es Hc).
  assert (∀ tok eq, (q ≤ eq ≤ es)%nat → (tok = 0 ∨ (q < eq)%nat) → (tok = 97 → word q eq) →
    ∃ r, (s' ← skip_space eq es; mret (tok, q, eq, s')) st = Ok r st ∧ token s r) as Hfin.
  { intros tok eq Heq Hlt Hw. destruct (skip_ex st (strchr whitespace) eq Es) as (s' & Hrun' & (Hs' & _)); [lia|].
    exists (tok, q, eq, s'). split; [by runs Hrun'|]. unfold token. split_and!; try done; lia. }
  assert (c ≠ 0 → (q < es)%nat) as Hlt by (intros ?; destruct (decide (q = es)) as [->|]; [rewrite (lk_end Hb) in Hc; congruence|lia]).
  destruct (Z.eqb_spec c 0) as [E|E]; [rewrite ret_bind; apply Hfin; [lia|by left|subst c; done]|].
  case_bool_decide as Hsym; [rewrite ret_bind; apply Hfin; [specialize (Hlt E); lia|lia|]; intros ->; by vm_compute in Hsym; set_solver|].
  destruct (Z.eqb_spec c 62) as [E62|E62].
  - specialize (Hlt E). destruct (lk_lookup (S q)) as (c' & Hc' & Hc0'); [lia|]. rewrite bind_assoc. runs (at_ok st (S q) c' Es Hc'). rewrite ret_bind.
    destruct (Z.eqb_spec c' 62) as [E'|E']; apply Hfin; try lia; try done.
    assert (S q ≠ es) by (intros E2; rewrite E2, (lk_end Hb) in Hc'; congruence). lia.
  - specialize (Hlt E). set (cond := λ c, negb (strchr whitespace c) && negb (strchr symbols c)).
    assert (cond c = true) as Hcc.
    { unfold cond, strchr. destruct (Z.eqb_spec c 0); [done|]. rewrite !andb_true_r. rewrite !bool_decide_eq_false_2; [done| |].
      - intros Hin. apply Hsym. unfold symbols in Hin. set_solver.
      - destruct Hend as [?|(c2 & Hc2 & Hf)]; [lia|]. rewrite Hc in Hc2. injection Hc2 as <-. unfold strchr in Hf.
        destruct (Z.eqb_spec c 0); [done|]. rewrite andb_true_r in Hf. by apply bool_decide_eq_false_1 in Hf. }
    destruct (skip_ex st cond q Es) as (eq & Hrun' & (Heq & Hin & Hend')); [lia|]. rewrite bind_assoc. runs Hrun'. rewrite ret_bind.
    assert (q < eq)%nat as Hqe.
    { destruct Hend' as [?|(c2 & Hc2 & Hf)]; [lia|]. destruct (decide (eq = q)) as [->|]; [|lia]. congruence. }
    apply Hfin; [lia|by right|]. intros _. split_and!; [lia|lia| |].
    + intros k Hk. destruct (Hin k Hk) as (ck & Hck & Ht). exists ck. split; [done|]. unfold wordchar. fold (cond ck). rewrite Ht.
      destruct (lk_char Hb k) as (c2 & Hc2 & Hn); [lia|]. assert (c2 = ck) as -> by congruence. by destruct (Z.eqb_spec ck 0).
    + destruct Hend' as [->|(c2 & Hc2 & Hf)]; [exists 0; split; [apply (lk_end Hb)|done]|].
      exists c2. split; [done|]. unfold wordchar. fold (cond c2). by rewrite Hf.
Qed.

Lemma peek_ok st s toks :
  buf st = b → (s ≤ es)%nat → ∃ r s', peek s es toks st = Ok (r, s') st ∧ stops (strchr whitespace) s s' ∧
    (r = true → (s' < es)%nat) ∧ ∃ c, b !! s' = Some c ∧ r = negb (c =? 0) && strchr toks c.
Proof using Hb.
  intros Es Hs. unfold peek, skip_space. destruct (skip_ex st (strchr whitespace) s Es Hs) as (s' & Hrun & Hst). runs Hrun.
  destruct (lk_lookup s') as (c & Hc & Hc0); [destruct Hst; lia|]. runs (at_ok st s' c Es Hc). eexists _, s'. split; [reflexivity|].
  split_and!; [done| |by exists c]. intros Hr. destruct (decide (s' = es)) as [->|]; [|destruct Hst; lia].
  rewrite (lk_end Hb) in Hc. by injection Hc as <-.
Qed.

(** ** The nodes *)

Definition node_ok (i : nat) (n : node) : Prop :=
  match n with
  | execcmd_ argv => (length argv < MAXARGS)%nat ∧ Forall (λ a, word a.1 a.2) argv
  | redircmd_ c q eq _ _ => (c < i)%nat ∧ word q eq
  | pipecmd_ l r | listcmd_ l r => (l < i)%nat ∧ (r < i)%nat
  | backcmd_ c => (c < i)%nat
  end.

(** The line is untouched and the nodes are in order. *)
Definition pok (st : sh) : Prop := buf st = b ∧ ∀ i n, nodes st !! i = Some n → node_ok i n.

Lemma wp_new n st (Q : nat → sh → Prop) :
  pok st → (0 < room st)%nat → node_ok (length (nodes st)) n →
  (∀ st', pok st' → nodes st' = nodes st ++ [n] → room st = S (room st') → Q (length (nodes st)) st') →
  wp (new n) st Q.
Proof using.
  clear Hb. intros [Es Hn] Hr Hok HQ. unfold new. destruct (room st) as [|r] eqn:Er; [lia|]. unfold wp, mbind, M_bind, gets. rewrite Er.
  apply HQ; [|done|done]. split; [done|]. simpl. intros i n' [Hi|[Hi He]]%lookup_app_Some; [by apply Hn|].
  apply list_lookup_singleton_Some in He as [He <-]. by replace i with (length (nodes st)) by lia.
Qed.

(** What the parts of the parser do to the state: the new position, the nodes
    made, of which there are at most two for each character and [c] more. *)
Definition parsed (st : sh) (s c : nat) (r : nat * nat) (st' : sh) : Prop :=
  pok st' ∧ (s ≤ r.2 ≤ es)%nat ∧ (r.1 < length (nodes st'))%nat ∧ (length (nodes st) ≤ length (nodes st'))%nat ∧
  (room st ≤ room st' + 2 * (r.2 - s) + c)%nat.

Lemma wp_gettoken st s (Q : Z * nat * nat * nat → sh → Prop) :
  pok st → (s ≤ es)%nat → (∀ r, token s r → Q r st) → wp (gettoken s es) st Q.
Proof using Hb. intros [Es _] Hs HQ. destruct (gettoken_ok st s Es Hs) as (r & Hrun & Ht). eapply wp_ok; [exact Hrun|auto]. Qed.

Lemma wp_peek st s toks (Q : bool * nat → sh → Prop) :
  pok st → (s ≤ es)%nat →
  (∀ r s', (s ≤ s' ≤ es)%nat → (r = true → (s' < es)%nat) → (r = true → ∃ c, b !! s' = Some c ∧ strchr toks c = true) → Q (r, s') st) →
  wp (peek s es toks) st Q.
Proof using Hb.
  intros [Es _] Hs HQ. destruct (peek_ok st s toks Es Hs) as (r & s' & Hrun & (Hst & _) & Hlt & (c & Hc & Hr)).
  eapply wp_ok; [exact Hrun|]. apply HQ; [done|done|]. intros ->. exists c. split; [done|]. symmetry in Hr. by apply andb_prop in Hr as [_ ?].
Qed.

(** A token that [peek] has just seen is not the end of the line. *)
Lemma token_seen st s (Q : Z * nat * nat * nat → sh → Prop) :
  pok st → (s < es)%nat → (∃ c, b !! s = Some c ∧ strchr whitespace c = false) →
  (∀ tok q eq s', (s < s' ≤ es)%nat → token s (tok, q, eq, s') → Q (tok, q, eq, s') st) → wp (gettoken s es) st Q.
Proof using Hb.
  intros Hp Hs (c & Hc & Hw) HQ. pose proof Hp as [Es _]. unfold wp. destruct (gettoken_ok st s Es) as ([[[tok q] eq] s'] & Hrun & Ht); [lia|].
  rewrite Hrun. apply HQ; [|done]. destruct Ht as (H1 & H2 & H3 & _). split; [|lia]. destruct H3 as [->|?]; [|lia]. exfalso.
  revert Hrun. unfold gettoken, skip_space. runs (skip_stops st (strchr whitespace) s s Es) by (split_and!; [lia|lia|intros; lia|right; eauto]).
  runs (at_ok st s c Es Hc). destruct (lk_char Hb s) as (c' & Hc' & Hn); [lia|]. assert (c' = c) as -> by congruence.
  destruct (Z.eqb_spec c 0); [done|]. intros Hrun. apply bind_inv_ok in Hrun as ([ret e] & st1 & Hr1 & Hr2).
  apply bind_inv_ok in Hr2 as (s2 & st2 & _ & [= Hret _ _ _ _]). subst ret. revert Hr1.
  case_bool_decide; [by intros [= ? _ _]|]. destruct (Z.eqb_spec c 62); [|by intros (? & ? & _ & [=])%bind_inv_ok].
  intros (c2 & ? & _ & Hr1)%bind_inv_ok. destruct (c2 =? 62); injection Hr1; lia.
Qed.

(** [peek] for symbols, and the token it saw. *)
Lemma symbol_not_space toks c :
  forallb (λ x, negb (bool_decide (x ∈ whitespace))) toks = true → strchr toks c = true → strchr whitespace c = false.
Proof using.
  clear Hb. intros Hall Hc. unfold strchr in *. apply andb_prop in Hc as [Hin%bool_decide_eq_true_1 _]. apply andb_false_iff. left.
  rewrite forallb_forall in Hall. apply negb_true_iff, Hall. by apply list_elem_of_In.
Qed.

Lemma wp_symbol st s toks (Q : Z * nat * nat * nat → sh → Prop) :
  pok st → (s < es)%nat → forallb (λ x, negb (bool_decide (x ∈ whitespace))) toks = true →
  (∃ c, b !! s = Some c ∧ strchr toks c = true) →
  (∀ tok q eq s', (s < s' ≤ es)%nat → Q (tok, q, eq, s') st) → wp (gettoken s es) st Q.
Proof using Hb.
  intros Hp Hs Hall (c & Hc & Ht) HQ. apply token_seen; [done|done|exists c; split; [done|by eapply symbol_not_space]|].
  intros tok q eq s' Hs' _. by apply HQ.
Qed.

Lemma wp_parseredirs fuel st cmd s :
  pok st → (s ≤ es)%nat → (cmd < length (nodes st))%nat → (es - s < fuel)%nat → (2 * (es - s) ≤ room st)%nat →
  wp (parseredirs fuel cmd s es) st (λ r st', parsed st s 0 r st' ∧ nodes st `prefix_of` nodes st').
Proof using Hb.
  revert st cmd s; induction fuel as [|fuel IH]; intros st cmd s Hp Hs Hcmd Hf Hroom; [lia|]. cbn [parseredirs].
  apply shwp_bind, wp_peek; [done|done|]. intros [] s1 Hs1 Hlt Hseen; [|apply shwp_ret; split; [|done]; split_and!; try done; simpl; lia].
  specialize (Hlt eq_refl). specialize (Hseen eq_refl).
  unfold parseredir. apply shwp_bind, shwp_bind, (wp_symbol _ _ [60; 62]); [done|done|done|done|]. intros tok q eq s2 Hs2.
  apply shwp_bind, wp_gettoken; [done|lia|]. intros [[[tok' q'] eq'] s3] (T1 & T2 & T3 & T4).
  apply shwp_bind, wp_check. intros Htok%negb_false_iff%Z.eqb_eq. specialize (T4 Htok). destruct T3 as [?|T3]; [lia|].
  assert (∀ mode fd, wp (redircmd cmd q' eq' mode fd) st (λ c st', wp (r ← mret (c, s3); let '(cmd, s) := r in parseredirs fuel cmd s es) st'
    (λ r st', parsed st s 0 r st' ∧ nodes st `prefix_of` nodes st'))) as Hnew.
  { intros mode fd. apply wp_new; [done|lia|by split|]. intros st1 Hp1 Hns Hr1. apply shwp_bind, shwp_ret.
    eapply wp_mono; [apply IH; [done|lia|rewrite Hns, length_app; simpl; lia|lia|lia]|].
    intros [c' s'] st' ((Hp' & Hs' & Hc' & Hl' & Hr') & Hpre). rewrite Hns in Hpre, Hl'. simpl in *. rewrite length_app in Hl'.
    split; [split_and!; try done; simpl in *; lia|]. etransitivity; [|done]. by apply prefix_app_r. }
  apply shwp_bind. destruct (tok =? 60); [apply Hnew|]. destruct (tok =? 62); [apply Hnew|]. destruct (tok =? 43); [apply Hnew|].
  change (wp (parseredirs fuel cmd s3 es) st (λ r st', parsed st s 0 r st' ∧ nodes st `prefix_of` nodes st')). eapply wp_mono; [apply IH; [done|lia|done|lia|lia]|].
  intros [c' s'] st' ((Hp' & Hs' & Hc' & Hl' & Hr') & Hpre). split; [split_and!; try done; simpl in *; lia|done].
Qed.

Lemma parsed_trans st s c st1 s1 c1 r1 r st' :
  parsed st s c r1 st1 → r1.2 = s1 → parsed st1 s1 c1 r st' → parsed st s (c + c1) r st'.
Proof using. clear Hb. intros (_ & H1 & _ & H2 & H3) <- (? & ? & ? & ? & ?). split_and!; try done; lia. Qed.

(** An argument added to a node that has room. *)
Lemma wp_add_arg st cmd argv q eq (Q : unit → sh → Prop) :
  pok st → nodes st !! cmd = Some (execcmd_ argv) →
  Q () (mksh (buf st) (<[cmd := execcmd_ (argv ++ [(q, eq)])]> (nodes st)) (room st)) → wp (add_arg cmd q eq) st Q.
Proof using.
  clear Hb. intros [_ Hn] Hc HQ. destruct (Hn _ _ Hc) as [Hl _]. unfold wp, add_arg, gets, mbind, M_bind. rewrite Hc.
  destruct (Nat.leb_spec MAXARGS (length argv)); [lia|]. done.
Qed.

Lemma pok_add_arg st cmd argv q eq :
  pok st → nodes st !! cmd = Some (execcmd_ argv) → (S (length argv) < MAXARGS)%nat → word q eq →
  pok (mksh (buf st) (<[cmd := execcmd_ (argv ++ [(q, eq)])]> (nodes st)) (room st)).
Proof using.
  clear Hb. intros [Es Hn] Hc Hl Hw. split; [done|]. simpl. intros i n [(-> & <- & _)|(_ & Hi)]%list_lookup_insert_Some; [|by apply Hn].
  destruct (Hn _ _ Hc) as [_ Hf]. split; [rewrite length_app; simpl; lia|]. apply Forall_app. split; [done|]. by constructor.
Qed.

Lemma wp_parseargs fuel st cmd ret argc s argv :
  pok st → nodes st !! cmd = Some (execcmd_ argv) → length argv = argc → (ret < length (nodes st))%nat → (s ≤ es)%nat →
  (S (es - s) < fuel)%nat → (2 * (es - s) ≤ room st)%nat →
  wp (parseargs fuel cmd ret argc s es) st (parsed st s 0).
Proof using Hb.
  revert st ret argc s argv; induction fuel as [|fuel IH]; intros st ret argc s argv Hp Hc Hargc Hret Hs Hf Hroom; [lia|]. cbn [parseargs].
  apply shwp_bind, wp_peek; [done|done|]. intros [] s1 Hs1 _ _; [apply shwp_ret; split_and!; try done; simpl; lia|].
  apply shwp_bind, wp_gettoken; [done|lia|]. intros [[[tok q] eq] s2] (T1 & T2 & T3 & T4).
  destruct (Z.eqb_spec tok 0); [apply shwp_ret; split_and!; try done; simpl; lia|]. destruct T3 as [?|T3]; [done|].
  apply shwp_bind, wp_check. intros Htok%negb_false_iff%Z.eqb_eq. specialize (T4 Htok).
  apply shwp_bind, (wp_add_arg _ _ argv); [done|done|]. apply shwp_bind, wp_check. intros Hmax%Nat.leb_gt.
  set (st1 := mksh _ _ _). assert (pok st1) as Hp1 by (apply pok_add_arg; [done|done|lia|done]).
  assert (length (nodes st1) = length (nodes st)) as Hl1 by apply length_insert.
  apply shwp_bind. eapply wp_mono; [apply wp_parseredirs; [done|lia|lia|lia|simpl; lia]|].
  intros [ret' s3] st2 (Hpd & Hpre). pose proof Hpd as (Hp2 & Hs3 & Hr2 & Hl2 & Hroom2). simpl in *.
  assert (nodes st2 !! cmd = Some (execcmd_ (argv ++ [(q, eq)]))) as Hc2.
  { eapply prefix_lookup_Some, Hpre. apply list_lookup_insert_eq. by eapply lookup_lt_Some. }
  eapply wp_mono; [apply (IH st2 ret' (S argc) s3 _ Hp2 Hc2); [rewrite length_app; simpl; lia|lia|lia|lia|lia]|].
  intros [c' s'] st' (Hp' & Hs' & Hr' & Hl' & Hroom'). split_and!; try done; simpl in *; lia.
Qed.

Lemma wp_parseback fuel st cmd s :
  pok st → (s ≤ es)%nat → (cmd < length (nodes st))%nat → (es - s < fuel)%nat → (2 * (es - s) ≤ room st)%nat →
  wp (parseback fuel cmd s es) st (parsed st s 0).
Proof using Hb.
  revert st cmd s; induction fuel as [|fuel IH]; intros st cmd s Hp Hs Hcmd Hf Hroom; [lia|]. cbn [parseback].
  apply shwp_bind, wp_peek; [done|done|]. intros [] s1 Hs1 Hlt Hseen; [|apply shwp_ret; split_and!; try done; simpl; lia].
  specialize (Hlt eq_refl). specialize (Hseen eq_refl).
  apply shwp_bind, (wp_symbol _ _ [38]); [done|done|done|done|]. intros tok q eq s2 Hs2.
  apply shwp_bind, wp_new; [done|lia|done|]. intros st1 Hp1 Hns Hr1.
  eapply wp_mono; [apply IH; [done|lia|rewrite Hns, length_app; simpl; lia|lia|lia]|].
  intros [c' s'] st' (Hp' & Hs' & Hc' & Hl' & Hr'). rewrite Hns, length_app in Hl'. split_and!; try done; simpl in *; lia.
Qed.

(** ** The parser *)

(** Enough of the bound and of the heap for what is left of the line. *)
Definition can_parse (st : sh) (s fuel c : nat) : Prop :=
  pok st ∧ (s ≤ es)%nat ∧ (4 * (es - s) + c ≤ fuel)%nat ∧ (2 * (es - s) + 1 ≤ room st)%nat.

Definition parses (p : nat → nat → nat → P (nat * nat)) (fuel f c : nat) : Prop :=
  ∀ st s, can_parse st s fuel f → wp (p fuel s es) st (parsed st s c).

Lemma wp_parseexec fuel :
  (∀ st s, can_parse st s fuel 2 → (∃ c, b !! s = Some c ∧ strchr [40] c = true) → (s < es)%nat → wp (parseblock fuel s es) st (parsed st s 0)) →
  parses parseexec (S fuel) 3 1.
Proof using Hb.
  intros IH st s (Hp & Hs & Hf & Hroom). cbn [parseexec]. apply shwp_bind, wp_peek; [done|done|]. intros [] s1 Hs1 Hlt Hseen.
  - eapply wp_mono; [apply IH; [split_and!; try done; lia|by apply Hseen|by apply Hlt]|].
    intros [c' s'] st' (Hp' & Hs' & Hc' & Hl' & Hr'). split_and!; try done; simpl in *; lia.
  - apply shwp_bind, wp_new; [done|lia|by split; [unfold MAXARGS; simpl; lia|constructor]|]. intros st1 Hp1 Hns Hr1.
    apply shwp_bind. eapply wp_mono; [apply wp_parseredirs; [done|lia|rewrite Hns, length_app; simpl; lia|lia|lia]|].
    intros [ret s2] st2 ((Hp2 & Hs2 & Hc2 & Hl2 & Hr2) & Hpre). simpl in *.
    assert (nodes st2 !! length (nodes st) = Some (execcmd_ [])) as Hnode.
    { eapply prefix_lookup_Some, Hpre. rewrite Hns. by rewrite lookup_app_r, Nat.sub_diag by lia. }
    eapply wp_mono; [apply (wp_parseargs fuel st2 _ ret 0 s2 []); [done|done|done|done|lia|lia|lia]|].
    intros [c' s'] st' (Hp' & Hs' & Hc' & Hl' & Hr'). rewrite Hns, length_app in Hl2. split_and!; try done; simpl in *; lia.
Qed.

Lemma wp_parsepipe fuel : parses parseexec fuel 3 1 → parses parsepipe fuel 4 1 → parses parsepipe (S fuel) 4 1.
Proof using Hb.
  intros IHe IHp st s (Hp & Hs & Hf & Hroom). cbn [parsepipe]. apply shwp_bind. eapply wp_mono; [apply IHe; split_and!; try done; lia|].
  intros [cmd s1] st1 (Hp1 & Hs1 & Hc1 & Hl1 & Hr1). simpl in *. apply shwp_bind, wp_peek; [done|lia|].
  intros [] s2 Hs2 Hlt Hseen; [|apply shwp_ret; split_and!; try done; simpl; lia]. specialize (Hlt eq_refl). specialize (Hseen eq_refl).
  apply shwp_bind, (wp_symbol _ _ [124]); [done|done|done|done|]. intros tok q eq s3 Hs3.
  apply shwp_bind. eapply wp_mono; [apply IHp; split_and!; try done; lia|]. intros [rt s4] st4 (Hp4 & Hs4 & Hc4 & Hl4 & Hr4). simpl in *.
  apply shwp_bind, wp_new; [done|lia|split; lia|]. intros st5 Hp5 Hns Hr5. apply shwp_ret. split_and!; try done; simpl; rewrite ?Hns, ?length_app; simpl; lia.
Qed.

Lemma wp_parseline fuel : parses parsepipe fuel 4 1 → parses parseline fuel 5 1 → parses parseline (S fuel) 5 1.
Proof using Hb.
  intros IHp IHl st s (Hp & Hs & Hf & Hroom). cbn [parseline]. apply shwp_bind. eapply wp_mono; [apply IHp; split_and!; try done; lia|].
  intros [cmd s0] st0 (Hp0 & Hs0 & Hc0 & Hl0 & Hr0). simpl in *.
  apply shwp_bind. eapply wp_mono; [apply wp_parseback; [done|lia|done|lia|lia]|].
  intros [cmd1 s1] st1 (Hp1 & Hs1 & Hc1 & Hl1 & Hr1). simpl in *. apply shwp_bind, wp_peek; [done|lia|].
  intros [] s2 Hs2 Hlt Hseen; [|apply shwp_ret; split_and!; try done; simpl; lia]. specialize (Hlt eq_refl). specialize (Hseen eq_refl).
  apply shwp_bind, (wp_symbol _ _ [59]); [done|done|done|done|]. intros tok q eq s3 Hs3.
  apply shwp_bind. eapply wp_mono; [apply IHl; split_and!; try done; lia|]. intros [rt s4] st4 (Hp4 & Hs4 & Hc4 & Hl4 & Hr4). simpl in *.
  apply shwp_bind, wp_new; [done|lia|split; lia|]. intros st5 Hp5 Hns Hr5. apply shwp_ret. split_and!; try done; simpl; rewrite ?Hns, ?length_app; simpl; lia.
Qed.

Lemma wp_parseblock fuel st s :
  parses parseline fuel 5 1 → can_parse st s (S fuel) 2 → (∃ c, b !! s = Some c ∧ strchr [40] c = true) → (s < es)%nat →
  wp (parseblock (S fuel) s es) st (parsed st s 0).
Proof using Hb.
  intros IHl (Hp & Hs & Hf & Hroom) Hopen Hlt0. cbn [parseblock]. apply shwp_bind.
  destruct Hopen as (c & Hc & Hcc). pose proof Hp as [Es _].
  assert (peek s es [40] st = Ok (true, s) st) as Hpk.
  { unfold peek, skip_space. runs (skip_stops st (strchr whitespace) s s Es) by (split_and!; [lia|lia|intros; lia|right; exists c; split; [done|by eapply (symbol_not_space [40])]]).
    runs (at_ok st s c Es Hc). rewrite Hcc. unfold strchr in Hcc. apply andb_prop in Hcc as [_ ->]. done. }
  eapply wp_ok; [exact Hpk|]. cbn [negb when]. apply shwp_bind, shwp_ret.
  apply shwp_bind, (wp_symbol _ _ [40]); [done|done|done|eauto|]. intros tok q eq s1 Hs1.
  apply shwp_bind. eapply wp_mono; [apply IHl; split_and!; try done; lia|]. intros [cmd s2] st2 (Hp2 & Hs2 & Hc2 & Hl2 & Hr2). simpl in *.
  apply shwp_bind, wp_peek; [done|lia|]. intros r s3 Hs3 Hlt Hseen. apply shwp_bind, wp_check. intros ->%negb_false_iff.
  specialize (Hlt eq_refl). specialize (Hseen eq_refl). apply shwp_bind, (wp_symbol _ _ [41]); [done|done|done|done|]. intros tok' q' eq' s4 Hs4.
  eapply wp_mono; [apply wp_parseredirs; [done|lia|done|lia|lia]|].
  intros [c' s'] st' ((Hp' & Hs' & Hc' & Hl' & Hr') & _). split_and!; try done; simpl in *; lia.
Qed.

Lemma wp_parse fuel :
  parses parseline fuel 5 1 ∧ parses parsepipe fuel 4 1 ∧ parses parseexec fuel 3 1 ∧
  (∀ st s, can_parse st s fuel 2 → (∃ c, b !! s = Some c ∧ strchr [40] c = true) → (s < es)%nat → wp (parseblock fuel s es) st (parsed st s 0)).
Proof using Hb.
  induction fuel as [|fuel (IHl & IHp & IHe & IHb)]; [split_and!; intros st s (_ & _ & ? & _); lia|].
  split_and!; [by apply wp_parseline|by apply wp_parsepipe|by apply wp_parseexec|]. intros st s Hc Ho Hlt. by apply wp_parseblock.
Qed.

(** ** The strings of the command *)

(** Positions [q..eq) of the line. *)
Definition piece (q eq : nat) : list Z := take (eq - q) (drop q b).

(** The command with the words of the line as its strings. *)
Fixpoint words_at (fuel : nat) (ns : list node) (p : nat) : option cmd :=
  match fuel with
  | O => None
  | S fuel =>
      match ns !! p with
      | Some (execcmd_ argv) => Some (Exec ((λ a, piece a.1 a.2) <$> argv))
      | Some (redircmd_ c q eq mode fd) => (λ c, Redir c (piece q eq) mode fd) <$> words_at fuel ns c
      | Some (pipecmd_ l r) => l ← words_at fuel ns l; r ← words_at fuel ns r; Some (Pipe l r)
      | Some (listcmd_ l r) => l ← words_at fuel ns l; r ← words_at fuel ns r; Some (List l r)
      | Some (backcmd_ c) => Back <$> words_at fuel ns c
      | None => None
      end
  end.

(** [b'] is the line with some of the characters that end words set to zero. *)
Definition zeroed (b' : list Z) : Prop :=
  length b' = length b ∧ ∀ k, b' !! k = b !! k ∨ (b' !! k = Some 0 ∧ ∃ c, b !! k = Some c ∧ wordchar c = false).
Definition zeroed_more (b' b'' : list Z) : Prop := zeroed b'' ∧ ∀ k, b' !! k = Some 0 → b'' !! k = Some 0.

Lemma zeroed_more_refl b' : zeroed b' → zeroed_more b' b'.
Proof using. done. Qed.

Lemma zeroed_more_trans b1 b2 b3 : zeroed_more b1 b2 → zeroed_more b2 b3 → zeroed_more b1 b3.
Proof using. intros [_ H1] [H2 H3]. split; auto. Qed.

Lemma strlen_at (l : list Z) n : (∀ k, (k < n)%nat → ∃ c, l !! k = Some c ∧ c ≠ 0) → l !! n = Some 0 → strlen l = n.
Proof using.
  clear. revert l; induction n as [|n IH]; intros l Hk Hn.
  - destruct l as [|c l]; [done|]. injection Hn as ->. done.
  - destruct l as [|c l]; [done|]. simpl in *. destruct (Hk 0%nat) as (c' & [= ->] & Hc); [lia|]. destruct (Z.eqb_spec c' 0); [done|].
    f_equal. apply IH; [|done]. intros k Hlt. apply (Hk (S k)). lia.
Qed.

Lemma wordchar_nonzero c : wordchar c = true → c ≠ 0.
Proof using. clear. intros Hc ->. by vm_compute in Hc. Qed.

Lemma cstr_word b' q eq : zeroed b' → word q eq → b' !! eq = Some 0 → cstr b' q = piece q eq.
Proof using.
  clear Hb. intros (Hl & Hz) (Hq & Hw & _) He.
  assert (∀ k, (q ≤ k < eq)%nat → b' !! k = b !! k) as Hsame.
  { intros k Hk. destruct (Hz k) as [?|(_ & c & Hc & Hf)]; [done|]. destruct (Hw k Hk) as (c' & Hc' & Ht). congruence. }
  unfold cstr. rewrite (strlen_at (drop q b') (eq - q)).
  - unfold piece. apply list_eq. intros j. destruct (decide (j < eq - q)%nat); [|rewrite !lookup_take_ge by lia; done].
    rewrite !lookup_take_lt, !lookup_drop by done. apply Hsame. lia.
  - intros k Hk. rewrite lookup_drop, Hsame by lia. destruct (Hw (q + k)%nat) as (c & Hc & Ht); [lia|]. exists c. split; [done|]. by apply wordchar_nonzero.
  - rewrite lookup_drop. replace (q + (eq - q))%nat with eq by lia. done.
Qed.

(** One end of a word. *)
Lemma terminate_ok st q eq :
  zeroed (buf st) → word q eq →
  ∃ b', terminate eq st = Ok () (mksh b' (nodes st) (room st)) ∧ zeroed_more (buf st) b' ∧ b' !! eq = Some 0.
Proof using.
  clear Hb. intros Hz (_ & _ & c & Hc & Hf). pose proof Hz as [Hl Hzk]. pose proof (lookup_lt_Some _ _ _ Hc) as Hlt.
  exists (<[eq := 0]> (buf st)). split_and!; [| |apply list_lookup_insert_eq; lia].
  - unfold terminate, gets, mbind, M_bind. destruct (Nat.leb_spec (length (buf st)) eq); [lia|]. done.
  - split; [split; [by rewrite length_insert|]|].
    + intros k. destruct (decide (k = eq)) as [->|]; [right; split; [apply list_lookup_insert_eq; lia|by exists c]|].
      rewrite list_lookup_insert_ne by done. apply Hzk.
    + intros k Hk. destruct (decide (k = eq)) as [->|]; [apply list_lookup_insert_eq; lia|]. by rewrite list_lookup_insert_ne.
Qed.

Lemma terminate_all_ok st argv :
  zeroed (buf st) → Forall (λ a, word a.1 a.2) argv →
  ∃ b', terminate_all argv st = Ok () (mksh b' (nodes st) (room st)) ∧ zeroed_more (buf st) b' ∧
    Forall (λ a, b' !! a.2 = Some 0) argv.
Proof using.
  clear Hb. intros Hz Hw. revert st Hz. induction Hw as [|[q eq] argv Hq _ IH]; intros st Hz.
  { exists (buf st). split_and!; [by destruct st|done|constructor]. }
  destruct (terminate_ok st q eq Hz Hq) as (b1 & Hrun1 & Hz1 & He1). cbn [terminate_all]. runs Hrun1.
  destruct (IH (mksh b1 (nodes st) (room st))) as (b2 & Hrun2 & Hz2 & He2); [apply Hz1|]. exists b2.
  split_and!; [done|by eapply zeroed_more_trans|]. constructor; [|done]. apply Hz2. done.
Qed.

(** From then on the strings of the command are the words. *)
Definition terminated (b' : list Z) (ns : list node) (p : nat) : Prop :=
  ∀ b'' f, zeroed_more b' b'' → (p < f)%nat → cmd_at f b'' ns p = words_at f ns p.

Lemma terminated_more b1 b2 ns p : zeroed_more b1 b2 → terminated b1 ns p → terminated b2 ns p.
Proof using. intros Hm Ht b'' f Hm' Hf. apply Ht; [by eapply zeroed_more_trans|done]. Qed.

Lemma nulterminate_ok fuel st p :
  zeroed (buf st) → (∀ i n, nodes st !! i = Some n → node_ok i n) → (p < length (nodes st))%nat → (p < fuel)%nat →
  ∃ b', nulterminate fuel p st = Ok () (mksh b' (nodes st) (room st)) ∧ zeroed_more (buf st) b' ∧ terminated b' (nodes st) p.
Proof using.
  clear Hb. revert st p; induction fuel as [|fuel IH]; intros st p Hz Hn Hp Hf; [lia|]. cbn [nulterminate].
  destruct (lookup_lt_is_Some_2 (nodes st) p Hp) as [n Hnp]. pose proof (Hn _ _ Hnp) as Hok. unfold gets at 1, mbind at 1, M_bind at 1. rewrite Hnp.
  assert (∀ l r, (l < p)%nat → (r < p)%nat → ∃ b', (nulterminate fuel l;; nulterminate fuel r) st = Ok () (mksh b' (nodes st) (room st)) ∧
    zeroed_more (buf st) b' ∧ terminated b' (nodes st) l ∧ terminated b' (nodes st) r) as Htwo.
  { intros l r Hl Hr. destruct (IH st l Hz Hn) as (b1 & Hrun1 & Hm1 & Ht1); [lia|lia|]. runs Hrun1.
    destruct (IH (mksh b1 (nodes st) (room st)) r) as (b2 & Hrun2 & Hm2 & Ht2); [apply Hm1|done|simpl; lia|lia|]. exists b2.
    split_and!; [done|by eapply zeroed_more_trans|by eapply terminated_more|done]. }
  destruct n as [argv|c q eq mode fd|l r|l r|c]; simpl in Hok.
  - destruct Hok as [_ Hw]. destruct (terminate_all_ok st argv Hz Hw) as (b' & Hrun & Hm & He). exists b'. split_and!; [done|done|].
    intros b'' [|f] [Hz'' Hm''] Hlt; [lia|]. simpl. rewrite Hnp. do 2 f_equal. apply list_fmap_ext. intros i a Ha.
    rewrite Forall_forall in Hw, He. apply list_elem_of_lookup_2 in Ha. apply cstr_word; [done|by apply Hw|by apply Hm'', He].
  - destruct Hok as [Hc Hw]. destruct (IH st c Hz Hn) as (b1 & Hrun1 & Hm1 & Ht1); [lia|lia|]. runs Hrun1.
    destruct (terminate_ok (mksh b1 (nodes st) (room st)) q eq) as (b2 & Hrun2 & Hm2 & He2); [apply Hm1|done|]. exists b2.
    split_and!; [done|by eapply zeroed_more_trans|]. intros b'' [|f] Hm3 Hlt; [lia|]. simpl. rewrite Hnp.
    rewrite (Ht1 b'' f); [|by eapply zeroed_more_trans|lia]. rewrite (cstr_word b'' q eq); [done|apply Hm3|done|by apply Hm3].
  - destruct Hok as [Hl Hr]. destruct (Htwo l r Hl Hr) as (b2 & Hrun & Hm & Ht1 & Ht2). exists b2. split_and!; [done|done|].
    intros b'' [|f] Hm3 Hlt; [lia|]. simpl. rewrite Hnp. by rewrite (Ht1 b'' f), (Ht2 b'' f) by (done || lia).
  - destruct Hok as [Hl Hr]. destruct (Htwo l r Hl Hr) as (b2 & Hrun & Hm & Ht1 & Ht2). exists b2. split_and!; [done|done|].
    intros b'' [|f] Hm3 Hlt; [lia|]. simpl. rewrite Hnp. by rewrite (Ht1 b'' f), (Ht2 b'' f) by (done || lia).
  - destruct (IH st c Hz Hn) as (b1 & Hrun1 & Hm1 & Ht1); [lia|lia|]. exists b1. split_and!; [done|done|].
    intros b'' [|f] Hm3 Hlt; [lia|]. simpl. rewrite Hnp. by rewrite (Ht1 b'' f) by (done || lia).
Qed.

(** A command whose argument lists fit and whose strings are words. *)
Definition good_word (w : list Z) : Prop := w ≠ [] ∧ Forall (λ c, wordchar c = true) w.
Fixpoint good_cmd (c : cmd) : Prop :=
  match c with
  | Exec argv => (length argv < MAXARGS)%nat ∧ Forall good_word argv
  | Redir c file _ _ => good_cmd c ∧ good_word file
  | Pipe l r | List l r => good_cmd l ∧ good_cmd r
  | Back c => good_cmd c
  end.

Lemma piece_good q eq : word q eq → good_word (piece q eq).
Proof using.
  clear Hb. intros (Hq & Hw & _). split.
  - intros E%(f_equal length). unfold piece in E. rewrite length_take, length_drop in E. simpl in E. destruct (Hw q) as (c & Hc%lookup_lt_Some & _); lia.
  - apply Forall_lookup. intros j c (Hj & Hlt)%lookup_take_Some. rewrite lookup_drop in Hj. destruct (Hw (q + j)%nat) as (c' & Hc' & Ht); [lia|]. congruence.
Qed.

Lemma words_at_good f ns p :
  (∀ i n, ns !! i = Some n → node_ok i n) → (p < length ns)%nat → (p < f)%nat → ∃ c, words_at f ns p = Some c ∧ good_cmd c.
Proof using.
  clear Hb. intros Hn. revert p; induction f as [|f IH]; intros p Hp Hf; [lia|]. cbn [words_at].
  destruct (lookup_lt_is_Some_2 ns p Hp) as [n Hnp]. rewrite Hnp. pose proof (Hn _ _ Hnp) as Hok.
  destruct n as [argv|c q eq mode fd|l r|l r|c]; simpl in Hok.
  - destruct Hok as [Hl Hw]. eexists. split; [done|]. simpl. rewrite length_fmap. split; [done|]. apply Forall_fmap. eapply Forall_impl; [exact Hw|].
    intros [q eq]. apply piece_good.
  - destruct Hok as [Hc Hw]. destruct (IH c) as (t & -> & Ht); [lia|lia|]. eexists. split; [done|]. split; [done|by apply piece_good].
  - destruct Hok as [Hl Hr]. destruct (IH l) as (t & -> & Ht); [lia|lia|]. destruct (IH r) as (t' & -> & Ht'); [lia|lia|]. by eexists.
  - destruct Hok as [Hl Hr]. destruct (IH l) as (t & -> & Ht); [lia|lia|]. destruct (IH r) as (t' & -> & Ht'); [lia|lia|]. by eexists.
  - destruct (IH c) as (t & -> & Ht); [lia|lia|]. by eexists.
Qed.

Lemma zeroed_refl : zeroed b.
Proof using. split; [done|]. by left. Qed.

Lemma parsecmd_wp mem :
  strlen b = es → (2 * es + 1 ≤ mem)%nat →
  wp parsecmd (mksh b [] mem) (λ c st', ∃ t, cmd_at (S c) (buf st') (nodes st') c = Some t ∧ words_at (S c) (nodes st') c = Some t ∧ good_cmd t).
Proof using Hb.
  intros Hes Hmem. unfold parsecmd. apply shwp_bind, (wp_ok _ _ b (mksh b [] mem)); [done|]. cbv beta. rewrite Hes.
  destruct (wp_parse (parse_fuel es)) as (Hline & _). apply shwp_bind.
  eapply wp_mono; [apply (Hline (mksh b [] mem) 0%nat); split_and!; [split; done|lia|unfold parse_fuel; lia|simpl; lia]|].
  intros [c s1] st1 (Hp1 & Hs1 & Hc1 & _). apply shwp_bind, wp_peek; [done|simpl in *; lia|]. intros r s2 _ _ _.
  apply shwp_bind, wp_check. intros _. destruct Hp1 as [Eb Hn].
  destruct (nulterminate_ok (S c) st1 c) as (b' & Hrun & Hm & Ht); [rewrite Eb; apply zeroed_refl|done|done|lia|].
  apply shwp_bind. eapply wp_ok; [exact Hrun|]. apply shwp_ret. cbn [buf nodes]. destruct (words_at_good (S c) (nodes st1) c Hn Hc1) as (t & Hwt & Hg); [lia|].
  exists t. split_and!; [|done|done]. rewrite <- Hwt. apply Ht; [apply zeroed_more_refl, Hm|lia].
Qed.
End line.

Lemma strlen_line b : 0 ∈ b → line_ok b (strlen b).
Proof.
  induction b as [|c b IH]; intros Hin; [by apply not_elem_of_nil in Hin|]. simpl. destruct (Z.eqb_spec c 0) as [->|Hc].
  - split; [done|lia].
  - destruct IH as [H1 H2]; [set_solver|]. split; [done|]. intros [|k] Hk; [by exists c|]. simpl. apply H2. lia.
Qed.

(** C30: on every line that ends in a zero, with memory for two nodes for each
    character and one more, [parsecmd] ends: with a message of [panic], or with
    a command.  It never reads or writes outside the line, never follows a bad
    pointer and never overflows an argument array; after [nulterminate] the
    strings of the command are exactly the words that were found in the line. *)
Theorem parsecmd_safe b mem :
  0 ∈ b → (2 * strlen b + 1 ≤ mem)%nat →
  match parsecmd (mksh b [] mem) with
  | Ok c st => ∃ t, cmd_at (S c) (buf st) (nodes st) c = Some t ∧ words_at b (S c) (nodes st) c = Some t ∧ good_cmd t
  | Err e => ∃ msg, e = Panic msg
  end.
Proof.
  intros Hin Hmem. pose proof (parsecmd_wp b (strlen b) (strlen_line b Hin) mem eq_refl Hmem) as Hw. unfold wp in Hw.
  destruct (parsecmd (mksh b [] mem)) as [c st|[]]; try done. by eexists.
Qed.

(** echo hi > x *)
Lemma parsecmd_safe_witness :
  let b := [101; 99; 104; 111; 32; 104; 105; 62; 120; 10; 0] in
  ∃ c st, parsecmd (mksh b [] 21) = Ok c st ∧
    cmd_at (S c) (buf st) (nodes st) c = Some (Redir (Exec [[101; 99; 104; 111]; [104; 105]]) [120] 1537 1).
Proof.
  intros b. assert (0 ∈ b) as Hin by (repeat (first [left; reflexivity|right])).
  pose proof (parsecmd_safe b 21 Hin (le_n 21)) as Hs.
  destruct (parsecmd (mksh b [] 21)) as [c st|e] eqn:E; [|vm_compute in E; discriminate].
  exists c, st. split; [reflexivity|]. vm_compute in E. injection E as <- <-. destruct Hs as (t & Ht & _). rewrite Ht. vm_compute in Ht. symmetry. exact Ht.
Defined.
