(* ===== verification/ShPrint.v ===== *)
(** * Printing and parsing commands

    A printer for the shell's commands, and the round trip: what is printed
    parses to the same command. *)
From S2P Require Import Prelude Param Sh ShRun ShSafe.

#[local] Open Scope Z_scope.

(** ** Tokens *)

Inductive tok :=
| W (w : list Z)
| S_ (c : Z)
| App_.

(** A token and the space after it. *)
Definition tok_text (t : tok) : list Z :=
  match t with W w => w | S_ c => [c] | App_ => [62; 62] end.
Definition lex (ts : list tok) : list Z := mjoin ((λ t, tok_text t ++ [32]) <$> ts).
Definition good_tok (t : tok) : Prop :=
  match t with W w => good_word w | S_ c => c ∈ symbols | App_ => True end.
(** What [gettoken] returns for it, and its first character. *)
Definition tok_code (t : tok) : Z := match t with W _ => 97 | S_ c => c | App_ => 43 end.
Definition tok_first (t : tok) : Z := hd 0 (tok_text t).

Lemma lex_cons t ts : lex (t :: ts) = tok_text t ++ 32 :: lex ts.
Proof. unfold lex. simpl. by rewrite <- (assoc_L (++)). Qed.

Lemma lex_app ts ts' : lex (ts ++ ts') = lex ts ++ lex ts'.
Proof. unfold lex. by rewrite fmap_app, join_app. Qed.

(** ** The printer *)

Definition redir_tok (mode : Z) : tok := if mode =? O_RDONLY then S_ 60 else if mode =? 1537 then S_ 62 else App_.

(** How loosely a command binds: 0 for what [parseexec] parses, 1 for
    [parsepipe], 2 and 3 for [parseline] without and with a ";". *)
Definition level (c : cmd) : nat :=
  match c with Exec _ | Redir _ _ _ _ => 0 | Pipe _ _ => 1 | Back _ => 2 | List _ _ => 3 end.

Definition paren (lvl : nat) (c : cmd) (body : list tok) : list tok :=
  if (level c <=? lvl)%nat then body else [S_ 40] ++ body ++ [S_ 41].

Fixpoint print (lvl : nat) (c : cmd) : list tok :=
  paren lvl c
    match c with
    | Exec argv => W <$> argv
    | Redir c file mode _ => print 0 c ++ [redir_tok mode; W file]
    | Pipe l r => print 0 l ++ [S_ 124] ++ print 1 r
    | Back c => print 2 c ++ [S_ 38]
    | List l r => print 2 l ++ [S_ 59] ++ print 3 r
    end.

(** The line for a command. *)
Definition show (c : cmd) : list Z := lex (print 3 c) ++ [0].

(** Redirections are of the three kinds that can be written. *)
Definition redir_ok (mode fd : Z) : Prop := (mode, fd) = (0, 0) ∨ (mode, fd) = (1537, 1) ∨ (mode, fd) = (513, 1).
Fixpoint printable (c : cmd) : Prop :=
  match c with
  | Exec argv => (length argv < MAXARGS)%nat ∧ Forall good_word argv
  | Redir c file mode fd => printable c ∧ good_word file ∧ redir_ok mode fd
  | Pipe l r | List l r => printable l ∧ printable r
  | Back c => printable c
  end.

(** ** Reading tokens back *)

(** [runs], and the pattern that takes the result apart. *)
Ltac pruns H := runs H; cbv beta iota.

Section parse.
Context (b : list Z) (es : nat) (Hlen : length b = S es).

(** At position [s] the tokens [ts] are left. *)
Definition left_ (s : nat) (ts : list tok) : Prop := drop s b = lex ts ++ [0] ∧ (s ≤ es)%nat ∧ Forall good_tok ts.

Lemma left_at s ts k : left_ s ts → b !! (s + k)%nat = (lex ts ++ [0]) !! k.
Proof using. intros (Hd & _). rewrite <- Hd, lookup_drop. done. Qed.

Lemma left_nil s : left_ s [] → s = es.
Proof using Hlen. intros (Hd%(f_equal length) & Hs & _). rewrite length_drop in Hd. simpl in Hd. lia. Qed.

Lemma good_tok_text t : good_tok t → ∃ c cs, tok_text t = c :: cs ∧ strchr whitespace c = false ∧ c ≠ 0.
Proof using.
  clear. destruct t as [w|c|]; simpl.
  - intros [Hne Hw]. destruct w as [|c w]; [done|]. apply Forall_cons in Hw as [Hc _]. exists c, w. unfold wordchar in Hc.
    apply andb_prop in Hc as [[Hs _]%andb_prop Hz]. split_and!; [done|by apply negb_true_iff|]. intros ->. done.
  - intros Hc. exists c, []. assert (forallb (λ x, negb (strchr whitespace x) && negb (x =? 0)) symbols = true) as Hall by done.
    rewrite forallb_forall in Hall. specialize (Hall c ltac:(by apply list_elem_of_In)). apply andb_prop in Hall as [H1%negb_true_iff H2].
    split_and!; [done|done|]. intros ->. done.
  - intros _. exists 62, [62]. done.
Qed.

Lemma left_step s t ts : left_ s (t :: ts) → left_ (s + length (tok_text t) + 1) ts.
Proof using Hlen.
  intros (Hd & Hs & [_ Hg]%Forall_cons). rewrite lex_cons in Hd.
  assert (drop (s + length (tok_text t) + 1) b = lex ts ++ [0]) as Hd'.
  { rewrite <- drop_drop, <- drop_drop, Hd. rewrite <- (assoc_L (++)), drop_app_length. done. }
  split_and!; [done| |done]. assert (length (drop (s + length (tok_text t) + 1) b) = length (lex ts ++ [0])) as Hl by (by rewrite Hd').
  rewrite length_drop, length_app in Hl. simpl in Hl. lia.
Qed.

(** No scan of white space moves at a token. *)
Lemma no_space s ts st : left_ s ts → buf st = b → skip_space s es st = Ok s st.
Proof using Hlen.
  intros Hl Es. unfold skip_space. apply (skip_stops b es st); [done|]. pose proof Hl as (_ & Hs & Hg). split_and!; [lia|lia|intros; lia|].
  destruct ts as [|t ts]; [left; by apply left_nil|right]. apply Forall_cons in Hg as [Ht _]. destruct (good_tok_text t Ht) as (c & cs & E & Hw & _).
  exists c. split; [|done]. rewrite <- (Nat.add_0_r s), (left_at s _ 0 Hl), lex_cons, E. done.
Qed.

Lemma peek_left s ts st toks :
  left_ s ts → buf st = b →
  peek s es toks st = Ok (match ts with [] => false | t :: _ => strchr toks (tok_first t) end, s) st.
Proof using Hlen.
  intros Hl Es. unfold peek. runs (no_space s ts st Hl Es). destruct ts as [|t ts].
  - runs (at_ok b st s 0 Es) by (rewrite <- (Nat.add_0_r s), (left_at s _ 0 Hl); done). done.
  - pose proof Hl as (_ & _ & [Ht _]%Forall_cons). destruct (good_tok_text t Ht) as (c & cs & E & Hw & Hz).
    runs (at_ok b st s c Es) by (rewrite <- (Nat.add_0_r s), (left_at s _ 0 Hl), lex_cons, E; done).
    unfold tok_first. rewrite E. simpl. destruct (Z.eqb_spec c 0); [done|]. done.
Qed.

Lemma peek_cons s t ts st toks : left_ s (t :: ts) → buf st = b → peek s es toks st = Ok (strchr toks (tok_first t), s) st.
Proof using Hlen. apply (peek_left s (t :: ts)). Qed.

Lemma gettoken_end s st : left_ s [] → buf st = b → gettoken s es st = Ok (0, s, s, s) st.
Proof using Hlen.
  intros Hl Es. unfold gettoken. runs (no_space s [] st Hl Es).
  runs (at_ok b st s 0 Es) by (rewrite <- (Nat.add_0_r s), (left_at s _ 0 Hl); done). cbn [Z.eqb]. rewrite ret_bind. by runs (no_space s [] st Hl Es).
Qed.

Lemma gettoken_left s t ts st :
  left_ s (t :: ts) → buf st = b →
  gettoken s es st = Ok (tok_code t, s, (s + length (tok_text t))%nat, (s + length (tok_text t) + 1)%nat) st.
Proof using Hlen.
  intros Hl Es. pose proof (left_step s t ts Hl) as Hl'. pose proof Hl as (_ & _ & [Ht _]%Forall_cons).
  unfold gettoken. runs (no_space s _ st Hl Es). destruct (good_tok_text t Ht) as (c & cs & E & Hw & Hz).
  assert (∀ k, b !! (s + k)%nat = (tok_text t ++ 32 :: lex ts ++ [0]) !! k) as Hat.
  { intros k. rewrite (left_at s _ k Hl), lex_cons, <- (assoc_L (++)). done. }
  runs (at_ok b st s c Es) by (rewrite <- (Nat.add_0_r s), Hat, E; done). destruct (Z.eqb_spec c 0); [done|].
  set (e := (s + length (tok_text t))%nat).
  assert (skip_space e es st = Ok (e + 1)%nat st) as Hsp.
  { unfold skip_space. apply (skip_stops b es st); [done|]. destruct Hl' as (_ & Hs' & _). split_and!; [lia|lia| |].
    - intros k Hk. replace k with e by lia. exists 32. split; [|done]. unfold e. rewrite Hat, lookup_app_r, Nat.sub_diag by lia. done.
    - pose proof (no_space (e + 1) ts st (left_step s t ts Hl) Es) as Hns. destruct ts as [|t' ts']; [left; exact (left_nil _ (left_step s t [] Hl))|right].
      pose proof (left_step s t _ Hl) as Hl2. pose proof Hl2 as (_ & _ & [Ht' _]%Forall_cons). destruct (good_tok_text t' Ht') as (c' & cs' & E' & Hw' & _).
      exists c'. split; [|done]. unfold e. rewrite <- (Nat.add_0_r (s + _ + 1)), (left_at _ _ 0 Hl2), lex_cons, E'. done. }
  assert (∀ code : Z, (s' ← skip_space e es; mret (code, s, e, s')) st = Ok (code, s, e, (e + 1)%nat) st) as Hfin by (intros; by runs Hsp).
  destruct t as [w|c0|]; simpl in E, Ht.
  - subst w. rewrite bool_decide_eq_false_2.
    2: { intros Hin. destruct Ht as [_ Hc]. apply Forall_cons in Hc as [Hc _]. unfold wordchar in Hc. apply andb_prop in Hc as [[_ Hc]%andb_prop _].
         apply negb_true_iff in Hc. unfold strchr in Hc. apply andb_false_iff in Hc as [Hc%bool_decide_eq_false_1|Hc]; [|by destruct (Z.eqb_spec c 0)].
         apply Hc. unfold symbols. clear -Hin. set_solver. }
    destruct Ht as [_ Hall].
    assert (∀ x, wordchar x = true → negb (strchr whitespace x) && negb (strchr symbols x) = true) as Hwc by (intros x Hx; unfold wordchar in Hx; by apply andb_prop in Hx as [? _]).
    destruct (Z.eqb_spec c 62) as [->|]; [apply Forall_cons in Hall as [Hc _]; by vm_compute in Hc|].
    assert (skip (λ c, negb (strchr whitespace c) && negb (strchr symbols c)) s es st = Ok e st) as Hsk.
    { apply (skip_stops b es st); [done|]. destruct Hl' as (_ & Hs' & _). split_and!; [lia|lia| |].
      - intros k Hk. destruct (lookup_lt_is_Some_2 (c :: cs) (k - s)) as [x Hx]; [unfold e in Hk; simpl in *; lia|]. exists x. split.
        + replace k with (s + (k - s))%nat by lia. rewrite Hat, lookup_app_l; [done|by eapply lookup_lt_Some].
        + apply Hwc. rewrite Forall_forall in Hall. apply Hall. by eapply list_elem_of_lookup_2.
      - right. exists 32. split; [|done]. unfold e. rewrite Hat, lookup_app_r, Nat.sub_diag by lia. done. }
    rewrite bind_assoc. runs Hsk. rewrite ret_bind. apply Hfin.
  - injection E as <- <-. case_bool_decide as Hin; [rewrite ret_bind; replace (S s) with e by (unfold e; simpl; lia); apply Hfin|].
    assert (c0 = 62) as -> by (clear -Ht Hin; unfold symbols in Ht; set_solver). cbn [Z.eqb Pos.eqb]. rewrite bind_assoc.
    runs (at_ok b st (S s) 32 Es) by (replace (S s) with (s + 1)%nat by lia; by rewrite Hat). rewrite ret_bind.
    replace (S s) with e by (unfold e; simpl; lia). apply Hfin.
  - injection E as <- <-. rewrite bool_decide_eq_false_2 by (clear; set_solver). cbn [Z.eqb Pos.eqb]. rewrite bind_assoc.
    runs (at_ok b st (S s) 62 Es) by (replace (S s) with (s + 1)%nat by lia; by rewrite Hat). rewrite ret_bind.
    replace (S (S s)) with e by (unfold e; simpl; lia). apply Hfin.
Qed.

(** ** Nodes for commands *)

(** Node [p] stands for the command [c]. *)
Definition tree (ns : list node) (p : nat) (c : cmd) : Prop :=
  (p < length ns)%nat ∧ ∀ f, (p < f)%nat → words_at b f ns p = Some c.

Lemma words_at_prefix f ns ns' p c : ns `prefix_of` ns' → words_at b f ns p = Some c → words_at b f ns' p = Some c.
Proof using.
  clear Hlen. intros Hpre. revert p c; induction f as [|f IH]; intros p c; [done|]. cbn [words_at].
  destruct (ns !! p) as [n|] eqn:E; [|done]. rewrite (prefix_lookup_Some _ _ _ _ E Hpre). destruct n as [argv|q ? ? ? ?|l r|l r|q]; [done|..].
  - destruct (words_at b f ns q) eqn:E1; [|done]. by rewrite (IH _ _ E1).
  - destruct (words_at b f ns l) eqn:E1; [|done]. rewrite (IH _ _ E1). simpl. destruct (words_at b f ns r) eqn:E2; [|done]. by rewrite (IH _ _ E2).
  - destruct (words_at b f ns l) eqn:E1; [|done]. rewrite (IH _ _ E1). simpl. destruct (words_at b f ns r) eqn:E2; [|done]. by rewrite (IH _ _ E2).
  - destruct (words_at b f ns q) eqn:E1; [|done]. by rewrite (IH _ _ E1).
Qed.

Lemma tree_prefix ns ns' p c : ns `prefix_of` ns' → tree ns p c → tree ns' p c.
Proof using.
  clear Hlen. intros Hpre [Hp Ht]. split; [apply prefix_length in Hpre; lia|]. intros f Hf. eapply words_at_prefix; [done|by apply Ht].
Qed.

(** The command a new node stands for, given those it points to. *)
Lemma tree_new ns n c :
  (∀ f, (length ns < f)%nat → words_at b (S f) (ns ++ [n]) (length ns) = Some c) →
  words_at b (S (length ns)) (ns ++ [n]) (length ns) = Some c → tree (ns ++ [n]) (length ns) c.
Proof using.
  clear Hlen. intros Hf H0. split; [rewrite length_app; simpl; lia|]. intros [|f] Hlt; [lia|].
  destruct (decide (f = length ns)) as [->|]; [done|]. apply Hf. lia.
Qed.

Lemma lookup_new (ns : list node) n : (ns ++ [n]) !! length ns = Some n.
Proof using. clear. by rewrite lookup_app_r, Nat.sub_diag by lia. Qed.

(** A node of commands older than it. *)
Lemma tree_node ns n c (sub : nat → cmd → Prop) :
  (∀ p c, sub p c → tree ns p c) →
  (∀ f, (∀ p c, sub p c → words_at b f (ns ++ [n]) p = Some c) → words_at b (S f) (ns ++ [n]) (length ns) = Some c) →
  tree (ns ++ [n]) (length ns) c.
Proof using.
  clear Hlen. intros Hsub Hn. assert (∀ f, (length ns ≤ f)%nat → words_at b (S f) (ns ++ [n]) (length ns) = Some c) as Hall.
  { intros f Hf. apply Hn. intros p c' Hp. destruct (Hsub _ _ Hp) as [Hlt Ht]. eapply words_at_prefix; [by apply prefix_app_r|]. apply Ht. lia. }
  apply tree_new; [intros; apply Hall; lia|by apply Hall].
Qed.

Lemma new_run st n : (0 < room st)%nat → new n st = Ok (length (nodes st)) (mksh (buf st) (nodes st ++ [n]) (room st - 1)).
Proof using. clear. intros Hr. unfold new, gets, mbind, M_bind. destruct (room st) as [|r]; [lia|]. simpl. by rewrite Nat.sub_0_r. Qed.

(** ** Redirections *)

Definition redir_toks (rs : list (list Z * Z * Z)) : list tok := mjoin ((λ r, [redir_tok r.1.2; W r.1.1]) <$> rs).
Definition wrap (rs : list (list Z * Z * Z)) (c : cmd) : cmd := foldl (λ c r, Redir c r.1.1 r.1.2 r.2) c rs.
Definition redirs_ok (rs : list (list Z * Z * Z)) : Prop := Forall (λ r, good_word r.1.1 ∧ redir_ok r.1.2 r.2) rs.

Definition not_redir (ts : list tok) : Prop := match ts with [] => True | t :: _ => strchr [60; 62] (tok_first t) = false end.

Lemma redir_tok_facts mode fd :
  redir_ok mode fd → strchr [60; 62] (tok_first (redir_tok mode)) = true ∧
  ((tok_code (redir_tok mode) = 60 ∧ mode = O_RDONLY ∧ fd = 0) ∨
   (tok_code (redir_tok mode) = 62 ∧ mode = Z.lor O_WRONLY (Z.lor O_CREATE O_TRUNC) ∧ fd = 1) ∨
   (tok_code (redir_tok mode) = 43 ∧ mode = Z.lor O_WRONLY O_CREATE ∧ fd = 1)).
Proof using. clear. intros [[= -> ->]|[[= -> ->]|[= -> ->]]]; split; (done || auto). Qed.

Lemma left_piece s w ts : left_ s (W w :: ts) → piece b s (s + length w) = w.
Proof using.
  clear. intros (Hd & _). unfold piece. rewrite Hd, lex_cons, <- (assoc_L (++)). replace (s + length w - s)%nat with (length w) by lia. apply take_app_length.
Qed.

Lemma parseredirs_left fuel st p c s rs ts :
  left_ s (redir_toks rs ++ ts) → not_redir ts → redirs_ok rs → tree (nodes st) p c → buf st = b →
  (length rs < fuel)%nat → (length rs ≤ room st)%nat →
  ∃ p' s' st', parseredirs fuel p s es st = Ok (p', s') st' ∧ left_ s' ts ∧ nodes st `prefix_of` nodes st' ∧
    tree (nodes st') p' (wrap rs c) ∧ buf st' = b ∧ (room st = room st' + length rs)%nat ∧ (rs = [] → st' = st ∧ p' = p ∧ s' = s).
Proof using Hlen.
  revert st p c s rs; induction fuel as [|fuel IH]; intros st p c s rs Hl Hnr Hok Ht Es Hf Hr; [lia|]. cbn [parseredirs].
  destruct rs as [|[[file mode] fd] rs].
  { runs (peek_left s ts st [60; 62] Hl Es). assert (match ts with [] => false | t :: _ => strchr [60; 62] (tok_first t) end = false) as -> by (by destruct ts).
    exists p, s, st. split_and!; try done; simpl; lia. }
  apply Forall_cons in Hok as [[Hw Hro] Hok]. simpl in Hw, Hro. destruct (redir_tok_facts mode fd Hro) as [Hfirst Hcase].
  change (redir_toks ((file, mode, fd) :: rs) ++ ts) with (redir_tok mode :: W file :: redir_toks rs ++ ts) in Hl.
  pruns (peek_cons s _ _ st [60; 62] Hl Es). rewrite Hfirst. unfold parseredir. rewrite bind_assoc. pruns (gettoken_left s _ _ st Hl Es).
  pose proof (left_step s _ _ Hl) as Hl1. rewrite bind_assoc. pruns (gettoken_left _ _ _ st Hl1 Es). pose proof (left_step _ _ _ Hl1) as Hl2.
  cbn [tok_code Z.eqb Pos.eqb negb when]. set (s1 := (s + _ + 1)%nat) in *. rewrite bind_assoc, ret_bind, bind_assoc. simpl in Hr.
  assert (tree (nodes st ++ [redircmd_ p s1 (s1 + length file) mode fd]) (length (nodes st)) (Redir c file mode fd)) as Htn.
  { apply (tree_node _ _ _ (λ p' c', p' = p ∧ c' = c)); [by intros ? ? [-> ->]|]. intros f Hsub. cbn [words_at]. rewrite lookup_new.
    rewrite (Hsub p c) by done. simpl. by rewrite (left_piece s1 file _ Hl1). }
  assert (∀ m, m = redircmd p s1 (s1 + length (tok_text (W file))) mode fd → ∃ p' s' st',
    ((cmd ← m; mret (cmd, (s1 + length (tok_text (W file)) + 1)%nat)) ≫= λ '(cmd, s), parseredirs fuel cmd s es) st = Ok (p', s') st' ∧
    left_ s' ts ∧ nodes st `prefix_of` nodes st' ∧ tree (nodes st') p' (wrap rs (Redir c file mode fd)) ∧ buf st' = b ∧ (room st = room st' + S (length rs))%nat) as Hgo.
  { intros m ->. rewrite bind_assoc. unfold redircmd. runs (new_run st) by lia. rewrite ret_bind. set (st1 := mksh _ _ _).
    destruct (IH st1 (length (nodes st)) (Redir c file mode fd) _ rs Hl2 Hnr Hok Htn) as (p' & s' & st' & Hrun & Hl' & Hpre & Ht' & Eb & Hr' & _); [done|simpl in *; lia|simpl; lia|].
    exists p', s', st'. split_and!; [done|done| |done|done|simpl in *; lia]. etransitivity; [|done]. simpl. by apply prefix_app_r. }
  destruct (Hgo _ eq_refl) as (p' & s' & st' & Hrun & Hl' & Hpre & Ht' & Eb & Hr'). exists p', s', st'. split_and!; try done.
  rewrite <- Hrun. destruct Hcase as [(-> & -> & ->)|[(-> & -> & ->)|(-> & -> & ->)]]; by rewrite bind_assoc.
Qed.

(** ** Arguments *)

(** What may follow a simple command. *)
Definition follow (cs : list Z) (ts : list tok) : Prop := ts = [] ∨ ∃ c ts', ts = S_ c :: ts' ∧ c ∈ cs.

Lemma follow_peek cs toks s ts st :
  left_ s ts → buf st = b → follow cs ts → forallb (λ c, negb (strchr toks c)) cs = true → peek s es toks st = Ok (false, s) st.
Proof using Hlen.
  intros Hl Es Hfo Hall. rewrite (peek_left s ts st toks Hl Es). destruct Hfo as [->|(c & ts' & -> & Hc)]; [done|].
  rewrite forallb_forall in Hall. specialize (Hall c ltac:(by apply list_elem_of_In)). apply negb_true_iff in Hall. by rewrite <- Hall.
Qed.

Lemma parseargs_stop fuel st cmd ret argc s ts :
  left_ s ts → buf st = b → follow [124; 41; 38; 59] ts → parseargs (S fuel) cmd ret argc s es st = Ok (ret, s) st.
Proof using Hlen.
  intros Hl Es Hfo. cbn [parseargs]. destruct Hfo as [->|(c & ts' & -> & Hc)].
  - pruns (peek_left s [] st [124; 41; 38; 59] Hl Es). by pruns (gettoken_end s st Hl Es).
  - pruns (peek_cons s _ _ st [124; 41; 38; 59] Hl Es). assert (strchr [124; 41; 38; 59] (tok_first (S_ c)) = true) as ->; [|done].
    unfold strchr, tok_first. simpl. rewrite bool_decide_eq_true_2 by done. by destruct (Z.eqb_spec c 0) as [->|]; [set_solver|].
Qed.

Lemma follow_not_redir ts : follow [124; 41; 38; 59] ts → not_redir ts.
Proof using.
  clear. intros [->|(c & ts' & -> & Hc)]; [done|]. assert (forallb (λ x, negb (strchr [60; 62] x)) [124; 41; 38; 59] = true) as Hall by done.
  rewrite forallb_forall in Hall. apply negb_true_iff. apply Hall. by apply list_elem_of_In.
Qed.

Lemma word_not_redir w ts : good_word w → not_redir (W w :: ts) ∧ strchr [124; 41; 38; 59] (tok_first (W w)) = false ∧ strchr [40] (tok_first (W w)) = false.
Proof using.
  clear. intros [Hne Hw]. destruct w as [|c w]; [done|]. apply Forall_cons in Hw as [Hc _]. unfold wordchar in Hc. apply andb_prop in Hc as [[_ Hc]%andb_prop Hz].
  apply negb_true_iff in Hc. assert (∀ toks, toks ⊆ symbols → strchr toks c = false) as Hs.
  { intros toks Hsub. unfold strchr in *. apply andb_false_iff in Hc as [Hc%bool_decide_eq_false_1|Hc]; apply andb_false_iff; [left|by right].
    apply bool_decide_eq_false_2. set_solver. }
  split_and!; apply Hs; unfold symbols; set_solver.
Qed.

(** The node of the command is the last one while its arguments are read. *)
Lemma parseargs_left ws fuel ns0 r0 av s rs ts :
  ws ≠ [] → left_ s ((W <$> ws) ++ redir_toks rs ++ ts) → follow [124; 41; 38; 59] ts → redirs_ok rs →
  (length av + length ws < MAXARGS)%nat → (length ws + length rs + 1 < fuel)%nat → (length rs ≤ r0)%nat →
  ∃ p' s' st', parseargs fuel (length ns0) (length ns0) (length av) s es (mksh b (ns0 ++ [execcmd_ av]) r0) = Ok (p', s') st' ∧
    left_ s' ts ∧ ns0 `prefix_of` nodes st' ∧ tree (nodes st') p' (wrap rs (Exec (((λ a, piece b a.1 a.2) <$> av) ++ ws))) ∧ buf st' = b ∧
    (r0 = room st' + length rs)%nat.
Proof using Hlen.
  revert fuel av s. induction ws as [|w ws IH]; intros fuel av s Hne Hl Hfo Hok Hmax Hf Hr; [done|]. clear Hne.
  destruct fuel as [|fuel]; [lia|]. cbn [parseargs]. set (st := mksh b (ns0 ++ [execcmd_ av]) r0).
  change ((W <$> w :: ws) ++ redir_toks rs ++ ts) with (W w :: ((W <$> ws) ++ redir_toks rs ++ ts)) in Hl.
  assert (good_word w) as Hw by (destruct Hl as (_ & _ & [? _]%Forall_cons); done).
  destruct (word_not_redir w ((W <$> ws) ++ redir_toks rs ++ ts) Hw) as (_ & Hstop & _).
  pruns (peek_cons s _ _ st [124; 41; 38; 59] Hl eq_refl). rewrite Hstop. pruns (gettoken_left s _ _ st Hl eq_refl).
  pose proof (left_step s _ _ Hl) as Hl1. cbn [tok_code Z.eqb Pos.eqb negb when]. rewrite ret_bind. simpl in Hmax, Hf.
  set (e := (s + length (tok_text (W w)))%nat). set (av1 := av ++ [(s, e)]). set (st1 := mksh b (ns0 ++ [execcmd_ av1]) r0).
  assert (add_arg (length ns0) s e st = Ok () st1) as Hadd.
  { unfold add_arg, gets, mbind, M_bind. cbn [nodes st]. rewrite lookup_new. destruct (Nat.leb_spec MAXARGS (length av)); [lia|].
    unfold modify. cbn [when mret M_ret nodes buf room st]. unfold st1, av1. by rewrite insert_app_r_alt, Nat.sub_diag by lia. }
  runs Hadd. destruct (Nat.leb_spec MAXARGS (S (length av))); [lia|]. cbn [when]. rewrite ret_bind.
  assert (length av1 = S (length av)) as Hlav by (unfold av1; rewrite length_app; simpl; lia).
  assert (piece b s e = w) as Hpc by exact (left_piece s w _ Hl).
  assert (((λ a, piece b a.1 a.2) <$> av1) ++ ws = ((λ a, piece b a.1 a.2) <$> av) ++ w :: ws) as Eav.
  { unfold av1. rewrite fmap_app, <- (assoc_L (++)). simpl. by rewrite Hpc. }
  assert (tree (nodes st1) (length ns0) (Exec ((λ a, piece b a.1 a.2) <$> av1))) as Htree.
  { simpl. apply tree_new; [intros f _|]; cbn [words_at]; by rewrite lookup_new. }
  destruct ws as [|w2 ws].
  - destruct (parseredirs_left fuel st1 (length ns0) _ _ rs ts Hl1 (follow_not_redir ts Hfo) Hok Htree eq_refl) as (p' & s' & st' & Hrun & Hl' & Hpre & Ht' & Eb & Hr' & _); [simpl in Hf; lia|done|].
    pruns Hrun. destruct fuel as [|fuel]; [simpl in Hf; lia|]. rewrite (parseargs_stop fuel st' _ p' _ s' ts Hl' Eb Hfo).
    exists p', s', st'. rewrite <- Eav, app_nil_r. split_and!; try done. etransitivity; [|exact Hpre]. simpl. by apply prefix_app_r.
  - assert (good_word w2) as Hw2 by (destruct Hl1 as (_ & _ & [? _]%Forall_cons); done).
    destruct (word_not_redir w2 ((W <$> ws) ++ redir_toks rs ++ ts) Hw2) as (Hnr & _).
    destruct (parseredirs_left fuel st1 (length ns0) _ _ [] _ Hl1 Hnr ltac:(constructor) Htree eq_refl) as (p' & s' & st' & Hrun & _ & _ & _ & _ & _ & Hsame); [simpl in *; lia|simpl; lia|].
    destruct (Hsame eq_refl) as (-> & -> & ->). pruns Hrun. rewrite <- Hlav.
    destruct (IH fuel av1 _ ltac:(done) Hl1 Hfo Hok) as (p' & s' & st' & Hrun' & H1 & H2 & H3 & H4 & H5); [lia|simpl in *; lia|done|].
    exists p', s', st'. rewrite Eav in H3. split_and!; done.
Qed.

(** ** The parser on printed commands *)

(** The tokens [ts] are next, and the bounds suffice for them. *)
Definition ready (st : sh) (s : nat) (ts : list tok) (fuel k : nat) : Prop :=
  left_ s ts ∧ buf st = b ∧ (4 * length ts + k ≤ fuel)%nat ∧ (2 * length ts + 1 ≤ room st)%nat.

(** The command [c] was parsed from [T] tokens, and [ts] are left. *)
Definition yields (o : outcome sh (nat * nat)) (st : sh) (T : nat) (c : cmd) (ts : list tok) : Prop :=
  ∃ p s' st', o = Ok (p, s') st' ∧ buf st' = b ∧ left_ s' ts ∧ nodes st `prefix_of` nodes st' ∧ tree (nodes st') p c ∧
    (room st + 2 * length ts ≤ room st' + 2 * T + 1)%nat.

Definition parses_exec (c : cmd) : Prop := ∀ fuel st s rs ts,
  ready st s (print 0 c ++ redir_toks rs ++ ts) fuel 3 → follow [124; 41; 38; 59] ts → redirs_ok rs →
  yields (parseexec fuel s es st) st (length (print 0 c ++ redir_toks rs ++ ts)) (wrap rs c) ts.
Definition parses_pipe (c : cmd) : Prop := ∀ fuel st s ts,
  ready st s (print 1 c ++ ts) fuel 4 → follow [41; 38; 59] ts →
  yields (parsepipe fuel s es st) st (length (print 1 c ++ ts)) c ts.
Definition parses_line (c : cmd) : Prop := ∀ fuel st s ts,
  ready st s (print 3 c ++ ts) fuel 5 → follow [41] ts →
  yields (parseline fuel s es st) st (length (print 3 c ++ ts)) c ts.

Lemma length_redir_toks rs : length (redir_toks rs) = (2 * length rs)%nat.
Proof using. clear. induction rs as [|r rs IH]; [done|]. change (S (S (length (redir_toks rs))) = 2 * S (length rs))%nat. lia. Qed.

Lemma follow_weaken cs cs' ts : cs ⊆ cs' → follow cs ts → follow cs' ts.
Proof using. clear. intros Hs [->|(c & ts' & -> & Hc)]; [by left|]. right. eauto. Qed.

Lemma redirs_first rs ts : redirs_ok rs → follow [124; 41; 38; 59] ts →
  match redir_toks rs ++ ts with [] => false | t :: _ => strchr [40] (tok_first t) end = false.
Proof using.
  clear. intros Hok Hfo. destruct rs as [|[[f m] fd] rs].
  - destruct Hfo as [->|(c & ts' & -> & Hc)]; [done|]. simpl. assert (forallb (λ x, negb (strchr [40] x)) [124; 41; 38; 59] = true) as Hall by done.
    rewrite forallb_forall in Hall. apply negb_true_iff. apply Hall. by apply list_elem_of_In.
  - apply Forall_cons in Hok as [[_ [[= -> ->]|[[= -> ->]|[= -> ->]]]] _]; done.
Qed.

Lemma exec_exec argv : printable (Exec argv) → parses_exec (Exec argv).
Proof using Hlen.
  intros [Hmax Hall] fuel st s rs ts (Hl & Es & Hf & Hr) Hfo Hok. change (print 0 (Exec argv)) with (W <$> argv) in *.
  rewrite !length_app, length_fmap, length_redir_toks in *. destruct fuel as [|fuel]; [lia|]. cbn [parseexec].
  destruct st as [bb ns r]. simpl in Es, Hr. subst bb. set (st := mksh b ns r). set (st1 := mksh b (ns ++ [execcmd_ []]) (r - 1)).
  assert (execcmd st = Ok (length ns) st1) as Hnew by (apply new_run; simpl; lia).
  assert (tree (nodes st1) (length ns) (Exec [])) as Htree by (apply tree_new; [intros f _|]; cbn [words_at]; by rewrite lookup_new).
  assert (ns `prefix_of` ns ++ [execcmd_ []]) as Hpre0 by (by apply prefix_app_r).
  destruct argv as [|w ws].
  - change ((W <$> []) ++ redir_toks rs ++ ts) with (redir_toks rs ++ ts) in Hl.
    pruns (peek_left s _ st [40] Hl eq_refl). rewrite redirs_first by done. runs Hnew.
    destruct (parseredirs_left fuel st1 _ _ s rs ts Hl (follow_not_redir ts Hfo) Hok Htree eq_refl) as (p' & s' & st' & Hrun & Hl' & Hpre & Ht' & Eb & Hr' & _); [lia|simpl; lia|].
    pruns Hrun. destruct fuel as [|fuel]; [lia|]. rewrite (parseargs_stop fuel st' _ p' _ s' ts Hl' Eb Hfo).
    exists p', s', st'. split_and!; try done; [by etransitivity|]. simpl in *. lia.
  - destruct (word_not_redir w ((W <$> ws) ++ redir_toks rs ++ ts)) as (Hnr & _ & Hno); [by apply Forall_cons in Hall as [? _]|].
    pruns (peek_cons s _ _ st [40] Hl eq_refl). rewrite Hno. runs Hnew.
    destruct (parseredirs_left fuel st1 (length ns) _ s [] _ Hl Hnr ltac:(constructor) Htree eq_refl) as (p' & s' & st' & Hrun & _ & _ & _ & _ & _ & Hsame); [simpl in *; lia|simpl; lia|].
    destruct (Hsame eq_refl) as (-> & -> & ->). pruns Hrun.
    destruct (parseargs_left (w :: ws) fuel ns (r - 1) [] s rs ts ltac:(done) Hl Hfo Hok) as (p' & s' & st' & Hrun' & Hl' & Hpre & Ht' & Eb & Hr'); [done|simpl in *; lia|lia|].
    exists p', s', st'. split_and!; try done. simpl in *. lia.
Qed.

Lemma exec_redir c file mode fd : parses_exec c → printable (Redir c file mode fd) → parses_exec (Redir c file mode fd).
Proof using.
  clear Hlen. intros IH (Hc & Hw & Hro) fuel st s rs ts Hrd Hfo Hok.
  assert (print 0 (Redir c file mode fd) ++ redir_toks rs ++ ts = print 0 c ++ redir_toks ((file, mode, fd) :: rs) ++ ts) as E.
  { cbn [print]. unfold paren. cbn [level Nat.leb]. rewrite <- (assoc_L (++)). done. }
  rewrite E in *. apply (IH fuel st s ((file, mode, fd) :: rs) ts Hrd Hfo). by constructor.
Qed.

(** Arithmetic on the lengths of token lists. *)
Ltac lens :=
  repeat match goal with H : context [length] |- _ => progress (repeat (rewrite ?length_app, ?length_redir_toks, ?length_replicate in H; cbn [length app] in H)) end;
  repeat (rewrite ?length_app, ?length_redir_toks, ?length_replicate; cbn [length app]); lia.

(** A command in parentheses. *)
Lemma exec_block c : (0 < level c)%nat → parses_line c → parses_exec c.
Proof using Hlen.
  intros Hlv IH fuel st s rs ts (Hl & Es & Hf & Hr) Hfo Hok.
  assert (print 0 c = [S_ 40] ++ print 3 c ++ [S_ 41]) as Ep.
  { destruct c; simpl in *; try lia; unfold paren; simpl; done. }
  rewrite Ep in *. rewrite <- !(assoc_L (++)) in *. cbn [app] in Hl.
  destruct fuel as [|fuel]; [lens|]. cbn [parseexec]. pruns (peek_cons s _ _ st [40] Hl Es). change (strchr [40] (tok_first (S_ 40))) with true. cbv iota.
  destruct fuel as [|fuel]; [lens|]. cbn [parseblock]. pruns (peek_cons s _ _ st [40] Hl Es). change (strchr [40] (tok_first (S_ 40))) with true.
  cbn [negb when]. rewrite ret_bind. pruns (gettoken_left s _ _ st Hl Es). pose proof (left_step s _ _ Hl) as Hl1.
  destruct (IH fuel st (s + length (tok_text (S_ 40)) + 1)%nat (S_ 41 :: redir_toks rs ++ ts)) as (p & s2 & st2 & Hrun & Eb & Hl2 & Hpre & Ht & Hroom);
    [split_and!; [exact Hl1|done|lens|lens]|right; eexists _, _; split; [done|set_solver]|].
  pruns Hrun. pruns (peek_cons s2 _ _ st2 [41] Hl2 Eb). change (strchr [41] (tok_first (S_ 41))) with true. cbn [negb when]. rewrite ret_bind.
  pruns (gettoken_left s2 _ _ st2 Hl2 Eb). pose proof (left_step s2 _ _ Hl2) as Hl3.
  destruct (parseredirs_left fuel st2 p c _ rs ts Hl3 (follow_not_redir ts Hfo) Hok Ht Eb) as (p' & s' & st' & Hrun' & Hl' & Hpre' & Ht' & Eb' & Hr' & _); [lens|lens|].
  exists p', s', st'. split_and!; try done; [by etransitivity|]. lens.
Qed.

(** What [parseexec] parses, without redirections after it. *)
Lemma exec_plain c fuel st s ts :
  parses_exec c → ready st s (print 0 c ++ ts) fuel 3 → follow [124; 41; 38; 59] ts →
  yields (parseexec fuel s es st) st (length (print 0 c ++ ts)) c ts.
Proof using. clear Hlen. intros Hc Hr Hfo. apply (Hc fuel st s [] ts); [done|done|constructor]. Qed.

Lemma pipe_single c : print 1 c = print 0 c → parses_exec c → parses_pipe c.
Proof using Hlen.
  intros E Hc fuel st s ts (Hl & Es & Hf & Hr) Hfo. rewrite E in *. destruct fuel as [|fuel]; [lens|]. cbn [parsepipe].
  destruct (exec_plain c fuel st s ts Hc) as (p & s1 & st1 & Hrun & Eb & Hl1 & Hpre & Ht & Hroom);
    [split_and!; try done; lens|eapply follow_weaken, Hfo; set_solver|].
  pruns Hrun. pruns (follow_peek _ [124] s1 ts st1 Hl1 Eb Hfo eq_refl). exists p, s1, st1. done.
Qed.

Lemma pipe_pipe l r : parses_exec l → parses_pipe r → parses_pipe (Pipe l r).
Proof using Hlen.
  intros Hle Hrp fuel st s ts (Hl & Es & Hf & Hr) Hfo.
  change (print 1 (Pipe l r)) with (print 0 l ++ [S_ 124] ++ print 1 r) in *. rewrite <- !(assoc_L (++)) in *. cbn [app] in Hl.
  destruct fuel as [|fuel]; [lens|]. cbn [parsepipe].
  destruct (exec_plain l fuel st s (S_ 124 :: print 1 r ++ ts) Hle) as (p & s1 & st1 & Hrun & Eb & Hl1 & Hpre & Ht & Hroom);
    [split_and!; try done; lens|right; eexists _, _; split; [done|set_solver]|].
  pruns Hrun. pruns (peek_cons s1 _ _ st1 [124] Hl1 Eb). change (strchr [124] (tok_first (S_ 124))) with true. cbv iota.
  pruns (gettoken_left s1 _ _ st1 Hl1 Eb). pose proof (left_step s1 _ _ Hl1) as Hl2.
  destruct (Hrp fuel st1 (s1 + length (tok_text (S_ 124)) + 1)%nat ts) as (p' & s3 & st3 & Hrun3 & Eb3 & Hl3 & Hpre3 & Ht3 & Hroom3);
    [split_and!; try done; lens|done|].
  pruns Hrun3. unfold pipecmd. runs (new_run st3) by lens.
  eexists _, s3, _. split; [reflexivity|]. cbn [buf nodes room]. split_and!; [done|done| | |lens].
  - etransitivity; [exact Hpre|]. etransitivity; [exact Hpre3|]. by apply prefix_app_r.
  - apply (tree_node _ _ _ (λ q c, (q = p ∧ c = l) ∨ (q = p' ∧ c = r))).
    + intros q c [[-> ->]|[-> ->]]; [by eapply tree_prefix|done].
    + intros f Hsub. cbn [words_at]. rewrite lookup_new. rewrite (Hsub p l), (Hsub p' r) by auto. done.
Qed.

Lemma parseback_left n fuel st p c s ts :
  left_ s (replicate n (S_ 38) ++ ts) → follow [41; 59] ts → tree (nodes st) p c → buf st = b → (n < fuel)%nat → (n ≤ room st)%nat →
  ∃ p' s' st', parseback fuel p s es st = Ok (p', s') st' ∧ left_ s' ts ∧ nodes st `prefix_of` nodes st' ∧
    tree (nodes st') p' (Nat.iter n Back c) ∧ buf st' = b ∧ (room st = room st' + n)%nat.
Proof using Hlen.
  revert n st p c s; induction fuel as [|fuel IH]; intros n st p c s Hl Hfo Ht Es Hf Hr; [lia|]. cbn [parseback]. destruct n as [|n].
  { pruns (follow_peek _ [38] s ts st Hl Es Hfo eq_refl). exists p, s, st. split_and!; try done. }
  simpl in Hl. pruns (peek_cons s _ _ st [38] Hl Es). change (strchr [38] (tok_first (S_ 38))) with true. cbv iota.
  pruns (gettoken_left s _ _ st Hl Es). pose proof (left_step s _ _ Hl) as Hl1. unfold backcmd. runs (new_run st) by lia.
  set (st1 := mksh _ _ _). assert (tree (nodes st1) (length (nodes st)) (Back c)) as Ht1.
  { apply (tree_node _ _ _ (λ q c', q = p ∧ c' = c)); [by intros ? ? [-> ->]|]. intros f Hsub. cbn [words_at]. rewrite lookup_new. rewrite (Hsub p c) by done. done. }
  destruct (IH n st1 (length (nodes st)) (Back c) _ Hl1 Hfo Ht1) as (p' & s' & st' & Hrun & Hl' & Hpre & Ht' & Eb & Hr'); [done|lia|simpl; lia|].
  exists p', s', st'. split_and!; try done; [|by rewrite Nat.iter_succ_r|simpl in Hr'; lia]. etransitivity; [|exact Hpre]. by apply prefix_app_r.
Qed.

(** A pipeline and the "&"s after it, as the start of [parseline] reads them. *)
Definition parses_back (c : cmd) : Prop := ∀ n fuel st s ts,
  ready st s (print 2 c ++ replicate n (S_ 38) ++ ts) fuel 4 → follow [41; 59] ts →
  ∃ p1 s1 st1, parsepipe fuel s es st = Ok (p1, s1) st1 ∧
    yields (parseback fuel p1 s1 es st1) st (length (print 2 c ++ replicate n (S_ 38) ++ ts)) (Nat.iter n Back c) ts.

Lemma back_single c : print 2 c = print 1 c → parses_pipe c → parses_back c.
Proof using Hlen.
  intros E Hc n fuel st s ts (Hl & Es & Hf & Hr) Hfo. rewrite E in *.
  destruct (Hc fuel st s (replicate n (S_ 38) ++ ts)) as (p & s1 & st1 & Hrun & Eb & Hl1 & Hpre & Ht & Hroom); [by split_and!| |].
  { destruct n; [eapply follow_weaken, Hfo; set_solver|]. right. eexists _, _. split; [done|set_solver]. }
  exists p, s1, st1. split; [done|].
  destruct (parseback_left n fuel st1 p c s1 ts Hl1 Hfo Ht Eb) as (p' & s' & st' & Hrun' & Hl' & Hpre' & Ht' & Eb' & Hr'); [lens|lens|].
  exists p', s', st'. split_and!; try done; [by etransitivity|lens].
Qed.

Lemma back_back c : parses_back c → parses_back (Back c).
Proof using.
  clear Hlen. intros IH n fuel st s ts Hrd Hfo.
  assert (print 2 (Back c) ++ replicate n (S_ 38) ++ ts = print 2 c ++ replicate (S n) (S_ 38) ++ ts) as E.
  { cbn [print]. unfold paren. cbn [level Nat.leb]. rewrite <- (assoc_L (++)). done. }
  rewrite E in *. destruct (IH (S n) fuel st s ts Hrd Hfo) as (p1 & s1 & st1 & Hrun & Hy). exists p1, s1, st1. split; [done|].
  by rewrite Nat.iter_succ_r in Hy.
Qed.

Lemma line_single c : print 3 c = print 2 c → parses_back c → parses_line c.
Proof using Hlen.
  intros E Hc fuel st s ts (Hl & Es & Hf & Hr) Hfo. rewrite E in *. destruct fuel as [|fuel]; [lens|]. cbn [parseline].
  destruct (Hc 0%nat fuel st s ts) as (p1 & s1 & st1 & Hrun1 & p & s2 & st2 & Hrun2 & Eb & Hl2 & Hpre & Ht & Hroom);
    [split_and!; try done; lens|eapply follow_weaken, Hfo; set_solver|].
  pruns Hrun1. pruns Hrun2. pruns (follow_peek _ [59] s2 ts st2 Hl2 Eb Hfo eq_refl). exists p, s2, st2. done.
Qed.

Lemma line_list l r : parses_back l → parses_line r → parses_line (List l r).
Proof using Hlen.
  intros Hlb Hrl fuel st s ts (Hl & Es & Hf & Hr) Hfo.
  change (print 3 (List l r)) with (print 2 l ++ [S_ 59] ++ print 3 r) in *. rewrite <- !(assoc_L (++)) in *. cbn [app] in Hl.
  destruct fuel as [|fuel]; [lens|]. cbn [parseline].
  destruct (Hlb 0%nat fuel st s (S_ 59 :: print 3 r ++ ts)) as (p1 & s1 & st1 & Hrun1 & p & s2 & st2 & Hrun2 & Eb & Hl2 & Hpre & Ht & Hroom);
    [split_and!; try done; lens|right; eexists _, _; split; [done|set_solver]|].
  pruns Hrun1. pruns Hrun2. pruns (peek_cons s2 _ _ st2 [59] Hl2 Eb). change (strchr [59] (tok_first (S_ 59))) with true. cbv iota.
  pruns (gettoken_left s2 _ _ st2 Hl2 Eb). pose proof (left_step s2 _ _ Hl2) as Hl3.
  destruct (Hrl fuel st2 (s2 + length (tok_text (S_ 59)) + 1)%nat ts) as (p' & s4 & st4 & Hrun4 & Eb4 & Hl4 & Hpre4 & Ht4 & Hroom4);
    [split_and!; try done; lens|done|].
  pruns Hrun4. unfold listcmd. runs (new_run st4) by lens.
  eexists _, s4, _. split; [reflexivity|]. cbn [buf nodes room]. split_and!; [done|done| | |lens].
  - etransitivity; [exact Hpre|]. etransitivity; [exact Hpre4|]. by apply prefix_app_r.
  - apply (tree_node _ _ _ (λ q c, (q = p ∧ c = l) ∨ (q = p' ∧ c = r))).
    + intros q c [[-> ->]|[-> ->]]; [by eapply tree_prefix|done].
    + intros f Hsub. cbn [words_at]. rewrite lookup_new. rewrite (Hsub p l), (Hsub p' r) by auto. done.
Qed.

(** Every printable command is parsed at every level. *)
Lemma parses_all c : printable c → parses_exec c ∧ parses_pipe c ∧ parses_back c ∧ parses_line c.
Proof using Hlen.
  induction c as [argv|c IH file mode fd|l IHl r IHr|l IHl r IHr|c IH]; intros Hp.
  - assert (parses_exec (Exec argv)) as He by by apply exec_exec. assert (parses_pipe (Exec argv)) as Hpi by by apply pipe_single.
    assert (parses_back (Exec argv)) as Hba by by apply back_single. split_and!; try done. by apply line_single.
  - destruct (IH (proj1 Hp)) as (Hc & _). assert (parses_exec (Redir c file mode fd)) as He by by apply exec_redir.
    assert (parses_pipe (Redir c file mode fd)) as Hpi by by apply pipe_single.
    assert (parses_back (Redir c file mode fd)) as Hba by by apply back_single. split_and!; try done. by apply line_single.
  - destruct Hp as [Hl Hr]. destruct (IHl Hl) as (Hle & _), (IHr Hr) as (_ & Hrp & _).
    assert (parses_pipe (Pipe l r)) as Hpi by by apply pipe_pipe. assert (parses_back (Pipe l r)) as Hba by by apply back_single.
    assert (parses_line (Pipe l r)) as Hli by by apply line_single. split_and!; try done. apply exec_block; [simpl; lia|done].
  - destruct Hp as [Hl Hr]. destruct (IHl Hl) as (_ & _ & Hlb & _), (IHr Hr) as (_ & _ & _ & Hrl).
    assert (parses_line (List l r)) as Hli by by apply line_list. assert (parses_exec (List l r)) as He by (apply exec_block; [simpl; lia|done]).
    assert (parses_pipe (List l r)) as Hpi by by apply pipe_single. split_and!; try done. by apply back_single.
  - destruct (IH Hp) as (_ & _ & Hb & _). assert (parses_back (Back c)) as Hba by by apply back_back.
    assert (parses_line (Back c)) as Hli by by apply line_single. assert (parses_exec (Back c)) as He by (apply exec_block; [simpl; lia|done]).
    split_and!; try done. by apply pipe_single.
Qed.
End parse.

(** ** The round trip *)

Lemma print_good c lvl : printable c → Forall good_tok (print lvl c).
Proof.
  assert (∀ lvl c body, Forall good_tok body → Forall good_tok (paren lvl c body)) as Hparen.
  { intros lv c' body Hb. unfold paren. case_match; [done|]. apply Forall_app; split; [|apply Forall_app; split; [done|]];
      (apply Forall_cons_2; [|apply Forall_nil_2]); unfold good_tok, symbols; set_solver. }
  revert lvl; induction c as [argv|c IH file mode fd|l IHl r IHr|l IHl r IHr|c IH]; intros lvl Hp; cbn [print]; apply Hparen.
  - destruct Hp as [_ Hall]. by apply Forall_fmap.
  - destruct Hp as (Hc & Hw & Hro). apply Forall_app; split; [by apply IH|]. apply Forall_cons_2; [|apply Forall_cons_2; [done|apply Forall_nil_2]].
    destruct Hro as [[= -> ->]|[[= -> ->]|[= -> ->]]]; unfold good_tok, symbols; simpl; set_solver.
  - destruct Hp as (Hl & Hr). apply Forall_app; split; [by apply IHl|]. apply Forall_app; split; [|by apply IHr].
    apply Forall_cons_2; [|apply Forall_nil_2]. unfold good_tok, symbols; set_solver.
  - destruct Hp as (Hl & Hr). apply Forall_app; split; [by apply IHl|]. apply Forall_app; split; [|by apply IHr].
    apply Forall_cons_2; [|apply Forall_nil_2]. unfold good_tok, symbols; set_solver.
  - apply Forall_app; split; [by apply IH|]. apply Forall_cons_2; [|apply Forall_nil_2]. unfold good_tok, symbols; set_solver.
Qed.

Lemma tok_text_nonzero t : good_tok t → Forall (.≠ 0) (tok_text t).
Proof.
  destruct t as [w|c|]; simpl.
  - intros [_ Hw]. eapply Forall_impl; [exact Hw|]. intros c Hc. unfold wordchar in Hc. by intros ->.
  - intros Hc. apply Forall_cons_2; [|apply Forall_nil_2]. intros ->. assert (bool_decide (0 ∈ symbols) = false) as Hno by reflexivity. by apply bool_decide_eq_false_1 in Hno.
  - intros _. by repeat constructor.
Qed.

Lemma lex_nonzero ts : Forall good_tok ts → Forall (.≠ 0) (lex ts) ∧ (length ts ≤ length (lex ts))%nat.
Proof.
  induction 1 as [|t ts Ht _ [IH IHl]]; [by split; [constructor|]|]. rewrite lex_cons. split.
  - apply Forall_app; split; [by apply tok_text_nonzero|]. by apply Forall_cons_2.
  - rewrite length_app. simpl. lia.
Qed.

Lemma show_line c : printable c →
  line_ok (show c) (length (lex (print 3 c))) ∧ strlen (show c) = length (lex (print 3 c)).
Proof.
  intros Hp. destruct (lex_nonzero _ (print_good c 3 Hp)) as [Hnz _]. unfold show. set (l := lex (print 3 c)) in *.
  assert ((l ++ [0]) !! length l = Some 0) as He by (by rewrite lookup_app_r, Nat.sub_diag by lia).
  assert (∀ k, (k < length l)%nat → ∃ ch, (l ++ [0]) !! k = Some ch ∧ ch ≠ 0) as Hc.
  { intros k Hk. rewrite lookup_app_l by done. destruct (lookup_lt_is_Some_2 l k Hk) as [ch Hch]. exists ch. split; [done|].
    exact (Forall_lookup_1 _ _ _ _ Hnz Hch). }
  split; [by split|]. by apply strlen_at.
Qed.

(** C18: every command the shell's grammar can express - words, redirections,
    pipelines, lists and background commands, nested in any way - is written
    by [show] as a line from which [parsecmd] builds that same command: the
    nodes it returns, with the strings as the terminated line has them, are
    the command. *)
Theorem parsecmd_show c mem :
  printable c → (2 * strlen (show c) + 1 ≤ mem)%nat →
  ∃ p st, parsecmd (mksh (show c) [] mem) = Ok p st ∧ cmd_at (S p) (buf st) (nodes st) p = Some c.
Proof.
  intros Hp Hmem. destruct (show_line c Hp) as [Hline Hlen]. set (es := length (lex (print 3 c))) in *. set (b := show c) in *.
  assert (length b = S es) as Hlb by (unfold b, show; rewrite length_app; simpl; lia).
  pose proof (print_good c 3 Hp) as Hgood. destruct (lex_nonzero _ Hgood) as [_ Htoks]. fold es in Htoks. set (st0 := mksh b [] mem).
  destruct (parses_all b es Hlb c Hp) as (_ & _ & _ & Hpl). rewrite Hlen in Hmem.
  destruct (Hpl (parse_fuel es) st0 0%nat []) as (p & s & st & Hrun & Eb & Hleft & _ & (Hpn & Htree) & _); [|by left|].
  { rewrite app_nil_r. split_and!; [split_and!; [done|lia|done]|done|unfold parse_fuel; lia|simpl; lia]. }
  pose proof (left_nil b es Hlb s Hleft) as ->.
  destruct (wp_parse b es Hline (parse_fuel es)) as (Hwp & _). specialize (Hwp st0 0%nat). unfold wp in Hwp. rewrite Hrun in Hwp.
  destruct Hwp as ((_ & Hnodes) & _); [split_and!; [split; [done|intros i n Hi; simpl in Hi; done]|lia|unfold parse_fuel; lia|simpl; lia]|].
  destruct (nulterminate_ok b es (S p) st p) as (b' & Hnul & Hz & Hterm); [rewrite Eb; split; [done|by left]|done|done|lia|].
  exists p, (mksh b' (nodes st) (room st)). split.
  - unfold parsecmd. unfold gets at 1, mbind at 1, M_bind at 1. cbn [buf st0]. rewrite Hlen. pruns Hrun.
    pruns (peek_left b es Hlb es [] st [] Hleft Eb). rewrite Nat.eqb_refl. cbn [negb when]. rewrite ret_bind. runs Hnul. done.
  - cbn [buf nodes]. rewrite (Hterm b' (S p)); [apply Htree; lia|by split; [apply Hz|]|lia].
Qed.

(** (a ; b < f) | c & *)
Lemma parsecmd_show_witness :
  let c := Back (Pipe (List (Exec [[97]]) (Redir (Exec [[98]]) [102] 0 0)) (Exec [[99]])) in
  ∃ p st, parsecmd (mksh (show c) [] 100) = Ok p st ∧ cmd_at (S p) (buf st) (nodes st) p = Some c.
Proof.
  intros c. apply (parsecmd_show c 100); [|apply Nat.leb_le; reflexivity].
  assert (∀ ch, wordchar ch = true → good_word [ch]) as Hg by (intros ch Hch; split; [discriminate|constructor; [exact Hch|constructor]]).
  simpl. unfold MAXARGS. repeat split; simpl; try lia; try (constructor; [apply Hg; reflexivity|constructor]); try (apply Hg; reflexivity); try discriminate; left; reflexivity.
Defined.
