(* ===== verification/Sep.v ===== *)
(** * Separation logic over byte memories

    [hprop] is an affine logic of assertions about the part of the memory a
    piece of code owns, given as an instance of Iris's [bi] interface so that
    the proof mode is available.  [wp m Φ g] is the total-correctness weakest
    precondition of the monadic code [m] run with the non-memory state [g]:
    from every memory that extends an owned part, [m] returns (no panic, no
    fault, no undefined behaviour, no lack of fuel), leaves the rest of the
    memory as it was and establishes [Φ]. *)
From S2P Require Import Prelude Mem.
From iris.algebra Require Import ofe.
From iris.bi Require Import bi.
From iris.proofmode Require Import proofmode.

#[local] Open Scope Z_scope.

(** ** The logic *)

Record hprop := HProp {
  hprop_holds :> bytemap → Prop;
  hprop_mono h1 h2 : hprop_holds h1 → h1 ⊆ h2 → hprop_holds h2;
}.
Arguments HProp _ _ : clear implicits.
Arguments hprop_mono _ {_ _} _ _.

Section logic.
Local Instance hprop_equiv_def : Equiv hprop := λ P Q, ∀ h, P h ↔ Q h.
Local Instance hprop_equivalence : Equivalence (≡@{hprop}).
Proof.
  unfold equiv, hprop_equiv_def. split; [done|by intros ????|].
  intros P Q R H1 H2 h. by transitivity (Q h).
Qed.

Canonical Structure hpropO : ofe := discreteO hprop.

Inductive entails (P Q : hprop) : Prop :=
| Entails (H : ∀ h, P h → Q h).

Lemma entails_at {P Q} : entails P Q → ∀ h, P h → Q h.
Proof. by intros [H]. Qed.

Program Definition pureP (φ : Prop) : hprop := HProp (λ _, φ) _.
Next Obligation. done. Qed.
Definition empP : hprop := pureP True.
Program Definition andP (P Q : hprop) : hprop := HProp (λ h, P h ∧ Q h) _.
Next Obligation. intros; naive_solver eauto using hprop_mono. Qed.
Program Definition orP (P Q : hprop) : hprop := HProp (λ h, P h ∨ Q h) _.
Next Obligation. intros; naive_solver eauto using hprop_mono. Qed.
Program Definition implP (P Q : hprop) : hprop :=
  HProp (λ h, ∀ h', h ⊆ h' → P h' → Q h') _.
Next Obligation. intros P Q h1 h2 H Hs h' Hs'. apply H. by transitivity h2. Qed.
Program Definition forallP A (Ψ : A → hprop) : hprop := HProp (λ h, ∀ a, Ψ a h) _.
Next Obligation. intros; naive_solver eauto using hprop_mono. Qed.
Program Definition existP A (Ψ : A → hprop) : hprop := HProp (λ h, ∃ a, Ψ a h) _.
Next Obligation. intros; naive_solver eauto using hprop_mono. Qed.
Program Definition sepP (P Q : hprop) : hprop :=
  HProp (λ h, ∃ h1 h2, h1 ∪ h2 ⊆ h ∧ h1 ##ₘ h2 ∧ P h1 ∧ Q h2) _.
Next Obligation.
  intros P Q ha hb (h1 & h2 & Hs & Hd & HP & HQ) Hab. exists h1, h2.
  split_and!; try done. by transitivity ha.
Qed.
Program Definition wandP (P Q : hprop) : hprop :=
  HProp (λ h, ∀ h', h ##ₘ h' → P h' → Q (h ∪ h')) _.
Next Obligation.
  intros P Q ha hb H Hab h' Hd HP.
  assert (ha ##ₘ h') by (by eapply map_disjoint_weaken_l).
  eapply hprop_mono; [by apply H|]. by apply map_union_mono_r.
Qed.
Definition persP (P : hprop) : hprop := pureP (entails empP P).

Lemma hprop_bi_mixin :
  BiMixin entails empP pureP andP orP implP forallP existP sepP wandP.
Proof.
  split.
  - split; [by intros P|]. intros P Q R [H1] [H2]. constructor. auto.
  - intros P Q; split; [intros H; split; constructor; intros h; apply H|].
    intros [[H1] [H2]] h; split; auto.
  - intros n φ1 φ2 H h. apply H.
  - intros n P P' HP Q Q' HQ h. split; intros [??]; split; by (apply HP || apply HQ).
  - intros n P P' HP Q Q' HQ h.
    split; (intros [?|?]; [left|right]; by (apply HP || apply HQ)).
  - intros n P P' HP Q Q' HQ h.
    split; intros H h' Hs Hh'; apply HQ, H, HP; done.
  - intros A n Ψ1 Ψ2 H h. split; intros Hh a; by apply H.
  - intros A n Ψ1 Ψ2 H h. split; intros [a Ha]; exists a; by apply H.
  - intros n P P' HP Q Q' HQ h.
    split; intros (h1 & h2 & ? & ? & ? & ?); exists h1, h2;
      (split_and!; [done|done|by apply HP|by apply HQ]).
  - intros n P P' HP Q Q' HQ h.
    split; intros H h' Hd Hh'; apply HQ, H; auto; by apply HP.
  - intros φ P Hφ. constructor. intros h _. exact Hφ.
  - intros φ P H. constructor. intros h Hφ. by apply (entails_at (H Hφ)).
  - intros P Q. constructor. by intros h [??].
  - intros P Q. constructor. by intros h [??].
  - intros P Q R [H1] [H2]. constructor. intros h Hh. split; auto.
  - intros P Q. constructor. intros h ?. by left.
  - intros P Q. constructor. intros h ?. by right.
  - intros P Q R [H1] [H2]. constructor. intros h [?|?]; auto.
  - intros P Q R [H]. constructor. intros h HP h' Hs HQ. apply H.
    split; [by eapply hprop_mono|done].
  - intros P Q R [H]. constructor. intros h [HP HQ]. by apply (H h).
  - intros A P Ψ H. constructor. intros h Hh a. by apply (entails_at (H a)).
  - intros A Ψ a. constructor. intros h Hh. apply Hh.
  - intros A Ψ a. constructor. intros h Hh. by exists a.
  - intros A Φ Q H. constructor. intros h [a Ha]. by apply (entails_at (H a)).
  - intros P P' Q Q' [H1] [H2]. constructor. intros h (h1 & h2 & ? & ? & ? & ?).
    exists h1, h2. split_and!; auto.
  - intros P. constructor. intros h HP. exists ∅, h. split_and!; try done.
    + by rewrite (left_id_L ∅ (∪)).
    + apply map_disjoint_empty_l.
  - intros P. constructor. intros h (h1 & h2 & Hs & Hd & _ & HP).
    eapply hprop_mono; [done|]. etrans; [|done]. by apply map_union_subseteq_r.
  - intros P Q. constructor. intros h (h1 & h2 & Hs & Hd & HP & HQ). exists h2, h1.
    split_and!; try done. by rewrite map_union_comm.
  - intros P Q R. constructor.
    intros h (h12 & h3 & Hs & Hd & (h1 & h2 & Hs' & Hd' & HP & HQ) & HR).
    exists h1, (h2 ∪ h3).
    assert (h1 ∪ h2 ##ₘ h3) as [Hd13 Hd23]%map_disjoint_union_l
      by (by eapply map_disjoint_weaken_l).
    split_and!; [|by apply map_disjoint_union_r|done|].
    + rewrite (assoc_L (∪)). etrans; [|done]. by apply map_union_mono_r.
    + exists h2, h3. split_and!; done.
  - intros P Q R [H]. constructor. intros h HP h' Hd HQ. apply H. exists h, h'.
    split_and!; done.
  - intros P Q R [H]. constructor. intros h (h1 & h2 & Hs & Hd & HP & HQ).
    eapply hprop_mono; [by apply (H h1)|done].
Qed.

Lemma hprop_pers_mixin :
  BiPersistentlyMixin entails empP andP existP sepP persP.
Proof.
  eapply bi_persistently_mixin_discrete, hprop_bi_mixin; [done| |done].
  intros A Φ [H]. destruct (H ∅ I) as [a Ha]. exists a. constructor. intros h _.
  eapply hprop_mono; [done|]. apply map_empty_subseteq.
Qed.

Lemma hprop_later_mixin :
  BiLaterMixin entails pureP orP implP forallP existP sepP persP id.
Proof. eapply bi_later_mixin_id; [done|apply hprop_bi_mixin]. Qed.
End logic.

Canonical Structure hpropI : bi :=
  {| bi_ofe_mixin := ofe_mixin_of hprop;
     bi_bi_mixin := hprop_bi_mixin;
     bi_bi_persistently_mixin := hprop_pers_mixin;
     bi_bi_later_mixin := hprop_later_mixin |}.

#[export] Instance hprop_pure_forall : BiPureForall hpropI.
Proof. intros A φ. constructor. intros h H a. exact (H a). Qed.

#[export] Instance hprop_affine : BiAffine hpropI | 0.
Proof. intros P. constructor. intros h _. exact I. Qed.

(** ** Ownership of memory *)

Program Definition own (h0 : bytemap) : hprop := HProp (λ h, h0 ⊆ h) _.
Next Obligation. intros h0 h1 h2 H1 H2. by transitivity h1. Qed.

(** The bytes [bs] at [a]; the [n]-byte value [v] at [a]; [n] bytes of any
    contents at [a]. *)
Definition bytes (a : Z) (bs : list Z) : hprop := own (seqmap a bs).
Definition word (n : nat) (a v : Z) : hprop :=
  (⌜0 ≤ v < 256 ^ Z.of_nat n⌝ ∗ bytes a (le_split n v))%I.
Definition anybytes (a n : Z) : hprop :=
  (∃ bs, ⌜Z.of_nat (length bs) = n ∧ Forall is_byte bs⌝ ∗ bytes a bs)%I.

Notation "a ↦₄ v" := (word 4 a v) (at level 20) : bi_scope.
Notation "a ↦₈ v" := (word 8 a v) (at level 20) : bi_scope.

Section ownership.
Implicit Types h : bytemap.

Lemma own_union h1 h2 : h1 ##ₘ h2 → own (h1 ∪ h2) ⊣⊢ own h1 ∗ own h2.
Proof.
  intros Hd. apply bi.equiv_entails. split.
  - constructor. intros h H. exists h1, h2. split_and!; [exact H|done|by simpl..].
  - constructor. intros h (k1 & k2 & Hs & Hk & H1 & H2). simpl in *.
    etrans; [|exact Hs]. transitivity (k1 ∪ h2); [|by apply map_union_mono_l].
    apply map_union_mono_r; [by eapply map_disjoint_weaken_r|done].
Qed.

Lemma own_disjoint h1 h2 : own h1 ∗ own h2 ⊢ ⌜h1 ##ₘ h2⌝.
Proof.
  constructor. intros h (k1 & k2 & Hs & Hk & H1 & H2). simpl in *.
  eapply map_disjoint_weaken; [exact Hk|done|done].
Qed.

Lemma bytes_app a l1 l2 :
  bytes a (l1 ++ l2) ⊣⊢ bytes a l1 ∗ bytes (a + Z.of_nat (length l1)) l2.
Proof.
  unfold bytes. rewrite seqmap_app. apply own_union, seqmap_disjoint. lia.
Qed.

Lemma bytes_nil a : ⊢ bytes a [].
Proof. constructor. intros h _. apply map_empty_subseteq. Qed.

(** Two owned ranges do not overlap. *)
Lemma bytes_disjoint a1 l1 a2 l2 :
  (0 < length l1)%nat → (0 < length l2)%nat →
  bytes a1 l1 ∗ bytes a2 l2 ⊢
    ⌜a1 + Z.of_nat (length l1) ≤ a2 ∨ a2 + Z.of_nat (length l2) ≤ a1⌝.
Proof.
  intros H1 H2. unfold bytes. etrans; [apply own_disjoint|].
  apply bi.pure_mono. intros Hd.
  destruct (decide (a1 + Z.of_nat (length l1) ≤ a2)) as [?|N1]; [by left|].
  destruct (decide (a2 + Z.of_nat (length l2) ≤ a1)) as [?|N2]; [by right|].
  exfalso. set (i := Z.max a1 a2).
  assert (∀ a l, a ≤ i < a + Z.of_nat (length l) → is_Some (seqmap a l !! i)) as Hs.
  { intros a l Hi. replace i with (a + Z.of_nat (Z.to_nat (i - a))) by lia.
    rewrite seqmap_lookup_Some. apply lookup_lt_is_Some. lia. }
  destruct (Hs a1 l1) as [x Hx]; [lia|]. destruct (Hs a2 l2) as [y Hy]; [lia|].
  by eapply (map_disjoint_spec (seqmap a1 l1) (seqmap a2 l2)).
Qed.

Lemma anybytes_nonneg a n : anybytes a n ⊢ ⌜0 ≤ n⌝.
Proof. iIntros "(%bs & [%Hl _] & _)". iPureIntro. lia. Qed.

Lemma anybytes_0 a : ⊢ anybytes a 0.
Proof. iExists []. iSplit; [done|]. iApply bytes_nil. Qed.

Lemma anybytes_split a n k :
  0 ≤ k ≤ n → anybytes a n ⊣⊢ anybytes a k ∗ anybytes (a + k) (n - k).
Proof.
  intros Hk. iSplit.
  - iIntros "(%bs & [%Hl %Hb] & Hbs)".
    rewrite -(take_drop (Z.to_nat k) bs) bytes_app.
    iDestruct "Hbs" as "[H1 H2]".
    rewrite -> length_take_le, Z2Nat.id by lia.
    iSplitL "H1"; iExists _; iFrame; iPureIntro.
    + rewrite -> length_take_le by lia. split; [lia|]. by apply Forall_take.
    + rewrite length_drop. split; [lia|]. by apply Forall_drop.
  - iIntros "[(%b1 & [%Hl1 %Hb1] & H1) (%b2 & [%Hl2 %Hb2] & H2)]".
    iExists (b1 ++ b2). rewrite bytes_app Hl1. iFrame. iPureIntro.
    rewrite length_app. split; [lia|]. by apply Forall_app.
Qed.

Lemma anybytes_word (n : nat) a : anybytes a (Z.of_nat n) ⊣⊢ ∃ v, word n a v.
Proof.
  iSplit.
  - iIntros "(%bs & [%Hl %Hb] & H)". iExists (le_combine bs).
    assert (length bs = n) as <- by lia. unfold word.
    rewrite -> le_split_combine by done. iFrame. iPureIntro. by apply le_combine_range.
  - iIntros "(%v & _ & H)". iExists _. iFrame. iPureIntro.
    rewrite length_le_split. split; [done|]. apply le_split_bytes.
Qed.

Lemma word_anybytes (n : nat) a v : word n a v ⊢ anybytes a (Z.of_nat n).
Proof. rewrite anybytes_word. iIntros. by iExists _. Qed.

Lemma word_range (n : nat) a v : word n a v ⊢ ⌜0 ≤ v < 256 ^ Z.of_nat n⌝.
Proof. by iIntros "[% _]". Qed.

Lemma word_bytes (n : nat) a v : word n a v ⊢ bytes a (le_split n v).
Proof. by iIntros "[_ $]". Qed.

Lemma bytes_word (n : nat) a v : 0 ≤ v < 256 ^ Z.of_nat n → bytes a (le_split n v) ⊢ word n a v.
Proof. by iIntros (Hv) "$". Qed.

Lemma bytes_anybytes a bs : Forall is_byte bs → bytes a bs ⊢ anybytes a (Z.of_nat (length bs)).
Proof. iIntros (Hb) "H". iExists bs. by iFrame. Qed.

Lemma anybytes_cut a n k : 0 ≤ k ≤ n → anybytes a n ⊢ anybytes a k ∗ anybytes (a + k) (n - k).
Proof. intros Hk. by rewrite (anybytes_split a n k Hk). Qed.

(** Joining two adjacent ranges. *)
Lemma anybytes_join a n k : 0 ≤ n → 0 ≤ k → anybytes a n -∗ anybytes (a + n) k -∗ anybytes a (n + k).
Proof.
  iIntros (Hn Hk) "H1 H2". rewrite (anybytes_split a (n + k) n); [|lia].
  replace (n + k - n) with k by lia. iFrame.
Qed.

Lemma anybytes_disjoint a1 n1 a2 n2 :
  0 < n1 → 0 < n2 → anybytes a1 n1 ∗ anybytes a2 n2 ⊢ ⌜a1 + n1 ≤ a2 ∨ a2 + n2 ≤ a1⌝.
Proof.
  iIntros (H1 H2) "[(%b1 & [%Hl1 _] & H1) (%b2 & [%Hl2 _] & H2)]".
  iDestruct (bytes_disjoint with "[$H1 $H2]") as %?; [lia..|]. iPureIntro. lia.
Qed.
End ownership.

(** ** Weakest preconditions *)

(** What must hold of the mapped addresses and the non-memory state for a run
    to make sense, e.g. that nothing is mapped above the program break. *)
Class Machine (G : Type) := machine_ok : gset Z → G → Prop.

Lemma map_subseteq_split (h1 h2 : bytemap) : h1 ⊆ h2 → ∃ h3, h2 = h1 ∪ h3 ∧ h1 ##ₘ h3.
Proof.
  intros Hs. exists (h2 ∖ h1). split; [by rewrite map_difference_union|].
  by apply map_disjoint_difference_r1.
Qed.

Section wp.
Context {G : Type} `{Machine G}.
Implicit Types (g : G) (h : bytemap).

Definition wp_holds {A} (m : M (st G) A) (Φ : A → G → hprop) g h : Prop :=
  ∀ hf, h ##ₘ hf → machine_ok (dom (h ∪ hf)) g →
    ∃ a g' h', m (mkst (h ∪ hf) g) = Ok a (mkst (h' ∪ hf) g') ∧ h' ##ₘ hf ∧
      machine_ok (dom (h' ∪ hf)) g' ∧ Φ a g' h'.

Lemma wp_holds_mono {A} (m : M (st G) A) Φ g h1 h2 :
  wp_holds m Φ g h1 → h1 ⊆ h2 → wp_holds m Φ g h2.
Proof.
  intros Hwp (h3 & -> & Hd)%map_subseteq_split hf [Hd1 Hd3]%map_disjoint_union_l Hok.
  rewrite -(assoc_L (∪)) in Hok. rewrite -(assoc_L (∪)).
  destruct (Hwp (h3 ∪ hf)) as (a & g' & h' & Hm & Hd' & Hok' & HΦ);
    [by apply map_disjoint_union_r|done|].
  apply map_disjoint_union_r in Hd' as [Hd3' Hdf'].
  exists a, g', (h' ∪ h3). rewrite -(assoc_L (∪)). split_and!; try done.
  - by apply map_disjoint_union_l.
  - eapply hprop_mono; [done|]. apply map_union_subseteq_l.
Qed.

Definition wp {A} (m : M (st G) A) (Φ : A → G → hprop) g : hprop :=
  HProp (wp_holds m Φ g) (wp_holds_mono m Φ g).

Lemma wp_ret {A} (a : A) Φ g : Φ a g ⊢ wp (mret a) Φ g.
Proof. constructor. intros h HΦ hf Hd Hok. by exists a, g, h. Qed.

Lemma wp_bind {A B} (m : M (st G) A) (k : A → M (st G) B) Φ g :
  wp m (λ a g', wp (k a) Φ g') g ⊢ wp (m ≫= k) Φ g.
Proof.
  constructor. intros h Hwp hf Hd Hok.
  destruct (Hwp hf Hd Hok) as (a & g' & h' & Hm & Hd' & Hok' & Hk).
  destruct (Hk hf Hd' Hok') as (b & g'' & h'' & Hk' & Hd'' & Hok'' & HΦ).
  exists b, g'', h''. split_and!; try done. by erewrite bind_ok.
Qed.

Lemma wp_wand {A} (m : M (st G) A) Φ Ψ g :
  wp m Φ g -∗ (∀ a g', Φ a g' -∗ Ψ a g') -∗ wp m Ψ g.
Proof.
  apply bi.entails_wand, bi.wand_intro_r.
  constructor. intros h (h1 & h2 & Hs & Hd12 & Hwp & Hw).
  eapply (hprop_mono (wp m Ψ g)); [|exact Hs]. clear h Hs.
  intros hf [Hd1 Hd2]%map_disjoint_union_l Hok. rewrite -(assoc_L (∪)) in Hok.
  destruct (Hwp (h2 ∪ hf)) as (a & g' & h' & Hm & Hd' & Hok' & HΦ);
    [by apply map_disjoint_union_r|done|].
  apply map_disjoint_union_r in Hd' as [Hd2' Hdf'].
  exists a, g', (h' ∪ h2). rewrite -!(assoc_L (∪)). split_and!; try done.
  - by apply map_disjoint_union_l.
  - rewrite map_union_comm //. apply Hw; [by symmetry|done].
Qed.

(** A program that behaves as [m'] on every state has its precondition. *)
Lemma wp_ext {A} (m m' : M (st G) A) Φ g :
  (∀ s, m s = m' s) → wp m' Φ g ⊢ wp m Φ g.
Proof.
  intros Heq. constructor. intros h Hwp hf Hd Hok.
  destruct (Hwp hf Hd Hok) as (a & g' & h' & Hm & ?).
  exists a, g', h'. by rewrite Heq.
Qed.

Lemma wp_load n a v Φ g :
  word n a v -∗ (word n a v -∗ Φ v g) -∗ wp (load n a) Φ g.
Proof.
  iIntros "[%Hv Hw] HΦ".
  iAssert (wp (load n a) (λ v' g', ⌜v' = v ∧ g' = g⌝ ∗ word n a v)%I g) with "[Hw]" as "Hwp".
  { iStopProof. constructor. intros h Hsub hf Hd Hok.
    exists v, g, h. split_and!; try done.
    - unfold load. simpl.
      rewrite -{1}(length_le_split n v) (loadbytes_spec _ _ (le_split n v)).
      + by rewrite le_combine_split.
      + etrans; [exact Hsub|]. apply map_union_subseteq_l.
    - exists ∅, h. rewrite left_id_L. split_and!; try done.
      + apply map_disjoint_empty_l.
      + exists ∅, h. rewrite left_id_L. split_and!; try done. apply map_disjoint_empty_l. }
  iApply (wp_wand with "Hwp"). iIntros (v' g') "[[-> ->] Hw]". by iApply "HΦ".
Qed.

Lemma wp_store n a v v' Φ g :
  0 ≤ v' < 256 ^ Z.of_nat n →
  word n a v -∗ (word n a v' -∗ Φ () g) -∗ wp (store n a v') Φ g.
Proof.
  iIntros (Hv') "[_ Hw] HΦ".
  iAssert (wp (store n a v') (λ _ g', ⌜g' = g⌝ ∗ word n a v')%I g) with "[Hw]" as "Hwp".
  { iStopProof. constructor. intros h Hsub hf Hd Hok.
    apply map_subseteq_split in Hsub as (h3 & -> & Hd3).
    apply map_disjoint_union_l in Hd as [Hdw Hdf].
    set (w := seqmap a (le_split n v)) in *. set (w' := seqmap a (le_split n v')).
    assert (dom w = dom w') as Hdom by (apply dom_seqmap_same; by rewrite !length_le_split).
    assert (∀ h', w ##ₘ h' → w' ##ₘ h') as Hdis.
    { intros h'. rewrite !map_disjoint_dom Hdom. done. }
    exists (), g, (w' ∪ h3). rewrite -!(assoc_L (∪)) in Hok |- *. split_and!.
    - unfold store. simpl. rewrite storebytes_spec; [done|by rewrite !length_le_split|].
      by apply map_disjoint_union_r.
    - apply map_disjoint_union_l; auto.
    - by rewrite dom_union_L -Hdom -dom_union_L.
    - exists ∅, (w' ∪ h3). rewrite left_id_L. split_and!; try done.
      + apply map_disjoint_empty_l.
      + exists ∅, (w' ∪ h3). rewrite left_id_L. split_and!; try done.
        * apply map_disjoint_empty_l.
        * apply map_union_subseteq_l. }
  iApply (wp_wand with "Hwp"). iIntros ([] g') "[-> Hw]". by iApply "HΦ".
Qed.

Lemma wp_getg {A} (f : G → A) Φ g : Φ (f g) g ⊢ wp (getg f) Φ g.
Proof. constructor. intros h HΦ hf Hd Hok. by exists (f g), g, h. Qed.

Lemma wp_setg (f : G → G) Φ g :
  (∀ d, machine_ok d g → machine_ok d (f g)) → Φ () (f g) ⊢ wp (setg f) Φ g.
Proof.
  intros Hf. constructor. intros h HΦ hf Hd Hok. exists (), (f g), h.
  split_and!; try done. by apply Hf.
Qed.

(** What a proof in the logic says of a run. *)
Lemma wp_run {A} (m : M (st G) A) (P : hprop) Φ g h hf :
  (P ⊢ wp m Φ g) → P h → h ##ₘ hf → machine_ok (dom (h ∪ hf)) g →
  ∃ a g' h', m (mkst (h ∪ hf) g) = Ok a (mkst (h' ∪ hf) g') ∧ h' ##ₘ hf ∧
    machine_ok (dom (h' ∪ hf)) g' ∧ Φ a g' h'.
Proof. intros Hwp HP. apply (entails_at Hwp h HP). Qed.
End wp.

#[global] Typeclasses Opaque own bytes word anybytes wp.

(** A proof step: run one memory access or split one bind. *)
Tactic Notation "wp_load" constr(H) :=
  iApply wp_bind; iApply (wp_load with H); iIntros H.

(** Bind, then apply the specification [lem] with the hypotheses [H]. *)
Tactic Notation "wp_apply" open_constr(lem) "with" constr(H) :=
  iApply wp_bind; iApply (lem with H).
Tactic Notation "wp_apply" open_constr(lem) := iApply wp_bind; iApply lem.
