(* ===== verification/SepRun.v ===== *)
(** * From assertions to runs

    A block of memory as a map, and how an owned block is split off the memory
    a run ends with; the specification of [memmove] (kernel/string.c) for
    callers that own the two ranges. *)
From S2P Require Import Prelude Mem CString Sep.
From iris.proofmode Require Import proofmode.

#[local] Open Scope Z_scope.

Section blocks.
Implicit Types blk : bytemap.

(** [blk] is the memory of the [len] bytes at [p]. *)
Definition is_block (p len : Z) blk : Prop :=
  ∃ bs, blk = seqmap p bs ∧ Z.of_nat (length bs) = len ∧ Forall is_byte bs.

Lemma sep_bytes (P : hprop) p bs h :
  (P ∗ bytes p bs)%I h → ∃ h', h = h' ∪ seqmap p bs ∧ h' ##ₘ seqmap p bs ∧ P h'.
Proof.
  intros (h1 & h2 & Hs & Hd & HP & Hsub). simpl in Hsub. exists (h ∖ seqmap p bs).
  assert (seqmap p bs ⊆ h) as Hsubh.
  { etrans; [exact Hsub|]. etrans; [|exact Hs]. by apply map_union_subseteq_r. }
  split_and!.
  - rewrite map_union_comm; [by rewrite map_difference_union|].
    symmetry. by apply map_disjoint_difference_r1.
  - symmetry. by apply map_disjoint_difference_r1.
  - eapply hprop_mono; [exact HP|]. apply map_subseteq_spec. intros i x Hi.
    apply lookup_difference_Some. split.
    + eapply lookup_weaken; [exact Hi|]. etrans; [|exact Hs]. by apply map_union_subseteq_l.
    + destruct (seqmap p bs !! i) eqn:Hx; [|done].
      eapply lookup_weaken in Hx; [|exact Hsub]. exfalso. by eapply (map_disjoint_spec h1 h2).
Qed.

Lemma sep_block (P : hprop) p len h :
  (P ∗ anybytes p len)%I h → ∃ blk h', is_block p len blk ∧ h = h' ∪ blk ∧ h' ##ₘ blk ∧ P h'.
Proof.
  intros H. assert ((∃ bs, ⌜Z.of_nat (length bs) = len ∧ Forall is_byte bs⌝ ∧ (P ∗ bytes p bs))%I h)
    as (bs & [Hl Hb] & Hsep).
  { eapply entails_at, H. iIntros "[HP Hb]". unfold anybytes. iDestruct "Hb" as (bs Hbs) "Hb".
    iExists bs. iSplit; [done|]. iFrame. }
  apply sep_bytes in Hsep as (h' & -> & Hd & HP). exists (seqmap p bs), h'.
  split_and!; [by exists bs|done..].
Qed.

Lemma is_block_anybytes p len blk : is_block p len blk → anybytes p len blk.
Proof.
  intros (bs & -> & Hl & Hb). exists bs, ∅, (seqmap p bs).
  split_and!; [by rewrite (left_id_L ∅ (∪))|apply map_disjoint_empty_l|done|]. simpl. done.
Qed.

Lemma is_block_lookup p len blk a : is_block p len blk → p ≤ a < p + len ↔ is_Some (blk !! a).
Proof.
  intros (bs & -> & Hl & _). split.
  - intros Ha. replace a with (p + Z.of_nat (Z.to_nat (a - p))) by lia.
    rewrite seqmap_lookup_Some. apply lookup_lt_is_Some. lia.
  - intros [x Hx]. apply seqmap_lookup_inv in Hx. lia.
Qed.
End blocks.

Lemma is_block_replicate p c n : is_byte c → is_block p (Z.of_nat n) (seqmap p (replicate n c)).
Proof.
  intros Hc. exists (replicate n c). rewrite length_replicate. split_and!; [done..|].
  by apply Forall_replicate.
Qed.

(** ** Arrays of resources *)

Definition array (n : Z) (Φ : Z → hprop) : hprop := ([∗ list] i ∈ seqZ 0 n, Φ i)%I.

(** One element of an array, and how to put another one back. *)
Lemma array_access n Φ i :
  0 ≤ i < n →
  array n Φ ⊢ Φ i ∗ (∀ Ψ, ⌜∀ j, 0 ≤ j < n → j ≠ i → Φ j ⊢ Ψ j⌝ -∗ Ψ i -∗ array n Ψ).
Proof.
  intros Hi. unfold array.
  assert (seqZ 0 n !! Z.to_nat i = Some i) as Hlook by (apply lookup_seqZ; lia).
  rewrite (big_sepL_delete _ _ _ _ Hlook). iIntros "[$ Hrest]" (Ψ HΨ) "Hx".
  iEval (rewrite (big_sepL_delete _ _ _ _ Hlook)). iSplitL "Hx"; [iExact "Hx"|].
  iApply (big_sepL_mono with "Hrest"). intros k y Hy.
  apply lookup_seqZ in Hy as [-> ?]. case_decide as Hk; [done|]. apply HΨ; lia.
Qed.

Lemma array_mono n Φ Ψ : (∀ i, 0 ≤ i < n → Φ i ⊢ Ψ i) → array n Φ ⊢ array n Ψ.
Proof.
  intros H. apply big_sepL_mono. intros k y Hy. apply lookup_seqZ in Hy as [-> ?]. apply H. lia.
Qed.

Lemma array_intro n a sz (Φ : Z → hprop) :
  0 ≤ n → 0 ≤ sz → (∀ i, 0 ≤ i < n → anybytes (a + sz * i) sz ⊢ Φ i) → anybytes a (sz * n) ⊢ array n Φ.
Proof.
  intros Hn Hsz HΦ. unfold array.
  assert (∀ m s, 0 ≤ s → 0 ≤ m → s + m ≤ n →
    anybytes (a + sz * s) (sz * m) ⊢ [∗ list] i ∈ seqZ s m, Φ i) as Hgen.
  { intros m s Hs Hm. revert s Hs. pattern m. apply natlike_ind; [| |done].
    - intros s _ _. by iIntros "_".
    - clear m Hm. intros m Hm IH s Hs Hb. rewrite seqZ_cons; [|lia]. rewrite Z.pred_succ.
      rewrite (anybytes_split _ _ sz); [|nia]. iIntros "[H1 H2]". iSplitL "H1".
      + iApply HΦ; [lia|done].
      + iApply IH; [lia|lia|]. replace (a + sz * Z.succ s) with (a + sz * s + sz) by nia.
        by replace (sz * m) with (sz * Z.succ m - sz) by nia. }
  specialize (Hgen n 0). rewrite Z.mul_0_r Z.add_0_r in Hgen. apply Hgen; lia.
Qed.

#[global] Typeclasses Opaque array.

(** ** Memories that satisfy an assertion beside a frame *)

(** Memory [m] is a part that satisfies [P], and the rest, [u]. *)
Definition sat (P : hprop) (m u : bytemap) : Prop := ∃ h, m = h ∪ u ∧ h ##ₘ u ∧ P h.

Lemma sat_mono (P Q : hprop) m u : (P ⊢ Q) → sat P m u → sat Q m u.
Proof. intros HPQ (h & Hm & Hd & HP). exists h. split_and!; [done|done|by apply (entails_at HPQ)]. Qed.

Lemma sat_exist {A} (Φ : A → hprop) m u : sat (∃ x, Φ x)%I m u → ∃ x, sat (Φ x) m u.
Proof. intros (h & Hm & Hd & x & Hx). by exists x, h. Qed.

Lemma sat_or (P Q : hprop) m u : sat (P ∨ Q)%I m u → sat P m u ∨ sat Q m u.
Proof. intros (h & Hm & Hd & [HP|HQ]); [left|right]; by exists h. Qed.

Lemma sat_pure (φ : Prop) (P : hprop) m u : sat (⌜φ⌝ ∗ P)%I m u → φ ∧ sat P m u.
Proof.
  intros Hs. apply (sat_mono _ (∃ _ : φ, P)%I) in Hs as [Hφ Hs]%sat_exist; [done|].
  iIntros "[%Hφ H]". by iExists Hφ.
Qed.

Lemma sat_bytes (P : hprop) p bs m u :
  sat (P ∗ bytes p bs)%I m u → seqmap p bs ##ₘ u ∧ sat P m (seqmap p bs ∪ u).
Proof.
  intros (h & -> & Hd & Hs). apply sep_bytes in Hs as (h' & -> & Hd' & HP).
  apply map_disjoint_union_l in Hd as [Hd1 Hd2]. split; [done|].
  exists h'. split_and!; [by rewrite (assoc_L (∪))|by apply map_disjoint_union_r|done].
Qed.

Lemma bytes_sat (P : hprop) p bs m u :
  seqmap p bs ##ₘ u → sat P m (seqmap p bs ∪ u) → sat (P ∗ bytes p bs)%I m u.
Proof.
  intros Hdu (h & -> & [Hd1 Hd2]%map_disjoint_union_r & HP). exists (h ∪ seqmap p bs).
  split_and!; [by rewrite (assoc_L (∪))|by apply map_disjoint_union_l|].
  exists h, (seqmap p bs). split_and!; [done|done|done|simpl; done].
Qed.

Lemma sat_anybytes (P : hprop) p n m u :
  sat (P ∗ anybytes p n)%I m u → ∃ blk, is_block p n blk ∧ blk ##ₘ u ∧ sat P m (blk ∪ u).
Proof.
  intros Hs. apply (sat_mono _ (∃ bs, ⌜Z.of_nat (length bs) = n ∧ Forall is_byte bs⌝ ∗ (P ∗ bytes p bs))%I) in Hs.
  - apply sat_exist in Hs as [bs [[Hl Hb] [Hd Hs]%sat_bytes]%sat_pure]. exists (seqmap p bs). split; [by exists bs|done].
  - unfold anybytes. iIntros "[HP (%bs & % & Hb)]". iExists bs. by iFrame.
Qed.

Lemma anybytes_sat (P : hprop) p n blk m u :
  is_block p n blk → blk ##ₘ u → sat P m (blk ∪ u) → sat (P ∗ anybytes p n)%I m u.
Proof.
  intros (bs & -> & Hl & Hb) Hd Hs. apply (sat_mono (P ∗ bytes p bs)%I); [|by apply bytes_sat].
  rewrite -Hl. iIntros "[$ H]". by iApply bytes_anybytes.
Qed.

(** Memory that an assertion speaks of is there to be read. *)
Lemma sat_load (P : hprop) a bs m u : (P ⊢ bytes a bs) → sat P m u → loadbytes (length bs) m a = Some bs.
Proof.
  intros HP (h & -> & _ & Hh). apply loadbytes_spec. apply (entails_at HP) in Hh. simpl in Hh.
  etrans; [exact Hh|]. apply map_union_subseteq_l.
Qed.

Lemma sat_word {G} (P : hprop) (n : nat) a v (s : st G) u : (P ⊢ word n a v) → sat P (mem s) u → load n a s = Ok v s.
Proof.
  intros HP Hs. pose proof Hs as Hs'. apply (sat_mono _ (⌜0 ≤ v < (256 ^ Z.of_nat n)%Z⌝ ∗ emp)%I) in Hs' as [Hv _]%sat_pure.
  2: { rewrite HP. iIntros "H". iDestruct (word_range with "H") as %?. by iSplit. }
  assert (P ⊢ bytes a (le_split n v)) as Hb by (rewrite HP; apply word_bytes).
  apply (sat_load _ _ _ _ _ Hb) in Hs. rewrite length_le_split in Hs. unfold load. rewrite Hs. by rewrite le_combine_split.
Qed.

Lemma sat_mapped (P : hprop) a n m u i : (P ⊢ anybytes a n) → sat P m u → a ≤ i < a + n → is_Some (m !! i) ∧ u !! i = None.
Proof.
  intros HP Hs Hi. apply (sat_mono _ (emp ∗ anybytes a n)%I) in Hs; [|rewrite HP; by iIntros "$"].
  apply sat_anybytes in Hs as (blk & Hb & Hd & h & -> & Hd' & _). apply (is_block_lookup _ _ _ _ Hb) in Hi as [x Hx]. split.
  - apply lookup_union_is_Some. right. apply lookup_union_is_Some. left. by exists x.
  - by eapply map_disjoint_Some_l.
Qed.

(** A weakest precondition describes runs. *)
Lemma sat_run_ok {G} `{Machine G} {A} (m : M (st G) A) Φ (P : hprop) s u :
  sat P (mem s) u → machine_ok (dom (mem s)) (glob s) → (P ⊢ wp m Φ (glob s)) →
  ∃ a s', m s = Ok a s' ∧ sat (Φ a (glob s')) (mem s') u ∧ machine_ok (dom (mem s')) (glob s').
Proof.
  intros (h & Hm & Hd & HP) Hok Hwp. destruct s as [mm g]. cbn [mem glob] in *. subst mm.
  destruct (wp_run m P Φ g h u Hwp HP Hd Hok) as (a & g' & h' & Hrun & Hd' & Hok' & HΦ).
  exists a, (mkst (h' ∪ u) g'). split_and!; [exact Hrun| |exact Hok']. by exists h'.
Qed.

Lemma sat_run {G} `{Machine G} {A} (m : M (st G) A) Φ (P : hprop) s u :
  (∀ d g, machine_ok d g) → sat P (mem s) u → (P ⊢ wp m Φ (glob s)) →
  ∃ a s', m s = Ok a s' ∧ sat (Φ a (glob s')) (mem s') u.
Proof.
  intros Hok Hs Hwp. destruct (sat_run_ok m Φ P s u Hs (Hok _ _) Hwp) as (a & s' & Hrun & Hs' & _). by exists a, s'.
Qed.

(** ** Copying memory *)

Lemma bytes_cons a b bs : bytes a (b :: bs) ⊣⊢ bytes a [b] ∗ bytes (a + 1) bs.
Proof. apply (bytes_app a [b]). Qed.

Lemma byte_word a b : is_byte b → bytes a [b] ⊣⊢ word 1 a b.
Proof.
  intros Hb. assert (le_split 1 b = [b]) as He by (simpl; by rewrite Z.mod_small).
  rewrite -{1}He. apply bi.equiv_entails. split; [by apply bytes_word|apply word_bytes].
Qed.

Section spec.
Context {G : Type} `{Machine G}.

Lemma wp_copy_up d s bs (Φ : unit → G → hprop) g :
  Forall is_byte bs →
  bytes s bs -∗ anybytes d (Z.of_nat (length bs)) -∗
  (bytes s bs -∗ bytes d bs -∗ Φ () g) -∗
  wp (copy_up d s (length bs)) Φ g.
Proof.
  intros Hbs. iInduction bs as [|b bs IH] forall (d s Hbs); iIntros "Hs Hd HΦ"; simpl length; simpl copy_up.
  { iApply wp_ret. iApply ("HΦ" with "Hs"). iApply bytes_nil. }
  apply Forall_cons in Hbs as [Hb Hbs]. rewrite bytes_cons. iDestruct "Hs" as "[Hb Hs]".
  rewrite (byte_word s b); [|done]. iApply wp_bind. iApply (wp_load with "Hb"). iIntros "Hb".
  iEval (rewrite (anybytes_split d (Z.of_nat (S (length bs))) 1 ltac:(lia))) in "Hd". iDestruct "Hd" as "[Hd1 Hd]".
  iEval (rewrite (anybytes_word 1)) in "Hd1". iDestruct "Hd1" as (v) "Hd1".
  iApply wp_bind. iApply (wp_store with "Hd1"); [done|]. iIntros "Hd1".
  replace (Z.of_nat (S (length bs)) - 1) with (Z.of_nat (length bs)) by lia.
  iApply ("IH" with "[//] Hs Hd"). iIntros "Hs Hd". rewrite (bytes_cons d) !byte_word; [|done..].
  iApply ("HΦ" with "[$Hb $Hs] [$Hd1 $Hd]").
Qed.

Lemma wp_memmove dst src bs (Φ : Z → G → hprop) g :
  Forall is_byte bs → Z.of_nat (length bs) < 2 ^ 32 →
  bytes src bs -∗ anybytes dst (Z.of_nat (length bs)) -∗
  (bytes src bs -∗ bytes dst bs -∗ Φ dst g) -∗
  wp (memmove dst src (Z.of_nat (length bs))) Φ g.
Proof.
  iIntros (Hbs Hlen) "Hs Hd HΦ". unfold memmove. rewrite -> wrap_small by lia.
  destruct bs as [|b bs']; [|remember (b :: bs') as bs eqn:Heq].
  { iApply wp_ret. iApply ("HΦ" with "Hs"). iApply bytes_nil. }
  assert (0 < Z.of_nat (length bs)) by (rewrite Heq; simpl; lia).
  destruct (Z.eqb_spec (Z.of_nat (length bs)) 0); [lia|].
  iAssert ⌜src + Z.of_nat (length bs) ≤ dst ∨ dst + Z.of_nat (length bs) ≤ src⌝%I as %Hd.
  { iDestruct (bytes_anybytes with "Hs") as "Hs"; [done|].
    iDestruct (anybytes_disjoint with "[$Hs $Hd]") as %?; [done|done|]. done. }
  assert ((src <? dst) && (dst <? src + Z.of_nat (length bs)) = false) as -> by lia.
  rewrite Nat2Z.id. iApply wp_bind. iApply (wp_copy_up with "Hs Hd"); [done|]. iIntros "Hs Hd".
  iApply wp_ret. iApply ("HΦ" with "Hs Hd").
Qed.
End spec.
