(* ===== verification/Kalloc.v ===== *)
(** * kernel/kalloc.c: the physical page allocator

    Free pages are linked through their first eight bytes.  The lock is seen
    from the CPU that runs the code (its behaviour among several CPUs is the
    subject of Spinlock.v): acquiring it when it is held is a panic. *)
From S2P Require Import Prelude Mem CString Sep SepRun.
From iris.proofmode Require Import proofmode.

#[local] Open Scope Z_scope.

(** kernel/riscv.h and kernel/memlayout.h *)
Definition PGSIZE : Z := 4096.
Definition PGROUNDUP (sz : Z) : Z := Z.land (u64 (sz + PGSIZE - 1)) (u64 (Z.lnot (PGSIZE - 1))).
Definition PGROUNDDOWN (a : Z) : Z := Z.land a (u64 (Z.lnot (PGSIZE - 1))).
Definition KERNBASE : Z := 2147483648.
Definition PHYSTOP : Z := KERNBASE + 128 * 1024 * 1024.

(** The linker symbol [end], the first address after the kernel. *)
Class KernelImage := kend : Z.

(** [kmem], its spin lock reduced to whether it is held. *)
Record kmem := mkkmem { klocked : bool; freelist : Z }.

Class HasKmem (G : Type) := {
  kmem_of : G → kmem;
  set_kmem : kmem → G → G;
  kmem_of_set k g : kmem_of (set_kmem k g) = k;
  set_kmem_set k k' g : set_kmem k (set_kmem k' g) = set_kmem k g;
  set_kmem_id g : set_kmem (kmem_of g) g = g;
}.

Section code.
Context {G : Type} `{HasKmem G, KernelImage}.

Definition kmem_acquire : M (st G) unit :=
  k ← getg kmem_of;
  when (klocked k) (fail (Panic "acquire"));;
  setg (set_kmem (mkkmem true (freelist k))).

Definition kmem_release : M (st G) unit :=
  k ← getg kmem_of;
  when (negb (klocked k)) (fail (Panic "release"));;
  setg (set_kmem (mkkmem false (freelist k))).

Definition set_freelist (r : Z) : M (st G) unit :=
  k ← getg kmem_of;
  setg (set_kmem (mkkmem (klocked k) r)).

Definition kfree (pa : Z) : M (st G) unit :=
  when (negb (pa `mod` PGSIZE =? 0) || (pa <? kend) || (PHYSTOP <=? pa)) (fail (Panic "kfree"));;
  memset pa 1 PGSIZE;;
  let r := pa in
  kmem_acquire;;
  k ← getg kmem_of;
  store 8 r (freelist k);;
  set_freelist r;;
  kmem_release.

Definition kalloc : M (st G) Z :=
  kmem_acquire;;
  k ← getg kmem_of;
  let r := freelist k in
  when (truth r) (next ← load 8 r; set_freelist next);;
  kmem_release;;
  when (truth r) (memset r 5 PGSIZE;; mret ());;
  mret r.

(** [for(; p + PGSIZE <= pa_end; p += PGSIZE) kfree(p);] with [n] iterations. *)
Fixpoint freerange_loop (p : Z) (n : nat) : M (st G) unit :=
  match n with
  | O => mret ()
  | S n => kfree p;; freerange_loop (p + PGSIZE) n
  end.

Definition freerange (pa_start pa_end : Z) : M (st G) unit :=
  let p := PGROUNDUP pa_start in
  freerange_loop p (Z.to_nat ((pa_end - p) / PGSIZE)).

Definition kinit : M (st G) unit :=
  setg (λ g, set_kmem (mkkmem false (freelist (kmem_of g))) g);;
  freerange kend PHYSTOP.
End code.

(** ** Invariant and specifications *)

(** The contents of a page filled with the byte [c]. *)
Definition page_fill (c : Z) : list Z := replicate (Z.to_nat PGSIZE) c.
#[global] Arguments page_fill : simpl never.

(** The kernel's memory does not move: no condition on the machine. *)
#[export] Instance kmem_machine G `{HasKmem G} : Machine G := λ _ _, True.

Definition page_ok `{KernelImage} (p : Z) : Prop := p `mod` PGSIZE = 0 ∧ kend ≤ p < PHYSTOP.

Section spec.
Context {G : Type} `{HasKmem G, KernelImage}.

(** The list of free pages that starts at [r]. *)
Fixpoint runs_at (r : Z) (ps : list Z) : hprop :=
  match ps with
  | [] => ⌜r = 0⌝
  | p :: ps => ⌜r = p ∧ page_ok p⌝ ∗ ∃ next, p ↦₈ next ∗ anybytes (p + 8) (PGSIZE - 8) ∗ runs_at next ps
  end%I.

Definition kmem_inv (g : G) (ps : list Z) : hprop :=
  (⌜klocked (kmem_of g) = false ∧ 0 < kend⌝ ∗ runs_at (freelist (kmem_of g)) ps)%I.

(** The globals with another free list. *)
Definition with_freelist (r : Z) (g : G) : G := set_kmem (mkkmem false r) g.

Lemma wp_memset_loop dst c i n (Φ : unit → G → hprop) g :
  anybytes (dst + i) (Z.of_nat n) -∗
  (bytes (dst + i) (replicate n (u8 c)) -∗ Φ () g) -∗
  wp (memset_loop dst c i n) Φ g.
Proof.
  iInduction n as [|n IH] forall (i Φ); iIntros "H HΦ"; simpl memset_loop.
  { iApply wp_ret. iApply "HΦ". iApply bytes_nil. }
  rewrite (anybytes_split _ _ 1); [|lia]. iDestruct "H" as "[Hb H]".
  rewrite (anybytes_word 1). iDestruct "Hb" as (v) "Hb".
  iApply wp_bind. iApply (wp_store with "Hb"); [by apply (wrap_range 8)|]. iIntros "Hb".
  replace (dst + i + 1) with (dst + (i + 1)) by lia.
  replace (Z.of_nat (S n) - 1) with (Z.of_nat n) by lia.
  iApply ("IH" with "H"). iIntros "H". iApply "HΦ". simpl replicate.
  rewrite (bytes_app _ [u8 c]). simpl length. replace (dst + (i + 1)) with (dst + i + Z.of_nat 1) by lia.
  iFrame "H". rewrite word_bytes. simpl le_split.
  by rewrite -> Z.mod_small by (apply (wrap_range 8); lia).
Qed.

Lemma wp_memset dst c n (Φ : Z → G → hprop) g :
  0 ≤ n < 2 ^ 32 →
  anybytes dst n -∗ (bytes dst (replicate (Z.to_nat n) (u8 c)) -∗ Φ dst g) -∗
  wp (memset dst c n) Φ g.
Proof.
  iIntros (Hn) "H HΦ". unfold memset. rewrite -> (wrap_small 32 n) by lia.
  iApply wp_bind. iApply (wp_memset_loop dst c 0 (Z.to_nat n) with "[H]").
  { rewrite Z.add_0_r. by rewrite -> Z2Nat.id by lia. }
  iIntros "H". iApply wp_ret. iApply "HΦ". by rewrite Z.add_0_r.
Qed.

Lemma junk_bytes p c n : 0 ≤ n → bytes p (replicate (Z.to_nat n) (u8 c)) ⊢ anybytes p n.
Proof.
  iIntros (Hn) "H". rewrite bytes_anybytes.
  - by rewrite -> length_replicate, Z2Nat.id by lia.
  - apply Forall_replicate. by apply (wrap_range 8).
Qed.

Lemma wp_memset_page p c (Φ : Z → G → hprop) g :
  anybytes p PGSIZE -∗ (bytes p (page_fill (u8 c)) -∗ Φ p g) -∗ wp (memset p c PGSIZE) Φ g.
Proof. by apply wp_memset. Qed.

Lemma page_fill_bytes p c : bytes p (page_fill (u8 c)) ⊢ anybytes p PGSIZE.
Proof. by apply junk_bytes. Qed.

Lemma wp_kmem_acquire (Φ : unit → G → hprop) g :
  klocked (kmem_of g) = false →
  Φ () (set_kmem (mkkmem true (freelist (kmem_of g))) g) ⊢ wp kmem_acquire Φ g.
Proof.
  iIntros (Hl) "HΦ". iApply wp_bind. iApply wp_getg. rewrite Hl. simpl.
  iApply wp_bind. iApply wp_ret. by iApply wp_setg.
Qed.

Lemma wp_kmem_release r (Φ : unit → G → hprop) g :
  Φ () (with_freelist r g) ⊢ wp kmem_release Φ (set_kmem (mkkmem true r) g).
Proof.
  iIntros "HΦ". iApply wp_bind. iApply wp_getg. rewrite kmem_of_set. simpl.
  iApply wp_bind. iApply wp_ret. iApply wp_setg; [done|]. by rewrite set_kmem_set.
Qed.

Lemma wp_set_freelist r r' b (Φ : unit → G → hprop) g :
  Φ () (set_kmem (mkkmem b r) g) ⊢ wp (set_freelist r) Φ (set_kmem (mkkmem b r') g).
Proof.
  iIntros "HΦ". iApply wp_bind. iApply wp_getg. rewrite kmem_of_set. simpl.
  iApply wp_setg; [done|]. by rewrite set_kmem_set.
Qed.

Lemma kmem_inv_pages g ps : kmem_inv g ps ⊢ ⌜0 ≤ freelist (kmem_of g) < 2 ^ 64⌝.
Proof.
  iIntros "[[_ %He] H]". destruct ps as [|p ps]; simpl.
  - iDestruct "H" as %->. iPureIntro. lia.
  - iDestruct "H" as "[[-> %Hp] _]". iPureIntro. unfold page_ok, PHYSTOP, KERNBASE in *. lia.
Qed.

Lemma kmem_inv_kend g ps : kmem_inv g ps ⊢ ⌜0 < kend⌝.
Proof. by iIntros "[[_ %] _]". Qed.

Lemma wp_kfree p ps (Φ : unit → G → hprop) g :
  page_ok p →
  kmem_inv g ps -∗ anybytes p PGSIZE -∗
  (kmem_inv (with_freelist p g) (p :: ps) -∗ Φ () (with_freelist p g)) -∗
  wp (kfree p) Φ g.
Proof.
  iIntros (Hp) "Hinv Hpg HΦ". iDestruct (kmem_inv_pages with "Hinv") as %Hr.
  iDestruct "Hinv" as "[[%Hl %He] Hps]". unfold kfree.
  destruct Hp as [Hp1 Hp2] eqn:Heq. clear Heq. rewrite Hp1.
  destruct (Z.ltb_spec p kend); [lia|]. destruct (Z.leb_spec PHYSTOP p); [lia|]. simpl.
  iApply wp_bind. iApply wp_ret. iApply wp_bind. iApply (wp_memset_page with "Hpg").
  iIntros "Hpg". rewrite page_fill_bytes.
  rewrite (anybytes_split p PGSIZE 8); [|done]. iDestruct "Hpg" as "[Hn Hpg]".
  rewrite (anybytes_word 8). iDestruct "Hn" as (v) "Hn".
  iApply wp_bind. iApply wp_kmem_acquire; [done|]. iApply wp_bind. iApply wp_getg.
  rewrite kmem_of_set. simpl. iApply wp_bind. iApply (wp_store with "Hn"); [simpl; lia|].
  iIntros "Hn". iApply wp_bind. iApply wp_set_freelist. iApply wp_kmem_release. iApply "HΦ".
  unfold kmem_inv, with_freelist. rewrite kmem_of_set. simpl. iSplit; [done|]. iSplit; [done|].
  iExists _. iFrame.
Qed.

Lemma wp_kalloc ps (Φ : Z → G → hprop) g :
  kmem_inv g ps -∗
  (match ps with
   | [] => kmem_inv g [] -∗ Φ 0 g
   | p :: ps => ⌜page_ok p ∧ p ≠ 0⌝ -∗ bytes p (page_fill 5) -∗
       (∀ next, kmem_inv (with_freelist next g) ps -∗ Φ p (with_freelist next g))
   end) -∗
  wp kalloc Φ g.
Proof.
  iIntros "[[%Hl %He] Hps] HΦ". unfold kalloc.
  iApply wp_bind. iApply wp_kmem_acquire; [done|]. iApply wp_bind. iApply wp_getg.
  rewrite kmem_of_set. simpl. destruct ps as [|p ps]; simpl.
  - iDestruct "Hps" as %Hr. rewrite Hr. simpl. iApply wp_bind. iApply wp_ret.
    iApply wp_bind. iApply wp_kmem_release. iApply wp_bind. iApply wp_ret. iApply wp_ret.
    assert (with_freelist 0 g = g) as ->.
    { unfold with_freelist. destruct (kmem_of g) as [kl fl] eqn:Hk. simpl in *. subst.
      rewrite -Hk. apply set_kmem_id. }
    iApply "HΦ". unfold kmem_inv. simpl. by rewrite Hr.
  - iDestruct "Hps" as "[[%Hr %Hp] (%next & Hn & Hpg & Hps)]". rewrite Hr.
    assert (p ≠ 0) as Hp0 by (destruct Hp; lia). rewrite truth_ne; [|done]. cbn [when].
    iApply wp_bind. iApply wp_bind. iApply (wp_load with "Hn"). iIntros "Hn".
    iApply wp_set_freelist. iApply wp_bind. iApply wp_kmem_release.
    iEval (rewrite word_anybytes) in "Hn".
    iDestruct (anybytes_join with "Hn Hpg") as "Hpg"; [lia|done|].
    iApply wp_bind. iApply wp_bind. iApply (wp_memset_page with "Hpg"). iIntros "Hpg".
    iApply wp_ret. iApply wp_ret. iApply ("HΦ" with "[//] Hpg").
    unfold kmem_inv, with_freelist. rewrite kmem_of_set. by iFrame.
Qed.

Lemma wp_kfree_panic p (m : st G) :
  ¬ page_ok p → kfree p m = Err (Panic "kfree").
Proof.
  intros Hp. unfold kfree. destruct (_ || _) eqn:Hc; [done|]. destruct Hp.
  apply orb_false_iff in Hc as [[H1 H2]%orb_false_iff H3]. apply negb_false_iff, Z.eqb_eq in H1.
  apply Z.ltb_ge in H2. apply Z.leb_gt in H3. done.
Qed.

(** The [n] pages from [p] on. *)
Fixpoint pages_from (p : Z) (n : nat) : list Z :=
  match n with O => [] | S n => p :: pages_from (p + PGSIZE) n end.

Lemma wp_freerange_loop p n ps (Φ : unit → G → hprop) g :
  p `mod` PGSIZE = 0 → kend ≤ p → p + Z.of_nat n * PGSIZE ≤ PHYSTOP →
  kmem_inv g ps -∗ anybytes p (Z.of_nat n * PGSIZE) -∗
  (∀ g', kmem_inv g' (reverse (pages_from p n) ++ ps) -∗ Φ () g') -∗
  wp (freerange_loop p n) Φ g.
Proof.
  iInduction n as [|n IH] forall (p ps g); iIntros (Hp Hk Hn) "Hinv H HΦ"; simpl freerange_loop.
  { iApply wp_ret. by iApply "HΦ". }
  assert (PGSIZE = 4096) as Hpg by done.
  rewrite (anybytes_split _ _ PGSIZE); [|lia]. iDestruct "H" as "[Hb H]".
  iApply wp_bind. iApply (wp_kfree with "Hinv Hb"); [split; [done|lia]|]. iIntros "Hinv".
  replace (Z.of_nat (S n) * PGSIZE - PGSIZE) with (Z.of_nat n * PGSIZE) by lia.
  iApply ("IH" with "[%] [%] [%] Hinv H"); [|lia|lia|].
  { rewrite -> Z.add_mod by lia. rewrite Hp Z.mod_same; [done|lia]. }
  iIntros (g') "Hinv". iApply "HΦ". simpl pages_from. rewrite reverse_cons -app_assoc. done.
Qed.
End spec.

Lemma page_fill_block p c : is_byte c → is_block p PGSIZE (seqmap p (page_fill c)).
Proof. apply is_block_replicate. Qed.

Lemma page_fill_eq c : page_fill c = replicate (Z.to_nat PGSIZE) c.
Proof. done. Qed.

#[global] Opaque page_fill.

(** ** Runs *)

Section runs.
Context {G : Type} `{HasKmem G, KernelImage}.

(** [u] is the memory outside the allocator, [ps] the free pages. *)
Definition kvalid (s : st G) (u : bytemap) (ps : list Z) : Prop :=
  ∃ h, mem s = h ∪ u ∧ h ##ₘ u ∧ kmem_inv (glob s) ps h.

Lemma kalloc_run s u p ps :
  kvalid s u (p :: ps) →
  ∃ s' blk, kalloc s = Ok p s' ∧ page_ok p ∧ blk = seqmap p (page_fill 5) ∧
    blk ##ₘ u ∧ kvalid s' (blk ∪ u) ps.
Proof.
  intros (h & Hm & Hd & Hinv). destruct s as [m g]. cbn [mem glob] in *. subst m.
  destruct (wp_run kalloc (kmem_inv g (p :: ps))
    (λ r g', ⌜r = p ∧ page_ok p⌝ ∗ kmem_inv g' ps ∗ bytes p (page_fill 5))%I g h u)
    as (r & g' & h' & Hrun & Hd' & _ & HΦ); [|done|done|done|].
  { iIntros "H". iApply (wp_kalloc (p :: ps) with "H"). iIntros ([Hp _]) "Hb %next Hinv".
    by iFrame. }
  assert ((⌜r = p ∧ page_ok p⌝ ∧ (kmem_inv g' ps ∗ bytes p (page_fill 5)))%I h')
    as [[-> Hp] Hsep].
  { eapply entails_at, HΦ. iIntros "(%Hr & $ & $)". done. }
  apply sep_bytes in Hsep as (h'' & -> & Hdb & Hi).
  apply map_disjoint_union_l in Hd' as [Hd1 Hd2].
  eexists _, _. split_and!; [exact Hrun|done|reflexivity|done|]. exists h''. cbn [mem glob].
  split; [by rewrite (assoc_L (∪))|]. split; [by apply map_disjoint_union_r|done].
Qed.

Lemma kalloc_empty s u : kvalid s u [] → kalloc s = Ok 0 s.
Proof.
  intros (h & Hm & Hd & Hinv). destruct s as [m g]. cbn [mem glob] in *. subst m.
  assert ((⌜klocked (kmem_of g) = false ∧ freelist (kmem_of g) = 0⌝ : hprop)%I h) as [Hl Hf].
  { eapply entails_at, Hinv. iIntros "[[%Hl _] %Hf]". done. }
  unfold kalloc, kmem_acquire, kmem_release, getg, setg, mbind, M_bind. simpl.
  rewrite Hl. simpl. rewrite !kmem_of_set. simpl. rewrite Hf. simpl. rewrite !kmem_of_set. simpl.
  rewrite !set_kmem_set. unfold mret, M_ret. do 2 f_equal.
  destruct (kmem_of g) as [kl fl] eqn:Hk. simpl in *. subst. rewrite -Hk. apply set_kmem_id.
Qed.

Lemma kfree_run s u blk p ps :
  kvalid s (blk ∪ u) ps → is_block p PGSIZE blk → blk ##ₘ u → page_ok p →
  ∃ s', kfree p s = Ok () s' ∧ kvalid s' u (p :: ps).
Proof.
  intros (h & Hm & [Hdb Hdu]%map_disjoint_union_r & Hinv) Hblk Hd Hp.
  destruct s as [m g]. cbn [mem glob] in *. subst m. rewrite (assoc_L (∪)).
  destruct (wp_run (kfree p) (kmem_inv g ps ∗ anybytes p PGSIZE)%I
    (λ _ g', kmem_inv g' (p :: ps)) g (h ∪ blk) u) as ([] & g' & h' & Hrun & Hd' & _ & HΦ).
  { iIntros "[H1 H2]". iApply (wp_kfree with "H1 H2"); [done|]. iIntros "$". }
  { exists h, blk. split_and!; [done|done|done|by apply is_block_anybytes]. }
  { by apply map_disjoint_union_l. }
  { done. }
  eexists. split; [exact Hrun|]. by exists h'.
Qed.

Lemma PGROUNDUP_spec a :
  0 ≤ a < 2 ^ 63 → PGROUNDUP a `mod` PGSIZE = 0 ∧ a ≤ PGROUNDUP a < a + PGSIZE.
Proof.
  intros Ha. unfold PGROUNDUP, PGSIZE. rewrite -> (wrap_small 64 (a + 4096 - 1)) by lia.
  rewrite -> land_wrap by lia. change (Z.lnot (4096 - 1)) with (Z.lnot (Z.ones 12)).
  rewrite <- Z.ldiff_land. rewrite -> Z.ldiff_ones_r, Z.shiftl_mul_pow2, Z.shiftr_div_pow2 by lia.
  change (2 ^ 12) with 4096. dlia.
Qed.

Lemma kinit_run s u blk :
  0 < kend < PHYSTOP → freelist (kmem_of (glob s)) = 0 →
  let p := PGROUNDUP kend in
  let n := Z.to_nat ((PHYSTOP - p) / PGSIZE) in
  mem s = blk ∪ u → blk ##ₘ u → is_block p (Z.of_nat n * PGSIZE) blk →
  ∃ s', kinit s = Ok () s' ∧ kvalid s' u (reverse (pages_from p n)).
Proof.
  intros Hk Hf p n Hm Hd Hblk. destruct s as [m g]. cbn [mem glob] in *. subst m.
  destruct (PGROUNDUP_spec kend) as [Hp1 Hp2]; [unfold PHYSTOP, KERNBASE in *; lia|].
  destruct (wp_run kinit (anybytes p (Z.of_nat n * PGSIZE))
    (λ _ g', kmem_inv g' (reverse (pages_from p n))) g blk u) as ([] & g' & h' & Hrun & Hd' & _ & HΦ);
    [|by apply is_block_anybytes|done|done|].
  { iIntros "H". unfold kinit. iApply wp_bind. iApply wp_setg; [done|]. unfold freerange.
    assert (PGSIZE = 4096) as Hpg by done. fold p n.
    iApply (wp_freerange_loop p n [] with "[] H"); [done|lia| |..].
    - assert (p ≤ PHYSTOP) by (unfold PHYSTOP, KERNBASE, p in *; dlia).
      unfold n. rewrite -> Z2Nat.id by (apply Z.div_pos; lia).
      pose proof (Z.mul_div_le (PHYSTOP - p) PGSIZE). lia.
    - unfold kmem_inv. rewrite kmem_of_set. simpl. iPureIntro. split; [lia|done].
    - iIntros (g') "H". by rewrite app_nil_r. }
  eexists. split; [exact Hrun|]. by exists h'.
Qed.
(** C33: with free pages, [kalloc] hands out the first one, filled with junk,
    disjoint from all memory in use and then no longer free; without, it
    returns null and changes nothing. *)
Theorem kalloc_correct s u ps :
  kvalid s u ps →
  match ps with
  | [] => kalloc s = Ok 0 s
  | p :: ps => ∃ s' blk, kalloc s = Ok p s' ∧ page_ok p ∧ blk = seqmap p (page_fill 5) ∧
      blk ##ₘ u ∧ kvalid s' (blk ∪ u) ps
  end.
Proof. destruct ps; [apply kalloc_empty|apply kalloc_run]. Qed.

(** [kfree] takes a page back whatever it contains, so that it is the next
    one [kalloc] returns, and panics on any address that is not that of a page
    of RAM above the kernel. *)
Theorem kfree_correct s u blk p ps :
  kvalid s (blk ∪ u) ps → is_block p PGSIZE blk → blk ##ₘ u →
  (page_ok p → ∃ s', kfree p s = Ok () s' ∧ kvalid s' u (p :: ps)) ∧
  (¬ page_ok p → kfree p s = Err (Panic "kfree")).
Proof. intros. split; [intros; by eapply kfree_run|apply wp_kfree_panic]. Qed.

(** [kinit] makes every whole page between the end of the kernel and the
    top of RAM free, each exactly once. *)
Theorem kinit_correct s u blk :
  0 < kend < PHYSTOP → freelist (kmem_of (glob s)) = 0 →
  let p := PGROUNDUP kend in
  let n := Z.to_nat ((PHYSTOP - p) / PGSIZE) in
  mem s = blk ∪ u → blk ##ₘ u → is_block p (Z.of_nat n * PGSIZE) blk →
  ∃ s', kinit s = Ok () s' ∧ kvalid s' u (reverse (pages_from p n)).
Proof. apply kinit_run. Qed.
End runs.

Module KallocWitness.
#[export] Instance kmem_self : HasKmem kmem :=
  {| kmem_of k := k; set_kmem k _ := k; kmem_of_set _ _ := eq_refl; set_kmem_set _ _ _ := eq_refl;
     set_kmem_id _ := eq_refl |}.

(** A kernel that ends 8200 bytes below the top of RAM: two pages are free. *)
#[export] Instance kend0 : KernelImage := PHYSTOP - 8200.

Definition ram0 : bytemap := seqmap (PHYSTOP - 8192) (replicate 8192 0).
Definition boot0 : st kmem := mkst ram0 (mkkmem false 0).

Lemma ram0_block : is_block (PHYSTOP - 8192) 8192 ram0.
Proof. by apply (is_block_replicate (PHYSTOP - 8192) 0 8192). Qed.

Lemma ram0_split : ram0 = ram0 ∪ ∅.
Proof. by rewrite (right_id_L ∅ (∪)). Qed.

Lemma pages0 :
  reverse (pages_from (PGROUNDUP kend) (Z.to_nat ((PHYSTOP - PGROUNDUP kend) / PGSIZE))) =
  [PHYSTOP - 4096; PHYSTOP - 8192].
Proof. vm_compute. reflexivity. Qed.

Lemma kinit_correct_witness :
  ∃ s', kinit boot0 = Ok () s' ∧ kvalid s' ∅ [PHYSTOP - 4096; PHYSTOP - 8192].
Proof.
  rewrite <- pages0.
  apply (kinit_correct boot0 ∅ ram0); [done|done|apply ram0_split|apply map_disjoint_empty_r|apply ram0_block].
Defined.

Lemma booted : ∃ s, kvalid s ∅ [PHYSTOP - 4096; PHYSTOP - 8192].
Proof.
  rewrite <- pages0. destruct (kinit_run boot0 ∅ ram0) as (s & _ & Hs);
    [done|done|apply ram0_split|apply map_disjoint_empty_r|apply ram0_block|]. by exists s.
Qed.

Lemma kalloc_correct_witness :
  ∃ s, kvalid s ∅ [PHYSTOP - 4096; PHYSTOP - 8192] ∧
    ∃ s' blk, kalloc s = Ok (PHYSTOP - 4096) s' ∧ page_ok (PHYSTOP - 4096) ∧
      blk = seqmap (PHYSTOP - 4096) (page_fill 5) ∧ blk ##ₘ ∅ ∧ kvalid s' (blk ∪ ∅) [PHYSTOP - 8192].
Proof.
  destruct booted as [s Hs]. exists s. split; [exact Hs|]. exact (kalloc_correct s ∅ _ Hs).
Defined.

Lemma allocated : ∃ s, kvalid s (seqmap (PHYSTOP - 4096) (page_fill 5) ∪ ∅) [PHYSTOP - 8192].
Proof.
  destruct booted as [s Hs]. destruct (kalloc_run s ∅ _ _ Hs) as (s' & blk & _ & _ & -> & _ & Hs').
  by exists s'.
Qed.

Lemma kfree_correct_witness :
  ∃ s s', kfree (PHYSTOP - 4096) s = Ok () s' ∧ kvalid s' ∅ [PHYSTOP - 4096; PHYSTOP - 8192].
Proof.
  destruct allocated as [s Hs]. exists s.
  apply (kfree_correct s ∅ (seqmap (PHYSTOP - 4096) (page_fill 5)) (PHYSTOP - 4096) [PHYSTOP - 8192] Hs).
  - by apply page_fill_block.
  - apply map_disjoint_empty_r.
  - split; done.
Defined.
End KallocWitness.
