(* ===== verification/Vm.v ===== *)
(** * kernel/vm.c: Sv39 page tables

    Page tables live in physical memory, in pages from [kalloc]; every function
    of vm.c that is not about the hardware's TLB and [satp] is a definition
    here, and so are [proc_mapstacks], [proc_pagetable] and [proc_freepagetable]
    of proc.c, which work on page tables only. *)
From S2P Require Import Prelude Param Mem CString Sep SepRun Kalloc.

(** kernel/riscv.h *)
Definition PTE_V : Z := 1.
Definition PTE_R : Z := 2.
Definition PTE_W : Z := 4.
Definition PTE_X : Z := 8.
Definition PTE_U : Z := 16.
Definition PA2PTE (pa : Z) : Z := u64 (Z.shiftl (Z.shiftr pa 12) 10).
Definition PTE2PA (pte : Z) : Z := u64 (Z.shiftl (Z.shiftr pte 10) 12).
Definition PTE_FLAGS (pte : Z) : Z := Z.land pte 1023.
Definition PXSHIFT (level : Z) : Z := 12 + 9 * level.
Definition PX (level va : Z) : Z := Z.land (Z.shiftr va (PXSHIFT level)) 511.
Definition MAXVA : Z := 2 ^ (9 + 9 + 9 + 12 - 1).

(** kernel/memlayout.h *)
Definition UART0 : Z := 268435456.
Definition VIRTIO0 : Z := 268439552.
Definition CLINT : Z := 33554432.
Definition CLINT_MTIME : Z := CLINT + 49144.
Definition PLIC : Z := 201326592.
Definition TRAMPOLINE : Z := MAXVA - PGSIZE.
Definition TRAPFRAME : Z := TRAMPOLINE - PGSIZE.
Definition KSTACK (p : Z) : Z := TRAMPOLINE - (p + 1) * 2 * PGSIZE.

(** The linker symbols [etext] and [trampoline]. *)
Class KernelText := { etext : Z; trampoline : Z }.

(** How often [for(a = from; a < to; a += PGSIZE)] runs. *)
Definition pages_between (from to : Z) : nat := Z.to_nat ((to - from + PGSIZE - 1) / PGSIZE).

Section code.
Context {G : Type} `{HasKmem G, KernelImage, KernelText}.
Abbreviation K A := (M (st G) A).

(** &pagetable[i] *)
Definition pte_at (pagetable i : Z) : Z := pagetable + 8 * i.

(** The loop of [walk] from [level] down, and the final PTE address. *)
Fixpoint walk_from (level : nat) (pagetable va : Z) (alloc : bool) : K Z :=
  match level with
  | O => mret (pte_at pagetable (PX 0 va))
  | S level' =>
      let pte := pte_at pagetable (PX (Z.of_nat level) va) in
      v ← load 8 pte;
      if truth (Z.land v PTE_V) then
        walk_from level' (PTE2PA v) va alloc
      else if negb alloc then mret 0 else
        pagetable ← kalloc;
        if pagetable =? 0 then mret 0 else
        memset pagetable 0 PGSIZE;;
        store 8 pte (Z.lor (PA2PTE pagetable) PTE_V);;
        walk_from level' pagetable va alloc
  end.

Definition walk (pagetable va : Z) (alloc : bool) : K Z :=
  when (MAXVA <=? va) (fail (Panic "walk"));;
  walk_from 2 pagetable va alloc.

Definition walkaddr (pagetable va : Z) : K Z :=
  if MAXVA <=? va then mret 0 else
  pte ← walk pagetable va false;
  if pte =? 0 then mret 0 else
  v ← load 8 pte;
  if Z.land v PTE_V =? 0 then mret 0 else
  if Z.land v PTE_U =? 0 then mret 0 else
  mret (PTE2PA v).

(** The loop of [mappages]; it stops at [last], or when [a] leaves the address
    space and [walk] panics. *)
Fixpoint mappages_loop (fuel : nat) (pagetable a last pa perm : Z) : K Z :=
  match fuel with
  | O => fail NoFuel
  | S fuel =>
      pte ← walk pagetable a true;
      if pte =? 0 then mret (-1) else
      v ← load 8 pte;
      when (truth (Z.land v PTE_V)) (fail (Panic "mappages: remap"));;
      store 8 pte (Z.lor (Z.lor (PA2PTE pa) perm) PTE_V);;
      if a =? last then mret 0 else
      mappages_loop fuel pagetable (u64 (a + PGSIZE)) last (u64 (pa + PGSIZE)) perm
  end.

Definition mappages (pagetable va size pa perm : Z) : K Z :=
  when (size =? 0) (fail (Panic "mappages: size"));;
  let a := PGROUNDDOWN va in
  let last := PGROUNDDOWN (u64 (va + size - 1)) in
  let stop := if a <=? last then last else MAXVA in
  mappages_loop (S (Z.to_nat ((stop - a) / PGSIZE))) pagetable a last pa perm.

Definition kvmmap (kpgtbl va pa sz perm : Z) : K unit :=
  r ← mappages kpgtbl va sz pa perm;
  when (negb (r =? 0)) (fail (Panic "kvmmap")).

(** kernel/proc.c: a stack for each process. *)
Fixpoint proc_mapstacks_loop (kpgtbl p : Z) (n : nat) : K unit :=
  match n with
  | O => mret ()
  | S n =>
      pa ← kalloc;
      when (pa =? 0) (fail (Panic "kalloc"));;
      let va := KSTACK p in
      kvmmap kpgtbl va pa PGSIZE (Z.lor PTE_R PTE_W);;
      proc_mapstacks_loop kpgtbl (p + 1) n
  end.

Definition proc_mapstacks (kpgtbl : Z) : K unit := proc_mapstacks_loop kpgtbl 0 NPROC.

Definition kvmmake : K Z :=
  kpgtbl ← kalloc;
  memset kpgtbl 0 PGSIZE;;
  kvmmap kpgtbl UART0 UART0 PGSIZE (Z.lor PTE_R PTE_W);;
  kvmmap kpgtbl VIRTIO0 VIRTIO0 PGSIZE (Z.lor PTE_R PTE_W);;
  kvmmap kpgtbl PLIC PLIC 4194304 (Z.lor PTE_R PTE_W);;
  kvmmap kpgtbl CLINT CLINT (CLINT_MTIME - CLINT) (Z.lor PTE_R PTE_W);;
  kvmmap kpgtbl KERNBASE KERNBASE (etext - KERNBASE) (Z.lor PTE_R PTE_X);;
  kvmmap kpgtbl etext etext (PHYSTOP - etext) (Z.lor PTE_R PTE_W);;
  kvmmap kpgtbl TRAMPOLINE trampoline PGSIZE (Z.lor PTE_R PTE_X);;
  proc_mapstacks kpgtbl;;
  mret kpgtbl.

Fixpoint uvmunmap_loop (pagetable a : Z) (n : nat) (do_free : bool) : K unit :=
  match n with
  | O => mret ()
  | S n =>
      pte ← walk pagetable a false;
      when (pte =? 0) (fail (Panic "uvmunmap: walk"));;
      v ← load 8 pte;
      when (Z.land v PTE_V =? 0) (fail (Panic "uvmunmap: not mapped"));;
      when (PTE_FLAGS v =? PTE_V) (fail (Panic "uvmunmap: not a leaf"));;
      when do_free (v ← load 8 pte; kfree (PTE2PA v));;
      store 8 pte 0;;
      uvmunmap_loop pagetable (u64 (a + PGSIZE)) n do_free
  end.

Definition uvmunmap (pagetable va npages : Z) (do_free : bool) : K unit :=
  when (negb (va `mod` PGSIZE =? 0)) (fail (Panic "uvmunmap: not aligned"));;
  uvmunmap_loop pagetable va (pages_between va (u64 (va + u64 (npages * PGSIZE)))) do_free.

Definition uvmcreate : K Z :=
  pagetable ← kalloc;
  if pagetable =? 0 then mret 0 else
  memset pagetable 0 PGSIZE;;
  mret pagetable.

Definition uvmfirst (pagetable src sz : Z) : K unit :=
  when (PGSIZE <=? sz) (fail (Panic "uvmfirst: more than a page"));;
  mem ← kalloc;
  memset mem 0 PGSIZE;;
  mappages pagetable 0 PGSIZE mem (Z.lor (Z.lor (Z.lor PTE_W PTE_R) PTE_X) PTE_U);;
  memmove mem src sz;;
  mret ().

Definition uvmdealloc (pagetable oldsz newsz : Z) : K Z :=
  if oldsz <=? newsz then mret oldsz else
  when (PGROUNDUP newsz <? PGROUNDUP oldsz) (
    let npages := s32 ((PGROUNDUP oldsz - PGROUNDUP newsz) / PGSIZE) in
    uvmunmap pagetable (PGROUNDUP newsz) (u64 npages) true);;
  mret newsz.

Fixpoint uvmalloc_loop (pagetable oldsz a newsz xperm : Z) (n : nat) : K Z :=
  match n with
  | O => mret newsz
  | S n =>
      mem ← kalloc;
      if mem =? 0 then uvmdealloc pagetable a oldsz;; mret 0 else
      memset mem 0 PGSIZE;;
      r ← mappages pagetable a PGSIZE mem (Z.lor (Z.lor PTE_R PTE_U) xperm);
      if negb (r =? 0) then kfree mem;; uvmdealloc pagetable a oldsz;; mret 0 else
      uvmalloc_loop pagetable oldsz (u64 (a + PGSIZE)) newsz xperm n
  end.

Definition uvmalloc (pagetable oldsz newsz xperm : Z) : K Z :=
  if newsz <? oldsz then mret oldsz else
  let oldsz := PGROUNDUP oldsz in
  uvmalloc_loop pagetable oldsz oldsz newsz xperm (pages_between oldsz newsz).

(** The loop of [freewalk] over the entries from [i] on, [child] being its
    recursive call. *)
Fixpoint freewalk_entries (child : Z → K unit) (pagetable i : Z) (n : nat) : K unit :=
  match n with
  | O => mret ()
  | S n =>
      pte ← load 8 (pte_at pagetable i);
      (if truth (Z.land pte PTE_V) &&
          (Z.land pte (Z.lor (Z.lor PTE_R PTE_W) PTE_X) =? 0) then
         child (PTE2PA pte);;
         store 8 (pte_at pagetable i) 0
       else when (truth (Z.land pte PTE_V)) (fail (Panic "freewalk: leaf")));;
      freewalk_entries child pagetable (i + 1) n
  end.

(** [depth] bounds the recursion: a page table made by [walk] has three levels. *)
Fixpoint freewalk_rec (depth : nat) (pagetable : Z) : K unit :=
  match depth with
  | O => fail NoFuel
  | S depth => freewalk_entries (freewalk_rec depth) pagetable 0 512;; kfree pagetable
  end.

Definition freewalk (pagetable : Z) : K unit := freewalk_rec 4 pagetable.

Definition uvmfree (pagetable sz : Z) : K unit :=
  when (0 <? sz) (uvmunmap pagetable 0 (PGROUNDUP sz / PGSIZE) true);;
  freewalk pagetable.

Fixpoint uvmcopy_loop (old new i : Z) (n : nat) : K Z :=
  match n with
  | O => mret 0
  | S n =>
      pte ← walk old i false;
      when (pte =? 0) (fail (Panic "uvmcopy: pte should exist"));;
      v ← load 8 pte;
      when (Z.land v PTE_V =? 0) (fail (Panic "uvmcopy: page not present"));;
      let pa := PTE2PA v in
      let flags := PTE_FLAGS v in
      mem ← kalloc;
      if mem =? 0 then uvmunmap new 0 (i / PGSIZE) true;; mret (-1) else
      memmove mem pa PGSIZE;;
      r ← mappages new i PGSIZE mem flags;
      if negb (r =? 0) then
        kfree mem;; uvmunmap new 0 (i / PGSIZE) true;; mret (-1)
      else uvmcopy_loop old new (u64 (i + PGSIZE)) n
  end.

Definition uvmcopy (old new sz : Z) : K Z := uvmcopy_loop old new 0 (pages_between 0 sz).

Definition uvmclear (pagetable va : Z) : K unit :=
  pte ← walk pagetable va false;
  when (pte =? 0) (fail (Panic "uvmclear"));;
  v ← load 8 pte;
  store 8 pte (Z.land v (u64 (Z.lnot PTE_U))).

(** One iteration of the copying loops handles the rest of a page. *)
Definition chunk_len (va0 va len : Z) : Z :=
  let n := PGSIZE - (va - va0) in if len <? n then len else n.

Fixpoint copyout_loop (fuel : nat) (pagetable dstva src len : Z) : K Z :=
  match fuel with
  | O => fail NoFuel
  | S fuel =>
      if len =? 0 then mret 0 else
      let va0 := PGROUNDDOWN dstva in
      pa0 ← walkaddr pagetable va0;
      if pa0 =? 0 then mret (-1) else
      let n := chunk_len va0 dstva len in
      memmove (pa0 + (dstva - va0)) src n;;
      copyout_loop fuel pagetable (u64 (va0 + PGSIZE)) (src + n) (len - n)
  end.

(** At most one partial page at each end. *)
Definition copy_fuel (len : Z) : nat := Z.to_nat (len / PGSIZE + 3).

Definition copyout (pagetable dstva src len : Z) : K Z :=
  copyout_loop (copy_fuel len) pagetable dstva src len.

Fixpoint copyin_loop (fuel : nat) (pagetable dst srcva len : Z) : K Z :=
  match fuel with
  | O => fail NoFuel
  | S fuel =>
      if len =? 0 then mret 0 else
      let va0 := PGROUNDDOWN srcva in
      pa0 ← walkaddr pagetable va0;
      if pa0 =? 0 then mret (-1) else
      let n := chunk_len va0 srcva len in
      memmove dst (pa0 + (srcva - va0)) n;;
      copyin_loop fuel pagetable (dst + n) (u64 (va0 + PGSIZE)) (len - n)
  end.

Definition copyin (pagetable dst srcva len : Z) : K Z :=
  copyin_loop (copy_fuel len) pagetable dst srcva len.

(** The inner loop of [copyinstr] over [n] bytes of one page: whether it met
    the NUL, and where the destination is then. *)
Fixpoint copyinstr_page (dst p : Z) (n : nat) : K (bool * Z) :=
  match n with
  | O => mret (false, dst)
  | S n =>
      c ← load 1 p;
      if c =? 0 then store 1 dst 0;; mret (true, dst)
      else c ← load 1 p; store 1 dst c;; copyinstr_page (dst + 1) (p + 1) n
  end.

Fixpoint copyinstr_loop (fuel : nat) (pagetable dst srcva max : Z) : K Z :=
  match fuel with
  | O => fail NoFuel
  | S fuel =>
      if max =? 0 then mret (-1) else
      let va0 := PGROUNDDOWN srcva in
      pa0 ← walkaddr pagetable va0;
      if pa0 =? 0 then mret (-1) else
      let n := chunk_len va0 srcva max in
      '(got_null, dst') ← copyinstr_page dst (pa0 + (srcva - va0)) (Z.to_nat n);
      if (got_null : bool) then mret 0 else
      copyinstr_loop fuel pagetable dst' (u64 (va0 + PGSIZE)) (max - n)
  end.

Definition copyinstr (pagetable dst srcva max : Z) : K Z :=
  copyinstr_loop (copy_fuel max) pagetable dst srcva max.

(** kernel/proc.c: the page table of a process with the given trapframe. *)
Definition proc_pagetable (trapframe : Z) : K Z :=
  pagetable ← uvmcreate;
  if pagetable =? 0 then mret 0 else
  r ← mappages pagetable TRAMPOLINE PGSIZE trampoline (Z.lor PTE_R PTE_X);
  if r <? 0 then uvmfree pagetable 0;; mret 0 else
  r ← mappages pagetable TRAPFRAME PGSIZE trapframe (Z.lor PTE_R PTE_W);
  if r <? 0 then
    uvmunmap pagetable TRAMPOLINE 1 false;;
    uvmfree pagetable 0;;
    mret 0
  else mret pagetable.

Definition proc_freepagetable (pagetable sz : Z) : K unit :=
  uvmunmap pagetable TRAMPOLINE 1 false;;
  uvmunmap pagetable TRAPFRAME 1 false;;
  uvmfree pagetable sz.
End code.
