(* ===== verification/VmSpec.v ===== *)
(** * Correctness of the page-table code

    A page table as a tree of pages in memory, abstracted to the function from
    virtual page numbers to leaf PTEs; specifications of [walk], [mappages],
    [walkaddr] and [uvmunmap] against that abstraction. *)
From S2P Require Import Prelude Mem CString Sep SepRun Kalloc Vm.
From iris.proofmode Require Import proofmode.
From stdpp Require Import functions.

#[local] Open Scope Z_scope.

(** ** Arithmetic of PTEs and virtual addresses *)

Lemma PA2PTE_div pa : 0 ≤ pa < 2 ^ 56 → PA2PTE pa = pa / 4096 * 1024.
Proof.
  intros Hr. unfold PA2PTE. rewrite -> Z.shiftl_mul_pow2, Z.shiftr_div_pow2 by lia.
  change (2 ^ 12) with 4096. change (2 ^ 10) with 1024. apply wrap_small. dlia.
Qed.

(** The PTE for page [pa] with the flag bits [fl]. *)
Lemma pte_of pa fl : 0 ≤ pa < 2 ^ 56 → 0 ≤ fl < 1024 → Z.lor (PA2PTE pa) fl = pa / 4096 * 1024 + fl.
Proof.
  intros Hr Hf. rewrite -> PA2PTE_div by done. apply (lor_low 10); [lia| |done].
  change (2 ^ 10) with 1024. apply Z.mod_mul. lia.
Qed.

Lemma PTE2PA_of pa fl :
  pa `mod` PGSIZE = 0 → 0 ≤ pa < 2 ^ 56 → 0 ≤ fl < 1024 → PTE2PA (pa / 4096 * 1024 + fl) = pa.
Proof.
  intros Hp Hr Hf. unfold PTE2PA, PGSIZE in *. rewrite -> Z.shiftl_mul_pow2, Z.shiftr_div_pow2 by lia.
  change (2 ^ 12) with 4096. change (2 ^ 10) with 1024.
  replace ((pa / 4096 * 1024 + fl) / 1024 * 4096) with pa by dlia. apply wrap_small. lia.
Qed.

Lemma pte_valid pa fl : fl `mod` 2 = 1 → truth (Z.land (pa / 4096 * 1024 + fl) PTE_V) = true.
Proof.
  intros Hf. unfold PTE_V. change 1 with (Z.ones 1). rewrite Z.land_ones; [|lia].
  replace ((pa / 4096 * 1024 + fl) `mod` 2 ^ 1) with 1 by (change (2 ^ 1) with 2; dlia). done.
Qed.

(** The page number of [va] in a table of level [n]. *)
Definition span (n : nat) : Z := 512 ^ Z.of_nat (S n).
Definition vpn (n : nat) (va : Z) : Z := (va / PGSIZE) `mod` span n.

Lemma span_pos n : 0 < span n.
Proof. apply Z.pow_pos_nonneg; lia. Qed.

Lemma span_S n : span (S n) = 512 * span n.
Proof. unfold span. rewrite (Nat2Z.inj_succ (S n)) Z.pow_succ_r; lia. Qed.

Lemma PX_div level va : 0 ≤ level → PX level va = (va / 2 ^ (12 + 9 * level)) `mod` 512.
Proof.
  intros Hl. unfold PX, PXSHIFT. change 511 with (Z.ones 9). rewrite Z.land_ones; [|lia].
  rewrite Z.shiftr_div_pow2; [done|lia].
Qed.

Lemma PX_range level va : 0 ≤ level → 0 ≤ PX level va < 512.
Proof. intros Hl. rewrite PX_div; [|done]. by apply Z.mod_pos_bound. Qed.

Lemma vpn_0 va : vpn 0 va = PX 0 va.
Proof. unfold vpn. by rewrite PX_div. Qed.

(** The top digit selects the entry, the rest is looked up below. *)
Lemma vpn_S n va : vpn (S n) va = PX (Z.of_nat (S n)) va * span n + vpn n va.
Proof.
  unfold vpn. rewrite PX_div; [|lia]. rewrite span_S. pose proof (span_pos n) as Hs.
  assert (va / 2 ^ (12 + 9 * Z.of_nat (S n)) = va / PGSIZE / span n) as ->.
  { rewrite Z.div_div; [|unfold PGSIZE; lia|lia]. f_equal. unfold span, PGSIZE.
    change 4096 with (2 ^ 12). change 512 with (2 ^ 9). rewrite <- Z.pow_mul_r; [|lia|lia].
    rewrite <- Z.pow_add_r; [|lia|lia]. f_equal. }
  set (x := va / PGSIZE). rewrite (Z.mul_comm 512). rewrite Z.rem_mul_r; [|lia|lia]. lia.
Qed.

Lemma vpn_range n va : 0 ≤ vpn n va < span n.
Proof. apply Z.mod_pos_bound, span_pos. Qed.

(** ** The page-table tree *)

(** A sum over the entries of a table. *)
Definition tally (κ : Z → nat) : nat := sum_list_with κ (seqZ 0 512).

Lemma sum_other (κ : Z → nat) i x l : i ∉ l → sum_list_with (<[i := x]> κ) l = sum_list_with κ l.
Proof.
  induction l as [|j l IH]; [done|]. intros Hi. cbn [sum_list_with].
  rewrite IH; [|set_solver]. rewrite fn_lookup_insert_ne; [done|set_solver].
Qed.

Lemma sum_insert (κ : Z → nat) i x l :
  NoDup l → i ∈ l → (sum_list_with (<[i := x]> κ) l + κ i = sum_list_with κ l + x)%nat.
Proof.
  induction l as [|j l IH]; [by intros _ ?%elem_of_nil|]. intros Hnd Hi. inversion Hnd as [|?? Hj Hl]; subst. cbn [sum_list_with].
  destruct (decide (i = j)) as [->|Hne].
  - rewrite fn_lookup_insert sum_other; [lia|done].
  - rewrite fn_lookup_insert_ne; [|done]. assert (i ∈ l) as Hil by set_solver. specialize (IH Hl Hil). lia.
Qed.

Lemma tally_insert κ i x : 0 ≤ i < 512 → (tally (<[i := x]> κ) + κ i = tally κ + x)%nat.
Proof. intros Hi. apply sum_insert; [apply NoDup_seqZ|by apply elem_of_seqZ]. Qed.

Lemma tally_zero : tally (λ _, 0%nat) = 0%nat.
Proof. vm_compute. reflexivity. Qed.

Lemma tally_eq κ : tally κ = sum_list_with κ (seqZ 0 512).
Proof. done. Qed.

#[global] Opaque tally.

Section spec.
Context {G : Type} `{HasKmem G, KernelImage}.
Implicit Types (f : Z → Z) (t va : Z) (g : G).

(** The table of level [n] at [t]: entry [i] of a leaf table is the PTE of page
    [i]; an entry of a higher table is empty or points to a table for the pages
    below it.  [f] gives the leaf PTE of each page, 0 where there is no table;
    [k] is the number of pages the tables take. *)
Fixpoint pt (n : nat) (t : Z) (f : Z → Z) (k : nat) : hprop :=
  (⌜page_ok t⌝ ∗
   match n with
   | O => ⌜k = 1%nat⌝ ∗ array 512 (λ i, pte_at t i ↦₈ f i)
   | S n => ∃ κ : Z → nat, ⌜k = S (tally κ)⌝ ∗ array 512 (λ i,
       (pte_at t i ↦₈ 0 ∗ ⌜κ i = 0%nat ∧ ∀ v, 0 ≤ v < span n → f (i * span n + v)%Z = 0⌝) ∨
       (∃ c, ⌜page_ok c⌝ ∗ pte_at t i ↦₈ (c / 4096 * 1024 + 1) ∗ pt n c (λ v, f (i * span n + v)) (κ i)))
   end)%I.

(** One entry of a higher table, with [κ i] pages below it. *)
Definition entry (n : nat) (t : Z) (f : Z → Z) (κ : Z → nat) (i : Z) : hprop :=
  ((pte_at t i ↦₈ 0 ∗ ⌜κ i = 0%nat ∧ ∀ v, 0 ≤ v < span n → f (i * span n + v)%Z = 0⌝) ∨
   (∃ c, ⌜page_ok c⌝ ∗ pte_at t i ↦₈ (c / 4096 * 1024 + 1) ∗ pt n c (λ v, f (i * span n + v)) (κ i)))%I.

Lemma pt_S n t f k :
  pt (S n) t f k ⊣⊢ ⌜page_ok t⌝ ∗ ∃ κ : Z → nat, ⌜k = S (tally κ)⌝ ∗ array 512 (entry n t f κ).
Proof. done. Qed.

Lemma page_ok_range c : 0 < kend → page_ok c → 0 ≤ c < 2 ^ 56.
Proof. unfold page_ok, PHYSTOP, KERNBASE. lia. Qed.

Lemma pt_page_ok n t f k : pt n t f k ⊢ ⌜page_ok t⌝.
Proof. destruct n; by iIntros "[% _]". Qed.

(** Only the pages within its span matter to a table. *)
Lemma pt_ext n t f f' k : (∀ v, 0 ≤ v < span n → f v = f' v) → pt n t f k ⊢ pt n t f' k.
Proof.
  revert t f f' k; induction n as [|n IH]; intros t f f' k Hf; simpl.
  - iIntros "[$ [$ H]]". iApply (array_mono with "H"). intros i Hi. by rewrite -> Hf by (unfold span; lia).
  - iIntros "[$ (%κ & %Hk & H)]". iExists κ. iSplit; [done|]. iApply (array_mono with "H"). intros i Hi.
    assert (∀ v, 0 ≤ v < span n → f (i * span n + v) = f' (i * span n + v)) as Hfi.
    { intros v Hv. apply Hf. rewrite span_S. nia. }
    iIntros "[[Hp [%Hz0 %Hz]]|(%c & Hok & Hp & Ht)]".
    + iLeft. iFrame. iPureIntro. split; [done|]. intros v Hv. rewrite <- Hfi by done. by apply Hz.
    + iRight. iExists c. iFrame. iApply (IH with "Ht"). done.
Qed.

Lemma entry_ext n t f f' κ κ' i :
  (∀ v, 0 ≤ v < span n → f (i * span n + v) = f' (i * span n + v)) → κ i = κ' i → entry n t f κ i ⊢ entry n t f' κ' i.
Proof.
  intros Hf Hk. unfold entry. rewrite Hk. iIntros "[[Hp [%Hz0 %Hz]]|(%c & Hok & Hp & Ht)]".
  - iLeft. iFrame. iPureIntro. split; [done|]. intros v Hv. rewrite <- Hf by done. by apply Hz.
  - iRight. iExists c. iFrame. iApply (pt_ext with "Ht"). done.
Qed.

(** A cleared page is an empty table of any level. *)
Lemma zero_words p s k :
  0 ≤ k → bytes (pte_at p s) (replicate (8 * Z.to_nat k) 0) ⊢ [∗ list] i ∈ seqZ s k, pte_at p i ↦₈ 0.
Proof.
  intros Hk. revert s. pattern k. apply natlike_ind; [| |done].
  - intros s. by iIntros "_".
  - clear k Hk. intros k Hk IH s. rewrite seqZ_cons; [|lia]. rewrite Z.pred_succ.
    replace (8 * Z.to_nat (Z.succ k))%nat with (8 + 8 * Z.to_nat k)%nat by lia.
    rewrite replicate_add bytes_app length_replicate. iIntros "[H1 H2]". iSplitL "H1".
    + iApply bytes_word; [simpl; lia|done].
    + iApply IH. by replace (pte_at p (Z.succ s)) with (pte_at p s + Z.of_nat 8) by (unfold pte_at; lia).
Qed.

Lemma zero_table p n f : page_ok p → (∀ v, f v = 0) → bytes p (page_fill 0) ⊢ pt n p f 1.
Proof.
  iIntros (Hp Hf) "H". rewrite page_fill_eq.
  replace (Z.to_nat PGSIZE) with (8 * Z.to_nat 512)%nat by (unfold PGSIZE; lia).
  replace p with (pte_at p 0) at 1 by (unfold pte_at; lia).
  iEval (rewrite (zero_words p 0 512 ltac:(lia))) in "H".
  destruct n as [|n]; simpl; (iSplit; [done|]).
  - iSplit; [done|]. iApply (array_mono 512 (λ i, pte_at p i ↦₈ 0)%I with "H"). intros i Hi. by rewrite Hf.
  - iExists (λ _, 0%nat). iSplit; [by rewrite tally_zero|]. iApply (array_mono 512 (λ i, pte_at p i ↦₈ 0)%I with "H"). intros i Hi.
    iIntros "H". iLeft. iFrame. iPureIntro. split; [done|]. intros v Hv. apply Hf.
Qed.

(** ** walk *)

(** The leaf entry of [va], and how to put another value there. *)
Definition leaf (n : nat) (t va : Z) f (k : nat) (r : Z) : hprop :=
  (r ↦₈ f (vpn n va) ∗ ∀ x, r ↦₈ x -∗ pt n t (<[vpn n va := x]> f) k)%I.

(** Changing page [v] below entry [i] leaves the other entries alone. *)
Lemma entry_insert_ne n t f κ κ' i j v x :
  0 ≤ v < span n → j ≠ i → κ j = κ' j → entry n t f κ j ⊢ entry n t (<[i * span n + v := x]> f) κ' j.
Proof.
  intros Hv Hj. apply entry_ext. intros w Hw. rewrite fn_lookup_insert_ne; [done|].
  pose proof (span_pos n). nia.
Qed.

(** The leaf below a table reached through entry [i] is the leaf of the whole. *)
Lemma leaf_S n t c va f κ k r :
  page_ok t → page_ok c →
  let i := PX (Z.of_nat (S n)) va in
  pte_at t i ↦₈ (c / 4096 * 1024 + 1) -∗
  (∀ Ψ, ⌜∀ j, 0 ≤ j < 512 → j ≠ i → entry n t f κ j ⊢ Ψ j⌝ -∗ Ψ i -∗ array 512 Ψ) -∗
  leaf n c va (λ v, f (i * span n + v)) k r -∗ leaf (S n) t va f (S (tally (<[i := k]> κ))) r.
Proof.
  iIntros (Ht Hc i) "Hp Harr [Hr Hcl]". unfold leaf. rewrite vpn_S. fold i. iFrame "Hr".
  iIntros (x) "Hr". iSpecialize ("Hcl" with "Hr"). rewrite pt_S. iSplit; [done|]. iExists (<[i := k]> κ). iSplit; [done|].
  pose proof (vpn_range n va) as Hv.
  iApply ("Harr" $! (entry n t (<[i * span n + vpn n va := x]> f) (<[i := k]> κ)) with "[%] [Hp Hcl]").
  { intros j _ Hj. apply entry_insert_ne; [done|done|]. by rewrite fn_lookup_insert_ne. }
  iRight. iExists c. iSplit; [done|]. iFrame "Hp". rewrite fn_lookup_insert. iApply (pt_ext with "Hcl").
  intros v _. destruct (decide (v = vpn n va)) as [->|Hne].
  - by rewrite !fn_lookup_insert.
  - rewrite !fn_lookup_insert_ne; [done|lia|done].
Qed.

(** A table whose entry [i] was opened is closed with [k] pages below it. *)
Lemma close_S n t c i f κ k :
  page_ok t → page_ok c → 0 ≤ i < 512 →
  pte_at t i ↦₈ (c / 4096 * 1024 + 1) -∗
  (∀ Ψ, ⌜∀ j, 0 ≤ j < 512 → j ≠ i → entry n t f κ j ⊢ Ψ j⌝ -∗ Ψ i -∗ array 512 Ψ) -∗
  pt n c (λ v, f (i * span n + v)) k -∗ pt (S n) t f (S (tally (<[i := k]> κ))).
Proof.
  iIntros (Ht Hc Hi) "Hp Harr Hc". rewrite pt_S. iSplit; [done|]. iExists (<[i := k]> κ). iSplit; [done|].
  iApply ("Harr" $! (entry n t f (<[i := k]> κ)) with "[%] [Hp Hc]").
  { intros j _ Hj. apply entry_ext; [done|]. by rewrite fn_lookup_insert_ne. }
  iRight. iExists c. iSplit; [done|]. iFrame "Hp". by rewrite fn_lookup_insert.
Qed.

Lemma close_0 n t i f κ :
  page_ok t → 0 ≤ i < 512 → κ i = 0%nat → (∀ v, 0 ≤ v < span n → f (i * span n + v) = 0) →
  pte_at t i ↦₈ 0 -∗
  (∀ Ψ, ⌜∀ j, 0 ≤ j < 512 → j ≠ i → entry n t f κ j ⊢ Ψ j⌝ -∗ Ψ i -∗ array 512 Ψ) -∗
  pt (S n) t f (S (tally κ)).
Proof.
  iIntros (Ht Hi Hk Hz) "Hp Harr". rewrite pt_S. iSplit; [done|]. iExists κ. iSplit; [done|].
  iApply ("Harr" with "[%] [Hp]"); [done|]. iLeft. by iFrame.
Qed.

(** [walk] from a table of level [n] on: it reaches the leaf entry, or returns 0
    because there is no table and it may not or cannot add one.  Pages taken
    from the free list become tables. *)
Lemma wp_walk_from n t va f k (alloc : bool) ps (Φ : Z → G → hprop) g :
  pt n t f k -∗ kmem_inv g ps -∗
  (∀ r g' ps' k', ⌜r ≠ 0 ∧ (length ps + k = length ps' + k' ∧ k ≤ k' ≤ k + n)%nat ∧ (alloc = false → g' = g ∧ ps' = ps)⌝ -∗
     leaf n t va f k' r -∗ kmem_inv g' ps' -∗ Φ r g') ∧
  (∀ g' k', ⌜if alloc then (length ps + k = k' ∧ length ps < n)%nat else f (vpn n va) = 0 ∧ g' = g ∧ k' = k⌝ -∗ pt n t f k' -∗
     kmem_inv g' (if alloc then [] else ps) -∗ Φ 0 g') -∗
  wp (walk_from n t va alloc) Φ g.
Proof.
  revert t f k ps Φ g. induction n as [|n IH]; intros t f k ps Φ g; iIntros "Ht Hk HΦ".
  - simpl. iApply wp_ret. iDestruct "HΦ" as "[HΦ _]". iDestruct "Ht" as "[%Hp [-> Ht]]".
    iDestruct (kmem_inv_kend with "Hk") as %Hend.
    pose proof (PX_range 0 va ltac:(lia)) as Hx.
    iDestruct (array_access _ _ (PX 0 va) with "Ht") as "[He Ht]"; [done|].
    iApply ("HΦ" $! _ g ps 1%nat with "[%] [He Ht] Hk").
    + split_and!; [|lia|lia|lia|done]. unfold pte_at, page_ok in *. lia.
    + unfold leaf. rewrite vpn_0. iFrame "He". iIntros (x) "He". iSplit; [done|]. iSplit; [done|].
      iApply ("Ht" with "[%] [He]"); [|by rewrite fn_lookup_insert].
      intros j Hj Hne. by rewrite fn_lookup_insert_ne.
  - iEval (rewrite pt_S) in "Ht". iDestruct "Ht" as "(%Ht & %κ & -> & Harr)". cbn [walk_from].
    set (i := PX (Z.of_nat (S n)) va).
    pose proof (PX_range (Z.of_nat (S n)) va ltac:(lia)) as Hi. fold i in Hi.
    iDestruct (array_access _ _ i with "Harr") as "[He Harr]"; [done|].
    iDestruct (kmem_inv_kend with "Hk") as %Hend.
    iDestruct "He" as "[[Hp [%Hz0 %Hz]]|(%c & %Hc & Hp & Hc)]".
    + iApply wp_bind. iApply (wp_load with "Hp"). iIntros "Hp". cbn [truth negb].
      change (truth (Z.land 0 PTE_V)) with false. destruct alloc; cbn [negb].
      * iApply wp_bind. iApply (wp_kalloc with "Hk"). destruct ps as [|c ps].
        { iIntros "Hk". rewrite Z.eqb_refl. iApply wp_ret. iDestruct "HΦ" as "[_ HΦ]".
          iApply ("HΦ" $! _ (S (tally κ)) with "[%] [Hp Harr] Hk"); [simpl; lia|]. by iApply (close_0 with "Hp Harr"). }
        iIntros ([Hc Hc0]) "Hb %next Hk". destruct (Z.eqb_spec c 0); [done|].
        iApply wp_bind. iApply (wp_memset_page with "[Hb]"); [by iApply (page_fill_bytes c 5)|].
        iIntros "Hb". iApply wp_bind.
        rewrite pte_of; [|by apply page_ok_range|done]. pose proof (page_ok_range c Hend Hc) as Hcr.
        change PTE_V with 1. iApply (wp_store with "Hp"); [simpl; dlia|]. iIntros "Hp".
        iDestruct (zero_table c n (λ _, 0) with "Hb") as "Hc"; [done|done|].
        iDestruct (pt_ext n c _ (λ v, f (i * span n + v)) with "Hc") as "Hc".
        { intros v Hv. by rewrite Hz. }
        iApply (IH with "Hc Hk"). pose proof (tally_insert κ i) as Htot. iSplit.
        -- iIntros (r g' ps' k' (Hr & Hsuf & _)) "Hl Hk". iDestruct "HΦ" as "[HΦ _]". specialize (Htot k' Hi).
           iApply ("HΦ" $! r g' ps' (S (tally (<[i := k']> κ))) with "[%] [Hp Harr Hl] Hk"); [|by iApply (leaf_S with "Hp Harr Hl")].
           split_and!; [done|simpl; lia|lia|lia|done].
        -- iIntros (g' k' Hg) "Hc Hk". iDestruct "HΦ" as "[_ HΦ]". specialize (Htot k' Hi).
           iApply ("HΦ" $! g' (S (tally (<[i := k']> κ))) with "[%] [Hp Harr Hc] Hk"); [simpl; lia|]. by iApply (close_S with "Hp Harr Hc").
      * iApply wp_ret. iDestruct "HΦ" as "[_ HΦ]". iApply ("HΦ" with "[%] [Hp Harr] Hk"); [|by iApply (close_0 with "Hp Harr")].
        split; [|done]. rewrite vpn_S. apply Hz, vpn_range.
    + iApply wp_bind. iApply (wp_load with "Hp"). iIntros "Hp".
      rewrite pte_valid; [|done]. rewrite PTE2PA_of; [|apply Hc|by apply page_ok_range|done].
      iApply (IH with "Hc Hk"). pose proof (tally_insert κ i) as Htot. iSplit.
      * iIntros (r g' ps' k' (Hr & Hps & Hsame)) "Hl Hk". iDestruct "HΦ" as "[HΦ _]". specialize (Htot k' Hi).
        iApply ("HΦ" $! r g' ps' (S (tally (<[i := k']> κ))) with "[%] [Hp Harr Hl] Hk"); [|by iApply (leaf_S with "Hp Harr Hl")].
        split_and!; [done|lia|lia|lia|done].
      * iIntros (g' k' Hg) "Hc Hk". iDestruct "HΦ" as "[_ HΦ]". specialize (Htot k' Hi).
        iApply ("HΦ" $! g' (S (tally (<[i := k']> κ))) with "[%] [Hp Harr Hc] Hk"); [|by iApply (close_S with "Hp Harr Hc")].
        destruct alloc; [lia|]. rewrite vpn_S. fold i. destruct Hg as (? & ? & ->). split_and!; [done|done|lia].
Qed.

(** ** The whole table: level 2 *)

Lemma vpn_root va : 0 ≤ va < MAXVA → vpn 2 va = va / PGSIZE.
Proof.
  intros Hva. unfold vpn. apply Z.mod_small. unfold span, MAXVA, PGSIZE in *.
  change (512 ^ Z.of_nat 3) with (2 ^ 27). change (2 ^ (9 + 9 + 9 + 12 - 1)) with (2 ^ 38) in Hva. dlia.
Qed.

Lemma wp_walk t va f k (alloc : bool) ps (Φ : Z → G → hprop) g :
  0 ≤ va < MAXVA →
  pt 2 t f k -∗ kmem_inv g ps -∗
  (∀ r g' ps' k', ⌜r ≠ 0 ∧ (length ps + k = length ps' + k' ∧ k ≤ k' ≤ k + 2)%nat ∧ (alloc = false → g' = g ∧ ps' = ps)⌝ -∗
     r ↦₈ f (va / PGSIZE) -∗ (∀ x, r ↦₈ x -∗ pt 2 t (<[va / PGSIZE := x]> f) k') -∗
     kmem_inv g' ps' -∗ Φ r g') ∧
  (∀ g' k', ⌜if alloc then (length ps + k = k' ∧ length ps < 2)%nat else f (va / PGSIZE) = 0 ∧ g' = g ∧ k' = k⌝ -∗ pt 2 t f k' -∗
     kmem_inv g' (if alloc then [] else ps) -∗ Φ 0 g') -∗
  wp (walk t va alloc) Φ g.
Proof.
  iIntros (Hva) "Ht Hk HΦ". unfold walk. destruct (Z.leb_spec MAXVA va); [lia|].
  iApply wp_bind. iApply wp_ret. iApply (wp_walk_from with "Ht Hk").
  unfold leaf. rewrite -> vpn_root by done. iSplit.
  - iIntros (r g' ps' k' Hr) "[Hr Hc] Hk". iDestruct "HΦ" as "[HΦ _]".
    iApply ("HΦ" with "[//] Hr Hc Hk").
  - iDestruct "HΦ" as "[_ HΦ]". done.
Qed.

(** ** mappages *)

Definition mk_pte (pa perm : Z) : Z := Z.lor (Z.lor (PA2PTE pa) perm) PTE_V.

(** The abstract table after [n] pages from page [v] on were mapped to the
    physical pages from [pa] on. *)
Fixpoint map_pages f (v pa perm : Z) (n : nat) : Z → Z :=
  match n with
  | O => f
  | S n => map_pages (<[v := mk_pte pa perm]> f) (v + 1) (pa + PGSIZE) perm n
  end.

Lemma mk_pte_flags pa perm :
  0 ≤ pa < 2 ^ 56 → 0 ≤ perm < 1024 → mk_pte pa perm = pa / 4096 * 1024 + Z.lor perm PTE_V.
Proof.
  intros Hpa Hperm. unfold mk_pte. rewrite <- Z.lor_assoc. apply pte_of; [done|].
  by apply (lor_range 10).
Qed.

Lemma mk_pte_range pa perm : 0 ≤ pa < 2 ^ 56 → 0 ≤ perm < 1024 → 0 ≤ mk_pte pa perm < 2 ^ 64.
Proof.
  intros Hpa Hperm. rewrite -> mk_pte_flags by done.
  pose proof (lor_range 10 perm PTE_V ltac:(lia) Hperm ltac:(done)). dlia.
Qed.

Lemma map_pages_lookup f v pa perm n w :
  map_pages f v pa perm n w =
  if decide (v ≤ w < v + Z.of_nat n) then mk_pte (pa + (w - v) * PGSIZE) perm else f w.
Proof.
  revert f v pa; induction n as [|n IH]; intros f v pa; simpl.
  - rewrite decide_False; [done|lia].
  - rewrite IH. destruct (decide (v = w)) as [->|Hne].
    + rewrite decide_False; [|lia]. rewrite fn_lookup_insert decide_True; [|lia]. f_equal. lia.
    + rewrite fn_lookup_insert_ne; [|done].
      destruct (decide (v + 1 ≤ w < v + 1 + Z.of_nat n)).
      * rewrite decide_True; [|lia]. f_equal. unfold PGSIZE. lia.
      * rewrite decide_False; [done|lia].
Qed.

Lemma wp_mappages_loop t v k f N pa perm fuel ps (Φ : Z → G → hprop) g :
  0 ≤ v → (v + Z.of_nat k) * PGSIZE < MAXVA → (k < fuel)%nat →
  0 ≤ pa → pa + Z.of_nat k * PGSIZE < 2 ^ 56 → 0 ≤ perm < 1024 →
  (∀ j, v ≤ j ≤ v + Z.of_nat k → Z.land (f j) PTE_V = 0) →
  pt 2 t f N -∗ kmem_inv g ps -∗
  (∀ r g' ps' N' n, ⌜(length ps + N = length ps' + N')%nat ∧ (N ≤ N')%nat ∧
       (r = 0 ∧ n = S k ∧ (N' ≤ N + 2 * S k)%nat ∨ r = -1 ∧ (n ≤ k)%nat ∧ ps' = [] ∧ (length ps < 2 * S k)%nat)⌝ -∗
     pt 2 t (map_pages f v pa perm n) N' -∗ kmem_inv g' ps' -∗ Φ r g') -∗
  wp (mappages_loop fuel t (v * PGSIZE) ((v + Z.of_nat k) * PGSIZE) pa perm) Φ g.
Proof.
  revert v k f N pa ps g. induction fuel as [|fuel IH]; intros v k f N pa ps g; [lia|].
  iIntros (Hv Hlast Hk Hpa Hpa' Hperm Hf) "Ht Hk HΦ". simpl mappages_loop.
  assert (PGSIZE = 4096) as Hpg by done. assert (MAXVA = 2 ^ 38) as Hmax by done.
  iApply wp_bind. iApply (wp_walk with "Ht Hk"); [lia|].
  rewrite -> Z.div_mul by lia. iSplit.
  - iIntros (r g' ps' N' (Hr & Hps & _)) "Hr Hc Hk". destruct (Z.eqb_spec r 0); [done|].
    iApply wp_bind. iApply (wp_load with "Hr"). iIntros "Hr". rewrite Hf; [|lia]. cbn [truth when].
    change (truth 0) with false. cbn [when]. iApply wp_bind. iApply wp_ret. iApply wp_bind.
    iApply (wp_store with "Hr"); [apply mk_pte_range; lia|]. iIntros "Hr".
    iSpecialize ("Hc" with "Hr").
    destruct (Z.eqb_spec (v * PGSIZE) ((v + Z.of_nat k) * PGSIZE)).
    + assert (k = 0%nat) as -> by lia. iApply wp_ret. iApply ("HΦ" $! 0 g' ps' N' 1%nat with "[%] Hc Hk").
      split_and!; [lia|lia|]. left. lia.
    + destruct k as [|k]; [lia|].
      rewrite -> (wrap_small 64 (v * PGSIZE + PGSIZE)) by lia.
      rewrite -> (wrap_small 64 (pa + PGSIZE)) by lia.
      replace (v * PGSIZE + PGSIZE) with ((v + 1) * PGSIZE) by lia.
      replace (v + Z.of_nat (S k)) with (v + 1 + Z.of_nat k) by lia.
      iApply (IH with "Hc Hk"); [lia|lia|lia|lia|lia|done| |].
      { intros j Hj. rewrite fn_lookup_insert_ne; [|lia]. apply Hf. lia. }
      iIntros (r' g'' ps'' N'' m (Hn1 & Hn2 & Hn)) "Ht Hk". iApply ("HΦ" $! r' g'' ps'' N'' (S m) with "[%] Ht Hk").
      split_and!; [lia|lia|]. destruct Hn as [(-> & -> & ?)|(-> & Hm & -> & ?)]; [left; lia|right].
      simpl in *. split_and!; [done|lia|done|lia].
  - iIntros (g' N' Hps) "Ht Hk". rewrite Z.eqb_refl. iApply wp_ret.
    iApply ("HΦ" $! (-1) g' [] N' 0%nat with "[%] Ht Hk"). simpl. split_and!; [lia|lia|]. right. split_and!; [done|lia|done|lia].
Qed.
End spec.
