(* ===== verification/VmUser.v ===== *)
(** * User memory

    The pages of a process: [uvmunmap], [uvmdealloc] and [uvmalloc] against the
    abstract page table of [VmSpec], and user memory as one flat list of bytes,
    which [copyout] and [copyin] access through the page table. *)
From S2P Require Import Prelude Mem CString Sep SepRun Kalloc Vm VmSpec.
From iris.proofmode Require Import proofmode.
From stdpp Require Import functions.

#[local] Open Scope Z_scope.

Section spec.
Context {G : Type} `{HasKmem G, KernelImage}.
Implicit Types (f : Z → Z) (t va : Z) (g : G).

(** ** User pages *)

(** A PTE that maps a user page: page [pa] of RAM with the flags [fl], among
    them [PTE_V] and at least one more. *)
Definition user_pte (x pa fl : Z) : Prop :=
  x = pa / 4096 * 1024 + fl ∧ page_ok pa ∧ fl `mod` 2 = 1 ∧ fl ≠ 1 ∧ 0 ≤ fl < 1024.

(** The page that a PTE with value [x] maps, holding [c]. *)
Definition upage (x : Z) (c : list Z) : hprop :=
  (∃ pa fl, ⌜user_pte x pa fl ∧ Z.of_nat (length c) = PGSIZE ∧ Forall is_byte c⌝ ∗ bytes pa c)%I.

(** The pages from [v] to [v + n]; page [w] holds [c w]. *)
Fixpoint upages f (c : Z → list Z) (v : Z) (n : nat) : hprop :=
  match n with
  | O => emp
  | S n => upage (f v) (c v) ∗ upages f c (v + 1) n
  end%I.

Lemma upages_ext f f' c c' v n :
  (∀ w, v ≤ w < v + Z.of_nat n → f w = f' w ∧ c w = c' w) → upages f c v n ⊢ upages f' c' v n.
Proof.
  revert v; induction n as [|n IH]; intros v Hf; simpl; [done|].
  destruct (Hf v ltac:(lia)) as [-> ->]. rewrite IH; [done|]. intros w Hw. apply Hf. lia.
Qed.

Lemma upages_app f c v n m : upages f c v (n + m) ⊣⊢ upages f c v n ∗ upages f c (v + Z.of_nat n) m.
Proof.
  revert v; induction n as [|n IH]; intros v; simpl.
  - by rewrite Z.add_0_r bi.emp_sep.
  - rewrite IH assoc. by replace (v + 1 + Z.of_nat n) with (v + Z.of_nat (S n)) by lia.
Qed.

(** The table without the pages from [v] to [v + n]. *)
Definition unmap f (v : Z) (n : nat) : Z → Z :=
  λ w, if decide (v ≤ w < v + Z.of_nat n) then 0 else f w.

Lemma PTE_FLAGS_of pa fl : 0 ≤ fl < 1024 → PTE_FLAGS (pa / 4096 * 1024 + fl) = fl.
Proof.
  intros Hf. unfold PTE_FLAGS. change 1023 with (Z.ones 10). rewrite Z.land_ones; [|lia].
  change (2 ^ 10) with 1024. dlia.
Qed.

Lemma user_pte_valid x pa fl : user_pte x pa fl → Z.land x PTE_V =? 0 = false.
Proof.
  intros (-> & _ & Hv & _). pose proof (pte_valid pa fl Hv) as Ht. unfold truth in Ht.
  by destruct (_ =? 0).
Qed.

Lemma wp_uvmunmap_loop t v n f N c ps (Φ : unit → G → hprop) g :
  0 ≤ v → (v + Z.of_nat n) * PGSIZE ≤ MAXVA →
  pt 2 t f N -∗ upages f c v n -∗ kmem_inv g ps -∗
  (∀ g' qs, ⌜length qs = n⌝ -∗ pt 2 t (unmap f v n) N -∗ kmem_inv g' (qs ++ ps) -∗ Φ () g') -∗
  wp (uvmunmap_loop t (v * PGSIZE) n true) Φ g.
Proof.
  revert v f ps g. induction n as [|n IH]; intros v f ps g; iIntros (Hv Hmax) "Ht Hu Hk HΦ"; simpl uvmunmap_loop.
  { iApply wp_ret. iApply ("HΦ" $! g [] with "[//] [Ht] Hk"). iApply (pt_ext with "Ht").
    intros w _. unfold unmap. rewrite decide_False; [done|lia]. }
  assert (PGSIZE = 4096) as Hpg by done. assert (MAXVA = 2 ^ 38) as Hm by done.
  iDestruct (kmem_inv_kend with "Hk") as %Hkend.
  iDestruct "Hu" as "[(%pa & %fl & [%Hpte [%Hc %Hcb]] & Hb) Hu]".
  iApply wp_bind. iApply (wp_walk _ _ _ _ false with "Ht Hk"); [lia|].
  rewrite -> Z.div_mul by lia. iSplit; last first.
  { iIntros (g' N' [Hz _]). exfalso. pose proof (user_pte_valid _ _ _ Hpte) as Hval. by rewrite Hz in Hval. }
  iIntros (r g' ps' N' (Hr & HN & Hsame)) "Hr Hc Hk". destruct (Hsame eq_refl) as [-> ->]. replace N' with N by lia.
  destruct (Z.eqb_spec r 0); [done|]. cbn [when]. iApply wp_bind. iApply wp_ret.
  iApply wp_bind. iApply (wp_load with "Hr"). iIntros "Hr".
  rewrite (user_pte_valid _ _ _ Hpte). destruct Hpte as (Hx & Hok & Hfv & Hf1 & Hfr). rewrite Hx.
  rewrite -> PTE_FLAGS_of by done. destruct (Z.eqb_spec fl PTE_V); [done|]. cbn [when].
  iApply wp_bind. iApply wp_ret. iApply wp_bind. iApply wp_ret.
  iApply wp_bind. iApply wp_bind. iApply (wp_load with "Hr"). iIntros "Hr".
  rewrite -> PTE2PA_of; [|apply Hok|by apply page_ok_range|done].
  iEval (rewrite (bytes_anybytes pa _ Hcb) Hc) in "Hb". iApply (wp_kfree with "Hk Hb"); [done|]. iIntros "Hk".
  iApply wp_bind. iApply (wp_store with "Hr"); [simpl; lia|]. iIntros "Hr". iSpecialize ("Hc" with "Hr").
  rewrite -> (wrap_small 64 (v * PGSIZE + PGSIZE)) by lia.
  replace (v * PGSIZE + PGSIZE) with ((v + 1) * PGSIZE) by lia.
  iApply (IH with "Hc [Hu] Hk"); [lia|lia| |].
  { iApply (upages_ext with "Hu"). intros w Hw. rewrite fn_lookup_insert_ne; [done|lia]. }
  iIntros (g' qs Hqs) "Ht Hk". iApply ("HΦ" $! g' (qs ++ [pa]) with "[%] [Ht] [Hk]").
  - rewrite length_app /=. lia.
  - iApply (pt_ext with "Ht"). intros w _. unfold unmap. destruct (decide (w = v)) as [->|].
    + rewrite -> decide_False, fn_lookup_insert, decide_True by lia. done.
    + rewrite -> fn_lookup_insert_ne by done. repeat case_decide; lia || done.
  - by rewrite -app_assoc.
Qed.

(** ** Rounding *)

Lemma PGROUNDDOWN_spec a : 0 ≤ a < 2 ^ 64 → PGROUNDDOWN a = a / PGSIZE * PGSIZE.
Proof.
  intros Ha. unfold PGROUNDDOWN, PGSIZE. rewrite -> land_wrap by lia.
  change (Z.lnot (4096 - 1)) with (Z.lnot (Z.ones 12)).
  rewrite <- Z.ldiff_land. rewrite -> Z.ldiff_ones_r, Z.shiftl_mul_pow2, Z.shiftr_div_pow2 by lia. done.
Qed.

Lemma PGROUNDUP_page v : 0 ≤ v * PGSIZE < 2 ^ 63 → PGROUNDUP (v * PGSIZE) = v * PGSIZE.
Proof. intros Hv. destruct (PGROUNDUP_spec _ Hv) as [Hm Hr]. unfold PGSIZE in *. dlia. Qed.

Lemma pages_between_exact v n : pages_between (v * PGSIZE) ((v + Z.of_nat n) * PGSIZE) = n.
Proof. unfold pages_between, PGSIZE. dlia. Qed.

(** ** uvmdealloc and uvmalloc *)

Lemma wp_uvmunmap t v n f N c ps (Φ : unit → G → hprop) g :
  0 ≤ v → (v + Z.of_nat n) * PGSIZE ≤ MAXVA →
  pt 2 t f N -∗ upages f c v n -∗ kmem_inv g ps -∗
  (∀ g' qs, ⌜length qs = n⌝ -∗ pt 2 t (unmap f v n) N -∗ kmem_inv g' (qs ++ ps) -∗ Φ () g') -∗
  wp (uvmunmap t (v * PGSIZE) (Z.of_nat n) true) Φ g.
Proof.
  iIntros (Hv Hmax) "Ht Hu Hk HΦ". unfold uvmunmap.
  assert (PGSIZE = 4096) as Hpg by done. assert (MAXVA = 2 ^ 38) as Hm by done.
  rewrite -> Z.mod_mul by lia. cbn [when]. iApply wp_bind. iApply wp_ret.
  rewrite -> (wrap_small 64 (Z.of_nat n * PGSIZE)) by lia.
  replace (v * PGSIZE + Z.of_nat n * PGSIZE) with ((v + Z.of_nat n) * PGSIZE) by lia.
  rewrite -> (wrap_small 64) by lia. rewrite pages_between_exact.
  iApply (wp_uvmunmap_loop with "Ht Hu Hk"); [done|done|]. done.
Qed.

(** Giving back all the pages above page [o]. *)
Lemma wp_uvmdealloc_pages t o n f N c ps (Φ : Z → G → hprop) g :
  0 ≤ o → (o + Z.of_nat n) * PGSIZE ≤ MAXVA →
  pt 2 t f N -∗ upages f c o n -∗ kmem_inv g ps -∗
  (∀ g' qs, ⌜length qs = n⌝ -∗ pt 2 t (unmap f o n) N -∗ kmem_inv g' (qs ++ ps) -∗ Φ (o * PGSIZE) g') -∗
  wp (uvmdealloc t ((o + Z.of_nat n) * PGSIZE) (o * PGSIZE)) Φ g.
Proof.
  iIntros (Ho Hmax) "Ht Hu Hk HΦ". unfold uvmdealloc.
  assert (PGSIZE = 4096) as Hpg by done. assert (MAXVA = 2 ^ 38) as Hm by done.
  destruct (Z.leb_spec ((o + Z.of_nat n) * PGSIZE) (o * PGSIZE)).
  { assert (n = 0%nat) as -> by lia. rewrite Z.add_0_r. iApply wp_ret.
    iApply ("HΦ" $! g [] with "[//] [Ht] Hk"). iApply (pt_ext with "Ht").
    intros w _. unfold unmap. rewrite decide_False; [done|lia]. }
  rewrite -> !PGROUNDUP_page by lia. destruct (Z.ltb_spec (o * PGSIZE) ((o + Z.of_nat n) * PGSIZE)); [|lia].
  replace (((o + Z.of_nat n) * PGSIZE - o * PGSIZE) / PGSIZE) with (Z.of_nat n) by (rewrite Hpg; dlia).
  rewrite -> swrap_small by lia. rewrite -> (wrap_small 64 (Z.of_nat n)) by lia. cbn [when].
  iApply wp_bind. iApply (wp_uvmunmap with "Ht Hu Hk"); [done|done|]. iIntros (g' qs Hqs) "Ht Hk".
  iApply wp_ret. iApply ("HΦ" with "[//] Ht Hk").
Qed.

Lemma wp_mappages_page t v f N pa perm ps (Φ : Z → G → hprop) g :
  0 ≤ v → v * PGSIZE < MAXVA → 0 ≤ pa < 2 ^ 56 → 0 ≤ perm < 1024 → Z.land (f v) PTE_V = 0 →
  pt 2 t f N -∗ kmem_inv g ps -∗
  (∀ g' ps' N', ⌜(length ps + N = length ps' + N' ∧ N ≤ N' ≤ N + 2)%nat⌝ -∗
     pt 2 t (<[v := mk_pte pa perm]> f) N' -∗ kmem_inv g' ps' -∗ Φ 0 g') ∧
  (∀ g' N', ⌜(length ps + N = N' ∧ length ps < 2)%nat⌝ -∗ pt 2 t f N' -∗ kmem_inv g' [] -∗ Φ (-1) g') -∗
  wp (mappages t (v * PGSIZE) PGSIZE pa perm) Φ g.
Proof.
  iIntros (Hv Hmax Hpa Hperm Hf) "Ht Hk HΦ". unfold mappages.
  assert (PGSIZE = 4096) as Hpg by done. assert (MAXVA = 2 ^ 38) as Hm by done.
  destruct (Z.eqb_spec PGSIZE 0); [done|]. cbn [when]. iApply wp_bind. iApply wp_ret.
  rewrite -> (wrap_small 64) by lia. rewrite -> !PGROUNDDOWN_spec by lia.
  replace ((v * PGSIZE + PGSIZE - 1) / PGSIZE) with v by (rewrite Hpg; dlia).
  rewrite -> Z.div_mul, Z.leb_refl by lia. rewrite Z.sub_diag.
  iPoseProof (wp_mappages_loop t v 0 f N pa perm 1 ps Φ g with "Ht Hk") as "Hwp"; [lia|simpl; lia|lia|lia|simpl; lia|done| |].
  { intros j Hj. by replace j with v by lia. }
  rewrite Z.add_0_r. iApply "Hwp". iIntros (r g' ps' N' m (H1 & H2 & Hr)) "Ht Hk".
  destruct Hr as [(-> & -> & ?)|(-> & Hm' & -> & ?)].
  - iDestruct "HΦ" as "[HΦ _]". iApply ("HΦ" with "[%] Ht Hk"). lia.
  - assert (m = 0%nat) as -> by lia. iDestruct "HΦ" as "[_ HΦ]". iApply ("HΦ" with "[%] Ht Hk"). simpl in *. lia.
Qed.

(** The flags [uvmalloc] gives a page. *)
Definition uflags (xperm : Z) : Z := Z.lor (Z.lor (Z.lor PTE_R PTE_U) xperm) PTE_V.

Lemma user_perm_range xperm : 0 ≤ xperm < 1024 → 0 ≤ Z.lor (Z.lor PTE_R PTE_U) xperm < 1024.
Proof. intros Hx. by apply (lor_range 10). Qed.

Lemma uflags_ok xperm : 0 ≤ xperm < 1024 → uflags xperm `mod` 2 = 1 ∧ uflags xperm ≠ 1 ∧ 0 ≤ uflags xperm < 1024.
Proof.
  intros Hx. unfold uflags. split_and!.
  - rewrite -Z.bit0_mod Z.lor_spec. rewrite orb_comm. done.
  - intros He. assert (Z.testbit (Z.lor (Z.lor (Z.lor PTE_R PTE_U) xperm) PTE_V) 1 = true) as Hb.
    { by rewrite !Z.lor_spec. }
    by rewrite He in Hb.
  - apply (lor_range 10); [lia|by apply user_perm_range|done].
  - apply (lor_range 10); [lia|by apply user_perm_range|done].
Qed.

Lemma mk_pte_user pa xperm :
  0 < kend → page_ok pa → 0 ≤ xperm < 1024 →
  user_pte (mk_pte pa (Z.lor (Z.lor PTE_R PTE_U) xperm)) pa (uflags xperm).
Proof.
  intros Hk Hp Hx. destruct (uflags_ok xperm Hx) as (? & ? & ?).
  rewrite -> mk_pte_flags; [done|by apply page_ok_range|by apply user_perm_range].
Qed.

Lemma page_fill_ok c : is_byte c → Z.of_nat (length (page_fill c)) = PGSIZE ∧ Forall is_byte (page_fill c).
Proof. intros Hc. rewrite page_fill_eq length_replicate. split; [done|by apply Forall_replicate]. Qed.

Lemma page_junk p c : is_byte c → bytes p (page_fill c) ⊢ anybytes p PGSIZE.
Proof. intros Hc. destruct (page_fill_ok c Hc) as [<- Hb]. by apply bytes_anybytes. Qed.

(** The loop, when [k] pages from page [o] on are mapped and [n] are to come.  The
    pages below [B] are free to be mapped; there are enough of them, or
    physical memory runs out before they do. *)
Lemma wp_uvmalloc_loop t o B k n f f0 N newsz xperm ps (Φ : Z → G → hprop) g :
  0 ≤ o → B * PGSIZE ≤ MAXVA → 0 ≤ xperm < 1024 →
  o + Z.of_nat (k + n) ≤ B ∨ o + Z.of_nat (k + length ps) ≤ B →
  (∀ w, o ≤ w < B → f0 w = 0) →
  (∀ w, ¬ (o ≤ w < o + Z.of_nat k) → f w = f0 w) →
  (∀ w, o ≤ w < o + Z.of_nat k → PTE_FLAGS (f w) = uflags xperm) →
  pt 2 t f N -∗ upages f (λ _, page_fill 0) o k -∗ kmem_inv g ps -∗
  (∀ g' ps' f' N', ⌜∀ w, ¬ (o ≤ w < o + Z.of_nat (k + n)) → f' w = f0 w⌝ -∗
     ⌜∀ w, o ≤ w < o + Z.of_nat (k + n) → PTE_FLAGS (f' w) = uflags xperm⌝ -∗
     ⌜(length ps + N = length ps' + N' + n ∧ N ≤ N' ≤ N + 2 * n)%nat⌝ -∗
     pt 2 t f' N' -∗ upages f' (λ _, page_fill 0) o (k + n) -∗ kmem_inv g' ps' -∗ Φ newsz g') ∧
  (∀ g' ps' N', ⌜(length ps + N + k = length ps' + N' ∧ N ≤ N' ∧ length ps < 3 * n)%nat⌝ -∗ pt 2 t f0 N' -∗ kmem_inv g' ps' -∗ Φ 0 g') -∗
  wp (uvmalloc_loop t (o * PGSIZE) ((o + Z.of_nat k) * PGSIZE) newsz xperm n) Φ g.
Proof.
  revert k f N ps g. induction n as [|n IH]; intros k f N ps g;
    iIntros (Ho Hmax Hx HB Hf0 Hout Hin) "Ht Hu Hk HΦ"; simpl uvmalloc_loop.
  { iApply wp_ret. rewrite Nat.add_0_r. iDestruct "HΦ" as "[HΦ _]".
    iApply ("HΦ" with "[//] [//] [%] Ht Hu Hk"). lia. }
  assert (PGSIZE = 4096) as Hpg by done. assert (MAXVA = 2 ^ 38) as Hm by done.
  iDestruct (kmem_inv_kend with "Hk") as %Hkend.
  assert (∀ w, unmap f o k w = f0 w) as Hundo.
  { intros w. unfold unmap. case_decide; [rewrite Hf0; [done|lia]|by apply Hout]. }
  iApply wp_bind. iApply (wp_kalloc with "Hk"). destruct ps as [|mem ps].
  { iIntros "Hk". rewrite Z.eqb_refl. iApply wp_bind. iApply (wp_uvmdealloc_pages with "Ht Hu Hk"); [done|simpl in *; lia|].
    iIntros (g' qs Hqs) "Ht Hk". iApply wp_ret. iDestruct "HΦ" as "[_ HΦ]".
    iApply ("HΦ" $! g' (qs ++ []) N with "[%] [Ht] Hk"); [rewrite length_app /=; simpl in *; lia|]. iApply (pt_ext with "Ht"). intros w _. apply Hundo. }
  iIntros ([Hok Hmem]) "Hb %next Hk". destruct (Z.eqb_spec mem 0); [done|]. cbn [length] in *.
  iEval (rewrite (page_junk mem 5 ltac:(done))) in "Hb".
  iApply wp_bind. iApply (wp_memset_page with "Hb"). iIntros "Hb". change (u8 0) with 0.
  iApply wp_bind. iApply (wp_mappages_page with "Ht Hk"); [lia|lia|by apply page_ok_range|by apply user_perm_range| |].
  { rewrite -> Hout, Hf0 by lia. done. }
  iSplit; last first.
  { iIntros (g' N' Hps) "Ht Hk". change (negb (-1 =? 0)) with true. cbv iota.
    iEval (rewrite (page_junk mem 0 ltac:(done))) in "Hb".
    iApply wp_bind. iApply (wp_kfree with "Hk Hb"); [done|]. iIntros "Hk".
    iApply wp_bind. iApply (wp_uvmdealloc_pages with "Ht Hu Hk"); [done|lia|].
    iIntros (g'' qs Hqs) "Ht Hk". iApply wp_ret. iDestruct "HΦ" as "[_ HΦ]".
    iApply ("HΦ" $! g'' (qs ++ [mem]) N' with "[%] [Ht] Hk"); [rewrite length_app /=; simpl in *; lia|]. iApply (pt_ext with "Ht"). intros w _. apply Hundo. }
  iIntros (g' ps' N' Hps) "Ht Hk". rewrite Z.eqb_refl. cbn [negb].
  rewrite -> (wrap_small 64) by lia.
  replace ((o + Z.of_nat k) * PGSIZE + PGSIZE) with ((o + Z.of_nat (S k)) * PGSIZE) by lia.
  pose proof (mk_pte_user mem xperm Hkend Hok Hx) as Hpte.
  replace (k + S n)%nat with (S k + n)%nat by lia.
  iApply (IH (S k) with "Ht [Hu Hb] Hk [HΦ]"); [done|done|done|lia|done| | | |].
  - intros w Hw. rewrite fn_lookup_insert_ne; [|lia]. apply Hout. lia.
  - intros w Hw. destruct (decide (w = o + Z.of_nat k)) as [->|].
    + rewrite fn_lookup_insert. destruct Hpte as (-> & _ & _ & _ & ?). by apply PTE_FLAGS_of.
    + rewrite fn_lookup_insert_ne; [|done]. apply Hin. lia.
  - rewrite -Nat.add_1_r upages_app. iSplitL "Hu".
    + iApply (upages_ext with "Hu"). intros w Hw. rewrite fn_lookup_insert_ne; [done|lia].
    + simpl. iSplit; [|done]. rewrite fn_lookup_insert. iExists mem, (uflags xperm). iFrame.
      iPureIntro. split; [done|]. by apply page_fill_ok.
  - iSplit; [iDestruct "HΦ" as "[HΦ _]"|iDestruct "HΦ" as "[_ HΦ]"].
    + iIntros (g'' ps'' f'' N'' H1 H2 H3) "Ht Hu Hk". iApply ("HΦ" with "[//] [//] [%] Ht Hu Hk"). lia.
    + iIntros (g'' ps'' N'' Hl) "Ht Hk". iApply ("HΦ" with "[%] Ht Hk"). simpl in *. lia.
Qed.
End spec.
