(* ===== verification/VmCopy.v ===== *)
(** * Copying between the kernel and user memory

    User memory as a function from virtual addresses to bytes, and the
    specifications of [walkaddr], [copyout] and [copyin] (kernel/vm.c) against
    it: they transfer the bytes up to the first page the user cannot access. *)
From S2P Require Import Prelude Mem CString Sep SepRun Kalloc Vm VmSpec VmUser.
From iris.proofmode Require Import proofmode.
From stdpp Require Import functions.

#[local] Open Scope Z_scope.

(** ** User memory *)

Definition uread (U : Z → Z) (a n : Z) : list Z := U <$> seqZ a n.
Definition uwrite (U : Z → Z) (a : Z) (bs : list Z) : Z → Z :=
  λ x, if decide (a ≤ x < a + Z.of_nat (length bs)) then bs !!! Z.to_nat (x - a) else U x.

Lemma length_uread U a n : 0 ≤ n → Z.of_nat (length (uread U a n)) = n.
Proof. intros Hn. unfold uread. rewrite length_fmap length_seqZ. lia. Qed.

Lemma uread_app U a n m : 0 ≤ n → 0 ≤ m → uread U a (n + m) = uread U a n ++ uread U (a + n) m.
Proof. intros Hn Hm. unfold uread. by rewrite -> seqZ_app, fmap_app by lia. Qed.

Lemma uread_ext U V a n : (∀ x, a ≤ x < a + n → U x = V x) → uread U a n = uread V a n.
Proof.
  intros H. unfold uread. apply list_fmap_ext. intros i x Hx. apply lookup_seqZ in Hx as [-> ?]. apply H. lia.
Qed.

(** What was written is read back. *)
Lemma uread_uwrite U a bs : uread (uwrite U a bs) a (Z.of_nat (length bs)) = bs.
Proof.
  apply list_eq. intros i. unfold uread. rewrite list_lookup_fmap.
  destruct (decide (i < length bs)%nat) as [Hi|Hi].
  - rewrite -> lookup_seqZ_lt by lia. simpl. unfold uwrite. rewrite decide_True; [|lia].
    replace (Z.to_nat (a + Z.of_nat i - a)) with i by lia. symmetry. by apply list_lookup_lookup_total_lt.
  - rewrite -> lookup_seqZ_ge by lia. simpl. symmetry. apply lookup_ge_None. lia.
Qed.

Lemma uread_uwrite_ne U a bs b n :
  b + n ≤ a ∨ a + Z.of_nat (length bs) ≤ b → uread (uwrite U a bs) b n = uread U b n.
Proof. intros Hd. apply uread_ext. intros x Hx. unfold uwrite. rewrite decide_False; [done|lia]. Qed.

Lemma uwrite_nil U a x : uwrite U a [] x = U x.
Proof. unfold uwrite. rewrite decide_False; [done|simpl; lia]. Qed.

(** Writing in two steps. *)
Lemma uwrite_app U a bs1 bs2 x :
  uwrite (uwrite U a bs1) (a + Z.of_nat (length bs1)) bs2 x = uwrite U a (bs1 ++ bs2) x.
Proof.
  unfold uwrite. rewrite length_app. case_decide; case_decide; try lia; try case_decide; try lia; try done.
  - rewrite lookup_total_app_r; [|lia]. f_equal. lia.
  - rewrite lookup_total_app_l; [done|lia].
Qed.

Lemma take_drop_len k (bs : list Z) :
  0 ≤ k ≤ Z.of_nat (length bs) → ∃ b1 b2, bs = b1 ++ b2 ∧ Z.of_nat (length b1) = k.
Proof.
  intros Hk. exists (take (Z.to_nat k) bs), (drop (Z.to_nat k) bs). rewrite take_drop length_take. split; [done|lia].
Qed.

Definition upg (U : Z → Z) (w : Z) : list Z := uread U (w * PGSIZE) PGSIZE.

Lemma upg_zero w : upg (λ _, 0) w = page_fill 0.
Proof.
  unfold upg, uread. rewrite page_fill_eq. rewrite (const_fmap _ _ 0); [|done]. by rewrite length_seqZ.
Qed.

Section spec.
Context {G : Type} `{HasKmem G, KernelImage}.
Implicit Types (f : Z → Z) (t va : Z) (g : G).

(** The first [n] pages of the process hold the bytes [U]. *)
Definition umem f U (n : nat) : hprop := upages f (upg U) 0 n.

(** Pages [walkaddr] lets the user access. *)
Definition accessible f (w : Z) : Prop :=
  w * PGSIZE < MAXVA ∧ Z.land (f w) PTE_V ≠ 0 ∧ Z.land (f w) PTE_U ≠ 0.

#[export] Instance accessible_dec f w : Decision (accessible f w).
Proof. unfold accessible. apply _. Defined.

Lemma upages_access f c v n w :
  v ≤ w < v + Z.of_nat n →
  upages f c v n ⊢ upage (f w) (c w) ∗ (∀ c', upage (f w) c' -∗ upages f (<[w := c']> c) v n).
Proof.
  revert v; induction n as [|n IH]; intros v Hw; [lia|]. simpl.
  iIntros "[Hp Hu]". destruct (decide (w = v)) as [->|Hne].
  - iFrame "Hp". iIntros (c') "Hp". rewrite fn_lookup_insert. iFrame "Hp".
    iApply (upages_ext with "Hu"). intros x Hx. rewrite fn_lookup_insert_ne; [done|lia].
  - iDestruct (IH with "Hu") as "[$ Hu]"; [lia|]. iIntros (c') "Hw". rewrite fn_lookup_insert_ne; [|done].
    iFrame "Hp". by iApply "Hu".
Qed.

(** ** walkaddr *)

Lemma wp_walkaddr t w f N ps (Φ : Z → G → hprop) g :
  0 ≤ w →
  pt 2 t f N -∗ kmem_inv g ps -∗
  (pt 2 t f N -∗ kmem_inv g ps -∗ Φ (if decide (accessible f w) then PTE2PA (f w) else 0) g) -∗
  wp (walkaddr t (w * PGSIZE)) Φ g.
Proof.
  iIntros (Hw) "Ht Hk HΦ". unfold walkaddr. destruct (Z.leb_spec MAXVA (w * PGSIZE)).
  { rewrite decide_False; [|unfold accessible; lia]. iApply wp_ret. iApply ("HΦ" with "Ht Hk"). }
  assert (PGSIZE = 4096) as Hpg by done.
  iApply wp_bind. iApply (wp_walk _ _ _ _ false with "Ht Hk"); [lia|]. rewrite -> Z.div_mul by lia. iSplit; last first.
  { iIntros (g' N' (Hz & -> & ->)) "Ht Hk". rewrite Z.eqb_refl decide_False; [|unfold accessible; rewrite Hz; naive_solver].
    iApply wp_ret. iApply ("HΦ" with "Ht Hk"). }
  iIntros (r g' ps' N' (Hr & HN & Hsame)) "Hr Hc Hk". destruct (Hsame eq_refl) as [-> ->]. replace N' with N by lia.
  destruct (Z.eqb_spec r 0); [done|]. iApply wp_bind. iApply (wp_load with "Hr"). iIntros "Hr".
  iSpecialize ("Hc" with "Hr"). iAssert (pt 2 t f N) with "[Hc]" as "Ht".
  { iApply (pt_ext with "Hc"). intros x _. destruct (decide (w = x)) as [->|]; [by rewrite fn_lookup_insert|by rewrite fn_lookup_insert_ne]. }
  iSpecialize ("HΦ" with "Ht Hk").
  destruct (Z.eqb_spec (Z.land (f w) PTE_V) 0).
  { rewrite decide_False; [|unfold accessible; naive_solver]. by iApply wp_ret. }
  destruct (Z.eqb_spec (Z.land (f w) PTE_U) 0).
  { rewrite decide_False; [|unfold accessible; naive_solver]. by iApply wp_ret. }
  rewrite decide_True; [|done]. by iApply wp_ret.
Qed.

(** ** One page *)

(** A page cut at [d] and [d + n]. *)
Lemma upg_cut U w d n :
  w * PGSIZE ≤ d → 0 ≤ n → d + n ≤ w * PGSIZE + PGSIZE →
  upg U w = uread U (w * PGSIZE) (d - w * PGSIZE) ++ uread U d n ++ uread U (d + n) (w * PGSIZE + PGSIZE - (d + n)).
Proof.
  intros H1 H2 H3. unfold upg.
  replace PGSIZE with (d - w * PGSIZE + (n + (w * PGSIZE + PGSIZE - (d + n)))) at 2 by lia.
  rewrite -> uread_app, uread_app by lia. by replace (w * PGSIZE + (d - w * PGSIZE)) with d by lia.
Qed.

Definition ubytes (U : Z → Z) : Prop := ∀ a, is_byte (U a).

Lemma ubytes_uread U a n : ubytes U → Forall is_byte (uread U a n).
Proof. intros HU. unfold uread. apply Forall_fmap, Forall_true. intros x. apply HU. Qed.

Lemma ubytes_uwrite U a bs : ubytes U → Forall is_byte bs → ubytes (uwrite U a bs).
Proof.
  intros HU Hb x. unfold uwrite. case_decide; [|apply HU].
  eapply Forall_lookup_1; [exact Hb|]. apply list_lookup_lookup_total_lt. lia.
Qed.

(** The bytes of a page, cut at [d] and [d + n], at their physical addresses. *)
Lemma bytes_upg_cut U w d n pa :
  w * PGSIZE ≤ d → 0 ≤ n → d + n ≤ w * PGSIZE + PGSIZE →
  bytes pa (upg U w) ⊣⊢
  bytes pa (uread U (w * PGSIZE) (d - w * PGSIZE)) ∗ bytes (pa + (d - w * PGSIZE)) (uread U d n) ∗
  bytes (pa + (d - w * PGSIZE) + n) (uread U (d + n) (w * PGSIZE + PGSIZE - (d + n))).
Proof.
  intros H1 H2 H3. rewrite -> (upg_cut U w d n) by done. rewrite bytes_app bytes_app.
  by rewrite -> !length_uread by lia.
Qed.

Lemma wp_page_write U w pa dst src bs (Φ : Z → G → hprop) g :
  w * PGSIZE ≤ dst → dst + Z.of_nat (length bs) ≤ w * PGSIZE + PGSIZE → Forall is_byte bs → ubytes U →
  bytes pa (upg U w) -∗ bytes src bs -∗
  (bytes pa (upg (uwrite U dst bs) w) -∗ bytes src bs -∗ Φ (pa + (dst - w * PGSIZE)) g) -∗
  wp (memmove (pa + (dst - w * PGSIZE)) src (Z.of_nat (length bs))) Φ g.
Proof.
  iIntros (H1 H2 Hb HU) "Hp Hs HΦ". assert (PGSIZE = 4096) as Hpg by done.
  iEval (rewrite (bytes_upg_cut U w dst (Z.of_nat (length bs)) pa H1 ltac:(lia) H2)) in "Hp".
  iDestruct "Hp" as "(Hp1 & Hp2 & Hp3)".
  iDestruct (bytes_anybytes with "Hp2") as "Hp2"; [by apply ubytes_uread|].
  rewrite -> length_uread by lia. iApply (wp_memmove with "Hs Hp2"); [done|lia|].
  iIntros "Hs Hp2". iApply ("HΦ" with "[Hp1 Hp2 Hp3] Hs").
  rewrite (bytes_upg_cut (uwrite U dst bs) w dst (Z.of_nat (length bs)) pa H1 ltac:(lia) H2).
  rewrite uread_uwrite. rewrite -> !uread_uwrite_ne by lia. iFrame.
Qed.

Lemma wp_page_read U w pa src dst n (Φ : Z → G → hprop) g :
  w * PGSIZE ≤ src → 0 ≤ n → src + n ≤ w * PGSIZE + PGSIZE → ubytes U →
  bytes pa (upg U w) -∗ anybytes dst n -∗
  (bytes pa (upg U w) -∗ bytes dst (uread U src n) -∗ Φ dst g) -∗
  wp (memmove dst (pa + (src - w * PGSIZE)) n) Φ g.
Proof.
  iIntros (H1 H2 H3 HU) "Hp Hd HΦ". assert (PGSIZE = 4096) as Hpg by done.
  iEval (rewrite (bytes_upg_cut U w src n pa H1 H2 H3)) in "Hp". iDestruct "Hp" as "(Hp1 & Hp2 & Hp3)".
  pose proof (wp_memmove dst (pa + (src - w * PGSIZE)) (uread U src n) Φ g) as Hwp.
  rewrite -> length_uread in Hwp by done.
  iApply (Hwp with "Hp2 Hd"); [by apply ubytes_uread|lia|]. iIntros "Hp2 Hd".
  iApply ("HΦ" with "[Hp1 Hp2 Hp3] Hd"). rewrite (bytes_upg_cut U w src n pa H1 H2 H3). iFrame.
Qed.

(** ** The loops *)

(** How far a copy of [len] bytes from [va] on gets: [m] bytes, up to the first
    page the user cannot access. *)
Definition reach f (va len m : Z) (r : Z) : Prop :=
  0 ≤ m ≤ len ∧ (∀ a, va ≤ a < va + m → accessible f (a / PGSIZE)) ∧
  (r = 0 ∧ m = len ∨ r = -1 ∧ m < len ∧ ¬ accessible f (u64 (va + m) / PGSIZE)).

Lemma chunk_len_range w va len :
  w * PGSIZE ≤ va < w * PGSIZE + PGSIZE → 0 < len →
  0 < chunk_len (w * PGSIZE) va len ≤ len ∧ va + chunk_len (w * PGSIZE) va len ≤ w * PGSIZE + PGSIZE ∧
  (chunk_len (w * PGSIZE) va len = len ∨ va + chunk_len (w * PGSIZE) va len = w * PGSIZE + PGSIZE).
Proof. intros Hva Hlen. unfold chunk_len. destruct (Z.ltb_spec len (PGSIZE - (va - w * PGSIZE))); lia. Qed.

(** One page further. *)
Lemma reach_step f w va len m r :
  let n := chunk_len (w * PGSIZE) va len in
  0 ≤ va → w = va / PGSIZE → 0 < len → accessible f w →
  reach f (w * PGSIZE + PGSIZE) (len - n) m r → reach f va len (n + m) r.
Proof.
  intros n Hva Hw Hlen Hacc. assert (PGSIZE = 4096) as Hpg by done.
  destruct (chunk_len_range w va len) as (H1 & H2 & H3); [rewrite Hw Hpg; dlia|done|]. fold n in H1, H2, H3.
  intros (Hm & Ha & Hr). split_and!; [lia|lia| |].
  - intros a Haa. destruct (decide (a < va + n)).
    + replace (a / PGSIZE) with w; [done|]. rewrite Hw Hpg. rewrite Hpg in H2. dlia.
    + destruct H3 as [?|H3]; [lia|]. apply Ha. lia.
  - destruct Hr as [Hr|(Hr1 & Hr2 & Hr3)]; [left; lia|]. right. split_and!; [done|lia|].
    destruct H3 as [?|H3]; [lia|]. by replace (va + (n + m)) with (w * PGSIZE + PGSIZE + m) by lia.
Qed.

Lemma umem_ext f U V n : (∀ a, U a = V a) → umem f U n ⊢ umem f V n.
Proof. intros HU. apply upages_ext. intros w _. split; [done|]. apply uread_ext. auto. Qed.

Lemma accessible_user f U w n :
  0 < kend → 0 ≤ w < Z.of_nat n → accessible f w →
  umem f U n ⊢ ∃ pa, ⌜PTE2PA (f w) = pa ∧ pa ≠ 0 ∧ Z.of_nat (length (upg U w)) = PGSIZE⌝ ∗ bytes pa (upg U w) ∗
    (∀ U', ⌜∀ a, a / PGSIZE ≠ w → U' a = U a⌝ -∗ ⌜ubytes U'⌝ -∗ bytes pa (upg U' w) -∗ umem f U' n).
Proof.
  iIntros (Hkend Hw Hacc) "Hu". unfold umem. assert (PGSIZE = 4096) as Hpg by done.
  iDestruct (upages_access _ _ _ _ w with "Hu") as "[(%pa & %fl & [%Hpte [%Hl %Hb]] & Hp) Hu]"; [lia|].
  pose proof Hpte as (Hx & Hok & Hfv & Hf1 & Hfr).
  assert (PTE2PA (f w) = pa) as Hpa.
  { rewrite Hx. apply PTE2PA_of; [apply Hok|by apply page_ok_range|done]. }
  iExists pa. iFrame "Hp". iSplit.
  { iPureIntro. split_and!; [done| |done]. destruct Hok. lia. }
  iIntros (U' HU' HbU') "Hp". iApply (upages_ext _ _ (<[w := upg U' w]> (upg U))).
  - intros x Hx'. split; [done|]. destruct (decide (w = x)) as [->|]; [by rewrite fn_lookup_insert|].
    rewrite fn_lookup_insert_ne; [|done]. apply uread_ext. intros a Ha. symmetry. apply HU'.
    rewrite Hpg. rewrite Hpg in Ha. dlia.
  - iApply "Hu". iExists pa, fl. iFrame "Hp". iPureIntro. split; [done|]. split; [by apply length_uread|].
    by apply ubytes_uread.
Qed.

Lemma reach_fail f va len : 0 ≤ va < 2 ^ 64 → 0 < len → ¬ accessible f (va / PGSIZE) → reach f va len 0 (-1).
Proof.
  intros Hva Hlen Hacc. split_and!; [lia|lia|intros; lia|]. right. split_and!; [done|done|].
  rewrite Z.add_0_r. by rewrite wrap_small.
Qed.

Lemma wp_copyout_loop t f N U n fuel dst src bs ps (Φ : Z → G → hprop) g :
  0 ≤ dst < 2 ^ 64 → (dst `mod` PGSIZE + Z.of_nat (length bs) + PGSIZE - 1) / PGSIZE < Z.of_nat fuel →
  Forall is_byte bs → ubytes U → (∀ w, accessible f w → w < Z.of_nat n) →
  pt 2 t f N -∗ umem f U n -∗ kmem_inv g ps -∗ bytes src bs -∗
  (∀ m r, ⌜reach f dst (Z.of_nat (length bs)) m r⌝ -∗
     pt 2 t f N -∗ umem f (uwrite U dst (take (Z.to_nat m) bs)) n -∗ kmem_inv g ps -∗ bytes src bs -∗ Φ r g) -∗
  wp (copyout_loop fuel t dst src (Z.of_nat (length bs))) Φ g.
Proof.
  assert (PGSIZE = 4096) as Hpg by done. assert (MAXVA = 2 ^ 38) as Hmax by done.
  revert U dst src bs. induction fuel as [|fuel IH]; intros U dst src bs Hdst Hfuel Hb HU Hn.
  { rewrite Hpg in Hfuel. dlia. }
  iIntros "Ht Hu Hk Hs HΦ". simpl copyout_loop. destruct (Z.eqb_spec (Z.of_nat (length bs)) 0) as [Hz|Hz].
  { iApply wp_ret. iApply ("HΦ" $! 0 0 with "[%] Ht [Hu] Hk Hs").
    - split_and!; [lia|lia|intros; lia|left; lia].
    - iApply (umem_ext with "Hu"). intros x. by rewrite uwrite_nil. }
  rewrite -> PGROUNDDOWN_spec by lia. set (w := dst / PGSIZE).
  iDestruct (kmem_inv_kend with "Hk") as %Hkend.
  assert (w * PGSIZE ≤ dst < w * PGSIZE + PGSIZE) as Hwd by (unfold w; rewrite Hpg; dlia).
  iApply wp_bind. iApply (wp_walkaddr with "Ht Hk"); [unfold w; apply Z.div_pos; lia|]. iIntros "Ht Hk".
  destruct (decide (accessible f w)) as [Hacc|Hacc]; last first.
  { rewrite Z.eqb_refl. iApply wp_ret. iApply ("HΦ" $! 0 (-1) with "[%] Ht [Hu] Hk Hs").
    - apply reach_fail; [done|lia|done].
    - iApply (umem_ext with "Hu"). intros x. by rewrite uwrite_nil. }
  iDestruct (accessible_user f U w n with "Hu") as (pa (Hpa & Hpa0 & _)) "[Hp Hu]";
    [done|split; [unfold w; apply Z.div_pos; lia|by apply Hn]|done|].
  rewrite Hpa. destruct (Z.eqb_spec pa 0); [done|].
  destruct (chunk_len_range w dst (Z.of_nat (length bs)) Hwd) as (H1 & H2 & H3); [lia|].
  set (k := chunk_len (w * PGSIZE) dst (Z.of_nat (length bs))) in *.
  destruct (take_drop_len k bs) as (b1 & b2 & -> & Hb1); [lia|]. rewrite -> length_app in *.
  apply Forall_app in Hb as [Hbb1 Hbb2]. iEval (rewrite bytes_app) in "Hs". iDestruct "Hs" as "[Hs1 Hs2]".
  pose proof (wp_page_write U w pa dst src b1) as Hwr. rewrite Hb1 in Hwr.
  iApply wp_bind. iApply (Hwr with "Hp Hs1"); [lia|lia|done|done|]. iIntros "Hp Hs1".
  iSpecialize ("Hu" $! (uwrite U dst b1) with "[%] [%] Hp"); [|by apply ubytes_uwrite|].
  { intros a Ha. unfold uwrite. rewrite decide_False; [done|]. intros ?. apply Ha. unfold w. rewrite Hpg. rewrite -> Hpg in *. dlia. }
  assert (w * PGSIZE < MAXVA) by apply Hacc. rewrite -> (wrap_small 64) by lia.
  replace (Z.of_nat (length b1 + length b2) - k) with (Z.of_nat (length b2)) by lia. rewrite -Hb1.
  iApply (IH with "Ht Hu Hk Hs2"); [lia| |done|by apply ubytes_uwrite|done|].
  { rewrite Hpg. rewrite -> Hpg in *. unfold w in *. dlia. }
  iIntros (m r Hr) "Ht Hu Hk Hs2". iApply ("HΦ" $! (k + m) r with "[%] Ht [Hu] Hk [Hs1 Hs2]"); last first.
  - rewrite bytes_app. iFrame.
  - iApply (umem_ext with "Hu"). intros x. destruct Hr as (Hm & _).
    rewrite -> Z2Nat.inj_add by lia. replace (Z.to_nat k) with (length b1) by lia.
    rewrite firstn_app_2. destruct H3 as [H3|H3].
    + assert (b2 = []) as -> by (destruct b2; [done|simpl in *; lia]).
      by rewrite take_nil app_nil_r uwrite_nil.
    + rewrite -H3 -Hb1. apply uwrite_app.
  - rewrite -length_app. apply (reach_step f w dst); [lia|done|rewrite length_app; lia|done|]. fold k.
    rewrite length_app. by replace (Z.of_nat (length b1 + length b2) - k) with (Z.of_nat (length b2)) by lia.
Qed.

Lemma wp_copyin_loop t f N U n fuel dst src len ps (Φ : Z → G → hprop) g :
  0 ≤ src < 2 ^ 64 → 0 ≤ len → (src `mod` PGSIZE + len + PGSIZE - 1) / PGSIZE < Z.of_nat fuel →
  ubytes U → (∀ w, accessible f w → w < Z.of_nat n) →
  pt 2 t f N -∗ umem f U n -∗ kmem_inv g ps -∗ anybytes dst len -∗
  (∀ m r, ⌜reach f src len m r⌝ -∗ pt 2 t f N -∗ umem f U n -∗ kmem_inv g ps -∗
     bytes dst (uread U src m) -∗ anybytes (dst + m) (len - m) -∗ Φ r g) -∗
  wp (copyin_loop fuel t dst src len) Φ g.
Proof.
  assert (PGSIZE = 4096) as Hpg by done. assert (MAXVA = 2 ^ 38) as Hmax by done.
  revert src dst len. induction fuel as [|fuel IH]; intros src dst len Hsrc Hlen Hfuel HU Hn.
  { rewrite Hpg in Hfuel. dlia. }
  iIntros "Ht Hu Hk Hd HΦ". simpl copyin_loop. destruct (Z.eqb_spec len 0) as [->|Hz].
  { iApply wp_ret. iApply ("HΦ" $! 0 0 with "[%] Ht Hu Hk [] [Hd]").
    - split_and!; [lia|lia|intros; lia|left; lia].
    - iApply bytes_nil.
    - by rewrite Z.add_0_r. }
  rewrite -> PGROUNDDOWN_spec by lia. set (w := src / PGSIZE).
  iDestruct (kmem_inv_kend with "Hk") as %Hkend.
  assert (w * PGSIZE ≤ src < w * PGSIZE + PGSIZE) as Hwd by (unfold w; rewrite Hpg; dlia).
  assert (0 ≤ w) as Hw0 by (unfold w; apply Z.div_pos; lia).
  iApply wp_bind. iApply (wp_walkaddr with "Ht Hk"); [done|]. iIntros "Ht Hk".
  destruct (decide (accessible f w)) as [Hacc|Hacc]; last first.
  { rewrite Z.eqb_refl. iApply wp_ret. iApply ("HΦ" $! 0 (-1) with "[%] Ht Hu Hk [] [Hd]").
    - apply reach_fail; [done|lia|done].
    - iApply bytes_nil.
    - by rewrite Z.add_0_r Z.sub_0_r. }
  iDestruct (accessible_user f U w n with "Hu") as (pa (Hpa & Hpa0 & _)) "[Hp Hu]"; [done|split; [done|by apply Hn]|done|].
  rewrite Hpa. destruct (Z.eqb_spec pa 0); [done|].
  destruct (chunk_len_range w src len Hwd) as (H1 & H2 & H3); [lia|].
  set (k := chunk_len (w * PGSIZE) src len) in *.
  iDestruct (anybytes_cut dst len k with "Hd") as "[Hd1 Hd2]"; [lia|].
  iApply wp_bind. iApply (wp_page_read with "Hp Hd1"); [lia|lia|lia|done|]. iIntros "Hp Hd1".
  iSpecialize ("Hu" $! U with "[//] [//] Hp").
  assert (w * PGSIZE < MAXVA) by apply Hacc. rewrite -> (wrap_small 64) by lia.
  iApply (IH with "Ht Hu Hk Hd2"); [lia|lia| |done|done|].
  { rewrite Hpg. rewrite -> Hpg in *. unfold w in *. dlia. }
  iIntros (m r Hr) "Ht Hu Hk Hb Hd2". pose proof Hr as (Hm & _).
  iApply ("HΦ" $! (k + m) r with "[%] Ht Hu Hk [Hd1 Hb] [Hd2]").
  - by apply (reach_step f w src); [lia|done|lia|done|].
  - rewrite -> uread_app, bytes_app, length_uread by lia. iFrame "Hd1".
    destruct H3 as [H3|H3]; [|by rewrite H3]. by replace m with 0 by lia.
  - by replace (dst + (k + m)) with (dst + k + m) by lia; replace (len - (k + m)) with (len - k - m) by lia.
Qed.

Lemma copy_fuel_enough va len :
  0 ≤ len → (va `mod` PGSIZE + len + PGSIZE - 1) / PGSIZE < Z.of_nat (copy_fuel len).
Proof. intros Hl. unfold copy_fuel, PGSIZE in *. dlia. Qed.

(** ** Strings *)

(** The string [l] at the user's address [a], terminator included. *)
Definition ustring f U (a : Z) (l : list Z) : Prop :=
  Forall (λ b, b ≠ 0) l ∧ uread U a (Z.of_nat (length l) + 1) = l ++ [0] ∧
  ∀ x, a ≤ x ≤ a + Z.of_nat (length l) → accessible f (x / PGSIZE).

Lemma wp_page_byte U w pa a (Φ : Z → G → hprop) g :
  w * PGSIZE ≤ a < w * PGSIZE + PGSIZE → ubytes U →
  bytes pa (upg U w) -∗ (bytes pa (upg U w) -∗ Φ (U a) g) -∗ wp (load 1 (pa + (a - w * PGSIZE))) Φ g.
Proof.
  iIntros (Ha HU) "Hp HΦ". pose proof (bytes_upg_cut U w a 1 pa ltac:(lia) ltac:(lia) ltac:(lia)) as Hcut.
  iEval (rewrite Hcut) in "Hp". iDestruct "Hp" as "(H1 & H2 & H3)". change (uread U a 1) with [U a].
  rewrite -> (byte_word _ (U a)) in Hcut by apply HU. iEval (rewrite (byte_word _ (U a) (HU a))) in "H2".
  iApply (wp_load with "H2"). iIntros "H2". iApply "HΦ". rewrite Hcut. iFrame.
Qed.

Lemma ustring_zero f U a l : ustring f U a l → U (a + Z.of_nat (length l)) = 0.
Proof.
  intros (_ & Hr & _). rewrite -> uread_app in Hr by lia. apply (app_inj_2 _ _ _ [0]) in Hr as [_ Hr]; [|done]. by injection Hr.
Qed.

Lemma ustring_drop f U a l (k : nat) : ustring f U a l → (k ≤ length l)%nat → ustring f U (a + Z.of_nat k) (drop k l).
Proof.
  intros (Hz & Hr & Ha) Hk. split_and!; [by apply Forall_drop| |].
  - replace (Z.of_nat (length l) + 1) with (Z.of_nat k + (Z.of_nat (length (drop k l)) + 1)) in Hr by (rewrite length_drop; lia).
    rewrite -> uread_app in Hr by lia. rewrite -{2}(take_drop k l) -app_assoc in Hr.
    apply app_inj_1 in Hr as [_ Hr]; [done|]. rewrite length_take_le; [|done]. apply Nat2Z.inj. rewrite length_uread; lia.
  - intros x Hx. apply Ha. rewrite length_drop in Hx. lia.
Qed.

Definition nonzero U (a n : Z) : Prop := ∀ x, a ≤ x < a + n → U x ≠ 0.
Definition ends_at U (a n m : Z) : Prop := 0 ≤ m < n ∧ nonzero U a m ∧ U (a + m) = 0.

(** The terminator comes after the bytes that are not zero. *)
Lemma ustring_past f U a l k : ustring f U a l → nonzero U a k → k ≤ Z.of_nat (length l).
Proof.
  intros Hs Hne. destruct (decide (k ≤ Z.of_nat (length l))); [done|].
  destruct (Hne (a + Z.of_nat (length l))); [lia|]. by apply (ustring_zero f).
Qed.

Lemma uread_end U a m : 0 ≤ m → U (a + m) = 0 → uread U a (m + 1) = uread U a m ++ [0].
Proof. intros Hm Hz. rewrite -> uread_app by lia. change (uread U (a + m) 1) with [U (a + m)]. by rewrite Hz. Qed.

Lemma uread_nonzero U a m : nonzero U a m → Forall (λ b, b ≠ 0) (uread U a m).
Proof.
  intros Hne. apply Forall_lookup. intros i b (x & -> & Hx)%list_lookup_fmap_Some. apply Hne.
  apply list_elem_of_lookup_2, elem_of_seqZ in Hx. lia.
Qed.

(** A string that ends in the page it starts in, and one that goes on. *)
Lemma ustring_page f U a k m :
  (∀ x, a ≤ x < a + k → accessible f (x / PGSIZE)) → 0 ≤ m < k → nonzero U a m → U (a + m) = 0 → ustring f U a (uread U a m).
Proof.
  intros Hacc Hm Hne Hz. unfold ustring. rewrite -> length_uread by lia. split_and!; [by apply uread_nonzero|apply uread_end; [lia|done]|].
  intros x Hx. apply Hacc. lia.
Qed.

Lemma ustring_app f U a k l :
  0 ≤ k → (∀ x, a ≤ x < a + k → accessible f (x / PGSIZE)) → nonzero U a k → ustring f U (a + k) l → ustring f U a (uread U a k ++ l).
Proof.
  intros Hk Hacc Hne (Hz & Hr & Ha). unfold ustring. rewrite length_app Nat2Z.inj_add. rewrite -> length_uread by lia. split_and!.
  - apply Forall_app. split; [by apply uread_nonzero|done].
  - rewrite -Z.add_assoc. rewrite -> uread_app by lia. by rewrite Hr app_assoc.
  - intros x Hx. destruct (decide (x < a + k)); [apply Hacc; lia|apply Ha; lia].
Qed.

Lemma wp_copyinstr_page U w pa n dst src (Φ : bool * Z → G → hprop) g :
  w * PGSIZE ≤ src → src + Z.of_nat n ≤ w * PGSIZE + PGSIZE → ubytes U →
  bytes pa (upg U w) -∗ anybytes dst (Z.of_nat n) -∗
  (∀ m, ⌜ends_at U src (Z.of_nat n) m⌝ -∗ bytes pa (upg U w) -∗
     bytes dst (uread U src (m + 1)) -∗ anybytes (dst + (m + 1)) (Z.of_nat n - (m + 1)) -∗ Φ (true, dst + m) g) ∧
  (⌜nonzero U src (Z.of_nat n)⌝ -∗ bytes pa (upg U w) -∗ bytes dst (uread U src (Z.of_nat n)) -∗
     Φ (false, dst + Z.of_nat n) g) -∗
  wp (copyinstr_page dst (pa + (src - w * PGSIZE)) n) Φ g.
Proof.
  revert dst src. induction n as [|n IH]; intros dst src; iIntros (H1 H2 HU) "Hp Hd HΦ"; cbn [copyinstr_page].
  { iApply wp_ret. iDestruct "HΦ" as "[_ HΦ]". iEval (rewrite Z.add_0_r) in "HΦ". iApply ("HΦ" with "[%] Hp"); [intros x Hx; lia|]. iApply bytes_nil. }
  iDestruct (anybytes_cut dst _ 1 with "Hd") as "[H1 Hd]"; [lia|]. replace (Z.of_nat (S n) - 1) with (Z.of_nat n) by lia.
  iEval (rewrite (anybytes_word 1)) in "H1". iDestruct "H1" as (v) "H1".
  iApply wp_bind. iApply (wp_page_byte with "Hp"); [lia|done|]. iIntros "Hp". destruct (Z.eqb_spec (U src) 0) as [Hz|Hnz].
  { iApply wp_bind. iApply (wp_store with "H1"); [done|]. iIntros "H1". iApply wp_ret. iDestruct "HΦ" as "[HΦ _]".
    iSpecialize ("HΦ" $! 0). iEval (rewrite !Z.add_0_r Z.add_0_l) in "HΦ". iApply ("HΦ" with "[%] Hp [H1] [Hd]").
    - split_and!; [lia|lia|intros x Hx; lia|by rewrite Z.add_0_r].
    - change (uread U src 1) with [U src]. rewrite Hz byte_word; done.
    - by replace (Z.of_nat (S n) - 1) with (Z.of_nat n) by lia. }
  iApply wp_bind. iApply (wp_page_byte with "Hp"); [lia|done|]. iIntros "Hp". iApply wp_bind. iApply (wp_store with "H1"); [apply HU|]. iIntros "H1".
  iEval (rewrite -(byte_word dst (U src) (HU src))) in "H1". replace (pa + (src - w * PGSIZE) + 1) with (pa + (src + 1 - w * PGSIZE)) by lia.
  assert (∀ m, 0 ≤ m → bytes dst [U src] ∗ bytes (dst + 1) (uread U (src + 1) m) ⊢ bytes dst (uread U src (m + 1))) as Hjoin.
  { intros m Hm. replace (m + 1) with (1 + m) by lia. rewrite -> uread_app by lia. rewrite bytes_app. done. }
  iApply (IH (dst + 1) (src + 1) with "Hp Hd"); [lia|lia|done|]. iSplit.
  - iIntros (m (Hm & Hne & Hz)) "Hp Hb Hd". iDestruct "HΦ" as "[HΦ _]". replace (dst + 1 + m) with (dst + (m + 1)) by lia.
    iApply ("HΦ" $! (m + 1) with "[%] Hp [H1 Hb] [Hd]").
    + split_and!; [lia|lia| |by replace (src + (m + 1)) with (src + 1 + m) by lia].
      intros x Hx. destruct (decide (x = src)) as [->|]; [done|]. apply Hne. lia.
    + iApply Hjoin; [lia|]. iFrame.
    + by replace (dst + (m + 1 + 1)) with (dst + 1 + (m + 1)) by lia; replace (Z.of_nat (S n) - (m + 1 + 1)) with (Z.of_nat n - (m + 1)) by lia.
  - iIntros (Hne) "Hp Hb". iDestruct "HΦ" as "[_ HΦ]". replace (dst + 1 + Z.of_nat n) with (dst + Z.of_nat (S n)) by lia.
    iApply ("HΦ" with "[%] Hp [H1 Hb]").
    + intros x Hx. destruct (decide (x = src)) as [->|]; [done|]. apply Hne. lia.
    + replace (Z.of_nat (S n)) with (Z.of_nat n + 1) by lia. iApply Hjoin; [lia|]. iFrame.
Qed.

Lemma wp_copyinstr_loop t f N U n fuel dst src max ps (Φ : Z → G → hprop) g :
  0 ≤ src < 2 ^ 64 → 0 ≤ max → (src `mod` PGSIZE + max + PGSIZE - 1) / PGSIZE < Z.of_nat fuel →
  ubytes U → (∀ w, accessible f w → w < Z.of_nat n) →
  pt 2 t f N -∗ umem f U n -∗ kmem_inv g ps -∗ anybytes dst max -∗
  (∀ l, ⌜ustring f U src l ∧ Z.of_nat (length l) < max⌝ -∗ pt 2 t f N -∗ umem f U n -∗ kmem_inv g ps -∗ bytes dst (l ++ [0]) -∗
     anybytes (dst + (Z.of_nat (length l) + 1)) (max - (Z.of_nat (length l) + 1)) -∗ Φ 0 g) ∧
  (⌜∀ l, ustring f U src l → max ≤ Z.of_nat (length l)⌝ -∗ pt 2 t f N -∗ umem f U n -∗ kmem_inv g ps -∗ anybytes dst max -∗ Φ (-1) g) -∗
  wp (copyinstr_loop fuel t dst src max) Φ g.
Proof.
  assert (PGSIZE = 4096) as Hpg by done. assert (MAXVA = 2 ^ 38) as Hmax by done.
  revert src dst max. induction fuel as [|fuel IH]; intros src dst max Hsrc Hlen Hfuel HU Hn.
  { rewrite Hpg in Hfuel. dlia. }
  iIntros "Ht Hu Hk Hd HΦ". cbn [copyinstr_loop]. destruct (Z.eqb_spec max 0) as [->|Hz].
  { iApply wp_ret. iDestruct "HΦ" as "[_ HΦ]". iApply ("HΦ" with "[%] Ht Hu Hk Hd"). intros; lia. }
  rewrite -> PGROUNDDOWN_spec by lia. set (w := src / PGSIZE).
  iDestruct (kmem_inv_kend with "Hk") as %Hkend.
  assert (w * PGSIZE ≤ src < w * PGSIZE + PGSIZE) as Hwd by (unfold w; rewrite Hpg; dlia).
  assert (0 ≤ w) as Hw0 by (unfold w; apply Z.div_pos; lia).
  iApply wp_bind. iApply (wp_walkaddr with "Ht Hk"); [done|]. iIntros "Ht Hk".
  destruct (decide (accessible f w)) as [Hacc|Hacc]; last first.
  { rewrite Z.eqb_refl. iApply wp_ret. iDestruct "HΦ" as "[_ HΦ]". iApply ("HΦ" with "[%] Ht Hu Hk Hd").
    intros l (_ & _ & Ha). destruct Hacc. apply (Ha src). lia. }
  iDestruct (accessible_user f U w n with "Hu") as (pa (Hpa & Hpa0 & _)) "[Hp Hu]"; [done|split; [done|by apply Hn]|done|].
  rewrite Hpa. destruct (Z.eqb_spec pa 0); [done|].
  destruct (chunk_len_range w src max Hwd) as (H1 & H2 & H3); [lia|].
  set (k := chunk_len (w * PGSIZE) src max) in *.
  assert (∀ x, src ≤ x < src + k → accessible f (x / PGSIZE)) as Hin.
  { intros x Hx. replace (x / PGSIZE) with w; [done|]. unfold w. rewrite -> Hpg in *. dlia. }
  iDestruct (anybytes_cut dst max k with "Hd") as "[Hd1 Hd2]"; [lia|].
  pose proof (wp_copyinstr_page U w pa (Z.to_nat k) dst src) as Hpage. rewrite -> Z2Nat.id in Hpage by lia.
  iApply wp_bind. iApply (Hpage with "Hp Hd1"); [lia|lia|done|]. iSplit.
  - iIntros (m (Hm & Hne & Hzm)) "Hp Hb Hd". iSpecialize ("Hu" $! U with "[//] [//] Hp"). iApply wp_ret. iDestruct "HΦ" as "[HΦ _]".
    iApply ("HΦ" $! (uread U src m) with "[%] Ht Hu Hk [Hb] [Hd Hd2]"); rewrite -> ?length_uread by lia.
    + split; [|lia]. by apply (ustring_page f U src k m).
    + by rewrite -> (uread_end U src m) by (done || lia).
    + iDestruct (anybytes_join (dst + (m + 1)) (k - (m + 1)) (max - k) with "Hd [Hd2]") as "H"; [lia|lia| |].
      * by replace (dst + (m + 1) + (k - (m + 1))) with (dst + k) by lia.
      * by replace (k - (m + 1) + (max - k)) with (max - (m + 1)) by lia.
  - iIntros (Hne) "Hp Hb". iSpecialize ("Hu" $! U with "[//] [//] Hp"). assert (w * PGSIZE < MAXVA) by apply Hacc.
    rewrite -> (wrap_small 64) by lia.
    iApply (IH with "Ht Hu Hk Hd2"); [lia|lia| |done|done|].
    { rewrite Hpg. rewrite -> Hpg in *. unfold w in *. dlia. }
    iSplit.
    + iIntros (l [Hl Hll]) "Ht Hu Hk Hb2 Hd". iDestruct "HΦ" as "[HΦ _]". destruct H3 as [H3|H3]; [lia|]. rewrite -H3 in Hl.
      assert (Z.of_nat (length (uread U src k ++ l)) = k + Z.of_nat (length l)) as Hlen' by (rewrite length_app Nat2Z.inj_add length_uread; lia).
      iApply ("HΦ" $! (uread U src k ++ l) with "[%] Ht Hu Hk [Hb Hb2] [Hd]").
      * split; [by apply ustring_app; [lia|..]|lia].
      * iEval (rewrite -app_assoc (bytes_app dst (uread U src k)) (length_uread U src k ltac:(lia))). iFrame "Hb Hb2".
      * rewrite Hlen'. replace (dst + (k + Z.of_nat (length l) + 1)) with (dst + k + (Z.of_nat (length l) + 1)) by lia.
        by replace (max - (k + Z.of_nat (length l) + 1)) with (max - k - (Z.of_nat (length l) + 1)) by lia.
    + iIntros (Hno) "Ht Hu Hk Hd2". iDestruct "HΦ" as "[_ HΦ]". iApply ("HΦ" with "[%] Ht Hu Hk [Hb Hd2]").
      * intros l Hl. pose proof (ustring_past _ _ _ _ _ Hl Hne) as Hkl. destruct H3 as [H3|H3]; [lia|].
        apply (ustring_drop _ _ _ _ (Z.to_nat k)) in Hl; [|lia]. rewrite -> Z2Nat.id, H3 in Hl by lia. apply Hno in Hl. rewrite length_drop in Hl. lia.
      * iDestruct (bytes_anybytes with "Hb") as "Hb"; [by apply ubytes_uread|]. rewrite -> length_uread by lia.
        iDestruct (anybytes_join with "Hb Hd2") as "H"; [lia|lia|]. by replace (k + (max - k)) with max by lia.
Qed.
End spec.
