(* ===== verification/VmTheorems.v ===== *)
(** * What the virtual memory code guarantees

    The specifications of [VmUser] and [VmCopy] as statements about runs:
    a process' memory beside the rest of the machine's. *)
From S2P Require Import Prelude Mem CString Sep SepRun Kalloc Vm VmSpec VmUser VmCopy.
From iris.proofmode Require Import proofmode.
From stdpp Require Import functions.

#[local] Open Scope Z_scope.

#[local] Typeclasses Opaque pt umem kmem_inv.

Section runs.
Context {G : Type} `{HasKmem G, KernelImage}.
Implicit Types (s : st G) (u : bytemap) (f : Z → Z) (U : Z → Z).

(** The state [s] has the page table [t] made of [N] pages, mapping pages as [f]
    does, user memory [U] of [n] pages, free pages [ps], and beside them the
    memory [u]. *)
Definition pstate s u (t : Z) f (N : nat) U (n : nat) (ps : list Z) : Prop :=
  ubytes U ∧ sat (pt 2 t f N ∗ umem f U n ∗ kmem_inv (glob s) ps)%I (mem s) u.

(** User memory below [sz], zero above. *)
Definition uzero U (sz : Z) : Z → Z := λ a, if decide (a < sz) then U a else 0.

Lemma umem_grow f U n k :
  umem f U n -∗ upages f (λ _, page_fill 0) (Z.of_nat n) k -∗ umem f (uzero U (Z.of_nat n * PGSIZE)) (n + k).
Proof.
  assert (PGSIZE = 4096) as Hpg by done.
  iIntros "Hu Hz". unfold umem. rewrite upages_app Z.add_0_l. iSplitL "Hu".
  - iApply (upages_ext with "Hu"). intros w Hw. split; [done|]. apply uread_ext. intros x Hx.
    unfold uzero. rewrite decide_True; [done|nia].
  - iApply (upages_ext with "Hz"). intros w Hw. split; [done|]. rewrite -(upg_zero w). apply uread_ext. intros x Hx.
    unfold uzero. rewrite decide_False; [done|nia].
Qed.

Lemma pages_between_up sz newsz n :
  0 ≤ sz → PGROUNDUP sz = Z.of_nat n * PGSIZE → sz ≤ newsz < 2 ^ 62 →
  pages_between (Z.of_nat n * PGSIZE) newsz = (Z.to_nat (PGROUNDUP newsz / PGSIZE) - n)%nat ∧
  (n ≤ Z.to_nat (PGROUNDUP newsz / PGSIZE))%nat.
Proof.
  intros Hsz Hn Hnew. destruct (PGROUNDUP_spec sz) as [H1 H2]; [lia|].
  destruct (PGROUNDUP_spec newsz) as [H3 H4]; [lia|]. rewrite Hn in H1, H2. unfold pages_between, PGSIZE in *. dlia.
Qed.

Lemma uvmalloc_run s u t f N U n ps sz newsz xperm :
  let n' := Z.to_nat (PGROUNDUP newsz / PGSIZE) in
  pstate s u t f N U n ps → 0 ≤ xperm < 1024 →
  0 ≤ sz ≤ newsz → PGROUNDUP sz = Z.of_nat n * PGSIZE → PGROUNDUP newsz ≤ MAXVA →
  newsz < 2 ^ 62 →
  (∀ w, Z.of_nat n ≤ w < Z.of_nat n' → f w = 0) →
  ∃ r s', uvmalloc t sz newsz xperm s = Ok r s' ∧
    ((r = newsz ∧ ∃ f' N' ps', pstate s' u t f' N' (uzero U (Z.of_nat n * PGSIZE)) n' ps' ∧
       (length ps + N = length ps' + N' + (n' - n) ∧ N' ≤ N + 2 * (n' - n))%nat ∧
       (∀ w, ¬ (Z.of_nat n ≤ w < Z.of_nat n') → f' w = f w) ∧
       (∀ w, Z.of_nat n ≤ w < Z.of_nat n' → PTE_FLAGS (f' w) = uflags xperm)) ∨
     (r = 0 ∧ ∃ N' ps', pstate s' u t f N' U n ps' ∧ (length ps + N = length ps' + N' ∧ length ps < 3 * (n' - n))%nat)).
Proof.
  intros n' [HU Hs] Hx Hsz Hn Hmax Hlt Hf.
  destruct (pages_between_up sz newsz n) as [Hpb Hnn]; [lia|done|lia|]. fold n' in Hpb, Hnn.
  assert (PGSIZE = 4096) as Hpg by done.
  assert (Z.of_nat n' * PGSIZE = PGROUNDUP newsz) as Hn'.
  { destruct (PGROUNDUP_spec newsz) as [H3 H4]; [lia|]. unfold n'. rewrite -> Hpg in *. dlia. }
  destruct (sat_run (uvmalloc t sz newsz xperm) (λ r g',
    (∃ f' N' ps', ⌜r = newsz ∧ (length ps + N = length ps' + N' + (n' - n) ∧ N' ≤ N + 2 * (n' - n))%nat ∧ (∀ w, ¬ (Z.of_nat n ≤ w < Z.of_nat n') → f' w = f w) ∧
        (∀ w, Z.of_nat n ≤ w < Z.of_nat n' → PTE_FLAGS (f' w) = uflags xperm)⌝ ∗
        (pt 2 t f' N' ∗ umem f' (uzero U (Z.of_nat n * PGSIZE)) n' ∗ kmem_inv g' ps')) ∨
    (∃ N' ps', ⌜r = 0 ∧ (length ps + N = length ps' + N' ∧ length ps < 3 * (n' - n))%nat⌝ ∗ (pt 2 t f N' ∗ umem f U n ∗ kmem_inv g' ps')))%I _ s u (λ _ _, I) Hs)
    as (r & s' & Hrun & Hsat).
  - iIntros "(Ht & Hu & Hk)". unfold uvmalloc. destruct (Z.ltb_spec newsz sz); [lia|].
    rewrite Hn Hpb. pose proof (wp_uvmalloc_loop t (Z.of_nat n) (Z.of_nat n') 0 (n' - n) f f) as Hwp.
    rewrite Z.add_0_r in Hwp. iApply (Hwp with "Ht [] Hk"); [lia|lia|done|lia| | | |done|].
    { intros w Hw. apply Hf. lia. } { done. } { intros; lia. }
    simpl. replace (Z.of_nat n + Z.of_nat (n' - n)) with (Z.of_nat n') by lia. iSplit.
    + iIntros (g' ps' f' N' Ho Hi Hc) "Ht Hz Hk". iLeft. iExists f', N', ps'. iSplit; [iPureIntro; split_and!; [done|lia|lia|done|done]|]. iFrame.
      replace n' with (n + (n' - n))%nat at 2 by lia. iApply (umem_grow with "[Hu] Hz").
      iApply (upages_ext with "Hu"). intros w Hw. split; [|done]. symmetry. apply Ho. lia.
    + iIntros (g' ps' N' Hl) "Ht Hk". iRight. iExists N', ps'. iFrame. iPureIntro. lia.
  - exists r, s'. split; [done|]. apply sat_or in Hsat as [Hsat|Hsat].
    + apply sat_exist in Hsat as [f' [N' [ps' [(-> & Hc & Ho & Hi) Hsat]%sat_pure]%sat_exist]%sat_exist].
      left. split; [done|]. exists f', N', ps'. split; [split; [|done]|done].
      intros a. unfold uzero. case_decide; [apply HU|done].
    + apply sat_exist in Hsat as [N' [ps' [[-> Hl] Hsat]%sat_pure]%sat_exist]. right. split; [done|]. exists N', ps'. split; [split; [done|exact Hsat]|done].
Qed.

Lemma copyout_run s u t f N U n ps dst src bs :
  pstate s (seqmap src bs ∪ u) t f N U n ps → seqmap src bs ##ₘ u → Forall is_byte bs →
  0 ≤ dst < 2 ^ 64 → (∀ w, accessible f w → w < Z.of_nat n) →
  ∃ m r s', copyout t dst src (Z.of_nat (length bs)) s = Ok r s' ∧
    reach f dst (Z.of_nat (length bs)) m r ∧
    pstate s' (seqmap src bs ∪ u) t f N (uwrite U dst (take (Z.to_nat m) bs)) n ps.
Proof.
  intros [HU Hs] Hd Hb Hdst Hn. apply (bytes_sat _ src bs) in Hs; [|done].
  destruct (sat_run (copyout t dst src (Z.of_nat (length bs))) (λ r g', ∃ m, ⌜reach f dst (Z.of_nat (length bs)) m r⌝ ∗
    ((pt 2 t f N ∗ umem f (uwrite U dst (take (Z.to_nat m) bs)) n ∗ kmem_inv g' ps) ∗ bytes src bs))%I _ s u (λ _ _, I) Hs)
    as (r & s' & Hrun & Hsat).
  - iIntros "[(Ht & Hu & Hk) Hs]". unfold copyout.
    iApply (wp_copyout_loop with "Ht Hu Hk Hs"); [done|apply copy_fuel_enough; lia|done|done|done|].
    iIntros (m r Hr) "Ht Hu Hk Hs". iExists m. iSplit; [done|]. iSplitR "Hs"; [|iExact "Hs"].
    iSplitL "Ht"; [iExact "Ht"|]. iSplitL "Hu"; [iExact "Hu"|iExact "Hk"].
  - apply sat_exist in Hsat as [m [Hr [_ Hsat]%sat_bytes]%sat_pure]. exists m, r, s'. split; [done|]. split; [done|].
    split; [|done]. apply ubytes_uwrite; [done|by apply Forall_take].
Qed.

Lemma copyin_run s u t f N U n ps dst src len blk :
  pstate s (blk ∪ u) t f N U n ps → blk ##ₘ u → is_block dst len blk → 0 ≤ len →
  0 ≤ src < 2 ^ 64 → (∀ w, accessible f w → w < Z.of_nat n) →
  ∃ m r s' rest, copyin t dst src len s = Ok r s' ∧ reach f src len m r ∧
    is_block (dst + m) (len - m) rest ∧
    pstate s' (seqmap dst (uread U src m) ∪ (rest ∪ u)) t f N U n ps.
Proof.
  intros [HU Hs] Hd Hb Hlen Hsrc Hn. apply (anybytes_sat _ dst len) in Hs; [|done|done].
  destruct (sat_run (copyin t dst src len) (λ r g', ∃ m, ⌜reach f src len m r⌝ ∗
    (((pt 2 t f N ∗ umem f U n ∗ kmem_inv g' ps) ∗ bytes dst (uread U src m)) ∗ anybytes (dst + m) (len - m)))%I
    _ s u (λ _ _, I) Hs) as (r & s' & Hrun & Hsat).
  - iIntros "[(Ht & Hu & Hk) Hd]". unfold copyin.
    iApply (wp_copyin_loop with "Ht Hu Hk Hd"); [done|done|apply copy_fuel_enough; lia|done|done|].
    iIntros (m r Hr) "Ht Hu Hk Hb Hd". iExists m. iSplit; [done|]. iSplitR "Hd"; [|iExact "Hd"].
    iSplitR "Hb"; [|iExact "Hb"]. iSplitL "Ht"; [iExact "Ht"|]. iSplitL "Hu"; [iExact "Hu"|iExact "Hk"].
  - apply sat_exist in Hsat as [m [Hr (rest & Hrest & _ & [_ Hsat]%sat_bytes)%sat_anybytes]%sat_pure].
    exists m, r, s', rest. done.
Qed.

(** A fresh page table is an empty process. *)
Lemma uvmcreate_run s u p ps :
  kvalid s u (p :: ps) →
  ∃ s', uvmcreate s = Ok p s' ∧ ∀ U, ubytes U → pstate s' u p (λ _, 0) 1 U 0 ps.
Proof.
  intros Hs. destruct (sat_run uvmcreate (λ r g', ⌜r = p⌝ ∗ (pt 2 p (λ _, 0) 1 ∗ kmem_inv g' ps))%I _ s u (λ _ _, I) Hs)
    as (r & s' & Hrun & [-> Hsat]%sat_pure).
  - iIntros "Hk". unfold uvmcreate. iApply wp_bind. iApply (wp_kalloc (p :: ps) with "Hk").
    iIntros ([Hok Hp]) "Hb %next Hk". destruct (Z.eqb_spec p 0); [done|].
    iEval (rewrite (page_junk p 5 ltac:(done))) in "Hb".
    iApply wp_bind. iApply (wp_memset_page with "Hb"). iIntros "Hb". iApply wp_ret.
    iSplit; [done|]. iFrame "Hk". by iApply zero_table.
  - exists s'. split; [done|]. intros U HU. split; [done|]. eapply sat_mono; [|exact Hsat].
    iIntros "[Ht Hk]". iFrame "Hk". iSplitL "Ht"; [iExact "Ht"|]. unfold umem. simpl. done.
Qed.

(** ** Theorems *)

(** C16: [uvmalloc] either grows the process to [newsz] with zeroed pages
    carrying the flags asked for, leaving the memory it had and every other
    mapping as they were, or returns 0 with the page table and the memory of
    the process restored, which happens only when fewer than three pages are
    free for each page asked for.  No page is lost: what leaves the free list
    becomes a user page or a table. *)
Theorem uvmalloc_correct s u t f N U n ps sz newsz xperm :
  let n' := Z.to_nat (PGROUNDUP newsz / PGSIZE) in
  pstate s u t f N U n ps → 0 ≤ xperm < 1024 →
  0 ≤ sz ≤ newsz → PGROUNDUP sz = Z.of_nat n * PGSIZE → PGROUNDUP newsz ≤ MAXVA →
  newsz < 2 ^ 62 →
  (∀ w, Z.of_nat n ≤ w < Z.of_nat n' → f w = 0) →
  ∃ r s', uvmalloc t sz newsz xperm s = Ok r s' ∧
    ((r = newsz ∧ ∃ f' N' ps', pstate s' u t f' N' (uzero U (Z.of_nat n * PGSIZE)) n' ps' ∧
       (length ps + N = length ps' + N' + (n' - n) ∧ N' ≤ N + 2 * (n' - n))%nat ∧
       (∀ w, ¬ (Z.of_nat n ≤ w < Z.of_nat n') → f' w = f w) ∧
       (∀ w, Z.of_nat n ≤ w < Z.of_nat n' → PTE_FLAGS (f' w) = uflags xperm)) ∨
     (r = 0 ∧ ∃ N' ps', pstate s' u t f N' U n ps' ∧ (length ps + N = length ps' + N' ∧ length ps < 3 * (n' - n))%nat)).
Proof. apply uvmalloc_run. Qed.

(** C13: [copyout] writes the kernel's bytes at the user's virtual addresses, all
    of them or those below the first page the user cannot access, and tells
    which by its result; nothing else in the machine changes. *)
Theorem copyout_correct s u t f N U n ps dst src bs :
  pstate s (seqmap src bs ∪ u) t f N U n ps → seqmap src bs ##ₘ u → Forall is_byte bs →
  0 ≤ dst < 2 ^ 64 → (∀ w, accessible f w → w < Z.of_nat n) →
  ∃ m r s', copyout t dst src (Z.of_nat (length bs)) s = Ok r s' ∧
    reach f dst (Z.of_nat (length bs)) m r ∧
    pstate s' (seqmap src bs ∪ u) t f N (uwrite U dst (take (Z.to_nat m) bs)) n ps.
Proof. apply copyout_run. Qed.

(** What [copyout] put into user memory, [copyin] brings back: after a
    [copyout] that succeeds, [copyin] of the same range succeeds and leaves
    exactly those bytes in the kernel's buffer. *)
Theorem copy_roundtrip s u t f N U n ps va src bs dst blk s1 :
  pstate s (seqmap src bs ∪ (blk ∪ u)) t f N U n ps → seqmap src bs ##ₘ blk ∪ u → blk ##ₘ seqmap src bs ∪ u →
  is_block dst (Z.of_nat (length bs)) blk → Forall is_byte bs →
  0 ≤ va < 2 ^ 64 → (∀ w, accessible f w → w < Z.of_nat n) →
  copyout t va src (Z.of_nat (length bs)) s = Ok 0 s1 →
  ∃ s2, copyin t dst va (Z.of_nat (length bs)) s1 = Ok 0 s2 ∧
    pstate s2 (seqmap dst bs ∪ (seqmap src bs ∪ u)) t f N (uwrite U va bs) n ps.
Proof.
  intros Hs Hd1 Hd2 Hblk Hb Hva Hn Hout.
  destruct (copyout_run _ _ _ _ _ _ _ _ va src bs Hs Hd1 Hb Hva Hn) as (m & r & s' & Hrun & Hr & Hs').
  rewrite Hout in Hrun. injection Hrun as <- <-. destruct Hr as (Hm & Hacc & [[_ ->]|[? _]]); [|done].
  rewrite -> Nat2Z.id, firstn_all in Hs'.
  rewrite (assoc_L (∪)) (map_union_comm (seqmap src bs)) in Hs'; [|by apply map_disjoint_union_r in Hd1 as [? _]].
  rewrite -(assoc_L (∪)) in Hs'.
  destruct (copyin_run _ _ _ _ _ _ _ _ dst va _ blk Hs' Hd2 Hblk ltac:(lia) Hva Hn)
    as (m & r & s2 & rest & Hrun & (Hm' & _ & Hcase) & Hrest & Hs2).
  destruct Hcase as [[-> ->]|(_ & Hlt & Hna)].
  - exists s2. split; [done|]. rewrite uread_uwrite in Hs2. destruct Hrest as (l & -> & Hl & _).
    destruct l; [|simpl in Hl; lia]. by rewrite (left_id_L ∅ (∪)) in Hs2.
  - destruct Hna. pose proof (Hacc (va + m) ltac:(lia)) as Ha. rewrite wrap_small; [done|].
    destruct Ha as [Ha _]. assert (PGSIZE = 4096) as Hpg by done. assert (MAXVA = 2 ^ 38) as Hmx by done.
    rewrite -> Hpg, Hmx in Ha. dlia.
Qed.
End runs.

Module VmWitness.
#[export] Instance kmem1 : HasKmem kmem := KallocWitness.kmem_self.

(** A kernel with five free pages. *)
#[export] Instance kend1 : KernelImage := PHYSTOP - 20488.

Definition ram1 : bytemap := seqmap (PHYSTOP - 20480) (replicate (Z.to_nat 20480) 0).
Definition root1 : Z := PHYSTOP - 4096.
Definition free1 : list Z := [PHYSTOP - 8192; PHYSTOP - 12288; PHYSTOP - 16384; PHYSTOP - 20480].

Lemma pages1 :
  reverse (pages_from (PGROUNDUP kend) (Z.to_nat ((PHYSTOP - PGROUNDUP kend) / PGSIZE))) = root1 :: free1.
Proof. vm_compute. reflexivity. Qed.

Lemma zero_ubytes : ubytes (λ _, 0).
Proof. intros a. done. Qed.

Lemma ram1_block :
  is_block (PGROUNDUP kend) (Z.of_nat (Z.to_nat ((PHYSTOP - PGROUNDUP kend) / PGSIZE)) * PGSIZE) ram1.
Proof.
  assert (PGROUNDUP kend = PHYSTOP - 20480) as -> by (vm_compute; reflexivity).
  assert (Z.of_nat (Z.to_nat ((PHYSTOP - (PHYSTOP - 20480)) / PGSIZE)) * PGSIZE = Z.of_nat (Z.to_nat 20480)) as ->
    by (vm_compute; reflexivity).
  apply is_block_replicate. split; lia.
Qed.

Lemma kend1_range : 0 < kend < PHYSTOP.
Proof. split; vm_compute; reflexivity. Qed.

(** Kernel buffers below RAM. *)
Lemma ram1_buffer p bs : p + Z.of_nat (length bs) ≤ PHYSTOP - 20480 → ram1 ##ₘ seqmap p bs.
Proof. intros Hp. unfold ram1. apply seqmap_disjoint. right. exact Hp. Qed.

#[local] Opaque ram1.

(** The state after boot and [uvmcreate], beside any other memory. *)
Lemma process1 u : ram1 ##ₘ u → ∃ s, pstate s u root1 (λ _, 0) 1 (λ _, 0) 0 free1.
Proof.
  intros Hd.
  destruct (kinit_run (mkst (ram1 ∪ u) (mkkmem false 0)) u ram1) as (s & _ & Hs);
    [exact kend1_range|reflexivity|reflexivity|exact Hd|exact ram1_block|].
  rewrite pages1 in Hs. destruct (uvmcreate_run _ _ _ _ Hs) as (s' & _ & Hs'). exists s'. apply Hs', zero_ubytes.
Qed.

Lemma uvmalloc_correct_witness :
  ∃ s r s', uvmalloc root1 0 4096 PTE_W s = Ok r s' ∧ r = 4096.
Proof.
  destruct (process1 ∅ (map_disjoint_empty_r _)) as [s Hs]. exists s.
  destruct (uvmalloc_correct s ∅ root1 (λ _, 0) 1 (λ _, 0) 0 free1 0 4096 PTE_W Hs) as (r & s' & Hrun & Hcase).
  1-6: done.
  exists r, s'. split; [exact Hrun|]. destruct Hcase as [[Hr _]|[_ (N' & ps' & _ & _ & Hl)]]; [exact Hr|].
  exfalso. vm_compute in Hl. lia.
Defined.

Definition hello : list Z := [104; 105; 0].

(** A process with one page, and a kernel buffer holding [hello]. *)
Lemma process2 u :
  ram1 ##ₘ u →
  ∃ s f N ps, pstate s u root1 f N (uzero (λ _, 0) 0) 1 ps ∧ (∀ w, accessible f w ↔ w = 0).
Proof.
  intros Hd. destruct (process1 u Hd) as [s Hs]. clear Hd.
  destruct (uvmalloc_run s u root1 (λ _, 0) 1 (λ _, 0) 0 free1 0 4096 PTE_W Hs) as (r & s' & Hrun & Hcase).
  1-6: done.
  destruct Hcase as [(_ & f' & N' & ps' & Hs' & _ & Hout & Hin)|[_ (N' & ps' & _ & _ & Hl)]]; [|exfalso; vm_compute in Hl; lia].
  exists s', f', N', ps'. split; [exact Hs'|]. intros w. change (Z.to_nat (PGROUNDUP 4096 / PGSIZE)) with 1%nat in *.
  split.
  - intros (_ & Hv & _). destruct (decide (0 ≤ w < 1)); [lia|]. rewrite -> Hout in Hv by lia. done.
  - intros ->. specialize (Hin 0 ltac:(lia)). unfold PTE_FLAGS in Hin. split; [done|].
    split.
    + intros Hz. assert (Z.land (Z.land (f' 0) 1023) PTE_V = 0) as Hz'; [|by rewrite Hin in Hz'].
      rewrite -Z.land_assoc (Z.land_comm 1023) Z.land_assoc Hz. done.
    + intros Hz. assert (Z.land (Z.land (f' 0) 1023) PTE_U = 0) as Hz'; [|by rewrite Hin in Hz'].
      rewrite -Z.land_assoc (Z.land_comm 1023) Z.land_assoc Hz. done.
Qed.

Lemma copyout_correct_witness :
  ∃ s r s' f N ps, copyout root1 10 4096 3 s = Ok r s' ∧ r = 0 ∧
    pstate s' (seqmap 4096 hello ∪ ∅) root1 f N (uwrite (uzero (λ _, 0) 0) 10 hello) 1 ps.
Proof.
  destruct (process2 (seqmap 4096 hello ∪ ∅)) as (s & f & N & ps & Hs & Hf).
  { rewrite (right_id_L ∅ (∪)). apply ram1_buffer. vm_compute. discriminate. }
  exists s. destruct (copyout_correct s ∅ root1 f N (uzero (λ _, 0) 0) 1 ps 10 4096 hello Hs)
    as (m & r & s' & Hrun & Hr & Hs').
  - apply map_disjoint_empty_r.
  - repeat constructor; lia.
  - lia.
  - intros w ->%Hf. lia.
  - exists r, s', f, N, ps. split; [exact Hrun|]. destruct Hr as (Hm & _ & [[-> ->]|(_ & Hlt & Hna)]).
    + split; [reflexivity|exact Hs'].
    + destruct Hna. apply Hf. simpl in Hlt. unfold PGSIZE. rewrite wrap_small; [dlia|lia].
Defined.

Lemma copy_roundtrip_witness :
  ∃ s s1 s2 f N ps, copyout root1 10 4096 3 s = Ok 0 s1 ∧ copyin root1 8192 10 3 s1 = Ok 0 s2 ∧
    pstate s2 (seqmap 8192 hello ∪ (seqmap 4096 hello ∪ ∅)) root1 f N (uwrite (uzero (λ _, 0) 0) 10 hello) 1 ps.
Proof.
  assert (seqmap 4096 hello ##ₘ seqmap 8192 (replicate 3 0)) as Hd by (apply seqmap_disjoint; simpl; lia).
  destruct (process2 (seqmap 4096 hello ∪ (seqmap 8192 (replicate 3 0) ∪ ∅))) as (s & f & N & ps & Hs & Hf).
  { rewrite (right_id_L ∅ (∪)). apply map_disjoint_union_r. split; apply ram1_buffer; vm_compute; discriminate. }
  exists s.
  destruct (copyout_run s (seqmap 8192 (replicate 3 0) ∪ ∅) root1 f N (uzero (λ _, 0) 0) 1 ps 10 4096 hello Hs)
    as (m & r & s1 & Hrun & Hr & _).
  { by rewrite (right_id_L ∅ (∪)). } { repeat constructor; lia. } { lia. } { intros w ->%Hf. lia. }
  assert (r = 0) as ->.
  { destruct Hr as (Hm & _ & [[-> _]|(_ & Hlt & Hna)]); [done|].
    destruct Hna. apply Hf. simpl in Hlt. unfold PGSIZE. rewrite wrap_small; [dlia|lia]. }
  exists s1.
  destruct (copy_roundtrip s ∅ root1 f N (uzero (λ _, 0) 0) 1 ps 10 4096 hello 8192 (seqmap 8192 (replicate 3 0)) s1 Hs)
    as (s2 & Hin & Hs2).
  - by rewrite (right_id_L ∅ (∪)).
  - rewrite (right_id_L ∅ (∪)). by apply map_disjoint_sym.
  - by apply (is_block_replicate 8192 0 3).
  - repeat constructor; lia.
  - lia.
  - intros w ->%Hf. lia.
  - exact Hrun.
  - exists s2, f, N, ps. split; [exact Hrun|]. split; [exact Hin|exact Hs2].
Defined.
End VmWitness.
