(* ===== verification/VmImage.v ===== *)
(** * Address spaces

    Page tables as a whole: made with the two pages every process has, copied
    ([uvmcopy]) and given back ([freewalk], [uvmfree], [proc_freepagetable]).  The
    number of pages in tables, in user memory and on the free list is kept
    track of, so that none is lost. *)
From S2P Require Import Prelude Mem CString Sep SepRun Kalloc Vm VmSpec VmUser VmCopy VmTheorems.
From iris.proofmode Require Import proofmode.
From stdpp Require Import functions.

#[local] Open Scope Z_scope.

Section spec.
Context {G : Type} `{HasKmem G, KernelImage}.
Implicit Types (f : Z → Z) (t va : Z) (g : G).

(** ** Giving back the tables *)

Lemma no_access c : Z.land (c / 4096 * 1024 + 1) (Z.lor (Z.lor PTE_R PTE_W) PTE_X) = 0.
Proof.
  change (Z.lor (Z.lor PTE_R PTE_W) PTE_X) with 14. apply Z.bits_inj'. intros k Hk. rewrite Z.land_spec Z.bits_0.
  destruct (decide (k < 4)) as [Hlt|Hge].
  - assert (k = 0 ∨ k = 1 ∨ k = 2 ∨ k = 3) as [-> | [-> | [-> | ->]]] by lia; [by rewrite andb_comm| | |];
      (replace (c / 4096 * 1024 + 1) with (1 + (c / 4096 * 64) * 2 ^ 4) by lia;
       rewrite <- (Z.mod_pow2_bits_low _ 4) by lia; by rewrite -> Z.mod_add by lia).
  - replace (Z.testbit 14 k) with false; [by rewrite andb_comm|]. symmetry. apply Z.bits_above_log2; [lia|]. change (Z.log2 14) with 3. lia.
Qed.

(** The entries from [i] on; [T c k] is what the table at [c] takes, [k] pages. *)
Definition dead (t : Z) (κ : Z → nat) (T : Z → nat → hprop) (j : Z) : hprop :=
  ((pte_at t j ↦₈ 0 ∗ ⌜κ j = 0%nat⌝) ∨
   (∃ c, ⌜page_ok c⌝ ∗ pte_at t j ↦₈ (c / 4096 * 1024 + 1) ∗ T c (κ j)))%I.

Lemma wp_freewalk_entries child t κ (T : Z → nat → hprop) m i ps (Φ : unit → G → hprop) g :
  (∀ c k ps (Φ : unit → G → hprop) g, T c k -∗ kmem_inv g ps -∗
     (∀ g' qs, ⌜length qs = k⌝ -∗ kmem_inv g' (qs ++ ps) -∗ Φ () g') -∗ wp (child c) Φ g) →
  0 ≤ i →
  ([∗ list] j ∈ seqZ i (Z.of_nat m), dead t κ T j) -∗ anybytes t (8 * i) -∗ kmem_inv g ps -∗
  (∀ g' qs, ⌜length qs = sum_list_with κ (seqZ i (Z.of_nat m))⌝ -∗ anybytes t (8 * (i + Z.of_nat m)) -∗ kmem_inv g' (qs ++ ps) -∗ Φ () g') -∗
  wp (freewalk_entries child t i m) Φ g.
Proof.
  intros Hchild. revert i ps g. induction m as [|m IH]; intros i ps g; iIntros (Hi) "He Hb Hk HΦ"; cbn [freewalk_entries].
  { iApply wp_ret. iApply ("HΦ" $! g [] with "[//] [Hb] Hk"). by rewrite Z.add_0_r. }
  rewrite -> seqZ_cons by lia. replace (Z.pred (Z.of_nat (S m))) with (Z.of_nat m) by lia.
  iDestruct "He" as "[Hj He]". iDestruct (kmem_inv_kend with "Hk") as %Hend.
  iAssert (∀ g' qs, ⌜length qs = κ i⌝ -∗ pte_at t i ↦₈ 0 -∗ kmem_inv g' (qs ++ ps) -∗
    wp (freewalk_entries child t (i + 1) m) Φ g')%I with "[He Hb HΦ]" as "Hnext".
  { iIntros (g' qs Hqs) "Hp Hk". iEval (rewrite word_anybytes) in "Hp".
    iDestruct (anybytes_join with "Hb Hp") as "Hb"; [lia|lia|].
    replace (8 * i + Z.of_nat 8) with (8 * (i + 1)) by lia.
    iApply (IH with "He Hb Hk"); [lia|]. iIntros (g'' qs' Hqs') "Hb Hk".
    iApply ("HΦ" $! g'' (qs' ++ qs) with "[%] [Hb] [Hk]").
    - cbn [sum_list_with]. rewrite length_app. lia.
    - by replace (i + Z.of_nat (S m)) with (i + 1 + Z.of_nat m) by lia.
    - by rewrite -app_assoc. }
  iDestruct "Hj" as "[[Hp %Hz]|(%c & %Hc & Hp & HT)]".
  - iApply wp_bind. iApply (wp_load with "Hp"). iIntros "Hp". iApply wp_bind. iApply wp_ret.
    iApply ("Hnext" $! g [] with "[%] Hp Hk"). done.
  - iApply wp_bind. iApply (wp_load with "Hp"). iIntros "Hp".
    rewrite pte_valid; [|done]. rewrite no_access Z.eqb_refl. cbn [andb].
    rewrite PTE2PA_of; [|apply Hc|by apply page_ok_range|done]. iApply wp_bind. iApply wp_bind.
    iApply (Hchild with "HT Hk"). iIntros (g' qs Hqs) "Hk". iApply (wp_store with "Hp"); [done|]. iIntros "Hp".
    iApply ("Hnext" with "[//] Hp Hk").
Qed.

Lemma wp_freewalk_table child t κ (T : Z → nat → hprop) ps (Φ : unit → G → hprop) g :
  (∀ c k ps (Φ : unit → G → hprop) g, T c k -∗ kmem_inv g ps -∗
     (∀ g' qs, ⌜length qs = k⌝ -∗ kmem_inv g' (qs ++ ps) -∗ Φ () g') -∗ wp (child c) Φ g) →
  page_ok t →
  array 512 (dead t κ T) -∗ kmem_inv g ps -∗
  (∀ g' qs, ⌜length qs = S (tally κ)⌝ -∗ kmem_inv g' (qs ++ ps) -∗ Φ () g') -∗
  wp (freewalk_entries child t 0 512;; kfree t) Φ g.
Proof.
  iIntros (Hchild Hok) "Harr Hk HΦ". iApply wp_bind. unfold array. pose proof (wp_freewalk_entries child t κ T 512 0) as Hwp.
  replace (Z.of_nat 512) with 512 in Hwp by (vm_compute; reflexivity). replace (8 * 0) with 0 in Hwp by lia.
  replace (8 * (0 + 512)) with PGSIZE in Hwp by (vm_compute; reflexivity). rewrite -tally_eq in Hwp.
  iApply (Hwp with "Harr [] Hk"); [done|done|iApply anybytes_0|].
  iIntros (g' qs Hqs) "Hb Hk". iApply (wp_kfree with "Hk Hb"); [done|]. iIntros "Hk".
  iApply ("HΦ" $! _ (t :: qs) with "[%] Hk"). cbn [length]. by rewrite Hqs.
Qed.

Lemma wp_freewalk_rec n depth t f N ps (Φ : unit → G → hprop) g :
  (n < depth)%nat → (∀ v, 0 ≤ v < span n → f v = 0) →
  pt n t f N -∗ kmem_inv g ps -∗
  (∀ g' qs, ⌜length qs = N⌝ -∗ kmem_inv g' (qs ++ ps) -∗ Φ () g') -∗
  wp (freewalk_rec depth t) Φ g.
Proof.
  revert depth t f N ps Φ g. induction n as [|n IH]; intros depth t f N ps Φ g; iIntros (Hd Hf) "Ht Hk HΦ";
    (destruct depth as [|depth]; [lia|]); cbn [freewalk_rec].
  - iDestruct "Ht" as "(%Hok & -> & Harr)".
    iApply (wp_freewalk_table _ t (λ _, 0%nat) (λ _ _, False)%I with "[Harr] Hk"); [|done| |].
    { iIntros (c k qs Ψ g') "[]". }
    { iApply (array_mono with "Harr"). intros j Hj. iIntros "Hp". iLeft. rewrite Hf; [by iFrame|unfold span; lia]. }
    rewrite tally_zero. iExact "HΦ".
  - iEval (rewrite pt_S) in "Ht". iDestruct "Ht" as "(%Hok & %κ & -> & Harr)".
    iApply (wp_freewalk_table _ t κ (λ c k, ∃ f', ⌜∀ v, 0 ≤ v < span n → f' v = 0⌝ ∗ pt n c f' k)%I with "[Harr] Hk"); [|done| |].
    { iIntros (c k qs Ψ g') "(%f' & %Hf' & Ht) Hk HΨ". iApply (IH with "Ht Hk HΨ"); [lia|done]. }
    { iApply (array_mono with "Harr"). intros j Hj. iIntros "[[Hp [%Hz _]]|(%c & %Hc & Hp & Ht)]".
      - iLeft. by iFrame.
      - iRight. iExists c. iFrame "Hp". iSplit; [done|]. iExists _. iFrame "Ht". iPureIntro. intros v Hv. apply Hf.
        rewrite span_S. nia. }
    iExact "HΦ".
Qed.

(** ** uvmfree *)

Lemma wp_unmap_page t v f N ps (Φ : unit → G → hprop) g :
  0 ≤ v → v * PGSIZE < MAXVA → Z.land (f v) PTE_V ≠ 0 → PTE_FLAGS (f v) ≠ PTE_V →
  pt 2 t f N -∗ kmem_inv g ps -∗
  (pt 2 t (<[v := 0]> f) N -∗ kmem_inv g ps -∗ Φ () g) -∗
  wp (uvmunmap t (v * PGSIZE) 1 false) Φ g.
Proof.
  iIntros (Hv Hmax Hval Hfl) "Ht Hk HΦ". unfold uvmunmap.
  assert (PGSIZE = 4096) as Hpg by done. assert (MAXVA = 2 ^ 38) as Hm by done.
  rewrite -> Z.mod_mul by lia. cbn [when]. iApply wp_bind. iApply wp_ret.
  rewrite -> (wrap_small 64 (1 * PGSIZE)) by lia. rewrite -> (wrap_small 64) by lia.
  replace (v * PGSIZE + 1 * PGSIZE) with ((v + Z.of_nat 1) * PGSIZE) by lia. rewrite pages_between_exact. cbn [uvmunmap_loop].
  iApply wp_bind. iApply (wp_walk _ _ _ _ false with "Ht Hk"); [lia|]. rewrite -> Z.div_mul by lia. iSplit; last first.
  { iIntros (g' N' (Hz & _)). exfalso. by rewrite Hz in Hval. }
  iIntros (r g' ps' N' (Hr & HN & Hsame)) "Hr Hc Hk". destruct (Hsame eq_refl) as [-> ->]. replace N' with N by lia.
  destruct (Z.eqb_spec r 0); [done|]. cbn [when]. iApply wp_bind. iApply wp_ret.
  iApply wp_bind. iApply (wp_load with "Hr"). iIntros "Hr".
  destruct (Z.eqb_spec (Z.land (f v) PTE_V) 0); [done|]. destruct (Z.eqb_spec (PTE_FLAGS (f v)) PTE_V); [done|]. cbn [when].
  do 3 (iApply wp_bind; iApply wp_ret). iApply wp_bind. iApply (wp_store with "Hr"); [done|]. iIntros "Hr".
  iApply wp_ret. iApply ("HΦ" with "[Hc Hr] Hk"). by iApply "Hc".
Qed.

Lemma wp_uvmfree t f N c n sz ps (Φ : unit → G → hprop) g :
  0 ≤ sz → PGROUNDUP sz = Z.of_nat n * PGSIZE → Z.of_nat n * PGSIZE ≤ MAXVA → sz ≤ MAXVA →
  (∀ w, Z.of_nat n ≤ w < span 2 → f w = 0) →
  pt 2 t f N -∗ upages f c 0 n -∗ kmem_inv g ps -∗
  (∀ g' qs, ⌜length qs = (N + n)%nat⌝ -∗ kmem_inv g' (qs ++ ps) -∗ Φ () g') -∗
  wp (uvmfree t sz) Φ g.
Proof.
  iIntros (Hsz Hn Hmax Hsm Hf) "Ht Hu Hk HΦ". unfold uvmfree.
  assert (PGSIZE = 4096) as Hpg by done. assert (MAXVA = 2 ^ 38) as Hm by done.
  destruct (PGROUNDUP_spec sz) as [_ Hr]; [lia|]. rewrite Hn in Hr.
  destruct (Z.ltb_spec 0 sz) as [Hlt|Hge]; cbn [when].
  - rewrite Hn. rewrite -> Z.div_mul by lia. iApply wp_bind. pose proof (wp_uvmunmap t 0 n f N c ps) as Hwp. rewrite Z.mul_0_l in Hwp.
    iApply (Hwp with "Ht Hu Hk"); [lia|lia|]. iIntros (g' qs Hqs) "Ht Hk". unfold freewalk.
    iApply (wp_freewalk_rec 2 4 with "Ht Hk"); [lia| |].
    { intros v Hv. unfold unmap. case_decide; [done|]. apply Hf. lia. }
    iIntros (g'' qs' Hqs') "Hk". iApply ("HΦ" $! _ (qs' ++ qs) with "[%] [Hk]"); [rewrite length_app; lia|]. by rewrite -app_assoc.
  - iApply wp_bind. iApply wp_ret. assert (n = 0%nat) as -> by lia. unfold freewalk.
    iApply (wp_freewalk_rec 2 4 with "Ht Hk"); [lia| |]. { intros v Hv. apply Hf. lia. }
    iIntros (g' qs Hqs) "Hk". iApply ("HΦ" with "[%] Hk"). lia.
Qed.
End spec.

(** ** uvmcopy *)

Section copy.
Context {G : Type} `{HasKmem G, KernelImage}.
Implicit Types (f : Z → Z) (t va : Z) (g : G).

Lemma lor_odd fl : fl `mod` 2 = 1 → Z.lor fl PTE_V = fl.
Proof.
  intros Hf. apply Z.bits_inj'. intros k Hk. rewrite Z.lor_spec. change PTE_V with (2 ^ 0). rewrite -> Z.pow2_bits_eqb by lia.
  destruct (Z.eqb_spec 0 k) as [<-|]; [|by rewrite orb_false_r]. rewrite orb_true_r. rewrite Z.bit0_odd. symmetry.
  rewrite Zodd_mod. by rewrite Hf.
Qed.

(** The copies made so far are given back. *)
Lemma wp_uvmcopy_undo t f0 f1 N c v ps (Φ : unit → G → hprop) g :
  Z.of_nat v * PGSIZE ≤ MAXVA → (∀ w, 0 ≤ w < Z.of_nat v → f0 w = 0) → (∀ w, ¬ (0 ≤ w < Z.of_nat v) → f1 w = f0 w) →
  pt 2 t f1 N -∗ upages f1 c 0 v -∗ kmem_inv g ps -∗
  (∀ g' ps', ⌜length ps' = (length ps + v)%nat⌝ -∗ pt 2 t f0 N -∗ kmem_inv g' ps' -∗ Φ () g') -∗
  wp (uvmunmap t 0 (Z.of_nat v) true) Φ g.
Proof.
  iIntros (Hv Hf0 Hout) "Ht Hc Hk HΦ". pose proof (wp_uvmunmap t 0 v f1 N c ps) as Hwp. rewrite Z.mul_0_l in Hwp.
  iApply (Hwp with "Ht Hc Hk"); [lia|lia|]. iIntros (g' qs Hqs) "Ht Hk".
  iApply ("HΦ" $! g' (qs ++ ps) with "[%] [Ht] Hk"); [rewrite length_app; lia|].
  iApply (pt_ext with "Ht"). intros w _. unfold unmap. case_decide; [rewrite Hf0; [done|lia]|apply Hout; lia].
Qed.

(** [uvmcopy] with [v] pages copied and [m] to go.  [f0] is the new table as it
    was. *)
Lemma wp_uvmcopy_loop told f N U n tnew f0 f1 N1 v m ps (Φ : Z → G → hprop) g :
  (v + m = n)%nat → Z.of_nat n * PGSIZE ≤ MAXVA → ubytes U →
  (∀ w, 0 ≤ w < Z.of_nat n → f0 w = 0) →
  (∀ w, ¬ (0 ≤ w < Z.of_nat v) → f1 w = f0 w) →
  (∀ w, 0 ≤ w < Z.of_nat v → PTE_FLAGS (f1 w) = PTE_FLAGS (f w)) →
  pt 2 told f N -∗ umem f U n -∗ pt 2 tnew f1 N1 -∗ upages f1 (upg U) 0 v -∗ kmem_inv g ps -∗
  (∀ g' ps' f2 N2, ⌜∀ w, ¬ (0 ≤ w < Z.of_nat n) → f2 w = f0 w⌝ -∗
     ⌜∀ w, 0 ≤ w < Z.of_nat n → PTE_FLAGS (f2 w) = PTE_FLAGS (f w)⌝ -∗
     ⌜(length ps + N1 = length ps' + N2 + m)%nat⌝ -∗
     pt 2 told f N -∗ umem f U n -∗ pt 2 tnew f2 N2 -∗ umem f2 U n -∗ kmem_inv g' ps' -∗ Φ 0 g') ∧
  (∀ g' ps' N2, ⌜(length ps + N1 + v = length ps' + N2 ∧ length ps < 3 * m)%nat⌝ -∗
     pt 2 told f N -∗ umem f U n -∗ pt 2 tnew f0 N2 -∗ kmem_inv g' ps' -∗ Φ (-1) g') -∗
  wp (uvmcopy_loop told tnew (Z.of_nat v * PGSIZE) m) Φ g.
Proof.
  assert (PGSIZE = 4096) as Hpg by done. assert (MAXVA = 2 ^ 38) as Hm by done.
  revert v f1 N1 ps g. induction m as [|m IH]; intros v f1 N1 ps g; iIntros (Hvm Hn HU Hf0 Hout Hin) "Ho Hu Ht Hc Hk HΦ"; cbn [uvmcopy_loop].
  { iApply wp_ret. assert (v = n) as -> by lia. iDestruct "HΦ" as "[HΦ _]". iApply ("HΦ" with "[//] [//] [%] Ho Hu Ht Hc Hk"). lia. }
  iDestruct (kmem_inv_kend with "Hk") as %Hkend.
  iDestruct (upages_access _ _ _ _ (Z.of_nat v) with "Hu") as "[(%pa & %fl & [%Hpte [%Hl %Hcb]] & Hb) Hu]"; [lia|].
  iApply wp_bind. iApply (wp_walk _ _ _ _ false with "Ho Hk"); [lia|]. rewrite -> Z.div_mul by lia. iSplit; last first.
  { iIntros (g' N' [Hz _]). exfalso. pose proof (user_pte_valid _ _ _ Hpte) as Hval. by rewrite Hz in Hval. }
  iIntros (r g' ps' N' (Hr & HN & Hsame)) "Hr Hcl Hk". destruct (Hsame eq_refl) as [-> ->]. assert (N' = N) as -> by lia.
  destruct (Z.eqb_spec r 0); [congruence|]. cbn [when]. iApply wp_bind. iApply wp_ret.
  iApply wp_bind. iApply (wp_load with "Hr"). iIntros "Hr". iSpecialize ("Hcl" with "Hr").
  iAssert (pt 2 told f N) with "[Hcl]" as "Ho".
  { iApply (pt_ext with "Hcl"). intros x _. destruct (decide (Z.of_nat v = x)) as [->|]; [by rewrite fn_lookup_insert|by rewrite fn_lookup_insert_ne]. }
  rewrite (user_pte_valid _ _ _ Hpte). pose proof Hpte as (Hx & Hok & Hfv & Hf1 & Hfr). cbn [when].
  iApply wp_bind. iApply wp_ret. rewrite Hx. rewrite -> PTE_FLAGS_of by done.
  rewrite -> PTE2PA_of; [|apply Hok|by apply page_ok_range|done].
  iAssert (∀ c, ⌜c = upg U (Z.of_nat v)⌝ -∗ bytes pa c -∗ umem f U n)%I with "[Hu]" as "Hu".
  { iIntros (c ->) "Hb". iApply (upages_ext with "[Hu Hb]"); last first.
    - iApply "Hu". iExists pa, fl. iFrame "Hb". iPureIntro. split_and!; [by rewrite -Hx|done..].
    - intros w _. split; [done|]. destruct (decide (w = Z.of_nat v)) as [->|]; [by rewrite fn_lookup_insert|by rewrite fn_lookup_insert_ne]. }
  iApply wp_bind. iApply (wp_kalloc with "Hk"). destruct ps as [|mem ps].
  { iIntros "Hk". rewrite Z.eqb_refl. iApply wp_bind. iApply (wp_uvmcopy_undo tnew f0 with "Ht Hc Hk"); [lia|intros w Hw; apply Hf0; lia|done|].
    iIntros (g' ps' Hps') "Ht Hk". iApply wp_ret. iDestruct "HΦ" as "[_ HΦ]".
    iApply ("HΦ" $! g' ps' N1 with "[%] Ho [Hu Hb] Ht Hk"); [simpl in *; lia|]. by iApply ("Hu" with "[//] Hb"). }
  iIntros ([Hmok Hmem]) "Hn %next Hk". destruct (Z.eqb_spec mem 0); [congruence|].
  iEval (rewrite (page_junk mem 5 ltac:(done))) in "Hn". iApply wp_bind. rewrite -Hl.
  iApply (wp_memmove with "Hb [Hn]"); [done|rewrite Hl; lia|by rewrite Hl|]. iIntros "Hb Hn". rewrite Hl.
  iSpecialize ("Hu" with "[//] Hb").
  iApply wp_bind. iApply (wp_mappages_page with "Ht Hk"); [lia|lia|by apply page_ok_range|done| |].
  { rewrite -> Hout, Hf0 by lia. done. }
  iSplit; last first.
  { iIntros (g' N' Hps) "Ht Hk". change (negb (-1 =? 0)) with true. cbv iota.
    iEval (rewrite (bytes_anybytes mem _ Hcb) Hl) in "Hn".
    iApply wp_bind. iApply (wp_kfree with "Hk Hn"); [done|]. iIntros "Hk". iApply wp_bind. iApply (wp_uvmcopy_undo tnew f0 with "Ht Hc Hk"); [lia|intros w Hw; apply Hf0; lia|done|].
    iIntros (g'' ps' Hps') "Ht Hk". iApply wp_ret. iDestruct "HΦ" as "[_ HΦ]".
    iApply ("HΦ" $! g'' ps' N' with "[%] Ho Hu Ht Hk"). simpl in *. lia. }
  iIntros (g' ps' N' Hps) "Ht Hk". rewrite Z.eqb_refl. cbn [negb]. rewrite -> (wrap_small 64) by lia.
  replace (Z.of_nat v * PGSIZE + PGSIZE) with (Z.of_nat (S v) * PGSIZE) by lia.
  assert (mk_pte mem fl = mem / 4096 * 1024 + fl) as Hmk. { rewrite -> mk_pte_flags; [by rewrite lor_odd|by apply page_ok_range|done]. }
  iApply (IH (S v) with "Ho Hu Ht [Hc Hn] Hk [HΦ]"); [lia|done|done|done| | | |].
  - intros w Hw. rewrite fn_lookup_insert_ne; [|lia]. apply Hout. lia.
  - intros w Hw. destruct (decide (w = Z.of_nat v)) as [->|].
    + rewrite fn_lookup_insert Hmk Hx. by rewrite -> !PTE_FLAGS_of by done.
    + rewrite fn_lookup_insert_ne; [|done]. apply Hin. lia.
  - rewrite -Nat.add_1_r upages_app. iSplitL "Hc".
    + iApply (upages_ext with "Hc"). intros w Hw. rewrite fn_lookup_insert_ne; [done|lia].
    + simpl. iSplit; [|done]. rewrite fn_lookup_insert. iExists mem, fl. iFrame "Hn". iPureIntro. rewrite Hmk.
      exact (conj (conj eq_refl (conj Hmok (conj Hfv (conj Hf1 Hfr)))) (conj Hl Hcb)).
  - iSplit; [iDestruct "HΦ" as "[HΦ _]"|iDestruct "HΦ" as "[_ HΦ]"].
    + iIntros (g'' ps'' f2 N2 H1 H2 H3) "Ho Hu Ht Hc Hk". iApply ("HΦ" with "[//] [//] [%] Ho Hu Ht Hc Hk"). simpl. lia.
    + iIntros (g'' ps'' N2 H3) "Ho Hu Ht Hk". iApply ("HΦ" with "[%] Ho Hu Ht Hk"). simpl. lia.
Qed.
End copy.

(** ** The page table of a process *)

Definition TRAMPV : Z := TRAMPOLINE / PGSIZE.
Definition TRAPFRAMEV : Z := TRAPFRAME / PGSIZE.

Lemma top_pages : TRAMPV = 2 ^ 26 - 1 ∧ TRAPFRAMEV = 2 ^ 26 - 2 ∧ TRAMPOLINE = TRAMPV * PGSIZE ∧ TRAPFRAME = TRAPFRAMEV * PGSIZE.
Proof. done. Qed.

Section process.
Context {G : Type} `{HasKmem G, KernelImage, KernelText}.
Implicit Types (f : Z → Z) (t va : Z) (g : G).

Definition text_ok : Prop := 0 ≤ trampoline < 2 ^ 56.

(** Beyond its [n] pages, a process has the trampoline and the trapframe at [tf]. *)
Definition layout (tf : Z) f (n : nat) : Prop :=
  f TRAMPV = mk_pte trampoline (Z.lor PTE_R PTE_X) ∧ f TRAPFRAMEV = mk_pte tf (Z.lor PTE_R PTE_W) ∧
  Z.of_nat n ≤ TRAPFRAMEV ∧
  ∀ w, Z.of_nat n ≤ w < span 2 → w ≠ TRAMPV → w ≠ TRAPFRAMEV → f w = 0.

Lemma kernel_pte pa perm :
  0 ≤ pa < 2 ^ 56 → 0 ≤ perm < 1024 → Z.lor perm PTE_V ≠ PTE_V →
  Z.land (mk_pte pa perm) PTE_V ≠ 0 ∧ PTE_FLAGS (mk_pte pa perm) ≠ PTE_V ∧ mk_pte pa perm ≠ 0.
Proof.
  intros Hpa Hp Hne. rewrite -> mk_pte_flags by done.
  pose proof (lor_range 10 perm PTE_V ltac:(lia) Hp ltac:(done)) as Hr. change (2 ^ 10) with 1024 in Hr.
  assert (Z.lor perm PTE_V `mod` 2 = 1) as Hodd. { rewrite -Z.bit0_mod Z.lor_spec. by rewrite orb_comm. }
  rewrite -> PTE_FLAGS_of by done. pose proof (pte_valid pa _ Hodd) as Hv. unfold truth in Hv.
  split_and!; [by destruct (Z.eqb_spec (Z.land (pa / 4096 * 1024 + Z.lor perm PTE_V) PTE_V) 0)|done|].
  intros Hz. by rewrite Hz in Hv.
Qed.

Lemma wp_proc_freepagetable tf t f N c n sz ps (Φ : unit → G → hprop) g :
  text_ok → 0 ≤ tf < 2 ^ 56 → layout tf f n → 0 ≤ sz → PGROUNDUP sz = Z.of_nat n * PGSIZE → sz ≤ MAXVA →
  pt 2 t f N -∗ upages f c 0 n -∗ kmem_inv g ps -∗
  (∀ g' qs, ⌜length qs = (N + n)%nat⌝ -∗ kmem_inv g' (qs ++ ps) -∗ Φ () g') -∗
  wp (proc_freepagetable t sz) Φ g.
Proof.
  iIntros (Htx Htf (Hf1 & Hf2 & Hn & Hf) Hsz Hup Hsm) "Ht Hu Hk HΦ". unfold proc_freepagetable.
  destruct top_pages as (E1 & E2 & E3 & E4). assert (PGSIZE = 4096) as Hpg by done. assert (MAXVA = 2 ^ 38) as Hm by done.
  rewrite E3 E4. destruct (kernel_pte trampoline (Z.lor PTE_R PTE_X) Htx) as (V1 & F1 & _); [done|done|].
  destruct (kernel_pte tf (Z.lor PTE_R PTE_W) Htf) as (V2 & F2 & _); [done|done|].
  iApply wp_bind. iApply (wp_unmap_page with "Ht Hk"); [lia|lia|by rewrite Hf1|by rewrite Hf1|]. iIntros "Ht Hk".
  iApply wp_bind. iApply (wp_unmap_page with "Ht Hk"); [lia|lia| | |].
  { rewrite fn_lookup_insert_ne; [by rewrite Hf2|lia]. } { rewrite fn_lookup_insert_ne; [by rewrite Hf2|lia]. }
  iIntros "Ht Hk". iApply (wp_uvmfree with "Ht [Hu] Hk HΦ"); [done|done|lia|done| |].
  - intros w Hw. destruct (decide (w = TRAPFRAMEV)) as [->|]; [by rewrite fn_lookup_insert|]. rewrite fn_lookup_insert_ne; [|done].
    destruct (decide (w = TRAMPV)) as [->|]; [by rewrite fn_lookup_insert|]. rewrite fn_lookup_insert_ne; [|done]. by apply Hf.
  - iApply (upages_ext with "Hu"). intros w Hw. split; [|done]. rewrite !fn_lookup_insert_ne; [done|lia|lia].
Qed.

Lemma wp_proc_pagetable tf ps (Φ : Z → G → hprop) g :
  text_ok → 0 ≤ tf < 2 ^ 56 →
  kmem_inv g ps -∗
  (∀ g' ps' t f N, ⌜t ≠ 0 ∧ layout tf f 0 ∧ (length ps = length ps' + N ∧ N ≤ 5)%nat⌝ -∗ pt 2 t f N -∗ kmem_inv g' ps' -∗ Φ t g') ∧
  (∀ g' ps', ⌜(length ps' = length ps ∧ length ps < 5)%nat⌝ -∗ kmem_inv g' ps' -∗ Φ 0 g') -∗
  wp (proc_pagetable tf) Φ g.
Proof.
  iIntros (Htx Htf) "Hk HΦ". unfold proc_pagetable, uvmcreate.
  destruct top_pages as (E1 & E2 & E3 & E4). assert (PGSIZE = 4096) as Hpg by done. assert (MAXVA = 2 ^ 38) as Hm by done.
  iApply wp_bind. iApply wp_bind. iApply (wp_kalloc with "Hk"). destruct ps as [|t ps].
  { iIntros "Hk". rewrite Z.eqb_refl. iApply wp_ret. rewrite Z.eqb_refl. iApply wp_ret. iDestruct "HΦ" as "[_ HΦ]".
    iApply ("HΦ" with "[%] Hk"). simpl. lia. }
  iIntros ([Hok Ht0]) "Hb %next Hk". destruct (Z.eqb_spec t 0); [done|].
  iEval (rewrite (page_junk t 5 ltac:(done))) in "Hb". iApply wp_bind. iApply (wp_memset_page with "Hb"). iIntros "Hb".
  iApply wp_ret. destruct (Z.eqb_spec t 0); [done|]. change (u8 0) with 0.
  iDestruct (zero_table t 2 (λ _, 0) with "Hb") as "Ht"; [done|done|]. rewrite E3 E4.
  iApply wp_bind. iApply (wp_mappages_page with "Ht Hk"); [lia|lia|done|done|done|]. iSplit; last first.
  { iIntros (g' N' Hc) "Ht Hk". change (-1 <? 0) with true. cbv iota. iApply wp_bind.
    iApply (wp_uvmfree _ _ _ (λ _, []) 0 with "Ht [//] Hk"); [done|done|done|done|done|]. iIntros (g'' qs Hqs) "Hk".
    iApply wp_ret. iDestruct "HΦ" as "[_ HΦ]". iApply ("HΦ" with "[%] Hk"). rewrite length_app /=. lia. }
  iIntros (g' ps' N' Hc) "Ht Hk". change (0 <? 0) with false. cbv iota.
  iApply wp_bind. iApply (wp_mappages_page with "Ht Hk"); [lia|lia|done|done| |].
  { rewrite fn_lookup_insert_ne; [done|lia]. }
  destruct (kernel_pte trampoline (Z.lor PTE_R PTE_X) Htx) as (V1 & F1 & _); [done|done|]. iSplit; last first.
  { iIntros (g'' N'' Hc') "Ht Hk". change (-1 <? 0) with true. cbv iota. iApply wp_bind.
    iApply (wp_unmap_page with "Ht Hk"); [lia|lia|by rewrite fn_lookup_insert|by rewrite fn_lookup_insert|]. iIntros "Ht Hk". iApply wp_bind.
    iApply (wp_uvmfree _ _ _ (λ _, []) 0 with "Ht [//] Hk"); [done|done|done|done| |].
    { intros w _. destruct (decide (w = TRAMPV)) as [->|]; [by rewrite fn_lookup_insert|]. by rewrite !fn_lookup_insert_ne. }
    iIntros (g3 qs Hqs) "Hk". iApply wp_ret. iDestruct "HΦ" as "[_ HΦ]". iApply ("HΦ" with "[%] Hk"). rewrite length_app /=. simpl. lia. }
  iIntros (g'' ps'' N'' Hc') "Ht Hk". change (0 <? 0) with false. cbv iota. iApply wp_ret. iDestruct "HΦ" as "[HΦ _]".
  iApply ("HΦ" with "[%] Ht Hk"). split_and!; [done| |simpl in *; lia|simpl in *; lia]. split_and!.
  - rewrite fn_lookup_insert_ne; [by rewrite fn_lookup_insert|lia].
  - by rewrite fn_lookup_insert.
  - lia.
  - intros w _ Hw1 Hw2. by rewrite !fn_lookup_insert_ne.
Qed.
End process.

(** ** What else is left alone *)

(** Of the state beside memory, virtual memory code touches the free list only. *)
Section keeps.
Context {G : Type} `{HasKmem G, KernelImage, KernelText}.

Definition kept (g g' : G) : Prop := ∃ k, g' = set_kmem k g.

Lemma kept_refl g : kept g g.
Proof. exists (kmem_of g). by rewrite set_kmem_id. Qed.
Lemma kept_trans g1 g2 g3 : kept g1 g2 → kept g2 g3 → kept g1 g3.
Proof. intros [k ->] [k' ->]. exists k'. by rewrite set_kmem_set. Qed.

Definition keeps {A} (m : M (st G) A) : Prop := ∀ s a s', m s = Ok a s' → kept (glob s) (glob s').

Lemma keeps_mret {A} (a : A) : keeps (mret a).
Proof. intros s b s' [= _ <-]. apply kept_refl. Qed.
Lemma keeps_err {A} e : keeps (fail e : M (st G) A).
Proof. intros s b s'. done. Qed.
Lemma keeps_then {A B} (m : M (st G) A) (k : A → M (st G) B) : keeps m → (∀ a, keeps (k a)) → keeps (m ≫= k).
Proof. intros Hm Hk s b s' (a & s1 & Hr & Hr')%bind_inv_ok. eapply kept_trans; [by eapply Hm|by eapply Hk]. Qed.
Lemma keeps_load n a : keeps (load n a).
Proof. intros s b s'. unfold load. destruct (loadbytes _ _ _); [|done]. intros [= _ <-]. apply kept_refl. Qed.
Lemma keeps_store n a v : keeps (store n a v).
Proof. intros s b s'. unfold store. destruct (storebytes _ _ _); [|done]. intros [= _ <-]. apply kept_refl. Qed.
Lemma keeps_getg {A} (f : G → A) : keeps (getg f).
Proof. intros s b s' [= _ <-]. apply kept_refl. Qed.
Lemma keeps_set k : keeps (setg (set_kmem k)).
Proof. intros s b s' [= _ <-]. by exists k. Qed.

(** A specification also says what is left alone. *)
Lemma wp_kept {A} (m : M (st G) A) (Φ : A → G → hprop) g :
  keeps m → wp m (λ a g', ⌜kept g g'⌝ -∗ Φ a g') g ⊢ wp m Φ g.
Proof.
  intros Hm. constructor. intros h Hwp hf Hd Hok.
  destruct (Hwp hf Hd Hok) as (a & g' & h' & Hr & Hd' & Hok' & HΦ). exists a, g', h'. split_and!; [done..|].
  pose proof (Hm _ _ _ Hr) as Hkept. simpl in Hkept.
  eapply (entails_at (P := (⌜kept g g'⌝ -∗ Φ a g')%I)); [|exact HΦ]. iIntros "HΦ". by iApply "HΦ".
Qed.
End keeps.

Create HintDb keeps.
#[export] Hint Resolve keeps_mret keeps_err keeps_load keeps_store keeps_getg keeps_set : keeps.

Section kept.
Context {G : Type} `{HasKmem G, KernelImage, KernelText}.

(** One function after the other, by the shape of its code. *)
Ltac kept := cbv zeta; repeat first
  [ solve [auto with keeps]
  | apply keeps_then; [|intros]
  | match goal with
    | |- keeps (if ?b then _ else _) => destruct b
    | |- keeps (when ?b _) => destruct b; cbn [when]
    end ].

Lemma keeps_acquire : keeps kmem_acquire.
Proof. unfold kmem_acquire. kept. Qed.
Lemma keeps_release : keeps kmem_release.
Proof. unfold kmem_release. kept. Qed.
Lemma keeps_set_freelist r : keeps (set_freelist r).
Proof. unfold set_freelist. kept. Qed.
Lemma keeps_memset dst c n : keeps (memset dst c n).
Proof.
  unfold memset. apply keeps_then; [|kept]. generalize (Z.to_nat (u32 n)) 0. intros k.
  induction k as [|k IH]; intros i; cbn [memset_loop]; kept.
Qed.
Lemma keeps_memmove dst src n : keeps (memmove dst src n).
Proof.
  assert (∀ k d s, keeps (copy_up d s k)) by (induction k as [|k IH]; intros d s; cbn [copy_up]; kept).
  assert (∀ k d s, keeps (copy_down d s k)) by (induction k as [|k IH]; intros d s; cbn [copy_down]; kept).
  unfold memmove. kept.
Qed.
#[local] Hint Resolve keeps_acquire keeps_release keeps_set_freelist keeps_memset keeps_memmove : keeps.
Lemma keeps_kfree p : keeps (kfree p).
Proof. unfold kfree. kept. Qed.
Lemma keeps_kalloc : keeps kalloc.
Proof. unfold kalloc. kept. Qed.
#[local] Hint Resolve keeps_kfree keeps_kalloc : keeps.
Lemma keeps_walk t va alloc : keeps (walk t va alloc).
Proof.
  assert (∀ n t, keeps (walk_from n t va alloc)) by (induction n as [|n IH]; intros t'; cbn [walk_from]; kept).
  unfold walk. kept.
Qed.
#[local] Hint Resolve keeps_walk : keeps.
Lemma keeps_walkaddr t va : keeps (walkaddr t va).
Proof. unfold walkaddr. kept. Qed.
Lemma keeps_mappages t va size pa perm : keeps (mappages t va size pa perm).
Proof.
  assert (∀ fuel a last pa, keeps (mappages_loop fuel t a last pa perm))
    by (induction fuel as [|fuel IH]; intros a last pa'; cbn [mappages_loop]; kept).
  unfold mappages. kept.
Qed.
Lemma keeps_uvmunmap t va n b : keeps (uvmunmap t va n b).
Proof.
  assert (∀ k a, keeps (uvmunmap_loop t a k b)) by (induction k as [|k IH]; intros a; cbn [uvmunmap_loop]; kept).
  unfold uvmunmap. kept.
Qed.
#[local] Hint Resolve keeps_walkaddr keeps_mappages keeps_uvmunmap : keeps.
Lemma keeps_uvmdealloc t o n : keeps (uvmdealloc t o n).
Proof. unfold uvmdealloc. kept. Qed.
#[local] Hint Resolve keeps_uvmdealloc : keeps.
Lemma keeps_uvmalloc t o n x : keeps (uvmalloc t o n x).
Proof.
  assert (∀ k o a, keeps (uvmalloc_loop t o a n x k)) by (induction k as [|k IH]; intros o' a; cbn [uvmalloc_loop]; kept).
  unfold uvmalloc. kept.
Qed.
Lemma keeps_freewalk t : keeps (freewalk t).
Proof.
  assert (∀ child n t i, (∀ c, keeps (child c)) → keeps (freewalk_entries child t i n))
    by (induction n as [|n IH]; intros t' i Hc; cbn [freewalk_entries]; kept).
  unfold freewalk. generalize 4%nat. intros d. revert t. induction d as [|d IH]; intros t; cbn [freewalk_rec]; kept.
Qed.
#[local] Hint Resolve keeps_freewalk : keeps.
Lemma keeps_uvmfree t sz : keeps (uvmfree t sz).
Proof. unfold uvmfree. kept. Qed.
Lemma keeps_uvmclear t va : keeps (uvmclear t va).
Proof. unfold uvmclear. kept. Qed.
#[local] Hint Resolve keeps_uvmfree : keeps.
Lemma keeps_proc_pagetable tf : keeps (proc_pagetable tf).
Proof. unfold proc_pagetable, uvmcreate. kept. Qed.
Lemma keeps_proc_freepagetable t sz : keeps (proc_freepagetable t sz).
Proof. unfold proc_freepagetable. kept. Qed.
Lemma keeps_copyout t dst src len : keeps (copyout t dst src len).
Proof.
  unfold copyout. generalize (copy_fuel len). intros n. revert dst src len.
  induction n as [|n IH]; intros dst src len; cbn [copyout_loop]; kept.
Qed.
End kept.

(** ** Growing an image *)

(** There are fewer than [2 ^ 20] pages of RAM. *)
Lemma pages_distinct `{KernelImage} (ps : list Z) :
  ([∗ list] p ∈ ps, ⌜page_ok p⌝ ∗ anybytes p PGSIZE) ⊢ ⌜NoDup ps ∧ Forall page_ok ps⌝.
Proof.
  induction ps as [|p ps IH]; iIntros "H"; [iPureIntro; split; constructor|]. iDestruct "H" as "[[%Hp Hb] H]".
  iAssert ⌜p ∉ ps⌝%I as %Hnot.
  { destruct (decide (p ∈ ps)) as [Hin|]; [|done]. iDestruct (big_sepL_elem_of _ _ _ Hin with "H") as "[_ H]".
    iDestruct (anybytes_disjoint with "[$Hb $H]") as %Hd; [done|done|]. unfold PGSIZE in Hd. lia. }
  iDestruct (IH with "H") as %[Hn Hf]. iPureIntro. by split; constructor.
Qed.

Lemma free_pages_bound {G} `{HasKmem G, KernelImage} (g : G) ps : kmem_inv g ps ⊢ ⌜Z.of_nat (length ps) < 2 ^ 20⌝.
Proof.
  iIntros "[[_ %Hend] Hr]". iAssert ([∗ list] p ∈ ps, ⌜page_ok p⌝ ∗ anybytes p PGSIZE)%I with "[Hr]" as "H".
  { generalize (freelist (kmem_of g)). intros r. iInduction ps as [|p ps IH] forall (r); [done|]. simpl.
    iDestruct "Hr" as "[[_ %Hp] (%next & Hn & Hb & Hr)]". iSplitL "Hn Hb"; [|iApply ("IH" with "Hr")].
    iSplit; [done|]. iEval (rewrite word_anybytes) in "Hn". by iApply (anybytes_join with "Hn Hb"). }
  iDestruct (pages_distinct with "H") as %[Hn Hall]. iPureIntro.
  assert (∀ p, p ∈ ps → page_ok p) as Hf. { intros p [i Hi]%list_elem_of_lookup. by eapply (Forall_lookup_1 _ ps). }
  assert (length ps ≤ length (seqZ 0 (PHYSTOP / PGSIZE)))%nat as Hle.
  { rewrite -(length_fmap (λ p, p / PGSIZE) ps). apply submseteq_length, NoDup_submseteq.
    - apply NoDup_fmap_2_strong; [|done]. intros p q Hp Hq Heq.
      destruct (Hf p Hp) as [Hp1 _], (Hf q Hq) as [Hq1 _]. unfold PGSIZE in *. dlia.
    - intros x (p & -> & Hp)%list_elem_of_fmap. destruct (Hf p Hp) as [_ Hr].
      apply elem_of_seqZ. unfold PGSIZE. unfold PHYSTOP, KERNBASE in *. dlia. }
  rewrite length_seqZ in Hle. assert (PHYSTOP / PGSIZE = 557056) as Hc by (vm_compute; reflexivity). rewrite Hc in Hle. lia.
Qed.

Lemma uflags_accessible f w xperm :
  w * PGSIZE < MAXVA → PTE_FLAGS (f w) = uflags xperm → accessible f w.
Proof.
  intros Hw Hf. split; [done|]. unfold PTE_FLAGS in Hf.
  assert (∀ b, Z.testbit 1023 b = true → Z.testbit (uflags xperm) b = true → ∀ m, m = 2 ^ b → 0 ≤ b → Z.land (f w) m ≠ 0) as Hbit.
  { intros b Hb Hu m -> Hb0 Hz. assert (Z.testbit (Z.land (f w) 1023) b = true) as Ht by by rewrite Hf.
    rewrite Z.land_spec in Ht. apply andb_true_iff in Ht as [Ht _].
    assert (Z.testbit (Z.land (f w) (2 ^ b)) b = true) as Hc; [|by rewrite Hz Z.bits_0 in Hc].
    rewrite Z.land_spec Ht. rewrite -> Z.pow2_bits_eqb by done. by rewrite Z.eqb_refl. }
  split; [apply (Hbit 0)|apply (Hbit 4)]; try done; unfold uflags; rewrite !Z.lor_spec; [by rewrite orb_true_r|done].
Qed.

Section grow.
Context {G : Type} `{HasKmem G, KernelImage, KernelText}.
Implicit Types (f : Z → Z) (t va : Z) (g : G).

(** The result of [uvmalloc] from [sz] to [newsz] on an image of [n] pages in a
    table of [N], with [l] pages free. *)
Definition grown (sz newsz xperm r : Z) (tf : Z) f f' (l N N' n n' : nat) : Prop :=
  layout tf f' n' ∧ (n ≤ n')%nat ∧ (∀ w, ¬ (Z.of_nat n ≤ w < Z.of_nat n') → f' w = f w) ∧
  (∀ w, Z.of_nat n ≤ w < Z.of_nat n' → PTE_FLAGS (f' w) = uflags xperm) ∧
  (r = 0 ∧ n' = n ∧ (newsz = 0 ∨ Z.of_nat l * PGSIZE < 3 * (newsz + PGSIZE - Z.of_nat n * PGSIZE)) ∨
   r ≠ 0 ∧ r = Z.max sz newsz ∧ (N' ≤ N + 2 * (n' - n))%nat ∧ r ≤ Z.of_nat n' * PGSIZE ∧ PGROUNDUP r = Z.of_nat n' * PGSIZE).

Lemma wp_grow tf t f N U n sz newsz xperm ps (Φ : Z → G → hprop) g :
  layout tf f n → (∀ a, Z.of_nat n * PGSIZE ≤ a → U a = 0) → 0 ≤ sz → PGROUNDUP sz = Z.of_nat n * PGSIZE → sz ≤ MAXVA →
  0 ≤ newsz < 2 ^ 64 → 0 ≤ xperm < 1024 → Z.of_nat (n + length ps) < 2 ^ 20 →
  pt 2 t f N -∗ umem f U n -∗ kmem_inv g ps -∗
  (∀ r g' f' N' n' ps', ⌜grown sz newsz xperm r tf f f' (length ps) N N' n n' ∧ (length ps + N + n = length ps' + N' + n' ∧ N ≤ N')%nat⌝ -∗
     pt 2 t f' N' -∗ umem f' U n' -∗ kmem_inv g' ps' -∗ Φ r g') -∗
  wp (uvmalloc t sz newsz xperm) Φ g.
Proof.
  iIntros (Hlay HU Hsz Hn Hsm Hnew Hx Hb) "Ht Hu Hk HΦ". unfold uvmalloc.
  destruct top_pages as (E1 & E2 & E3 & E4). assert (PGSIZE = 4096) as Hpg by done. assert (MAXVA = 2 ^ 38) as Hm by done.
  destruct (Z.ltb_spec newsz sz) as [Hlt|Hge].
  { iApply wp_ret. iApply ("HΦ" $! sz g f N n ps with "[%] Ht Hu Hk"). split; [|lia].
    split_and!; [done|done|done|lia|]. right. destruct (PGROUNDUP_spec sz) as [_ Hr]; [lia|]. split_and!; [lia|lia|lia|lia|done]. }
  destruct (PGROUNDUP_spec sz) as [_ Hr]; [lia|]. rewrite Hn in Hr |- *.
  set (m := pages_between (Z.of_nat n * PGSIZE) newsz).
  pose proof (wp_uvmalloc_loop t (Z.of_nat n) TRAPFRAMEV 0 m f f) as Hwp. rewrite Z.add_0_r in Hwp.
  destruct Hlay as (F1 & F2 & Hnt & F3).
  assert (∀ w, Z.of_nat n ≤ w < TRAPFRAMEV → f w = 0) as Hz.
  { intros w Hw. apply F3; [|lia|lia]. unfold span. change (512 ^ Z.of_nat 3) with (2 ^ 27). lia. }
  iApply (Hwp with "Ht [] Hk"); [lia|lia|done|right; lia|done|done|intros; lia|done|]. iSplit.
  - iIntros (g' ps' f' N' Ho Hi Hc) "Ht Hz Hk". simpl in Ho, Hi.
    iApply ("HΦ" $! newsz g' f' N' (n + m)%nat ps' with "[%] Ht [Hu Hz] Hk").
    + assert (PGROUNDUP newsz = Z.of_nat (n + m) * PGSIZE) as Hup.
      { destruct (PGROUNDUP_spec newsz) as [H3 H4]; [unfold m, pages_between in Hc; rewrite -> Hpg in *; dlia|].
        unfold m, pages_between in *. rewrite -> Hpg in *. dlia. }
      split; [|lia]. split_and!; [|lia|intros w Hw; apply Ho; lia|intros w Hw; apply Hi; lia|].
      * split_and!; [rewrite Ho; [done|lia]|rewrite Ho; [done|lia]|lia|]. intros w Hw W1 W2. rewrite Ho; [|lia]. apply F3; [lia|done|done].
      * destruct (decide (newsz = 0)) as [->|]; [left|right; split_and!; [done|lia|lia| |done]].
        { split_and!; [done| |by left]. unfold m, pages_between. rewrite -> Hpg in *. dlia. }
        unfold m, pages_between. rewrite -> Hpg in *. dlia.
    + unfold umem. rewrite (upages_app f' (upg U) 0 n m) Z.add_0_l. iSplitL "Hu".
      * iApply (upages_ext with "Hu"). intros w Hw. split; [|done]. symmetry. apply Ho. lia.
      * iApply (upages_ext with "Hz"). intros w Hw. split; [done|]. rewrite -(upg_zero w). apply uread_ext. intros x Hxx. symmetry. apply HU. nia.
  - iIntros (g' ps' N' Hc) "Ht Hk". iApply ("HΦ" $! 0 g' f N' n ps' with "[%] Ht Hu Hk"). split; [|lia].
    split_and!; [done|done|done|lia|left]. split_and!; [done|done|right].
    destruct Hc as (_ & _ & Hc). unfold m, pages_between in Hc. rewrite -> Hpg in *. dlia.
Qed.
End grow.

(** ** Copying an address space *)

Section runs.
Context {G : Type} `{HasKmem G, KernelImage}.
Implicit Types (s : st G) (u : bytemap) (f : Z → Z) (U : Z → Z).

(** Two address spaces with the same bytes, of [n] and [n1] pages. *)
Definition forkstate s u (told : Z) f (N : nat) U (n : nat) (tnew : Z) f1 (N1 n1 : nat) (ps : list Z) : Prop :=
  ubytes U ∧ sat (pt 2 told f N ∗ umem f U n ∗ pt 2 tnew f1 N1 ∗ umem f1 U n1 ∗ kmem_inv (glob s) ps)%I (mem s) u.

(** C17: [uvmcopy] gives the child pages of its own with the bytes and the flags
    of the parent's, and leaves the parent as it is; or it returns -1 with the
    child's table as empty as it was, which happens only when fewer than three
    pages are free for each page to copy.  No page is lost. *)
Theorem uvmcopy_correct s u told f N U n tnew f0 N0 ps sz :
  forkstate s u told f N U n tnew f0 N0 0 ps → 0 ≤ sz → PGROUNDUP sz = Z.of_nat n * PGSIZE → sz < MAXVA → Z.of_nat n * PGSIZE ≤ MAXVA →
  (∀ w, 0 ≤ w < Z.of_nat n → f0 w = 0) →
  ∃ r s', uvmcopy told tnew sz s = Ok r s' ∧
    ((r = 0 ∧ ∃ f1 N1 ps', forkstate s' u told f N U n tnew f1 N1 n ps' ∧ (length ps + N0 = length ps' + N1 + n)%nat ∧
        (∀ w, ¬ (0 ≤ w < Z.of_nat n) → f1 w = f0 w) ∧ (∀ w, 0 ≤ w < Z.of_nat n → PTE_FLAGS (f1 w) = PTE_FLAGS (f w))) ∨
     (r = -1 ∧ ∃ N1 ps', forkstate s' u told f N U n tnew f0 N1 0 ps' ∧ (length ps + N0 = length ps' + N1 ∧ length ps < 3 * n)%nat)).
Proof.
  intros [HU Hs] Hsz Hup Hsm Hn Hf0. assert (MAXVA = 2 ^ 38) as Hm by done.
  assert (pages_between 0 sz = n) as Hpb.
  { destruct (PGROUNDUP_spec sz) as [H1 H2]; [lia|]. rewrite Hup in H2. unfold pages_between, PGSIZE in *. dlia. }
  edestruct (sat_run (uvmcopy told tnew sz) (λ r g',
      (∃ f1 N1 ps', ⌜r = 0 ∧ (length ps + N0 = length ps' + N1 + n)%nat ∧ (∀ w, ¬ (0 ≤ w < Z.of_nat n) → f1 w = f0 w) ∧
           (∀ w, 0 ≤ w < Z.of_nat n → PTE_FLAGS (f1 w) = PTE_FLAGS (f w))⌝ ∗
         (pt 2 told f N ∗ umem f U n ∗ pt 2 tnew f1 N1 ∗ umem f1 U n ∗ kmem_inv g' ps')) ∨
      (∃ N1 ps', ⌜r = -1 ∧ (length ps + N0 = length ps' + N1 ∧ length ps < 3 * n)%nat⌝ ∗
         (pt 2 told f N ∗ umem f U n ∗ pt 2 tnew f0 N1 ∗ umem f0 U 0 ∗ kmem_inv g' ps')))%I)
    as (r & s' & Hrun & Hsat); [done|exact Hs| |].
  { iIntros "(Ho & Hu & Ht & _ & Hk)". unfold uvmcopy. rewrite Hpb.
    iApply (wp_uvmcopy_loop told f N U n tnew f0 f0 N0 0 n with "Ho Hu Ht [] Hk"); [lia|done|done|done|done|intros; lia|done|]. iSplit.
    - iIntros (g' ps' f2 N2 H1 H2 H3) "Ho Hu Ht Hc Hk". iLeft. iExists f2, N2, ps'. iSplit; [done|]. iFrame "Ho Hu Ht Hc Hk".
    - iIntros (g' ps' N2 H1) "Ho Hu Ht Hk". iRight. iExists N2, ps'. iSplit; [iPureIntro; lia|]. iFrame "Ho Hu Ht Hk". done. }
  exists r, s'. split; [exact Hrun|]. apply sat_or in Hsat as [Hsat|Hsat]; [left|right].
  - apply sat_exist in Hsat as [f1 [N1 [ps' [(-> & H1 & H2 & H3) Hsat]%sat_pure]%sat_exist]%sat_exist]. split; [done|].
    exists f1, N1, ps'. by split_and!.
  - apply sat_exist in Hsat as [N1 [ps' [(-> & H1) Hsat]%sat_pure]%sat_exist]. split; [done|]. exists N1, ps'. by split.
Qed.
End runs.

Module ImageWitness.
#[export] Instance kmem2 : HasKmem kmem := KallocWitness.kmem_self.

(** A kernel with forty free pages. *)
#[export] Instance kend2 : KernelImage := PHYSTOP - 163848.
#[export] Instance text2 : KernelText := { etext := KERNBASE; trampoline := KERNBASE }.

Definition ram2 : bytemap := seqmap (PHYSTOP - 163840) (replicate (Z.to_nat 163840) 0).

Lemma ram2_block :
  is_block (PGROUNDUP kend) (Z.of_nat (Z.to_nat ((PHYSTOP - PGROUNDUP kend) / PGSIZE)) * PGSIZE) ram2.
Proof.
  assert (PGROUNDUP kend = PHYSTOP - 163840) as -> by (vm_compute; reflexivity).
  assert (Z.of_nat (Z.to_nat ((PHYSTOP - (PHYSTOP - 163840)) / PGSIZE)) * PGSIZE = Z.of_nat (Z.to_nat 163840)) as ->
    by (vm_compute; reflexivity).
  apply is_block_replicate. split; lia.
Qed.

Lemma ram2_buffer p bs : p + Z.of_nat (length bs) ≤ PHYSTOP - 163840 → ram2 ##ₘ seqmap p bs.
Proof. intros Hp. unfold ram2. apply seqmap_disjoint. right. exact Hp. Qed.

#[local] Opaque ram2.

(** The state after boot, beside any other memory. *)
Lemma booted2 u : ram2 ##ₘ u → ∃ s ps, kvalid s u ps ∧ length ps = 40%nat.
Proof.
  intros Hd. destruct (kinit_run (mkst (ram2 ∪ u) (mkkmem false 0)) u ram2) as (s & _ & Hs);
    [split; vm_compute; reflexivity|reflexivity|reflexivity|exact Hd|exact ram2_block|].
  eexists s, _. split; [exact Hs|]. vm_compute. reflexivity.
Qed.

(** A page table with the two pages every process has, beside what there is. *)
Lemma new_table (P : hprop) (s : st kmem) u ps :
  sat (P ∗ kmem_inv (glob s) ps)%I (mem s) u → (5 ≤ length ps)%nat →
  ∃ s' t f N ps', sat (P ∗ pt 2 t f N ∗ kmem_inv (glob s') ps')%I (mem s') u ∧ layout 4096 f 0 ∧ (length ps = length ps' + N ∧ N ≤ 5)%nat.
Proof.
  intros Hs Hl. edestruct (sat_run (proc_pagetable 4096) (λ _ g',
      ∃ t f N ps', ⌜layout 4096 f 0 ∧ (length ps = length ps' + N ∧ N ≤ 5)%nat⌝ ∗ (P ∗ pt 2 t f N ∗ kmem_inv g' ps'))%I)
    as (r & s' & _ & Hsat); [done|exact Hs| |].
  { iIntros "[HP Hk]". iApply (wp_proc_pagetable with "Hk"); [done|done|]. iSplit.
    - iIntros (g' ps' t f N (_ & H1 & H2)) "Ht Hk". iExists t, f, N, ps'. iSplit; [done|]. iFrame "HP Ht Hk".
    - iIntros (g' ps' [_ H1]). lia. }
  do 4 (apply sat_exist in Hsat as [? Hsat]). apply sat_pure in Hsat as [[H1 H2] Hsat]. by do 5 eexists.
Qed.

(** A parent of one page and an empty child. *)
Lemma forking : ∃ s told f N U tnew f0 N0 ps, forkstate s ∅ told f N U 1 tnew f0 N0 0 ps ∧ f0 0 = 0 ∧ (3 ≤ length ps)%nat.
Proof.
  destruct (booted2 ∅ (map_disjoint_empty_r _)) as (s & ps & Hs & Hl). destruct ps as [|t ps]; [done|].
  destruct (uvmcreate_run _ _ _ _ Hs) as (s1 & _ & Hs1). specialize (Hs1 (λ _, 0) ltac:(done)).
  destruct (uvmalloc_run _ _ _ _ _ _ _ _ 0 4096 PTE_W Hs1) as (r & s2 & _ & Hcase); [done..|].
  change (Z.to_nat (PGROUNDUP 4096 / PGSIZE)) with 1%nat in Hcase. simpl in Hl.
  destruct Hcase as [(_ & f & N & ps2 & [HU Hs2] & Hc & _)|(_ & N' & ps' & _ & Hc)]; [|lia].
  destruct (new_table (pt 2 t f N ∗ umem f (uzero (λ _, 0) (Z.of_nat 0 * PGSIZE)) 1)%I s2 ∅ ps2) as (s3 & tnew & f0 & N0 & ps3 & Hs3 & Hlay & Hc3).
  { eapply sat_mono; [|exact Hs2]. iIntros "(Ht & Hu & Hk)". iFrame "Ht Hu Hk". } { lia. }
  exists s3, t, f, N, (uzero (λ _, 0) (Z.of_nat 0 * PGSIZE)), tnew, f0, N0, ps3. split_and!; [split; [done|]| |].
  - eapply sat_mono; [|exact Hs3]. iIntros "([Ht Hu] & Hn & Hk)". iFrame "Ht Hu Hn Hk". done.
  - apply Hlay; done.
  - lia.
Qed.

Lemma uvmcopy_correct_witness : ∃ s told tnew s', uvmcopy told tnew 4096 s = Ok 0 s'.
Proof.
  destruct forking as (s & told & f & N & U & tnew & f0 & N0 & ps & Hs & Hf0 & Hl).
  destruct (uvmcopy_correct s ∅ told f N U 1 tnew f0 N0 ps 4096 Hs) as (r & s' & Hrun & Hcase); [done|done|done|done| |].
  { intros w Hw. by replace w with 0 by lia. }
  exists s, told, tnew, s'. destruct Hcase as [[-> _]|(_ & N1 & ps' & _ & Hc)]; [exact Hrun|lia].
Defined.
End ImageWitness.
