(* ===== verification/Exec.v ===== *)
(** * kernel/exec.c

    [exec] on byte memory: the image is built in a page table of its own and
    replaces the old one at the end, or is given back.  The file system is an
    interface, [ExecFs], with the protocol of its calls as laws. *)
From S2P Require Import Prelude Param Mem CString Block Sep SepRun Kalloc Vm VmSpec VmUser VmCopy VmImage.
From iris.proofmode Require Import proofmode.
From stdpp Require Import functions.

#[local] Open Scope Z_scope.

(** ** Interface and state *)

(** What [exec] calls in fs.c and log.c; [xf_readi] into a kernel buffer gives its
    result and the bytes. *)
Class ExecFs (E : Type) := {
  xf_begin_op : M E unit;
  xf_end_op : M E unit;
  xf_namei : list Z → M E (option nat);
  xf_ilock : nat → M E unit;
  xf_readi : nat → Z → Z → M E (Z * list Z);
  xf_iunlockput : nat → M E unit;
}.

(** The fields of [struct proc] that [exec] uses; [xname] is the address of [name]. *)
Record xproc := mkxproc { xpagetable : Z; xsz : Z; xtrapframe : Z; xname : Z }.
Record xst (E : Type) := mkxst { xkmem : kmem; xproc_of : xproc; xfs : E }.
Arguments mkxst {E} _ _ _.
Arguments xkmem {E} _.
Arguments xproc_of {E} _.
Arguments xfs {E} _.

#[export] Program Instance xst_kmem E : HasKmem (xst E) := {
  kmem_of := xkmem;
  set_kmem k g := mkxst k (xproc_of g) (xfs g);
}.
Solve All Obligations with by intros; repeat match goal with g : xst _ |- _ => destruct g end.

(** kernel/elf.h *)
Definition ELF_MAGIC : Z := 1179403647.
Definition ELF_PROG_LOAD : Z := 1.
Definition sizeof_elfhdr : Z := 64.
Definition sizeof_proghdr : Z := 56.
Definition field (bs : list Z) (off n : nat) : Z := le_combine (take n (drop off bs)).

(** The fields of [struct elfhdr] that [exec] uses, and [struct proghdr]. *)
Record elfhdr := mkelfhdr { elf_magic : Z; elf_entry : Z; elf_phoff : Z; elf_phnum : Z }.
Definition elfhdr_of (bs : list Z) : elfhdr := mkelfhdr (field bs 0 4) (field bs 24 8) (field bs 32 8) (field bs 56 2).
Record proghdr := mkproghdr {
  ph_type : Z; ph_flags : Z; ph_off : Z; ph_vaddr : Z; ph_paddr : Z; ph_filesz : Z; ph_memsz : Z; ph_align : Z }.
Definition proghdr_of (bs : list Z) : proghdr :=
  mkproghdr (field bs 0 4) (field bs 4 4) (field bs 8 8) (field bs 16 8) (field bs 24 8) (field bs 32 8) (field bs 40 8) (field bs 48 8).

(** ** Code *)

Section code.
Context {E : Type} `{ExecFs E, KernelImage, KernelText}.
Abbreviation X A := (M (st (xst E)) A).

Definition fsop {A} (m : M E A) : X A :=
  zoom (λ s, xfs (glob s)) (λ e s, mkst (mem s) (mkxst (xkmem (glob s)) (xproc_of (glob s)) e)) m.

(** The bytes [readi] copies to a kernel buffer. *)
Definition put_bytes (a : Z) (bs : list Z) : X unit := λ s,
  match storebytes (mem s) a bs with Some m => Ok () (mkst m (glob s)) | None => Err (Fault a) end.

(** The characters of a string, which the callee reads. *)
Fixpoint chars (fuel : nat) (a : Z) : X (list Z) :=
  match fuel with
  | O => fail NoFuel
  | S fuel => c ← load 1 a; if c =? 0 then mret [] else l ← chars fuel (a + 1); mret (c :: l)
  end.
Definition cstring (a : Z) : X (list Z) := with_state (λ s, chars (size (mem s)) a).

Definition flags2perm (flags : Z) : Z :=
  let perm := if truth (Z.land flags 1) then PTE_X else 0 in
  if truth (Z.land flags 2) then Z.lor perm PTE_W else perm.

(** [loadseg] from byte [i] on; [n] bounds the rounds. *)
Fixpoint loadseg_loop (n : nat) (pagetable va : Z) (ip : nat) (offset sz i : Z) : X Z :=
  match n with
  | O => fail NoFuel
  | S n =>
      if negb (i <? sz) then mret 0 else
      pa ← walkaddr pagetable (u64 (va + i));
      when (pa =? 0) (fail (Panic "loadseg: address should exist"));;
      let k := if u32 (sz - i) <? PGSIZE then u32 (sz - i) else PGSIZE in
      '(r, bs) ← fsop (xf_readi ip (u32 (offset + i)) k);
      put_bytes pa bs;;
      if negb (r =? k) then mret (-1) else
      loadseg_loop n pagetable va ip offset sz (u32 (i + PGSIZE))
  end.
Definition loadseg (pagetable va : Z) (ip : nat) (offset sz : Z) : X Z :=
  loadseg_loop (Z.to_nat (sz / PGSIZE) + 2) pagetable va ip offset sz 0.

(** A segment to load: whether it succeeded, and the size of the process then. *)
Definition load_segment (pagetable : Z) (ip : nat) (ph : proghdr) (sz : Z) : X (bool * Z) :=
  if ph_memsz ph <? ph_filesz ph then mret (false, sz) else
  if u64 (ph_vaddr ph + ph_memsz ph) <? ph_vaddr ph then mret (false, sz) else
  if negb (ph_vaddr ph `mod` PGSIZE =? 0) then mret (false, sz) else
  sz1 ← uvmalloc pagetable sz (u64 (ph_vaddr ph + ph_memsz ph)) (flags2perm (ph_flags ph));
  if sz1 =? 0 then mret (false, sz) else
  r ← loadseg pagetable (ph_vaddr ph) ip (u32 (ph_off ph)) (u32 (ph_filesz ph));
  mret (negb (r <? 0), sz1).

(** The loop over the program headers, with [k] to go. *)
Fixpoint load_loop (k : nat) (pagetable : Z) (ip : nat) (off sz : Z) : X (bool * Z) :=
  match k with
  | O => mret (true, sz)
  | S k =>
      '(r, bs) ← fsop (xf_readi ip (u32 off) sizeof_proghdr);
      let ph := proghdr_of bs in
      if negb (r =? sizeof_proghdr) then mret (false, sz) else
      if negb (ph_type ph =? ELF_PROG_LOAD) then load_loop k pagetable ip (s32 (off + sizeof_proghdr)) sz else
      '(ok, sz) ← load_segment pagetable ip ph sz;
      if negb ok then mret (false, sz) else
      load_loop k pagetable ip (s32 (off + sizeof_proghdr)) sz
  end.

(** The loop that pushes the argument strings: [argc] and the stack pointer. *)
Fixpoint push_loop (fuel : nat) (pagetable ustack stackbase argv argc sp : Z) : X (option (Z * Z)) :=
  match fuel with
  | O => fail NoFuel
  | S fuel =>
      a ← load 8 (argv + 8 * argc);
      if a =? 0 then mret (Some (argc, sp)) else
      if MAXARG <=? argc then mret None else
      n ← strlen a;
      let sp := u64 (sp - (n + 1)) in
      let sp := sp - sp `mod` 16 in
      if sp <? stackbase then mret None else
      n ← strlen a;
      r ← copyout pagetable sp a (n + 1);
      if r <? 0 then mret None else
      store 8 (ustack + 8 * argc) sp;;
      push_loop fuel pagetable ustack stackbase argv (argc + 1) sp
  end.

(** The strings and the array of pointers to them. *)
Definition push_args (pagetable ustack stackbase argv sp : Z) : X (option (Z * Z)) :=
  r ← push_loop 34 pagetable ustack stackbase argv 0 sp;
  match r with
  | None => mret None
  | Some (argc, sp) =>
      store 8 (ustack + 8 * argc) 0;;
      let sp := u64 (sp - (argc + 1) * 8) in
      let sp := sp - sp `mod` 16 in
      if sp <? stackbase then mret None else
      r ← copyout pagetable sp ustack ((argc + 1) * 8);
      if r <? 0 then mret None else mret (Some (argc, sp))
  end.

(** Behind the last slash of the path. *)
Fixpoint last_loop (fuel : nat) (s last : Z) : X Z :=
  match fuel with
  | O => fail NoFuel
  | S fuel => c ← load 1 s; if c =? 0 then mret last else last_loop fuel (s + 1) (if c =? 47 then s + 1 else last)
  end.

(** The end of [exec], at [bad]. *)
Definition exec_bad (pagetable sz : Z) (ip : option nat) : X Z :=
  when (truth pagetable) (proc_freepagetable pagetable sz);;
  match ip with
  | Some ip => fsop (xf_iunlockput ip);; fsop xf_end_op;; mret (-1)
  | None => mret (-1)
  end.

(** The image is complete: the process is switched to it. *)
Definition exec_commit (p : xproc) (path pagetable sz oldsz entry argc sp : Z) : X Z :=
  store 8 (xtrapframe p + 120) sp;;
  last ← with_state (λ s, last_loop (size (mem s)) path path);
  safestrcpy (xname p) last 16;;
  let oldpagetable := xpagetable p in
  setg (λ g, mkxst (xkmem g) (mkxproc pagetable sz (xtrapframe p) (xname p)) (xfs g));;
  store 8 (xtrapframe p + 24) entry;;
  store 8 (xtrapframe p + 48) sp;;
  proc_freepagetable oldpagetable oldsz;;
  mret argc.

(** From the stack on, when the segments are loaded and the file is closed. *)
Definition exec_stack (ustack path argv pagetable sz entry : Z) : X Z :=
  p ← getg xproc_of;
  let oldsz := xsz p in
  let sz := PGROUNDUP sz in
  sz1 ← uvmalloc pagetable sz (u64 (sz + 2 * PGSIZE)) PTE_W;
  if sz1 =? 0 then exec_bad pagetable sz None else
  let sz := sz1 in
  uvmclear pagetable (u64 (sz - 2 * PGSIZE));;
  let stackbase := u64 (sz - PGSIZE) in
  r ← push_args pagetable ustack stackbase argv sz;
  match r with
  | None => exec_bad pagetable sz None
  | Some (argc, sp) => exec_commit p path pagetable sz oldsz entry argc sp
  end.

(** From the page table on, with the ELF header read. *)
Definition exec_load (ustack path argv : Z) (ip : nat) (elf : elfhdr) : X Z :=
  p ← getg xproc_of;
  pagetable ← proc_pagetable (xtrapframe p);
  if pagetable =? 0 then exec_bad 0 0 (Some ip) else
  '(ok, sz) ← load_loop (Z.to_nat (elf_phnum elf)) pagetable ip (s32 (elf_phoff elf)) 0;
  if negb ok then exec_bad pagetable sz (Some ip) else
  fsop (xf_iunlockput ip);;
  fsop xf_end_op;;
  exec_stack ustack path argv pagetable sz (elf_entry elf).

(** [ustack] is the address of the local array of that name. *)
Definition exec (ustack path argv : Z) : X Z :=
  fsop xf_begin_op;;
  l ← cstring path;
  o ← fsop (xf_namei l);
  match o with
  | None => fsop xf_end_op;; mret (-1)
  | Some ip =>
      fsop (xf_ilock ip);;
      '(r, bs) ← fsop (xf_readi ip 0 sizeof_elfhdr);
      let elf := elfhdr_of bs in
      if negb (r =? sizeof_elfhdr) then exec_bad 0 0 (Some ip) else
      if negb (elf_magic elf =? ELF_MAGIC) then exec_bad 0 0 (Some ip) else
      exec_load ustack path argv ip elf
  end.
End code.

(** ** What the file system promises *)

(** The states a caller goes through: outside an operation, in one, with a
    reference to an inode, with the inode locked. *)
Class ExecFsLaws (E : Type) `{ExecFs E} := {
  xf_file : E → list Z → option (list Z);
  xf_ready : E → Prop;
  xf_op : E → Prop;
  xf_ref : nat → list Z → E → Prop;
  xf_locked : nat → list Z → E → Prop;
  xf_begin_law e : xf_ready e → ∃ e', xf_begin_op e = Ok () e' ∧ xf_op e' ∧ ∀ l, xf_file e' l = xf_file e l;
  xf_end_law e : xf_op e → ∃ e', xf_end_op e = Ok () e' ∧ xf_ready e';
  xf_namei_law l e : xf_op e → ∃ o e', xf_namei l e = Ok o e' ∧
    match o with
    | None => xf_file e l = None ∧ xf_op e'
    | Some ip => ∃ c, xf_file e l = Some c ∧ xf_ref ip c e'
    end;
  xf_ilock_law ip c e : xf_ref ip c e → ∃ e', xf_ilock ip e = Ok () e' ∧ xf_locked ip c e';
  xf_contents_law ip c e : xf_locked ip c e → Forall is_byte c ∧ Z.of_nat (length c) < 2 ^ 31;
  xf_readi_law ip c off n e : xf_locked ip c e → 0 ≤ off < 2 ^ 32 → 0 ≤ n < 2 ^ 32 →
    ∃ e', xf_readi ip off n e = Ok (file_read c off n) e' ∧ xf_locked ip c e';
  xf_unlock_law ip c e : xf_locked ip c e → ∃ e', xf_iunlockput ip e = Ok () e' ∧ xf_op e';
}.

Section steps.
Context {E : Type} `{ExecFs E, KernelImage, KernelText}.
Implicit Types (g : xst E) (e : E).

Definition with_fs (e : E) (g : xst E) : xst E := mkxst (xkmem g) (xproc_of g) e.

Lemma wp_fsop {A} (m : M E A) a e' (Φ : A → xst E → hprop) g :
  m (xfs g) = Ok a e' → Φ a (with_fs e' g) ⊢ wp (fsop m) Φ g.
Proof.
  intros Hm. constructor. intros h HΦ hf Hd Hok. exists a, (with_fs e' g), h. split_and!; [|done..].
  unfold fsop, zoom. simpl. by rewrite Hm.
Qed.

Lemma with_fs_id g : with_fs (xfs g) g = g.
Proof. by destruct g. Qed.

Lemma kmem_inv_fs e g ps : kmem_inv (with_fs e g) ps = kmem_inv g ps.
Proof. done. Qed.

(** Code that only reads a range of memory. *)
Lemma wp_readonly {A} (m : M (st (xst E)) A) a bs v (Φ : A → xst E → hprop) g :
  (∀ x : bytemap, seqmap a bs ⊆ x → m (mkst x g) = Ok v (mkst x g)) →
  bytes a bs -∗ (bytes a bs -∗ Φ v g) -∗ wp m Φ g.
Proof.
  iIntros (Hm) "Hb HΦ".
  iAssert (wp m (λ v' g', ⌜v' = v ∧ g' = g⌝ ∗ bytes a bs)%I g) with "[Hb]" as "Hwp".
  { iStopProof. constructor. intros h Hsub hf Hd Hok. exists v, g, h. split_and!; [|done|done|].
    - apply Hm. etrans; [exact Hsub|]. apply map_union_subseteq_l.
    - exists ∅, h. rewrite left_id_L. split_and!; [done|apply map_disjoint_empty_l|done|exact Hsub]. }
  iApply (wp_wand with "Hwp"). iIntros (v' g') "[[-> ->] Hb]". by iApply "HΦ".
Qed.

Lemma sub_cstr a l (x : bytemap) :
  Forall is_byte l → Forall (λ b, b ≠ 0) l → seqmap a (l ++ [0]) ⊆ x → cstr x a l.
Proof.
  intros Hb Hz Hs. split; [|done]. split; [by apply loadbytes_spec|]. apply Forall_app. by split; [|constructor].
Qed.

Lemma wp_strlen a l (Φ : Z → xst E → hprop) g :
  Forall is_byte l → Forall (λ b, b ≠ 0) l →
  bytes a (l ++ [0]) -∗ (bytes a (l ++ [0]) -∗ Φ (Z.of_nat (length l)) g) -∗ wp (strlen a) Φ g.
Proof. intros Hb Hz. apply wp_readonly. intros x Hx. by apply strlen_spec, sub_cstr. Qed.

Lemma chars_run fuel a l (x : bytemap) g :
  cstr x a l → (length l < fuel)%nat → chars fuel a (mkst x g) = Ok l (mkst x g).
Proof.
  revert a l. induction fuel as [|fuel IH]; intros a l Hl Hf; [lia|]. cbn [chars]. destruct l as [|c l].
  - apply cstr_nil in Hl. by runs (load1 x g a 0 Hl).
  - apply cstr_cons in Hl as (Hc & _ & Hz & Hl). runs (load1 x g a c Hc). destruct (Z.eqb_spec c 0); [done|].
    erewrite bind_ok by (apply (IH (a + 1) l Hl); simpl in Hf; lia). done.
Qed.

Lemma wp_cstring a l (Φ : list Z → xst E → hprop) g :
  Forall is_byte l → Forall (λ b, b ≠ 0) l →
  bytes a (l ++ [0]) -∗ (bytes a (l ++ [0]) -∗ Φ l g) -∗ wp (cstring a) Φ g.
Proof.
  intros Hb Hz. apply wp_readonly. intros x Hx. pose proof (sub_cstr a l x Hb Hz Hx) as Hc.
  apply chars_run; [done|]. by eapply cstr_size.
Qed.

(** Behind the last slash of a path at [a]. *)
Fixpoint last_of (a : Z) (l : list Z) (last : Z) : Z :=
  match l with
  | [] => last
  | c :: l => last_of (a + 1) l (if c =? 47 then a + 1 else last)
  end.

Lemma last_of_range a l last : last_of a l last = last ∨ a ≤ last_of a l last ≤ a + Z.of_nat (length l).
Proof.
  revert a last. induction l as [|c l IH]; intros a last; [by left|]. cbn [last_of length].
  destruct (IH (a + 1) (if c =? 47 then a + 1 else last)); destruct (c =? 47); lia.
Qed.

Lemma last_run fuel a l (x : bytemap) last g :
  cstr x a l → (length l < fuel)%nat → last_loop fuel a last (mkst x g) = Ok (last_of a l last) (mkst x g).
Proof.
  revert a l last. induction fuel as [|fuel IH]; intros a l last Hl Hf; [lia|]. cbn [last_loop]. destruct l as [|c l].
  - apply cstr_nil in Hl. by runs (load1 x g a 0 Hl).
  - apply cstr_cons in Hl as (Hc & _ & Hz & Hl). runs (load1 x g a c Hc). destruct (Z.eqb_spec c 0); [done|].
    cbn [last_of]. apply (IH (a + 1) l); [done|]. simpl in Hf. lia.
Qed.

(** The last component of the path, which is a string of its own. *)
Lemma wp_last path l (Φ : Z → xst E → hprop) g :
  Forall is_byte l → Forall (λ b, b ≠ 0) l →
  bytes path (l ++ [0]) -∗ (∀ k, ⌜(k ≤ length l)%nat⌝ -∗ bytes path (l ++ [0]) -∗ Φ (path + Z.of_nat k) g) -∗
  wp (with_state (λ s, last_loop (size (mem s)) path path)) Φ g.
Proof.
  iIntros (Hb Hz) "Hp HΦ". iApply (wp_readonly with "Hp").
  { intros x Hx. unfold with_state. pose proof (sub_cstr path l x Hb Hz Hx) as Hc. apply (last_run _ _ l); [done|]. by eapply cstr_size. }
  iIntros "Hp". pose proof (last_of_range path l path) as Hr. assert (∃ k, last_of path l path = path + Z.of_nat k ∧ (k ≤ length l)%nat) as (k & -> & Hk).
  { exists (Z.to_nat (last_of path l path - path)). lia. }
  iApply ("HΦ" with "[//] Hp").
Qed.

(** The bytes are put where they are allowed to be. *)
Lemma wp_put_bytes a bs (Φ : unit → xst E → hprop) g :
  Forall is_byte bs →
  anybytes a (Z.of_nat (length bs)) -∗ (bytes a bs -∗ Φ () g) -∗ wp (put_bytes a bs) Φ g.
Proof.
  iIntros (Hb) "Ho HΦ". unfold anybytes. iDestruct "Ho" as (old [Hl _]) "Ho".
  iAssert (wp (put_bytes a bs) (λ _ g', ⌜g' = g⌝ ∗ bytes a bs)%I g) with "[Ho]" as "Hwp".
  { iStopProof. constructor. intros h Hsub hf Hd Hok. apply map_subseteq_split in Hsub as (h3 & -> & Hd3).
    apply map_disjoint_union_l in Hd as [Hdw Hdf].
    assert (dom (seqmap a old) = dom (seqmap a bs)) as Hdom by (apply dom_seqmap_same; lia).
    assert (∀ h', seqmap a old ##ₘ h' → seqmap a bs ##ₘ h') as Hdis. { intros h'. rewrite !map_disjoint_dom Hdom. done. }
    exists (), g, (seqmap a bs ∪ h3). rewrite -!(assoc_L (∪)). split_and!; [| |done|].
    - unfold put_bytes. simpl. rewrite storebytes_spec; [done|lia|]. by apply map_disjoint_union_r.
    - apply map_disjoint_union_l; auto.
    - exists ∅, (seqmap a bs ∪ h3). rewrite left_id_L. split_and!; [done|apply map_disjoint_empty_l|done|apply map_union_subseteq_l]. }
  iApply (wp_wand with "Hwp"). iIntros ([] g') "[-> Hb]". by iApply "HΦ".
Qed.

(** [safestrcpy] into a buffer of [n] bytes. *)
Lemma wp_safestrcpy_loop s t l n (Φ : Z → xst E → hprop) g :
  Forall is_byte l → Forall (λ b, b ≠ 0) l →
  anybytes s (Z.of_nat n) -∗ bytes t (l ++ [0]) -∗
  (∀ s', ⌜s ≤ s' ≤ s + Z.of_nat n⌝ -∗ anybytes s (Z.of_nat n) -∗ bytes t (l ++ [0]) -∗ Φ s' g) -∗
  wp (safestrcpy_loop s t n) Φ g.
Proof.
  revert s t l. induction n as [|n IH]; intros s t l Hb Hz; iIntros "Hs Ht HΦ"; cbn [safestrcpy_loop].
  { iApply wp_ret. iApply ("HΦ" with "[%] Hs Ht"). lia. }
  iDestruct (anybytes_cut s _ 1 with "Hs") as "[H1 Hs]"; [lia|]. replace (Z.of_nat (S n) - 1) with (Z.of_nat n) by lia.
  iEval (rewrite (anybytes_word 1)) in "H1". iDestruct "H1" as (v) "H1".
  assert (∃ c l', l ++ [0] = c :: l' ∧ is_byte c ∧ (c ≠ 0 → ∃ l2, l = c :: l2 ∧ l' = l2 ++ [0])) as (c & l' & El & Hc & Hl').
  { destruct l as [|c l]; [by exists 0, []|]. exists c, (l ++ [0]). inversion Hb; subst. split_and!; [done|done|]. eauto. }
  iEval (rewrite El bytes_cons byte_word //) in "Ht". iDestruct "Ht" as "[Hc Ht]".
  iApply wp_bind. iApply (wp_load with "Hc"). iIntros "Hc". iApply wp_bind. iApply (wp_store with "H1"); [done|]. iIntros "H1".
  iEval (rewrite (word_anybytes 1)) in "H1". replace (Z.of_nat (S n)) with (1 + Z.of_nat n) by lia.
  assert (bytes t (l ++ [0]) ⊣⊢ word 1 t c ∗ bytes (t + 1) l') as Et by by rewrite El bytes_cons byte_word.
  unfold truth. destruct (Z.eqb_spec c 0) as [->|Hc0]; simpl negb; cbv iota.
  - iApply wp_ret. iApply ("HΦ" with "[%] [H1 Hs] [Hc Ht]"); [lia| |rewrite Et; iFrame].
    by iApply (anybytes_join with "H1 Hs"); lia.
  - destruct (Hl' Hc0) as (l2 & -> & ->). inversion Hb; inversion Hz; subst.
    iApply (IH with "Hs Ht"); [done|done|]. iIntros (s' Hs') "Hs Ht".
    iApply ("HΦ" with "[%] [H1 Hs] [Hc Ht]"); [lia| |rewrite Et; iFrame]. by iApply (anybytes_join with "H1 Hs"); lia.
Qed.

Lemma wp_safestrcpy s t l n (Φ : Z → xst E → hprop) g :
  0 < n < 2 ^ 31 → Forall is_byte l → Forall (λ b, b ≠ 0) l →
  anybytes s n -∗ bytes t (l ++ [0]) -∗ (anybytes s n -∗ bytes t (l ++ [0]) -∗ Φ s g) -∗ wp (safestrcpy s t n) Φ g.
Proof.
  iIntros (Hn Hb Hz) "Hs Ht HΦ". unfold safestrcpy. rewrite -> swrap_small by lia. destruct (Z.leb_spec n 0); [lia|].
  iDestruct (anybytes_cut s n (n - 1) with "Hs") as "[Hs Hl]"; [lia|]. replace (n - (n - 1)) with 1 by lia.
  iApply wp_bind. replace (n - 1) with (Z.of_nat (Z.to_nat (n - 1))) at 1 by lia.
  iApply (wp_safestrcpy_loop with "Hs Ht"); [done|done|]. rewrite -> Z2Nat.id by lia. iIntros (s' Hs') "Hs Ht".
  iDestruct (anybytes_join with "Hs Hl") as "Hs"; [lia|lia|]. replace (n - 1 + 1) with n by lia.
  assert (∃ k, s' = s + k ∧ 0 ≤ k < n) as (k & -> & Hk) by (exists (s' - s); lia).
  iDestruct (anybytes_cut s n k with "Hs") as "[Hs Hl]"; [lia|].
  iDestruct (anybytes_cut (s + k) _ 1 with "Hl") as "[H1 Hl]"; [lia|]. iEval (rewrite (anybytes_word 1)) in "H1". iDestruct "H1" as (v) "H1".
  iApply wp_bind. iApply (wp_store with "H1"); [done|]. iIntros "H1". iEval (rewrite (word_anybytes 1)) in "H1".
  iApply wp_ret. iApply ("HΦ" with "[Hs H1 Hl] Ht").
  iDestruct (anybytes_join with "H1 Hl") as "Hl"; [lia|lia|].
  iDestruct (anybytes_join with "Hs Hl") as "Hs"; [lia|lia|]. by replace (k + (Z.of_nat 1 + (n - k - 1))) with n by lia.
Qed.
End steps.

(** ** Segments *)

(** Bytes [i] to [sz] of the segment at [off] of a file. *)
Definition seg (c : list Z) (off i sz : Z) : list Z := take (Z.to_nat (sz - i)) (drop (Z.to_nat (off + i)) c).

Lemma seg_nil c off i sz : sz ≤ i → seg c off i sz = [].
Proof. intros Hi. unfold seg. by replace (Z.to_nat (sz - i)) with 0%nat by lia. Qed.

Lemma seg_cut c off i k sz :
  0 ≤ off + i → 0 ≤ k → i + k ≤ sz →
  take (Z.to_nat k) (drop (Z.to_nat (off + i)) c) ++ seg c off (i + k) sz = seg c off i sz.
Proof.
  intros H1 H2 H3. unfold seg. replace (Z.to_nat (sz - i)) with (Z.to_nat k + Z.to_nat (sz - (i + k)))%nat by lia.
  rewrite -take_take_drop drop_drop. repeat f_equal; lia.
Qed.

Lemma seg_length c off i sz :
  0 ≤ off + i → i ≤ sz → off + sz ≤ Z.of_nat (length c) → Z.of_nat (length (seg c off i sz)) = sz - i.
Proof. intros H1 H2 H3. unfold seg. rewrite length_take length_drop. lia. Qed.

Lemma seg_bytes c off i sz : Forall is_byte c → Forall is_byte (seg c off i sz).
Proof. intros Hc. by apply Forall_take, Forall_drop. Qed.

Section load.
Context {E : Type} `{HFS : ExecFs E, HLaws : !ExecFsLaws E, HKI : KernelImage, HKT : KernelText}.
Implicit Types (g : xst E) (e : E) (f : Z → Z).

Lemma wp_page_put U w pa bs (Φ : unit → xst E → hprop) g :
  Z.of_nat (length bs) ≤ PGSIZE → Forall is_byte bs → ubytes U →
  bytes pa (upg U w) -∗ (bytes pa (upg (uwrite U (w * PGSIZE) bs) w) -∗ Φ () g) -∗ wp (put_bytes pa bs) Φ g.
Proof.
  iIntros (Hl Hb HU) "Hp HΦ".
  iEval (rewrite (bytes_upg_cut U w (w * PGSIZE) (Z.of_nat (length bs)) pa ltac:(lia) ltac:(lia) ltac:(lia))) in "Hp".
  rewrite Z.sub_diag Z.add_0_r. iDestruct "Hp" as "(Hp1 & Hp2 & Hp3)".
  iDestruct (bytes_anybytes with "Hp2") as "Hp2"; [by apply ubytes_uread|].
  rewrite -> length_uread by lia. iApply (wp_put_bytes with "Hp2"); [done|]. iIntros "Hp2". iApply "HΦ".
  rewrite (bytes_upg_cut (uwrite U (w * PGSIZE) bs) w (w * PGSIZE) (Z.of_nat (length bs)) pa ltac:(lia) ltac:(lia) ltac:(lia)).
  rewrite uread_uwrite Z.sub_diag Z.add_0_r. rewrite -> !uread_uwrite_ne by lia. iFrame.
Qed.

(** What [loadseg] did to the user memory [U] from byte [i] on, with result [r]. *)
Definition loaded c off va sz i U r U' : Prop :=
  ubytes U' ∧ (∀ a, ¬ (va + i ≤ a < va + sz) → U' a = U a) ∧
  (r = -1 ∧ i < sz ∧ Z.of_nat (length c) < off + sz ∨ r = 0 ∧ (sz ≤ i ∨ off + sz ≤ Z.of_nat (length c)) ∧ ∀ a, U' a = uwrite U (va + i) (seg c off i sz) a).

Lemma wp_loadseg_loop fuel t f N U n ip c va off sz i ps (Φ : Z → xst E → hprop) g :
  va `mod` PGSIZE = 0 → i `mod` PGSIZE = 0 → 0 ≤ va → 0 ≤ i → 0 ≤ sz → va + sz ≤ Z.of_nat n * PGSIZE →
  Z.of_nat n < 2 ^ 20 → 0 ≤ off < 2 ^ 32 → (i = 0 ∨ sz ≤ i ∨ off + i ≤ Z.of_nat (length c)) →
  ubytes U → (∀ w, 0 ≤ w < Z.of_nat n → accessible f w) → xf_locked ip c (xfs g) →
  (Z.max 0 (sz - i) + PGSIZE - 1) / PGSIZE < Z.of_nat fuel →
  pt 2 t f N -∗ umem f U n -∗ kmem_inv g ps -∗
  (∀ r e' U', ⌜xf_locked ip c e' ∧ loaded c off va sz i U r U'⌝ -∗
     pt 2 t f N -∗ umem f U' n -∗ kmem_inv (with_fs e' g) ps -∗ Φ r (with_fs e' g)) -∗
  wp (loadseg_loop fuel t va ip off sz i) Φ g.
Proof.
  assert (PGSIZE = 4096) as Hpg by done. assert (MAXVA = 2 ^ 38) as Hmax by done.
  revert U i g. induction fuel as [|fuel IH]; intros U i g Hva Hi Hva0 Hi0 Hsz0 Hsz Hn Hoff Hoi HU Hacc Hlk Hfuel.
  { rewrite Hpg in Hfuel. dlia. }
  iIntros "Ht Hu Hk HΦ". cbn [loadseg_loop]. destruct (Z.ltb_spec i sz) as [Hlt|Hge]; simpl negb; cbv iota; last first.
  { iApply wp_ret. iSpecialize ("HΦ" $! 0 (xfs g) U). rewrite with_fs_id. iApply ("HΦ" with "[%] Ht Hu Hk"). split; [done|]. split_and!; [done|done|]. right. split_and!; [done|by left|].
    intros a. rewrite -> seg_nil by done. by rewrite uwrite_nil. }
  iDestruct (kmem_inv_kend with "Hk") as %Hkend. destruct (xf_contents_law ip c _ Hlk) as [Hcb Hcl].
  set (w := (va + i) / PGSIZE). assert (va + i = w * PGSIZE) as Hw by (unfold w; rewrite -> Hpg in *; dlia).
  assert (0 ≤ w < Z.of_nat n) as Hwn by (rewrite -> Hpg in *; lia).
  rewrite -> (wrap_small 64) by lia. rewrite Hw. iApply wp_bind. iApply (wp_walkaddr with "Ht Hk"); [lia|]. iIntros "Ht Hk".
  rewrite -> decide_True by auto.
  iDestruct (accessible_user f U w n with "Hu") as (pa (Hpa & Hpa0 & _)) "[Hp Hu]"; [done|done|auto|].
  rewrite Hpa. destruct (Z.eqb_spec pa 0); [done|]. iApply wp_bind. iApply wp_ret.
  rewrite -> (wrap_small 32 (sz - i)) by lia. set (k := if sz - i <? PGSIZE then sz - i else PGSIZE).
  assert (0 < k ≤ PGSIZE ∧ i + k ≤ sz ∧ (k = PGSIZE ∨ i + k = sz)) as (Hk1 & Hk2 & Hk3).
  { unfold k. destruct (Z.ltb_spec (sz - i) PGSIZE); lia. }
  clearbody k. rewrite -> (wrap_small 32 (off + i)) by lia.
  destruct (xf_readi_law ip c (off + i) k _ Hlk) as (e1 & Hrd & Hlk1); [lia|lia|].
  iApply wp_bind. iApply wp_fsop; [exact Hrd|]. destruct (file_read c (off + i) k) as [r bs] eqn:Hfr.
  pose proof (file_read_bytes c (off + i) k Hcb) as Hbs. pose proof (file_read_length c (off + i) k ltac:(lia) ltac:(lia)) as Hlen.
  rewrite Hfr in Hbs Hlen. simpl in Hbs, Hlen.
  iApply wp_bind. iApply (wp_page_put with "Hp"); [lia|done|done|]. iIntros "Hp". set (U1 := uwrite U (w * PGSIZE) bs).
  assert (ubytes U1) as HU1 by by apply ubytes_uwrite.
  assert (∀ a, ¬ (va + i ≤ a < va + i + k) → U1 a = U a) as Hsame.
  { intros a Ha. unfold U1, uwrite. rewrite decide_False; [done|]. lia. }
  iSpecialize ("Hu" $! U1 with "[%] [//] Hp").
  { intros a Ha. apply Hsame. intros Hc. apply Ha. unfold w. rewrite -> Hpg in *. dlia. }
  iEval (rewrite -(kmem_inv_fs e1)) in "Hk".
  destruct (Z.eqb_spec r k) as [->|Hne]; simpl negb; cbv iota; last first.
  { iApply wp_ret. iApply ("HΦ" $! (-1) e1 U1 with "[%] Ht Hu Hk"). split; [done|]. split_and!; [done|intros a Ha; apply Hsame; lia|left].
    split_and!; [done|done|]. destruct (decide (off + i + k ≤ Z.of_nat (length c))) as [Hfit|]; [|lia].
    pose proof (file_read_fit c (off + i) k ltac:(lia) Hfit Hcl) as Hk'. by rewrite Hfr in Hk'. }
  apply file_read_full in Hfr as [Hfit Hbe]; [|lia|lia]. rewrite -> (wrap_small 32) by lia.
  iApply (IH U1 (i + PGSIZE) (with_fs e1 g) with "Ht Hu Hk"); [done|rewrite -> Hpg in *; dlia|done|lia|done|done|done|done| |done|done|done| |].
  { destruct Hk3 as [->|Hk3]; lia. }
  { rewrite -> Hpg in *. dlia. }
  iIntros (r e' U' (Hlk' & HU' & Hout & Hr)) "Ht Hu Hk".
  iApply ("HΦ" $! r e' U' with "[%] Ht Hu Hk"). split; [done|]. split_and!; [done| |].
  { intros a Ha. rewrite Hout; [|lia]. apply Hsame. lia. }
  destruct Hr as [(-> & H1 & H2)|(-> & Hr & HUa)]; [left; split_and!; [done|lia|done]|right]. split_and!; [done| |].
  { destruct Hk3 as [->|Hk3]; lia. }
  intros a. rewrite HUa -(seg_cut c off i k sz); [|lia..]. rewrite -Hbe -uwrite_app Hw. fold U1.
  assert (length bs = Z.to_nat k) as Hlb by (rewrite Hbe length_take length_drop; lia).
  destruct Hk3 as [->|Hk3].
  - by replace (w * PGSIZE + Z.of_nat (length bs)) with (va + (i + PGSIZE)) by lia.
  - by rewrite -> !seg_nil, !uwrite_nil by lia.
Qed.
(** ** The image *)

Lemma field_range bs off n : Forall is_byte bs → 0 ≤ field bs off n < 256 ^ Z.of_nat n.
Proof.
  intros Hb. unfold field. assert (Forall is_byte (take n (drop off bs))) as Hb' by by apply Forall_take, Forall_drop.
  pose proof (le_combine_range _ Hb') as Hr. assert (length (take n (drop off bs)) ≤ n)%nat as Hl by (rewrite length_take; lia).
  assert (256 ^ Z.of_nat (length (take n (drop off bs))) ≤ 256 ^ Z.of_nat n) by (apply Z.pow_le_mono_r; lia). lia.
Qed.

(** The program header at [off] of a file, and user memory with the segments of
    [k] headers from [off] on. *)
Definition header_bytes (c : list Z) (off : Z) : list Z := (file_read c (u32 off) sizeof_proghdr).2.
Definition header (c : list Z) (off : Z) : proghdr := proghdr_of (header_bytes c off).
Definition load_header (c : list Z) (ph : proghdr) (U : Z → Z) : Z → Z :=
  if ph_type ph =? ELF_PROG_LOAD then uwrite U (ph_vaddr ph) (seg c (u32 (ph_off ph)) 0 (ph_filesz ph)) else U.
Fixpoint load_image (k : nat) (c : list Z) (off : Z) (U : Z → Z) : Z → Z :=
  match k with
  | O => U
  | S k => load_image k c (s32 (off + sizeof_proghdr)) (load_header c (header c off) U)
  end.

(** A header of a segment that fits the file and a memory of [sz] bytes. *)
Definition header_ok (c : list Z) (sz off : Z) : Prop :=
  let ph := header c off in
  Z.of_nat (length (header_bytes c off)) = sizeof_proghdr ∧
  (ph_type ph = ELF_PROG_LOAD → ph_filesz ph ≤ ph_memsz ph ∧ ph_vaddr ph `mod` PGSIZE = 0 ∧
     ph_vaddr ph + ph_memsz ph ≤ sz ∧ (ph_filesz ph = 0 ∨ u32 (ph_off ph) + ph_filesz ph ≤ Z.of_nat (length c))).
(** What [exec] needs beyond that: not a first segment without bytes. *)
Definition header_fits (c : list Z) (sz off : Z) : Prop :=
  header_ok c sz off ∧ (ph_type (header c off) = ELF_PROG_LOAD → 0 < ph_vaddr (header c off) + ph_memsz (header c off)).

(** [P] of the offsets of [k] headers from [off] on. *)
Fixpoint headers (P : Z → Prop) (k : nat) (off : Z) : Prop :=
  match k with
  | O => True
  | S k => P off ∧ headers P k (s32 (off + sizeof_proghdr))
  end.

Lemma load_header_ext c ph U V : (∀ a, U a = V a) → ∀ a, load_header c ph U a = load_header c ph V a.
Proof. intros HU a. unfold load_header, uwrite. destruct (_ =? _); [|done]. by case_decide. Qed.

Lemma load_image_ext k c off U V : (∀ a, U a = V a) → ∀ a, load_image k c off U a = load_image k c off V a.
Proof.
  revert off U V. induction k as [|k IH]; intros off U V HU; [done|]. cbn [load_image]. apply IH. by apply load_header_ext.
Qed.

(** An image of [n] pages and [sz] bytes in a table of [N] pages, with [ps] free. *)
Definition img (tf : Z) f (N n : nat) (U : Z → Z) (sz : Z) (T : nat) (ps : list Z) : Prop :=
  layout tf f n ∧ (∀ a, Z.of_nat n * PGSIZE ≤ a → U a = 0) ∧ ubytes U ∧ 0 ≤ sz ∧
  PGROUNDUP sz = Z.of_nat n * PGSIZE ∧ sz ≤ Z.of_nat n * PGSIZE ∧ (length ps + N + n = T)%nat.
Definition all_accessible f (n : nat) : Prop := ∀ w, 0 ≤ w < Z.of_nat n → accessible f w.

Lemma layout_MAXVA tf f n : layout tf f n → Z.of_nat n * PGSIZE < MAXVA.
Proof.
  intros (_ & _ & Hn & _). destruct top_pages as (_ & E2 & _ & _). assert (PGSIZE = 4096) as Hpg by done.
  assert (MAXVA = 2 ^ 38) as Hm by done. lia.
Qed.

(** At most five pages for the table of no pages, and two for every page. *)
Definition lean (N n : nat) : Prop := (N ≤ 5 + 2 * n)%nat.

(** [uvmalloc] on an image. *)
Definition grown_img tf f f' (N' n n' : nat) U sz T newsz xperm r ps' : Prop :=
  (r = 0 ∧ img tf f' N' n' U sz T ps' ∧ (newsz = 0 ∨ Z.of_nat T * PGSIZE < 3 * newsz + 8 * PGSIZE) ∨
   r ≠ 0 ∧ r = Z.max sz newsz ∧ img tf f' N' n' U r T ps' ∧ lean N' n') ∧
  (n ≤ n')%nat ∧ (∀ w, ¬ (Z.of_nat n ≤ w < Z.of_nat n') → f' w = f w) ∧
  (∀ w, Z.of_nat n ≤ w < Z.of_nat n' → PTE_FLAGS (f' w) = uflags xperm ∧ accessible f' w).

Lemma wp_grow_img tf t f N n U sz T newsz xperm ps (Φ : Z → xst E → hprop) g :
  img tf f N n U sz T ps → lean N n → Z.of_nat T < 2 ^ 20 → 0 ≤ newsz < 2 ^ 64 → 0 ≤ xperm < 1024 →
  pt 2 t f N -∗ umem f U n -∗ kmem_inv g ps -∗
  (∀ r g' f' N' n' ps', ⌜kept g g' ∧ grown_img tf f f' N' n n' U sz T newsz xperm r ps'⌝ -∗
     pt 2 t f' N' -∗ umem f' U n' -∗ kmem_inv g' ps' -∗ Φ r g') -∗
  wp (uvmalloc t sz newsz xperm) Φ g.
Proof.
  iIntros ((Hl & HU & Hb & Hsz & Hup & Hle & HT) Hlean HT2 Hnew Hx) "Ht Hu Hk HΦ".
  pose proof (layout_MAXVA _ _ _ Hl) as Hmax. iApply wp_kept; [apply keeps_uvmalloc|].
  iApply (wp_grow with "Ht Hu Hk"); [done|done|done|done|lia|done|done|lia|].
  iIntros (r g' f' N' n' ps' [(Hl' & Hn & Hf1 & Hf2 & Hr) Hc]) "Ht Hu Hk %Hkept".
  pose proof (layout_MAXVA _ _ _ Hl') as Hmax'. assert (PGSIZE = 4096) as Hpg by done.
  assert (∀ a, Z.of_nat n' * PGSIZE ≤ a → U a = 0) as HU' by (intros a Ha; apply HU; lia).
  iApply ("HΦ" $! r g' f' N' n' ps' with "[%] Ht Hu Hk"). split; [done|]. split_and!; [|done|done|].
  - unfold lean in *. destruct Hr as [(-> & -> & Hwhy)|(Hr0 & Hr1 & Hr2 & Hr3 & Hr4)]; [left|right].
    + split_and!; [done|split_and!; try done; lia|]. lia.
    + split_and!; [done|done|split_and!; try done; lia|lia].
  - intros w Hw. split; [auto|]. apply (uflags_accessible _ _ xperm); [lia|auto].
Qed.

Lemma flags2perm_range flags : 0 ≤ flags2perm flags < 1024.
Proof. unfold flags2perm. by destruct (truth (Z.land flags 1)), (truth (Z.land flags 2)). Qed.

Lemma grown_accessible f f' (n n' : nat) :
  all_accessible f n → (∀ w, ¬ (Z.of_nat n ≤ w < Z.of_nat n') → f' w = f w) →
  (∀ w, Z.of_nat n ≤ w < Z.of_nat n' → accessible f' w) → all_accessible f' n'.
Proof.
  intros Ha H1 H2 w Hw. destruct (decide (Z.of_nat n ≤ w)); [apply H2; lia|].
  unfold accessible. rewrite -> H1 by lia. apply Ha. lia.
Qed.

(** [loadseg] on an image that the segment fits. *)
Lemma wp_loadseg tf t f N n U sz T ip c va off fsz ps (Φ : Z → xst E → hprop) g :
  img tf f N n U sz T ps → Z.of_nat T < 2 ^ 20 → all_accessible f n → xf_locked ip c (xfs g) →
  va `mod` PGSIZE = 0 → 0 ≤ va → 0 ≤ fsz → va + fsz ≤ sz → 0 ≤ off < 2 ^ 32 →
  pt 2 t f N -∗ umem f U n -∗ kmem_inv g ps -∗
  (∀ r e' U', ⌜xf_locked ip c e' ∧ img tf f N n U' sz T ps ∧
       (r = -1 ∧ fsz ≠ 0 ∧ Z.of_nat (length c) < off + fsz ∨ r = 0 ∧ (fsz = 0 ∨ off + fsz ≤ Z.of_nat (length c)) ∧ ∀ a, U' a = uwrite U va (seg c off 0 fsz) a)⌝ -∗
     pt 2 t f N -∗ umem f U' n -∗ kmem_inv (with_fs e' g) ps -∗ Φ r (with_fs e' g)) -∗
  wp (loadseg t va ip off (u32 fsz)) Φ g.
Proof.
  iIntros ((Hl & HU & Hb & Hsz & Hup & Hle & HT) HT2 Hacc Hlk Hm Hva Hf Hfit Hoff) "Ht Hu Hk HΦ".
  assert (PGSIZE = 4096) as Hpg by done. rewrite -> wrap_small by lia. unfold loadseg.
  iApply (wp_loadseg_loop with "Ht Hu Hk"); [done|done|done|lia|done|lia|lia|done|by left|done|done|done|rewrite -> Hpg in *; dlia|].
  iIntros (r e' U' (Hlk' & HU' & Ho & Hr)) "Ht Hu Hk". rewrite !Z.add_0_r in Ho Hr.
  iApply ("HΦ" $! r e' U' with "[%] Ht Hu Hk"). split_and!; [done| |].
  - split_and!; try done. intros a Ha. rewrite Ho; [auto|]. lia.
  - destruct Hr as [(-> & Hr1 & Hr2)|(-> & Hr & HUr)]; [left; lia|right]. split_and!; [done|lia|done].
Qed.

(** A file whose headers fit [S] bytes is loaded when there is memory for it. *)
Definition load_post tf (T : nat) ip c k off sz (U : Z → Z) (p : xproc) (ok : bool) sz' g' f' N' n' U' ps' : Prop :=
  xproc_of g' = p ∧ xf_locked ip c (xfs g') ∧ img tf f' N' n' U' sz' T ps' ∧
  (ok = true → all_accessible f' n' ∧ lean N' n' ∧ sz ≤ sz' ∧ headers (header_ok c sz') k off ∧
     (∀ S, sz ≤ S → headers (header_fits c S) k off → sz' ≤ S) ∧
     ∀ a, U' a = load_image k c off U a) ∧
  (ok = false → ∀ S, headers (header_fits c S) k off → Z.of_nat T * PGSIZE < 3 * S + 8 * PGSIZE).

Lemma load_post_bad tf T ip c k off sz U p sz' g' f' N' n' U' ps' :
  xproc_of g' = p → xf_locked ip c (xfs g') → img tf f' N' n' U' sz' T ps' →
  (∀ S, headers (header_fits c S) k off → Z.of_nat T * PGSIZE < 3 * S + 8 * PGSIZE) →
  load_post tf T ip c k off sz U p false sz' g' f' N' n' U' ps'.
Proof. done. Qed.

Lemma header_ok_mono c sz sz' off : sz ≤ sz' → header_ok c sz off → header_ok c sz' off.
Proof.
  intros Hle [H1 H2]. split; [done|]. intros Hty. destruct (H2 Hty) as (H3 & H4 & H5 & H6). split_and!; [done|done|lia|done].
Qed.

(** One header after the other. *)
Lemma load_post_app tf T ip c k off sz sz1 U U1 p g1 f1 N1 n1 ps1 ok sz' g' f' N' n' U' ps' :
  load_post tf T ip c 1 off sz U p true sz1 g1 f1 N1 n1 U1 ps1 →
  load_post tf T ip c k (s32 (off + sizeof_proghdr)) sz1 U1 p ok sz' g' f' N' n' U' ps' →
  load_post tf T ip c (S k) off sz U p ok sz' g' f' N' n' U' ps'.
Proof.
  intros (_ & _ & _ & H1 & _) (L1 & L2 & L3 & L4 & L5). destruct (H1 eq_refl) as (_ & _ & Hsz & [Hh _] & Hup & HU).
  split_and!; [done|done|done| |].
  - intros Hok. destruct (L4 Hok) as (L6 & L7 & L8 & L9 & L10 & L11).
    split_and!; [done|done|lia|split; [by eapply header_ok_mono|done]| |].
    + intros S HS [Hf1 Hf2]. apply L10; [|done]. apply Hup; [done|]. by split.
    + intros a. rewrite L11. cbn [load_image]. by apply load_image_ext.
  - intros Hok S [_ HS]. by apply L5.
Qed.

(** A header that is skipped. *)
Lemma load_post_skip tf T ip c off sz U g f N n ps :
  img tf f N n U sz T ps → lean N n → all_accessible f n → xf_locked ip c (xfs g) →
  Z.of_nat (length (header_bytes c off)) = sizeof_proghdr → ph_type (header c off) ≠ ELF_PROG_LOAD →
  load_post tf T ip c 1 off sz U (xproc_of g) true sz g f N n U ps.
Proof.
  intros Hi Hlean Hacc Hlk Hlen Hty. split_and!; [done|done|done| |done]. intros _. split_and!; [done|done|done| |done|].
  - by split; [|done].
  - intros a. cbn [load_image]. unfold load_header. by destruct (Z.eqb_spec (ph_type (header c off)) ELF_PROG_LOAD).
Qed.

Lemma wp_load_segment tf t f N n U sz T ip c off ps (Φ : bool * Z → xst E → hprop) g :
  let ph := header c off in
  img tf f N n U sz T ps → lean N n → Z.of_nat T < 2 ^ 20 → all_accessible f n → xf_locked ip c (xfs g) →
  Z.of_nat (length (header_bytes c off)) = sizeof_proghdr → ph_type ph = ELF_PROG_LOAD →
  pt 2 t f N -∗ umem f U n -∗ kmem_inv g ps -∗
  (∀ ok sz' g' f' N' n' U' ps', ⌜load_post tf T ip c 1 off sz U (xproc_of g) ok sz' g' f' N' n' U' ps'⌝ -∗
     pt 2 t f' N' -∗ umem f' U' n' -∗ kmem_inv g' ps' -∗ Φ (ok, sz') g') -∗
  wp (load_segment t ip ph sz) Φ g.
Proof.
  iIntros (ph Hi Hlean HT Hacc Hlk Hlen Hty) "Ht Hu Hk HΦ". unfold load_segment.
  assert (PGSIZE = 4096) as Hpg by done. destruct (xf_contents_law ip c _ Hlk) as [Hcb Hcl].
  assert (Forall is_byte (header_bytes c off)) as Hpb by by apply file_read_bytes.
  pose proof (field_range _ 16 8 Hpb) as R1. pose proof (field_range _ 40 8 Hpb) as R2. pose proof (field_range _ 32 8 Hpb) as R3.
  change (field (header_bytes c off) 16 8) with (ph_vaddr ph) in R1. change (field (header_bytes c off) 40 8) with (ph_memsz ph) in R2.
  change (field (header_bytes c off) 32 8) with (ph_filesz ph) in R3. change (256 ^ Z.of_nat 8) with (2 ^ 64) in *.
  assert (∀ S, headers (header_fits c S) 1 off → ph_filesz ph ≤ ph_memsz ph ∧ ph_vaddr ph `mod` PGSIZE = 0 ∧
     0 < ph_vaddr ph + ph_memsz ph ≤ S ∧ (ph_filesz ph = 0 ∨ u32 (ph_off ph) + ph_filesz ph ≤ Z.of_nat (length c))) as Hfits.
  { intros S [[[_ Ho] Hpos] _]. destruct (Ho Hty) as (O1 & O2 & O3 & O4). specialize (Hpos Hty). by split_and!. }
  destruct (Z.ltb_spec (ph_memsz ph) (ph_filesz ph)) as [|Hms].
  { iApply wp_ret. iApply ("HΦ" $! false sz g f N n U ps with "[%] Ht Hu Hk"). apply load_post_bad; [done..|].
    intros S HS%Hfits. lia. }
  destruct (Z.ltb_spec (u64 (ph_vaddr ph + ph_memsz ph)) (ph_vaddr ph)) as [Hov|Hov].
  { iApply wp_ret. iApply ("HΦ" $! false sz g f N n U ps with "[%] Ht Hu Hk"). apply load_post_bad; [done..|].
    intros S HS%Hfits. destruct (decide (ph_vaddr ph + ph_memsz ph < 2 ^ 64)); [|lia].
    rewrite -> wrap_small in Hov by lia. lia. }
  assert (ph_vaddr ph + ph_memsz ph < 2 ^ 64) as Hsum. { unfold wrap in Hov. dlia. }
  destruct (Z.eqb_spec (ph_vaddr ph `mod` PGSIZE) 0) as [Hal|]; simpl negb; cbv iota; last first.
  { iApply wp_ret. iApply ("HΦ" $! false sz g f N n U ps with "[%] Ht Hu Hk"). apply load_post_bad; [done..|].
    intros S HS%Hfits. lia. }
  rewrite -> (wrap_small 64) by lia. iApply wp_bind.
  iApply (wp_grow_img with "Ht Hu Hk"); [done|done|done|lia|apply flags2perm_range|].
  iIntros (r g2 f2 N2 n2 ps2 (Hkept & Hr & Hn & Hf1 & Hf2)) "Ht Hu Hk". destruct Hkept as [km ->].
  destruct Hr as [(-> & Hi2 & Hwhy)|(Hr0 & Hr1 & Hi2 & Hlean2)].
  { rewrite Z.eqb_refl. iApply wp_ret. iApply ("HΦ" $! false sz (set_kmem km g) f2 N2 n2 U ps2 with "[%] Ht Hu Hk").
    apply load_post_bad; [done..|]. intros S HS%Hfits. lia. }
  destruct (Z.eqb_spec r 0); [done|]. assert (all_accessible f2 n2) as Hacc2.
  { apply (grown_accessible f f2 n); [done|done|]. intros w Hw. by apply Hf2. }
  iApply wp_bind. iApply (wp_loadseg with "Ht Hu Hk"); [exact Hi2|done|done|exact Hlk|done|lia|lia|lia|apply wrap_range; lia|].
  iIntros (r' e3 U3 (Hlk3 & Hi3 & Hr')) "Ht Hu Hk". iApply wp_ret.
  destruct Hr' as [(-> & Hz & Hend)|(-> & Hfl & HU3)].
  - iApply ("HΦ" $! false r (with_fs e3 (set_kmem km g)) f2 N2 n2 U3 ps2 with "[%] Ht Hu Hk").
    apply load_post_bad; [done..|]. intros S HS%Hfits. lia.
  - iApply ("HΦ" $! true r (with_fs e3 (set_kmem km g)) f2 N2 n2 U3 ps2 with "[%] Ht Hu Hk").
    split_and!; [done|done|done| |done]. intros _. split_and!; [done|done|lia| | |].
    + split; [|done]. split; [done|]. intros _. fold ph. split_and!; [done|done|lia|done].
    + intros S HS Hf%Hfits. lia.
    + intros a. cbn [load_image]. rewrite HU3. unfold load_header. fold ph. by rewrite Hty.
Qed.

Lemma wp_load_loop k tf t f N n U sz T ip c off ps (Φ : bool * Z → xst E → hprop) g :
  img tf f N n U sz T ps → lean N n → Z.of_nat T < 2 ^ 20 → all_accessible f n → xf_locked ip c (xfs g) →
  pt 2 t f N -∗ umem f U n -∗ kmem_inv g ps -∗
  (∀ ok sz' g' f' N' n' U' ps', ⌜load_post tf T ip c k off sz U (xproc_of g) ok sz' g' f' N' n' U' ps'⌝ -∗
     pt 2 t f' N' -∗ umem f' U' n' -∗ kmem_inv g' ps' -∗ Φ (ok, sz') g') -∗
  wp (load_loop k t ip off sz) Φ g.
Proof.
  revert f N n U sz off ps g. induction k as [|k IH]; intros f N n U sz off ps g Hi Hlean HT Hacc Hlk; iIntros "Ht Hu Hk HΦ"; cbn [load_loop].
  { iApply wp_ret. by iApply ("HΦ" $! true sz g f N n U ps with "[%] Ht Hu Hk"). }
  assert (PGSIZE = 4096) as Hpg by done. destruct (xf_contents_law ip c _ Hlk) as [Hcb Hcl].
  pose proof (wrap_range 32 off ltac:(lia)) as Hoff.
  destruct (xf_readi_law ip c (u32 off) sizeof_proghdr _ Hlk) as (e1 & Hrd & Hlk1); [done|done|].
  iApply wp_bind. iApply wp_fsop; [exact Hrd|]. iEval (rewrite -(kmem_inv_fs e1)) in "Hk". set (g1 := with_fs e1 g).
  rewrite (surjective_pairing (file_read c (u32 off) sizeof_proghdr)). rewrite file_read_count; [|lia|done].
  fold (header_bytes c off). fold (header c off).
  destruct (Z.eqb_spec (Z.of_nat (length (header_bytes c off))) sizeof_proghdr) as [Hlph|Hlph]; simpl negb; cbv iota; last first.
  { iApply wp_ret. iApply ("HΦ" $! false sz g1 f N n U ps with "[%] Ht Hu Hk"). apply load_post_bad; [done..|].
    intros S [[[Hs _] _] _]. congruence. }
  change (field (header_bytes c off) 0 4) with (ph_type (header c off)).
  destruct (Z.eqb_spec (ph_type (header c off)) ELF_PROG_LOAD) as [Hty|Hty]; simpl negb; cbv iota; last first.
  { iApply (IH with "Ht Hu Hk"); [done|done|done|done|done|]. iIntros (ok sz' g' f' N' n' U' ps' Hpost) "Ht Hu Hk".
    iApply ("HΦ" $! ok sz' g' f' N' n' U' ps' with "[%] Ht Hu Hk"). eapply load_post_app, Hpost. by apply (load_post_skip _ _ _ _ _ _ _ g1). }
  iApply wp_bind. iApply (wp_load_segment with "Ht Hu Hk"); [done|done|done|done|done|done|done|].
  iIntros (ok1 sz1 g2 f1 N1 n1 U1 ps1 Hpost) "Ht Hu Hk". pose proof Hpost as (P1 & P2 & P3 & P4 & P5).
  destruct ok1; simpl negb; cbv iota; last first.
  { iApply wp_ret. iApply ("HΦ" $! false sz1 g2 f1 N1 n1 U1 ps1 with "[%] Ht Hu Hk"). apply load_post_bad; [done..|].
    intros S [HS _]. by apply P5. }
  destruct (P4 eq_refl) as (P6 & P7 & _). change (xproc_of g1) with (xproc_of g) in *. rewrite -P1. iApply (IH with "Ht Hu Hk"); [done|done|done|done|done|].
  iIntros (ok sz' g' f' N' n' U' ps' Hpost') "Ht Hu Hk".
  iApply ("HΦ" $! ok sz' g' f' N' n' U' ps' with "[%] Ht Hu Hk"). by eapply load_post_app, Hpost'.
Qed.
End load.

(** ** The stack *)

(** The strings [args] at the addresses that the array [argv] holds. *)
Definition argv_mem (argv : Z) (args : list (Z * list Z)) : hprop :=
  (([∗ list] i ↦ x ∈ args, (argv + 8 * Z.of_nat i) ↦₈ x.1 ∗ bytes x.1 (x.2 ++ [0])) ∗
   (argv + 8 * Z.of_nat (length args)) ↦₈ 0)%I.
Definition arg_ok (x : Z * list Z) : Prop :=
  x.1 ≠ 0 ∧ Forall is_byte x.2 ∧ Forall (λ b, b ≠ 0) x.2 ∧ Z.of_nat (length x.2) < PGSIZE.

(** Aligned copies of the strings between [lo] and [hi] in user memory. *)
Definition pushed (U : Z → Z) (lo hi : Z) (ptrs : list Z) (args : list (Z * list Z)) : Prop :=
  Forall2 (λ p x, lo ≤ p ∧ p + Z.of_nat (length x.2) + 1 ≤ hi ∧ p `mod` 16 = 0 ∧
                  uread U p (Z.of_nat (length x.2) + 1) = x.2 ++ [0]) ptrs args.

(** The bytes of stack that the strings take. *)
Definition up16 (n : Z) : Z := (n + 15) / 16 * 16.
Definition need (args : list (Z * list Z)) : Z := foldr (λ x k, up16 (Z.of_nat (length x.2) + 1) + k) 0 args.

Lemma need_app args1 args2 : need (args1 ++ args2) = need args1 + need args2.
Proof. induction args1 as [|x args1 IH]; [done|]. cbn [need foldr app] in *. fold (need (args1 ++ args2)) (need args1). rewrite IH. lia. Qed.

Lemma need_ok args : need args `mod` 16 = 0 ∧ 0 ≤ need args.
Proof.
  induction args as [|x args [IH1 IH2]]; [done|]. cbn [need foldr]. fold (need args). unfold up16. split; dlia.
Qed.

Lemma align_up16 s n : s `mod` 16 = 0 → s - n - (s - n) `mod` 16 = s - up16 n.
Proof. unfold up16. intros Hs. dlia. Qed.

Definition words (ptrs : list Z) : list Z := mjoin (le_split 8 <$> ptrs).

Lemma words_cons p ptrs : words (p :: ptrs) = le_split 8 p ++ words ptrs.
Proof. done. Qed.

Lemma length_words ptrs : Z.of_nat (length (words ptrs)) = 8 * Z.of_nat (length ptrs).
Proof. induction ptrs as [|p ptrs IH]; [done|]. rewrite words_cons length_app length_le_split. cbn [length]. lia. Qed.

Lemma words_snoc ptrs p : words (ptrs ++ [p]) = words ptrs ++ le_split 8 p.
Proof.
  induction ptrs as [|q ptrs IH]; [by rewrite words_cons app_nil_r|].
  rewrite -app_comm_cons !words_cons IH. by rewrite app_assoc.
Qed.

Lemma words_bytes ptrs : Forall is_byte (words ptrs).
Proof. induction ptrs as [|p ptrs IH]; [constructor|]. rewrite words_cons. apply Forall_app. split; [apply le_split_bytes|done]. Qed.

(** Writing below the strings does not change them. *)
Lemma pushed_write U lo lo' hi ptrs args dst bs :
  dst + Z.of_nat (length bs) ≤ lo → lo' ≤ lo → pushed U lo hi ptrs args → pushed (uwrite U dst bs) lo' hi ptrs args.
Proof.
  intros Hd Hlo. apply Forall2_impl. intros p x (H1 & H2 & H3 & H4). split_and!; [lia|done|done|].
  rewrite uread_uwrite_ne; [done|]. lia.
Qed.

Lemma pushed_snoc U lo hi ptrs args dst x :
  dst + Z.of_nat (length x.2) + 1 ≤ lo → lo ≤ hi → dst `mod` 16 = 0 → pushed U lo hi ptrs args →
  pushed (uwrite U dst (x.2 ++ [0])) dst hi (ptrs ++ [dst]) (args ++ [x]).
Proof.
  intros Hd Hlo Hal Hp. apply Forall2_app.
  - apply (pushed_write U lo); [rewrite length_app; simpl; lia|lia|done].
  - constructor; [|constructor]. split_and!; [done|lia|done|].
    pose proof (uread_uwrite U dst (x.2 ++ [0])) as Hr. rewrite length_app Nat2Z.inj_add in Hr. exact Hr.
Qed.

Section stack.
Context {E : Type} `{HFS : ExecFs E, HLaws : !ExecFsLaws E, HKI : KernelImage, HKT : KernelText}.
Implicit Types (g : xst E) (e : E) (f : Z → Z).

Lemma upages_pte f c v n w x :
  v ≤ w < v + Z.of_nat n →
  upages f c v n ⊢ upage (f w) (c w) ∗ (upage x (c w) -∗ upages (<[w := x]> f) c v n).
Proof.
  revert v; induction n as [|n IH]; intros v Hw; [lia|]. simpl.
  iIntros "[Hp Hu]". destruct (decide (w = v)) as [->|Hne].
  - iFrame "Hp". iIntros "Hp". rewrite fn_lookup_insert. iFrame "Hp".
    iApply (upages_ext with "Hu"). intros y Hy. rewrite fn_lookup_insert_ne; [done|lia].
  - iDestruct (IH with "Hu") as "[$ Hu]"; [lia|]. iIntros "Hw". rewrite fn_lookup_insert_ne; [|done].
    iFrame "Hp". by iApply "Hu".
Qed.

(** The user flag of a PTE cleared. *)
Lemma clear_user x pa :
  user_pte x pa (uflags PTE_W) → 0 < kend → Z.land x (u64 (Z.lnot PTE_U)) = pa / 4096 * 1024 + 7 ∧ 0 ≤ x < 2 ^ 64.
Proof.
  intros (-> & Hok & _) Hk. pose proof (page_ok_range pa Hk Hok) as Hr. change (uflags PTE_W) with 23.
  assert (0 ≤ pa / 4096 * 1024 + 23 < 2 ^ 64) as Hx by dlia. split; [|done].
  rewrite -> land_wrap by lia. rewrite -Z.ldiff_land. change PTE_U with 16.
  rewrite -Z.sub_nocarry_ldiff; [lia|]. apply Z.bits_inj'. intros b Hb. rewrite Z.bits_0 Z.ldiff_spec.
  destruct (decide (b = 4)) as [->|Hne].
  - assert (Z.testbit (PTE_FLAGS (pa / 4096 * 1024 + 23)) 4 = true) as Ht by by rewrite PTE_FLAGS_of.
    unfold PTE_FLAGS in Ht. rewrite Z.land_spec in Ht. apply andb_true_iff in Ht as [-> _]. done.
  - change 16 with (2 ^ 4). rewrite -> Z.pow2_bits_eqb by lia. by destruct (Z.eqb_spec 4 b); [lia|].
Qed.

Lemma wp_uvmclear t w f N U n ps (Φ : unit → xst E → hprop) g :
  0 ≤ w < Z.of_nat n → w * PGSIZE < MAXVA → PTE_FLAGS (f w) = uflags PTE_W →
  pt 2 t f N -∗ umem f U n -∗ kmem_inv g ps -∗
  (∀ x, ⌜¬ accessible (<[w := x]> f) w⌝ -∗ pt 2 t (<[w := x]> f) N -∗ umem (<[w := x]> f) U n -∗ kmem_inv g ps -∗ Φ () g) -∗
  wp (uvmclear t (w * PGSIZE)) Φ g.
Proof.
  iIntros (Hw Hm Hfl) "Ht Hu Hk HΦ". unfold uvmclear. assert (PGSIZE = 4096) as Hpg by done.
  iDestruct (kmem_inv_kend with "Hk") as %Hkend.
  iDestruct (upages_pte _ _ _ _ w (Z.land (f w) (u64 (Z.lnot PTE_U))) with "Hu") as "[(%pa & %fl & [%Hpte %Hc] & Hp) Hu]"; [lia|].
  assert (fl = uflags PTE_W) as ->.
  { rewrite -Hfl. destruct Hpte as (-> & _ & _ & _ & Hr). by rewrite PTE_FLAGS_of. }
  destruct (clear_user _ _ Hpte Hkend) as [Hx Hxr]. rewrite Hx.
  iApply wp_bind. iApply (wp_walk _ _ _ _ false with "Ht Hk"); [lia|]. rewrite -> Z.div_mul by lia. iSplit; last first.
  { iIntros (g' N' (Hz & _)). rewrite Hz in Hfl. by vm_compute in Hfl. }
  iIntros (r g' ps' N' (Hr & HN & Hsame)) "Hr Hc Hk". destruct (Hsame eq_refl) as [-> ->]. replace N' with N by lia.
  destruct (Z.eqb_spec r 0); [done|]. iApply wp_bind. iApply wp_ret. iApply wp_bind. iApply (wp_load with "Hr"). iIntros "Hr".
  rewrite Hx. pose proof Hpte as (_ & Hok & _). pose proof (page_ok_range pa Hkend Hok) as Hpr.
  iApply (wp_store with "Hr"); [change (256 ^ Z.of_nat 8) with (2 ^ 64); dlia|]. iIntros "Hr".
  iApply ("HΦ" with "[%] [Hr Hc] [Hp Hu] Hk"); [|by iApply "Hc"|].
  - intros (_ & _ & Ha). rewrite fn_lookup_insert in Ha. apply Ha. apply Z.bits_inj'. intros b Hb. rewrite Z.bits_0 Z.land_spec.
    destruct (decide (b = 4)) as [->|]; last first. { change PTE_U with (2 ^ 4). rewrite -> Z.pow2_bits_eqb by lia. destruct (Z.eqb_spec 4 b); [lia|]. by rewrite andb_false_r. }
    assert (Z.testbit (PTE_FLAGS (pa / 4096 * 1024 + 7)) 4 = false) as Hf by by rewrite PTE_FLAGS_of.
    unfold PTE_FLAGS in Hf. rewrite Z.land_spec andb_true_r in Hf. by rewrite Hf.
  - iApply "Hu". iExists pa, 7. iFrame "Hp". iPureIntro. split; [|exact Hc]. unfold user_pte. by split_and!.
Qed.

(** The kernel's pages are no user pages. *)
Lemma layout_accessible tf f n w : text_ok → 0 ≤ tf < 2 ^ 56 → layout tf f n → accessible f w → w < Z.of_nat n.
Proof.
  intros Htx Htf (F1 & F2 & Hn & F3) (Hm & Hv & Hu). destruct top_pages as (E1 & E2 & _ & _).
  assert (PGSIZE = 4096) as Hpg by done. assert (MAXVA = 2 ^ 38) as Hmax by done.
  assert (∀ pa fl, 0 ≤ fl < 1024 → Z.land fl PTE_U = 0 → Z.land (pa / 4096 * 1024 + fl) PTE_U = 0) as Hno.
  { intros pa fl Hfl Hz. change PTE_U with (Z.land 1023 PTE_U). rewrite Z.land_assoc.
    fold (PTE_FLAGS (pa / 4096 * 1024 + fl)). by rewrite PTE_FLAGS_of. }
  destruct (decide (w < Z.of_nat n)); [done|]. exfalso. apply Hu.
  destruct (decide (w = TRAMPV)) as [->|]. { rewrite F1 mk_pte_flags; [by apply Hno|done|done]. }
  destruct (decide (w = TRAPFRAMEV)) as [->|]. { rewrite F2 mk_pte_flags; [by apply Hno|done|done]. }
  rewrite F3; [done| |done|done]. unfold span. change (512 ^ Z.of_nat 3) with (2 ^ 27). lia.
Qed.

(** [copyout] to the last page. *)
Lemma wp_copyout_stack tf t f N U n dst src bs ps (Φ : Z → xst E → hprop) g :
  text_ok → 0 ≤ tf < 2 ^ 56 → layout tf f n → accessible f (Z.of_nat n - 1) → ubytes U → Forall is_byte bs →
  (1 ≤ n)%nat → (Z.of_nat n - 1) * PGSIZE ≤ dst → dst + Z.of_nat (length bs) ≤ Z.of_nat n * PGSIZE →
  pt 2 t f N -∗ umem f U n -∗ kmem_inv g ps -∗ bytes src bs -∗
  (pt 2 t f N -∗ umem f (uwrite U dst bs) n -∗ kmem_inv g ps -∗ bytes src bs -∗ Φ 0 g) -∗
  wp (copyout t dst src (Z.of_nat (length bs))) Φ g.
Proof.
  iIntros (Htx Htf Hl Hacc HU Hb Hn Hd1 Hd2) "Ht Hu Hk Hs HΦ". unfold copyout.
  assert (PGSIZE = 4096) as Hpg by done. assert (MAXVA = 2 ^ 38) as Hmax by done. pose proof (layout_MAXVA _ _ _ Hl) as Hm.
  iApply (wp_copyout_loop with "Ht Hu Hk Hs"); [lia|apply copy_fuel_enough; lia|done|done|by intros w; apply (layout_accessible tf)|].
  iIntros (m r (Hm1 & _ & Hr)) "Ht Hu Hk Hs". destruct Hr as [[-> ->]|(-> & Hlt & Hna)].
  - rewrite Nat2Z.id firstn_all. iApply ("HΦ" with "Ht Hu Hk Hs").
  - exfalso. apply Hna. rewrite -> wrap_small by lia. replace ((dst + m) / PGSIZE) with (Z.of_nat n - 1); [done|].
    rewrite -> Hpg in *. dlia.
Qed.

Definition stack_ok tf f (n : nat) : Prop :=
  text_ok ∧ 0 ≤ tf < 2 ^ 56 ∧ layout tf f n ∧ accessible f (Z.of_nat n - 1) ∧ (2 ≤ n)%nat.

(** The state between two arguments: [done] are pushed, the stack reaches down to [sp]. *)
Definition push_ok U (n : nat) sp ptrs args : Prop :=
  ubytes U ∧ sp = Z.of_nat n * PGSIZE - need args ∧ need args ≤ PGSIZE ∧ pushed U sp (Z.of_nat n * PGSIZE) ptrs args.
Definition stack_same (U U' : Z → Z) (n : nat) : Prop := ∀ a, ¬ ((Z.of_nat n - 1) * PGSIZE ≤ a < Z.of_nat n * PGSIZE) → U' a = U a.

Definition ustack_mem ustack (ptrs : list Z) : hprop :=
  (bytes ustack (words ptrs) ∗ anybytes (ustack + 8 * Z.of_nat (length ptrs)) (256 - 8 * Z.of_nat (length ptrs)))%I.

Lemma ustack_any ustack ptrs : (length ptrs ≤ 32)%nat → ustack_mem ustack ptrs ⊢ anybytes ustack 256.
Proof.
  iIntros (Hl) "[Hb Ha]". iDestruct (bytes_anybytes with "Hb") as "Hb"; [apply words_bytes|]. rewrite length_words.
  iDestruct (anybytes_join with "Hb Ha") as "H"; [lia|lia|]. by replace (8 * Z.of_nat (length ptrs) + (256 - 8 * Z.of_nat (length ptrs))) with 256 by lia.
Qed.

(** [ustack[i] = v] for the next [i]. *)
Lemma wp_ustack_store ustack ptrs v (Φ : unit → xst E → hprop) g :
  (length ptrs < 32)%nat → 0 ≤ v < 2 ^ 64 →
  ustack_mem ustack ptrs -∗ (ustack_mem ustack (ptrs ++ [v]) -∗ Φ () g) -∗
  wp (store 8 (ustack + 8 * Z.of_nat (length ptrs)) v) Φ g.
Proof.
  iIntros (Hl Hv) "[Hb Ha] HΦ". iDestruct (anybytes_cut _ _ 8 with "Ha") as "[H1 Ha]"; [lia|].
  iEval (rewrite (anybytes_word 8)) in "H1". iDestruct "H1" as (x) "H1".
  iApply (wp_store with "H1"); [done|]. iIntros "H1". iApply "HΦ". iEval (rewrite word_bytes) in "H1".
  unfold ustack_mem. rewrite words_snoc bytes_app length_words length_app. cbn [length]. iFrame "Hb H1".
  replace (ustack + 8 * Z.of_nat (length ptrs) + 8) with (ustack + 8 * Z.of_nat (length ptrs + 1)) by lia.
  by replace (256 - 8 * Z.of_nat (length ptrs) - 8) with (256 - 8 * Z.of_nat (length ptrs + 1)) by lia.
Qed.

Lemma wp_push_loop fuel tf t f N U n ustack argv args todo sofar ptrs sp ps (Φ : option (Z * Z) → xst E → hprop) g :
  stack_ok tf f n → Forall arg_ok args → args = sofar ++ todo → (length args < 32)%nat → (length todo < fuel)%nat →
  push_ok U n sp ptrs sofar →
  pt 2 t f N -∗ umem f U n -∗ kmem_inv g ps -∗ argv_mem argv args -∗ ustack_mem ustack ptrs -∗
  (∀ U', ⌜PGSIZE < need args⌝ -∗ pt 2 t f N -∗ umem f U' n -∗ kmem_inv g ps -∗ argv_mem argv args -∗ anybytes ustack 256 -∗ Φ None g) ∧
  (∀ U' sp' ptrs', ⌜push_ok U' n sp' ptrs' args ∧ stack_same U U' n⌝ -∗
     pt 2 t f N -∗ umem f U' n -∗ kmem_inv g ps -∗ argv_mem argv args -∗ ustack_mem ustack ptrs' -∗
     Φ (Some (Z.of_nat (length args), sp')) g) -∗
  wp (push_loop fuel t ustack ((Z.of_nat n - 1) * PGSIZE) argv (Z.of_nat (length ptrs)) sp) Φ g.
Proof.
  intros Hst Hargs. pose proof Hst as (Htx & Htf & Hl & Hacc & Hn). assert (PGSIZE = 4096) as Hpg by done.
  pose proof (layout_MAXVA _ _ _ Hl) as Hm. assert (MAXVA = 2 ^ 38) as Hmax by done.
  revert U todo sofar ptrs sp. induction fuel as [|fuel IH]; intros U todo sofar ptrs sp Hsplit Hlen Hfuel (HU & Hsp & Hneed & Hpu); [lia|].
  pose proof (Forall2_length Hpu) as Hlp. iIntros "Ht Hu Hk Ha Hus HΦ". cbn [push_loop]. destruct todo as [|x todo].
  { rewrite app_nil_r in Hsplit. subst sofar. unfold argv_mem. iDestruct "Ha" as "[Ha Hz]". rewrite Hlp.
    iApply wp_bind. iApply (wp_load with "Hz"). iIntros "Hz". iApply wp_ret. iDestruct "HΦ" as "[_ HΦ]".
    iApply ("HΦ" with "[//] Ht Hu Hk [$Ha $Hz] Hus"). }
  assert (args !! length ptrs = Some x) as Hx. { by rewrite Hsplit Hlp list_lookup_middle. }
  destruct (Forall_lookup_1 _ _ _ _ Hargs Hx) as (Hx0 & Hxb & Hxz & Hxl).
  unfold argv_mem. iDestruct "Ha" as "[Ha Hz]". iDestruct (big_sepL_lookup_acc _ _ _ _ Hx with "Ha") as "[[Hp Hs] Ha]".
  iApply wp_bind. iApply (wp_load with "Hp"). iIntros "Hp". destruct (Z.eqb_spec x.1 0); [done|].
  unfold MAXARG. rewrite Hsplit length_app in Hlen. destruct (Z.leb_spec 32 (Z.of_nat (length ptrs))); [lia|].
  iApply wp_bind. iApply (wp_strlen with "Hs"); [done|done|]. iIntros "Hs".
  destruct (need_ok sofar) as [Hmod Hpos]. destruct (need_ok todo) as [_ Hpos'].
  pose proof (need_app sofar (x :: todo)) as Hna. cbn [need foldr] in Hna. fold (need todo) (need sofar) in Hna. rewrite -Hsplit in Hna.
  rewrite -> (wrap_small 64) by lia. rewrite -> align_up16 by (rewrite Hsp Hpg; dlia).
  assert (Z.of_nat (length x.2) + 1 ≤ up16 (Z.of_nat (length x.2) + 1)) as Hup by (unfold up16; dlia).
  assert (up16 (Z.of_nat (length x.2) + 1) `mod` 16 = 0) as Hum by (unfold up16; dlia).
  set (sp2 := sp - up16 (Z.of_nat (length x.2) + 1)) in *.
  destruct (Z.ltb_spec sp2 ((Z.of_nat n - 1) * PGSIZE)) as [|Hge].
  { iApply wp_ret. iDestruct "HΦ" as "[HΦ _]". iApply ("HΦ" with "[%] Ht Hu Hk [Hp Hs Ha $Hz] [Hus]"); [lia|iApply "Ha"; iFrame|].
    iApply (ustack_any with "Hus"). lia. }
  iApply wp_bind. iApply (wp_strlen with "Hs"); [done|done|]. iIntros "Hs".
  replace (Z.of_nat (length x.2) + 1) with (Z.of_nat (length (x.2 ++ [0]))) by (rewrite length_app; simpl; lia).
  iApply wp_bind. iApply (wp_copyout_stack with "Ht Hu Hk Hs"); [done|done|done|done|done| |lia|done| |].
  { apply Forall_app. by split; [|constructor]. } { rewrite length_app. simpl length. lia. }
  iIntros "Ht Hu Hk Hs". change (0 <? 0) with false. cbv iota.
  iApply wp_bind. iApply (wp_ustack_store with "Hus"); [lia|lia|]. iIntros "Hus".
  replace (Z.of_nat (length ptrs) + 1) with (Z.of_nat (length (ptrs ++ [sp2]))) by (rewrite length_app; simpl; lia).
  iDestruct ("Ha" with "[$Hp $Hs]") as "Ha".
  iApply (IH (uwrite U sp2 (x.2 ++ [0])) todo (sofar ++ [x]) with "Ht Hu Hk [$Ha $Hz] Hus");
    [by rewrite Hsplit -app_assoc|rewrite Hsplit length_app; lia|simpl in Hfuel; lia| |].
  { pose proof (need_app sofar [x]) as Hn1. cbn [need foldr] in Hn1. fold (need sofar) in Hn1.
    split_and!; [|lia|lia|apply (pushed_snoc U sp); [lia|lia|rewrite Hpg in Hsp; dlia|done]]. apply ubytes_uwrite; [done|]. apply Forall_app. by split; [|constructor]. }
  iSplit; [iDestruct "HΦ" as "[$ _]"|]. iDestruct "HΦ" as "[_ HΦ]". iIntros (U' sp' ptrs' [Hpo Hsame]).
  iApply "HΦ". iPureIntro. split; [done|]. intros a Ha. rewrite Hsame; [|done]. unfold uwrite.
  rewrite decide_False; [done|]. rewrite length_app. simpl length. lia.
Qed.

(** The arguments of [main]: the strings and the array of pointers to them, at [sp]. *)
Definition args_on_stack U (n : nat) sp (args : list (Z * list Z)) : Prop :=
  (Z.of_nat n - 1) * PGSIZE ≤ sp < Z.of_nat n * PGSIZE ∧ sp `mod` 16 = 0 ∧
  ∃ ptrs, pushed U sp (Z.of_nat n * PGSIZE) ptrs args ∧ uread U sp (8 * (Z.of_nat (length args) + 1)) = words (ptrs ++ [0]).

Definition stack_need (args : list (Z * list Z)) : Z := need args + up16 (8 * (Z.of_nat (length args) + 1)).

Lemma wp_push_args tf t f N U n ustack argv args ps (Φ : option (Z * Z) → xst E → hprop) g :
  stack_ok tf f n → Forall arg_ok args → (length args < 32)%nat → ubytes U →
  pt 2 t f N -∗ umem f U n -∗ kmem_inv g ps -∗ argv_mem argv args -∗ anybytes ustack 256 -∗
  (∀ U', ⌜PGSIZE < stack_need args⌝ -∗ pt 2 t f N -∗ umem f U' n -∗ kmem_inv g ps -∗ argv_mem argv args -∗ anybytes ustack 256 -∗ Φ None g) ∧
  (∀ U' sp, ⌜ubytes U' ∧ args_on_stack U' n sp args ∧ stack_same U U' n⌝ -∗
     pt 2 t f N -∗ umem f U' n -∗ kmem_inv g ps -∗ argv_mem argv args -∗ anybytes ustack 256 -∗
     Φ (Some (Z.of_nat (length args), sp)) g) -∗
  wp (push_args t ustack ((Z.of_nat n - 1) * PGSIZE) argv (Z.of_nat n * PGSIZE)) Φ g.
Proof.
  iIntros (Hst Hargs Hlen HU) "Ht Hu Hk Ha Hus HΦ". unfold push_args. pose proof Hst as (Htx & Htf & Hl & Hacc & Hn).
  assert (PGSIZE = 4096) as Hpg by done. pose proof (layout_MAXVA _ _ _ Hl) as Hm. assert (MAXVA = 2 ^ 38) as Hmax by done.
  iApply wp_bind. iApply (wp_push_loop _ _ _ _ _ _ _ _ _ _ args [] [] with "Ht Hu Hk Ha [Hus]"); [done|done|done|done|lia| | |].
  { split_and!; [done|cbn; lia|done|constructor]. }
  { unfold ustack_mem. rewrite Z.mul_0_r Z.add_0_r. iFrame "Hus". iApply bytes_nil. }
  destruct (need_ok args) as [Hmod Hpos].
  set (k := 8 * (Z.of_nat (length args) + 1)). assert (k ≤ up16 k ∧ up16 k `mod` 16 = 0 ∧ 0 < k ≤ 256) as (Hk1 & Hk2 & Hk3) by (unfold k, up16; dlia).
  iSplit.
  { iIntros (U' Hno) "Ht Hu Hk Ha Hus". iApply wp_ret. iDestruct "HΦ" as "[HΦ _]".
    iApply ("HΦ" with "[%] Ht Hu Hk Ha Hus"). unfold stack_need. fold k. lia. }
  iIntros (U' sp ptrs [(HU' & Hsp & Hneed & Hpu) Hsame]) "Ht Hu Hk Ha Hus". pose proof (Forall2_length Hpu) as Hlp.
  rewrite -Hlp. iApply wp_bind. iApply (wp_ustack_store with "Hus"); [lia|lia|]. iIntros "Hus". rewrite Hlp.
  replace ((Z.of_nat (length args) + 1) * 8) with k by (unfold k; lia).
  rewrite -> (wrap_small 64) by lia. rewrite -> align_up16 by (rewrite Hsp Hpg; dlia). set (sp2 := sp - up16 k).
  destruct (Z.ltb_spec sp2 ((Z.of_nat n - 1) * PGSIZE)) as [|Hge].
  { iApply wp_ret. iDestruct "HΦ" as "[HΦ _]". iApply ("HΦ" with "[%] Ht Hu Hk Ha [Hus]"); [unfold stack_need; fold k; lia|].
    iApply (ustack_any with "Hus"). rewrite length_app. simpl. lia. }
  iDestruct "Hus" as "[Hw Hus]".
  assert (k = Z.of_nat (length (words (ptrs ++ [0])))) as Hk by (rewrite length_words length_app; simpl length; lia). rewrite Hk.
  iApply wp_bind. iApply (wp_copyout_stack with "Ht Hu Hk Hw"); [done|done|done|done|done|apply words_bytes|lia|done|lia|].
  iIntros "Ht Hu Hk Hw". change (0 <? 0) with false. cbv iota. iApply wp_ret. iDestruct "HΦ" as "[_ HΦ]".
  iApply ("HΦ" $! _ sp2 with "[%] Ht Hu Hk Ha [Hw Hus]"); last first.
  { iApply ustack_any; [|iSplitL "Hw"; [iExact "Hw"|iExact "Hus"]]. rewrite length_app. simpl. lia. }
  split_and!; [apply ubytes_uwrite; [done|apply words_bytes]| |].
  - split_and!; [done|lia|rewrite Hpg in Hsp; dlia|]. exists ptrs. split; [apply (pushed_write U' sp); [lia|lia|done]|].
    fold k. rewrite Hk. apply uread_uwrite.
  - intros a Hout. unfold uwrite. rewrite decide_False; [by apply Hsame|]. lia.
Qed.
End stack.
