(* ===== verification/ExecTheorems.v ===== *)
(** * exec as a whole

    The two ends of [exec], its specification, and the theorem that a run either
    replaces the process by the program in the file or changes nothing. *)
From S2P Require Import Prelude Param Mem CString Block Sep SepRun Kalloc Vm VmSpec VmUser VmCopy VmImage Exec.
From iris.proofmode Require Import proofmode.
From stdpp Require Import functions.

#[local] Open Scope Z_scope.

(** ** Specification *)

Section spec.
Context {E : Type} `{HFS : ExecFs E, HLaws : !ExecFsLaws E, HKI : KernelImage, HKT : KernelText}.
Implicit Types (g : xst E) (e : E) (f : Z → Z) (p : xproc).

(** The image of the process [p]: [n] pages with the bytes [U], in a table of [N] pages. *)
Definition image_ok p f (n : nat) : Prop :=
  layout (xtrapframe p) f n ∧ 0 ≤ xsz p ≤ Z.of_nat n * PGSIZE ∧ PGROUNDUP (xsz p) = Z.of_nat n * PGSIZE.
Definition proc_image p f (N n : nat) (U : Z → Z) : hprop :=
  (⌜image_ok p f n⌝ ∗ pt 2 (xpagetable p) f N ∗ umem f U n)%I.

(** What [exec] writes of the trapframe ([a1], [epc], [sp]), and the name. *)
Definition proc_frame p (a1 epc sp : Z) : hprop :=
  ((xtrapframe p + 120) ↦₈ a1 ∗ (xtrapframe p + 24) ↦₈ epc ∗ (xtrapframe p + 48) ↦₈ sp ∗ anybytes (xname p) 16)%I.

(** What the caller passes, and the local array. *)
Definition exec_args (ustack path argv : Z) (l : list Z) (args : list (Z * list Z)) : hprop :=
  (anybytes ustack 256 ∗ bytes path (l ++ [0]) ∗ argv_mem argv args)%I.
Definition args_ok (l : list Z) (args : list (Z * list Z)) : Prop :=
  Forall is_byte l ∧ Forall (λ b, b ≠ 0) l ∧ Forall arg_ok args ∧ (length args < 32)%nat.

(** The headers of a program file. *)
Definition elf_bytes (c : list Z) : list Z := (file_read c 0 sizeof_elfhdr).2.
Definition elf_of (c : list Z) : elfhdr := elfhdr_of (elf_bytes c).
Definition elf_ok (c : list Z) : Prop := Z.of_nat (length (elf_bytes c)) = sizeof_elfhdr ∧ elf_magic (elf_of c) = ELF_MAGIC.
Definition phnum (c : list Z) : nat := Z.to_nat (elf_phnum (elf_of c)).
Definition phoff (c : list Z) : Z := s32 (elf_phoff (elf_of c)).

(** The image of the program [c] called with [args]: the segments, a guard page
    that the user cannot access, and the stack. *)
Definition new_image (c : list Z) (args : list (Z * list Z)) f (n : nat) (U : Z → Z) (sp : Z) : Prop :=
  (2 ≤ n)%nat ∧ (∀ w, 0 ≤ w < Z.of_nat n → accessible f w ↔ w ≠ Z.of_nat n - 2) ∧
  headers (header_ok c ((Z.of_nat n - 2) * PGSIZE)) (phnum c) (phoff c) ∧
  (∀ a, a < (Z.of_nat n - 1) * PGSIZE → U a = load_image (phnum c) c (phoff c) (λ _, 0) a) ∧
  args_on_stack U n sp args.

(** A program of [S] bytes that can be run with [T] pages free. *)
Definition runnable (c : list Z) (args : list (Z * list Z)) (T : nat) : Prop :=
  elf_ok c ∧ stack_need args ≤ PGSIZE ∧
  ∃ S, 0 ≤ S ∧ headers (header_fits c S) (phnum c) (phoff c) ∧ 3 * S + 17 * PGSIZE ≤ Z.of_nat T * PGSIZE.

(** ** Lemmas *)

Lemma headers_mono (P Q : Z → Prop) k off : (∀ o, P o → Q o) → headers P k off → headers Q k off.
Proof. intros HPQ. revert off. induction k as [|k IH]; intros off; [done|]. intros [H1 H2]. split; [auto|]. by apply IH. Qed.

(** The inode is put back and the operation ended. *)
Lemma wp_close {A} ip c (k : M (st (xst E)) A) Φ g :
  xf_locked ip c (xfs g) →
  (∀ e', ⌜xf_ready e'⌝ -∗ wp k Φ (with_fs e' g)) ⊢ wp (fsop (xf_iunlockput ip);; fsop xf_end_op;; k) Φ g.
Proof.
  iIntros (Hlk) "HΦ". destruct (xf_unlock_law ip c _ Hlk) as (e1 & H1 & Hop). destruct (xf_end_law _ Hop) as (e2 & H2 & Hready).
  iApply wp_bind. iApply wp_fsop; [exact H1|]. iApply wp_bind. iApply wp_fsop; [exact H2|]. by iApply "HΦ".
Qed.

(** An image is given back, whatever it holds. *)
Definition img_size (tf : Z) f (N n : nat) (sz : Z) (T : nat) (ps : list Z) : Prop :=
  layout tf f n ∧ 0 ≤ sz ∧ PGROUNDUP sz = Z.of_nat n * PGSIZE ∧ sz ≤ Z.of_nat n * PGSIZE ∧ (length ps + N + n = T)%nat.

Lemma img_sized tf f N n U sz T ps : img tf f N n U sz T ps → img_size tf f N n sz T ps.
Proof. intros (Hl & _ & _ & Hsz & Hup & Hle & HT). by split_and!. Qed.

Lemma wp_free_img tf t f N n U sz T ps (Φ : unit → xst E → hprop) g :
  text_ok → 0 ≤ tf < 2 ^ 56 → img_size tf f N n sz T ps →
  pt 2 t f N -∗ umem f U n -∗ kmem_inv g ps -∗
  (∀ g' ps', ⌜kept g g' ∧ length ps' = T⌝ -∗ kmem_inv g' ps' -∗ Φ () g') -∗
  wp (proc_freepagetable t sz) Φ g.
Proof.
  iIntros (Htx Htf (Hl & Hsz & Hup & Hle & HT)) "Ht Hu Hk HΦ". pose proof (layout_MAXVA _ _ _ Hl) as Hmax.
  iApply wp_kept; [apply keeps_proc_freepagetable|].
  iApply (wp_proc_freepagetable with "Ht Hu Hk"); [done|done|done|done|done|lia|].
  iIntros (g' qs Hqs) "Hk %Hkept". iApply ("HΦ" with "[%] Hk"). split; [done|]. rewrite length_app. lia.
Qed.

Lemma img_round tf f N n U sz T ps : img tf f N n U sz T ps → img tf f N n U (PGROUNDUP sz) T ps.
Proof.
  intros (Hl & HU & Hb & Hsz & Hup & Hle & HT). rewrite Hup. pose proof (layout_MAXVA _ _ _ Hl) as Hmax.
  assert (PGSIZE = 4096) as Hpg by done. assert (MAXVA = 2 ^ 38) as Hm by done.
  split_and!; try done; [lia|]. apply PGROUNDUP_page. lia.
Qed.

(** At [bad], with a table. *)
Lemma wp_exec_bad tf t f N n U sz T ps (Φ : Z → xst E → hprop) g :
  text_ok → 0 ≤ tf < 2 ^ 56 → img_size tf f N n sz T ps → t ≠ 0 →
  pt 2 t f N -∗ umem f U n -∗ kmem_inv g ps -∗
  (∀ g' ps', ⌜kept g g' ∧ length ps' = T⌝ -∗ kmem_inv g' ps' -∗ Φ (-1) g') -∗
  wp (exec_bad t sz None) Φ g.
Proof.
  iIntros (Htx Htf Hi Ht0) "Ht Hu Hk HΦ". unfold exec_bad, truth. destruct (Z.eqb_spec t 0); [done|]. cbn [negb when].
  iApply wp_bind. iApply (wp_free_img with "Ht Hu Hk"); [done..|]. iIntros (g' ps' H) "Hk". iApply wp_ret. by iApply ("HΦ" with "[//] Hk").
Qed.

Lemma wp_exec_bad_file tf t f N n U sz T ps ip c (Φ : Z → xst E → hprop) g :
  text_ok → 0 ≤ tf < 2 ^ 56 → img_size tf f N n sz T ps → t ≠ 0 → xf_locked ip c (xfs g) →
  pt 2 t f N -∗ umem f U n -∗ kmem_inv g ps -∗
  (∀ g' ps', ⌜xproc_of g' = xproc_of g ∧ xf_ready (xfs g') ∧ length ps' = T⌝ -∗ kmem_inv g' ps' -∗ Φ (-1) g') -∗
  wp (exec_bad t sz (Some ip)) Φ g.
Proof.
  iIntros (Htx Htf Hi Ht0 Hlk) "Ht Hu Hk HΦ". unfold exec_bad, truth. destruct (Z.eqb_spec t 0); [done|]. cbn [negb when].
  iApply wp_bind. iApply (wp_free_img with "Ht Hu Hk"); [done..|]. iIntros (g' ps' [[km ->] Hl]) "Hk".
  iApply wp_close; [exact Hlk|]. iIntros (e' Hr). iApply wp_ret. by iApply ("HΦ" $! (with_fs e' (set_kmem km g)) with "[//] Hk").
Qed.

(** At [bad] before there is a table. *)
Lemma wp_exec_bad_0 ip c ps (Φ : Z → xst E → hprop) g :
  xf_locked ip c (xfs g) → kmem_inv g ps -∗
  (∀ g', ⌜xproc_of g' = xproc_of g ∧ xf_ready (xfs g')⌝ -∗ kmem_inv g' ps -∗ Φ (-1) g') -∗
  wp (exec_bad 0 0 (Some ip)) Φ g.
Proof.
  iIntros (Hlk) "Hk HΦ". unfold exec_bad. change (truth 0) with false. cbn [when]. iApply wp_bind. iApply wp_ret.
  iApply wp_close; [exact Hlk|]. iIntros (e' Hr). iApply wp_ret. by iApply ("HΦ" $! (with_fs e' g) with "[//] Hk").
Qed.

(** ** The end of exec *)

Lemma wp_exec_commit p path l t sz entry argc sp a1 epc sp0 fo No no Uo ps (Φ : Z → xst E → hprop) g :
  text_ok → 0 ≤ xtrapframe p < 2 ^ 56 → Forall is_byte l → Forall (λ b, b ≠ 0) l →
  0 ≤ sp < 2 ^ 64 → 0 ≤ entry < 2 ^ 64 → xproc_of g = p →
  kmem_inv g ps -∗ bytes path (l ++ [0]) -∗ proc_frame p a1 epc sp0 -∗ proc_image p fo No no Uo -∗
  (∀ g' ps', ⌜xproc_of g' = mkxproc t sz (xtrapframe p) (xname p) ∧ xfs g' = xfs g ∧ (length ps' = length ps + No + no)%nat⌝ -∗
     kmem_inv g' ps' -∗ bytes path (l ++ [0]) -∗ proc_frame p sp entry sp -∗ Φ argc g') -∗
  wp (exec_commit p path t sz (xsz p) entry argc sp) Φ g.
Proof.
  iIntros (Htx Htf Hlb Hlz Hsp Hen Hp) "Hk Hpath (Ha1 & Hepc & Hsp & Hname) [%Himg [Ho Hou]] HΦ". unfold exec_commit.
  iApply wp_bind. iApply (wp_store with "Ha1"); [done|]. iIntros "Ha1".
  iApply wp_bind. iApply (wp_last with "Hpath"); [done|done|]. iIntros (k Hkl) "Hpath".
  assert (bytes path (l ++ [0]) ⊣⊢ bytes path (take k l) ∗ bytes (path + Z.of_nat k) (drop k l ++ [0])) as Hcut.
  { rewrite -{1}(take_drop k l) -app_assoc bytes_app. by rewrite length_take_le. }
  iEval (rewrite Hcut) in "Hpath". iDestruct "Hpath" as "[Hp1 Hp2]".
  iApply wp_bind. iApply (wp_safestrcpy with "Hname Hp2"); [lia|by apply Forall_drop|by apply Forall_drop|]. iIntros "Hname Hp2".
  iApply wp_bind. iApply wp_setg; [done|]. iApply wp_bind. iApply (wp_store with "Hepc"); [done|]. iIntros "Hepc".
  iApply wp_bind. iApply (wp_store with "Hsp"); [done|]. iIntros "Hsp".
  set (g1 := mkxst (xkmem g) (mkxproc t sz (xtrapframe p) (xname p)) (xfs g)).
  destruct Himg as (Hl & Hsz & Hup). pose proof (layout_MAXVA _ _ _ Hl) as Hmax.
  iApply wp_bind. iApply wp_kept; [apply keeps_proc_freepagetable|].
  iApply (wp_proc_freepagetable _ _ _ _ _ _ _ ps _ g1 with "Ho Hou Hk"); [done|done|done|lia|done|lia|].
  iIntros (g' qs Hqs) "Hk [%km ->]". iApply wp_ret.
  iApply ("HΦ" $! (set_kmem km g1) (qs ++ ps) with "[%] Hk [Hp1 Hp2] [$Ha1 $Hepc $Hsp $Hname]").
  - split_and!; [done|done|]. rewrite length_app. lia.
  - rewrite Hcut. iFrame.
Qed.

(** What [exec_stack] leaves when it fails, and when it does not. *)
Definition stack_failed g g' sz args (T : nat) (ps' : list Z) : Prop :=
  kept g g' ∧ length ps' = T ∧ (stack_need args ≤ PGSIZE → Z.of_nat T * PGSIZE < 3 * sz + 17 * PGSIZE).
Definition stack_made g g' t tf (args : list (Z * list Z)) f' (N' n n' : nat) (U U' : Z → Z) sp (T : nat) (ps' : list Z) (old : nat) : Prop :=
  xproc_of g' = mkxproc t (Z.of_nat n' * PGSIZE) tf (xname (xproc_of g)) ∧ xfs g' = xfs g ∧ n' = (n + 2)%nat ∧ layout tf f' n' ∧
  (∀ w, 0 ≤ w < Z.of_nat n' → accessible f' w ↔ w ≠ Z.of_nat n) ∧
  (∀ a, a < (Z.of_nat n' - 1) * PGSIZE → U' a = U a) ∧ ubytes U' ∧ args_on_stack U' n' sp args ∧
  (length ps' + N' + n' = T + old)%nat.

Lemma wp_exec_stack ustack path l argv args p t tf f N n U sz T entry a1 epc sp0 fo No no Uo ps (Φ : Z → xst E → hprop) g :
  text_ok → 0 ≤ tf < 2 ^ 56 → img tf f N n U sz T ps → lean N n → Z.of_nat T < 2 ^ 20 → all_accessible f n → t ≠ 0 →
  args_ok l args → 0 ≤ entry < 2 ^ 64 → xproc_of g = p → xtrapframe p = tf →
  pt 2 t f N -∗ umem f U n -∗ kmem_inv g ps -∗ exec_args ustack path argv l args -∗ proc_frame p a1 epc sp0 -∗ proc_image p fo No no Uo -∗
  (∀ g' ps', ⌜stack_failed g g' sz args T ps'⌝ -∗ kmem_inv g' ps' -∗ exec_args ustack path argv l args -∗
     proc_frame p a1 epc sp0 -∗ proc_image p fo No no Uo -∗ Φ (-1) g') ∧
  (∀ g' ps' f' N' n' U' sp, ⌜stack_made g g' t tf args f' N' n n' U U' sp T ps' (No + no)⌝ -∗
     kmem_inv g' ps' -∗ exec_args ustack path argv l args -∗ proc_frame p sp entry sp -∗
     pt 2 t f' N' -∗ umem f' U' n' -∗ Φ (Z.of_nat (length args)) g') -∗
  wp (exec_stack ustack path argv t sz entry) Φ g.
Proof.
  iIntros (Htx Htf Hi Hlean HT Hacc Ht0 (Hlb & Hlz & Hargs & Hlen) Hen Hp Hptf) "Ht Hu Hk (Hus & Hpath & Ha) Hfr Himg HΦ". unfold exec_stack.
  assert (PGSIZE = 4096) as Hpg by done. assert (MAXVA = 2 ^ 38) as Hmax by done.
  iApply wp_bind. iApply wp_getg. rewrite Hp. apply img_round in Hi as Hi'. destruct Hi as (_ & HU & HUb & Hsz & Hup & Hle & _).
  pose proof Hi' as (Hl & _). pose proof (layout_MAXVA _ _ _ Hl) as Hm. rewrite -> Hup in *.
  assert (Z.of_nat n * PGSIZE < sz + PGSIZE) as Hnsz. { destruct (PGROUNDUP_spec sz) as [Hr1 Hr2]; [lia|]. rewrite Hup in Hr1, Hr2. lia. }
  rewrite -> (wrap_small 64) by lia. iApply wp_bind. iApply (wp_grow_img with "Ht Hu Hk"); [done|done|done|lia|done|].
  iIntros (r g1 f1 N1 n1 ps1 (Hkept & Hr & Hn & Hf1 & Hf2)) "Ht Hu Hk".
  destruct Hr as [(-> & Hi1 & Hwhy)|(Hr0 & Hr1 & Hi1 & Hlean1)].
  { rewrite Z.eqb_refl. iApply (wp_exec_bad with "Ht Hu Hk"); [done|done|by eapply img_sized|done|]. iIntros (g2 ps2 [Hk2 Hl2]) "Hk". iDestruct "HΦ" as "[HΦ _]".
    iApply ("HΦ" $! g2 ps2 with "[%] Hk [$Hus $Hpath $Ha] Hfr Himg"). split_and!; [by eapply kept_trans|done|lia]. }
  destruct (Z.eqb_spec r 0); [done|].
  assert (r = Z.of_nat (n + 2) * PGSIZE) as Hr by lia. pose proof Hi1 as (Hl1 & HU1 & _ & _ & Hup1 & _ & HT1).
  rewrite -> Hr, PGROUNDUP_page in Hup1 by lia. assert (n1 = (n + 2)%nat) as -> by lia. clear Hup1.
  rewrite -> Hr in *. rewrite -> !(wrap_small 64) by lia.
  replace (Z.of_nat (n + 2) * PGSIZE - 2 * PGSIZE) with (Z.of_nat n * PGSIZE) by lia.
  iApply wp_bind. iApply (wp_uvmclear t (Z.of_nat n) f1 N1 U (n + 2) ps1 with "Ht Hu Hk"); [lia|lia|by apply Hf2; lia|]. iIntros (x Hna) "Ht Hu Hk".
  set (f2 := <[Z.of_nat n := x]> f1) in *.
  assert (∀ w, w ≠ Z.of_nat n → f2 w = f1 w) as Hf12 by (intros w Hw; by apply fn_lookup_insert_ne).
  assert (∀ w, 0 ≤ w < Z.of_nat (n + 2) → accessible f2 w ↔ w ≠ Z.of_nat n) as Hacc2.
  { intros w Hw. split; [by intros Hc ->|]. intros Hne. unfold accessible. rewrite -> Hf12 by done. fold (accessible f1 w).
    destruct (decide (w < Z.of_nat n)); [|apply Hf2; lia]. unfold accessible. rewrite -> Hf1 by lia. apply Hacc. lia. }
  assert (layout tf f2 (n + 2)) as Hl2.
  { destruct Hl1 as (L1 & L2 & L3 & L4). destruct top_pages as (E1 & E2 & _ & _). split_and!; [by rewrite -> Hf12 by lia..|done|].
    intros w Hw W1 W2. rewrite -> Hf12 by lia. by apply L4. }
  replace (Z.of_nat (n + 2) * PGSIZE - PGSIZE) with ((Z.of_nat (n + 2) - 1) * PGSIZE) by lia.
  assert (stack_ok tf f2 (n + 2)) as Hst. { split_and!; [done|lia|lia|done|apply Hacc2; lia|lia]. }
  iApply wp_bind. iApply (wp_push_args with "Ht Hu Hk Ha Hus"); [done|done|done|done|]. iSplit.
  { iIntros (U2 Hno) "Ht Hu Hk Ha Hus". iApply (wp_exec_bad with "Ht Hu Hk"); [done|done| |done|].
    { split_and!; [done|lia|apply PGROUNDUP_page; lia|done|done]. }
    iIntros (g2 ps2 [Hk2 Hln2]) "Hk". iDestruct "HΦ" as "[HΦ _]".
    iApply ("HΦ" $! g2 ps2 with "[%] Hk [$Hus $Hpath $Ha] Hfr Himg"). split_and!; [by eapply kept_trans|done|lia]. }
  iIntros (U2 sp (HU2 & Hst2 & Hsame)) "Ht Hu Hk Ha Hus". destruct Hkept as [km ->].
  iApply (wp_exec_commit with "Hk Hpath Hfr Himg"); [done|by rewrite Hptf|done|done| |done|done|].
  { destruct Hst2 as (H1 & _). lia. }
  iIntros (g' ps' (Hp' & Hfs' & Hl')) "Hk Hpath Hfr". iDestruct "HΦ" as "[_ HΦ]".
  iApply ("HΦ" $! g' ps' f2 N1 (n + 2)%nat U2 sp with "[%] Hk [$Hus $Hpath $Ha] Hfr Ht Hu").
  unfold stack_made. rewrite Hp. split_and!; [by rewrite Hp' Hptf|done|done|done|done| |done|done|lia].
  intros a Ha. apply Hsame. lia.
Qed.

(** ** exec *)

Definition exec_failed g g' p l args (T : nat) (ps' : list Z) : Prop :=
  xproc_of g' = p ∧ xf_ready (xfs g') ∧ length ps' = T ∧ ∀ c, xf_file (xfs g) l = Some c → ¬ runnable c args T.
Definition exec_done g g' p l c args p' f (N n : nat) U sp (T : nat) (ps' : list Z) : Prop :=
  xproc_of g' = p' ∧ xf_ready (xfs g') ∧ xf_file (xfs g) l = Some c ∧
  xtrapframe p' = xtrapframe p ∧ xname p' = xname p ∧ xsz p' = Z.of_nat n * PGSIZE ∧
  new_image c args f n U sp ∧ ubytes U ∧ (length ps' + N + n = T)%nat.

(** The new image, from what the two halves say. *)
Lemma image_made g0 g g' p l c args t f N n f3 n3 U U3 sz sp T N3 T3 ps3 ps' old :
  xproc_of g = p → xf_ready (xfs g) → xf_file (xfs g0) l = Some c →
  img (xtrapframe p) f3 N3 n3 U3 sz T3 ps3 → headers (header_ok c sz) (phnum c) (phoff c) →
  (∀ a, U3 a = load_image (phnum c) c (phoff c) (λ _, 0) a) →
  stack_made g g' t (xtrapframe p) args f N n3 n U3 U sp T ps' old →
  exec_done g0 g' p l c args (mkxproc t (Z.of_nat n * PGSIZE) (xtrapframe p) (xname p)) f N n U sp (T + old) ps' ∧
  image_ok (mkxproc t (Z.of_nat n * PGSIZE) (xtrapframe p) (xname p)) f n.
Proof.
  intros Hp Hr Hfile (_ & _ & _ & _ & _ & Hle & _) Hh HU3 (Hp' & Hfs & -> & Hlay & Hacc & HUs & HUb & Hst & Hcnt).
  pose proof (layout_MAXVA _ _ _ Hlay) as Hm. assert (PGSIZE = 4096) as Hpg by done. assert (MAXVA = 2 ^ 38) as Hmax by done.
  assert (Z.of_nat (n3 + 2) - 2 = Z.of_nat n3) as E2 by lia.
  split; [split_and!|split_and!]; try done; try (simpl; lia).
  - by rewrite Hp' Hp.
  - by rewrite Hfs.
  - split_and!; [lia|by rewrite E2| | |done].
    + rewrite E2. eapply headers_mono; [|exact Hh]. intros o. by apply header_ok_mono.
    + intros a Ha. rewrite -HU3. by apply HUs.
  - apply PGROUNDUP_page. lia.
Qed.

(** From the page table on. *)
Lemma wp_exec_load ustack path l argv args p a1 epc sp0 fo No no Uo ps ip c (Φ : Z → xst E → hprop) g0 g :
  text_ok → 0 ≤ xtrapframe p < 2 ^ 56 → args_ok l args → xproc_of g = p → xf_locked ip c (xfs g) → xf_file (xfs g0) l = Some c →
  kmem_inv g ps -∗ exec_args ustack path argv l args -∗ proc_frame p a1 epc sp0 -∗ proc_image p fo No no Uo -∗
  (∀ g' ps', ⌜exec_failed g0 g' p l args (length ps) ps'⌝ -∗ kmem_inv g' ps' -∗ exec_args ustack path argv l args -∗
     proc_frame p a1 epc sp0 -∗ proc_image p fo No no Uo -∗ Φ (-1) g') ∧
  (∀ g' ps' p' f N n U sp, ⌜exec_done g0 g' p l c args p' f N n U sp (length ps + No + no) ps'⌝ -∗
     kmem_inv g' ps' -∗ exec_args ustack path argv l args -∗ proc_frame p' sp (elf_entry (elf_of c)) sp -∗
     proc_image p' f N n U -∗ Φ (Z.of_nat (length args)) g') -∗
  wp (exec_load ustack path argv ip (elf_of c)) Φ g.
Proof.
  iIntros (Htx Htf Hargs Hp Hlk Hfile) "Hk Hargs Hfr Himg HΦ". unfold exec_load.
  iDestruct (free_pages_bound with "Hk") as %HT. destruct (xf_contents_law ip c _ Hlk) as [Hcb Hcl].
  assert (∀ c', xf_file (xfs g0) l = Some c' → c' = c) as Huniq by (intros c' Hc'; congruence).
  assert (PGSIZE = 4096) as Hpg by done. iApply wp_bind. iApply wp_getg. rewrite Hp.
  iApply wp_bind. iApply wp_kept; [apply keeps_proc_pagetable|]. iApply (wp_proc_pagetable with "Hk"); [done|done|]. iSplit; last first.
  { iIntros (g2 ps2 [Hl2 Hfew]) "Hk [%km ->]". rewrite Z.eqb_refl. iApply (wp_exec_bad_0 with "Hk"); [exact Hlk|].
    iIntros (g' [Hp' Hr']) "Hk". iDestruct "HΦ" as "[HΦ _]".
    iApply ("HΦ" with "[%] Hk Hargs Hfr Himg"). split_and!; [by rewrite Hp'|done|done|]. intros c' ->%Huniq (_ & _ & S & HS & _ & Hmem). lia. }
  iIntros (g2 ps2 t f N (Ht0 & Hlay & Hl2 & HN)) "Ht Hk [%km ->]". destruct (Z.eqb_spec t 0); [done|].
  iApply wp_bind. iApply (wp_load_loop _ (xtrapframe p) t f N 0 (λ _, 0) 0 (length ps) ip c with "Ht [] Hk"); [| |done| |exact Hlk| |].
  { split_and!; [done|done|by intros a|done|done|done|lia]. } { unfold lean. lia. } { intros w Hw. lia. } { done. }
  iIntros (ok sz g3 f3 N3 n3 U3 ps3 (Hp3 & Hlk3 & Hi3 & Hok & Hbad)) "Ht Hu Hk". change (xproc_of (set_kmem km g)) with (xproc_of g) in Hp3.
  destruct ok; simpl negb; cbv iota; last first.
  { iApply (wp_exec_bad_file with "Ht Hu Hk"); [done|exact Htf|by eapply img_sized|done|done|].
    iIntros (g' ps' (Hp' & Hr' & Hl')) "Hk". iDestruct "HΦ" as "[HΦ _]". iApply ("HΦ" with "[%] Hk Hargs Hfr Himg").
    split_and!; [by rewrite Hp' Hp3|done|done|]. intros c' ->%Huniq (_ & _ & S & HS & Hfit & Hmem). specialize (Hbad eq_refl S Hfit). lia. }
  destruct (Hok eq_refl) as (Hacc3 & Hlean3 & Hsz3 & Hh3 & Hup3 & HU3).
  iApply wp_close; [exact Hlk3|]. iIntros (e4 Hr4).
  iApply (wp_exec_stack _ _ _ _ _ p t (xtrapframe p) f3 N3 n3 U3 sz (length ps) _ _ _ _ _ _ _ _ ps3 _ (with_fs e4 g3) with "Ht Hu Hk Hargs Hfr Himg");
    [done|done|done|done|done|done|done|done|apply field_range; by apply file_read_bytes|by rewrite -Hp -Hp3|done|].
  iSplit.
  - iIntros (g' ps' ([km' ->] & Hl' & Hwhy)) "Hk Hargs Hfr Himg". iDestruct "HΦ" as "[HΦ _]".
    iApply ("HΦ" with "[%] Hk Hargs Hfr Himg"). split_and!; [by rewrite -Hp -Hp3|done|done|].
    intros c' ->%Huniq (_ & Hst & S & HS & Hfit & Hmem). specialize (Hwhy Hst). specialize (Hup3 S HS Hfit). lia.
  - iIntros (g' ps' f' N' n' U' sp Hmade) "Hk Hargs Hfr Ht Hu". iDestruct "HΦ" as "[_ HΦ]".
    destruct (image_made g0 (with_fs e4 g3) _ p l c args t f' N' n' f3 n3 U' U3 sz sp _ N3 _ ps3 ps' _ (eq_trans Hp3 Hp) Hr4 Hfile Hi3 Hh3 HU3 Hmade) as [Hdone Himok].
    iSpecialize ("HΦ" $! g' ps' (mkxproc t (Z.of_nat n' * PGSIZE) (xtrapframe p) (xname p)) f' N' n' U' sp).
    rewrite -Nat.add_assoc. iApply ("HΦ" with "[//] Hk Hargs Hfr [Ht Hu]"). iSplit; [done|]. iFrame "Ht Hu".
Qed.

Lemma wp_exec ustack path l argv args p a1 epc sp0 fo No no Uo ps (Φ : Z → xst E → hprop) g :
  text_ok → 0 ≤ xtrapframe p < 2 ^ 56 → args_ok l args → xproc_of g = p → xf_ready (xfs g) →
  kmem_inv g ps -∗ exec_args ustack path argv l args -∗ proc_frame p a1 epc sp0 -∗ proc_image p fo No no Uo -∗
  (∀ g' ps', ⌜exec_failed g g' p l args (length ps) ps'⌝ -∗ kmem_inv g' ps' -∗ exec_args ustack path argv l args -∗
     proc_frame p a1 epc sp0 -∗ proc_image p fo No no Uo -∗ Φ (-1) g') ∧
  (∀ g' ps' c p' f N n U sp, ⌜exec_done g g' p l c args p' f N n U sp (length ps + No + no) ps'⌝ -∗
     kmem_inv g' ps' -∗ exec_args ustack path argv l args -∗ proc_frame p' sp (elf_entry (elf_of c)) sp -∗
     proc_image p' f N n U -∗ Φ (Z.of_nat (length args)) g') -∗
  wp (exec ustack path argv) Φ g.
Proof.
  iIntros (Htx Htf Hargs Hp Hready) "Hk (Hus & Hpath & Ha) Hfr Himg HΦ". unfold exec. pose proof Hargs as (Hlb & Hlz & _).
  destruct (xf_begin_law _ Hready) as (e1 & H1 & Hop & Hfiles). iApply wp_bind. iApply wp_fsop; [exact H1|].
  iApply wp_bind. iApply (wp_cstring with "Hpath"); [done|done|]. iIntros "Hpath". iCombine "Hus Hpath Ha" as "Hargs".
  destruct (xf_namei_law l _ Hop) as (o & e2 & H2 & Ho). iApply wp_bind. iApply wp_fsop; [exact H2|]. rewrite Hfiles in Ho.
  destruct o as [ip|]; last first.
  { destruct Ho as [Hno Hop2]. destruct (xf_end_law _ Hop2) as (e3 & H3 & Hr3). iApply wp_bind. iApply wp_fsop; [exact H3|].
    iApply wp_ret. iDestruct "HΦ" as "[HΦ _]". iApply ("HΦ" $! (with_fs e3 g) ps with "[%] Hk Hargs Hfr Himg").
    split_and!; [done|done|done|]. intros c Hc. congruence. }
  destruct Ho as (c & Hfile & Href). destruct (xf_ilock_law _ _ _ Href) as (e3 & H3 & Hlk). iApply wp_bind. iApply wp_fsop; [exact H3|].
  destruct (xf_readi_law ip c 0 sizeof_elfhdr _ Hlk) as (e4 & H4 & Hlk4); [done|done|]. iApply wp_bind. iApply wp_fsop; [exact H4|].
  set (g4 := with_fs e4 _). pose proof (file_read_count c 0 sizeof_elfhdr ltac:(done) ltac:(done)) as Hcnt.
  rewrite (surjective_pairing (file_read c 0 sizeof_elfhdr)). fold (elf_bytes c) in Hcnt |- *. fold (elf_of c). rewrite Hcnt.
  assert (∀ g', xproc_of g' = xproc_of g4 → xf_ready (xfs g') → ¬ elf_ok c → exec_failed g g' p l args (length ps) ps) as Hbad.
  { intros g' Hp' Hr' He. split_and!; [by rewrite Hp'|done|done|]. intros c' Hc' [Hok _]. congruence. }
  destruct (Z.eqb_spec (Z.of_nat (length (elf_bytes c))) sizeof_elfhdr) as [Hlen|Hlen]; simpl negb; cbv iota; last first.
  { iApply (wp_exec_bad_0 ip c ps _ g4 with "Hk"); [exact Hlk4|]. iIntros (g' [Hp' Hr']) "Hk". iDestruct "HΦ" as "[HΦ _]".
    iApply ("HΦ" with "[%] Hk Hargs Hfr Himg"). apply Hbad; [done|done|]. by intros [? _]. }
  change (field (elf_bytes c) 0 4) with (elf_magic (elf_of c)).
  destruct (Z.eqb_spec (elf_magic (elf_of c)) ELF_MAGIC) as [Hmag|Hmag]; simpl negb; cbv iota; last first.
  { iApply (wp_exec_bad_0 ip c ps _ g4 with "Hk"); [exact Hlk4|]. iIntros (g' [Hp' Hr']) "Hk". iDestruct "HΦ" as "[HΦ _]".
    iApply ("HΦ" with "[%] Hk Hargs Hfr Himg"). apply Hbad; [done|done|]. by intros [_ ?]. }
  iApply (wp_exec_load _ _ _ _ _ _ _ _ _ _ _ _ _ _ _ c _ g g4 with "Hk Hargs Hfr Himg"); [done|done|done|done|done|done|].
  iSplit; [iDestruct "HΦ" as "[$ _]"|]. iDestruct "HΦ" as "[_ HΦ]". iIntros (g' ps' p' f N n U sp). iApply ("HΦ" $! g' ps' c).
Qed.

(** ** Runs *)

(** The state between two calls: the process [p] with its image, the free pages
    [ps], and beside them the memory [u]. *)
Definition xstate (s : st (xst E)) (u : bytemap) ustack path argv l args p f (N n : nat) U a1 epc sp ps : Prop :=
  xproc_of (glob s) = p ∧ xf_ready (xfs (glob s)) ∧ ubytes U ∧
  sat (kmem_inv (glob s) ps ∗ exec_args ustack path argv l args ∗ proc_frame p a1 epc sp ∗ proc_image p f N n U)%I (mem s) u.

(** C14: [exec] either replaces the image of the process or changes nothing.
    On success the new image holds the segments of the file as its headers say,
    zero elsewhere, a guard page that the user cannot access, and on the page
    above it the argument strings and the array of pointers to them, on an
    aligned stack; the trapframe starts the program at its entry with that
    stack.  The pages of the old image are free again.  When it fails, it
    returns -1 with the process, its memory, its trapframe and the number of
    free pages as they were, and then the file does not exist, is not a
    program that fits its own headers, or there is not enough memory or stack. *)
Theorem exec_correct s u ustack path argv l args p f N n U a1 epc sp ps :
  text_ok → 0 ≤ xtrapframe p < 2 ^ 56 → args_ok l args →
  xstate s u ustack path argv l args p f N n U a1 epc sp ps →
  ∃ r s', exec ustack path argv s = Ok r s' ∧
    ((r = -1 ∧ (∀ c, xf_file (xfs (glob s)) l = Some c → ¬ runnable c args (length ps)) ∧
      ∃ ps', length ps' = length ps ∧ xstate s' u ustack path argv l args p f N n U a1 epc sp ps') ∨
     (r = Z.of_nat (length args) ∧
      ∃ c p' f' N' n' U' sp' ps', xf_file (xfs (glob s)) l = Some c ∧ new_image c args f' n' U' sp' ∧
        xsz p' = Z.of_nat n' * PGSIZE ∧ xtrapframe p' = xtrapframe p ∧ xname p' = xname p ∧
        (length ps' + N' + n' = length ps + N + n)%nat ∧
        xstate s' u ustack path argv l args p' f' N' n' U' sp' (elf_entry (elf_of c)) sp' ps')).
Proof.
  intros Htx Htf Hargs (Hp & Hready & HU & Hs).
  edestruct (sat_run (exec ustack path argv) (λ r g',
      (∃ ps', ⌜r = -1 ∧ exec_failed (glob s) g' p l args (length ps) ps'⌝ ∗
         (kmem_inv g' ps' ∗ exec_args ustack path argv l args ∗ proc_frame p a1 epc sp ∗ proc_image p f N n U)) ∨
      (∃ ps' c p' f' N' n' U' sp', ⌜r = Z.of_nat (length args) ∧ exec_done (glob s) g' p l c args p' f' N' n' U' sp' (length ps + N + n) ps'⌝ ∗
         (kmem_inv g' ps' ∗ exec_args ustack path argv l args ∗ proc_frame p' sp' (elf_entry (elf_of c)) sp' ∗ proc_image p' f' N' n' U')))%I)
    as (r & s' & Hrun & Hsat); [done|exact Hs| |].
  { iIntros "(Hk & Ha & Hf & Hi)". iApply (wp_exec with "Hk Ha Hf Hi"); [done..|]. iSplit.
    - iIntros (g' ps' H1) "Hk Ha Hf Hi". iLeft. iExists ps'. iSplit; [done|]. iFrame "Hk Ha Hf Hi".
    - iIntros (g' ps' c p' f' N' n' U' sp' H1) "Hk Ha Hf Hi". iRight. iExists ps', c, p', f', N', n', U', sp'. iSplit; [done|]. iFrame "Hk Ha Hf Hi". }
  exists r, s'. split; [exact Hrun|]. apply sat_or in Hsat as [Hsat|Hsat]; [left|right].
  - apply sat_exist in Hsat as [ps' [[-> (H1 & H2 & H3 & H4)] Hsat]%sat_pure]. split_and!; [done|done|]. by exists ps'.
  - do 8 (apply sat_exist in Hsat as [? Hsat]). apply sat_pure in Hsat as [[-> (H1 & H2 & H3 & H4 & H5 & H6 & H7 & H8 & H9)] Hsat].
    split; [done|]. do 8 eexists. exact (conj H3 (conj H7 (conj H6 (conj H4 (conj H5 (conj H9 (conj H1 (conj H2 (conj H8 Hsat))))))))).
Qed.
End spec.

Module ExecWitness.
Import ImageWitness.

(** A file system with one file, [ls]: one segment of four bytes at address 0. *)
Definition ls : list Z := [108; 115].
Definition prog : list Z :=
  le_split 4 ELF_MAGIC ++ replicate 28 0 ++ le_split 8 64 ++ replicate 16 0 ++ le_split 2 1 ++ replicate 6 0 ++
  le_split 4 ELF_PROG_LOAD ++ le_split 4 5 ++ le_split 8 120 ++ le_split 8 0 ++ le_split 8 0 ++ le_split 8 4 ++ le_split 8 8 ++ le_split 8 4096 ++
  [19; 0; 0; 0].

(** The state is how far a caller has got. *)
#[export] Instance ls_fs : ExecFs nat := {
  xf_begin_op _ := Ok () 1%nat;
  xf_end_op _ := Ok () 0%nat;
  xf_namei l e := if decide (l = ls) then Ok (Some 1%nat) 2%nat else Ok None e;
  xf_ilock _ _ := Ok () 3%nat;
  xf_readi _ off n e := Ok (file_read prog off n) e;
  xf_iunlockput _ _ := Ok () 1%nat;
}.

#[export] Program Instance ls_laws : ExecFsLaws nat := {
  xf_file _ l := if decide (l = ls) then Some prog else None;
  xf_ready e := e = 0%nat;
  xf_op e := e = 1%nat;
  xf_ref _ c e := c = prog ∧ e = 2%nat;
  xf_locked _ c e := c = prog ∧ e = 3%nat;
}.
Next Obligation. intros e _. by eexists. Qed.
Next Obligation. intros e _. by eexists. Qed.
Next Obligation. intros l e ->. simpl. case_decide; eexists _, _; split; [done|by exists prog|done|done]. Qed.
Next Obligation. intros ip c e [-> _]. by eexists. Qed.
Next Obligation. intros ip c e [-> _]. split; [|done]. apply (bool_decide_unpack _). vm_compute. exact I. Qed.
Next Obligation. intros ip c off n e [-> ->] _ _. by eexists. Qed.
Next Obligation. intros ip c e _. by eexists. Qed.

(** The caller's memory: trapframe and name, [ustack], the path, [argv] and its string. *)
Definition data : list Z :=
  replicate 24 0 ++ le_split 8 0 ++ replicate 16 0 ++ le_split 8 0 ++ replicate 64 0 ++ le_split 8 0 ++ replicate 16 0 ++
  replicate 256 0 ++ (ls ++ [0]) ++ le_split 8 4515 ++ le_split 8 0 ++ (ls ++ [0]).

Lemma bytes_cut a l1 l2 b : a + Z.of_nat (length l1) = b → bytes a (l1 ++ l2) ⊢ bytes a l1 ∗ bytes b l2.
Proof. intros <-. by rewrite bytes_app. Qed.

Lemma word_intro a v : 0 ≤ v < 2 ^ 64 → bytes a (le_split 8 v) ⊢ a ↦₈ v.
Proof. intros Hv. by apply (bytes_word 8). Qed.

Lemma zeros_any a (n : nat) : bytes a (replicate n 0) ⊢ anybytes a (Z.of_nat n).
Proof. rewrite -{2}(length_replicate n 0). apply bytes_anybytes. by apply Forall_replicate. Qed.

Lemma data_mem p :
  xtrapframe p = 4096 → xname p = 4224 →
  bytes 4096 data ⊢ proc_frame p 0 0 0 ∗ exec_args 4240 4496 4499 ls [(4515, ls)].
Proof.
  iIntros (Hp1 Hp2) "H". unfold data.
  iDestruct (bytes_cut _ _ _ 4120 with "H") as "[_ H]"; [done|].
  iDestruct (bytes_cut _ _ _ 4128 with "H") as "[H24 H]"; [done|].
  iDestruct (bytes_cut _ _ _ 4144 with "H") as "[_ H]"; [done|].
  iDestruct (bytes_cut _ _ _ 4152 with "H") as "[H48 H]"; [done|].
  iDestruct (bytes_cut _ _ _ 4216 with "H") as "[_ H]"; [done|].
  iDestruct (bytes_cut _ _ _ 4224 with "H") as "[H120 H]"; [done|].
  iDestruct (bytes_cut _ _ _ 4240 with "H") as "[Hname H]"; [done|].
  iDestruct (bytes_cut _ _ _ 4496 with "H") as "[Hus H]"; [done|].
  iDestruct (bytes_cut _ _ _ 4499 with "H") as "[Hpath H]"; [done|].
  iDestruct (bytes_cut _ _ _ 4507 with "H") as "[Ha0 H]"; [done|].
  iDestruct (bytes_cut _ _ _ 4515 with "H") as "[Ha1 Hs]"; [done|].
  iEval (rewrite word_intro //) in "H24". iEval (rewrite word_intro //) in "H48". iEval (rewrite word_intro //) in "H120".
  iEval (rewrite word_intro //) in "Ha0". iEval (rewrite word_intro //) in "Ha1".
  iEval (rewrite zeros_any) in "Hname". iEval (rewrite zeros_any) in "Hus".
  unfold proc_frame, exec_args, argv_mem. rewrite Hp1 Hp2. iFrame "H24 H48 H120 Hname Hus Hpath". simpl. iFrame "Ha0 Hs Ha1".
Qed.

Lemma ls_runnable T : (18 ≤ T)%nat → runnable prog [(4515, ls)] T.
Proof.
  intros HT. split_and!; [split; vm_compute; reflexivity|vm_compute; discriminate|]. exists 8. split; [done|]. split.
  - assert (header_bytes prog (phoff prog) = drop 64 (take 120 prog)) as Hh by (vm_compute; reflexivity).
    change (phnum prog) with 1%nat. split; [|done]. unfold header_fits, header_ok, header. rewrite Hh.
    split; [split; [vm_compute; reflexivity|]|]; intros _; [split_and!; try (vm_compute; congruence)|vm_compute; reflexivity].
    right. vm_compute. congruence.
  - unfold PGSIZE. lia.
Qed.

(** A process without user memory, about to call [exec]. *)
Lemma calling :
  ∃ s p f N ps, xtrapframe p = 4096 ∧ (18 ≤ length ps)%nat ∧
    xstate s ∅ 4240 4496 4499 ls [(4515, ls)] p f N 0 (λ _, 0) 0 0 0 ps ∧ xfs (glob s) = 0%nat.
Proof.
  destruct (booted2 (seqmap 4096 data)) as (s & ps & Hs & Hl); [apply ram2_buffer; vm_compute; discriminate|].
  destruct (new_table (bytes 4096 data) s ∅ ps) as (s1 & t & f & N & ps1 & Hs1 & Hlay & Hc); [|lia|].
  { unfold kvalid in Hs. rewrite -(right_id_L ∅ (∪) (seqmap 4096 data)) in Hs. apply bytes_sat in Hs; [|apply map_disjoint_empty_r].
    eapply sat_mono; [|exact Hs]. iIntros "[$ $]". }
  set (p := mkxproc t 0 4096 4224). exists (mkst (mem s1) (mkxst (glob s1) p 0%nat)), p, f, N, ps1.
  split_and!; [done|lia| |done]. split_and!; [done|done|by intros a|]. eapply sat_mono; [|exact Hs1].
  iIntros "(Hd & Ht & Hk)". iDestruct (data_mem p with "Hd") as "[Hf Ha]"; [done|done|]. iFrame "Hk Ha Hf".
  iSplit; [iPureIntro; by split_and!|]. iFrame "Ht".
Qed.

Lemma exec_correct_witness : ∃ s s', exec 4240 4496 4499 s = Ok 1 s'.
Proof.
  destruct calling as (s & p & f & N & ps & Hp & Hl & Hs & Hfs). exists s.
  destruct (exec_correct s ∅ 4240 4496 4499 ls [(4515, ls)] p f N 0 (λ _, 0) 0 0 0 ps) as (r & s' & Hrun & Hcase).
  - done.
  - by rewrite Hp.
  - split_and!; try (apply (bool_decide_unpack _); vm_compute; exact I).
  - exact Hs.
  - exists s'. destruct Hcase as [(_ & Hno & _)|(-> & _)]; [|exact Hrun].
    destruct (Hno prog); [by rewrite Hfs|]. by apply ls_runnable.
Defined.
End ExecWitness.
