(* ===== verification/SysExec.v ===== *)
(** * sys_exec

    The system call around [exec]: the path and the argument strings are copied
    from user memory, the strings into pages of their own, which are free again
    at the end. *)
From S2P Require Import Prelude Param Mem CString Block Sep SepRun Kalloc Vm VmSpec VmUser VmCopy VmImage Exec ExecTheorems.
From iris.proofmode Require Import proofmode.
From stdpp Require Import functions.

#[local] Open Scope Z_scope.

(** ** Code *)

Section code.
Context {E : Type} `{ExecFs E, KernelImage, KernelText}.
Abbreviation X A := (M (st (xst E)) A).

(** kernel/syscall.c *)
Definition argraw (n : Z) : X Z :=
  p ← getg xproc_of;
  if (0 <=? n) && (n <=? 5) then load 8 (xtrapframe p + 112 + 8 * n) else fail (Panic "argraw").

(** [ip] is the address of the variable that gets the word. *)
Definition fetchaddr (addr ip : Z) : X Z :=
  p ← getg xproc_of;
  if (xsz p <=? addr) || (xsz p <? u64 (addr + 8)) then mret (-1) else
  r ← copyin (xpagetable p) ip addr 8;
  if negb (r =? 0) then mret (-1) else mret 0.

Definition fetchstr (addr buf max : Z) : X Z :=
  p ← getg xproc_of;
  r ← copyinstr (xpagetable p) buf addr max;
  if r <? 0 then mret (-1) else strlen buf.

Definition argstr (n buf max : Z) : X Z := addr ← argraw n; fetchstr addr buf max.

(** The loop of [sys_exec] from [argv[i]] on, with [n] entries left: whether it
    came to the end of the arguments. *)
Fixpoint argv_loop (n : nat) (uargv argv uarg_at i : Z) : X bool :=
  match n with
  | O => mret false
  | S n =>
      r ← fetchaddr (u64 (uargv + 8 * i)) uarg_at;
      if r <? 0 then mret false else
      uarg ← load 8 uarg_at;
      if uarg =? 0 then store 8 (argv + 8 * i) 0;; mret true else
      a ← kalloc;
      store 8 (argv + 8 * i) a;;
      if a =? 0 then mret false else
      r ← fetchstr uarg a PGSIZE;
      if r <? 0 then mret false else
      argv_loop n uargv argv uarg_at (i + 1)
  end.

Fixpoint free_loop (n : nat) (argv i : Z) : X unit :=
  match n with
  | O => mret ()
  | S n => a ← load 8 (argv + 8 * i); if a =? 0 then mret () else kfree a;; free_loop n argv (i + 1)
  end.

(** The addresses are those of the local variables of that name; [ustack] is
    that of [exec]. *)
Definition sys_exec (path argv uarg_at ustack : Z) : X Z :=
  uargv ← argraw 1;
  r ← argstr 0 path MAXPATH;
  if r <? 0 then mret (-1) else
  memset argv 0 (8 * MAXARG);;
  ok ← argv_loop (Z.to_nat MAXARG) uargv argv uarg_at 0;
  if (ok : bool) then
    ret ← exec ustack path argv;
    free_loop (Z.to_nat MAXARG) argv 0;;
    mret ret
  else
    free_loop (Z.to_nat MAXARG) argv 0;;
    mret (-1).
End code.

(** ** What the user passes *)

(** A word in the user's memory of [sz] bytes. *)
Definition uword_ok f (sz a : Z) : Prop := a + 8 ≤ sz ∧ ∀ x, a ≤ x < a + 8 → accessible f (x / PGSIZE).
Definition uword (U : Z → Z) (a : Z) : Z := le_combine (uread U a 8).

(** The strings from entry [i] of the array at [uargv] on. *)
Fixpoint uargs f U (sz uargv i : Z) (strs : list (list Z)) : Prop :=
  let a := u64 (uargv + 8 * i) in
  uword_ok f sz a ∧
  match strs with
  | [] => uword U a = 0
  | l :: strs => uword U a ≠ 0 ∧ ustring f U (uword U a) l ∧ Z.of_nat (length l) < PGSIZE ∧ uargs f U sz uargv (i + 1) strs
  end.

Lemma ustring_unique f U a l1 l2 : ustring f U a l1 → ustring f U a l2 → l1 = l2.
Proof.
  assert (∀ l l', ustring f U a l → ustring f U a l' → Z.of_nat (length l) ≤ Z.of_nat (length l')) as Hle.
  { intros l l' Hl Hl'. apply (ustring_past f U a l' _ Hl'). intros x Hx. destruct Hl as (Hz & Hr & _).
    rewrite -> uread_app in Hr by lia. apply app_inj_2 in Hr as [Hr _]; [|done]. rewrite -Hr in Hz.
    eapply (Forall_lookup_1 (λ b, b ≠ 0) _ (Z.to_nat (x - a))); [exact Hz|].
    unfold uread. rewrite list_lookup_fmap. rewrite -> lookup_seqZ_lt by lia. simpl. do 2 f_equal. lia. }
  intros H1 H2. pose proof (Hle _ _ H1 H2) as L1. pose proof (Hle _ _ H2 H1) as L2. assert (length l1 = length l2) as Hl by lia.
  destruct H1 as (_ & H1 & _), H2 as (_ & H2 & _). rewrite Hl H2 in H1. by apply app_inj_2 in H1 as [-> _].
Qed.

Lemma uargs_unique f U sz uargv i s1 s2 : uargs f U sz uargv i s1 → uargs f U sz uargv i s2 → s1 = s2.
Proof.
  revert i s2. induction s1 as [|l1 s1 IH]; intros i [|l2 s2]; cbn [uargs]; [done|naive_solver|naive_solver|].
  intros (_ & _ & H1 & _ & H2) (_ & _ & H3 & _ & H4). f_equal; [by eapply ustring_unique|by eapply IH].
Qed.

Lemma ustring_bytes f U a l : ubytes U → ustring f U a l → Forall is_byte l.
Proof.
  intros HU (_ & Hr & _). pose proof (ubytes_uread U a (Z.of_nat (length l) + 1) HU) as Hb. rewrite Hr in Hb. by apply Forall_app in Hb as [? _].
Qed.

(** ** Fetching *)

Section fetch.
Context {E : Type} `{HFS : ExecFs E, HLaws : !ExecFsLaws E, HKI : KernelImage, HKT : KernelText}.
Implicit Types (g : xst E) (e : E) (f : Z → Z) (p : xproc).

(** The process that calls. *)
Definition caller_ok p f (n : nat) U : Prop := text_ok ∧ 0 ≤ xtrapframe p < 2 ^ 56 ∧ image_ok p f n ∧ ubytes U.

Lemma caller_access p f n U w : caller_ok p f n U → accessible f w → w < Z.of_nat n.
Proof. intros (H1 & H2 & (H3 & _) & _). by apply (layout_accessible (xtrapframe p)). Qed.

Lemma wp_fetchaddr p f N n U addr ip ps (Φ : Z → xst E → hprop) g :
  caller_ok p f n U → 0 ≤ addr < 2 ^ 64 → xproc_of g = p →
  pt 2 (xpagetable p) f N -∗ umem f U n -∗ kmem_inv g ps -∗ anybytes ip 8 -∗
  (⌜uword_ok f (xsz p) addr⌝ -∗ pt 2 (xpagetable p) f N -∗ umem f U n -∗ kmem_inv g ps -∗ ip ↦₈ uword U addr -∗ Φ 0 g) ∧
  (⌜¬ uword_ok f (xsz p) addr⌝ -∗ pt 2 (xpagetable p) f N -∗ umem f U n -∗ kmem_inv g ps -∗ anybytes ip 8 -∗ Φ (-1) g) -∗
  wp (fetchaddr addr ip) Φ g.
Proof.
  iIntros (Hc Haddr Hp) "Ht Hu Hk Hi HΦ". unfold fetchaddr. pose proof Hc as (_ & _ & (Hl & Hsz & _) & HU).
  pose proof (layout_MAXVA _ _ _ Hl) as Hm. assert (MAXVA = 2 ^ 38) as Hmax by done.
  iApply wp_bind. iApply wp_getg. rewrite Hp. destruct ((xsz p <=? addr) || (xsz p <? u64 (addr + 8))) eqn:Hchk.
  { iApply wp_ret. iDestruct "HΦ" as "[_ HΦ]". iApply ("HΦ" with "[%] Ht Hu Hk Hi"). intros [Hw _].
    rewrite -> wrap_small in Hchk by lia. apply orb_true_iff in Hchk as [Hchk|Hchk]; lia. }
  apply orb_false_iff in Hchk as [Hc1 Hc2]. rewrite -> wrap_small in Hc2 by lia.
  iApply wp_bind. iApply (wp_copyin_loop with "Ht Hu Hk Hi"); [lia|lia|apply copy_fuel_enough; lia|done|intros w; by eapply caller_access|].
  iIntros (m r (Hm1 & Hacc & Hr)) "Ht Hu Hk Hb Hi". destruct Hr as [[-> ->]|(-> & Hlt & Hna)].
  - iApply wp_ret. iDestruct "HΦ" as "[HΦ _]". iApply ("HΦ" with "[%] Ht Hu Hk [Hb]"); [split; [lia|done]|].
    unfold word, uword. pose proof (ubytes_uread U addr 8 HU) as Hby. pose proof (le_combine_range _ Hby) as Hrg.
    pose proof (le_split_combine _ Hby) as Hsp. change (length (uread U addr 8)) with 8%nat in *. rewrite Hsp. by iFrame.
  - iApply wp_ret. iDestruct "HΦ" as "[_ HΦ]". iApply ("HΦ" with "[%] Ht Hu Hk [Hb Hi]").
    + intros [_ Hw]. apply Hna. rewrite -> wrap_small by lia. apply Hw. lia.
    + iDestruct (bytes_anybytes with "Hb") as "Hb"; [by apply ubytes_uread|]. rewrite -> length_uread by lia.
      iDestruct (anybytes_join with "Hb Hi") as "H"; [lia|lia|]. by replace (m + (8 - m)) with 8 by lia.
Qed.

Lemma wp_fetchstr p f N n U addr buf max ps (Φ : Z → xst E → hprop) g :
  caller_ok p f n U → 0 ≤ addr < 2 ^ 64 → 0 ≤ max → xproc_of g = p →
  pt 2 (xpagetable p) f N -∗ umem f U n -∗ kmem_inv g ps -∗ anybytes buf max -∗
  (∀ l, ⌜ustring f U addr l ∧ Z.of_nat (length l) < max⌝ -∗ pt 2 (xpagetable p) f N -∗ umem f U n -∗ kmem_inv g ps -∗
     bytes buf (l ++ [0]) -∗ anybytes (buf + (Z.of_nat (length l) + 1)) (max - (Z.of_nat (length l) + 1)) -∗ Φ (Z.of_nat (length l)) g) ∧
  (⌜∀ l, ustring f U addr l → max ≤ Z.of_nat (length l)⌝ -∗ pt 2 (xpagetable p) f N -∗ umem f U n -∗ kmem_inv g ps -∗ anybytes buf max -∗ Φ (-1) g) -∗
  wp (fetchstr addr buf max) Φ g.
Proof.
  iIntros (Hc Haddr Hmax Hp) "Ht Hu Hk Hb HΦ". unfold fetchstr. pose proof Hc as (_ & _ & _ & HU).
  iApply wp_bind. iApply wp_getg. rewrite Hp. iApply wp_bind.
  iApply (wp_copyinstr_loop with "Ht Hu Hk Hb"); [done|done|by apply copy_fuel_enough|done|intros w; by eapply caller_access|]. iSplit.
  - iIntros (l [Hl Hll]) "Ht Hu Hk Hb Hd". change (0 <? 0) with false. cbv iota.
    iApply (wp_strlen with "Hb"); [by eapply ustring_bytes|by destruct Hl|]. iIntros "Hb". iDestruct "HΦ" as "[HΦ _]". iApply ("HΦ" with "[//] Ht Hu Hk Hb Hd").
  - iIntros (Hno) "Ht Hu Hk Hb". change (-1 <? 0) with true. cbv iota. iApply wp_ret. iDestruct "HΦ" as "[_ HΦ]". iApply ("HΦ" with "[//] Ht Hu Hk Hb").
Qed.
End fetch.

(** ** The array of arguments *)

Section args.
Context {E : Type} `{HFS : ExecFs E, HLaws : !ExecFsLaws E, HKI : KernelImage, HKT : KernelText}.
Implicit Types (g : xst E) (e : E) (f : Z → Z) (p : xproc).

(** The array, and the pages its first entries point to. *)
Definition slots_mem (argv : Z) (vs : list Z) : hprop := ([∗ list] j ↦ v ∈ vs, (argv + 8 * Z.of_nat j) ↦₈ v)%I.
Definition filled (ptrs : list Z) : list Z := ptrs ++ replicate (32 - length ptrs) 0.
Definition pages_mem (ptrs : list Z) : hprop := ([∗ list] a ∈ ptrs, ⌜page_ok a ∧ a ≠ 0⌝ ∗ anybytes a PGSIZE)%I.
Definition arg_page (x : Z * list Z) : hprop :=
  (⌜page_ok x.1 ∧ arg_ok x⌝ ∗ bytes x.1 (x.2 ++ [0]) ∗
   anybytes (x.1 + (Z.of_nat (length x.2) + 1)) (PGSIZE - (Z.of_nat (length x.2) + 1)))%I.

Lemma argv_slot argv vs (i : nat) v :
  vs !! i = Some v →
  slots_mem argv vs ⊢ (argv + 8 * Z.of_nat i) ↦₈ v ∗ (∀ v', (argv + 8 * Z.of_nat i) ↦₈ v' -∗ slots_mem argv (<[i := v']> vs)).
Proof. intros Hi. apply (big_sepL_insert_acc (λ j v, (argv + 8 * Z.of_nat j) ↦₈ v)%I _ _ _ Hi). Qed.

Lemma filled_end ptrs : (length ptrs < 32)%nat → filled ptrs !! length ptrs = Some 0.
Proof. intros Hl. unfold filled. rewrite -> lookup_app_r by lia. apply lookup_replicate. split; [done|lia]. Qed.

Lemma filled_same ptrs : (length ptrs < 32)%nat → <[length ptrs := 0]> (filled ptrs) = filled ptrs.
Proof. intros Hl. by apply list_insert_id, filled_end. Qed.

Lemma filled_snoc ptrs a : (length ptrs < 32)%nat → <[length ptrs := a]> (filled ptrs) = filled (ptrs ++ [a]).
Proof.
  intros Hl. unfold filled. rewrite -> insert_app_r_alt by lia. rewrite Nat.sub_diag length_app -app_assoc. f_equal.
  by replace (32 - length ptrs)%nat with (S (32 - (length ptrs + length [a]))) by (simpl; lia).
Qed.

Lemma arg_page_page x : arg_page x ⊢ ⌜page_ok x.1 ∧ x.1 ≠ 0⌝ ∗ anybytes x.1 PGSIZE.
Proof.
  iIntros "([%Hok (%H0 & %Hb & _ & %Hl)] & Hb & Ha)". iSplit; [done|].
  iDestruct (bytes_anybytes with "Hb") as "Hb"; [apply Forall_app; by split; [|constructor]|].
  rewrite length_app Nat2Z.inj_add. iDestruct (anybytes_join with "Hb Ha") as "H"; [lia|simpl; lia|].
  change (Z.of_nat (length [0])) with 1.
  by replace (Z.of_nat (length x.2) + 1 + (PGSIZE - (Z.of_nat (length x.2) + 1))) with PGSIZE by lia.
Qed.

Lemma arg_pages args : ([∗ list] x ∈ args, arg_page x) ⊢ pages_mem (args.*1).
Proof. unfold pages_mem. rewrite big_sepL_fmap. apply big_sepL_mono. intros k x _. apply arg_page_page. Qed.

(** ** Giving the pages back *)

Lemma wp_free_loop ptrs n argv i ps (Φ : unit → xst E → hprop) g :
  (i + length ptrs + n = 32)%nat →
  ([∗ list] j ↦ v ∈ ptrs ++ replicate n 0, (argv + 8 * Z.of_nat (i + j)) ↦₈ v) -∗ pages_mem ptrs -∗ kmem_inv g ps -∗
  (∀ g' ps', ⌜kept g g' ∧ length ps' = (length ps + length ptrs)%nat⌝ -∗
     ([∗ list] j ↦ v ∈ ptrs ++ replicate n 0, (argv + 8 * Z.of_nat (i + j)) ↦₈ v) -∗ kmem_inv g' ps' -∗ Φ () g') -∗
  wp (free_loop (length ptrs + n) argv (Z.of_nat i)) Φ g.
Proof.
  revert i ps g. induction ptrs as [|a ptrs IH]; intros i ps g Hi; iIntros "Ha Hp Hk HΦ".
  - destruct n as [|n]; cbn [length Nat.add free_loop].
    { iApply wp_ret. iApply ("HΦ" with "[%] Ha Hk"). split; [apply kept_refl|simpl; lia]. }
    iEval (cbn [app replicate big_opL]; rewrite Nat.add_0_r) in "Ha". iDestruct "Ha" as "[H1 Ha]".
    iApply wp_bind. iApply (wp_load with "H1"). iIntros "H1". rewrite Z.eqb_refl. iApply wp_ret.
    iApply ("HΦ" with "[%] [H1 Ha] Hk"); [split; [apply kept_refl|simpl; lia]|]. cbn [app replicate big_opL]. rewrite Nat.add_0_r. iFrame.
  - cbn [length Nat.add free_loop]. iEval (cbn [app big_opL]; rewrite Nat.add_0_r) in "Ha". iDestruct "Ha" as "[H1 Ha]".
    iDestruct "Hp" as "[[[%Hok %H0] Hb] Hp]". iApply wp_bind. iApply (wp_load with "H1"). iIntros "H1".
    destruct (Z.eqb_spec a 0); [done|]. iApply wp_bind. iApply (wp_kfree with "Hk Hb"); [done|]. iIntros "Hk".
    replace (Z.of_nat i + 1) with (Z.of_nat (S i)) by lia.
    assert (∀ vs, ([∗ list] j ↦ v ∈ vs, (argv + 8 * Z.of_nat (i + S j)) ↦₈ v) ⊣⊢ ([∗ list] j ↦ v ∈ vs, (argv + 8 * Z.of_nat (S i + j)) ↦₈ v)) as Hsh.
    { intros vs. apply big_sepL_proper. intros j v _. by replace (i + S j)%nat with (S i + j)%nat by lia. }
    iApply (IH (S i) with "[Ha] Hp Hk"); [simpl in Hi; lia|by rewrite Hsh|]. iIntros (g' ps' [Hkept Hl]) "Ha Hk".
    iApply ("HΦ" $! g' ps' with "[%] [H1 Ha] Hk").
    + split; [|simpl in *; lia]. eapply kept_trans; [|exact Hkept]. eexists. reflexivity.
    + cbn [app big_opL]. rewrite Nat.add_0_r Hsh. iFrame.
Qed.

Lemma wp_free_args ptrs argv ps (Φ : unit → xst E → hprop) g :
  (length ptrs ≤ 32)%nat →
  slots_mem argv (filled ptrs) -∗ pages_mem ptrs -∗ kmem_inv g ps -∗
  (∀ g' ps', ⌜kept g g' ∧ length ps' = (length ps + length ptrs)%nat⌝ -∗ slots_mem argv (filled ptrs) -∗ kmem_inv g' ps' -∗ Φ () g') -∗
  wp (free_loop (Z.to_nat MAXARG) argv 0) Φ g.
Proof.
  iIntros (Hl) "Ha Hp Hk HΦ". replace (Z.to_nat MAXARG) with (length ptrs + (32 - length ptrs))%nat by (unfold MAXARG; lia).
  iApply (wp_free_loop ptrs (32 - length ptrs) argv 0 ps with "Ha Hp Hk HΦ"). lia.
Qed.

(** ** Collecting the arguments *)

Definition args_read f U sz uargv g g' (args new : list (Z * list Z)) (ps ps' : list Z) : Prop :=
  kept g g' ∧ uargs f U sz uargv (Z.of_nat (length args)) (new.*2) ∧
  (length args + length new < 32)%nat ∧ (length ps = length ps' + length new)%nat.
Definition args_failed f U sz uargv g g' (args : list (Z * list Z)) (ptrs ps ps' : list Z) : Prop :=
  kept g g' ∧ (length ps' + length ptrs = length ps + length args)%nat ∧ (length ptrs ≤ 32)%nat ∧
  ∀ strs, uargs f U sz uargv (Z.of_nat (length args)) strs → (32 ≤ length args + length strs ∨ length ps < length strs)%nat.

Lemma args_failed_step f U sz uargv g g1 g' args x ptrs ps ps1 ps' :
  kept g g1 → length ps = S (length ps1) → uword U (u64 (uargv + 8 * Z.of_nat (length args))) ≠ 0 →
  args_failed f U sz uargv g1 g' (args ++ [x]) ptrs ps1 ps' → args_failed f U sz uargv g g' args ptrs ps ps'.
Proof.
  intros Hk Hl Hnz (H1 & H2 & H3 & H4). rewrite length_app in H2, H4. simpl in H2, H4.
  split_and!; [by eapply kept_trans|lia|done|]. intros [|l strs]; cbn [uargs]; [by intros [_ ?]|].
  intros (_ & _ & _ & _ & Hs). specialize (H4 strs). replace (Z.of_nat (length args + 1)) with (Z.of_nat (length args) + 1) in H4 by lia.
  specialize (H4 Hs). simpl. lia.
Qed.

Lemma args_read_step f U sz uargv g g1 g' args x new ps ps1 ps' :
  kept g g1 → length ps = S (length ps1) →
  let a := u64 (uargv + 8 * Z.of_nat (length args)) in
  uword_ok f sz a → uword U a ≠ 0 → ustring f U (uword U a) x.2 → Z.of_nat (length x.2) < PGSIZE →
  args_read f U sz uargv g1 g' (args ++ [x]) new ps1 ps' → args_read f U sz uargv g g' args (x :: new) ps ps'.
Proof.
  intros Hk Hl a Hok Hnz Hstr Hlen (H1 & H2 & H3 & H4). rewrite length_app in H2, H3. simpl in H2, H3.
  split_and!; [by eapply kept_trans| |simpl; lia|simpl; lia]. rewrite fmap_cons. cbn [uargs]. split_and!; try done.
  by replace (Z.of_nat (length args) + 1) with (Z.of_nat (length args + 1)) by lia.
Qed.

Lemma args_bad f U sz uargv g g' args ptrs ps ps' :
  kept g g' → (length ps' + length ptrs = length ps + length args)%nat → (length ptrs ≤ 32)%nat →
  (∀ strs, ¬ uargs f U sz uargv (Z.of_nat (length args)) strs ∨ (length ps < length strs)%nat) →
  args_failed f U sz uargv g g' args ptrs ps ps'.
Proof. intros H1 H2 H3 H4. split_and!; [done|done|done|]. intros strs Hs. destruct (H4 strs) as [?|?]; [done|lia]. Qed.

Lemma wp_argv_loop n p f N pn U uargv argv ua args ps (Φ : bool → xst E → hprop) g :
  caller_ok p f pn U → xproc_of g = p → (length args + n = 32)%nat →
  pt 2 (xpagetable p) f N -∗ umem f U pn -∗ kmem_inv g ps -∗
  slots_mem argv (filled (args.*1)) -∗ ([∗ list] x ∈ args, arg_page x) -∗ anybytes ua 8 -∗
  (∀ g' ps' new, ⌜args_read f U (xsz p) uargv g g' args new ps ps'⌝ -∗
     pt 2 (xpagetable p) f N -∗ umem f U pn -∗ kmem_inv g' ps' -∗
     slots_mem argv (filled ((args ++ new).*1)) -∗ ([∗ list] x ∈ args ++ new, arg_page x) -∗ anybytes ua 8 -∗ Φ true g') ∧
  (∀ g' ps' ptrs, ⌜args_failed f U (xsz p) uargv g g' args ptrs ps ps'⌝ -∗
     pt 2 (xpagetable p) f N -∗ umem f U pn -∗ kmem_inv g' ps' -∗
     slots_mem argv (filled ptrs) -∗ pages_mem ptrs -∗ anybytes ua 8 -∗ Φ false g') -∗
  wp (argv_loop n uargv argv ua (Z.of_nat (length args))) Φ g.
Proof.
  intros Hc. revert args ps g. induction n as [|n IH]; intros args ps g Hp Hl; iIntros "Ht Hu Hk Hs Ha Hua HΦ"; cbn [argv_loop].
  { iApply wp_ret. iDestruct "HΦ" as "[_ HΦ]". iEval (rewrite arg_pages) in "Ha".
    iApply ("HΦ" $! g ps (args.*1) with "[%] Ht Hu Hk Hs Ha Hua"). rewrite /args_failed length_fmap. split_and!; [apply kept_refl|lia|lia|lia]. }
  assert (length (args.*1) = length args) as Hl1 by by rewrite length_fmap.
  set (a0 := u64 (uargv + 8 * Z.of_nat (length args))). pose proof (wrap_range 64 (uargv + 8 * Z.of_nat (length args)) ltac:(lia)) as Ha0. fold a0 in Ha0.
  iApply wp_bind. iApply (wp_fetchaddr with "Ht Hu Hk Hua"); [done|done|done|]. iSplit; last first.
  { iIntros (Hno) "Ht Hu Hk Hua". change (-1 <? 0) with true. cbv iota. iApply wp_ret. iDestruct "HΦ" as "[_ HΦ]". iEval (rewrite arg_pages) in "Ha".
    iApply ("HΦ" $! g ps (args.*1) with "[%] Ht Hu Hk Hs Ha Hua"). apply args_bad; [apply kept_refl|lia|lia|].
    intros strs. left. destruct strs; intros [Hw _]; done. }
  iIntros (Hok) "Ht Hu Hk Hua". change (0 <? 0) with false. cbv iota. iApply wp_bind. iApply (wp_load with "Hua"). iIntros "Hua".
  iDestruct (word_range with "Hua") as %Hrng. iEval (rewrite (word_anybytes 8)) in "Hua". change (256 ^ Z.of_nat 8) with (2 ^ 64) in Hrng.
  rewrite -Hl1. iDestruct (argv_slot argv _ _ _ (filled_end (args.*1) ltac:(lia)) with "Hs") as "[H1 Hs]".
  destruct (Z.eqb_spec (uword U a0) 0) as [Hz|Hnz].
  { iApply wp_bind. iApply (wp_store with "H1"); [done|]. iIntros "H1". iSpecialize ("Hs" with "H1"). rewrite -> filled_same by lia.
    iApply wp_ret. iDestruct "HΦ" as "[HΦ _]". iSpecialize ("HΦ" $! g ps []). rewrite app_nil_r.
    iApply ("HΦ" with "[%] Ht Hu Hk Hs Ha Hua"). split_and!; [apply kept_refl|by split|simpl; lia|simpl; lia]. }
  iApply wp_bind. iApply wp_kept; [apply keeps_kalloc|]. iApply (wp_kalloc with "Hk"). destruct ps as [|a ps].
  { iIntros "Hk _". iApply wp_bind. iApply (wp_store with "H1"); [done|]. iIntros "H1". iSpecialize ("Hs" with "H1"). rewrite -> filled_same by lia.
    rewrite Z.eqb_refl. iApply wp_ret. iDestruct "HΦ" as "[_ HΦ]". iEval (rewrite arg_pages) in "Ha".
    iApply ("HΦ" $! g [] (args.*1) with "[%] Ht Hu Hk Hs Ha Hua"). apply args_bad; [apply kept_refl|lia|lia|].
    intros [|l strs]; [left|right; simpl; lia]. by intros [_ Hw]. }
  iIntros ([Hpok Hpa0]) "Hb %next Hk %Hkept". iDestruct (kmem_inv_kend with "Hk") as %Hkend. pose proof (page_ok_range a Hkend Hpok) as Hpr.
  iApply wp_bind. iApply (wp_store with "H1"); [change (256 ^ Z.of_nat 8) with (2 ^ 64); lia|]. iIntros "H1". iSpecialize ("Hs" with "H1").
  rewrite -> filled_snoc by lia. destruct (Z.eqb_spec a 0); [done|]. iEval (rewrite (page_junk a 5 ltac:(done))) in "Hb".
  set (g1 := with_freelist next g) in *. assert (xproc_of g1 = p) as Hp1 by (destruct Hkept as [km Hkm]; rewrite Hkm; exact Hp).
  iApply wp_bind. iApply (wp_fetchstr with "Ht Hu Hk Hb"); [done|done|done|done|]. rewrite Hl1. iSplit; last first.
  { iIntros (Hno) "Ht Hu Hk Hb". change (-1 <? 0) with true. cbv iota. iApply wp_ret. iDestruct "HΦ" as "[_ HΦ]". iEval (rewrite arg_pages) in "Ha".
    iApply ("HΦ" $! g1 ps (args.*1 ++ [a]) with "[%] Ht Hu Hk Hs [Ha Hb] Hua").
    - apply args_bad; [done|rewrite length_app; simpl; lia|rewrite length_app; simpl; lia|]. intros strs. left.
      destruct strs as [|l strs]; cbn [uargs]; [by intros [_ ?]|]. intros (_ & _ & Hl2 & Hl3 & _). apply Hno in Hl2. lia.
    - unfold pages_mem. rewrite big_sepL_app. iFrame "Ha". simpl. by iFrame "Hb". }
  iIntros (l [Hstr Hll]) "Ht Hu Hk Hb Hrest". destruct (Z.ltb_spec (Z.of_nat (length l)) 0); [lia|].
  replace (Z.of_nat (length args) + 1) with (Z.of_nat (length (args ++ [(a, l)]))) by (rewrite length_app; simpl; lia).
  assert (arg_ok (a, l)) as Hao. { destruct Hc as (_ & _ & _ & HU). split_and!; [done|by eapply ustring_bytes|apply Hstr|done]. }
  iApply (IH (args ++ [(a, l)]) with "Ht Hu Hk [Hs] [Ha Hb Hrest] Hua"); [done|rewrite length_app; simpl; lia|by rewrite fmap_app|..].
  { rewrite big_sepL_app. iFrame "Ha". simpl. iSplit; [|done]. iSplit; [done|]. iFrame "Hb Hrest". }
  iSplit.
  - iIntros (g' ps' new Hrd) "Ht Hu Hk Hs Ha Hua". iDestruct "HΦ" as "[HΦ _]". iSpecialize ("HΦ" $! g' ps' ((a, l) :: new)).
    rewrite -app_assoc. iApply ("HΦ" with "[%] Ht Hu Hk Hs Ha Hua"). by eapply args_read_step.
  - iIntros (g' ps' ptrs Hf) "Ht Hu Hk Hs Ha Hua". iDestruct "HΦ" as "[_ HΦ]". iApply ("HΦ" with "[%] Ht Hu Hk Hs Ha Hua"). by eapply args_failed_step.
Qed.
End args.

(** ** The call *)

Section call.
Context {E : Type} `{HFS : ExecFs E, HLaws : !ExecFsLaws E, HKI : KernelImage, HKT : KernelText}.
Implicit Types (g : xst E) (e : E) (f : Z → Z) (p : xproc).

Lemma slots_app argv vs ws :
  slots_mem argv (vs ++ ws) ⊣⊢ slots_mem argv vs ∗ slots_mem (argv + 8 * Z.of_nat (length vs)) ws.
Proof.
  unfold slots_mem. rewrite big_sepL_app. f_equiv. apply big_sepL_proper. intros j v _.
  by replace (argv + 8 * Z.of_nat (length vs + j)) with (argv + 8 * Z.of_nat (length vs) + 8 * Z.of_nat j) by lia.
Qed.

Lemma slots_cons argv v vs : slots_mem argv (v :: vs) ⊣⊢ argv ↦₈ v ∗ slots_mem (argv + 8) vs.
Proof. rewrite (slots_app argv [v] vs). unfold slots_mem at 1. simpl. by rewrite Z.add_0_r bi.sep_emp. Qed.

Lemma zeros_slots argv n : bytes argv (replicate (8 * n) 0) ⊢ slots_mem argv (replicate n 0).
Proof.
  revert argv. induction n as [|n IH]; intros argv; [iIntros "_"; by iApply big_sepL_nil|].
  replace (8 * S n)%nat with (8 + 8 * n)%nat by lia. rewrite replicate_add bytes_app. cbn [replicate]. rewrite slots_cons IH.
  change [0; 0; 0; 0; 0; 0; 0; 0] with (le_split 8 0). by rewrite (bytes_word 8).
Qed.

Lemma slots_any argv vs : slots_mem argv vs ⊢ anybytes argv (8 * Z.of_nat (length vs)).
Proof.
  revert argv. induction vs as [|v vs IH]; intros argv; [iIntros "_"; iApply anybytes_0|].
  rewrite slots_cons IH. iIntros "[H1 H]". iEval (rewrite (word_anybytes 8)) in "H1".
  iDestruct (anybytes_join with "H1 H") as "H"; [lia|lia|]. by replace (Z.of_nat 8 + 8 * Z.of_nat (length vs)) with (8 * Z.of_nat (length (v :: vs))) by (simpl length; lia).
Qed.

Lemma length_filled ptrs : (length ptrs ≤ 32)%nat → length (filled ptrs) = 32%nat.
Proof. intros Hl. unfold filled. rewrite length_app length_replicate. lia. Qed.

(** The array as [exec] takes it, and back. *)
Lemma args_lend argv args :
  (length args < 32)%nat →
  slots_mem argv (filled (args.*1)) -∗ ([∗ list] x ∈ args, arg_page x) -∗
  argv_mem argv args ∗ (argv_mem argv args -∗ slots_mem argv (filled (args.*1)) ∗ pages_mem (args.*1)).
Proof.
  iIntros (Hl) "Hs Ha". unfold filled. rewrite length_fmap. replace (32 - length args)%nat with (S (31 - length args)) by lia.
  cbn [replicate]. rewrite slots_app slots_cons length_fmap. iDestruct "Hs" as "(Hs & Hz & Hr)".
  assert (slots_mem argv (args.*1) ⊣⊢ [∗ list] i ↦ x ∈ args, (argv + 8 * Z.of_nat i) ↦₈ x.1) as Hsl by (unfold slots_mem; by rewrite big_sepL_fmap).
  rewrite Hsl. iAssert (([∗ list] x ∈ args, bytes x.1 (x.2 ++ [0])) ∗ (([∗ list] x ∈ args, bytes x.1 (x.2 ++ [0])) -∗ [∗ list] x ∈ args, arg_page x))%I with "[Ha]" as "[Hb Ha]".
  { clear Hl Hsl. iInduction args as [|x args IH]; [iSplitL; [done|by iIntros]|]. simpl. iDestruct "Ha" as "[(%Hp & Hb & Hr) Ha]".
    iDestruct ("IH" with "Ha") as "[Hbs Ha]". iFrame "Hb Hbs". iIntros "[Hb Hbs]". iSplitL "Hb Hr"; [iSplit; [done|]; iFrame|by iApply "Ha"]. }
  iSplitL "Hs Hb Hz".
  - unfold argv_mem. rewrite big_sepL_sep. iFrame.
  - iIntros "[Hab Hz]". rewrite big_sepL_sep. iDestruct "Hab" as "[Hs Hb]". iFrame. iApply arg_pages. by iApply "Ha".
Qed.

(** Where the strings lie in the kernel does not matter to the program. *)
Definition kargs (strs : list (list Z)) : list (Z * list Z) := pair 0 <$> strs.

Lemma stack_need_strs args : stack_need (kargs (args.*2)) = stack_need args.
Proof.
  unfold stack_need, kargs. rewrite !length_fmap. f_equal. induction args as [|x args IH]; [done|].
  cbn [need foldr fmap list_fmap]. fold (need args) (need (pair 0 <$> args.*2)). by rewrite IH.
Qed.

Lemma runnable_strs c args T : runnable c (kargs (args.*2)) T ↔ runnable c args T.
Proof. unfold runnable. by rewrite stack_need_strs. Qed.

Lemma new_image_strs c args f n U sp : new_image c args f n U sp → new_image c (kargs (args.*2)) f n U sp.
Proof.
  intros (H1 & H2 & H3 & H4 & H5 & H6 & ptrs & H7 & H8).
  refine (conj H1 (conj H2 (conj H3 (conj H4 (conj H5 (conj H6 (ex_intro _ ptrs (conj _ _)))))))).
  - unfold kargs. apply Forall2_fmap_r, Forall2_fmap_r. exact H7.
  - unfold kargs. by rewrite !length_fmap.
Qed.

Definition locals (path argv ua ustack : Z) : hprop :=
  (anybytes path MAXPATH ∗ anybytes argv 256 ∗ anybytes ua 8 ∗ anybytes ustack 256)%I.

(** A call that can be served with [T] pages free. *)
Definition servable g f U (sz a0 a1 : Z) (T : nat) : Prop :=
  ∃ l strs c, ustring f U a0 l ∧ Z.of_nat (length l) < MAXPATH ∧ uargs f U sz a1 0 strs ∧ (length strs < 32)%nat ∧
    xf_file (xfs g) l = Some c ∧ (length strs ≤ T)%nat ∧ runnable c (kargs strs) (T - length strs).

Definition call_failed g g' p f U a0 a1 (T : nat) (ps' : list Z) : Prop :=
  xproc_of g' = p ∧ xf_ready (xfs g') ∧ length ps' = T ∧ ¬ servable g f U (xsz p) a0 a1 T.
Definition call_done g g' p f U a0 a1 l (strs : list (list Z)) c p' f' (N' n' : nat) U' sp (T : nat) (ps' : list Z) : Prop :=
  ustring f U a0 l ∧ uargs f U (xsz p) a1 0 strs ∧ exec_done g g' p l c (kargs strs) p' f' N' n' U' sp T ps'.

(** With the arguments collected. *)
Definition run_failed g g' p l args (T : nat) : Prop :=
  xproc_of g' = p ∧ xf_ready (xfs g') ∧ ∀ c, xf_file (xfs g) l = Some c → ¬ runnable c args T.

Lemma wp_sys_exec_run path argv ustack l args p a1 epc sp0 f N n U ps (Φ : Z → xst E → hprop) g :
  caller_ok p f n U → Forall is_byte l → Forall (λ b, b ≠ 0) l → (length args < 32)%nat → xproc_of g = p → xf_ready (xfs g) →
  kmem_inv g ps -∗ slots_mem argv (filled (args.*1)) -∗ ([∗ list] x ∈ args, arg_page x) -∗ bytes path (l ++ [0]) -∗ anybytes ustack 256 -∗
  proc_frame p a1 epc sp0 -∗ proc_image p f N n U -∗
  (∀ g' ps', ⌜run_failed g g' p l args (length ps)⌝ -∗ ⌜(length ps' = length ps + length args)%nat⌝ -∗
     kmem_inv g' ps' -∗ slots_mem argv (filled (args.*1)) -∗ bytes path (l ++ [0]) -∗ anybytes ustack 256 -∗
     proc_frame p a1 epc sp0 -∗ proc_image p f N n U -∗ Φ (-1) g') ∧
  (∀ g' ps' c p' f' N' n' U' sp, ⌜exec_done g g' p l c args p' f' N' n' U' sp (length ps + length args + N + n) ps'⌝ -∗
     kmem_inv g' ps' -∗ slots_mem argv (filled (args.*1)) -∗ bytes path (l ++ [0]) -∗ anybytes ustack 256 -∗
     proc_frame p' sp (elf_entry (elf_of c)) sp -∗ proc_image p' f' N' n' U' -∗ Φ (Z.of_nat (length args)) g') -∗
  wp (ret ← exec ustack path argv; free_loop (Z.to_nat MAXARG) argv 0;; mret ret) Φ g.
Proof.
  iIntros ((Htx & Htf & _) Hlb Hlz Hl Hp Hr) "Hk Hs Ha Hpath Hus Hfr Himg HΦ".
  iAssert ⌜Forall arg_ok args⌝%I as %Hok.
  { iClear "Hs HΦ". iInduction args as [|x args IH]; [by iPureIntro|]. simpl. iDestruct "Ha" as "[([_ %Hx] & _) Ha]".
    iDestruct ("IH" with "[%] Hk Ha Hpath Hus Hfr Himg") as %Hr'; [simpl in Hl; lia|]. iPureIntro. by constructor. }
  iDestruct (args_lend with "Hs Ha") as "[Hav Hback]"; [done|]. iApply wp_bind.
  iApply (wp_exec with "Hk [$Hus $Hpath $Hav] Hfr Himg"); [done|done|by split_and!|done|done|]. iSplit.
  - iIntros (g' ps' Hf) "Hk (Hus & Hpath & Hav) Hfr Himg". iDestruct ("Hback" with "Hav") as "[Hs Hpg]".
    iApply wp_bind. iApply (wp_free_args with "Hs Hpg Hk"); [rewrite length_fmap; lia|]. iIntros (g2 ps2 [[km ->] Hl2]) "Hs Hk". iApply wp_ret.
    rewrite length_fmap in Hl2. destruct Hf as (F1 & F2 & F3 & F4). iDestruct "HΦ" as "[HΦ _]".
    iApply ("HΦ" $! (set_kmem km g') ps2 with "[%] [%] Hk Hs Hpath Hus Hfr Himg"); [|lia].
    by split_and!.
  - iIntros (g' ps' c p' f' N' n' U' sp Hd) "Hk (Hus & Hpath & Hav) Hfr Himg". iDestruct ("Hback" with "Hav") as "[Hs Hpg]".
    iApply wp_bind. iApply (wp_free_args with "Hs Hpg Hk"); [rewrite length_fmap; lia|]. iIntros (g2 ps2 [[km ->] Hl2]) "Hs Hk". iApply wp_ret.
    rewrite length_fmap in Hl2. destruct Hd as (D1 & D2 & D3 & D4 & D5 & D6 & D7 & D8 & D9). iDestruct "HΦ" as "[_ HΦ]".
    iApply ("HΦ" $! (set_kmem km g') ps2 c with "[%] Hk Hs Hpath Hus Hfr Himg").
    refine (conj D1 (conj D2 (conj D3 (conj D4 (conj D5 (conj D6 (conj D7 (conj D8 _)))))))). lia.
Qed.

(** The locals are given back. *)
Lemma path_back path l : Z.of_nat (length l) < MAXPATH → Forall is_byte l →
  bytes path (l ++ [0]) -∗ anybytes (path + (Z.of_nat (length l) + 1)) (MAXPATH - (Z.of_nat (length l) + 1)) -∗ anybytes path MAXPATH.
Proof.
  iIntros (Hl Hb) "H1 H2". iDestruct (bytes_anybytes with "H1") as "H1"; [apply Forall_app; by split; [|constructor]|].
  rewrite length_app Nat2Z.inj_add. change (Z.of_nat (length [0])) with 1.
  iDestruct (anybytes_join with "H1 H2") as "H"; [lia|lia|].
  by replace (Z.of_nat (length l) + 1 + (MAXPATH - (Z.of_nat (length l) + 1))) with MAXPATH by lia.
Qed.

Lemma argv_back argv ptrs : (length ptrs ≤ 32)%nat → slots_mem argv (filled ptrs) ⊢ anybytes argv 256.
Proof. intros Hl. rewrite slots_any. by rewrite length_filled. Qed.

(** A call is served with the strings that were read, or not at all. *)
Lemma not_servable_path g f U sz a0 a1 T : (∀ l, ustring f U a0 l → MAXPATH ≤ Z.of_nat (length l)) → ¬ servable g f U sz a0 a1 T.
Proof. intros Hno (l & strs & c & Hl & Hll & _). apply Hno in Hl. lia. Qed.

Lemma not_servable_args g f U sz a0 a1 (T : nat) :
  (∀ strs, uargs f U sz a1 0 strs → (32 ≤ length strs ∨ T < length strs)%nat) → ¬ servable g f U sz a0 a1 T.
Proof. intros Hno (l & strs & c & _ & _ & Hs & Hl & _ & Hm & _). apply Hno in Hs. lia. Qed.

Lemma not_servable_run g f U sz a0 a1 l args (T : nat) :
  ustring f U a0 l → uargs f U sz a1 0 (args.*2) → (∀ c, xf_file (xfs g) l = Some c → ¬ runnable c args (T - length args)) →
  ¬ servable g f U sz a0 a1 T.
Proof.
  intros Hl Hs Hno (l' & strs & c & Hl' & _ & Hs' & _ & Hf & _ & Hr).
  rewrite (ustring_unique _ _ _ _ _ Hl' Hl) in Hf. rewrite (uargs_unique _ _ _ _ _ _ _ Hs' Hs) in Hr.
  rewrite -> runnable_strs, length_fmap in Hr. by apply (Hno c).
Qed.

Lemma wp_sys_exec path argv ua ustack p a0 a1 epc sp0 f N n U ps (Φ : Z → xst E → hprop) g :
  caller_ok p f n U → xproc_of g = p → xf_ready (xfs g) →
  kmem_inv g ps -∗ locals path argv ua ustack -∗ (xtrapframe p + 112) ↦₈ a0 -∗ proc_frame p a1 epc sp0 -∗ proc_image p f N n U -∗
  (∀ g' ps', ⌜call_failed g g' p f U a0 a1 (length ps) ps'⌝ -∗ kmem_inv g' ps' -∗ locals path argv ua ustack -∗
     (xtrapframe p + 112) ↦₈ a0 -∗ proc_frame p a1 epc sp0 -∗ proc_image p f N n U -∗ Φ (-1) g') ∧
  (∀ g' ps' l strs c p' f' N' n' U' sp, ⌜call_done g g' p f U a0 a1 l strs c p' f' N' n' U' sp (length ps + N + n) ps'⌝ -∗
     kmem_inv g' ps' -∗ locals path argv ua ustack -∗ (xtrapframe p + 112) ↦₈ a0 -∗
     proc_frame p' sp (elf_entry (elf_of c)) sp -∗ proc_image p' f' N' n' U' -∗ Φ (Z.of_nat (length strs)) g') -∗
  wp (sys_exec path argv ua ustack) Φ g.
Proof.
  iIntros (Hc Hp Hready) "Hk (Hpath & Hargv & Hua & Hus) Ha0 (Ha1 & Hfr) [%Himg [Ht Hu]] HΦ". unfold sys_exec, argstr, argraw.
  iApply wp_bind. iApply wp_bind. iApply wp_getg. rewrite Hp. change ((0 <=? 1) && (1 <=? 5)) with true. cbv iota.
  replace (xtrapframe p + 112 + 8 * 1) with (xtrapframe p + 120) by lia. iApply (wp_load with "Ha1"). iIntros "Ha1".
  iDestruct (word_range with "Ha0") as %Hr0. iDestruct (word_range with "Ha1") as %Hr1. change (256 ^ Z.of_nat 8) with (2 ^ 64) in *.
  iApply wp_bind. iApply wp_bind. iApply wp_bind. iApply wp_getg. rewrite Hp. change ((0 <=? 0) && (0 <=? 5)) with true. cbv iota.
  replace (xtrapframe p + 112 + 8 * 0) with (xtrapframe p + 112) by lia. iApply (wp_load with "Ha0"). iIntros "Ha0".
  iApply (wp_fetchstr with "Ht Hu Hk Hpath"); [done|done|done|done|]. iSplit; last first.
  { iIntros (Hno) "Ht Hu Hk Hpath". change (-1 <? 0) with true. cbv iota. iApply wp_ret. iDestruct "HΦ" as "[HΦ _]".
    iApply ("HΦ" $! g ps with "[%] Hk [$Hpath $Hargv $Hua $Hus] Ha0 [$Ha1 $Hfr] [$Ht $Hu //]").
    split_and!; [done|done|done|by apply not_servable_path]. }
  iIntros (l [Hl Hll]) "Ht Hu Hk Hpath Hrest". destruct (Z.ltb_spec (Z.of_nat (length l)) 0); [lia|].
  assert (Forall is_byte l) as Hlb by (destruct Hc as (_ & _ & _ & HU); by eapply ustring_bytes).
  iApply wp_bind. iApply (wp_memset with "Hargv"); [done|]. iIntros "Hargv".
  iDestruct (zeros_slots argv 32 with "Hargv") as "Hs".
  iApply wp_bind. iApply (wp_argv_loop 32 p f N n U a1 argv ua [] with "Ht Hu Hk [Hs] [] Hua"); [done|done|done|iExact "Hs"|done|]. iSplit.
  - iIntros (g1 ps1 args ([km ->] & Hargs & Hlen & Hcnt)) "Ht Hu Hk Hs Ha Hua". cbn [app length Nat.add] in *. cbv iota.
    iApply (wp_sys_exec_run with "Hk Hs Ha Hpath Hus [$Ha1 $Hfr] [$Ht $Hu //]"); [done|done|by destruct Hl|done|done|done|]. iSplit.
    + iIntros (g' ps' (F1 & F2 & F3) F4) "Hk Hs Hpath Hus Hfr Himg". iDestruct "HΦ" as "[HΦ _]".
      iDestruct (path_back with "Hpath Hrest") as "Hpath"; [done|done|]. iEval (rewrite argv_back; [|rewrite length_fmap; lia]) in "Hs".
      iApply ("HΦ" $! g' ps' with "[%] Hk [$Hpath $Hs $Hua $Hus] Ha0 Hfr Himg"). split_and!; [done|done|lia|].
      eapply not_servable_run; [exact Hl|exact Hargs|]. by replace (length ps - length args)%nat with (length ps1) by lia.
    + iIntros (g' ps' c p' f' N' n' U' sp Hd) "Hk Hs Hpath Hus Hfr Himg". iDestruct "HΦ" as "[_ HΦ]".
      iDestruct (path_back with "Hpath Hrest") as "Hpath"; [done|done|]. iEval (rewrite argv_back; [|rewrite length_fmap; lia]) in "Hs".
      iSpecialize ("HΦ" $! g' ps' l (args.*2) c p' f' N' n' U' sp). rewrite length_fmap.
      iApply ("HΦ" with "[%] Hk [$Hpath $Hs $Hua $Hus] Ha0 Hfr Himg").
      split; [exact Hl|]. split; [exact Hargs|]. destruct Hd as (D1 & D2 & D3 & D4 & D5 & D6 & D7 & D8 & D9).
      refine (conj D1 (conj D2 (conj D3 (conj D4 (conj D5 (conj D6 (conj _ (conj D8 _)))))))); [by apply new_image_strs|lia].
  - iIntros (g1 ps1 ptrs ([km ->] & Hcnt & Hpl & Hwhy)) "Ht Hu Hk Hs Hpg Hua". cbn [length Nat.add] in *.
    iApply wp_bind. iApply (wp_free_args with "Hs Hpg Hk"); [done|]. iIntros (g2 ps2 [[km2 ->] Hl2]) "Hs Hk". iApply wp_ret. iDestruct "HΦ" as "[HΦ _]".
    iDestruct (path_back with "Hpath Hrest") as "Hpath"; [done|done|]. iEval (rewrite argv_back //) in "Hs".
    iApply ("HΦ" with "[%] Hk [$Hpath $Hs $Hua $Hus] Ha0 [$Ha1 $Hfr] [$Ht $Hu //]").
    split_and!; [done|done|lia|]. by apply not_servable_args.
Qed.

(** ** Runs *)

Definition sys_state (s : st (xst E)) (u : bytemap) path argv ua ustack p f (N n : nat) U a0 a1 epc sp ps : Prop :=
  xproc_of (glob s) = p ∧ xf_ready (xfs (glob s)) ∧ ubytes U ∧
  sat (kmem_inv (glob s) ps ∗ locals path argv ua ustack ∗ (xtrapframe p + 112) ↦₈ a0 ∗ proc_frame p a1 epc sp ∗ proc_image p f N n U)%I (mem s) u.

(** C15: the system call [exec] takes a path and strings from the user's memory,
    and either the process runs the program of that name with copies of exactly
    these strings as its arguments, or the call returns -1 and process, memory
    and trapframe are as before.  It fails only when the user's pointers are
    bad, a string is too long or there are too many of them, or [exec] fails.
    In both cases the pages that held the strings in the kernel are free
    again, and no other page is lost. *)
Theorem sys_exec_correct s u path argv ua ustack p f N n U a0 a1 epc sp ps :
  text_ok → 0 ≤ xtrapframe p < 2 ^ 56 → sys_state s u path argv ua ustack p f N n U a0 a1 epc sp ps →
  ∃ r s', sys_exec path argv ua ustack s = Ok r s' ∧
    ((r = -1 ∧ ¬ servable (glob s) f U (xsz p) a0 a1 (length ps) ∧
      ∃ ps', length ps' = length ps ∧ sys_state s' u path argv ua ustack p f N n U a0 a1 epc sp ps') ∨
     (∃ l strs c p' f' N' n' U' sp' ps', r = Z.of_nat (length strs) ∧
        ustring f U a0 l ∧ uargs f U (xsz p) a1 0 strs ∧ xf_file (xfs (glob s)) l = Some c ∧
        new_image c (kargs strs) f' n' U' sp' ∧ xsz p' = Z.of_nat n' * PGSIZE ∧ xtrapframe p' = xtrapframe p ∧ xname p' = xname p ∧
        (length ps' + N' + n' = length ps + N + n)%nat ∧
        sys_state s' u path argv ua ustack p' f' N' n' U' a0 sp' (elf_entry (elf_of c)) sp' ps')).
Proof.
  intros Htx Htf (Hp & Hready & HU & Hs).
  edestruct (sat_run (sys_exec path argv ua ustack) (λ r g',
      (∃ ps', ⌜r = -1 ∧ call_failed (glob s) g' p f U a0 a1 (length ps) ps'⌝ ∗
         (kmem_inv g' ps' ∗ locals path argv ua ustack ∗ (xtrapframe p + 112) ↦₈ a0 ∗ proc_frame p a1 epc sp ∗ proc_image p f N n U)) ∨
      (∃ ps' l strs c p' f' N' n' U' sp',
         ⌜r = Z.of_nat (length strs) ∧ call_done (glob s) g' p f U a0 a1 l strs c p' f' N' n' U' sp' (length ps + N + n) ps'⌝ ∗
         (kmem_inv g' ps' ∗ locals path argv ua ustack ∗ (xtrapframe p + 112) ↦₈ a0 ∗ proc_frame p' sp' (elf_entry (elf_of c)) sp' ∗ proc_image p' f' N' n' U')))%I)
    as (r & s' & Hrun & Hsat); [done|exact Hs| |].
  { iIntros "(Hk & Hl & Ha & Hf & [%Hi Hi])". iApply (wp_sys_exec with "Hk Hl Ha Hf [$Hi //]"); [done..|]. iSplit.
    - iIntros (g' ps' H1) "Hk Hl Ha Hf Hi". iLeft. iExists ps'. iSplit; [done|]. iFrame "Hk Hl Ha Hf Hi".
    - iIntros (g' ps' l strs c p' f' N' n' U' sp' H1) "Hk Hl Ha Hf Hi". iRight. iExists ps', l, strs, c, p', f', N', n', U', sp'. iSplit; [done|]. iFrame "Hk Hl Ha Hf Hi". }
  exists r, s'. split; [exact Hrun|]. apply sat_or in Hsat as [Hsat|Hsat]; [left|right].
  - apply sat_exist in Hsat as [ps' [[-> (H1 & H2 & H3 & H4)] Hsat]%sat_pure]. split_and!; [done|done|]. by exists ps'.
  - do 10 (apply sat_exist in Hsat as [? Hsat]). apply sat_pure in Hsat as [[-> (C1 & C2 & H1 & H2 & H3 & H4 & H5 & H6 & H7 & H8 & H9)] Hsat].
    do 10 eexists. refine (conj eq_refl (conj C1 (conj C2 (conj H3 (conj H7 (conj H6 (conj H4 (conj H5 (conj H9 (conj H1 (conj H2 (conj H8 _)))))))))))).
    by rewrite H4.
Qed.
End call.

Module SysExecWitness.
Import ImageWitness ExecWitness.

(** The user's page: the name [ls] at address 8, the array with it at 16. *)
Definition user : list Z := (ls ++ [0]) ++ replicate 5 0 ++ le_split 8 8 ++ le_split 8 0.
Definition U1 : Z → Z := uwrite (λ _, 0) 8 user.

(** The trapframe with [a0] and [a1], the name and the locals. *)
Definition frame : list Z :=
  replicate 24 0 ++ le_split 8 0 ++ replicate 16 0 ++ le_split 8 0 ++ replicate 56 0 ++ le_split 8 8 ++ le_split 8 16 ++ replicate 16 0 ++
  replicate 256 0 ++ replicate 8 0 ++ replicate 256 0 ++ replicate 128 0.

Lemma frame_mem p :
  xtrapframe p = 4096 → xname p = 4224 →
  bytes 4096 frame ⊢ locals 4760 4504 4496 4240 ∗ (xtrapframe p + 112) ↦₈ 8 ∗ proc_frame p 16 0 0.
Proof.
  iIntros (Hp1 Hp2) "H". unfold frame.
  iDestruct (bytes_cut _ _ _ 4120 with "H") as "[_ H]"; [done|].
  iDestruct (bytes_cut _ _ _ 4128 with "H") as "[H24 H]"; [done|].
  iDestruct (bytes_cut _ _ _ 4144 with "H") as "[_ H]"; [done|].
  iDestruct (bytes_cut _ _ _ 4152 with "H") as "[H48 H]"; [done|].
  iDestruct (bytes_cut _ _ _ 4208 with "H") as "[_ H]"; [done|].
  iDestruct (bytes_cut _ _ _ 4216 with "H") as "[H112 H]"; [done|].
  iDestruct (bytes_cut _ _ _ 4224 with "H") as "[H120 H]"; [done|].
  iDestruct (bytes_cut _ _ _ 4240 with "H") as "[Hname H]"; [done|].
  iDestruct (bytes_cut _ _ _ 4496 with "H") as "[Hus H]"; [done|].
  iDestruct (bytes_cut _ _ _ 4504 with "H") as "[Hua H]"; [done|].
  iDestruct (bytes_cut _ _ _ 4760 with "H") as "[Hargv Hpath]"; [done|].
  iEval (rewrite word_intro //) in "H24". iEval (rewrite word_intro //) in "H48".
  iEval (rewrite word_intro //) in "H112". iEval (rewrite word_intro //) in "H120".
  iEval (rewrite zeros_any) in "Hname". iEval (rewrite zeros_any) in "Hus". iEval (rewrite zeros_any) in "Hua".
  iEval (rewrite zeros_any) in "Hargv". iEval (rewrite zeros_any) in "Hpath".
  unfold proc_frame, locals. rewrite Hp1 Hp2. iFrame "Hpath Hargv Hua Hus H112 H120 H24 H48 Hname".
Qed.

(** A process with that page, beside what there is. *)
Lemma user_page (P : hprop) (s : st kmem) u t f N ps :
  sat ((P ∗ bytes 4888 user) ∗ pt 2 t f N ∗ kmem_inv (glob s) ps)%I (mem s) u → layout 4096 f 0 → (6 ≤ length ps < 100)%nat →
  ∃ s' f' N' ps', sat (P ∗ pt 2 t f' N' ∗ umem f' U1 1 ∗ kmem_inv (glob s') ps')%I (mem s') u ∧
    layout 4096 f' 1 ∧ accessible f' 0 ∧ (length ps ≤ length ps' + 3)%nat.
Proof.
  intros Hs Hlay Hl. edestruct (sat_run (uvmalloc t 0 4096 PTE_W;; copyout t 8 4888 (Z.of_nat (length user))) (λ _ g',
      ∃ f' N' ps', ⌜layout 4096 f' 1 ∧ accessible f' 0 ∧ (length ps ≤ length ps' + 3)%nat⌝ ∗ (P ∗ pt 2 t f' N' ∗ umem f' U1 1 ∗ kmem_inv g' ps'))%I)
    as (r & s' & _ & Hsat); [done|exact Hs| |].
  2: { do 3 (apply sat_exist in Hsat as [? Hsat]). apply sat_pure in Hsat as [H1 Hsat]. by do 4 eexists. }
  iIntros "([HP Hb] & Ht & Hk)". iApply wp_bind.
  iApply (wp_grow 4096 t f N (λ _, 0) 0 with "Ht [] Hk"); [done|done|done|done|done|done|done|lia|by unfold umem; simpl|].
  iIntros (r g' f' N' n' ps' [(H1 & H2 & H3 & H4 & H5) H6]) "Ht Hu Hk".
  assert (n' = 1 ∧ N' ≤ N + 2)%nat as [-> HN].
  { destruct H5 as [(_ & _ & [Hx|Hx])|(_ & -> & Hx & _ & Hr)]; [done|unfold PGSIZE in Hx; lia|].
    change (PGROUNDUP (0 `max` 4096)) with 4096 in Hr. unfold PGSIZE in Hr. lia. }
  assert (accessible f' 0) as Hacc. { apply (uflags_accessible _ _ PTE_W); [done|]. apply H4. lia. }
  iApply (wp_copyout_loop with "Ht Hu Hk Hb"); [done|by apply copy_fuel_enough|apply (bool_decide_unpack _); vm_compute; exact I|done|by intros w; apply (layout_accessible 4096)|].
  iIntros (m r2 (Hm1 & _ & Hr)) "Ht Hu Hk _". destruct Hr as [[-> ->]|(-> & Hlt & Hna)].
  - iExists f', N', ps'. rewrite Nat2Z.id firstn_all. iSplit; [iPureIntro; split_and!; [done|done|lia]|]. iFrame "HP Ht Hu Hk".
  - exfalso. apply Hna. change (Z.of_nat (length user)) with 24 in Hlt. rewrite -> wrap_small by lia. by replace ((8 + m) / PGSIZE) with 0 by (unfold PGSIZE; dlia).
Qed.

Lemma calling_sys :
  ∃ s p f N ps, xtrapframe p = 4096 ∧ xsz p = 4096 ∧ accessible f 0 ∧ (30 ≤ length ps)%nat ∧
    sys_state s ∅ 4760 4504 4496 4240 p f N 1 U1 8 16 0 0 ps ∧ xfs (glob s) = 0%nat.
Proof.
  destruct (booted2 (seqmap 4096 (frame ++ user))) as (s & ps & Hs & Hl); [apply ram2_buffer; vm_compute; discriminate|].
  destruct (new_table (bytes 4096 frame ∗ bytes 4888 user)%I s ∅ ps) as (s1 & t & f & N & ps1 & Hs1 & Hlay & Hc); [|lia|].
  { unfold kvalid in Hs. rewrite -(right_id_L ∅ (∪) (seqmap 4096 _)) in Hs. apply bytes_sat in Hs; [|apply map_disjoint_empty_r].
    eapply sat_mono; [|exact Hs]. iIntros "[Hk Hb]". iDestruct (bytes_cut _ _ _ 4888 with "Hb") as "[$ $]"; done. }
  destruct (user_page _ _ _ _ _ _ _ Hs1 Hlay) as (s2 & f2 & N2 & ps2 & Hs2 & Hlay2 & Hacc & Hc2); [lia|].
  set (p := mkxproc t 4096 4096 4224). exists (mkst (mem s2) (mkxst (glob s2) p 0%nat)), p, f2, N2, ps2.
  refine (conj eq_refl (conj eq_refl (conj Hacc (conj _ (conj (conj eq_refl (conj eq_refl (conj _ _))) eq_refl))))); [lia| |].
  - apply ubytes_uwrite; [by intros a|]. apply (bool_decide_unpack _). vm_compute. exact I.
  - eapply sat_mono; [|exact Hs2]. iIntros "(Hd & Ht & Hu & Hk)". iDestruct (frame_mem p with "Hd") as "(Hloc & Ha & Hf)"; [done|done|].
    iFrame "Hk Hloc Ha Hf". iSplit; [iPureIntro; by split_and!|]. iFrame "Ht Hu".
Qed.

Lemma user_access f a : accessible f 0 → 0 ≤ a < 4096 → accessible f (a / PGSIZE).
Proof. intros Hf Ha. by replace (a / PGSIZE) with 0 by (unfold PGSIZE; dlia). Qed.

Lemma user_name f : accessible f 0 → ustring f U1 8 ls.
Proof.
  intros Hf. split_and!; [by repeat constructor|vm_compute; reflexivity|]. intros x Hx. change (Z.of_nat (length ls)) with 2 in Hx.
  apply user_access; [done|lia].
Qed.

Lemma user_args f : accessible f 0 → uargs f U1 4096 16 0 [ls].
Proof.
  intros Hf. assert (∀ a, 0 ≤ a ≤ 4088 → uword_ok f 4096 a) as Hok. { intros a Ha. split; [lia|]. intros x Hx. apply user_access; [done|lia]. }
  cbn [uargs]. change (u64 (16 + 8 * 0)) with 16. change (u64 (16 + 8 * (0 + 1))) with 24.
  assert (uword U1 16 = 8) as -> by (vm_compute; reflexivity).
  split_and!; [by apply Hok|done|by apply user_name|done|by apply Hok|vm_compute; reflexivity].
Qed.

Lemma sys_exec_correct_witness : ∃ s s', sys_exec 4760 4504 4496 4240 s = Ok 1 s'.
Proof.
  destruct calling_sys as (s & p & f & N & ps & Hp & Hsz & Hacc & Hl & Hs & Hfs). exists s.
  destruct (sys_exec_correct s ∅ 4760 4504 4496 4240 p f N 1 U1 8 16 0 0 ps) as (r & s' & Hrun & Hcase).
  - done.
  - by rewrite Hp.
  - exact Hs.
  - exists s'. destruct Hcase as [(_ & Hno & _)|(l & strs & c & p' & f' & N' & n' & U' & sp' & ps' & -> & _ & Ha & _)].
    + destruct Hno. exists ls, [ls], prog. rewrite Hsz. split_and!; [by apply user_name|done|by apply user_args|simpl; lia|by rewrite Hfs|simpl; lia|].
      apply (runnable_strs prog [(4515, ls)]). apply ls_runnable. simpl. lia.
    + rewrite Hsz in Ha. by rewrite -(uargs_unique _ _ _ _ _ _ _ (user_args f Hacc) Ha) in Hrun.
Defined.
End SysExecWitness.
