(* ===== verification/Proc.v ===== *)
(** * kernel/proc.c, kernel/trap.c, kernel/sysproc.c: processes and the scheduler

    Kernel code that runs on several CPUs, switches stacks and is interrupted.
    A thread of control (the code on one kernel stack) is a tree of events,
    [prog]: atomic actions on the shared state, calls into other components,
    the two uses of [swtch], the initialisation of a context.  The functions of
    the source are written in continuation-passing style, [K A]; what they do
    when several CPUs run is the step relation [mstep].

    The spin locks are those of Spinlock.v; an action is what the code does
    between two points where another CPU can be noticed: one call of [acquire]
    or [release], or statements on fields that a held lock protects. *)
From stdpp Require Import functions list gmap.
From S2P Require Import Prelude Param Kalloc Vm Spinlock.

#[local] Open Scope Z_scope.

(** ** The state *)

Inductive procstate := UNUSED | USED | SLEEPING | RUNNABLE | RUNNING | ZOMBIE.

#[export] Instance procstate_eq_dec : EqDecision procstate.
Proof. solve_decision. Defined.

(** The [void *] values used as sleep channels: null, [&proc[i]], [&ticks], the
    address of another kernel object. *)
Inductive channel := Null | AtProc (i : nat) | AtTicks | At (a : Z).

#[export] Instance channel_eq_dec : EqDecision channel.
Proof. solve_decision. Defined.

(** A [struct proc *]. *)
Definition at_proc (p : option nat) : channel := from_option AtProc Null p.

(** [struct proc] without its lock, which is [plock i] below, and its context,
    which is in the machine. *)
Record proc := mkproc {
  pstate : procstate; pchan : channel; pkilled : bool; pxstate : Z; ppid : Z;
  pparent : option nat;
  pkstack : Z; psz : Z; ppagetable : Z; ptrapframe : Z;
  pofile : list (option nat); pcwd : option nat; pname : string }.

(** The zeroed memory of [proc[]] before [procinit]. *)
Definition zero_proc : proc :=
  mkproc UNUSED Null false 0 0 None 0 0 0 0 (replicate NOFILE None) None "".

Definition set_pstate (x : procstate) (p : proc) : proc :=
  mkproc x (pchan p) (pkilled p) (pxstate p) (ppid p) (pparent p) (pkstack p) (psz p)
    (ppagetable p) (ptrapframe p) (pofile p) (pcwd p) (pname p).
Definition set_pchan (x : channel) (p : proc) : proc :=
  mkproc (pstate p) x (pkilled p) (pxstate p) (ppid p) (pparent p) (pkstack p) (psz p)
    (ppagetable p) (ptrapframe p) (pofile p) (pcwd p) (pname p).
Definition set_pkilled (x : bool) (p : proc) : proc :=
  mkproc (pstate p) (pchan p) x (pxstate p) (ppid p) (pparent p) (pkstack p) (psz p)
    (ppagetable p) (ptrapframe p) (pofile p) (pcwd p) (pname p).
Definition set_pxstate (x : Z) (p : proc) : proc :=
  mkproc (pstate p) (pchan p) (pkilled p) x (ppid p) (pparent p) (pkstack p) (psz p)
    (ppagetable p) (ptrapframe p) (pofile p) (pcwd p) (pname p).
Definition set_ppid (x : Z) (p : proc) : proc :=
  mkproc (pstate p) (pchan p) (pkilled p) (pxstate p) x (pparent p) (pkstack p) (psz p)
    (ppagetable p) (ptrapframe p) (pofile p) (pcwd p) (pname p).
Definition set_pparent (x : option nat) (p : proc) : proc :=
  mkproc (pstate p) (pchan p) (pkilled p) (pxstate p) (ppid p) x (pkstack p) (psz p)
    (ppagetable p) (ptrapframe p) (pofile p) (pcwd p) (pname p).
Definition set_pkstack (x : Z) (p : proc) : proc :=
  mkproc (pstate p) (pchan p) (pkilled p) (pxstate p) (ppid p) (pparent p) x (psz p)
    (ppagetable p) (ptrapframe p) (pofile p) (pcwd p) (pname p).
Definition set_psz (x : Z) (p : proc) : proc :=
  mkproc (pstate p) (pchan p) (pkilled p) (pxstate p) (ppid p) (pparent p) (pkstack p) x
    (ppagetable p) (ptrapframe p) (pofile p) (pcwd p) (pname p).
Definition set_ppagetable (x : Z) (p : proc) : proc :=
  mkproc (pstate p) (pchan p) (pkilled p) (pxstate p) (ppid p) (pparent p) (pkstack p) (psz p)
    x (ptrapframe p) (pofile p) (pcwd p) (pname p).
Definition set_ptrapframe (x : Z) (p : proc) : proc :=
  mkproc (pstate p) (pchan p) (pkilled p) (pxstate p) (ppid p) (pparent p) (pkstack p) (psz p)
    (ppagetable p) x (pofile p) (pcwd p) (pname p).
Definition set_pofile (x : list (option nat)) (p : proc) : proc :=
  mkproc (pstate p) (pchan p) (pkilled p) (pxstate p) (ppid p) (pparent p) (pkstack p) (psz p)
    (ppagetable p) (ptrapframe p) x (pcwd p) (pname p).
Definition set_pcwd (x : option nat) (p : proc) : proc :=
  mkproc (pstate p) (pchan p) (pkilled p) (pxstate p) (ppid p) (pparent p) (pkstack p) (psz p)
    (ppagetable p) (ptrapframe p) (pofile p) x (pname p).
Definition set_pname (x : string) (p : proc) : proc :=
  mkproc (pstate p) (pchan p) (pkilled p) (pxstate p) (ppid p) (pparent p) (pkstack p) (psz p)
    (ppagetable p) (ptrapframe p) (pofile p) (pcwd p) x.

(** [p->ofile[fd]]. *)
Definition ofile_at (fd : nat) (p : proc) : option nat := from_option id None (pofile p !! fd).

(** The locks: [proc[i].lock], [wait_lock], [pid_lock], [tickslock], and the
    locks of other components. *)
Definition plock (i : nat) : Z := Z.of_nat i.
Definition wait_lock : Z := -1.
Definition pid_lock : Z := -2.
Definition tickslock : Z := -3.
(** What the other CPUs wait for in [main]. *)
Definition boot_wait : Z := -4.
Definition other_lock (n : nat) : Z := -5 - Z.of_nat n.

(** The variables of the three files; [cproc] is the field [proc] of the
    [struct cpu]s, [first] the static variable of [forkret], [started] that of
    main.c. *)
Record kst := mkkst {
  ksmp : smp; procs : nat → proc; cproc : gmap nat nat; nextpid : Z;
  initproc : option nat; ticks : Z; first : bool; started : bool }.

Definition set_smp (x : smp) (s : kst) : kst :=
  mkkst x (procs s) (cproc s) (nextpid s) (initproc s) (ticks s) (first s) (started s).
Definition set_proc (i : nat) (f : proc → proc) (s : kst) : kst :=
  mkkst (ksmp s) (<[i := f (procs s i)]> (procs s)) (cproc s) (nextpid s) (initproc s)
    (ticks s) (first s) (started s).
Definition set_cproc (c : nat) (p : option nat) (s : kst) : kst :=
  mkkst (ksmp s) (procs s) (partial_alter (λ _, p) c (cproc s)) (nextpid s) (initproc s)
    (ticks s) (first s) (started s).
Definition set_nextpid (x : Z) (s : kst) : kst :=
  mkkst (ksmp s) (procs s) (cproc s) x (initproc s) (ticks s) (first s) (started s).
Definition set_initproc (x : option nat) (s : kst) : kst :=
  mkkst (ksmp s) (procs s) (cproc s) (nextpid s) x (ticks s) (first s) (started s).
Definition set_ticks (x : Z) (s : kst) : kst :=
  mkkst (ksmp s) (procs s) (cproc s) (nextpid s) (initproc s) x (first s) (started s).
Definition set_first (x : bool) (s : kst) : kst :=
  mkkst (ksmp s) (procs s) (cproc s) (nextpid s) (initproc s) (ticks s) x (started s).
Definition set_started (x : bool) (s : kst) : kst :=
  mkkst (ksmp s) (procs s) (cproc s) (nextpid s) (initproc s) (ticks s) (first s) x.

(** What processes ask of the memory and file components, whose state is [E].
    Offsets in a trapframe are those of [struct trapframe]. *)
Class Services (E : Type) := {
  svc_kalloc : M E Z;
  svc_kfree : Z → M E unit;
  svc_proc_pagetable : Z → M E Z;
  svc_proc_freepagetable : Z → Z → M E unit;
  svc_uvmfirst : Z → M E unit;
  svc_uvmcopy : Z → Z → Z → M E Z;
  svc_uvmalloc : Z → Z → Z → Z → M E Z;
  svc_uvmdealloc : Z → Z → Z → M E Z;
  svc_copyout_xstate : Z → Z → nat → Z → M E Z;
  svc_trapframe_store : Z → Z → Z → M E unit;
  svc_trapframe_copy : Z → Z → M E unit;
  svc_filedup : nat → M E nat;
  svc_fileclose : nat → M E unit;
  svc_idup : option nat → M E (option nat);
  svc_begin_op : M E unit;
  svc_iput : option nat → M E unit;
  svc_end_op : M E unit;
  svc_namei_root : M E (option nat);
  svc_fsinit : M E unit;
}.

(** ** Threads *)

(** The loops that can run forever. *)
Inductive loop := Scheduler | WaitLoop (p : nat) (addr : Z) | SleepLoop (n ticks0 : Z).

Section prog.
Context {E : Type}.

(** What remains to be done on a kernel stack.  [User] is the user program, at
    the bottom of a process's kernel stack.  [ToSched i k] is
    [swtch(&proc[i].context, &mycpu()->context)], [ToProc i k] is
    [swtch(&c->context, &proc[i].context)] in the scheduler of CPU [c];
    [SetContext i r k] makes the context of process [i] start with [r]. *)
Inductive prog :=
  | User
  | Act {B : Set} (f : nat → M kst B) (k : B → prog)
  | Svc {B : Set} (f : M E B) (k : B → prog)
  | ToSched (i : nat) (k : prog)
  | ToProc (i : nat) (k : prog)
  | SetContext (i : nat) (r k : prog)
  | Call (l : loop) (k : Z → prog).

Definition K (A : Type) : Type := (A → prog) → prog.

#[export] Instance K_ret : MRet K := λ A a k, k a.
#[export] Instance K_bind : MBind K := λ A B f m k, m (λ a, f a k).

Definition act {B : Set} (f : nat → M kst B) : K B := λ k, Act f k.
Definition svc {B : Set} (f : M E B) : K B := λ k, Svc f k.
Definition on_smp {B : Set} (f : nat → M smp B) : K B := act (λ c, zoom ksmp set_smp (f c)).
Definition panic {B : Set} (msg : string) : K B := act (λ _, fail (Panic msg)).

Definition acquire (lk : Z) : K unit := on_smp (λ c, Spinlock.acquire c lk).
Definition release (lk : Z) : K unit := on_smp (λ c, Spinlock.release c lk).

(** A field of [proc[i]], a change to it. *)
Definition getp {B : Set} (i : nat) (f : proc → B) : K B := act (λ _, gets (λ s, f (procs s i))).
Definition setp (i : nat) (f : proc → proc) : K unit := act (λ _, modify (set_proc i f)).

(** [for(p = proc; p < &proc[NPROC]; p++)] without an early exit. *)
Fixpoint foreach (l : list nat) (body : nat → K unit) : K unit :=
  match l with
  | [] => mret ()
  | i :: l => body i;; foreach l body
  end.
End prog.
Arguments prog : clear implicits.
Arguments K : clear implicits.

Definition all_procs : list nat := seq 0 NPROC.

(** ** kernel/proc.c *)

(** CPU 0 initialises the table while the other CPUs wait. *)
Fixpoint procinit_loop (l : list nat) : M kst unit :=
  match l with
  | [] => mret ()
  | i :: l =>
      zoom ksmp set_smp (Spinlock.initlock (plock i));;
      modify (set_proc i (λ p, set_pkstack (KSTACK (Z.of_nat i)) (set_pstate UNUSED p)));;
      procinit_loop l
  end.
Definition procinit : M kst unit :=
  zoom ksmp set_smp (Spinlock.initlock pid_lock);;
  zoom ksmp set_smp (Spinlock.initlock wait_lock);;
  procinit_loop all_procs.

(** kernel/trap.c *)
Definition trapinit : M kst unit := zoom ksmp set_smp (Spinlock.initlock tickslock).

Section code.
Context {E : Type} `{Services E}.
Abbreviation K := (K E).

Definition intr_on : K unit := on_smp (λ c, intr_set c true).
Definition intr_off : K unit := on_smp (λ c, intr_set c false).
Definition cpuid : K nat := act (λ c, mret c).
Definition call (l : loop) : K Z := λ k, Call l k.
Definition to_sched (i : nat) : K unit := λ k, ToSched i (k ()).
Definition to_proc (i : nat) : K unit := λ k, ToProc i (k ()).

(** The pointer of the running process, null in the scheduler. *)
Definition myproc : K (option nat) := act (λ c,
  zoom ksmp set_smp (push_off c);;
  p ← gets (λ s, cproc s !! c);
  zoom ksmp set_smp (pop_off c);;
  mret p).

(** [myproc()] in code that dereferences the pointer. *)
Definition curproc : K nat :=
  p ← myproc;
  match p with
  | Some i => mret i
  | None => act (λ _, fail (Fault 0))
  end.

(** [nextpid + 1] wraps around as the compiled code does. *)
Definition allocpid : K Z :=
  acquire pid_lock;;
  pid ← act (λ _, gets nextpid);
  act (λ _, modify (set_nextpid (s32 (pid + 1))));;
  release pid_lock;;
  mret pid.

(** The assignments at the end of [freeproc]. *)
Definition clear_proc (p : proc) : proc :=
  set_pstate UNUSED (set_pxstate 0 (set_pkilled false (set_pchan Null (set_pname ""
    (set_pparent None (set_ppid 0 (set_psz 0 (set_ppagetable 0 p)))))))).

Definition freeproc (p : nat) : K unit :=
  tf ← getp p ptrapframe;
  (if tf =? 0 then mret () else svc (svc_kfree tf));;
  setp p (set_ptrapframe 0);;
  pt ← getp p ppagetable;
  sz ← getp p psz;
  (if pt =? 0 then mret () else svc (svc_proc_freepagetable pt sz));;
  setp p clear_proc.

(** [mycpu()->intena], and [mycpu()->intena = b]. *)
Definition intena_get : K bool := on_smp (λ c, gets (λ m, intena (cpus m !!! c))).
Definition intena_set (b : bool) : K unit := on_smp (λ c,
  x ← gets (λ m, cpus m !!! c);
  set_cpu c (mkcpu (noff x) b (intr x))).

(** The checks of [sched]. *)
Definition sched_checks (p : nat) : K unit := act (λ c,
  h ← zoom ksmp set_smp (holding c (plock p));
  when (negb h) (fail (Panic "sched p->lock"));;
  n ← gets (λ s, noff (cpus (ksmp s) !!! c));
  when (negb (n =? 1)) (fail (Panic "sched locks"));;
  st ← gets (λ s, pstate (procs s p));
  when (bool_decide (st = RUNNING)) (fail (Panic "sched running"));;
  i ← zoom ksmp set_smp (intr_get c);
  when i (fail (Panic "sched interruptible"))).

Definition sched : K unit :=
  p ← curproc;
  sched_checks p;;
  intena ← intena_get;
  to_sched p;;
  intena_set intena.

Definition yield : K unit :=
  p ← curproc;
  acquire (plock p);;
  setp p (set_pstate RUNNABLE);;
  sched;;
  release (plock p).

(** The trapframe fields that uservec needs, [kernel_sp] and [kernel_hartid];
    then to user space. *)
Definition usertrapret : K unit :=
  p ← curproc;
  intr_off;;
  tf ← getp p ptrapframe;
  ks ← getp p pkstack;
  svc (svc_trapframe_store tf 8 (u64 (ks + PGSIZE)));;
  hart ← cpuid;
  svc (svc_trapframe_store tf 32 (Z.of_nat hart)).

Definition forkret : K unit :=
  p ← curproc;
  release (plock p);;
  b ← act (λ _, gets first);
  (if (b : bool) then act (λ _, modify (set_first false));; svc svc_fsinit else mret ());;
  usertrapret.

(** The search of [allocproc]: the first unused slot, locked. *)
Fixpoint allocproc_find (l : list nat) : K (option nat) :=
  match l with
  | [] => mret None
  | p :: l =>
      acquire (plock p);;
      st ← getp p pstate;
      if decide (st = UNUSED) then mret (Some p)
      else release (plock p);; allocproc_find l
  end.

Definition set_context (p : nat) (r : K unit) : K unit :=
  λ k, SetContext p (r (λ _, User)) (k ()).

Definition allocproc : K (option nat) :=
  r ← allocproc_find all_procs;
  match r with
  | None => mret None
  | Some p =>
      pid ← allocpid;
      setp p (λ x, set_pstate USED (set_ppid pid x));;
      tf ← svc svc_kalloc;
      setp p (set_ptrapframe tf);;
      if tf =? 0 then freeproc p;; release (plock p);; mret None else
      pt ← svc (svc_proc_pagetable tf);
      setp p (set_ppagetable pt);;
      if pt =? 0 then freeproc p;; release (plock p);; mret None else
      set_context p forkret;;
      mret (Some p)
  end.

(** [allocproc] returning null would make the first process crash on a null
    pointer: the machine has no memory to boot with. *)
Definition userinit : K unit :=
  r ← allocproc;
  act (λ _, modify (set_initproc r));;
  match r with
  | None => svc (fail (Fault 0))
  | Some p =>
      pt ← getp p ppagetable;
      svc (svc_uvmfirst pt);;
      setp p (set_psz PGSIZE);;
      tf ← getp p ptrapframe;
      svc (svc_trapframe_store tf 24 0);;
      svc (svc_trapframe_store tf 48 PGSIZE);;
      setp p (set_pname "initcode");;
      cwd ← svc svc_namei_root;
      setp p (set_pcwd cwd);;
      setp p (set_pstate RUNNABLE);;
      release (plock p)
  end.

Definition growproc (n : Z) : K Z :=
  p ← curproc;
  sz ← getp p psz;
  pt ← getp p ppagetable;
  if 0 <? n then
    r ← svc (svc_uvmalloc pt sz (u64 (sz + n)) PTE_W);
    if r =? 0 then mret (-1) else setp p (set_psz r);; mret 0
  else if n <? 0 then
    r ← svc (svc_uvmdealloc pt sz (u64 (sz + n)));
    setp p (set_psz r);; mret 0
  else setp p (set_psz sz);; mret 0.

(** The loop of [fork] over the open files. *)
Definition fork_files (p np : nat) : K unit :=
  foreach (seq 0 NOFILE) (λ i,
    f ← getp p (ofile_at i);
    match f with
    | Some f => f' ← svc (svc_filedup f); setp np (λ x, set_pofile (<[i := Some f']> (pofile x)) x)
    | None => mret ()
    end).

Definition fork : K Z :=
  p ← curproc;
  r ← allocproc;
  match r with
  | None => mret (-1)
  | Some np =>
      pt ← getp p ppagetable;
      npt ← getp np ppagetable;
      sz ← getp p psz;
      v ← svc (svc_uvmcopy pt npt sz);
      if v <? 0 then freeproc np;; release (plock np);; mret (-1) else
      setp np (set_psz sz);;
      tf ← getp p ptrapframe;
      ntf ← getp np ptrapframe;
      svc (svc_trapframe_copy ntf tf);;
      svc (svc_trapframe_store ntf 112 0);;
      fork_files p np;;
      cwd ← getp p pcwd;
      d ← svc (svc_idup cwd);
      setp np (set_pcwd d);;
      name ← getp p pname;
      setp np (set_pname name);;
      pid ← getp np ppid;
      release (plock np);;
      acquire wait_lock;;
      setp np (set_pparent (Some p));;
      release wait_lock;;
      acquire (plock np);;
      setp np (set_pstate RUNNABLE);;
      release (plock np);;
      mret pid
  end.

Definition wakeup (chan : channel) : K unit :=
  foreach all_procs (λ p,
    me ← myproc;
    if decide (me = Some p) then mret () else
    acquire (plock p);;
    act (λ _, modify (λ s,
      if decide (pstate (procs s p) = SLEEPING ∧ pchan (procs s p) = chan)
      then set_proc p (set_pstate RUNNABLE) s else s));;
    release (plock p)).

Definition sleep (chan : channel) (lk : Z) : K unit :=
  p ← curproc;
  acquire (plock p);;
  release lk;;
  setp p (set_pchan chan);;
  setp p (set_pstate SLEEPING);;
  sched;;
  setp p (set_pchan Null);;
  release (plock p);;
  acquire lk.

Definition reparent (p : nat) : K unit :=
  foreach all_procs (λ pp,
    x ← getp pp pparent;
    if decide (x = Some p) then
      ip ← act (λ _, gets initproc);
      setp pp (set_pparent ip);;
      ip ← act (λ _, gets initproc);
      wakeup (at_proc ip)
    else mret ()).

(** The loop of [exit] over the open files. *)
Definition exit_files (p : nat) : K unit :=
  foreach (seq 0 NOFILE) (λ fd,
    f ← getp p (ofile_at fd);
    match f with
    | Some f => svc (svc_fileclose f);; setp p (λ x, set_pofile (<[fd := None]> (pofile x)) x)
    | None => mret ()
    end).

Definition exit (status : Z) : K unit :=
  p ← curproc;
  ip ← act (λ _, gets initproc);
  (if decide (ip = Some p) then panic "init exiting" else mret ());;
  exit_files p;;
  svc svc_begin_op;;
  cwd ← getp p pcwd;
  svc (svc_iput cwd);;
  svc svc_end_op;;
  setp p (set_pcwd None);;
  acquire wait_lock;;
  reparent p;;
  x ← getp p pparent;
  wakeup (at_proc x);;
  acquire (plock p);;
  setp p (λ x, set_pstate ZOMBIE (set_pxstate status x));;
  release wait_lock;;
  sched;;
  panic "zombie exit".

Definition setkilled (p : nat) : K unit :=
  acquire (plock p);;
  setp p (set_pkilled true);;
  release (plock p).

Definition killed (p : nat) : K bool :=
  acquire (plock p);;
  k ← getp p pkilled;
  release (plock p);;
  mret k.

(** One scan of the table by [wait]: [inl r] when it returns [r], otherwise
    whether there are children. *)
Fixpoint wait_scan (p : nat) (addr : Z) (l : list nat) (havekids : bool) : K (Z + bool) :=
  match l with
  | [] => mret (inr havekids)
  | pp :: l =>
      x ← getp pp pparent;
      if decide (x = Some p) then
        acquire (plock pp);;
        st ← getp pp pstate;
        if decide (st = ZOMBIE) then
          pid ← getp pp ppid;
          xs ← getp pp pxstate;
          pt ← getp p ppagetable;
          r ← (if addr =? 0 then mret 0 else svc (svc_copyout_xstate pt addr pp xs));
          if r <? 0 then
            release (plock pp);; release wait_lock;; mret (inl (-1))
          else
            freeproc pp;; release (plock pp);; release wait_lock;; mret (inl pid)
        else
          release (plock pp);; wait_scan p addr l true
      else wait_scan p addr l havekids
  end.

(** The body of the [for(;;)] of [wait]. *)
Definition wait_body (p : nat) (addr : Z) : K Z :=
  r ← wait_scan p addr all_procs false;
  match (r : Z + bool) with
  | inl v => mret v
  | inr havekids =>
      stop ← (if havekids then killed p else mret true);
      if (stop : bool) then release wait_lock;; mret (-1)
      else sleep (AtProc p) wait_lock;; call (WaitLoop p addr)
  end.

Definition wait (addr : Z) : K Z :=
  p ← curproc;
  acquire wait_lock;;
  call (WaitLoop p addr).

(** The body of the [for(;;)] of [scheduler]. *)
Definition scheduler_body : K Z :=
  intr_on;;
  foreach all_procs (λ p,
    acquire (plock p);;
    b ← act (λ c s,
      if decide (pstate (procs s p) = RUNNABLE)
      then Ok true (set_cproc c (Some p) (set_proc p (set_pstate RUNNING) s)) else Ok false s);
    (if (b : bool) then to_proc p;; act (λ c, modify (set_cproc c None)) else mret ());;
    release (plock p));;
  call Scheduler.

Definition scheduler : K Z :=
  act (λ c, modify (set_cproc c None));;
  call Scheduler.

(** What [kill] does to its victim. *)
Definition kill_one (p : proc) : proc :=
  let p := set_pkilled true p in
  if decide (pstate p = SLEEPING) then set_pstate RUNNABLE p else p.

Fixpoint kill_from (pid : Z) (l : list nat) : K Z :=
  match l with
  | [] => mret (-1)
  | p :: l =>
      acquire (plock p);;
      x ← getp p ppid;
      if x =? pid then
        setp p kill_one;;
        release (plock p);;
        mret 0
      else release (plock p);; kill_from pid l
  end.
Definition kill (pid : Z) : K Z := kill_from pid all_procs.

(** ** kernel/sysproc.c *)

(** The [while] of [sys_sleep]; the comparison is between unsigned values. *)
Definition sleep_body (n ticks0 : Z) : K Z :=
  t ← act (λ _, gets ticks);
  if u32 (t - ticks0) <? u32 n then
    p ← curproc;
    k ← killed p;
    if (k : bool) then release tickslock;; mret (-1)
    else sleep AtTicks tickslock;; call (SleepLoop n ticks0)
  else release tickslock;; mret 0.

(** The system calls about processes with their arguments.  The others are
    represented by what they do to processes: [SysBlock] sleeps on a channel
    under a lock of another component, [SysSignal] wakes the sleepers up. *)
Inductive syscall_args :=
  | SysFork | SysExit (n : Z) | SysWait (p : Z) | SysKill (pid : Z) | SysSleep (n : Z)
  | SysUptime | SysGetpid | SysSbrk (n : Z)
  | SysBlock (lk : nat) (a : Z) | SysSignal (lk : nat) (a : Z).

Definition sys_exit (n : Z) : K Z := exit n;; mret 0.
Definition sys_getpid : K Z := p ← curproc; getp p ppid.
Definition sys_fork : K Z := fork.
Definition sys_wait (p : Z) : K Z := wait p.
Definition sys_sbrk (n : Z) : K Z :=
  p ← curproc;
  addr ← getp p psz;
  r ← growproc n;
  if r <? 0 then mret (-1) else mret addr.
Definition sys_sleep (n : Z) : K Z :=
  acquire tickslock;;
  ticks0 ← act (λ _, gets ticks);
  call (SleepLoop n ticks0).
Definition sys_kill (pid : Z) : K Z := kill pid.
Definition sys_uptime : K Z :=
  acquire tickslock;;
  xticks ← act (λ _, gets ticks);
  release tickslock;;
  mret xticks.

(** Code of other components that follows the protocol of [sleep] and
    [wakeup]. *)
Definition block (lk : nat) (a : Z) : K Z :=
  acquire (other_lock lk);; sleep (At a) (other_lock lk);; release (other_lock lk);; mret 0.
Definition signal (lk : nat) (a : Z) : K Z :=
  acquire (other_lock lk);; wakeup (At a);; release (other_lock lk);; mret 0.

Definition syscalls (c : syscall_args) : K Z :=
  match c with
  | SysFork => sys_fork
  | SysExit n => sys_exit n
  | SysWait p => sys_wait p
  | SysKill pid => sys_kill pid
  | SysSleep n => sys_sleep n
  | SysUptime => sys_uptime
  | SysGetpid => sys_getpid
  | SysSbrk n => sys_sbrk n
  | SysBlock lk a => block lk a
  | SysSignal lk a => signal lk a
  end.

(** [syscall] (kernel/syscall.c): the result goes to the user's [a0]. *)
Definition syscall (c : syscall_args) : K unit :=
  p ← curproc;
  r ← syscalls c;
  tf ← getp p ptrapframe;
  svc (svc_trapframe_store tf 112 (u64 r)).

(** ** kernel/trap.c *)

Definition clockintr : K unit :=
  acquire tickslock;;
  act (λ _, modify (λ s, set_ticks (u32 (ticks s + 1)) s));;
  wakeup AtTicks;;
  release tickslock.

(** Why a trap occurred: the timer, a device whose handler wakes up the sleepers
    on [a] under a lock, an exception. *)
Inductive cause := Timer | Device (lk : nat) (a : Z) | Exception.

Definition devintr (c : cause) : K Z :=
  match c with
  | Timer => hart ← cpuid; (if (hart =? 0)%nat then clockintr else mret ());; mret 2
  | Device lk a => signal lk a;; mret 1
  | Exception => mret 0
  end.

(** [scause] 8 is a system call. *)
Definition usertrap (sepc : Z) (c : cause + syscall_args) : K unit :=
  p ← curproc;
  tf ← getp p ptrapframe;
  svc (svc_trapframe_store tf 24 sepc);;
  which_dev ← match c with
              | inr c =>
                  k ← killed p;
                  (if (k : bool) then exit (-1) else mret ());;
                  tf ← getp p ptrapframe;
                  svc (svc_trapframe_store tf 24 (u64 (sepc + 4)));;
                  intr_on;;
                  syscall c;;
                  mret 0
              | inl c =>
                  d ← devintr c;
                  (if d =? 0 then setkilled p else mret ());;
                  mret d
              end;
  k ← killed p;
  (if (k : bool) then exit (-1) else mret ());;
  (if which_dev =? 2 then yield else mret ());;
  usertrapret.

(** An interrupt of kernel code; the interrupts come back on with [sstatus]. *)
Definition kerneltrap (c : cause) : K unit :=
  which_dev ← devintr c;
  (if which_dev =? 0 then panic "kerneltrap" else mret ());;
  (if which_dev =? 2 then
     p ← myproc;
     match p with
     | Some p => st ← getp p pstate; if decide (st = RUNNING) then yield else mret ()
     | None => mret ()
     end
   else mret ());;
  intr_on.

(** ** kernel/main.c: the part about processes, after [procinit] and [trapinit] *)

Definition main : K Z :=
  hart ← cpuid;
  (if (hart =? 0)%nat then
     userinit;;
     act (λ _, modify (set_started true))
   else
     act (λ _, b ← gets started; if (b : bool) then mret () else fail (Sleeping boot_wait)));;
  scheduler.

(** The bodies of the loops. *)
Definition loop_body (l : loop) : K Z :=
  match l with
  | Scheduler => scheduler_body
  | WaitLoop p addr => wait_body p addr
  | SleepLoop n ticks0 => sleep_body n ticks0
  end.

(** ** The machine *)

(** The stacks: that of process [i], and that of CPU [c], on which [main] and
    the scheduler run. *)
Inductive stack := PStack (i : nat) | CStack (c : nat).

(** The stack pointers and program counters of the CPUs, and the saved contexts
    [proc[i].context] and [cpus[c].context]. *)
Record machine := mkmachine {
  mk : kst; me : E;
  msp : nat → stack; mrun : nat → prog E;
  mpctx : nat → prog E; mcctx : nat → prog E }.

Definition runs_on (m : machine) (c : nat) (r : prog E) : machine :=
  mkmachine (mk m) (me m) (msp m) (<[c := r]> (mrun m)) (mpctx m) (mcctx m).
Definition with_mk (s : kst) (m : machine) : machine :=
  mkmachine s (me m) (msp m) (mrun m) (mpctx m) (mcctx m).
Definition with_me (e : E) (m : machine) : machine :=
  mkmachine (mk m) e (msp m) (mrun m) (mpctx m) (mcctx m).

(** [swtch] (kernel/swtch.S): the registers of the CPU are saved in one context
    and loaded from the other. *)
Definition swtch_sched (m : machine) (c i : nat) (k : prog E) : machine :=
  mkmachine (mk m) (me m) (<[c := CStack c]> (msp m)) (<[c := mcctx m c]> (mrun m))
    (<[i := k]> (mpctx m)) (mcctx m).
Definition swtch_proc (m : machine) (c i : nat) (k : prog E) : machine :=
  mkmachine (mk m) (me m) (<[c := PStack i]> (msp m)) (<[c := mpctx m i]> (mrun m))
    (mpctx m) (<[c := k]> (mcctx m)).
Definition set_pctx (i : nat) (r : prog E) (m : machine) : machine :=
  mkmachine (mk m) (me m) (msp m) (mrun m) (<[i := r]> (mpctx m)) (mcctx m).

Definition intr_of (s : kst) (c : nat) : bool := intr (cpus (ksmp s) !!! c).
(** The hardware disables interrupts when it takes a trap. *)
Definition trap_entry (c : nat) (s : kst) : kst :=
  let x := cpus (ksmp s) !!! c in
  set_smp (mksmp (<[c := mkcpu (noff x) (intena x) false]> (cpus (ksmp s))) (locks (ksmp s))) s.

(** One step of one CPU: the next event of its thread, a trap from user space, or
    an interrupt of kernel code when interrupts are on. *)
Inductive mstep : machine → machine → Prop :=
  | step_act m c (B : Set) (f : nat → M kst B) k b s :
      mrun m c = Act f k → f c (mk m) = Ok b s →
      mstep m (runs_on (with_mk s m) c (k b))
  | step_svc m c (B : Set) (f : M E B) k b e :
      mrun m c = Svc f k → f (me m) = Ok b e →
      mstep m (runs_on (with_me e m) c (k b))
  | step_to_sched m c i k :
      mrun m c = ToSched i k → mstep m (swtch_sched m c i k)
  | step_to_proc m c i k :
      mrun m c = ToProc i k → mstep m (swtch_proc m c i k)
  | step_set_context m c i r k :
      mrun m c = SetContext i r k → mstep m (runs_on (set_pctx i r m) c k)
  | step_call m c l k :
      mrun m c = Call l k → mstep m (runs_on m c (loop_body l k))
  | step_user m c sepc x :
      mrun m c = User →
      mstep m (runs_on (with_mk (trap_entry c (mk m)) m) c (usertrap sepc x (λ _, User)))
  | step_intr m c x :
      mrun m c ≠ User → intr_of (mk m) c = true → x ≠ Exception →
      mstep m (runs_on (with_mk (trap_entry c (mk m)) m) c (kerneltrap x (λ _, mrun m c))).

(** The zeroed memory, and what CPU 0 makes of it with [procinit] and [trapinit]
    before any other CPU gets past the start of [main]; interrupts are off. *)
Definition zero_kst : kst :=
  mkkst (mksmp ∅ ∅) (λ _, zero_proc) ∅ 1 None 0 true false.
Definition boot_kst : kst :=
  match (procinit;; trapinit) zero_kst with Ok _ s => s | Err _ => zero_kst end.
Definition boot (e : E) : machine :=
  mkmachine boot_kst e CStack (λ _, main (λ _, User)) (λ _, User) (λ _, User).

Definition reachable (e : E) : machine → Prop := rtc mstep (boot e).
End code.
