(* ===== verification/ProcLogic.v ===== *)
(** * Rely-guarantee reasoning about kernel threads

    An invariant for each lock, a ghost state that records which thread owns a
    half-made process and which process has committed itself to sleep in
    [wait], what a thread may assume of the others ([env]) and what it promises
    to them ([guar]).  [pok t held P r] says that the code [r], run by thread [t]
    when it holds the locks [held] and knows [P], keeps the promises, never
    panics and switches stacks only as the scheduler expects; [sound] says
    that then every reachable machine satisfies the invariant of the system. *)
From stdpp Require Import functions list gmap.
From S2P Require Import Prelude Param Spinlock Proc.

#[local] Open Scope Z_scope.

(** ** Locks *)

(** A lock is taken exactly when it records a CPU. *)
Definition smp_ok (σ : smp) : Prop :=
  ∀ lk, locked (locks σ !!! lk) = true ↔ lcpu (locks σ !!! lk) ≠ None.

(** CPU [c] holds exactly the locks [held]. *)
Record cpu_at (c : nat) (held : list Z) (σ : smp) : Prop := {
  ca_nodup : NoDup held;
  ca_lcpu lk : lcpu (locks σ !!! lk) = Some c ↔ lk ∈ held;
  ca_noff : noff (cpus σ !!! c) = Z.of_nat (length held);
  ca_intr : held ≠ [] → intr (cpus σ !!! c) = false;
}.

(** Nothing changes for the other CPUs. *)
Record smp_frame (c : nat) (σ σ' : smp) : Prop := {
  sf_lcpu lk c' : c' ≠ c → lcpu (locks σ' !!! lk) = Some c' ↔ lcpu (locks σ !!! lk) = Some c';
  sf_cpus c' : c' ≠ c → cpus σ' !!! c' = cpus σ !!! c';
}.

Lemma cpu_at_frame c c' held σ σ' :
  c' ≠ c → smp_frame c σ σ' → cpu_at c' held σ → cpu_at c' held σ'.
Proof.
  intros Hc [Hl Hk] [Hn Hh Ho Hi]. split; [done|..].
  - intros lk. by rewrite Hl.
  - by rewrite Hk.
  - by rewrite Hk.
Qed.

Lemma cpu_at_disjoint c c' held held' σ :
  c' ≠ c → cpu_at c held σ → cpu_at c' held' σ → ∀ lk, lk ∈ held → lk ∉ held'.
Proof. intros Hc H1 H2 lk Hl%(ca_lcpu _ _ _ H1) Hl'%(ca_lcpu _ _ _ H2). congruence. Qed.

Lemma cpu_at_free c held σ lk : cpu_at c held σ → lcpu (locks σ !!! lk) = None → lk ∉ held.
Proof. intros H Hn Hl%(ca_lcpu _ _ _ H). congruence. Qed.

(** Changing only the interrupt fields of CPU [c]. *)
Lemma upd_cpu_same c held x σ :
  cpu_at c held σ → smp_ok σ → noff x = noff (cpus σ !!! c) → (held ≠ [] → intr x = false) →
  cpu_at c held (upd_cpu c x σ) ∧ smp_ok (upd_cpu c x σ) ∧ smp_frame c σ (upd_cpu c x σ).
Proof.
  intros [Hn Hh Ho Hi] Hs Hx Hxi. split_and!; [|done|]; split; simpl; try done.
  - by rewrite lookup_total_insert_eq, Hx.
  - by rewrite lookup_total_insert_eq.
  - intros c' Hc. by rewrite lookup_total_insert_ne.
Qed.

Definition acquired (c : nat) (lk : Z) (σ : smp) : smp :=
  upd_lock lk (mklock true (Some c)) (upd_cpu c (pushed (cpus σ !!! c)) σ).
Definition released (c : nat) (lk : Z) (σ : smp) : smp :=
  upd_cpu c (popped (cpus σ !!! c)) (upd_lock lk (mklock false None) σ).

Lemma smp_acquire_run c held lk σ :
  cpu_at c held σ → smp_ok σ → lk ∉ held →
  (Spinlock.acquire c lk σ = Ok () (acquired c lk σ) ∧ lcpu (locks σ !!! lk) = None) ∨
  (Spinlock.acquire c lk σ = Err (Sleeping lk) ∧ ∃ c', c' ≠ c ∧ lcpu (locks σ !!! lk) = Some c').
Proof.
  intros Hc Hs Hl. unfold Spinlock.acquire, acquire_enter.
  rewrite bind_assoc. erewrite bind_ok by apply push_off_run.
  assert (lcpu (locks σ !!! lk) ≠ Some c) as Hne by by rewrite (ca_lcpu _ _ _ Hc).
  unfold holding, test_and_set, acquire_done, gets, set_lock, modify, mbind, M_bind, mret, M_ret.
  simpl. rewrite bool_decide_false by done. rewrite andb_false_r. simpl.
  pose proof (Hs lk) as Hlk. destruct (locked (locks σ !!! lk)); simpl.
  - right. split; [done|]. destruct (lcpu (locks σ !!! lk)) as [c'|]; [|naive_solver].
    exists c'. split; [congruence|done].
  - left. rewrite lookup_total_insert_eq. unfold acquired, upd_lock, upd_cpu. simpl.
    rewrite insert_insert_eq. split; [done|]. destruct (lcpu _); naive_solver.
Qed.

Lemma acquired_ok c held lk σ :
  cpu_at c held σ → smp_ok σ → lk ∉ held → lcpu (locks σ !!! lk) = None →
  cpu_at c (lk :: held) (acquired c lk σ) ∧ smp_ok (acquired c lk σ) ∧
  smp_frame c σ (acquired c lk σ).
Proof.
  intros [Hn Hh Ho Hi] Hs Hl Hf. unfold acquired. split_and!; [split|intros lk'|split]; simpl.
  - by constructor.
  - intros lk'. destruct (decide (lk = lk')) as [<-|Hne].
    + rewrite lookup_total_insert_eq. simpl. split; [by left|done].
    + rewrite lookup_total_insert_ne, Hh, elem_of_cons by done. naive_solver.
  - rewrite lookup_total_insert_eq. simpl. lia.
  - by rewrite lookup_total_insert_eq.
  - destruct (decide (lk = lk')) as [<-|Hne]; [by rewrite lookup_total_insert_eq|].
    rewrite lookup_total_insert_ne by done. apply Hs.
  - intros lk' c' Hc. destruct (decide (lk = lk')) as [<-|Hne].
    + rewrite lookup_total_insert_eq. simpl. split; congruence.
    + by rewrite lookup_total_insert_ne.
  - intros c' Hc. by rewrite lookup_total_insert_ne.
Qed.

Lemma smp_release_run c held lk σ :
  cpu_at c held σ → smp_ok σ → lk ∈ held → Spinlock.release c lk σ = Ok () (released c lk σ).
Proof.
  intros Hc Hs Hl. assert (lcpu (locks σ !!! lk) = Some c) as Hlc by by apply (ca_lcpu _ _ _ Hc).
  assert (held ≠ []) as Hne by (intros ->; by apply elem_of_nil in Hl).
  unfold Spinlock.release. erewrite bind_ok.
  2: { apply release_enter_run; [|done]. apply Hs. by rewrite Hlc. }
  rewrite release_done_run.
  - unfold released, upd_lock, upd_cpu. simpl. by rewrite lookup_total_insert_eq, insert_insert_eq.
  - simpl. by apply (ca_intr _ _ _ Hc).
  - simpl. rewrite (ca_noff _ _ _ Hc). destruct held; [done|simpl; lia].
Qed.

Lemma released_ok c held held' lk σ :
  cpu_at c held σ → smp_ok σ → held ≡ₚ lk :: held' →
  cpu_at c held' (released c lk σ) ∧ smp_ok (released c lk σ) ∧ smp_frame c σ (released c lk σ).
Proof.
  intros [Hn Hh Ho Hi] Hs Hp. unfold released. rewrite Hp in Hn, Ho.
  apply NoDup_cons in Hn as [Hnl Hn].
  assert (lcpu (locks σ !!! lk) = Some c) as Hlc by (apply Hh; rewrite Hp; by left).
  split_and!; [split|intros lk'|split]; simpl.
  - done.
  - intros lk'. destruct (decide (lk = lk')) as [<-|Hne].
    + rewrite lookup_total_insert_eq. simpl. naive_solver.
    + rewrite lookup_total_insert_ne, Hh, Hp, elem_of_cons by done. naive_solver.
  - rewrite lookup_total_insert_eq. simpl. rewrite Ho. simpl. lia.
  - intros Hne. rewrite lookup_total_insert_eq. simpl. rewrite Ho.
    destruct held'; [done|]. simpl length. by destruct (Z.eqb_spec (Z.of_nat (S (S (length held'))) - 1) 0); [lia|].
  - destruct (decide (lk = lk')) as [<-|Hne]; [by rewrite lookup_total_insert_eq|].
    rewrite lookup_total_insert_ne by done. apply Hs.
  - intros lk' c' Hc. destruct (decide (lk = lk')) as [<-|Hne].
    + rewrite lookup_total_insert_eq, Hlc. simpl. split; congruence.
    + by rewrite lookup_total_insert_ne.
  - intros c' Hc. by rewrite lookup_total_insert_ne.
Qed.

(** ** Ghost state and lock invariants *)

(** [gown j] is the thread that is making process [j] (state [USED]);
    [gcommit j]: [j] goes to sleep in [wait], or sleeps there; [gctx j]: the
    saved context of [j] can be resumed; [grun j]: a CPU is on the stack of
    [j]. *)
Record ghost := mkg {
  gown : nat → option stack; gcommit : nat → bool; gctx : nat → bool; grun : nat → bool }.

Definition g_own (j : nat) (o : option stack) (g : ghost) : ghost :=
  mkg (<[j := o]> (gown g)) (gcommit g) (gctx g) (grun g).
Definition g_commit (j : nat) (b : bool) (g : ghost) : ghost :=
  mkg (gown g) (<[j := b]> (gcommit g)) (gctx g) (grun g).
Definition g_ctx (j : nat) (b : bool) (g : ghost) : ghost :=
  mkg (gown g) (gcommit g) (<[j := b]> (gctx g)) (grun g).
Definition g_run (j : nat) (b : bool) (g : ghost) : ghost :=
  mkg (gown g) (gcommit g) (gctx g) (<[j := b]> (grun g)).

Definition assertion : Type := kst → ghost → Prop.

Definition st_of (s : kst) (j : nat) : procstate := pstate (procs s j).
Definition chan_of (s : kst) (j : nat) : channel := pchan (procs s j).
Definition parent_of (s : kst) (j : nat) : option nat := pparent (procs s j).

(** When the lock of process [j] is free. *)
Record proc_inv (j : nat) (s : kst) (g : ghost) : Prop := {
  pi_run : st_of s j = RUNNING ↔ grun g j = true;
  pi_commit : gcommit g j = true ↔ st_of s j = SLEEPING ∧ chan_of s j = AtProc j;
  pi_own : gown g j ≠ None → st_of s j = USED;
  pi_ctx : st_of s j = SLEEPING ∨ st_of s j = RUNNABLE → gctx g j = true;
}.

(** No process that has committed itself to sleep in [wait] has a child to
    collect; [x] is excepted. *)
Definition wait_inv (x : option nat) (s : kst) (g : ghost) : Prop :=
  ∀ q p, (q < NPROC)%nat → (p < NPROC)%nat → st_of s q = ZOMBIE → parent_of s q = Some p →
    x ≠ Some p → gcommit g p = false.

Definition linv (lk : Z) (s : kst) (g : ghost) : Prop :=
  (∀ j, lk = plock j → proc_inv j s g) ∧ (lk = wait_lock → wait_inv None s g).

(** ** Rely and guarantee *)

Record same_proc (j : nat) (s : kst) (g : ghost) (s' : kst) (g' : ghost) : Prop := {
  sp_st : st_of s' j = st_of s j;
  sp_chan : chan_of s' j = chan_of s j;
  sp_own : gown g' j = gown g j;
  sp_commit : gcommit g' j = gcommit g j;
  sp_ctx : gctx g' j = gctx g j;
  sp_run : grun g' j = grun g j;
}.

(** What happens without [wait_lock]. *)
Record wait_quiet (s : kst) (g : ghost) (s' : kst) (g' : ghost) : Prop := {
  wq_zombie q : st_of s' q = ZOMBIE → st_of s q = ZOMBIE;
  wq_commit p : gcommit g' p = true → gcommit g p = true;
  wq_parent q : parent_of s' q = parent_of s q ∨ parent_of s' q = None;
}.

(** Steps of the other threads, as seen by thread [o] holding [held]. *)
Record env (o : stack) (held : list Z) (s : kst) (g : ghost) (s' : kst) (g' : ghost) : Prop := {
  ev_lock j : plock j ∈ held → same_proc j s g s' g';
  ev_own j : gown g j = Some o →
    gown g' j = Some o ∧ st_of s' j = st_of s j ∧ gctx g' j = gctx g j ∧ grun g' j = grun g j;
  ev_wait : wait_lock ∈ held → wait_quiet s g s' g';
  ev_init x : initproc s = Some x → initproc s' = Some x;
  ev_cproc c : o = CStack c → cproc s' !! c = cproc s !! c;
  ev_boot : o = CStack 0 → initproc s' = initproc s;
}.

Definition stable (o : stack) (held : list Z) (P : assertion) : Prop :=
  ∀ s g s' g', env o held s g s' g' → P s g → P s' g'.

(** Actions of thread [t] that holds [held]. *)
Record guar (t : stack) (held : list Z) (s : kst) (g : ghost) (s' : kst) (g' : ghost) : Prop := {
  gu_lock j : plock j ∉ held → same_proc j s g s' g';
  gu_own j o : gown g j = Some o → o ≠ t →
    gown g' j = Some o ∧ st_of s' j = st_of s j ∧ gctx g' j = gctx g j;
  gu_run j : grun g' j = grun g j;
  gu_ctx j : gctx g' j = true → gctx g j = true;
  gu_commit j : gcommit g' j = true → gcommit g j = true ∨ t = PStack j;
  gu_wait : wait_lock ∉ held → wait_quiet s g s' g';
  gu_init x : initproc s = Some x → initproc s' = Some x;
  gu_cproc c : t ≠ CStack c → cproc s' !! c = cproc s !! c;
  gu_boot : t ≠ CStack 0 → initproc s' = initproc s;
}.

Lemma guar_env t held o held' s g s' g' :
  guar t held s g s' g' → o ≠ t → (∀ lk, lk ∈ held → lk ∉ held') → env o held' s g s' g'.
Proof.
  intros [Hl Ho Hr Hx Hc Hw Hi Hp Hb] Hne Hd. split.
  - intros j Hj. apply Hl. intros Hj'. by eapply Hd.
  - intros j Hj. destruct (Ho j o Hj) as (? & ? & ?); [done|]. by rewrite Hr.
  - intros Hj. apply Hw. intros Hj'. by eapply Hd.
  - done.
  - intros c ->. apply Hp. congruence.
  - intros ->. apply Hb. congruence.
Qed.

Lemma same_proc_inv j s g s' g' : same_proc j s g s' g' → proc_inv j s g → proc_inv j s' g'.
Proof. intros [H1 H2 H3 H4 H5 H6] [A B C D]. by split; rewrite ?H1, ?H2, ?H3, ?H4, ?H5, ?H6. Qed.

Lemma wait_quiet_inv x s g s' g' : wait_quiet s g s' g' → wait_inv x s g → wait_inv x s' g'.
Proof.
  intros [Hz Hc Hp] H q p Hq Hp1 Hzq Hpq Hx. destruct (gcommit g' p) eqn:E; [|done].
  apply Hc in E. destruct (Hp q) as [Hp'|Hp']; [|congruence].
  rewrite (H q p) in E; [done|done|done|by apply Hz|congruence|done].
Qed.

Lemma guar_linv t held s g s' g' lk :
  guar t held s g s' g' → lk ∉ held → linv lk s g → linv lk s' g'.
Proof.
  intros Hg Hl [Hj Hw]. split.
  - intros j ->. eapply same_proc_inv; [by eapply gu_lock|by apply Hj].
  - intros ->. eapply wait_quiet_inv; [by eapply gu_wait|by apply Hw].
Qed.

Lemma stable_linv t held lk : lk ∈ held → stable t held (linv lk).
Proof.
  intros Hl s g s' g' [Hlk _ Hw _ _ _] [Hj Hwi]. split.
  - intros j ->. eapply same_proc_inv; [by apply Hlk|by apply Hj].
  - intros ->. eapply wait_quiet_inv; [by apply Hw|by apply Hwi].
Qed.

Lemma env_mono o held held' s g s' g' :
  (∀ lk, lk ∈ held → lk ∈ held') → env o held' s g s' g' → env o held s g s' g'.
Proof. intros Hs [A B C D F G]. split; auto. Qed.

Lemma stable_mono o held held' P :
  (∀ lk, lk ∈ held → lk ∈ held') → stable o held P → stable o held' P.
Proof. intros Hs H s g s' g' He. eapply H, env_mono; done. Qed.

Lemma stable_cons o held lk P : stable o held P → stable o (lk :: held) P.
Proof. apply stable_mono. intros lk' ?. by right. Qed.

Lemma stable_nil o held P : stable o [] P → stable o held P.
Proof. apply stable_mono. by intros lk' ?%elem_of_nil. Qed.

Lemma stable_and o held P Q :
  stable o held P → stable o held Q → stable o held (λ s g, P s g ∧ Q s g).
Proof. intros HP HQ s g s' g' He [? ?]. split; [by eapply HP|by eapply HQ]. Qed.

Lemma stable_impl o held (φ : Prop) P :
  (φ → stable o held P) → stable o held (λ s g, φ → P s g).
Proof. intros HP s g s' g' He H Hφ. by eapply HP; [..|apply H]. Qed.

Lemma stable_forall {A} o held (P : A → assertion) :
  (∀ a, stable o held (P a)) → stable o held (λ s g, ∀ a, P a s g).
Proof. intros HP s g s' g' He H a. by eapply HP. Qed.

Lemma stable_pure o held (φ : Prop) : stable o held (λ _ _, φ).
Proof. by intros s g s' g' _. Qed.

(** Only the locks change. *)
Lemma env_smp t held s g σ : env t held s g (set_smp σ s) g.
Proof. split; try done. intros _. split; auto. Qed.
Lemma guar_smp t held s g σ : guar t held s g (set_smp σ s) g.
Proof. split; try done; auto. split; auto. Qed.

Lemma guar_refl t held s g : guar t held s g s g.
Proof. pose proof (guar_smp t held s g (ksmp s)) as H. by destruct s. Qed.

Lemma guar_then_smp t held s g s' g' σ :
  guar t held s g s' g' → guar t held s g (set_smp σ s') g'.
Proof.
  intros [Hl Ho Hr Hx Hc Hw Hi Hp Hb]. split; try done.
  - intros j Hj. by destruct (Hl j Hj).
  - intros Hj. by destruct (Hw Hj).
Qed.

Lemma linv_smp lk s g σ : linv lk s g → linv lk (set_smp σ s) g.
Proof. apply (guar_linv (PStack 0) []); [apply guar_smp|by intros ?%elem_of_nil]. Qed.

(** ** Correct code *)

(** Thread [t] runs on CPU [c] and holds [held]. *)
Definition thread_on (t : stack) (c : nat) (held : list Z) (s : kst) (g : ghost) : Prop :=
  match t with
  | PStack i => cproc s !! c = Some i ∧ grun g i = true ∧ (plock i ∉ held → gcommit g i = false)
  | CStack c' => c' = c ∧ (held = [] → cproc s !! c = None)
  end.

Definition free_inv (s : kst) (g : ghost) : Prop :=
  ∀ lk, lcpu (locks (ksmp s) !!! lk) = None → linv lk s g.

(** The state in which [t] acts. *)
Record sees (t : stack) (c : nat) (held : list Z) (P : assertion) (s : kst) (g : ghost) : Prop := {
  se_cpu : cpu_at c held (ksmp s);
  se_smp : smp_ok (ksmp s);
  se_thread : thread_on t c held s g;
  se_free : free_inv s g;
  se_P : P s g;
}.

(** What it may do. *)
Record acts (t : stack) (c : nat) (held held' : list Z) (s : kst) (g : ghost) (s' : kst) (g' : ghost) : Prop := {
  ac_cpu : cpu_at c held' (ksmp s');
  ac_smp : smp_ok (ksmp s');
  ac_frame : smp_frame c (ksmp s) (ksmp s');
  ac_guar : guar t held s g s' g';
  ac_free : free_inv s' g';
  ac_thread : thread_on t c held' s' g';
}.

(** Waiting for a lock that another CPU holds, or for CPU 0 to boot; the first
    process calls [exit]. *)
Definition tolerable (e : err) (c : nat) (s : kst) : Prop :=
  (∃ lk c', e = Sleeping lk ∧ c' ≠ c ∧ lcpu (locks (ksmp s) !!! lk) = Some c') ∨
  (e = Sleeping boot_wait ∧ started s = false) ∨
  (e = Panic "init exiting" ∧ ∃ i, cproc s !! c = Some i ∧ initproc s = Some i).

(** Process [i] is about to give up the CPU; it has been given one. *)
Record leaving (i : nat) (s : kst) (g : ghost) : Prop := {
  lv_st : st_of s i ≠ RUNNING;
  lv_commit : gcommit g i = true ↔ st_of s i = SLEEPING ∧ chan_of s i = AtProc i;
  lv_own : gown g i = None;
}.
Record resumed (i : nat) (s : kst) (g : ghost) : Prop := {
  re_st : st_of s i = RUNNING;
  re_commit : gcommit g i = false;
  re_own : gown g i = None;
}.

Lemma stable_proc_inv o held i : plock i ∈ held → stable o held (proc_inv i).
Proof. intros Hi s g s' g' He. by apply same_proc_inv, (ev_lock _ _ _ _ _ _ He). Qed.
Lemma stable_resumed o held i : plock i ∈ held → stable o held (resumed i).
Proof.
  intros Hi s g s' g' He [H1 H2 H3]. destruct (ev_lock _ _ _ _ _ _ He i Hi) as [? ? ? ? ? ?].
  split; congruence.
Qed.

Section pok.
Context {E : Type}.
Implicit Types (r : prog E).

(** The loops: what they need on entry; they return without locks. *)
Definition loop_pre (l : loop) (t : stack) (held : list Z) (P : assertion) : Prop :=
  match l with
  | Scheduler => (∃ c, t = CStack c) ∧ held = []
  | WaitLoop p _ => t = PStack p ∧ held = [wait_lock] ∧ ∀ s g, P s g → wait_inv None s g
  | SleepLoop _ _ => (∃ i, t = PStack i) ∧ held = [tickslock]
  end.

Fixpoint pok (t : stack) (held : list Z) (P : assertion) (r : prog E) : Prop :=
  match r with
  | User => held = [] ∧ ∃ i, t = PStack i
  | Act f k => ∀ c s g, sees t c held P s g →
      match f c s with
      | Ok b s' => ∃ held' g' P',
          acts t c held held' s g s' g' ∧ P' s' g' ∧ stable t held' P' ∧ pok t held' P' (k b)
      | Err e => tolerable e c s
      end
  | Svc f k => ∀ b, pok t held P (k b)
  | ToSched i k =>
      t = PStack i ∧ held = [plock i] ∧ (∀ s g, P s g → leaving i s g) ∧
      ((∀ s g, P s g → st_of s i = ZOMBIE) ∨
       ∃ P', stable t [] P' ∧ (∀ s g, P s g → P' s g) ∧
             pok t [plock i] (λ s g, P' s g ∧ resumed i s g) k)
  | ToProc i k => ∃ c,
      t = CStack c ∧ held = [plock i] ∧
      (∀ s g, P s g → resumed i s g ∧ grun g i = false ∧ gctx g i = true ∧ cproc s !! c = Some i) ∧
      pok t [plock i] (proc_inv i) k
  | SetContext i r k =>
      plock i ∈ held ∧ (∀ s g, P s g → gown g i = Some t) ∧
      pok (PStack i) [plock i] (resumed i) r ∧
      ∃ P', stable t held P' ∧ (∀ s g, P s g → P' s (g_ctx i true g)) ∧ pok t held P' k
  | Call l k =>
      loop_pre l t held P ∧ (l ≠ Scheduler → ∀ a, pok t [] (λ _ _, True) (k a))
  end.

Lemma pok_mono t held P P' r : (∀ s g, P' s g → P s g) → pok t held P r → pok t held P' r.
Proof.
  intros HP. induction r as [|B f k IH|B f k IH|i k IH|i k IH|i r IHr k IH|l k IH] in P, P', t, held, HP |- *;
    simpl.
  - done.
  - intros H c s g [? ? ? ? ?]. apply (H c s g). split; auto.
  - intros H b. by eapply IH.
  - intros (-> & -> & Hl & H). split_and!; [done..|by eauto|].
    destruct H as [H|(P1 & ? & ? & ?)]; [by left; eauto|right; exists P1; eauto].
  - intros (c & -> & -> & Hl & H). exists c. split_and!; eauto.
  - intros (? & ? & ? & P1 & ? & ? & ?). split_and!; eauto. exists P1. split_and!; eauto.
  - intros [Hl H]. split; [|done]. destruct l; simpl in *; naive_solver.
Qed.

(** *** The rules *)

(** An action that does not touch the locks. *)
Lemma pok_act {B : Set} t held P (f : nat → M kst B) (k : B → prog E) :
  (∀ c s g, thread_on t c held s g → cpu_at c held (ksmp s) → P s g → ∃ b s' g' P',
     f c s = Ok b s' ∧ ksmp s' = ksmp s ∧ cproc s' = cproc s ∧ guar t held s g s' g' ∧
     P' s' g' ∧ stable t held P' ∧ pok t held P' (k b)) →
  pok t held P (Act f k).
Proof.
  intros H c s g [Hcpu Hsmp Hth Hfree HP].
  destruct (H c s g Hth Hcpu HP) as (b & s' & g' & P' & -> & Hs & Hc & Hg & HP' & Hst & Hk).
  exists held, g', P'. split_and!; [|done..]. split; rewrite ?Hs; try done.
  - intros lk. rewrite Hs. intros Hlk. eapply guar_linv; [done|by eapply cpu_at_free|by apply Hfree].
  - destruct t as [i|c']; simpl in *.
    + destruct Hth as (Hp & Hr & Hcm). rewrite Hc, (gu_run _ _ _ _ _ _ Hg).
      split_and!; [done..|]. intros Hi. rewrite (sp_commit _ _ _ _ _ (gu_lock _ _ _ _ _ _ Hg i Hi)). auto.
    + by rewrite Hc.
Qed.

(** Reading the state. *)
Lemma pok_gets {B : Set} t held P (Q : B → assertion) (f : kst → B) (k : B → prog E) :
  (∀ s g, P s g → Q (f s) s g) → (∀ b, stable t held (Q b)) → (∀ b, pok t held (Q b) (k b)) →
  pok t held P (act (λ _, gets f) k).
Proof.
  intros HQ Hst Hk. apply pok_act. intros c s g _ _ HP. exists (f s), s, g, (Q (f s)).
  split_and!; try done; [|by apply HQ]. apply guar_refl.
Qed.

Lemma pok_read {B : Set} t held P (f : kst → B) (k : B → prog E) :
  stable t held P → (∀ b, pok t held P (k b)) → pok t held P (act (λ _, gets f) k).
Proof. intros Hst Hk. apply (pok_gets _ _ _ (λ _, P)); auto. Qed.

(** Changing the state, and possibly the ghost state. *)
Lemma pok_modify t held P (P' : assertion) (f : kst → kst) (k : unit → prog E) :
  (∀ s, ksmp (f s) = ksmp s ∧ cproc (f s) = cproc s) →
  (∀ c s g, thread_on t c held s g → P s g → ∃ g', guar t held s g (f s) g' ∧ P' (f s) g') →
  stable t held P' → pok t held P' (k ()) → pok t held P (act (λ _, modify f) k).
Proof.
  intros Hf H Hst Hk. apply pok_act. intros c s g Hth _ HP.
  destruct (H c s g Hth HP) as (g' & Hg & HP'). exists (), (f s), g', P'.
  destruct (Hf s). split_and!; done.
Qed.

Lemma pok_acquire t held P lk (k : unit → prog E) :
  lk ∉ held → stable t held P →
  pok t (lk :: held) (λ s g, P s g ∧ linv lk s g) (k ()) →
  pok t held P (acquire lk k).
Proof.
  intros Hl Hst Hk c s g [Hcpu Hsmp Hth Hfree HP]. unfold zoom.
  destruct (smp_acquire_run c held lk (ksmp s)) as [[-> Hf]|[-> Hf]]; [done..| |].
  - destruct (acquired_ok c held lk (ksmp s)) as (H1 & H2 & H3); [done..|].
    exists (lk :: held), g, (λ s g, P s g ∧ linv lk s g). split_and!.
    + split; try done.
      * apply guar_smp.
      * intros lk'. simpl. destruct (decide (lk = lk')) as [<-|Hne].
        { by rewrite lookup_total_insert_eq. }
        rewrite lookup_total_insert_ne by done. intros ?. by apply linv_smp, Hfree.
      * destruct t; simpl in *; [|naive_solver]. destruct Hth as (? & ? & Hc). split_and!; [done..|].
        intros Hi. apply Hc. intros ?. apply Hi. by right.
    + eapply Hst; [apply env_smp|done].
    + by apply linv_smp, Hfree.
    + apply stable_and; [by apply stable_cons|]. apply stable_linv. by left.
    + done.
  - destruct Hf as (c' & ? & ?). left. by exists lk, c'.
Qed.

(** Releasing a lock, possibly with a ghost update. *)
Lemma pok_release_ghost t held held' P (P' : assertion) lk (k : unit → prog E) :
  held ≡ₚ lk :: held' →
  (∀ c s g, thread_on t c held s g → P s g → ∃ g',
     guar t held s g s g' ∧ linv lk s g' ∧ P' s g' ∧
     (∀ c, t = CStack c → held' = [] → cproc s !! c = None)) →
  stable t held' P' → pok t held' P' (k ()) → pok t held P (release lk k).
Proof.
  intros Hl H Hst Hk c s g [Hcpu Hsmp Hth Hfree HP]. unfold zoom.
  assert (lk ∈ held) by (rewrite Hl; by left).
  rewrite (smp_release_run c held) by done.
  destruct (released_ok c held held' lk (ksmp s)) as (H1 & H2 & H3); [done..|].
  destruct (H c s g Hth HP) as (g' & Hg & Hi & HP' & Hc).
  pose proof (linv_smp lk s g' (released c lk (ksmp s)) Hi) as Hi'.
  exists held', g', P'. split_and!; [|by eapply Hst; [apply env_smp|]|done..].
  split; try done.
  - by apply guar_then_smp.
  - intros lk'. simpl. destruct (decide (lk = lk')) as [<-|Hne]; [done|].
    rewrite lookup_total_insert_ne by done. intros Hf.
    apply linv_smp. eapply guar_linv; [done|by eapply cpu_at_free|by apply Hfree].
  - destruct t as [i|c']; simpl in *.
    + destruct Hth as (? & Hr & Hcm). rewrite (gu_run _ _ _ _ _ _ Hg). split_and!; [done..|].
      intros Hni. destruct (decide (lk = plock i)) as [->|Hne].
      * destruct Hi as [Hi _]. destruct (Hi i) as [Hrun Hcommit _ _]; [done|].
        rewrite (gu_run _ _ _ _ _ _ Hg) in Hrun. apply Hrun in Hr.
        apply not_true_is_false. rewrite Hcommit, Hr. by intros [].
      * assert (plock i ∉ held) as Hn.
        { rewrite Hl. intros [Heq|?]%elem_of_cons; [by apply Hne|done]. }
        rewrite (sp_commit _ _ _ _ _ (gu_lock _ _ _ _ _ _ Hg i Hn)). auto.
    + destruct Hth as [-> _]. split; [done|]. intros. by apply Hc.
Qed.

Lemma pok_release t held held' P (P' : assertion) lk (k : unit → prog E) :
  held ≡ₚ lk :: held' →
  (∀ c s g, thread_on t c held s g → P s g →
     linv lk s g ∧ P' s g ∧ (∀ c, t = CStack c → held' = [] → cproc s !! c = None)) →
  stable t held' P' → pok t held' P' (k ()) → pok t held P (release lk k).
Proof.
  intros Hl H. eapply pok_release_ghost; [done|]. intros c s g Hth HP. exists g.
  destruct (H c s g Hth HP) as (? & ? & ?). split_and!; try done. apply guar_refl.
Qed.

(** Actions on the interrupt fields of the CPU. *)
Lemma pok_cpu {B : Set} t held P (f : nat → M smp B) (k : B → prog E) :
  (∀ c σ, cpu_at c held σ → ∃ b x, f c σ = Ok b (upd_cpu c x σ) ∧
     noff x = noff (cpus σ !!! c) ∧ (held ≠ [] → intr x = false)) →
  stable t held P → (∀ b, pok t held P (k b)) → pok t held P (on_smp f k).
Proof.
  intros Hf Hst Hk c s g [Hcpu Hsmp Hth Hfree HP]. unfold zoom.
  destruct (Hf c (ksmp s) Hcpu) as (b & x & -> & Hx & Hi).
  destruct (upd_cpu_same c held x (ksmp s)) as (H1 & H2 & H3); [done..|].
  exists held, g, P. split_and!; [|by eapply Hst; [apply env_smp|]|done|done].
  split; try done; [apply guar_smp|]. intros lk Hlk. by apply linv_smp, Hfree.
Qed.
End pok.
