(* ===== verification/ProcSound.v ===== *)
(** * Soundness of the reasoning about kernel threads

    If the traps and the loops are correct in the sense of [pok], the invariant
    of the system, [sys_inv], is kept by every step of the machine. *)
From stdpp Require Import functions list gmap.
From S2P Require Import Prelude Param Spinlock Proc ProcLogic.

#[local] Open Scope Z_scope.

Section sound.
Context {E : Type} `{Services E}.
Implicit Types (m : machine (E:=E)) (r k : prog E).

(** The saved context of process [j] can be resumed. *)
Definition ctx_ok (j : nat) (s : kst) (g : ghost) (r : prog E) : Prop :=
  ∃ P, stable (PStack j) [] P ∧ P s g ∧
       pok (PStack j) [plock j] (λ s g, P s g ∧ resumed j s g) r.

(** CPU [c] holds [L c] and its thread knows [A c]. *)
Record sys_inv (m : machine (E:=E)) (g : ghost) (L : nat → list Z) (A : nat → assertion) : Prop := {
  si_smp : smp_ok (ksmp (mk m));
  si_cpu c : cpu_at c (L c) (ksmp (mk m));
  si_thread c : thread_on (msp m c) c (L c) (mk m) g;
  si_A c : A c (mk m) g;
  si_stable c : stable (msp m c) (L c) (A c);
  si_pok c : pok (msp m c) (L c) (A c) (mrun m c);
  si_free : free_inv (mk m) g;
  si_inj c c' i : msp m c = PStack i → msp m c' = PStack i → c = c';
  si_run i : grun g i = true → ∃ c, msp m c = PStack i;
  si_ctx j : gctx g j = true → grun g j = false → ctx_ok j (mk m) g (mpctx m j);
  si_sched c i : msp m c = PStack i → pok (CStack c) [plock i] (proc_inv i) (mcctx m c);
}.

(** Two CPUs run different threads. *)
Lemma si_other m g L A c c' : sys_inv m g L A → c' ≠ c → msp m c' ≠ msp m c.
Proof.
  intros Hm Hc Heq. pose proof (si_thread _ _ _ _ Hm c) as Ht.
  pose proof (si_thread _ _ _ _ Hm c') as Ht'. rewrite Heq in Ht'.
  destruct (msp m c) as [i|c0] eqn:Hsp.
  - apply Hc. eapply (si_inj _ _ _ _ Hm _ _ i); congruence.
  - destruct Ht, Ht'. congruence.
Qed.

Lemma env_g_ctx o held s g i b :
  plock i ∉ held → gown g i ≠ Some o → env o held s g s (g_ctx i b g).
Proof.
  intros Hi Ho. split; simpl; try done.
  - intros j Hj. split; simpl; try done. rewrite fn_lookup_insert_ne; [done|]. by intros ->.
  - intros j Hj. rewrite fn_lookup_insert_ne; [done|]. by intros ->.
  - intros _. split; auto.
Qed.

Lemma env_g_run o held s g i b :
  plock i ∉ held → gown g i ≠ Some o → env o held s g s (g_run i b g).
Proof.
  intros Hi Ho. split; simpl; try done.
  - intros j Hj. split; simpl; try done. rewrite fn_lookup_insert_ne; [done|]. by intros ->.
  - intros j Hj. rewrite fn_lookup_insert_ne; [done|]. by intros ->.
  - intros _. split; auto.
Qed.

Lemma linv_g_ctx lk s g i b : lk ≠ plock i → linv lk s g → linv lk s (g_ctx i b g).
Proof.
  intros Hi [Hp Hw]. split; [|done]. intros j ->. eapply same_proc_inv; [|by apply Hp].
  split; simpl; try done. rewrite fn_lookup_insert_ne; [done|]. by intros ->.
Qed.
Lemma linv_g_run lk s g i b : lk ≠ plock i → linv lk s g → linv lk s (g_run i b g).
Proof.
  intros Hi [Hp Hw]. split; [|done]. intros j ->. eapply same_proc_inv; [|by apply Hp].
  split; simpl; try done. rewrite fn_lookup_insert_ne; [done|]. by intros ->.
Qed.

(** The other CPUs do not see the switch. *)
Lemma lock_elsewhere m g L A c c' i :
  sys_inv m g L A → c' ≠ c → plock i ∈ L c → plock i ∉ L c'.
Proof. intros Hm Hc. eapply cpu_at_disjoint; [done|apply (si_cpu _ _ _ _ Hm)..]. Qed.

Lemma ctx_ok_env j s g s' g' r : env (PStack j) [] s g s' g' → ctx_ok j s g r → ctx_ok j s' g' r.
Proof. intros He (P & HPs & HP & Hr). exists P. split_and!; [done|by eapply HPs|done]. Qed.

(** An action. *)
Lemma sys_inv_acts m g L A c held' s' g' P' r :
  sys_inv m g L A → acts (msp m c) c (L c) held' (mk m) g s' g' →
  P' s' g' → stable (msp m c) held' P' → pok (msp m c) held' P' r →
  sys_inv (runs_on (with_mk s' m) c r) g' (<[c := held']> L) (<[c := P']> A).
Proof.
  intros Hm [Hc' Hs' Hf Hg Hfr Ht'] HP' Hst' Hr.
  assert (∀ c', c' ≠ c → env (msp m c') (L c') (mk m) g s' g') as Henv.
  { intros c' Hc. eapply guar_env; [done|by eapply si_other|].
    eapply cpu_at_disjoint; [done|apply (si_cpu _ _ _ _ Hm)..]. }
  split; simpl; try done.
  - intros c'. destruct (decide (c' = c)) as [->|Hc]; [by rewrite fn_lookup_insert|].
    rewrite fn_lookup_insert_ne by done. eapply cpu_at_frame; [done..|apply (si_cpu _ _ _ _ Hm)].
  - intros c'. destruct (decide (c' = c)) as [->|Hc]; [by rewrite fn_lookup_insert|].
    rewrite fn_lookup_insert_ne by done. pose proof (si_thread _ _ _ _ Hm c') as Ht.
    pose proof (si_other m g L A c c' Hm Hc) as Hne.
    assert (cproc s' !! c' = cproc (mk m) !! c') as Hp.
    { apply (gu_cproc _ _ _ _ _ _ Hg). intros Heq. pose proof (si_thread _ _ _ _ Hm c) as Htc.
      rewrite Heq in Htc. by destruct Htc. }
    destruct (msp m c') as [i|c1]; simpl in *; rewrite Hp; [|done].
    destruct Ht as (? & ? & Hcm). rewrite (gu_run _ _ _ _ _ _ Hg). split_and!; [done..|].
    intros Hi. apply not_true_is_false. intros [Hx|Hx]%(gu_commit _ _ _ _ _ _ Hg); [|by rewrite Hx in Hne].
    rewrite Hcm in Hx; done.
  - intros c'. destruct (decide (c' = c)) as [->|Hc]; [by rewrite fn_lookup_insert|].
    rewrite fn_lookup_insert_ne by done. eapply (si_stable _ _ _ _ Hm c'); [by apply Henv|apply (si_A _ _ _ _ Hm)].
  - intros c'. destruct (decide (c' = c)) as [->|Hc]; [by rewrite !fn_lookup_insert|].
    rewrite !fn_lookup_insert_ne by done. apply (si_stable _ _ _ _ Hm).
  - intros c'. destruct (decide (c' = c)) as [->|Hc]; [by rewrite !fn_lookup_insert|].
    rewrite !fn_lookup_insert_ne by done. apply (si_pok _ _ _ _ Hm).
  - apply (si_inj _ _ _ _ Hm).
  - intros i. rewrite (gu_run _ _ _ _ _ _ Hg). apply (si_run _ _ _ _ Hm).
  - intros j Hx Hr'. rewrite (gu_run _ _ _ _ _ _ Hg) in Hr'. apply (gu_ctx _ _ _ _ _ _ Hg) in Hx.
    eapply ctx_ok_env; [|by apply (si_ctx _ _ _ _ Hm)]. eapply guar_env; [done| |by intros ? _ ?%elem_of_nil].
    intros Heq. pose proof (si_thread _ _ _ _ Hm c) as Htc. rewrite <- Heq in Htc. destruct Htc as (_ & Htr & _). congruence.
  - apply (si_sched _ _ _ _ Hm).
Qed.

(** A CPU continues with code that is correct under the same knowledge. *)
Lemma sys_inv_runs m g L A c r :
  sys_inv m g L A → pok (msp m c) (L c) (A c) r → sys_inv (runs_on m c r) g L A.
Proof.
  intros Hm Hr. destruct Hm as [? ? ? ? ? Hpk ? ? ? ? ?]. split; simpl; try done.
  intros c'. destruct (decide (c' = c)) as [->|Hc]; [by rewrite fn_lookup_insert|].
  by rewrite fn_lookup_insert_ne.
Qed.

(** A process switches to the scheduler of its CPU. *)
Lemma sys_inv_to_sched m g L A c i k :
  sys_inv m g L A → mrun m c = ToSched i k →
  ∃ g' A', sys_inv (swtch_sched m c i k) g' L A'.
Proof.
  intros Hm Hrun. pose proof (si_pok _ _ _ _ Hm c) as Hpk. rewrite Hrun in Hpk.
  destruct Hpk as (Hsp & HL & Hlv & Hcont). pose proof (si_A _ _ _ _ Hm c) as HA.
  destruct (Hlv _ _ HA) as [Hst Hcm Hown].
  assert (∃ b, (st_of (mk m) i = SLEEPING ∨ st_of (mk m) i = RUNNABLE → b = true) ∧
               (b = true → ctx_ok i (mk m) (g_run i false (g_ctx i b g)) k)) as (b & Hb1 & Hb2).
  { destruct Hcont as [Hz|(P' & HP' & HPP & Hk)].
    - exists false. split; [|done]. rewrite (Hz _ _ HA). by intros [|].
    - exists true. split; [done|]. intros _. rewrite Hsp in HP', Hk. exists P'. split_and!; [done| |done].
      eapply HP'; [apply env_g_run|eapply HP'; [apply env_g_ctx|by apply HPP]]; simpl; try done;
        try (by rewrite Hown); by intros ?%elem_of_nil. }
  set (g1 := g_ctx i b g) in *. set (g2 := g_run i false g1) in *.
  assert (∀ o held P, plock i ∉ held → stable o held P → P (mk m) g → P (mk m) g2) as Henv.
  { intros o held P Hi HP HPg. eapply HP; [apply env_g_run|eapply HP; [apply env_g_ctx|done]];
      simpl; rewrite ?Hown; done. }
  assert (plock i ∈ L c) as Hin by (rewrite HL; by left).
  exists g2, (<[c := proc_inv i]> A). split; simpl; try apply Hm.
  - intros c'. pose proof (si_thread _ _ _ _ Hm c') as Ht. destruct (decide (c' = c)) as [->|Hc].
    { rewrite fn_lookup_insert. split; [done|]. by rewrite HL. }
    rewrite fn_lookup_insert_ne by done. pose proof (si_other _ _ _ _ c c' Hm Hc) as Hne.
    rewrite Hsp in Hne. destruct (msp m c') as [i'|c1]; simpl in *; [|done].
    rewrite fn_lookup_insert_ne; [done|]. by intros ->.
  - intros c'. destruct (decide (c' = c)) as [->|Hc].
    { rewrite fn_lookup_insert. split; simpl; rewrite ?fn_lookup_insert; done. }
    rewrite fn_lookup_insert_ne by done. eapply Henv; [by eapply lock_elsewhere|apply Hm..].
  - intros c'. destruct (decide (c' = c)) as [->|Hc].
    { rewrite !fn_lookup_insert, HL. apply stable_proc_inv. by left. }
    rewrite !fn_lookup_insert_ne by done. apply Hm.
  - intros c'. destruct (decide (c' = c)) as [->|Hc].
    { rewrite !fn_lookup_insert, HL. by apply (si_sched _ _ _ _ Hm). }
    rewrite !fn_lookup_insert_ne by done. apply Hm.
  - intros lk Hlk. assert (lk ≠ plock i).
    { intros ->. by apply (cpu_at_free _ _ _ _ (si_cpu _ _ _ _ Hm c)) in Hlk. }
    apply linv_g_run, linv_g_ctx; [done..|]. by apply (si_free _ _ _ _ Hm).
  - intros c1 c2 i'. destruct (decide (c1 = c)) as [->|H1], (decide (c2 = c)) as [->|H2];
      rewrite ?fn_lookup_insert, ?fn_lookup_insert_ne by done; try done. apply (si_inj _ _ _ _ Hm).
  - intros i'. destruct (decide (i' = i)) as [->|Hi]; [by rewrite fn_lookup_insert|].
    rewrite fn_lookup_insert_ne by done. intros (c' & Hc')%(si_run _ _ _ _ Hm).
    exists c'. rewrite fn_lookup_insert_ne; [done|]. intros ->. congruence.
  - intros j. destruct (decide (j = i)) as [->|Hi]; rewrite ?fn_lookup_insert, ?fn_lookup_insert_ne by done.
    { intros Hb _. by apply Hb2. }
    intros Hx Hr. destruct (si_ctx _ _ _ _ Hm j Hx Hr) as (P & HPs & HP & Hk).
    exists P. split_and!; [done| |done]. eapply Henv; [by intros ?%elem_of_nil|done..].
  - intros c' i'. destruct (decide (c' = c)) as [->|Hc]; [by rewrite fn_lookup_insert|].
    rewrite fn_lookup_insert_ne by done. apply (si_sched _ _ _ _ Hm).
Qed.

(** The scheduler switches to a process. *)
Lemma sys_inv_to_proc m g L A c i k :
  sys_inv m g L A → mrun m c = ToProc i k →
  ∃ g' A', sys_inv (swtch_proc m c i k) g' L A'.
Proof.
  intros Hm Hrun. pose proof (si_pok _ _ _ _ Hm c) as Hpk. rewrite Hrun in Hpk.
  destruct Hpk as (c0 & Hsp & HL & HPr & Hk). pose proof (si_thread _ _ _ _ Hm c) as Htc.
  rewrite Hsp in Htc. destruct Htc as [-> _].
  destruct (HPr _ _ (si_A _ _ _ _ Hm c)) as ([Hst Hcm Hown] & Hr & Hx & Hcp).
  destruct (si_ctx _ _ _ _ Hm i Hx Hr) as (P & HPs & HP & Hctx).
  set (g1 := g_run i true g).
  assert (∀ o held P, plock i ∉ held → stable o held P → P (mk m) g → P (mk m) g1) as Henv.
  { intros o held P' Hi HP' HPg. eapply HP'; [apply env_g_run|done]; by rewrite ?Hown. }
  assert (plock i ∈ L c) as Hin by (rewrite HL; by left).
  assert (∀ c', msp m c' ≠ PStack i) as Hno.
  { intros c' Hc'. pose proof (si_thread _ _ _ _ Hm c') as Ht. rewrite Hc' in Ht. naive_solver congruence. }
  exists g1, (<[c := λ s g, P s g ∧ resumed i s g]> A). split; simpl; try apply Hm.
  - intros c'. pose proof (si_thread _ _ _ _ Hm c') as Ht. destruct (decide (c' = c)) as [->|Hc].
    { rewrite fn_lookup_insert, HL. simpl. rewrite fn_lookup_insert. split_and!; [done..|]. intros []. by left. }
    rewrite fn_lookup_insert_ne by done. pose proof (Hno c') as Hne.
    destruct (msp m c') as [i'|c1]; simpl in *; [|done].
    rewrite fn_lookup_insert_ne; [done|]. by intros ->.
  - intros c'. destruct (decide (c' = c)) as [->|Hc].
    { rewrite fn_lookup_insert. split; [|done]. by eapply (Henv (PStack i) []); [intros ?%elem_of_nil|..]. }
    rewrite fn_lookup_insert_ne by done. eapply Henv; [by eapply lock_elsewhere|apply Hm..].
  - intros c'. destruct (decide (c' = c)) as [->|Hc].
    { rewrite !fn_lookup_insert, HL. apply stable_and; [by apply stable_nil|apply stable_resumed; by left]. }
    rewrite !fn_lookup_insert_ne by done. apply Hm.
  - intros c'. destruct (decide (c' = c)) as [->|Hc]; [by rewrite !fn_lookup_insert, HL|].
    rewrite !fn_lookup_insert_ne by done. apply Hm.
  - intros lk Hlk. assert (lk ≠ plock i).
    { intros ->. by apply (cpu_at_free _ _ _ _ (si_cpu _ _ _ _ Hm c)) in Hlk. }
    apply linv_g_run; [done|]. by apply (si_free _ _ _ _ Hm).
  - intros c1 c2 i'. destruct (decide (c1 = c)) as [->|H1], (decide (c2 = c)) as [->|H2];
      rewrite ?fn_lookup_insert, ?fn_lookup_insert_ne by done; try done.
    + intros [= <-] Hx'. by apply Hno in Hx'.
    + intros Hx' [= <-]. by apply Hno in Hx'.
    + apply (si_inj _ _ _ _ Hm).
  - intros i'. destruct (decide (i' = i)) as [->|Hi].
    { intros _. exists c. by rewrite fn_lookup_insert. }
    rewrite fn_lookup_insert_ne by done. intros (c' & Hc')%(si_run _ _ _ _ Hm).
    exists c'. rewrite fn_lookup_insert_ne; [done|]. intros ->. congruence.
  - intros j Hxj. destruct (decide (j = i)) as [->|Hi]; [by rewrite fn_lookup_insert|].
    rewrite fn_lookup_insert_ne by done. intros Hrj.
    destruct (si_ctx _ _ _ _ Hm j Hxj Hrj) as (P1 & HPs1 & HP1 & Hk1).
    exists P1. split_and!; [done| |done]. eapply Henv; [by intros ?%elem_of_nil|done..].
  - intros c' i'. destruct (decide (c' = c)) as [->|Hc].
    { rewrite !fn_lookup_insert. intros [= <-]. by rewrite <- Hsp. }
    rewrite !fn_lookup_insert_ne by done. apply (si_sched _ _ _ _ Hm).
Qed.

(** The context of a new process. *)
Lemma sys_inv_set_context m g L A c i r k :
  sys_inv m g L A → mrun m c = SetContext i r k →
  ∃ g' A', sys_inv (runs_on (set_pctx i r m) c k) g' L A'.
Proof.
  intros Hm Hrun. pose proof (si_pok _ _ _ _ Hm c) as Hpk. rewrite Hrun in Hpk.
  destruct Hpk as (Hin & Hown & Hr & P' & HPs & HPP & Hk).
  specialize (Hown _ _ (si_A _ _ _ _ Hm c)).
  set (g1 := g_ctx i true g).
  assert (∀ o held P, plock i ∉ held → o ≠ msp m c → stable o held P → P (mk m) g → P (mk m) g1) as Henv.
  { intros o held P Hi Ho HP HPg. eapply HP; [apply env_g_ctx|done]; rewrite ?Hown; congruence. }
  exists g1, (<[c := P']> A). split; simpl; try apply Hm.
  - intros c'. destruct (decide (c' = c)) as [->|Hc].
    { rewrite fn_lookup_insert. apply HPP, Hm. }
    rewrite fn_lookup_insert_ne by done.
    eapply Henv; [by eapply lock_elsewhere|by eapply si_other|apply Hm..].
  - intros c'. destruct (decide (c' = c)) as [->|Hc]; [by rewrite fn_lookup_insert|].
    rewrite fn_lookup_insert_ne by done. apply Hm.
  - intros c'. destruct (decide (c' = c)) as [->|Hc]; [by rewrite !fn_lookup_insert|].
    rewrite !fn_lookup_insert_ne by done. apply Hm.
  - intros lk Hlk. assert (lk ≠ plock i).
    { intros ->. by apply (cpu_at_free _ _ _ _ (si_cpu _ _ _ _ Hm c)) in Hlk. }
    apply linv_g_ctx; [done|]. by apply (si_free _ _ _ _ Hm).
  - intros j. destruct (decide (j = i)) as [->|Hi].
    { rewrite !fn_lookup_insert. intros _ _. exists (λ _ _, True).
      split_and!; [by intros ????|done|]. eapply pok_mono; [|done]. by intros s' g' [_ ?]. }
    rewrite !fn_lookup_insert_ne by done. intros Hx Hrj.
    destruct (si_ctx _ _ _ _ Hm j Hx Hrj) as (P1 & HPs1 & HP1 & Hk1).
    exists P1. split_and!; [done| |done]. eapply Henv; [by intros ?%elem_of_nil| |done..].
    intros Heq. pose proof (si_thread _ _ _ _ Hm c) as Ht. rewrite <- Heq in Ht.
    destruct Ht as (_ & Ht & _). congruence.
Qed.

(** *** Every step *)

Context (Hloop : ∀ l t held P (k : Z → prog E), loop_pre l t held P → stable t held P →
  (l ≠ Scheduler → ∀ a, pok t [] (λ _ _, True) (k a)) → pok t held P (loop_body l k)).
Context (Huser : ∀ i sepc x, pok (PStack i) [] (λ _ _, True) (usertrap sepc x (λ _, User))).
Context (Hintr : ∀ t P x r, x ≠ Exception → stable t [] P → pok t [] P r →
  pok t [] P (kerneltrap x (λ _, r))).

(** The trap entry of the hardware. *)
Lemma sys_inv_trap m g L A c r :
  sys_inv m g L A → L c = [] → pok (msp m c) [] (A c) r →
  ∃ L' A', sys_inv (runs_on (with_mk (trap_entry c (mk m)) m) c r) g L' A'.
Proof using Type.
  intros Hm HL Hr. eexists _, _. eapply (sys_inv_acts m g L A c []); [done|..].
  - destruct (upd_cpu_same c (L c) (mkcpu (noff (cpus (ksmp (mk m)) !!! c))
      (intena (cpus (ksmp (mk m)) !!! c)) false) (ksmp (mk m))) as (H1 & H2 & H3);
      [apply Hm|apply Hm|done|done|]. rewrite HL in H1.
    split; try done; [apply guar_smp| |].
    + intros lk Hlk. apply linv_smp, (si_free _ _ _ _ Hm), Hlk.
    + pose proof (si_thread _ _ _ _ Hm c) as Ht. by rewrite HL in Ht.
  - pose proof (si_stable _ _ _ _ Hm c) as Hs. eapply Hs; [apply env_smp|apply Hm].
  - rewrite <- HL. apply Hm.
  - done.
Qed.

Lemma sys_inv_step m m' :
  mstep m m' → (∃ g L A, sys_inv m g L A) → ∃ g L A, sys_inv m' g L A.
Proof using All.
  intros Hstep (g & L & A & Hm).
  assert (∀ c, pok (msp m c) (L c) (A c) (mrun m c)) as Hpk by apply Hm.
  destruct Hstep as [m c B f k b s Hrun Hf|m c B f k b e Hrun Hf|m c i k Hrun|m c i k Hrun
    |m c i r k Hrun|m c l k Hrun|m c sepc x Hrun|m c x Hrun Hi Hx]; specialize (Hpk c).
  - rewrite Hrun in Hpk. specialize (Hpk c (mk m) g). rewrite Hf in Hpk.
    destruct Hpk as (held' & g' & P' & Hacts & HP' & Hst & Hk); [by split; apply Hm|].
    eexists _, _, _. by eapply sys_inv_acts.
  - rewrite Hrun in Hpk. exists g, L, A. apply sys_inv_runs; [|apply Hpk].
    destruct Hm. by split.
  - destruct (sys_inv_to_sched m g L A c i k Hm Hrun) as (? & ? & ?). eauto.
  - destruct (sys_inv_to_proc m g L A c i k Hm Hrun) as (? & ? & ?). eauto.
  - destruct (sys_inv_set_context m g L A c i r k Hm Hrun) as (? & ? & ?). eauto.
  - rewrite Hrun in Hpk. exists g, L, A. apply sys_inv_runs; [done|].
    destruct Hpk as [Hpre Hk]. apply Hloop; [done|apply Hm|done].
  - rewrite Hrun in Hpk. destruct Hpk as [HL [i Hsp]].
    destruct (sys_inv_trap m g L A c (usertrap sepc x (λ _, User)) Hm HL) as (? & ? & ?); [|eauto].
    rewrite Hsp. eapply pok_mono; [|apply Huser]. done.
  - assert (L c = []) as HL.
    { destruct (decide (L c = [])) as [|Hne]; [done|].
      pose proof (ca_intr _ _ _ (si_cpu _ _ _ _ Hm c) Hne). unfold intr_of in Hi. congruence. }
    destruct (sys_inv_trap m g L A c (kerneltrap x (λ _, mrun m c)) Hm HL) as (? & ? & ?); [|eauto].
    apply Hintr; [done|rewrite <- HL; apply Hm|by rewrite <- HL].
Qed.
End sound.
