(* ===== verification/ProcRules.v ===== *)
(** * Rules for the primitives of proc.c

    Changes to one process, stability of the facts threads rely on, and the
    rules for the accessors, [myproc], [sched], [wakeup] and the other functions
    that frame what the caller knows. *)
From stdpp Require Import functions list gmap.
From S2P Require Import Prelude Param Spinlock Proc ProcLogic.

#[local] Open Scope Z_scope.

(** ** Changing one process *)

Lemma st_of_set s i f j : st_of (set_proc i f s) j = if decide (j = i) then pstate (f (procs s i)) else st_of s j.
Proof. unfold st_of, set_proc. simpl. by destruct (decide (j = i)) as [->|]; rewrite ?fn_lookup_insert, ?fn_lookup_insert_ne. Qed.
Lemma chan_of_set s i f j : chan_of (set_proc i f s) j = if decide (j = i) then pchan (f (procs s i)) else chan_of s j.
Proof. unfold chan_of, set_proc. simpl. by destruct (decide (j = i)) as [->|]; rewrite ?fn_lookup_insert, ?fn_lookup_insert_ne. Qed.
Lemma parent_of_set s i f j : parent_of (set_proc i f s) j = if decide (j = i) then pparent (f (procs s i)) else parent_of s j.
Proof. unfold parent_of, set_proc. simpl. by destruct (decide (j = i)) as [->|]; rewrite ?fn_lookup_insert, ?fn_lookup_insert_ne. Qed.

(** The ghost state of one process. *)
Definition g_at (i : nat) (o : option stack) (b x : bool) (g : ghost) : ghost :=
  mkg (<[i := o]> (gown g)) (<[i := b]> (gcommit g)) (<[i := x]> (gctx g)) (grun g).

(** Only process [i] changes. *)
Record only (i : nat) (s : kst) (g : ghost) (s' : kst) (g' : ghost) : Prop := {
  on_same j : j ≠ i → same_proc j s g s' g' ∧ parent_of s' j = parent_of s j;
  on_run j : grun g' j = grun g j;
  on_ctx : gctx g' i = true → gctx g i = true;
  on_init : initproc s' = initproc s;
  on_cproc : cproc s' = cproc s;
}.

Lemma only_set i f s g : only i s g (set_proc i f s) g.
Proof.
  split; try done. intros j Hj.
  split; [split; try done|]; rewrite ?st_of_set, ?chan_of_set, ?parent_of_set; by destruct (decide (j = i)).
Qed.

Lemma only_set_at i f s g o b x :
  (x = true → gctx g i = true) → only i s g (set_proc i f s) (g_at i o b x g).
Proof.
  intros Hx. split; try done; simpl; [|by rewrite fn_lookup_insert]. intros j Hj.
  split; [split|]; simpl; rewrite ?st_of_set, ?chan_of_set, ?parent_of_set, ?fn_lookup_insert_ne by done;
    by destruct (decide (j = i)).
Qed.

Lemma only_at i s g o b x : (x = true → gctx g i = true) → only i s g s (g_at i o b x g).
Proof.
  intros Hx. split; try done; simpl; [|by rewrite fn_lookup_insert]. intros j Hj.
  split; [split|]; simpl; by rewrite ?fn_lookup_insert_ne.
Qed.

(** The change keeps [wait_quiet]. *)
Record quiet_at (i : nat) (s : kst) (g : ghost) (s' : kst) (g' : ghost) : Prop := {
  qa_zombie : st_of s' i = ZOMBIE → st_of s i = ZOMBIE;
  qa_commit : gcommit g' i = true → gcommit g i = true;
  qa_parent : parent_of s' i = parent_of s i ∨ parent_of s' i = None;
}.

Lemma only_wait_quiet i s g s' g' : only i s g s' g' → quiet_at i s g s' g' → wait_quiet s g s' g'.
Proof.
  intros [Hs _ _ _ _] [Hz Hc Hp].
  split; intros j; (destruct (decide (j = i)) as [->|Hj]; [done|]); destruct (Hs j Hj) as [[] ?];
    [congruence|congruence|by left].
Qed.

Lemma quiet_set i f s g g' :
  (pstate (f (procs s i)) = ZOMBIE → st_of s i = ZOMBIE) →
  pparent (f (procs s i)) = parent_of s i ∨ pparent (f (procs s i)) = None →
  (gcommit g' i = true → gcommit g i = true) → quiet_at i s g (set_proc i f s) g'.
Proof. intros H1 H2 H3. split; rewrite ?st_of_set, ?parent_of_set, ?decide_True by done; done. Qed.

Lemma guar_only t held i s g s' g' :
  only i s g s' g' → plock i ∈ held → (∀ o, gown g i = Some o → o = t) →
  (gcommit g' i = true → gcommit g i = true ∨ t = PStack i) →
  (wait_lock ∉ held → quiet_at i s g s' g') → guar t held s g s' g'.
Proof.
  intros Ho Hi Hown Hc Hw. pose proof Ho as [Hs Hr Hx Hin Hcp].
  assert (∀ j, plock j ∉ held → j ≠ i) as Hne by (intros j Hj ->; done).
  split.
  - intros j Hj. by apply Hs, Hne.
  - intros j o Hj Hot. destruct (decide (j = i)) as [->|Hji]; [by apply Hown in Hj|].
    destruct (Hs j Hji) as [[] _]. split_and!; congruence.
  - done.
  - intros j. destruct (decide (j = i)) as [->|Hji]; [done|]. destruct (Hs j Hji) as [[] _]. congruence.
  - intros j. destruct (decide (j = i)) as [->|Hji]; [done|]. destruct (Hs j Hji) as [[] _].
    intros. left. congruence.
  - intros Hw'. by eapply only_wait_quiet; [|apply Hw].
  - by rewrite Hin.
  - by rewrite Hcp.
  - done.
Qed.

Lemma env_only o held i s g s' g' :
  only i s g s' g' → plock i ∉ held → gown g i ≠ Some o →
  (wait_lock ∈ held → quiet_at i s g s' g') → env o held s g s' g'.
Proof.
  intros Ho Hi Hown Hw. pose proof Ho as [Hs Hr Hx Hin Hcp].
  split.
  - intros j Hj. apply Hs. by intros ->.
  - intros j Hj. assert (j ≠ i) as Hji by by intros ->.
    destruct (Hs j Hji) as [[] _]. rewrite Hr. split_and!; congruence.
  - intros Hw'. by eapply only_wait_quiet; [|apply Hw].
  - by rewrite Hin.
  - by rewrite Hcp.
  - done.
Qed.

(** Fields nobody else relies on. *)
Definition mild (f : proc → proc) : Prop :=
  ∀ p, pstate (f p) = pstate p ∧ pchan (f p) = pchan p ∧ pparent (f p) = pparent p.

Lemma mild_same i f s g j : mild f → same_proc j s g (set_proc i f s) g ∧ parent_of (set_proc i f s) j = parent_of s j.
Proof.
  intros Hf. destruct (Hf (procs s i)) as (H1 & H2 & H3).
  split; [split; try done|]; rewrite ?st_of_set, ?chan_of_set, ?parent_of_set; by destruct (decide (j = i)) as [->|].
Qed.

Lemma mild_wait i f s g : mild f → wait_quiet s g (set_proc i f s) g.
Proof.
  intros Hf. split; intros j; destruct (mild_same i f s g j Hf) as [[] ?]; [congruence|done|by left].
Qed.

Lemma mild_env i f o held s g : mild f → env o held s g (set_proc i f s) g.
Proof.
  intros Hf. split; try done.
  - intros j _. by apply mild_same.
  - intros j Hj. by destruct (mild_same i f s g j Hf) as [[] _].
  - intros _. by apply mild_wait.
Qed.

Lemma mild_guar i f t held s g : mild f → guar t held s g (set_proc i f s) g.
Proof.
  intros Hf. split; try done; auto.
  - intros j _. by apply mild_same.
  - intros j o Hj _. by destruct (mild_same i f s g j Hf) as [[] _].
  - intros _. by apply mild_wait.
Qed.

(** The parent pointer, under [wait_lock]. *)
Lemma guar_parent t held s g j p :
  wait_lock ∈ held → guar t held s g (set_proc j (set_pparent p) s) g.
Proof.
  intros Hw. assert (∀ j', same_proc j' s g (set_proc j (set_pparent p) s) g) as Hs.
  { intros j'. split; try done; rewrite ?st_of_set, ?chan_of_set; by destruct (decide (j' = j)) as [->|]. }
  split; try done; auto. intros j' o Hj _. by destruct (Hs j').
Qed.

(** ** Locks and their invariants *)

#[global] Instance plock_inj : Inj (=) (=) plock.
Proof. intros i j. apply Nat2Z.inj. Qed.

Lemma plock_wait i : plock i ≠ wait_lock.
Proof. unfold plock, wait_lock. lia. Qed.
Lemma plock_pid i : plock i ≠ pid_lock.
Proof. unfold plock, pid_lock. lia. Qed.
Lemma plock_ticks i : plock i ≠ tickslock.
Proof. unfold plock, tickslock. lia. Qed.
Lemma plock_other i n : plock i ≠ other_lock n.
Proof. unfold plock, other_lock. lia. Qed.
Lemma wait_other n : wait_lock ≠ other_lock n.
Proof. unfold wait_lock, other_lock. lia. Qed.

Lemma linv_plock i s g : linv (plock i) s g ↔ proc_inv i s g.
Proof.
  split; [intros [Hp _]; by apply Hp|]. intros Hp. split.
  - by intros j ->%(inj plock).
  - intros Hw. by apply plock_wait in Hw.
Qed.
Lemma linv_wait s g : linv wait_lock s g ↔ wait_inv None s g.
Proof.
  split; [intros [_ Hw]; by apply Hw|]. intros Hp. split; [|done].
  intros j Hw. symmetry in Hw. by apply plock_wait in Hw.
Qed.
Lemma linv_other lk s g : (∀ j, lk ≠ plock j) → lk ≠ wait_lock → linv lk s g.
Proof. intros Hp Hw. split; [|done]. intros j Hj. by apply Hp in Hj. Qed.

(** A running process that holds its lock. *)
Lemma running_resumed i c held s g : thread_on (PStack i) c held s g → proc_inv i s g → resumed i s g.
Proof.
  intros (_ & Hr & _) [Hi Hc Ho _]. apply Hi in Hr. split; [done|..].
  - apply not_true_is_false. rewrite Hc, Hr. by intros [].
  - destruct (gown g i); [|done]. rewrite Hr in Ho. by discriminate Ho.
Qed.

Lemma resumed_inv i c held s g : thread_on (PStack i) c held s g → resumed i s g → proc_inv i s g.
Proof.
  intros (_ & Hr & _) [Hs Hc Ho]. split; rewrite ?Hs, ?Hc, ?Ho, ?Hr; try done; naive_solver.
Qed.

(** ** Stability *)

(** A scheduler without a process. *)
Definition idle (t : stack) : assertion := λ s _, ∀ c, t = CStack c → cproc s !! c = None.

Lemma stable_idle t held : stable t held (idle t).
Proof. intros s g s' g' He H c Hc. rewrite (ev_cproc _ _ _ _ _ _ He); auto. Qed.

Lemma stable_cproc c held x : stable (CStack c) held (λ s _, cproc s !! c = x).
Proof. intros s g s' g' He. by rewrite (ev_cproc _ _ _ _ _ _ He). Qed.

(** Thread [o] is making process [np], whose context is ready if [x]. *)
Definition making (o : stack) (np : nat) (x : bool) : assertion := λ s g,
  gown g np = Some o ∧ st_of s np = USED ∧ grun g np = false ∧ (x = true → gctx g np = true).

Lemma stable_making o held np x : stable o held (making o np x).
Proof.
  intros s g s' g' He (Ho & Hs & Hr & Hx). destruct (ev_own _ _ _ _ _ _ He np Ho) as (? & ? & ? & ?).
  split_and!; try congruence. intros ->. rewrite H1. auto.
Qed.

Lemma stable_wait_inv o held x : wait_lock ∈ held → stable o held (wait_inv x).
Proof. intros Hw s g s' g' He. eapply wait_quiet_inv, (ev_wait _ _ _ _ _ _ He Hw). Qed.

Lemma stable_not_commit o held p : wait_lock ∈ held → stable o held (λ _ g, gcommit g p = false).
Proof.
  intros Hw s g s' g' He Hp. apply not_true_is_false.
  intros Hc%(wq_commit _ _ _ _ (ev_wait _ _ _ _ _ _ He Hw)). congruence.
Qed.

Lemma stable_parent o held q x :
  wait_lock ∈ held → stable o held (λ s _, parent_of s q = x ∨ parent_of s q = None).
Proof.
  intros Hw s g s' g' He. destruct (wq_parent _ _ _ _ (ev_wait _ _ _ _ _ _ He Hw) q) as [->| ->]; auto.
Qed.

Lemma stable_init o held x : stable o held (λ s _, initproc s = Some x).
Proof. intros s g s' g' He. apply (ev_init _ _ _ _ _ _ He). Qed.

Lemma stable_true o held : stable o held (λ _ _, True).
Proof. apply stable_pure. Qed.

Lemma stable_st o held i st : plock i ∈ held → stable o held (λ s _, st_of s i = st).
Proof. intros Hi s g s' g' He. by destruct (ev_lock _ _ _ _ _ _ He i Hi) as [-> _ _ _ _ _]. Qed.
Lemma stable_chan o held i ch : plock i ∈ held → stable o held (λ s _, chan_of s i = ch).
Proof. intros Hi s g s' g' He. by destruct (ev_lock _ _ _ _ _ _ He i Hi) as [_ -> _ _ _ _]. Qed.
Lemma stable_own o held i x : plock i ∈ held → stable o held (λ _ g, gown g i = x).
Proof. intros Hi s g s' g' He. by destruct (ev_lock _ _ _ _ _ _ He i Hi) as [_ _ -> _ _ _]. Qed.
Lemma stable_commit o held i b : plock i ∈ held → stable o held (λ _ g, gcommit g i = b).
Proof. intros Hi s g s' g' He. by destruct (ev_lock _ _ _ _ _ _ He i Hi) as [_ _ _ -> _ _]. Qed.
Lemma stable_gctx o held i b : plock i ∈ held → stable o held (λ _ g, gctx g i = b).
Proof. intros Hi s g s' g' He. by destruct (ev_lock _ _ _ _ _ _ He i Hi) as [_ _ _ _ -> _]. Qed.
Lemma stable_grun o held i b : plock i ∈ held → stable o held (λ _ g, grun g i = b).
Proof. intros Hi s g s' g' He. by destruct (ev_lock _ _ _ _ _ _ He i Hi) as [_ _ _ _ _ ->]. Qed.
Lemma stable_leaving o held i : plock i ∈ held → stable o held (leaving i).
Proof.
  intros Hi s g s' g' He [H1 H2 H3]. destruct (ev_lock _ _ _ _ _ _ He i Hi) as [? ? ? ? ? ?].
  split; congruence.
Qed.

Create HintDb kstable.
#[export] Hint Resolve stable_idle stable_cproc stable_and stable_true stable_making stable_wait_inv stable_not_commit
  stable_parent stable_init stable_proc_inv stable_resumed stable_linv stable_pure
  stable_st stable_chan stable_own stable_commit stable_gctx stable_grun stable_leaving
  list_elem_of_here list_elem_of_further : kstable.
#[export] Hint Resolve stable_nil | 5 : kstable.
Ltac kst := solve [eauto 10 with kstable].

(** ** Rules *)

Section rules.
Context {E : Type}.
Abbreviation K := (K E).

Lemma bindK {A B} (m : K A) (f : A → K B) k : (m ≫= f) k = m (λ a, f a k).
Proof. done. Qed.
Lemma retK {A} (a : A) (k : A → prog E) : (mret a : K A) k = k a.
Proof. done. Qed.

Lemma pok_svc {B : Set} t held P (f : M E B) (k : B → prog E) :
  (∀ b, pok t held P (k b)) → pok t held P (svc f k).
Proof. done. Qed.

Lemma pok_getp {B : Set} t held P i (f : proc → B) (k : B → prog E) :
  stable t held P → (∀ b, pok t held P (k b)) → pok t held P (getp i f k).
Proof. apply pok_read. Qed.

Lemma pok_setp_mild t held P i f (k : unit → prog E) :
  mild f → stable t held P → pok t held P (k ()) → pok t held P (setp i f k).
Proof.
  intros Hf Hst Hk. eapply pok_modify; [done| |exact Hst|exact Hk].
  intros c s g _ HP. exists g. split; [by apply mild_guar|]. eapply Hst; [by apply mild_env|done].
Qed.

(** A change to the fields of process [i] that [plock i] protects. *)
Lemma pok_setp t held P (P' : assertion) i f (k : unit → prog E) :
  (∀ c s g, thread_on t c held s g → P s g →
     ∃ g', guar t held s g (set_proc i f s) g' ∧ P' (set_proc i f s) g') →
  stable t held P' → pok t held P' (k ()) → pok t held P (setp i f k).
Proof. intros. by eapply pok_modify. Qed.

Lemma pok_intr_on t P (k : unit → prog E) :
  stable t [] P → pok t [] P (k ()) → pok t [] P (intr_on k).
Proof.
  intros Hst Hk. apply pok_cpu; [|done|by intros []]. intros c σ Hc.
  exists (), (mkcpu (noff (cpus σ !!! c)) (intena (cpus σ !!! c)) true). done.
Qed.
Lemma pok_intr_off t held P (k : unit → prog E) :
  stable t held P → pok t held P (k ()) → pok t held P (intr_off k).
Proof.
  intros Hst Hk. apply pok_cpu; [|done|by intros []]. intros c σ Hc.
  exists (), (mkcpu (noff (cpus σ !!! c)) (intena (cpus σ !!! c)) false). done.
Qed.
Lemma pok_intena_set t held P b (k : unit → prog E) :
  stable t held P → pok t held P (k ()) → pok t held P (intena_set b k).
Proof.
  intros Hst Hk. apply pok_cpu; [|done|by intros []]. intros c σ Hc.
  exists (), (mkcpu (noff (cpus σ !!! c)) b (intr (cpus σ !!! c))).
  split_and!; [done..|]. apply Hc.
Qed.

(** What a thread knows of its CPU. *)
Lemma pok_learn {B : Set} t held P Q (f : nat → M kst B) (k : B → prog E) :
  (∀ c s g, thread_on t c held s g → P s g → Q s g) →
  pok t held Q (Act f k) → pok t held P (Act f k).
Proof. intros HQ H c s g [? ? ? ? ?]. apply H. split; eauto. Qed.

(** Actions that only look. *)
Lemma pok_look {B : Set} t held P (f : nat → M kst B) (k : B → prog E) :
  (∀ c s g, sees t c held P s g → ∃ b, f c s = Ok b s) →
  stable t held P → (∀ b, pok t held P (k b)) → pok t held P (act f k).
Proof.
  intros Hf Hst Hk c s g Hs. destruct (Hf c s g Hs) as [b Hb]. rewrite Hb. destruct Hs.
  exists held, g, P. split_and!; [|done..]. split; try done. apply guar_refl.
Qed.

Lemma pok_intena_get t held P (k : bool → prog E) :
  stable t held P → (∀ b, pok t held P (k b)) → pok t held P (intena_get k).
Proof. apply pok_look. intros c s g _. unfold zoom, gets. eexists. by destruct s. Qed.

Lemma pok_cpuid t held P (k : nat → prog E) :
  stable t held P → (∀ c, pok t held P (k c)) → pok t held P (cpuid k).
Proof. apply pok_look. intros c s g _. by exists c. Qed.

(** [push_off] and [pop_off] around a read. *)
Lemma myproc_run c held s :
  cpu_at c held (ksmp s) →
  ∃ x, (zoom ksmp set_smp (push_off c);; p ← gets (λ s, cproc s !! c);
        zoom ksmp set_smp (pop_off c);; mret p) s =
       Ok (cproc s !! c) (set_smp (upd_cpu c x (ksmp s)) s) ∧
       noff x = noff (cpus (ksmp s) !!! c) ∧ (held ≠ [] → intr x = false).
Proof.
  intros [_ _ Hn Hi]. eexists. erewrite bind_ok.
  2: { unfold zoom. by rewrite push_off_run. }
  unfold mbind, M_bind, gets, zoom. simpl. rewrite pop_off_run.
  - unfold upd_cpu. simpl. rewrite lookup_total_insert_eq, insert_insert_eq.
    unfold mret, M_ret. split_and!; [reflexivity|simpl; lia|].
    intros Hh. simpl. rewrite Hn. destruct held; [done|]. simpl length.
    by destruct (Z.eqb_spec (Z.of_nat (S (length held)) + 1 - 1) 0); [lia|].
  - simpl. by rewrite lookup_total_insert_eq.
  - simpl. rewrite lookup_total_insert_eq. simpl. lia.
Qed.

Lemma pok_myproc t held P (Q : option nat → assertion) (k : option nat → prog E) :
  (∀ c s g, thread_on t c held s g → P s g → Q (cproc s !! c) s g ∧
     stable t held (Q (cproc s !! c)) ∧ pok t held (Q (cproc s !! c)) (k (cproc s !! c))) →
  pok t held P (myproc k).
Proof.
  intros HQ c s g [Hcpu Hsmp Hth Hfree HP].
  destruct (myproc_run c held s Hcpu) as (x & -> & Hx & Hi).
  destruct (HQ c s g Hth HP) as (HQs & Hst & Hk).
  destruct (upd_cpu_same c held x (ksmp s)) as (H1 & H2 & H3); [done..|].
  exists held, g, (Q (cproc s !! c)). split_and!; [|by eapply Hst; [apply env_smp|]|done|done].
  split; try done; [apply guar_smp|]. intros lk Hlk. by apply linv_smp, Hfree.
Qed.

Lemma pok_curproc i held P (k : nat → prog E) :
  stable (PStack i) held P → pok (PStack i) held P (k i) → pok (PStack i) held P (curproc k).
Proof.
  intros Hst Hk. unfold curproc. rewrite bindK. apply (pok_myproc _ _ _ (λ _, P)).
  intros c s g (-> & _) HP. done.
Qed.

(** *** Giving up the CPU *)

Lemma pok_sched_checks i P (k : unit → prog E) :
  stable (PStack i) [plock i] P → (∀ s g, P s g → st_of s i ≠ RUNNING) →
  pok (PStack i) [plock i] P (k ()) → pok (PStack i) [plock i] P (sched_checks i k).
Proof.
  intros Hst Hrun Hk. apply pok_look; [|done|by intros []].
  intros c s g [Hcpu Hsmp Hth Hfree HP]. exists ().
  assert (lcpu (locks (ksmp s) !!! plock i) = Some c) as Hl by (apply (ca_lcpu _ _ _ Hcpu); by left).
  assert (locked (locks (ksmp s) !!! plock i) = true) as Hl' by (apply Hsmp; by rewrite Hl).
  unfold zoom, holding, intr_get, gets, mbind, M_bind, mret, M_ret. rewrite Hl', bool_decide_true by done.
  simpl. rewrite (ca_noff _ _ _ Hcpu). simpl.
  rewrite bool_decide_false by by apply (Hrun s g). simpl.
  rewrite (ca_intr _ _ _ Hcpu) by done. by destruct s.
Qed.

Lemma pok_sched i P (k : unit → prog E) :
  stable (PStack i) [plock i] P → (∀ s g, P s g → leaving i s g) →
  ((∀ s g, P s g → st_of s i = ZOMBIE) ∨
   ∃ P', stable (PStack i) [] P' ∧ (∀ s g, P s g → P' s g) ∧
         pok (PStack i) [plock i] (λ s g, P' s g ∧ resumed i s g) (k ())) →
  pok (PStack i) [plock i] P (sched k).
Proof.
  intros Hst Hlv Hk. unfold sched. rewrite bindK. apply pok_curproc; [done|].
  rewrite bindK. apply pok_sched_checks; [done|by intros s g []%Hlv|].
  rewrite bindK. apply pok_intena_get; [done|]. intros b.
  split_and!; [done..|]. destruct Hk as [Hz|(P' & Hs' & HP' & Hk)]; [by left|right].
  exists P'. split_and!; [done..|]. apply pok_intena_set; [|done].
  apply stable_and; [by apply stable_nil|]. apply stable_resumed. by left.
Qed.

(** The first lock a thread takes. *)
Lemma pok_acquire_first t P lk (k : unit → prog E) :
  stable t [] P →
  pok t [lk] (λ s g, (P s g ∧ idle t s g) ∧ linv lk s g) (k ()) → pok t [] P (acquire lk k).
Proof.
  intros HP Hk. apply (pok_learn _ _ _ (λ s g, P s g ∧ idle t s g)).
  - intros c s g Hth HPs. split; [done|]. intros c' ->. destruct Hth as [-> Hc]. by apply Hc.
  - apply (pok_acquire t [] (λ s g, P s g ∧ idle t s g)); [by intros ?%elem_of_nil| |done].
    apply stable_and; [done|apply stable_idle].
Qed.

(** The last one it releases. *)
Lemma pok_release_last t P lk (k : unit → prog E) :
  stable t [] P → pok t [] P (k ()) →
  pok t [lk] (λ s g, (P s g ∧ idle t s g) ∧ linv lk s g) (release lk k).
Proof.
  intros HP Hk. eapply (pok_release _ _ []); [done| |done|done]. intros c s g _ [[? Hi] ?].
  split_and!; [done..|]. intros c' Hc _. by apply Hi.
Qed.

(** Releasing one's own lock. *)
Lemma pok_release_own i P (k : unit → prog E) :
  stable (PStack i) [] P → pok (PStack i) [] P (k ()) →
  pok (PStack i) [plock i] (λ s g, P s g ∧ resumed i s g) (release (plock i) k).
Proof.
  intros Hst Hk. eapply pok_release; [done| |done|done].
  intros c s g Hth [HP Hr]. split_and!; [|done..]. apply linv_plock. by eapply resumed_inv.
Qed.

Lemma pok_yield i P (k : unit → prog E) :
  stable (PStack i) [] P → pok (PStack i) [] P (k ()) → pok (PStack i) [] P (yield k).
Proof.
  intros Hst Hk. unfold yield. rewrite bindK. apply pok_curproc; [done|].
  rewrite bindK. apply pok_acquire; [by intros ?%elem_of_nil|done|].
  rewrite bindK. set (P1 := λ s g, P s g ∧ leaving i s g).
  assert (stable (PStack i) [plock i] P1) as HP1 by (unfold P1; eauto with kstable).
  apply (pok_setp _ _ _ P1); [|done|].
  - intros c s g Hth [HP Hi%linv_plock]. destruct (running_resumed _ _ _ _ _ Hth Hi) as [H1 H2 H3].
    exists g. split; [|split].
    + apply (guar_only _ _ i); [apply only_set|by left|by rewrite H3|by left|].
      intros _. apply quiet_set; [done|by left|done].
    + eapply Hst; [|done]. apply (env_only _ _ i); [apply only_set|by intros ?%elem_of_nil|by rewrite H3|].
      by intros ?%elem_of_nil.
    + split; rewrite ?st_of_set, ?decide_True by done; [done| |done]. rewrite H2. naive_solver.
  - rewrite bindK. apply pok_sched; [done|by intros s g []|].
    right. exists P. split_and!; [done|by intros s g []|]. by apply pok_release_own.
Qed.

(** *** Loops *)

(** A loop whose iteration [j] establishes [W j] and keeps what the caller
    knows. *)
Lemma pok_foreach t held (W : nat → assertion) l (body : nat → K unit) P (k : unit → prog E) :
  (∀ j P k, j ∈ l → stable t held P → pok t held (λ s g, P s g ∧ W j s g) (k ()) → pok t held P (body j k)) →
  (∀ j, stable t held (W j)) → stable t held P →
  pok t held (λ s g, P s g ∧ ∀ j, j ∈ l → W j s g) (k ()) → pok t held P (foreach l body k).
Proof.
  intros Hb HW. induction l as [|j l IH] in P, Hb |- *; intros HP Hk; simpl.
  - rewrite retK. eapply pok_mono; [|done]. intros s g H. split; [done|]. by intros j ?%elem_of_nil.
  - rewrite bindK. apply Hb; [by left|done|]. apply IH.
    + intros j' P' k' Hj'. apply Hb. by right.
    + by apply stable_and.
    + eapply pok_mono; [|done]. intros s g [[HPs HWs] Hl]. split; [done|]. intros j' [->|?]%elem_of_cons; auto.
Qed.

(** A loop that keeps what the caller knows. *)
Lemma pok_foreach_frame t held l (body : nat → K unit) P (k : unit → prog E) :
  stable t held P →
  (∀ j k, j ∈ l → pok t held P (k ()) → pok t held P (body j k)) →
  pok t held P (k ()) → pok t held P (foreach l body k).
Proof.
  intros Hst Hb. induction l as [|j l IH] in Hb |- *; intros Hk; simpl; [done|].
  rewrite bindK. apply Hb; [by left|]. apply IH; [|done]. intros j' k' ?. apply Hb. by right.
Qed.

(** *** Waking up *)

(** One sleeping process becomes runnable. *)
Lemma wake_inv t held i s g (P : assertion) f :
  proc_inv i s g → st_of s i = SLEEPING → pstate (f (procs s i)) = RUNNABLE → pparent (f (procs s i)) = parent_of s i →
  let g' := g_at i (gown g i) false (gctx g i) g in
  (plock i ∈ held → guar t held s g (set_proc i f s) g') ∧
  proc_inv i (set_proc i f s) g' ∧ gcommit g' i = false ∧
  (plock i ∉ held → stable t held P → P s g → P (set_proc i f s) g').
Proof.
  intros [Hr Hc Ho Hx] Hst Hf Hp g'.
  assert (gown g i = None) as Hn.
  { destruct (gown g i); [|done]. rewrite Hst in Ho. by discriminate Ho. }
  assert (only i s g (set_proc i f s) g') as Hon by by apply only_set_at.
  assert (gcommit g' i = false) as Hg' by (simpl; by rewrite fn_lookup_insert).
  assert (quiet_at i s g (set_proc i f s) g') as Hq.
  { apply quiet_set; [by rewrite Hf|by left|by rewrite Hg']. }
  split_and!; [..|done|].
  - intros Hi. apply (guar_only _ _ i); [done..|by rewrite Hn|by rewrite Hg'|done].
  - split; rewrite ?st_of_set, ?decide_True, ?Hf, ?Hg' by done; simpl; rewrite ?fn_lookup_insert.
    + rewrite Hst in Hr. naive_solver.
    + naive_solver.
    + by rewrite Hn.
    + intros _. apply Hx. by left.
  - intros Hi HP HPs. eapply HP; [|done]. by apply (env_only _ _ i); [..|rewrite Hn|].
Qed.

(** After [wakeup], no process that [wait_lock] keeps from committing itself
    sleeps on the channel. *)
Definition woken (t : stack) (held : list Z) (ch : channel) (j : nat) : assertion := λ s g,
  ∀ i, t = PStack i → wait_lock ∈ held → ch = AtProc j → gcommit g j = false.

Lemma stable_woken t held ch j : stable t held (woken t held ch j).
Proof.
  intros s g s' g' He H i Ht Hw Hch. eapply stable_not_commit; [done|done|]. by eapply H.
Qed.

Lemma pok_wakeup t held P ch (k : unit → prog E) :
  held ≠ [] → (∀ j, plock j ∉ held) → stable t held P →
  pok t held (λ s g, P s g ∧ ∀ j, j ∈ all_procs → woken t held ch j s g) (k ()) →
  pok t held P (wakeup ch k).
Proof.
  intros Hne Hh HP Hk. unfold wakeup. apply (pok_foreach _ _ (woken t held ch)); [|apply stable_woken|done|done].
  clear P HP k Hk. intros j P k _ HP Hk. rewrite bindK.
  apply (pok_myproc _ _ _ (λ p s g, P s g ∧ (p = Some j → woken t held ch j s g))).
  intros c s0 g0 Hth HPs. split_and!; [done| | |].
  - intros Hc i -> Hw _. destruct Hth as (Hci & _ & Hcm). rewrite Hci in Hc. injection Hc as ->. by apply Hcm.
  - apply stable_and; [done|]. apply stable_impl. intros _. apply stable_woken.
  - generalize (cproc s0 !! c). clear s0 g0 Hth HPs c. intros p. destruct (decide (p = Some j)) as [->|Hp].
    { rewrite retK. eapply pok_mono; [|done]. intros s g []. auto. }
    rewrite bindK. apply pok_acquire; [apply Hh|by apply stable_and, stable_impl; intros; [..|apply stable_woken]|].
    set (P1 := λ s g, (P s g ∧ woken t held ch j s g) ∧ proc_inv j s g).
    assert (stable t (plock j :: held) P1) as HP1.
    { unfold P1. apply stable_and; [|eauto with kstable]. apply stable_cons, stable_and; [done|apply stable_woken]. }
    rewrite bindK. apply (pok_modify _ _ _ P1); [|..|done|].
    + intros s. by destruct (decide _).
    + intros c s g Hth [[HPs _] Hi%linv_plock]. destruct (decide _) as [[Hsl Hch]|Hn].
      * destruct (wake_inv t held j s g P (set_pstate RUNNABLE)) as (_ & H2 & H3 & H4); [done..|].
        destruct (wake_inv t (plock j :: held) j s g P (set_pstate RUNNABLE)) as (H1 & _); [done..|].
        eexists. split; [apply H1; by left|]. split_and!; [by apply H4|by intros ????|done].
      * exists g. split; [apply guar_refl|]. split_and!; [done| |done]. intros i _ _ ->.
        apply not_true_is_false. rewrite (pi_commit _ _ _ Hi). done.
    + eapply (pok_release _ _ held); [done| |apply stable_and; [exact HP|apply stable_woken]|done].
      intros c s g Hth [[? ?] ?]. by split_and!; [apply linv_plock|..].
Qed.
End rules.
