(* ===== verification/ProcSpec.v ===== *)
(** * The functions of proc.c, trap.c and sysproc.c are correct threads *)
From stdpp Require Import functions list gmap.
From S2P Require Import Prelude Param Spinlock Proc ProcLogic ProcSound ProcRules.

#[local] Open Scope Z_scope.

Section spec.
Context {E : Type} `{HS : Services E}.
Abbreviation K := (K E).

(** ** Code that keeps what its caller knows *)

Lemma pok_killed i held P p (k : bool → prog E) :
  plock p ∉ held → stable (PStack i) held P → (∀ b, pok (PStack i) held P (k b)) →
  pok (PStack i) held P (killed p k).
Proof.
  intros Hp HP Hk. unfold killed. rewrite bindK. apply pok_acquire; [done..|].
  assert (stable (PStack i) (plock p :: held) (λ s g, P s g ∧ linv (plock p) s g)) as HP1.
  { apply stable_and; [by apply stable_cons|kst]. }
  rewrite bindK. apply pok_getp; [done|]. intros b. rewrite bindK.
  eapply (pok_release _ _ held _ P); [done| |done|apply Hk]. by intros c s g _ [? ?].
Qed.

Lemma pok_setkilled i held P p (k : unit → prog E) :
  plock p ∉ held → stable (PStack i) held P → pok (PStack i) held P (k ()) →
  pok (PStack i) held P (setkilled p k).
Proof.
  intros Hp HP Hk. unfold setkilled. rewrite bindK. apply pok_acquire; [done..|].
  assert (stable (PStack i) (plock p :: held) (λ s g, P s g ∧ linv (plock p) s g)) as HP1.
  { apply stable_and; [by apply stable_cons|kst]. }
  rewrite bindK. apply pok_setp_mild; [by intros x|done|].
  eapply (pok_release _ _ held _ P); [done| |done|apply Hk]. by intros c s g _ [? ?].
Qed.

Lemma pok_allocpid t held P (k : Z → prog E) :
  held ≠ [] → pid_lock ∉ held → stable t held P → (∀ b, pok t held P (k b)) →
  pok t held P (allocpid k).
Proof.
  intros Hne Hp HP Hk. unfold allocpid. rewrite bindK. apply pok_acquire; [done..|].
  assert (stable t (pid_lock :: held) (λ s g, P s g ∧ linv pid_lock s g)) as HP1.
  { apply stable_and; [by apply stable_cons|kst]. }
  rewrite bindK. apply pok_read; [done|]. intros pid. rewrite bindK.
  eapply (pok_modify _ _ _ (λ s g, P s g ∧ linv pid_lock s g)); [done| |done|].
  - intros c s g _ HPs. exists g. split; [|eapply HP1; [|done]]; split; try done; auto; by split; auto.
  - rewrite bindK. eapply (pok_release _ _ held _ P); [done| |done|apply Hk]. by intros c s g _ [? ?].
Qed.

Lemma pok_usertrapret i P (k : unit → prog E) :
  stable (PStack i) [] P → pok (PStack i) [] P (k ()) → pok (PStack i) [] P (usertrapret k).
Proof.
  intros HP Hk. unfold usertrapret. rewrite bindK. apply pok_curproc; [done|].
  rewrite bindK. apply pok_intr_off; [done|].
  rewrite bindK. apply pok_getp; [done|]. intros tf.
  rewrite bindK. apply pok_getp; [done|]. intros ks.
  rewrite bindK. apply pok_svc. intros _.
  rewrite bindK. apply pok_cpuid; [done|]. intros c. by apply pok_svc; intros [].
Qed.

(** A process starts in [forkret], holding its lock. *)
Lemma pok_forkret i : pok (PStack i) [plock i] (resumed i) (forkret (λ _, User)).
Proof.
  assert (stable (PStack i) [] (λ _ _, True)) as HT by kst.
  unfold forkret. rewrite bindK. apply pok_curproc; [kst|].
  rewrite bindK. eapply pok_mono; [|apply (pok_release_own _ (λ _ _, True)); [done|]].
  { done. }
  rewrite bindK. apply pok_read; [done|]. intros b. rewrite bindK.
  assert (pok (PStack i) [] (λ _ _, True) (usertrapret (λ _, User))) as Hu.
  { apply pok_usertrapret; [done|]. split; [done|by exists i]. }
  destruct b; [|by rewrite retK]. rewrite bindK.
  eapply (pok_modify _ _ _ (λ _ _, True)); [done| |done|].
  - intros c s g _ _. exists g. split; [|done]. split; try done; auto; by split; auto.
  - by apply pok_svc; intros [].
Qed.

Lemma pok_clockintr t P (k : unit → prog E) :
  stable t [] P → pok t [] P (k ()) → pok t [] P (clockintr k).
Proof.
  intros HP Hk. unfold clockintr. rewrite bindK. apply pok_acquire_first; [done|].
  set (P1 := λ s g, (P s g ∧ idle t s g) ∧ linv tickslock s g).
  assert (stable t [tickslock] P1) as HP1 by (unfold P1; kst).
  rewrite bindK. eapply (pok_modify _ _ _ P1); [done| |done|].
  - intros c s g _ HPs. exists g. split; [|eapply HP1; [|done]]; split; try done; auto; by split; auto.
  - rewrite bindK. apply pok_wakeup; [done| |done|].
    + intros j [Hj|?%elem_of_nil]%elem_of_cons; [|done]. by apply plock_ticks in Hj.
    + eapply pok_mono; [|by apply pok_release_last]. by intros s g [? _].
Qed.

Lemma pok_signal t P lk a (k : Z → prog E) :
  stable t [] P → pok t [] P (k 0) → pok t [] P (signal lk a k).
Proof.
  intros HP Hk. unfold signal. rewrite bindK. apply pok_acquire_first; [done|].
  assert (stable t [other_lock lk] (λ s g, (P s g ∧ idle t s g) ∧ linv (other_lock lk) s g)) as HP1
    by kst.
  rewrite bindK. apply pok_wakeup; [done| |done|].
  - intros j [Hj|?%elem_of_nil]%elem_of_cons; [|done]. by apply plock_other in Hj.
  - rewrite bindK. eapply pok_mono; [|apply pok_release_last; [done|by rewrite retK]]. by intros s g [? _].
Qed.

Lemma pok_devintr t P x (k : Z → prog E) :
  stable t [] P → (∀ d, (x ≠ Exception → d ≠ 0) → pok t [] P (k d)) → pok t [] P (devintr x k).
Proof.
  intros HP Hk. unfold devintr. destruct x as [|lk a|].
  - rewrite bindK. apply pok_cpuid; [done|]. intros hart. rewrite bindK.
    destruct (hart =? 0)%nat; [apply pok_clockintr; [done|]|]; rewrite ?retK; by apply Hk.
  - rewrite bindK. apply pok_signal; [done|]. by apply Hk.
  - by apply Hk.
Qed.

(** An interrupt does not disturb the code it interrupts. *)
Lemma pok_kerneltrap t P x (r : prog E) :
  x ≠ Exception → stable t [] P → pok t [] P r → pok t [] P (kerneltrap x (λ _, r)).
Proof.
  intros Hx HP Hr. unfold kerneltrap. rewrite bindK. apply pok_devintr; [done|].
  intros d Hd. rewrite bindK. destruct (Z.eqb_spec d 0); [by apply Hd in Hx|]. rewrite retK, bindK.
  destruct (d =? 2); [|by rewrite retK; apply pok_intr_on].
  rewrite bindK. apply (pok_myproc _ _ _ (λ _, P)). intros c s g Hth HPs.
  split_and!; [done..|]. destruct t as [i|c'].
  - destruct Hth as (-> & _). rewrite bindK. apply pok_getp; [done|]. intros st.
    destruct (decide _); [apply pok_yield; [done|]|rewrite retK]; by apply pok_intr_on.
  - destruct Hth as [-> ->]; [|done]. rewrite retK. by apply pok_intr_on.
Qed.

(** ** Sleeping *)

(** Going to sleep on one's own address, which only [wait] does, is a
    commitment. *)
Definition commits (ch : channel) (i : nat) (g : ghost) : ghost :=
  if decide (ch = AtProc i) then g_at i (gown g i) true (gctx g i) g else g.

Lemma commits_guar lk ch i s g :
  (ch = AtProc i → lk = wait_lock) → gown g i = None →
  guar (PStack i) [plock i; lk] s g s (commits ch i g).
Proof.
  intros Hlk Ho. unfold commits. destruct (decide _) as [->|]; [|apply guar_refl].
  apply (guar_only _ _ i); [by apply only_at|by left|by rewrite Ho|by right|].
  rewrite Hlk by done. intros []. right. by left.
Qed.

Lemma commits_at ch i g :
  gcommit g i = false → gcommit (commits ch i g) i = bool_decide (ch = AtProc i) ∧
  gown (commits ch i g) i = gown g i.
Proof.
  intros Hc. unfold commits. case_bool_decide; rewrite ?decide_True, ?decide_False by done; [|done].
  simpl. by rewrite !fn_lookup_insert.
Qed.

(** A running process changes its channel or its state. *)
Lemma own_guar i f s g :
  gown g i = None → pparent (f (procs s i)) = parent_of s i → pstate (f (procs s i)) ≠ ZOMBIE →
  guar (PStack i) [plock i] s g (set_proc i f s) g.
Proof.
  intros Ho Hp Hz. apply (guar_only _ _ i); [apply only_set|by left|by rewrite Ho|by left|].
  intros _. apply quiet_set; [done|by left|done].
Qed.

Lemma pok_sleep i lk ch P (k : unit → prog E) :
  (∀ j, plock j ≠ lk) → (ch = AtProc i → lk = wait_lock) → stable (PStack i) [lk] P →
  (∀ s g, P s g → gcommit g i = false → linv lk s (commits ch i g)) →
  pok (PStack i) [lk] (linv lk) (k ()) → pok (PStack i) [lk] P (sleep ch lk k).
Proof.
  intros Hlk Hch HP Hinv Hk. unfold sleep. rewrite bindK. apply pok_curproc; [done|].
  rewrite bindK. apply pok_acquire; [|done|].
  { intros [Hj|?%elem_of_nil]%elem_of_cons; [by apply Hlk in Hj|done]. }
  rewrite bindK.
  set (P2 := λ s g, st_of s i = RUNNING ∧ gown g i = None ∧ gcommit g i = bool_decide (ch = AtProc i)).
  assert (stable (PStack i) [plock i] P2) as HP2 by (unfold P2; kst).
  apply (pok_release_ghost _ _ [plock i] _ P2); [apply Permutation_swap| |done|].
  { intros c s g Hth [HPs Hi%linv_plock]. destruct (running_resumed _ _ _ _ _ Hth Hi) as [H1 H2 H3].
    exists (commits ch i g). destruct (commits_at ch i g H2). split_and!; [by apply commits_guar|by apply Hinv| |done].
    split_and!; congruence. }
  rewrite bindK. set (P3 := λ s g, P2 s g ∧ chan_of s i = ch).
  assert (stable (PStack i) [plock i] P3) as HP3 by (unfold P3; kst).
  apply (pok_setp _ _ _ P3); [|done|].
  { intros c s g Hth (H1 & H2 & H3). exists g. split; [apply own_guar; [done..|change (st_of s i ≠ ZOMBIE); by rewrite H1]|].
    unfold P3, P2. rewrite ?st_of_set, ?chan_of_set, ?decide_True by done. done. }
  rewrite bindK. assert (stable (PStack i) [plock i] (leaving i)) as HP4 by kst.
  apply (pok_setp _ _ _ (leaving i)); [|done|].
  { intros c s g Hth ((H1 & H2 & H3) & H4). exists g. split; [by apply own_guar|].
    split; rewrite ?st_of_set, ?chan_of_set, ?decide_True by done; [done| |done].
    rewrite H3, bool_decide_eq_true, <- H4. simpl. naive_solver. }
  rewrite bindK. apply pok_sched; [done..|]. right. exists (λ _ _, True).
  split_and!; [kst|done|].
  rewrite bindK. apply (pok_setp _ _ _ (λ s g, True ∧ resumed i s g)); [|kst|].
  { intros c s g Hth [_ [H1 H2 H3]]. exists g. split; [apply own_guar; [done..|change (st_of s i ≠ ZOMBIE); by rewrite H1]|].
    split; [done|]. split; rewrite ?st_of_set, ?decide_True by done; done. }
  rewrite bindK. apply pok_release_own; [kst|].
  apply pok_acquire_first; [kst|]. eapply pok_mono; [|exact Hk]. by intros s g [_ ?].
Qed.

Lemma pok_block i lk a (k : Z → prog E) :
  pok (PStack i) [] (λ _ _, True) (k 0) → pok (PStack i) [] (λ _ _, True) (block lk a k).
Proof.
  intros Hk. unfold block. rewrite bindK. apply pok_acquire_first; [kst|].
  rewrite bindK. apply pok_sleep; [intros j; apply plock_other|done|kst| |].
  - intros s g _ _. apply linv_other; [intros j; apply not_eq_sym, plock_other|apply not_eq_sym, wait_other].
  - rewrite bindK. eapply pok_release; [done| |apply stable_true|done]. done.
Qed.

(** ** [kill] *)

Lemma pok_kill_from i pid l P (k : Z → prog E) :
  stable (PStack i) [] P → (∀ r, pok (PStack i) [] P (k r)) → pok (PStack i) [] P (kill_from pid l k).
Proof.
  intros HP Hk. induction l as [|p l IH]; [apply Hk|]. cbn [kill_from].
  rewrite bindK. apply pok_acquire; [by intros ?%elem_of_nil|done|].
  assert (stable (PStack i) [plock p] (λ s g, P s g ∧ linv (plock p) s g)) as HP1 by kst.
  rewrite bindK. apply pok_getp; [done|]. intros x. destruct (x =? pid).
  - rewrite bindK. apply (pok_setp _ _ _ (λ s g, P s g ∧ linv (plock p) s g)); [|done|].
    + intros c s g Hth [HPs Hi%linv_plock]. destruct (decide (st_of s p = SLEEPING)) as [Hsl|Hsl].
      * assert (pstate (kill_one (procs s p)) = RUNNABLE ∧ pparent (kill_one (procs s p)) = parent_of s p) as [Hf1 Hf2].
        { unfold kill_one. rewrite decide_True by done. done. }
        destruct (wake_inv (PStack i) [] p s g P kill_one) as (_ & H2 & H3 & H4); [done..|].
        destruct (wake_inv (PStack i) [plock p] p s g P kill_one) as (H1 & _); [done..|].
        eexists. split; [apply H1; by left|]. split; [|by apply linv_plock].
        apply H4; [by intros ?%elem_of_nil|done|done].
      * exists g. assert (set_proc p kill_one s = set_proc p (set_pkilled true) s) as ->.
        { unfold set_proc, kill_one. by rewrite decide_False. }
        split; [by apply mild_guar; intros x0|].
        eapply HP1; [by apply mild_env; intros x0|]. split; [done|by apply linv_plock].
    + rewrite bindK. eapply (pok_release _ _ [] _ P); [done| |done|by rewrite retK]. by intros c s g _ [].
  - rewrite bindK. eapply (pok_release _ _ [] _ P); [done| |done|done]. by intros c s g _ [].
Qed.

(** ** Making and freeing processes *)

Definition freed (p : nat) (g : ghost) : ghost := g_at p None false (gctx g p) g.

Lemma free_guar t held p s g :
  plock p ∈ held → (∀ o, gown g p = Some o → o = t) → guar t held s g (set_proc p clear_proc s) (freed p g).
Proof.
  intros Hp Ho. assert (gcommit (freed p g) p = false) as Hc by (simpl; by rewrite fn_lookup_insert).
  apply (guar_only _ _ p); [by apply only_set_at|done|done|by rewrite Hc|].
  intros _. apply quiet_set; [done|by right|by rewrite Hc].
Qed.

Lemma free_inv_ok p s g : grun g p = false → proc_inv p (set_proc p clear_proc s) (freed p g).
Proof.
  intros Hr. split; rewrite ?st_of_set, ?decide_True by done; simpl; rewrite ?fn_lookup_insert; try done.
  - by rewrite Hr.
  - naive_solver.
  - naive_solver.
Qed.

Lemma pok_freeproc t held P P' p (k : unit → prog E) :
  plock p ∈ held → stable t held P → stable t held P' →
  (∀ s g, P s g → (∀ o, gown g p = Some o → o = t) ∧ P' (set_proc p clear_proc s) (freed p g)) →
  pok t held P' (k ()) → pok t held P (freeproc p k).
Proof.
  intros Hp HP HP' Hf Hk. unfold freeproc. rewrite bindK. apply pok_getp; [done|]. intros tf.
  assert (pok t held P (setp p clear_proc k)) as Hend.
  { apply (pok_setp _ _ _ P'); [|done|done]. intros c s g _ HPs. destruct (Hf s g HPs).
    exists (freed p g). split; [by apply free_guar|done]. }
  assert (pok t held P ((setp p (set_ptrapframe 0);; pt ← getp p ppagetable; sz ← getp p psz;
    (if pt =? 0 then mret () else svc (svc_proc_freepagetable pt sz));; setp p clear_proc) k)) as Hmid.
  { rewrite bindK. apply pok_setp_mild; [by intros x|done|]. rewrite bindK. apply pok_getp; [done|].
    intros pt. rewrite bindK. apply pok_getp; [done|]. intros sz. rewrite bindK.
    destruct (pt =? 0); [done|]. by apply pok_svc; intros []. }
  rewrite bindK. destruct (tf =? 0); [done|]. by apply pok_svc; intros [].
Qed.

(** Facts about the variables of the CPU only. *)
Definition blind (P : assertion) : Prop :=
  ∀ s g s' g', cproc s' = cproc s → initproc s' = initproc s → P s g → P s' g'.

Definition made (t : stack) (np : nat) : assertion := λ s g,
  making t np true s g ∧ gcommit g np = false.

Lemma blind_idle t P : blind P → blind (λ s g, P s g ∧ idle t s g).
Proof. intros HP s g s' g' Hc Hi [? Hid]. split; [by eapply HP|]. intros c. rewrite Hc. apply Hid. Qed.

Lemma made_inv t np s g : made t np s g → proc_inv np s g.
Proof.
  intros [(Ho & Hs & Hr & Hx) Hc]. split; rewrite ?Hs, ?Hr, ?Hc; try done; naive_solver.
Qed.

Lemma pok_allocproc_find t P l (k : option nat → prog E) :
  stable t [] P → pok t [] P (k None) →
  (∀ p, pok t [plock p] (λ s g, (P s g ∧ idle t s g) ∧ proc_inv p s g ∧ st_of s p = UNUSED) (k (Some p))) →
  pok t [] P (allocproc_find l k).
Proof.
  intros HP Hn Hk. induction l as [|p l IH]; [done|]. cbn [allocproc_find].
  rewrite bindK. apply pok_acquire_first; [done|]. rewrite bindK.
  apply (pok_gets _ _ _ (λ st s g, ((P s g ∧ idle t s g) ∧ linv (plock p) s g) ∧ st_of s p = st)); [done|intros; kst|].
  intros st. destruct (decide _) as [->|].
  - rewrite retK. eapply pok_mono; [|apply Hk]. intros s g [[? ?%linv_plock] ?]. done.
  - rewrite bindK. eapply pok_mono; [|apply pok_release_last; [done|done]]. by intros s g [? _].
Qed.

(** A half-made process is given back. *)
Lemma pok_unmake t P p (k : option nat → prog E) :
  blind P → stable t [] P → pok t [] P (k None) →
  pok t [plock p] (λ s g, (P s g ∧ idle t s g) ∧ making t p false s g ∧ gcommit g p = false)
    ((freeproc p;; release (plock p);; mret None) k).
Proof.
  intros Hb HP Hk. rewrite bindK.
  apply (pok_freeproc _ _ _ (λ s g, (P s g ∧ idle t s g) ∧ linv (plock p) s g)); [by left|kst..| |].
  - intros s g [HPs [(Ho & Hs & Hr & _) Hc]]. split; [intros o Ho'; congruence|split].
    + by apply (blind_idle t P Hb s g).
    + apply linv_plock. by apply free_inv_ok.
  - rewrite bindK. by apply pok_release_last.
Qed.

Lemma pok_allocproc t P (k : option nat → prog E) :
  blind P → stable t [] P → pok t [] P (k None) →
  (∀ np, pok t [plock np] (λ s g, (P s g ∧ idle t s g) ∧ made t np s g) (k (Some np))) →
  pok t [] P (allocproc k).
Proof.
  intros Hb HP Hn Hk. unfold allocproc. rewrite bindK. apply pok_allocproc_find; [done|by rewrite retK|].
  intros p. assert (pid_lock ∉ [plock p]) as Hpid.
  { intros [Hj|?%elem_of_nil]%elem_of_cons; [|done]. symmetry in Hj. by apply plock_pid in Hj. }
  rewrite bindK. apply pok_allocpid; [done|done|kst|]. intros pid. rewrite bindK.
  set (P1 := λ s g, (P s g ∧ idle t s g) ∧ making t p false s g ∧ gcommit g p = false).
  assert (stable t [plock p] P1) as HP1 by (unfold P1; kst).
  apply (pok_setp _ _ _ P1); [|done|].
  { intros c s g _ (HPs & [Hr Hc Ho Hx] & Hu). exists (g_at p (Some t) false (gctx g p) g).
    assert (gown g p = None) as Hown. { destruct (gown g p); [|done]. rewrite Hu in Ho. by discriminate Ho. }
    split; [|split; [|split; [split_and!|]]].
    - apply (guar_only _ _ p); [by apply only_set_at|by left|by rewrite Hown|by simpl; rewrite fn_lookup_insert|].
      intros _. apply quiet_set; [done|by left|by simpl; rewrite fn_lookup_insert].
    - by apply (blind_idle t P Hb s g).
    - simpl. by rewrite fn_lookup_insert.
    - by rewrite st_of_set, decide_True.
    - simpl. apply not_true_is_false. rewrite <- Hr. congruence.
    - done.
    - simpl. by rewrite fn_lookup_insert. }
  rewrite bindK. apply pok_svc. intros tf. rewrite bindK. apply pok_setp_mild; [by intros x|done|].
  destruct (tf =? 0); [by apply pok_unmake|].
  rewrite bindK. apply pok_svc. intros pt. rewrite bindK. apply pok_setp_mild; [by intros x|done|].
  destruct (pt =? 0); [by apply pok_unmake|].
  rewrite bindK. split_and!; [by left|by intros s g (_ & (? & _) & _)|apply pok_forkret|].
  exists (λ s g, (P s g ∧ idle t s g) ∧ made t p s g). split_and!; [unfold made; kst| |by rewrite retK].
  intros s g (HPs & (H1 & H2 & H3 & _) & H4).
  split; [by apply (blind_idle t P Hb s g)|]. split; [|done]. split_and!; [done..|]. simpl. by rewrite fn_lookup_insert.
Qed.
End spec.
