(* ===== verification/ProcCalls.v ===== *)
(** * [fork], [exit], [wait], the scheduler, traps and boot are correct threads *)
From stdpp Require Import functions list gmap.
From S2P Require Import Prelude Param Spinlock Proc ProcLogic ProcSound ProcRules ProcSpec.

#[local] Open Scope Z_scope.

Section calls.
Context {E : Type} `{HS : Services E}.
Abbreviation K := (K E).
Abbreviation any := ((λ _ _, True) : assertion).

(** ** [fork] *)

(** A process that has been made becomes runnable. *)
Lemma made_runnable t held np s g :
  plock np ∈ held → making t np true s g →
  guar t held s g (set_proc np (set_pstate RUNNABLE) s) (freed np g) ∧
  proc_inv np (set_proc np (set_pstate RUNNABLE) s) (freed np g).
Proof.
  intros Hnp (Ho & Hs & Hr & Hx). split.
  - apply (guar_only _ _ np); [by apply only_set_at|done|intros o; congruence|by simpl; rewrite fn_lookup_insert|].
    intros _. apply quiet_set; [done|by left|by simpl; rewrite fn_lookup_insert].
  - split; rewrite ?st_of_set, ?decide_True by done; simpl; rewrite ?fn_lookup_insert; try done.
    + by rewrite Hr.
    + naive_solver.
    + intros _. by apply Hx.
Qed.

(** The child becomes runnable. *)
Lemma pok_fork_end i np (k : unit → prog E) :
  pok (PStack i) [] any (k ()) →
  pok (PStack i) [] (making (PStack i) np true)
    ((acquire wait_lock;; setp np (set_pparent (Some i));; release wait_lock;;
      acquire (plock np);; setp np (set_pstate RUNNABLE);; release (plock np)) k).
Proof.
  intros Hk. rewrite bindK. apply pok_acquire; [by intros ?%elem_of_nil|kst|].
  set (P1 := λ s g, making (PStack i) np true s g ∧ linv wait_lock s g).
  assert (stable (PStack i) [wait_lock] P1) as HP1 by (unfold P1; kst).
  rewrite bindK. apply (pok_setp _ _ _ P1); [|done|].
  { intros c s g _ [(Ho & Hs & Hr & Hx) Hw%linv_wait]. exists g. split; [apply guar_parent; by left|].
    split; [split_and!; [done| |done..]; by rewrite st_of_set; destruct (decide _)|].
    apply linv_wait. intros q p Hq Hp. rewrite st_of_set, parent_of_set.
    destruct (decide (q = np)) as [->|]; [|by apply Hw]. simpl. unfold st_of in Hs. congruence. }
  rewrite bindK. eapply (pok_release _ _ [] _ (making (PStack i) np true)); [done|by intros c s g _ []|kst|].
  rewrite bindK. apply pok_acquire; [by intros ?%elem_of_nil|kst|].
  rewrite bindK. apply (pok_setp _ _ _ (proc_inv np)); [|kst|].
  { intros c s g _ [Hm _]. exists (freed np g). apply made_runnable; [by left|done]. }
  eapply (pok_release _ _ [] _ any); [done| |kst|done].
  intros c s g _ Hi. split_and!; [by apply linv_plock|done..].
Qed.

Lemma pok_fork i (k : Z → prog E) :
  (∀ r, pok (PStack i) [] any (k r)) → pok (PStack i) [] any (fork k).
Proof.
  intros Hk. unfold fork. rewrite bindK. apply pok_curproc; [kst|].
  rewrite bindK. apply pok_allocproc; [by intros s g s' g'|kst|by rewrite retK|]. intros np.
  eapply (pok_mono _ _ (made (PStack i) np)); [by intros s g [_ ?]|].
  assert (stable (PStack i) [plock np] (made (PStack i) np)) as HP by (unfold made; kst).
  do 3 (rewrite bindK; apply pok_getp; [done|]; intros ?). rewrite bindK. apply pok_svc. intros v.
  destruct (v <? 0).
  { rewrite bindK. apply (pok_freeproc _ _ _ (proc_inv np)); [by left|done|kst| |].
    - intros s g [(Ho & _ & Hr & _) _]. split; [intros o; congruence|by apply free_inv_ok].
    - rewrite bindK. eapply (pok_release _ _ [] _ any); [done| |kst|by rewrite retK].
      intros c s g _ Hi. split_and!; [by apply linv_plock|done..]. }
  rewrite bindK. apply pok_setp_mild; [by intros x|done|].
  do 2 (rewrite bindK; apply pok_getp; [done|]; intros ?).
  do 2 (rewrite bindK; apply pok_svc; intros _).
  rewrite bindK. apply pok_foreach_frame; [done| |].
  { intros j k' _ Hk'. rewrite bindK. apply pok_getp; [done|]. intros [f|]; [|by rewrite retK].
    rewrite bindK. apply pok_svc. intros f'. by apply pok_setp_mild; [intros x|..]. }
  rewrite bindK; apply pok_getp; [done|]; intros cwd. rewrite bindK. apply pok_svc. intros d.
  rewrite bindK. apply pok_setp_mild; [by intros x|done|].
  rewrite bindK; apply pok_getp; [done|]; intros name.
  rewrite bindK. apply pok_setp_mild; [by intros x|done|].
  rewrite bindK; apply pok_getp; [done|]; intros pid.
  rewrite bindK. eapply (pok_release _ _ [] _ (making (PStack i) np true)); [done| |kst|].
  { intros c s g _ Hm. split_and!; [apply linv_plock; by eapply made_inv|apply Hm|done]. }
  apply (pok_fork_end i np (λ _, k pid)). apply Hk.
Qed.

(** ** [exit] *)

Lemma pok_wakeup_parent i P x (k : unit → prog E) :
  stable (PStack i) [wait_lock] P →
  pok (PStack i) [wait_lock] (λ s g, P s g ∧ ∀ p, x = Some p → (p < NPROC)%nat → gcommit g p = false) (k ()) →
  pok (PStack i) [wait_lock] P (wakeup (at_proc x) k).
Proof.
  intros HP Hk. apply pok_wakeup; [done| |done|].
  - intros j [Hj|?%elem_of_nil]%elem_of_cons; [|done]. by apply plock_wait in Hj.
  - eapply pok_mono; [|done]. intros s g [HPs Hw]. split; [done|]. intros p -> Hp.
    eapply (Hw p); [|done|by left|done]. apply elem_of_seq. lia.
Qed.

Lemma pok_reparent i p (k : unit → prog E) :
  pok (PStack i) [wait_lock] (wait_inv None) (k ()) →
  pok (PStack i) [wait_lock] (wait_inv None) (reparent p k).
Proof.
  intros Hk. unfold reparent. apply pok_foreach_frame; [kst| |done]. clear k Hk. intros pp k _ Hk.
  rewrite bindK. apply pok_getp; [kst|]. intros x. destruct (decide _); [|by rewrite retK].
  set (I := λ (ip : option nat) (s : kst) (_ : ghost), ∀ x, ip = Some x → initproc s = Some x).
  assert (∀ ip, stable (PStack i) [wait_lock] (I ip)) as HI.
  { intros ip. apply stable_forall. intros y. apply stable_impl. intros _. apply stable_init. }
  rewrite bindK. apply (pok_gets _ _ _ (λ ip s g, wait_inv None s g ∧ I ip s g)).
  { intros s g Hw. split; [done|]. by intros y. }
  { intros ip. apply stable_and; [kst|done]. }
  intros ip. rewrite bindK. apply (pok_setp _ _ _ (λ s g, wait_inv ip s g ∧ I ip s g)).
  { intros c s g _ [Hw Hi]. exists g. split; [apply guar_parent; by left|]. split; [|done].
    intros q p' Hq Hp' . rewrite st_of_set, parent_of_set. destruct (decide (q = pp)) as [->|]; [simpl; congruence|].
    intros. by apply (Hw q p'). }
  { apply stable_and; [kst|done]. }
  rewrite bindK. apply (pok_gets _ _ _ (λ ip2 s g, wait_inv ip s g ∧ ∀ y, ip = Some y → ip2 = Some y)).
  { intros s g [Hw Hi]. split; [done|]. intros y Hy. by apply Hi. }
  { intros ip2. kst. }
  intros ip2. apply pok_wakeup_parent; [kst|]. eapply pok_mono; [|exact Hk].
  intros s g [[Hw Hip] Hc] q p' Hq Hp' Hz Hpq _. destruct (decide (ip = Some p')) as [->|]; [|by apply (Hw q p')].
  apply Hc; [by apply Hip|done].
Qed.

Lemma pok_exit_end i status x (k : unit → prog E) :
  pok (PStack i) [wait_lock]
    (λ s g, (wait_inv None s g ∧ (parent_of s i = x ∨ parent_of s i = None)) ∧
            ∀ p, x = Some p → (p < NPROC)%nat → gcommit g p = false)
    ((acquire (plock i);; setp i (λ x, set_pstate ZOMBIE (set_pxstate status x));;
      release wait_lock;; sched;; panic "zombie exit") k).
Proof.
  assert (∀ held, wait_lock ∈ held → stable (PStack i) held
    (λ _ g, ∀ p, x = Some p → (p < NPROC)%nat → gcommit g p = false)) as Hsc.
  { intros held Hw. apply stable_forall. intros p. apply stable_impl. intros _. apply stable_impl. intros _. kst. }
  rewrite bindK. apply pok_acquire.
  { intros [Hj|?%elem_of_nil]%elem_of_cons; [|done]. by apply plock_wait in Hj. }
  { apply stable_and; [kst|apply Hsc; by left]. }
  rewrite bindK. set (P1 := λ s g, wait_inv None s g ∧ leaving i s g ∧ st_of s i = ZOMBIE).
  assert (stable (PStack i) [plock i; wait_lock] P1) as HP1 by (unfold P1; kst).
  apply (pok_setp _ _ _ P1); [|done|].
  { intros c s g Hth [[[Hw Hpar] Hc] Hi%linv_plock]. destruct (running_resumed _ _ _ _ _ Hth Hi) as [H1 H2 H3].
    exists g. split; [|split_and!].
    - apply (guar_only _ _ i); [apply only_set|by left|by rewrite H3|by left|].
      intros []. right. by left.
    - intros q p Hq Hp. rewrite st_of_set, parent_of_set. destruct (decide (q = i)) as [->|]; [|by apply Hw].
      intros _ Hpi _. apply Hc; [|done]. destruct Hpar as [Hpar|Hpar]; unfold parent_of in *; simpl in *; congruence.
    - split; rewrite ?st_of_set, ?decide_True by done; [done| |done]. rewrite H2. simpl. naive_solver.
    - by rewrite st_of_set, decide_True. }
  rewrite bindK. eapply (pok_release _ _ [plock i] _ (λ s g, leaving i s g ∧ st_of s i = ZOMBIE));
    [apply Permutation_swap| |kst|].
  { intros c s g _ (Hw & Hl & Hz). split_and!; [by apply linv_wait|done..]. }
  rewrite bindK. apply pok_sched; [kst|by intros s g []|]. left. by intros s g [].
Qed.

(** [exit] does not return. *)
Lemma pok_exit i status (k : unit → prog E) : pok (PStack i) [] any (exit status k).
Proof.
  unfold exit. rewrite bindK. apply pok_curproc; [kst|].
  rewrite bindK. apply (pok_gets _ _ _ (λ ip s _, ∀ x, ip = Some x → initproc s = Some x)); [by intros s g _ x| |].
  { intros ip. apply stable_forall. intros x. apply stable_impl. intros _. apply stable_init. }
  intros ip. rewrite bindK. destruct (decide _) as [Hip|].
  { intros c s g [_ _ (Hc & _) _ HP]. right. right. split; [done|]. exists i. split; [done|by apply HP]. }
  rewrite retK, bindK. apply (pok_mono _ _ any); [done|]. apply pok_foreach_frame; [kst| |].
  { intros j k' _ Hk'. rewrite bindK. apply pok_getp; [kst|]. intros [f|]; [|by rewrite retK].
    rewrite bindK. apply pok_svc. intros _. by apply pok_setp_mild; [intros x|kst|]. }
  rewrite bindK. apply pok_svc. intros _. rewrite bindK. apply pok_getp; [kst|]. intros cwd.
  do 2 (rewrite bindK; apply pok_svc; intros _).
  rewrite bindK. apply pok_setp_mild; [by intros x|kst|].
  rewrite bindK. apply pok_acquire; [by intros ?%elem_of_nil|kst|].
  rewrite bindK. eapply (pok_mono _ _ (wait_inv None)); [by intros s g [_ ?%linv_wait]|].
  apply pok_reparent.
  rewrite bindK. apply (pok_gets _ _ _ (λ x s g, wait_inv None s g ∧ (parent_of s i = x ∨ parent_of s i = None))).
  { intros s g Hw. split; [done|by left]. }
  { intros b. kst. }
  intros x. rewrite bindK. apply pok_wakeup_parent; [kst|]. apply pok_exit_end.
Qed.

(** ** [wait] *)

(** No process of [l] is a dead child of [i]. *)
Definition scanned (i : nat) (l : list nat) : assertion := λ s g,
  wait_inv None s g ∧ ∀ q, q ∈ l → parent_of s q = Some i → st_of s q ≠ ZOMBIE.

Lemma stable_scanned o held i l : wait_lock ∈ held → stable o held (scanned i l).
Proof.
  intros Hw. apply stable_and; [by apply stable_wait_inv|]. intros s g s' g' He Hl q Hq Hp Hz.
  destruct (ev_wait _ _ _ _ _ _ He Hw) as [Hzq _ Hpq].
  destruct (Hpq q) as [Hpq'|Hpq']; [|congruence]. apply (Hl q); [done|congruence|by apply Hzq].
Qed.
#[local] Hint Resolve stable_scanned : kstable.

Lemma scanned_snoc i l q s g :
  scanned i l s g → (parent_of s q = Some i → st_of s q ≠ ZOMBIE) → scanned i (l ++ [q]) s g.
Proof.
  intros [Hw Hl] Hq. split; [done|]. intros q' [?|[->|?%elem_of_nil]%elem_of_cons]%elem_of_app; auto.
Qed.

(** [wait] returns with both locks. *)
Lemma pok_wait_leave i pp P (r : Z + bool) (k : Z + bool → prog E) :
  stable (PStack i) [plock pp; wait_lock] P → (∀ s g, P s g → wait_inv None s g ∧ proc_inv pp s g) →
  pok (PStack i) [] any (k r) →
  pok (PStack i) [plock pp; wait_lock] P ((release (plock pp);; release wait_lock;; mret r) k).
Proof.
  intros HP HPs Hk. rewrite bindK. eapply (pok_release _ _ [wait_lock] _ (wait_inv None)); [done| |kst|].
  { intros c s g _ [? ?]%HPs. split_and!; [by apply linv_plock|done..]. }
  rewrite bindK. eapply (pok_release _ _ [] _ any); [done| |kst|done].
  intros c s g _ Hw. split_and!; [by apply linv_wait|done..].
Qed.

Lemma pok_wait_scan i addr l hk don (k : Z + bool → prog E) :
  (∀ v, pok (PStack i) [] any (k (inl v))) →
  (∀ b, pok (PStack i) [wait_lock] (scanned i (don ++ l)) (k (inr b))) →
  pok (PStack i) [wait_lock] (scanned i don) (wait_scan i addr l hk k).
Proof.
  intros Hl. induction l as [|pp l IH] in don, hk |- *; intros Hr.
  { rewrite app_nil_r in Hr. apply Hr. }
  assert (∀ b, pok (PStack i) [wait_lock] (scanned i (don ++ [pp])) (wait_scan i addr l b k)) as Hnext.
  { intros b. apply IH. intros b'. rewrite <- (assoc_L (++)). apply Hr. }
  cbn [wait_scan]. rewrite bindK.
  apply (pok_gets _ _ _ (λ x s g, scanned i don s g ∧ (parent_of s pp = x ∨ parent_of s pp = None))).
  { intros s g Hs. split; [done|by left]. }
  { intros x. kst. }
  intros x. destruct (decide (x = Some i)) as [->|Hx].
  2: { eapply pok_mono; [|apply Hnext]. intros s g [Hs Hp]. apply scanned_snoc; [done|].
       intros Hp'. destruct Hp; congruence. }
  rewrite bindK. apply pok_acquire; [|kst|].
  { intros [Hj|?%elem_of_nil]%elem_of_cons; [|done]. by apply plock_wait in Hj. }
  rewrite bindK.
  apply (pok_gets _ _ _ (λ st s g, (scanned i don s g ∧ proc_inv pp s g) ∧ st_of s pp = st)).
  { intros s g [[? _] ?%linv_plock]. done. }
  { intros st. kst. }
  intros st. destruct (decide (st = ZOMBIE)) as [->|Hz].
  - set (P1 := λ s g, (scanned i don s g ∧ proc_inv pp s g) ∧ st_of s pp = ZOMBIE).
    assert (stable (PStack i) [plock pp; wait_lock] P1) as HP1 by (unfold P1; kst).
    do 3 (rewrite bindK; apply pok_getp; [done|]; intros ?). rewrite bindK.
    assert (∀ r, pok (PStack i) [plock pp; wait_lock] P1
      ((if r <? 0 then release (plock pp);; release wait_lock;; mret (inl (-1))
        else freeproc pp;; release (plock pp);; release wait_lock;; mret (inl b)) k)) as Hend.
    { intros r. destruct (r <? 0).
      { apply pok_wait_leave; [done| |done]. by intros s g [[[? _] ?] _]. }
      rewrite bindK. apply (pok_freeproc _ _ _ (λ s g, wait_inv None s g ∧ proc_inv pp s g)); [by left|done|kst| |].
      - intros s g [[[Hw _] Hi] Hzz]. split; [|split].
        + intros o Ho. destruct Hi as [_ _ Ho' _]. rewrite Ho, Hzz in Ho'. by discriminate Ho'.
        + eapply wait_quiet_inv; [|done]. eapply only_wait_quiet; [by apply only_set_at|].
          apply quiet_set; [done|by right|by simpl; rewrite fn_lookup_insert].
        + apply free_inv_ok. destruct Hi as [Hr' _ _ _]. apply not_true_is_false. rewrite <- Hr'. congruence.
      - apply pok_wait_leave; [kst|by intros s g []|done]. }
    destruct (addr =? 0); [rewrite retK; apply Hend|]. apply pok_svc. intros r. apply Hend.
  - rewrite bindK. eapply (pok_release _ _ [wait_lock] _ (scanned i (don ++ [pp]))); [done| |kst|apply Hnext].
    intros c s g _ [[Hs Hi] Hst]. split_and!; [by apply linv_plock| |done].
    apply scanned_snoc; [done|]. congruence.
Qed.

Lemma pok_wait_body i addr (k : Z → prog E) :
  (∀ v, pok (PStack i) [] any (k v)) →
  pok (PStack i) [wait_lock] (wait_inv None) (wait_body i addr k).
Proof.
  intros Hk. unfold wait_body. rewrite bindK.
  eapply (pok_mono _ _ (scanned i [])).
  { intros s g Hw. split; [done|]. by intros q ?%elem_of_nil. }
  apply pok_wait_scan; [intros v; rewrite retK; apply Hk|]. intros b. simpl app.
  assert (pok (PStack i) [wait_lock] (scanned i all_procs) ((release wait_lock;; mret (-1)) k)) as Hstop.
  { rewrite bindK. eapply (pok_release _ _ [] _ any); [done| |kst|by rewrite retK].
    intros c s g _ [Hw _]. split_and!; [by apply linv_wait|done..]. }
  rewrite bindK. destruct b; [|by rewrite retK]. apply pok_killed; [|kst|].
  { intros [Hj|?%elem_of_nil]%elem_of_cons; [|done]. by apply plock_wait in Hj. }
  intros [|]; [done|]. rewrite bindK.
  apply pok_sleep; [apply plock_wait|done|kst| |].
  - intros s g [Hw Hs] Hc. apply linv_wait. unfold commits. rewrite decide_True by done.
    intros q p Hq Hp Hz Hpq _. simpl. destruct (decide (p = i)) as [->|Hpi].
    + exfalso. eapply Hs; [|done|done]. apply elem_of_seq. lia.
    + rewrite fn_lookup_insert_ne by done. by apply (Hw q p).
  - split; [|by intros _]. split_and!; [done..|]. by intros s g ?%linv_wait.
Qed.

(** ** The scheduler *)

Lemma linv_plock_idle c p s g : linv (plock p) s g → cproc s !! c = None → linv (plock p) s g ∧ idle (CStack c) s g.
Proof. intros ? Hc. split; [done|]. by intros c' [= <-]. Qed.

(** The choice of a process: its state and [c->proc]. *)
Lemma pok_choose c p (k : bool → prog E) :
  pok (CStack c) [plock p] (λ s g, (resumed p s g ∧ grun g p = false) ∧ gctx g p = true ∧ cproc s !! c = Some p) (k true) →
  pok (CStack c) [plock p] (λ s g, (True ∧ idle (CStack c) s g) ∧ linv (plock p) s g) (k false) →
  pok (CStack c) [plock p] (λ s g, (True ∧ idle (CStack c) s g) ∧ linv (plock p) s g)
    (act (λ c s, if decide (pstate (procs s p) = RUNNABLE)
       then Ok true (set_cproc c (Some p) (set_proc p (set_pstate RUNNING) s)) else Ok false s) k).
Proof.
  intros Ht Hf c' s g [Hcpu Hsmp [<- _] Hfree HPs]. pose proof HPs as [[_ Hid] Hi%linv_plock].
  destruct (decide (pstate (procs s p) = RUNNABLE)) as [Hrun|].
  2: { exists [plock p], g. eexists. split_and!; [| | |exact Hf]; [|exact HPs|kst].
       split; try done. apply guar_refl. }
  change (st_of s p = RUNNABLE) in Hrun. destruct Hi as [Hr Hc Ho Hx].
  assert (gown g p = None) as Hown. { destruct (gown g p); [|done]. rewrite Hrun in Ho. by discriminate Ho. }
  assert (guar (CStack c) [plock p] s g (set_cproc c (Some p) (set_proc p (set_pstate RUNNING) s)) g) as Hg.
  { assert (guar (CStack c) [plock p] s g (set_proc p (set_pstate RUNNING) s) g) as [H1 H2 H3 H4 H5 H6 H7 H8 H9].
    { apply (guar_only _ _ p); [apply only_set|by left|by rewrite Hown|by left|].
      intros _. apply quiet_set; [done|by left|done]. }
    split; try done.
    - intros j Hj. by destruct (H1 j Hj).
    - intros Hw. by destruct (H6 Hw).
    - intros c' Hc'. simpl. rewrite lookup_partial_alter_ne; [done|]. congruence. }
  exists [plock p], g. eexists. split_and!; [| | |exact Ht]; [|split_and!|kst].
  - split; try done. intros lk Hlk. eapply guar_linv; [done|by eapply cpu_at_free|by apply Hfree].
  - split; [by unfold st_of; simpl; rewrite fn_lookup_insert| |done].
    apply not_true_is_false. rewrite Hc, Hrun. by intros [].
  - apply not_true_is_false. rewrite <- Hr. congruence.
  - apply Hx. by right.
  - simpl. by rewrite lookup_partial_alter_eq.
Qed.

(** [c->proc = 0]. *)
Lemma pok_no_proc c held P (k : unit → prog E) :
  (∀ s g x, P s g → P (set_cproc c x s) g) → stable (CStack c) held P →
  pok (CStack c) held (λ s g, P s g ∧ cproc s !! c = None) (k ()) →
  pok (CStack c) held P (act (λ c, modify (set_cproc c None)) k).
Proof.
  intros HPc HP Hk c' s g [Hcpu Hsmp [<- Hid] Hfree HPs]. unfold modify.
  assert (cproc (set_cproc c None s) !! c = None) as Hn by (simpl; by rewrite lookup_partial_alter_eq).
  assert (guar (CStack c) held s g (set_cproc c None s) g) as Hg.
  { destruct (guar_refl (CStack c) held s g) as [H1 H2 H3 H4 H5 H6 H7 H8 H9]. split; try done.
    - intros Hw. by destruct (H6 Hw).
    - intros c' Hc'. simpl. rewrite lookup_partial_alter_ne; [done|]. congruence. }
  exists held, g. eexists. split_and!; [| | |exact Hk]; [|split; [by apply HPc|done]|kst].
  split; try done. intros lk Hlk. eapply guar_linv; [done|by eapply cpu_at_free|by apply Hfree].
Qed.

Lemma pok_scheduler_body c (k : Z → prog E) :
  pok (CStack c) [] any (scheduler_body k).
Proof.
  unfold scheduler_body. rewrite bindK. apply pok_intr_on; [kst|]. rewrite bindK.
  apply pok_foreach_frame; [kst| |].
  2: { split; [|done]. split; [by exists c|done]. }
  clear k. intros p k _ Hk. rewrite bindK. apply pok_acquire_first; [kst|]. rewrite bindK.
  apply pok_choose.
  - do 2 rewrite bindK. exists c. split_and!; [done..| |].
    { intros s g [[? ?] [? ?]]. done. }
    apply pok_no_proc; [|kst|].
    { intros s g x [H1 H2 H3 H4]. by split. }
    eapply (pok_release _ _ [] _ any); [done| |kst|done]. intros c' s g _ [Hi Hc].
    split_and!; [by apply linv_plock|done|]. by intros c0 [= <-].
  - rewrite bindK, retK. by apply pok_release_last; [kst|].
Qed.

Lemma pok_scheduler c (k : Z → prog E) : pok (CStack c) [] any (scheduler k).
Proof.
  unfold scheduler. rewrite bindK. apply pok_no_proc; [done|kst|].
  split; [|done]. split; [by exists c|done].
Qed.

(** ** System calls and traps *)

Lemma pok_growproc i n (k : Z → prog E) :
  (∀ r, pok (PStack i) [] any (k r)) → pok (PStack i) [] any (growproc n k).
Proof.
  intros Hk. unfold growproc. rewrite bindK. apply pok_curproc; [kst|].
  do 2 (rewrite bindK; apply pok_getp; [kst|]; intros ?).
  assert (∀ z, pok (PStack i) [] any ((setp i (set_psz z);; mret 0) k)) as Hend.
  { intros z. rewrite bindK. by apply pok_setp_mild; [intros x|kst|rewrite retK]. }
  destruct (0 <? n).
  { rewrite bindK. apply pok_svc. intros r. destruct (r =? 0); [by rewrite retK|apply Hend]. }
  destruct (n <? 0); [|apply Hend]. rewrite bindK. apply pok_svc. intros r. apply Hend.
Qed.

Lemma pok_sleep_body i n t0 (k : Z → prog E) :
  (∀ r, pok (PStack i) [] any (k r)) → pok (PStack i) [tickslock] any (sleep_body n t0 k).
Proof.
  intros Hk. unfold sleep_body. rewrite bindK. apply pok_read; [kst|]. intros t.
  assert (∀ s g, linv tickslock s g) as Hl.
  { intros s g. apply linv_other; [intros j; apply not_eq_sym, plock_ticks|done]. }
  assert (∀ r, pok (PStack i) [tickslock] any ((release tickslock;; mret r) k)) as Hend.
  { intros r. rewrite bindK. eapply (pok_release _ _ [] _ any); [done| |kst|by rewrite retK]. done. }
  destruct (_ <? _); [|apply Hend]. rewrite bindK. apply pok_curproc; [kst|].
  rewrite bindK. apply pok_killed; [|kst|].
  { intros [Hj|?%elem_of_nil]%elem_of_cons; [|done]. by apply plock_ticks in Hj. }
  intros [|]; [apply Hend|]. rewrite bindK. apply pok_sleep; [apply plock_ticks|done|kst|done|].
  split; [|done]. split; [by exists i|done].
Qed.

Lemma pok_syscalls i c (k : Z → prog E) :
  (∀ r, pok (PStack i) [] any (k r)) → pok (PStack i) [] any (syscalls c k).
Proof.
  intros Hk. destruct c as [|n|p|pid|n| | |n|lk a|lk a]; cbn [syscalls].
  - by apply pok_fork.
  - unfold sys_exit. rewrite bindK. apply pok_exit.
  - unfold sys_wait, wait. rewrite bindK. apply pok_curproc; [kst|].
    rewrite bindK. apply pok_acquire; [by intros ?%elem_of_nil|kst|].
    split; [|done]. split_and!; [done..|]. by intros s g [_ ?%linv_wait].
  - by apply pok_kill_from; [kst|].
  - unfold sys_sleep. rewrite bindK. apply pok_acquire; [by intros ?%elem_of_nil|kst|].
    rewrite bindK. apply pok_read; [kst|]. intros t0. split; [|done]. split; [by exists i|done].
  - unfold sys_uptime. rewrite bindK. apply pok_acquire_first; [kst|].
    rewrite bindK. apply pok_read; [kst|]. intros t0. rewrite bindK.
    apply pok_release_last; [kst|by rewrite retK].
  - unfold sys_getpid. rewrite bindK. apply pok_curproc; [kst|]. by apply pok_getp; [kst|].
  - unfold sys_sbrk. rewrite bindK. apply pok_curproc; [kst|]. rewrite bindK. apply pok_getp; [kst|].
    intros addr. rewrite bindK. apply pok_growproc. intros r. by destruct (r <? 0); rewrite retK.
  - by apply pok_block.
  - by apply pok_signal; [kst|].
Qed.

Lemma pok_usertrap i sepc x : pok (PStack i) [] any (usertrap sepc x (λ _, User)).
Proof.
  unfold usertrap. rewrite bindK. apply pok_curproc; [kst|].
  rewrite bindK. apply pok_getp; [kst|]. intros tf. rewrite bindK. apply pok_svc. intros _.
  assert (plock i ∉ []) as Hi by by intros ?%elem_of_nil.
  assert (∀ d, pok (PStack i) [] any ((k ← killed i; (if (k : bool) then exit (-1) else mret ());;
    (if d =? 2 then yield else mret ());; usertrapret) (λ _, User))) as Hend.
  { intros d. rewrite bindK. apply pok_killed; [done|kst|]. intros b. rewrite bindK.
    destruct b; [apply pok_exit|]. rewrite retK, bindK.
    assert (pok (PStack i) [] any (usertrapret (λ _, User))) as Hu.
    { apply pok_usertrapret; [kst|]. split; [done|by exists i]. }
    destruct (d =? 2); [by apply pok_yield; [kst|]|by rewrite retK]. }
  rewrite bindK. destruct x as [c|c].
  - rewrite bindK. apply pok_devintr; [kst|]. intros d _. rewrite bindK.
    destruct (d =? 0); [apply pok_setkilled; [done|kst|]|]; rewrite retK; apply Hend.
  - rewrite bindK. apply pok_killed; [done|kst|]. intros b. rewrite bindK.
    destruct b; [apply pok_exit|]. rewrite retK, bindK. apply pok_getp; [kst|]. intros tf'.
    rewrite bindK. apply pok_svc. intros _. rewrite bindK. apply pok_intr_on; [kst|].
    rewrite bindK. unfold syscall. rewrite bindK. apply pok_curproc; [kst|].
    rewrite bindK. apply pok_syscalls. intros r. rewrite bindK. apply pok_getp; [kst|]. intros tf2.
    apply pok_svc. intros _. rewrite retK. apply Hend.
Qed.

Lemma pok_loop l t held P (k : Z → prog E) :
  loop_pre l t held P → stable t held P → (l ≠ Scheduler → ∀ a, pok t [] any (k a)) →
  pok t held P (loop_body l k).
Proof.
  intros Hpre _ Hk. destruct l as [|p addr|n t0]; cbn [loop_pre loop_body] in *.
  - destruct Hpre as [[c ->] ->]. eapply (pok_mono _ _ any); [done|]. apply pok_scheduler_body.
  - destruct Hpre as (-> & -> & HP). eapply pok_mono; [done|]. apply pok_wait_body. by apply Hk.
  - destruct Hpre as [[i ->] ->]. eapply (pok_mono _ _ any); [done|]. apply pok_sleep_body. by apply Hk.
Qed.

(** ** Boot *)

(** Only CPU 0 sets [initproc], once. *)
Lemma guar_initproc held s g x :
  initproc s = None → guar (CStack 0) held s g (set_initproc x s) g.
Proof.
  intros Hi. destruct (guar_refl (CStack 0) held s g) as [H1 H2 H3 H4 H5 H6 H7 H8 H9]. split; try done.
  - intros Hw. by destruct (H6 Hw).
  - congruence.
Qed.

Lemma pok_userinit (k : unit → prog E) :
  pok (CStack 0) [] any (k ()) → pok (CStack 0) [] (λ s _, initproc s = None) (userinit k).
Proof.
  intros Hk. unfold userinit. rewrite bindK. apply pok_allocproc.
  - intros s g s' g' _ ->. done.
  - intros s g s' g' He. by rewrite (ev_boot _ _ _ _ _ _ He).
  - rewrite bindK. eapply (pok_modify _ _ _ any); [done| |kst|by apply pok_svc; intros []].
    intros c s g _ Hi. exists g. split; [by apply guar_initproc|done].
  - intros np. rewrite bindK. set (P1 := λ s g, idle (CStack 0) s g ∧ made (CStack 0) np s g).
    assert (stable (CStack 0) [plock np] P1) as HP1 by (unfold P1, made; kst).
    eapply (pok_modify _ _ _ P1); [done| |done|].
    { intros c s g _ [[Hi Hid] Hm]. exists g. split; [by apply guar_initproc|done]. }
    rewrite bindK. apply pok_getp; [done|]. intros pt. rewrite bindK. apply pok_svc. intros _.
    rewrite bindK. apply pok_setp_mild; [by intros x|done|].
    rewrite bindK. apply pok_getp; [done|]. intros tf. do 2 (rewrite bindK; apply pok_svc; intros _).
    rewrite bindK. apply pok_setp_mild; [by intros x|done|].
    rewrite bindK. apply pok_svc. intros cwd. rewrite bindK. apply pok_setp_mild; [by intros x|done|].
    rewrite bindK. apply (pok_setp _ _ _ (λ s g, (True ∧ idle (CStack 0) s g) ∧ linv (plock np) s g)); [|kst|].
    + intros c s g _ [Hid [Hm _]]. exists (freed np g).
      destruct (made_runnable (CStack 0) [plock np] np s g) as [Hg Hi]; [by left|done|].
      split; [done|]. split; [done|by apply linv_plock].
    + by apply pok_release_last; [kst|].
Qed.

Lemma pok_main c (k : Z → prog E) :
  pok (CStack c) [] (λ s _, c = 0%nat → initproc s = None) (main k).
Proof.
  unfold main. rewrite bindK. intros c' s g [Hcpu Hsmp [<- Hid] Hfree HPs].
  exists [], g. destruct (decide (c = 0)%nat) as [->|Hc].
  - exists (λ s _, initproc s = None). split_and!; [|by apply HPs| |].
    + split; try done. apply guar_refl.
    + intros s1 g1 s2 g2 He. by rewrite (ev_boot _ _ _ _ _ _ He).
    + destruct (Nat.eqb_spec 0 0); [|done]. do 2 rewrite bindK. apply pok_userinit.
      eapply (pok_modify _ _ _ any); [done| |kst|apply pok_scheduler].
      intros c s1 g1 _ _. exists g1. split; [|done].
      destruct (guar_refl (CStack 0) [] s1 g1) as [H1 H2 H3 H4 H5 H6 H7 H8 H9]. split; try done.
      intros Hw. by destruct (H6 Hw).
  - exists any. split_and!; [|done|kst|].
    + split; try done. apply guar_refl.
    + destruct (Nat.eqb_spec c 0); [done|]. rewrite bindK. intros c1 s1 g1 [? ? ? ? ?].
      unfold mbind, M_bind, gets, mret, M_ret, fail. destruct (started s1) eqn:Hst.
      * exists [], g1, any. split_and!; [|done|kst|apply pok_scheduler]. split; try done. apply guar_refl.
      * right. by left.
Qed.
End calls.
