(* ===== verification/ProcTheorems.v ===== *)
(** * Processes: what always holds

    The invariant holds after boot, so it holds in every reachable machine;
    from it, the safety of the scheduler and the absence of lost wakeups
    between [exit] and [wait].  A killed flag stays set until [freeproc], whatever
    the CPUs do, and [kill(0)] sets one that belongs to nobody.  An executable scheduler of the machine's steps,
    sound for [mstep], gives concrete runs: the first process forks, waits and
    collects its child on two CPUs. *)
From stdpp Require Import functions list gmap.
From S2P Require Import Prelude Param Spinlock Proc ProcLogic ProcSound ProcRules ProcSpec ProcCalls.

#[local] Open Scope Z_scope.

(** ** The state after [procinit] *)

Record fresh (s : kst) : Prop := {
  fr_st j : st_of s j = UNUSED;
  fr_cproc : cproc s = ∅;
  fr_init : initproc s = None;
  fr_cpus : cpus (ksmp s) = ∅;
  fr_locks lk : locks (ksmp s) !!! lk = mklock false None;
}.

Lemma fresh_initlock lk s :
  fresh s → ∃ s', zoom ksmp set_smp (Spinlock.initlock lk) s = Ok () s' ∧ fresh s'.
Proof.
  intros [H1 H2 H3 H4 H5]. eexists. split; [reflexivity|]. split; simpl; try done.
  intros lk'. destruct (decide (lk = lk')) as [<-|].
  - by rewrite lookup_total_insert_eq.
  - by rewrite lookup_total_insert_ne.
Qed.

Lemma fresh_procinit_loop l s : fresh s → ∃ s', procinit_loop l s = Ok () s' ∧ fresh s'.
Proof.
  induction l as [|i l IH] in s |- *; intros Hs; [by exists s|]. cbn [procinit_loop].
  destruct (fresh_initlock (plock i) s Hs) as (s1 & H1 & Hs1). runs H1.
  erewrite bind_ok by reflexivity. apply IH. destruct Hs1. split; try done.
  intros j. rewrite st_of_set. by destruct (decide _).
Qed.

Lemma fresh_boot : fresh boot_kst.
Proof.
  assert (fresh zero_kst) as H0 by by split.
  unfold boot_kst. destruct (fresh_initlock pid_lock zero_kst H0) as (s1 & H1 & Hs1).
  destruct (fresh_initlock wait_lock s1 Hs1) as (s2 & H2 & Hs2).
  destruct (fresh_procinit_loop all_procs s2 Hs2) as (s3 & H3 & Hs3).
  destruct (fresh_initlock tickslock s3 Hs3) as (s4 & H4 & Hs4).
  assert ((procinit;; trapinit) zero_kst = Ok () s4) as ->; [|done].
  unfold procinit. rewrite bind_assoc. runs H1. rewrite bind_assoc. runs H2. runs H3. exact H4.
Qed.

Section theorems.
Context {E : Type} `{HS : Services E}.

Definition ghost0 : ghost := mkg (λ _, None) (λ _, false) (λ _, false) (λ _, false).

Lemma boot_inv e :
  sys_inv (boot e) ghost0 (λ _, []) (λ c s _, c = 0%nat → initproc s = None).
Proof.
  unfold boot. generalize boot_kst fresh_boot. intros s [H1 H2 H3 H4 H5].
  split; cbn [mk msp mrun mpctx mcctx]; try done.
  - intros lk. rewrite H5. done.
  - intros c. split; [by constructor| |by rewrite H4|done].
    intros lk. rewrite H5. simpl. split; [done|by intros ?%elem_of_nil].
  - intros c. split; [done|]. by rewrite H2.
  - intros c s1 g s' g' He Hi Hc. rewrite (ev_boot _ _ _ _ _ _ He) by congruence. auto.
  - intros c. apply pok_main.
  - intros lk _. split.
    + intros j _. split; rewrite ?H1; simpl; try done; naive_solver.
    + intros _ q p _ _ Hz. by rewrite H1 in Hz.
Qed.

Lemma reachable_inv e m : reachable e m → ∃ g L A, sys_inv m g L A.
Proof.
  intros Hr. refine (rtc_ind_r (R:=mstep) (λ m, ∃ g L A, sys_inv m g L A) (boot e) _ _ m Hr).
  - eexists _, _, _. apply boot_inv.
  - intros m1 m2 _ Hs IH. eapply sys_inv_step; [intros; by apply pok_loop|intros; apply pok_usertrap|
      intros; by apply pok_kerneltrap|done|done].
Qed.

(** C2: The scheduler is safe.  In every reachable machine:
    no action of any CPU panics or crashes, except that [exit] panics when the
    first process calls it; an action that cannot proceed waits for a lock that
    another CPU holds, or, before CPU 0 has booted, for that (so no CPU waits for
    itself, and none of the checks of [acquire], [release], [pop_off] and [sched]
    fails, nor does [exit] return from [sched]);
    no two CPUs run on the stack of the same process;
    [myproc()] is the process whose stack the CPU runs on;
    the scheduler never switches to a stack in use;
    and a process whose lock is free is in state [RUNNING] exactly when a CPU
    runs it. *)
Theorem scheduler_safe (e : E) (m : machine) :
  reachable e m →
  (∀ c (B : Set) (f : nat → M kst B) k er,
     mrun m c = Act f k → f c (mk m) = Err er → tolerable er c (mk m)) ∧
  (∀ c c' i, msp m c = PStack i → msp m c' = PStack i → c = c') ∧
  (∀ c i, msp m c = PStack i → cproc (mk m) !! c = Some i) ∧
  (∀ c c' i k, mrun m c = ToProc i k → msp m c' ≠ PStack i) ∧
  (∀ i, lcpu (locks (ksmp (mk m)) !!! plock i) = None →
     st_of (mk m) i = RUNNING ↔ ∃ c, msp m c = PStack i).
Proof.
  intros (g & L & A & Hm)%reachable_inv. split_and!.
  - intros c B f k er Hr Hf. pose proof (si_pok _ _ _ _ Hm c) as Hp. rewrite Hr in Hp.
    specialize (Hp c (mk m) g). rewrite Hf in Hp. apply Hp. split; apply Hm.
  - apply (si_inj _ _ _ _ Hm).
  - intros c i Hc. pose proof (si_thread _ _ _ _ Hm c) as Ht. rewrite Hc in Ht. apply Ht.
  - intros c c' i k Hr Hc'. pose proof (si_pok _ _ _ _ Hm c) as Hp. rewrite Hr in Hp.
    destruct Hp as (c0 & _ & _ & HP & _). destruct (HP _ _ (si_A _ _ _ _ Hm c)) as (_ & Hrun & _).
    pose proof (si_thread _ _ _ _ Hm c') as Ht. rewrite Hc' in Ht. destruct Ht as (_ & Ht & _). congruence.
  - intros i Hl. pose proof (si_free _ _ _ _ Hm _ Hl) as [[Hr _ _ _]%(λ H, H i eq_refl) _]. rewrite Hr. split.
    + apply (si_run _ _ _ _ Hm).
    + intros [c Hc]. pose proof (si_thread _ _ _ _ Hm c) as Ht. rewrite Hc in Ht. apply Ht.
Qed.

(** C5: No wakeup is lost between [exit] and [wait]: when [wait_lock] and the lock of
    process [p] are free, [p] does not sleep in [wait] while it has a child
    that has exited. *)
Theorem wait_not_lost (e : E) (m : machine) (p q : nat) :
  reachable e m →
  lcpu (locks (ksmp (mk m)) !!! wait_lock) = None →
  lcpu (locks (ksmp (mk m)) !!! plock p) = None →
  (p < NPROC)%nat → (q < NPROC)%nat →
  st_of (mk m) q = ZOMBIE → parent_of (mk m) q = Some p →
  ¬ (st_of (mk m) p = SLEEPING ∧ chan_of (mk m) p = AtProc p).
Proof.
  intros (g & L & A & Hm)%reachable_inv Hw Hp Hpn Hqn Hz Hpar.
  pose proof (si_free _ _ _ _ Hm _ Hw) as Hwi%linv_wait.
  pose proof (si_free _ _ _ _ Hm _ Hp) as Hpi%linv_plock.
  rewrite <- (pi_commit _ _ _ Hpi), (Hwi q p) by done. done.
Qed.
End theorems.

(** ** The killed flag *)

(** A set flag stays set, or the slot was emptied by [freeproc]. *)
Definition marked (s s' : kst) : Prop :=
  ∀ i, pkilled (procs s i) = true → pkilled (procs s' i) = true ∨ procs s' i = clear_proc (procs s i).

Lemma marked_same s s' : procs s' = procs s → marked s s'.
Proof. intros Hp i Hi. left. by rewrite Hp. Qed.

Lemma marked_set s i f :
  (pkilled (procs s i) = true → pkilled (f (procs s i)) = true ∨ f (procs s i) = clear_proc (procs s i)) → marked s (set_proc i f s).
Proof.
  intros Hf j Hj. simpl. destruct (decide (j = i)) as [->|].
  - rewrite fn_lookup_insert. by apply Hf.
  - rewrite fn_lookup_insert_ne by done. by left.
Qed.

Section killed.
Context {E : Type} `{HS : Services E}.

(** Every action of a thread keeps the flags. *)
Fixpoint keeps (r : prog E) : Prop :=
  match r with
  | User => True
  | Act f k => (∀ c s b s', f c s = Ok b s' → marked s s') ∧ ∀ b, keeps (k b)
  | Svc f k => ∀ b, keeps (k b)
  | ToSched _ k | ToProc _ k => keeps k
  | SetContext _ r k => keeps r ∧ keeps k
  | Call _ k => ∀ z, keeps (k z)
  end.

(** Code that keeps them. *)
Definition kept {A} (p : K E A) : Prop := ∀ k, (∀ a, keeps (k a)) → keeps (p k).

Lemma kept_ret {A} (a : A) : kept (mret a).
Proof. intros k Hk. apply Hk. Qed.
Lemma kept_bind {A B} (p : K E A) (f : A → K E B) : kept p → (∀ a, kept (f a)) → kept (p ≫= f).
Proof. intros Hp Hf k Hk. apply Hp. intros a. by apply Hf. Qed.
Lemma kept_act {B : Set} (f : nat → M kst B) : (∀ c s b s', f c s = Ok b s' → marked s s') → kept (act f).
Proof. by intros Hf k Hk. Qed.
Lemma kept_read {B : Set} (f : kst → B) : kept (act (λ _, gets f)).
Proof. apply kept_act. intros c s b s' [= _ <-]. by apply marked_same. Qed.
Lemma kept_modify (f : kst → kst) : (∀ s, marked s (f s)) → kept (act (λ _, modify f)).
Proof. intros Hf. apply kept_act. intros c s b s' [= _ <-]. apply Hf. Qed.
Lemma kept_smp {B : Set} (f : nat → M smp B) : kept (on_smp f).
Proof. apply kept_act. intros c s b s'. unfold zoom. destruct (f c (ksmp s)); [|done]. intros [= _ <-]. by apply marked_same. Qed.
Lemma kept_getp {B : Set} i (f : proc → B) : kept (getp i f).
Proof. apply kept_read. Qed.
Lemma kept_setp i f : (∀ p, pkilled p = true → pkilled (f p) = true ∨ f p = clear_proc p) → kept (setp i f).
Proof. intros Hf. apply kept_modify. intros s. apply marked_set, Hf. Qed.
Lemma kept_svc {B : Set} (f : M E B) : kept (svc f).
Proof. intros k Hk. simpl. apply Hk. Qed.
Lemma kept_panic {B : Set} msg : kept (panic (E:=E) (B:=B) msg).
Proof. by apply kept_act. Qed.
Lemma kept_call l : kept (call l).
Proof. by intros k Hk. Qed.
Lemma kept_foreach l body : (∀ i, kept (body i)) → kept (foreach (E:=E) l body).
Proof. intros Hb. induction l as [|i l IH]; [apply kept_ret|]. apply kept_bind; [done|]. by intros []. Qed.
Lemma kept_context p (r : K E unit) : kept r → kept (set_context p r).
Proof. intros Hr k Hk. split; [by apply Hr|done]. Qed.
Lemma kept_to_sched i : kept (to_sched (E:=E) i).
Proof. intros k Hk. apply Hk. Qed.
Lemma kept_to_proc i : kept (to_proc (E:=E) i).
Proof. intros k Hk. apply Hk. Qed.
Lemma kept_myproc : kept myproc.
Proof.
  apply kept_act. intros c s b s' Hr. apply marked_same. revert Hr. unfold zoom, mbind, M_bind, gets.
  destruct (push_off c (ksmp s)); [|done]. simpl. destruct (pop_off c s0); [|done]. by intros [= _ <-].
Qed.
End killed.

(** One step of a proof that code keeps the flags. *)
Ltac kept_step :=
  lazymatch goal with
  | |- kept (mbind _ _) => apply kept_bind
  | |- kept (mret _) => apply kept_ret
  | |- kept (match ?x with _ => _ end) => destruct x
  | |- kept (acquire _) => apply kept_smp
  | |- kept (release _) => apply kept_smp
  | |- kept (on_smp _) => apply kept_smp
  | |- kept (getp _ _) => apply kept_getp
  | |- kept (svc _) => apply kept_svc
  | |- kept (panic _) => apply kept_panic
  | |- kept (call _) => apply kept_call
  | |- kept (foreach _ _) => apply kept_foreach
  | |- kept (to_sched _) => apply kept_to_sched
  | |- kept (to_proc _) => apply kept_to_proc
  | |- kept myproc => apply kept_myproc
  | |- kept (set_context _ _) => apply kept_context
  | |- kept (act (λ _, gets _)) => apply kept_read
  | |- kept (act (λ _, modify _)) => apply kept_modify; intros ?; by apply marked_same
  | |- kept (setp _ _) => apply kept_setp; intros ? ?; solve [by left | by right]
  | |- kept _ => solve [eauto with kept]
  | |- ∀ _, _ => intros ?
  end.
Create HintDb kept.

Section killed_code.
Context {E : Type} `{HS : Services E}.

Lemma kept_curproc : kept (E:=E) curproc.
Proof. unfold curproc. repeat kept_step. by apply kept_act. Qed.
Hint Resolve kept_curproc : kept.
Lemma kept_freeproc p : kept (E:=E) (freeproc p).
Proof. unfold freeproc. repeat kept_step. Qed.
Lemma check_state {S} b e (s s' : S) a : when b (fail e) s = Ok a s' → s' = s.
Proof. destruct b; simpl; [done|]. by intros [= _ <-]. Qed.
Lemma kept_sched : kept (E:=E) sched.
Proof.
  unfold sched, sched_checks, intena_get, intena_set. repeat kept_step. apply kept_act. intros c s b s' Hr. apply marked_same.
  revert Hr. unfold zoom, holding, intr_get, gets, mbind, M_bind, mret, M_ret. simpl. repeat (case_match; try done; simpl). intros Hr.
  repeat match goal with H : when _ _ _ = Ok _ _ |- _ => apply check_state in H; simplify_eq/= end. done.
Qed.
Hint Resolve kept_freeproc kept_sched : kept.
Lemma kept_usertrapret : kept (E:=E) usertrapret.
Proof. unfold usertrapret, intr_off, cpuid. repeat kept_step. apply kept_act. intros c s b s' [= _ <-]. by apply marked_same. Qed.
Hint Resolve kept_usertrapret : kept.
Lemma kept_forkret : kept (E:=E) forkret.
Proof. unfold forkret. repeat kept_step. Qed.
Lemma kept_allocproc_find l : kept (E:=E) (allocproc_find l).
Proof. induction l as [|p l IH]; cbn [allocproc_find]; repeat kept_step. Qed.
Hint Resolve kept_forkret kept_allocproc_find : kept.
Lemma kept_allocproc : kept (E:=E) allocproc.
Proof. unfold allocproc, allocpid. repeat kept_step. Qed.
Lemma kept_wakeup ch : kept (E:=E) (wakeup ch).
Proof.
  unfold wakeup. repeat kept_step. apply kept_modify. intros s. case_decide; [apply marked_set; by left|by apply marked_same].
Qed.
Hint Resolve kept_allocproc kept_wakeup : kept.
Lemma kept_yield : kept (E:=E) yield.
Proof. unfold yield. repeat kept_step. Qed.
Lemma kept_sleep ch lk : kept (E:=E) (sleep ch lk).
Proof. unfold sleep. repeat kept_step. Qed.
Lemma kept_exit n : kept (E:=E) (exit n).
Proof. unfold exit, exit_files, reparent. repeat kept_step. Qed.
Lemma kept_killed p : kept (E:=E) (killed p).
Proof. unfold killed. repeat kept_step. Qed.
Lemma kept_wait_scan p addr l b : kept (E:=E) (wait_scan p addr l b).
Proof. induction l as [|q l IH] in b |- *; cbn [wait_scan]; repeat kept_step. Qed.
Lemma kept_kill_from pid l : kept (E:=E) (kill_from pid l).
Proof.
  induction l as [|q l IH]; cbn [kill_from]; repeat kept_step. apply kept_setp. intros x _. left. unfold kill_one. by destruct (decide _).
Qed.
Hint Resolve kept_yield kept_sleep kept_exit kept_killed kept_wait_scan kept_kill_from : kept.
Lemma kept_loop l : kept (E:=E) (loop_body l).
Proof.
  destruct l; simpl; unfold scheduler_body, wait_body, sleep_body, intr_on; repeat kept_step.
  - apply kept_act. intros c s b s'. destruct (decide _); intros [= _ <-]; [|by apply marked_same].
    refine (marked_set s _ (set_pstate RUNNING) _). by left.
  - apply kept_act. intros c s b s' [= _ <-]. by apply marked_same.
Qed.
Lemma kept_syscalls x : kept (E:=E) (syscalls x).
Proof.
  destruct x; simpl; unfold sys_fork, sys_exit, sys_wait, sys_kill, sys_sleep, sys_uptime, sys_getpid, sys_sbrk, fork, fork_files,
    growproc, wait, kill, block, signal; repeat kept_step.
Qed.
Lemma kept_devintr x : kept (E:=E) (devintr x).
Proof.
  unfold devintr, clockintr, signal, cpuid. repeat kept_step. apply kept_act. intros c s b s' [= _ <-]. by apply marked_same.
Qed.
Hint Resolve kept_syscalls kept_devintr : kept.
Lemma kept_usertrap sepc x : kept (E:=E) (usertrap sepc x).
Proof. unfold usertrap, syscall, setkilled, intr_on. repeat kept_step. Qed.
Lemma kept_kerneltrap x : kept (E:=E) (kerneltrap x).
Proof. unfold kerneltrap, intr_on. repeat kept_step. Qed.
Lemma kept_main : kept (E:=E) main.
Proof.
  unfold main, userinit, scheduler, cpuid. repeat kept_step; apply kept_act; intros c s b s'; [by intros [= _ <-]; apply marked_same|..].
  - unfold gets, mbind, M_bind. destruct (started s); [|done]. intros [= _ <-]. by apply marked_same.
  - intros [= _ <-]. by apply marked_same.
Qed.

(** All the code of the machine keeps the flags. *)
Definition all_keep (m : machine (E:=E)) : Prop :=
  (∀ c, keeps (mrun m c)) ∧ (∀ c, keeps (mcctx m c)) ∧ ∀ i, keeps (mpctx m i).

Lemma keep_insert (f : nat → prog E) c r : (∀ x, keeps (f x)) → keeps r → ∀ x, keeps (<[c := r]> f x).
Proof.
  intros Hf Hr x. destruct (decide (x = c)) as [->|]; [by rewrite fn_lookup_insert|]. by rewrite fn_lookup_insert_ne.
Qed.

Lemma all_keep_step m m' : all_keep m → mstep m m' → all_keep m' ∧ marked (mk m) (mk m').
Proof.
  intros (Hr & Hc & Hp) Hs. pose proof Hr as Hr'. destruct Hs as [m c B f k b s Hm Hf|m c B f k b e Hm Hf|m c i k Hm|m c i k Hm|m c i r k Hm|m c l k Hm|m c sepc x Hm|m c x Hm Hi Hx];
    specialize (Hr' c); try rewrite Hm in Hr'; simpl in Hr'; (split; [split_and!; simpl; try done; apply keep_insert; try done|try by apply marked_same]).
  - apply Hr'.
  - destruct Hr' as [Ha _]. by eapply Ha.
  - apply Hr'.
  - apply Hr'.
  - by apply kept_loop.
  - by apply kept_usertrap.
  - by apply kept_kerneltrap.
Qed.

Lemma reachable_keep e (m : machine (E:=E)) : reachable e m → all_keep m.
Proof.
  intros Hr. refine (rtc_ind_r (R:=mstep) all_keep (boot e) _ _ m Hr).
  - split_and!; simpl; try done. intros c. by apply kept_main.
  - intros m1 m2 _ Hs Hk. by apply (all_keep_step m1).
Qed.

(** *** [kill] on a CPU that finds the locks free *)

Implicit Types (m : machine (E:=E)).

Lemma relock_free c lk σ lk' :
  lcpu (locks σ !!! lk') = None → lcpu (locks (released c lk (acquired c lk σ)) !!! lk') = None.
Proof.
  intros Hn. simpl. destruct (decide (lk = lk')) as [->|]; [by rewrite lookup_total_insert_eq|].
  by rewrite !lookup_total_insert_ne.
Qed.

Lemma act_run {B : Set} m c (f : nat → M kst B) k b s :
  mrun m c = act f k → f c (mk m) = Ok b s → ∃ m', rtc mstep m m' ∧ mk m' = s ∧ mrun m' c = k b.
Proof.
  intros Hm Hf. eexists. split; [eapply rtc_once, step_act; [exact Hm|exact Hf]|]. split; [done|]. simpl. by rewrite fn_lookup_insert.
Qed.

(** Into the critical section of process [p] and out of it. *)
Lemma enter_run {B : Set} m c held p (f : proc → B) k :
  cpu_at c held (ksmp (mk m)) → smp_ok (ksmp (mk m)) → lcpu (locks (ksmp (mk m)) !!! plock p) = None →
  mrun m c = acquire (plock p) (λ _, getp p f k) →
  ∃ m', rtc mstep m m' ∧ mk m' = set_smp (acquired c (plock p) (ksmp (mk m))) (mk m) ∧ mrun m' c = k (f (procs (mk m) p)).
Proof.
  intros Hc Hs Hl Hm. destruct (smp_acquire_run c held (plock p) _ Hc Hs (cpu_at_free _ _ _ _ Hc Hl)) as [[Ha _]|(_ & c' & _ & Hn)]; [|congruence].
  destruct (act_run m c _ _ () (set_smp (acquired c (plock p) (ksmp (mk m))) (mk m)) Hm) as (m1 & H1 & Hk1 & Hm1).
  { unfold zoom. by rewrite Ha. }
  destruct (act_run m1 c _ _ (f (procs (mk m) p)) (mk m1) Hm1) as (m2 & H2 & Hk2 & Hm2); [by rewrite Hk1|].
  exists m2. split_and!; [by etrans|congruence|done].
Qed.

Lemma leave_run m c held p σ k :
  cpu_at c held σ → smp_ok σ → lcpu (locks σ !!! plock p) = None → ksmp (mk m) = acquired c (plock p) σ →
  mrun m c = release (plock p) k →
  ∃ m', rtc mstep m m' ∧ mk m' = set_smp (released c (plock p) (acquired c (plock p) σ)) (mk m) ∧ mrun m' c = k () ∧
    cpu_at c held (ksmp (mk m')) ∧ smp_ok (ksmp (mk m')).
Proof.
  intros Hc Hs Hl Hσ Hm. destruct (acquired_ok c held (plock p) σ Hc Hs (cpu_at_free _ _ _ _ Hc Hl) Hl) as (Hc1 & Hs1 & _).
  destruct (released_ok c _ held (plock p) _ Hc1 Hs1 ltac:(done)) as (Hc2 & Hs2 & _).
  destruct (act_run m c _ _ () (set_smp (released c (plock p) (acquired c (plock p) σ)) (mk m)) Hm) as (m1 & H1 & Hk1 & Hm1).
  { unfold zoom. rewrite Hσ. rewrite (smp_release_run c (plock p :: held)); [done..|by left]. }
  exists m1. rewrite Hk1. by split_and!.
Qed.

(** [kill] finds slot [i]. *)
Lemma kill_from_run pid l1 i l2 m c held k :
  cpu_at c held (ksmp (mk m)) → smp_ok (ksmp (mk m)) →
  (∀ j, j ∈ l1 ++ [i] → lcpu (locks (ksmp (mk m)) !!! plock j) = None) →
  (∀ j, j ∈ l1 → ppid (procs (mk m) j) ≠ pid) → ppid (procs (mk m) i) = pid →
  mrun m c = kill_from pid (l1 ++ i :: l2) k →
  ∃ m', rtc mstep m m' ∧ mrun m' c = k 0 ∧ procs (mk m') = <[i := kill_one (procs (mk m) i)]> (procs (mk m)).
Proof.
  induction l1 as [|p l1 IH] in m |- *; intros Hc Hs Hl Hne Hi Hm.
  - assert (lcpu (locks (ksmp (mk m)) !!! plock i) = None) as Hli by (apply Hl; by left).
    destruct (enter_run m c held i ppid _ Hc Hs Hli Hm) as (m1 & H1 & Hk1 & Hm1). rewrite Hi, Z.eqb_refl in Hm1.
    destruct (act_run m1 c _ _ () (set_proc i kill_one (mk m1)) Hm1 eq_refl) as (m2 & H2 & Hk2 & Hm2).
    destruct (leave_run m2 c held i (ksmp (mk m)) (λ _, k 0) Hc Hs Hli) as (m3 & H3 & Hk3 & Hm3 & _); [by rewrite Hk2, Hk1|exact Hm2|].
    exists m3. split; [by etrans; [|etrans]|]. split; [exact Hm3|]. by rewrite Hk3, Hk2, Hk1.
  - assert (lcpu (locks (ksmp (mk m)) !!! plock p) = None) as Hlp by (apply Hl; by left).
    destruct (enter_run m c held p ppid _ Hc Hs Hlp Hm) as (m1 & H1 & Hk1 & Hm1).
    destruct (Z.eqb_spec (ppid (procs (mk m) p)) pid) as [He|_]; [by apply Hne in He; [|left]|].
    destruct (leave_run m1 c held p (ksmp (mk m)) (λ _, kill_from pid (l1 ++ i :: l2) k) Hc Hs Hlp) as (m2 & H2 & Hk2 & Hm2 & Hc2 & Hs2); [by rewrite Hk1|exact Hm1|].
    assert (procs (mk m2) = procs (mk m)) as Hp by (by rewrite Hk2, Hk1).
    destruct (IH m2 Hc2 Hs2) as (m3 & H3 & Hm3 & Hp3).
    + intros j Hj. rewrite Hk2. simpl ksmp. apply relock_free, Hl. by right.
    + intros j Hj. rewrite Hp. apply Hne. by right.
    + by rewrite Hp.
    + exact Hm2.
    + exists m3. split; [by etrans; [|etrans]|]. split; [done|]. by rewrite Hp3, Hp.
Qed.

End killed_code.

(** ** Concrete runs *)

Section exec.
Context {E : Type} `{HS : Services E}.

(** The next event of CPU [c]. *)
Definition cstep (c : nat) (m : machine (E:=E)) : option machine :=
  match mrun m c with
  | User => None
  | Act f k => match f c (mk m) with Ok b s => Some (runs_on (with_mk s m) c (k b)) | Err _ => None end
  | Svc f k => match f (me m) with Ok b e => Some (runs_on (with_me e m) c (k b)) | Err _ => None end
  | ToSched i k => Some (swtch_sched m c i k)
  | ToProc i k => Some (swtch_proc m c i k)
  | SetContext i r k => Some (runs_on (set_pctx i r m) c k)
  | Call l k => Some (runs_on m c (loop_body l k))
  end.

Lemma cstep_sound c m m' : cstep c m = Some m' → mstep m m'.
Proof.
  unfold cstep. destruct (mrun m c) eqn:Hr; intros Hs; simplify_eq.
  - destruct (f c (mk m)) eqn:Hf; simplify_eq. by eapply step_act.
  - destruct (f (me m)) eqn:Hf; simplify_eq. by eapply step_svc.
  - by eapply step_to_sched.
  - by eapply step_to_proc.
  - by eapply step_set_context.
  - by eapply step_call.
Qed.

(** What happens next: CPU [c] makes at most [n] steps, until it is in user
    space if it gets there; a trap from user space; a timer
    interrupt of the kernel. *)
Inductive event := Go (c n : nat) | Trap (c : nat) (x : cause + syscall_args) | Tick (c : nat).

Definition in_user (m : machine (E:=E)) (c : nat) : bool :=
  match mrun m c with User => true | _ => false end.

Fixpoint go (n c : nat) (m : machine) : option machine :=
  match n with
  | O => Some m
  | S n => if in_user m c then Some m else m ← cstep c m; go n c m
  end.

Definition event_step (ev : event) (m : machine (E:=E)) : option machine :=
  match ev with
  | Go c n => go n c m
  | Trap c x =>
      if in_user m c
      then Some (runs_on (with_mk (trap_entry c (mk m)) m) c (usertrap 0 x (λ _, User))) else None
  | Tick c =>
      if negb (in_user m c) && intr_of (mk m) c
      then Some (runs_on (with_mk (trap_entry c (mk m)) m) c (kerneltrap Timer (λ _, mrun m c))) else None
  end.

Fixpoint run (l : list event) (m : machine) : option machine :=
  match l with
  | [] => Some m
  | ev :: l => m ← event_step ev m; run l m
  end.

Lemma in_user_true m c : in_user m c = true ↔ mrun m c = User.
Proof. unfold in_user. by destruct (mrun m c). Qed.

Lemma go_sound n c m m' : go n c m = Some m' → rtc mstep m m'.
Proof.
  induction n as [|n IH] in m |- *; simpl; intros Hg; [by simplify_eq|].
  destruct (in_user m c); [by simplify_eq|]. destruct (cstep c m) as [m1|] eqn:Hc; [|done].
  eapply rtc_l; [by eapply cstep_sound|by apply IH].
Qed.

Lemma event_sound ev m m' : event_step ev m = Some m' → rtc mstep m m'.
Proof.
  destruct ev as [c n|c x|c]; cbn [event_step].
  - apply go_sound.
  - destruct (in_user m c) eqn:Hu; [|done]. intros <-%(inj Some). apply rtc_once, step_user. by apply in_user_true.
  - destruct (in_user m c) eqn:Hu; [done|]. destruct (intr_of (mk m) c) eqn:Hi; [|done].
    intros <-%(inj Some). apply rtc_once, step_intr; [|done|done]. intros Hx%in_user_true. congruence.
Qed.

Lemma run_sound l m m' : run l m = Some m' → rtc mstep m m'.
Proof.
  induction l as [|ev l IH] in m |- *; simpl; intros Hr; [by simplify_eq|].
  destruct (event_step ev m) as [m1|] eqn:He; [|done].
  etrans; [by eapply event_sound|by apply IH].
Qed.

(** The machine after a run that succeeds. *)
Definition after (l : list event) (e : E) : machine := default (boot e) (run l (boot e)).

Lemma after_reachable l e : bool_decide (is_Some (run l (boot e))) = true → reachable e (after l e).
Proof.
  intros [m Hm]%bool_decide_eq_true. unfold after. rewrite Hm. by eapply run_sound.
Qed.
End exec.

Module ProcWitness.

(** Memory and files that always grant what is asked. *)
#[export] Instance plenty : Services () := {|
  svc_kalloc := mret 4096; svc_kfree _ := mret (); svc_proc_pagetable _ := mret 8192;
  svc_proc_freepagetable _ _ := mret (); svc_uvmfirst _ := mret (); svc_uvmcopy _ _ _ := mret 0;
  svc_uvmalloc _ _ n _ := mret n; svc_uvmdealloc _ _ n := mret n; svc_copyout_xstate _ _ _ _ := mret 0;
  svc_trapframe_store _ _ _ := mret (); svc_trapframe_copy _ _ := mret ();
  svc_filedup f := mret f; svc_fileclose _ := mret (); svc_idup d := mret d;
  svc_begin_op := mret (); svc_iput _ := mret (); svc_end_op := mret ();
  svc_namei_root := mret (Some 1%nat); svc_fsinit := mret ();
|}.

(** CPU 0 boots and runs process 0, which forks; CPU 1 takes the child. *)
Definition two_running : list event :=
  [Go 0 2000; Trap 0 (inr SysFork); Go 0 3000; Go 1 2000].

(** The parent waits, then the child exits. *)
Definition child_exits : list event :=
  two_running ++ [Trap 0 (inr (SysWait 0)); Go 0 300; Trap 1 (inr (SysExit 7)); Go 1 400].

Lemma scheduler_safe_witness :
  ∃ m : machine, reachable () m ∧ msp m 0 = PStack 0 ∧ msp m 1 = PStack 1 ∧
    cproc (mk m) !! 1%nat = Some 1%nat ∧ st_of (mk m) 1 = RUNNING.
Proof.
  assert (reachable () (after two_running ())) as Hr by (apply after_reachable; vm_compute; reflexivity).
  assert (msp (after two_running ()) 1 = PStack 1) as H1 by (vm_compute; reflexivity).
  destruct (scheduler_safe () _ Hr) as (_ & _ & Hp & _ & Hrun).
  exists (after two_running ()). split; [exact Hr|]. split; [vm_compute; reflexivity|].
  split; [exact H1|]. split; [by apply Hp|]. apply Hrun; [vm_compute; reflexivity|by exists 1%nat].
Defined.

Lemma wait_not_lost_witness :
  ∃ m : machine, reachable () m ∧ st_of (mk m) 1 = ZOMBIE ∧ parent_of (mk m) 1 = Some 0%nat ∧
    ¬ (st_of (mk m) 0 = SLEEPING ∧ chan_of (mk m) 0 = AtProc 0).
Proof.
  assert (reachable () (after child_exits ())) as Hr by (apply after_reachable; vm_compute; reflexivity).
  assert (st_of (mk (after child_exits ())) 1 = ZOMBIE) as Hz by (vm_compute; reflexivity).
  assert (parent_of (mk (after child_exits ())) 1 = Some 0%nat) as Hp by (vm_compute; reflexivity).
  exists (after child_exits ()). split; [exact Hr|]. split; [exact Hz|]. split; [exact Hp|].
  apply (wait_not_lost () _ 0 1 Hr); [vm_compute; reflexivity|vm_compute; reflexivity|
    unfold NPROC; lia|unfold NPROC; lia|exact Hz|exact Hp].
Defined.

(** Process 0 is about to run the code of [kill(0)]. *)
Definition killing : list event := [Go 0 2000; Trap 0 (inr (SysKill 0)); Go 0 10].

(** What is left of the system call then. *)
Definition kill_rest (r : Z) : prog () :=
  (tf ← getp 0 ptrapframe; svc (svc_trapframe_store tf 112 (u64 r));; mret 0) (λ which_dev : Z,
    (k ← killed 0; (if (k : bool) then exit (-1) else mret ());; (if which_dev =? 2 then yield else mret ());; usertrapret)
      (λ _, User)).

Lemma killing_kill : mrun (after killing ()) 0 = kill 0 kill_rest.
Proof. reflexivity. Qed.


(** Process 0 calls [kill(0)] and forks; the child, which nobody killed, exits
    with status -1 at its first system call. *)
Definition kill_nobody : list event :=
  [Go 0 2000; Trap 0 (inr (SysKill 0)); Go 0 2000; Trap 0 (inr SysFork); Go 0 3000;
   Trap 0 (inr (SysWait 0)); Go 0 2000; Trap 0 (inr SysGetpid); Go 0 500].

Lemma kill_nobody_run :
  reachable () (after kill_nobody ()) ∧
  st_of (mk (after kill_nobody ())) 1 = ZOMBIE ∧
  pxstate (procs (mk (after kill_nobody ())) 1) = -1.
Proof.
  split; [apply after_reachable; vm_compute; reflexivity|]. by vm_compute.
Qed.
End ProcWitness.
