(* ===== verification/ProcServices.v ===== *)
(** * The services of the process model, by the rest of the kernel

    The part of proc.c that works on page tables, and the instance of
    [Services] that consists of the functions of kalloc.c, vm.c, file.c, fs.c and
    log.c modelled in the other files. *)
From S2P Require Import Prelude Param Mem CString Kalloc Vm Sleeplock Block Bio Log Fs Pipe File.
From S2P Require Import Spinlock Proc.

#[local] Open Scope Z_scope.

(** Addresses of kernel data: [initcode] and [proc]. *)
Class ProcData := { initcode : Z; proc_table : Z }.

(** [sizeof(initcode)], [sizeof(struct trapframe)], [sizeof(struct proc)] and the
    offset of [xstate]. *)
Definition INITCODE_SIZE : Z := 52.
Definition TRAPFRAME_SIZE : Z := 288.
Definition PROC_SIZE : Z := 360.
Definition XSTATE_OFF : Z := 44.

Section pagetables.
Context {G : Type} `{HasKmem G, KernelImage, KernelText, ProcData}.
Abbreviation K A := (M (st G) A).

(** [copyout] of [pp->xstate], four bytes at the field's address, which hold the
    value. *)
Definition copyout_xstate (pagetable addr : Z) (pp : nat) (xstate : Z) : K Z :=
  let a := proc_table + PROC_SIZE * Z.of_nat pp + XSTATE_OFF in
  store 4 a (u32 xstate);;
  copyout pagetable addr a 4.
End pagetables.

(** The memory of the machine, and the state of the file components. *)
Section kernel.
Context {G U P : Type} `{HasKmem G, KernelImage, KernelText, ProcData, UserMem U, Pages P, Running}.

Definition kenv : Type := st G * fst_ U P.
Definition vm_op {A} (m : M (st G) A) : M kenv A := zoom fst (λ x s, (x, s.2)) m.
Definition file_op {A} (m : M (fst_ U P) A) : M kenv A := zoom snd (λ x s, (s.1, x)) m.

#[export] Instance kernel_services : Services kenv := {|
  svc_kalloc := vm_op kalloc;
  svc_kfree pa := vm_op (kfree pa);
  svc_proc_pagetable tf := vm_op (proc_pagetable tf);
  svc_proc_freepagetable pt sz := vm_op (proc_freepagetable pt sz);
  svc_uvmfirst pt := vm_op (uvmfirst pt initcode INITCODE_SIZE);
  svc_uvmcopy old new sz := vm_op (uvmcopy old new sz);
  svc_uvmalloc pt old new xperm := vm_op (uvmalloc pt old new xperm);
  svc_uvmdealloc pt old new := vm_op (uvmdealloc pt old new);
  svc_copyout_xstate pt addr pp xs := vm_op (copyout_xstate pt addr pp xs);
  svc_trapframe_store tf off v := vm_op (store 8 (tf + off) v);
  svc_trapframe_copy dst src := vm_op (memmove dst src TRAPFRAME_SIZE;; mret ());
  svc_filedup f := file_op (filedup f);
  svc_fileclose f := file_op (fileclose f);
  svc_idup d := match d with
                | Some ip => file_op (fs_op (ip ← idup ip; mret (Some ip)))
                | None => fail (Fault 0)
                end;
  svc_begin_op := file_op (fs_op (log_op begin_op));
  svc_iput d := match d with Some ip => file_op (fs_op (iput ip)) | None => fail (Fault 0) end;
  svc_end_op := file_op (fs_op (log_op end_op));
  svc_namei_root := file_op (fs_op (namei [SLASH]));
  svc_fsinit := file_op (fs_op (fsinit ROOTDEV));
|}.
End kernel.
