(* ===== verification/Sbrk.v ===== *)
(** * The program break of a user process

    Both user-space allocators ([user/umalloc.c] and [user/ummalloc.c]) obtain
    memory from the [sbrk] system call only.  Seen from user space, [sys_sbrk]
    (kernel/sysproc.c) either moves the break [p->sz] by [n] and returns the
    old one, the new bytes being zero ([uvmalloc] clears every page it maps),
    or returns -1 and changes nothing.  Which of the two happens depends on the
    free memory of the machine, so it is a parameter, [sbrk_grants]. *)
From S2P Require Import Prelude Mem Sep.
From iris.proofmode Require Import proofmode.

#[local] Open Scope Z_scope.

(** A program whose state includes the break. *)
Class HasBrk (G : Type) := {
  brk : G → Z;
  set_brk : Z → G → G;
  brk_set_brk b g : brk (set_brk b g) = b;
}.

(** The kernel's answer to a request to move the break from [b] by [n]. *)
Class Kernel := sbrk_grants : Z → Z → bool.

(** Nothing is mapped at or above the break. *)
#[export] Instance brk_machine G `{HasBrk G} : Machine G :=
  λ d g, ∀ a, a ∈ d → a < brk g.

(** The pointer value -1 that [sbrk] returns on failure. *)
Definition SBRK_ERR : Z := 2 ^ 64 - 1.

Definition zeros (n : Z) : list Z := replicate (Z.to_nat n) 0.

(** [char *sbrk(int n)] *)
Definition sbrk {G} `{HasBrk G, Kernel} (n : Z) : M (st G) Z := λ s,
  let n := s32 n in
  let old := brk (glob s) in
  if sbrk_grants old n then
    let m :=
      if 0 <=? n then seqmap old (zeros n) ∪ mem s
      else filter (λ p, p.1 < old + n) (mem s) in
    Ok old (mkst m (set_brk (old + n) (glob s)))
  else Ok SBRK_ERR s.

Lemma anybytes_zeros a n : 0 ≤ n → bytes a (zeros n) ⊢ anybytes a n.
Proof.
  iIntros (Hn) "H". iExists (zeros n). iFrame. iPureIntro. unfold zeros.
  rewrite length_replicate. split; [lia|]. apply Forall_replicate. by unfold is_byte.
Qed.

Section wp_sbrk.
Context {G : Type} `{HasBrk G, Kernel}.

(** A granted growth hands over the new bytes. *)
Lemma wp_sbrk_ok (n : Z) (Φ : Z → G → hprop) (g : G) :
  0 ≤ n < 2 ^ 31 → sbrk_grants (brk g) n = true →
  (bytes (brk g) (zeros n) -∗ Φ (brk g) (set_brk (brk g + n) g)) ⊢ wp (sbrk n) Φ g.
Proof.
  intros Hn Hgrant. constructor. intros h HΦ hf Hd Hok.
  set (z := seqmap (brk g) (zeros n)).
  assert (z ##ₘ h ∪ hf) as Hz.
  { apply map_disjoint_spec. intros i x y [Hi _]%seqmap_lookup_inv Hy.
    assert (i < brk g); [|lia]. apply Hok. by eapply elem_of_dom_2. }
  apply map_disjoint_union_r in Hz as [Hzh Hzf].
  exists (brk g), (set_brk (brk g + n) g), (h ∪ z). split_and!.
  - unfold sbrk. simpl. rewrite swrap_small; [|lia|lia].
    rewrite Hgrant. destruct (Z.leb_spec 0 n); [|lia].
    by rewrite (assoc_L (∪)) (map_union_comm z h).
  - by apply map_disjoint_union_l.
  - intros a. rewrite brk_set_brk. rewrite !dom_union_L !elem_of_union.
    intros [[Ha|[x Ha]%elem_of_dom]|Ha].
    + assert (a < brk g) by (apply Hok; rewrite dom_union_L; set_solver). lia.
    + apply seqmap_lookup_inv in Ha as [Ha _]. unfold zeros in Ha.
      rewrite length_replicate in Ha. lia.
    + assert (a < brk g) by (apply Hok; rewrite dom_union_L; set_solver). lia.
  - apply HΦ; [by symmetry|]. simpl. reflexivity.
Qed.

(** A refused growth changes nothing. *)
Lemma wp_sbrk_fail (n : Z) (Φ : Z → G → hprop) (g : G) :
  - 2 ^ 31 ≤ n < 2 ^ 31 → sbrk_grants (brk g) n = false →
  Φ SBRK_ERR g ⊢ wp (sbrk n) Φ g.
Proof.
  intros Hn Hgrant. constructor. intros h HΦ hf Hd Hok.
  exists SBRK_ERR, g, h. split_and!; try done.
  unfold sbrk. simpl. rewrite swrap_small; [|lia|lia]. by rewrite Hgrant.
Qed.
End wp_sbrk.
