(* ===== verification/Umalloc.v ===== *)
(** * user/umalloc.c: the allocator of Kernighan and Ritchie

    Free blocks are on a circular list in the order of their addresses, which
    begins with the static [base]; sizes are in units of one header.  The code
    runs on byte memory; the proof is in the separation logic of Sep.  The last
    part is about requests so large that [sbrk] sees only the low bits of their
    size. *)
From S2P Require Import Prelude Mem Sep SepRun Sbrk.
From iris.proofmode Require Import proofmode.

#[local] Open Scope Z_scope.

(** The global [freep], whose address is never taken, and the break. *)
Record kr := mkkr { freep : Z; kbrk : Z }.

#[export] Instance kr_brk : HasBrk kr := {|
  brk := kbrk;
  set_brk b g := mkkr (freep g) b;
  brk_set_brk b g := eq_refl |}.

(** Where the linker put [static Header base]. *)
Class BaseAt := base : Z.

Abbreviation R A := (M (st kr) A).

(** [union header]. *)
Definition s_ptr (h : Z) : Z := h.
Definition s_size (h : Z) : Z := h + 8.
Definition sizeof_Header : Z := 16.

Definition set_freep (p : Z) : R unit := setg (λ g, mkkr p (kbrk g)).

Section code.
Context `{BaseAt, Kernel}.

(** The [for] loop of [free]; the list has fewer than [kbrk] elements. *)
Fixpoint free_find (fuel : nat) (bp p : Z) : R Z :=
  match fuel with
  | O => fail NoFuel
  | S fuel =>
      nx ← load 8 (s_ptr p);
      if (p <? bp) && (bp <? nx) then mret p else
      if (nx <=? p) && ((p <? bp) || (bp <? nx)) then mret p else
      free_find fuel bp nx
  end.

(** The first [if] of [free]: join with the block above. *)
Definition join_upper (bp p : Z) : R unit :=
  n ← load 4 (s_size bp);
  nx ← load 8 (s_ptr p);
  if bp + sizeof_Header * n =? nx then
    k ← load 4 (s_size nx);
    store 4 (s_size bp) (u32 (n + k));;
    nn ← load 8 (s_ptr nx);
    store 8 (s_ptr bp) nn
  else store 8 (s_ptr bp) nx.

(** The second one: join with the block below. *)
Definition join_lower (bp p : Z) : R unit :=
  n ← load 4 (s_size p);
  if p + sizeof_Header * n =? bp then
    k ← load 4 (s_size bp);
    store 4 (s_size p) (u32 (n + k));;
    nx ← load 8 (s_ptr bp);
    store 8 (s_ptr p) nx
  else store 8 (s_ptr p) bp.

Definition free (ap : Z) : R unit :=
  let bp := ap - sizeof_Header in
  fp ← getg freep;
  b ← getg kbrk;
  p ← free_find (Z.to_nat (2 * b)) bp fp;
  join_upper bp p;;
  join_lower bp p;;
  set_freep p.

Definition morecore (nu : Z) : R Z :=
  let nu := if nu <? 4096 then 4096 else nu in
  p ← sbrk (nu * sizeof_Header);
  if p =? SBRK_ERR then mret 0 else
  store 4 (s_size p) nu;;
  free (p + sizeof_Header);;
  getg freep.

(** What [malloc] does with a block that is large enough. *)
Definition take_block (nunits prevp p : Z) : R Z :=
  n ← load 4 (s_size p);
  p ← (if n =? nunits then
         nx ← load 8 (s_ptr p);
         store 8 (s_ptr prevp) nx;;
         mret p
       else
         store 4 (s_size p) (u32 (n - nunits));;
         n' ← load 4 (s_size p);
         let p := p + sizeof_Header * n' in
         store 4 (s_size p) nunits;;
         mret p);
  set_freep prevp;;
  mret (p + sizeof_Header).

Fixpoint malloc_loop (fuel : nat) (nunits prevp p : Z) : R Z :=
  match fuel with
  | O => fail NoFuel
  | S fuel =>
      n ← load 4 (s_size p);
      if nunits <=? n then take_block nunits prevp p else
      fp ← getg freep;
      if p =? fp then
        q ← morecore nunits;
        if q =? 0 then mret 0 else
        nx ← load 8 (s_ptr q);
        malloc_loop fuel nunits q nx
      else
        nx ← load 8 (s_ptr p);
        malloc_loop fuel nunits p nx
  end.

(** [nbytes + sizeof(Header) - 1] is computed with 64 bits. *)
Definition units (nbytes : Z) : Z := u32 ((u32 nbytes + sizeof_Header - 1) / sizeof_Header + 1).

Definition malloc (nbytes : Z) : R Z :=
  let nunits := units nbytes in
  fp ← getg freep;
  prevp ← (if fp =? 0 then
             store 8 (s_ptr base) base;;
             set_freep base;;
             store 4 (s_size base) 0;;
             mret base
           else mret fp);
  b ← getg kbrk;
  nx ← load 8 (s_ptr prevp);
  malloc_loop (Z.to_nat (2 * b) + 4) nunits prevp nx.
End code.

(** ** Lists of free blocks *)

(** A block is its address and its size in units. *)
Abbreviation block := (Z * Z)%type.

(** The free blocks between [lo] and [hi], in the order of their addresses; no
    two of them touch. *)
Fixpoint ordered (lo : Z) (l : list block) (hi : Z) : Prop :=
  match l with
  | [] => lo ≤ hi
  | x :: l => lo < x.1 ∧ 1 ≤ x.2 ∧ x.1 `mod` 16 = 0 ∧ ordered (x.1 + 16 * x.2) l hi
  end.

Lemma ordered_lo lo lo' l hi : lo' ≤ lo → ordered lo l hi → ordered lo' l hi.
Proof. destruct l as [|x l]; simpl; [lia|]. intros ? (? & ?). split; [lia|done]. Qed.

Lemma ordered_hi lo l hi hi' : hi ≤ hi' → ordered lo l hi → ordered lo l hi'.
Proof. induction l as [|x l IH] in lo |- *; simpl; [lia|]. naive_solver. Qed.

Lemma ordered_app lo l1 l2 hi : ordered lo (l1 ++ l2) hi ↔ ∃ mid, ordered lo l1 mid ∧ ordered mid l2 hi.
Proof.
  induction l1 as [|x l1 IH] in lo |- *; simpl.
  - split; [intros Ho; exists lo; split; [lia|done]|]. intros (mid & Hm & Ho). by eapply ordered_lo.
  - rewrite IH. naive_solver.
Qed.

Lemma ordered_range lo l hi : ordered lo l hi → lo ≤ hi.
Proof. induction l as [|x l IH] in lo |- *; simpl; [done|]. intros (? & ? & _ & Ho%IH). lia. Qed.

Lemma ordered_elem lo l hi x :
  ordered lo l hi → x ∈ l → lo < x.1 ∧ 1 ≤ x.2 ∧ x.1 `mod` 16 = 0 ∧ x.1 + 16 * x.2 ≤ hi.
Proof.
  intros Ho (l1 & l2 & ->)%list_elem_of_split. apply ordered_app in Ho as (mid & H1 & (? & ? & ? & H2)).
  apply ordered_range in H1, H2. lia.
Qed.

Lemma ordered_length lo l hi : ordered lo l hi → 16 * Z.of_nat (length l) ≤ hi - lo.
Proof.
  induction l as [|x l IH] in lo |- *; simpl; [lia|]. intros (? & ? & _ & Ho%IH). lia.
Qed.

(** A block is taken out, or loses its upper part. *)
Lemma ordered_remove lo l1 x l2 hi : ordered lo (l1 ++ x :: l2) hi → ordered lo (l1 ++ l2) hi.
Proof.
  rewrite !ordered_app. intros (mid & H1 & (? & ? & _ & H2)). exists mid. split; [done|].
  eapply ordered_lo, H2. lia.
Qed.
Lemma ordered_shrink lo l1 x l2 hi n :
  ordered lo (l1 ++ x :: l2) hi → 1 ≤ n ≤ x.2 → ordered lo (l1 ++ (x.1, n) :: l2) hi.
Proof.
  rewrite !ordered_app. intros (mid & H1 & (? & ? & ? & H2)) Hn. exists mid. split; [done|].
  simpl. split_and!; [lia..|done|]. eapply ordered_lo, H2. lia.
Qed.

(** ** The list in memory *)

(** A free block with its header, the size of [base] being zero. *)
Definition node (x : block) (nx : Z) : hprop :=
  (s_ptr x.1 ↦₈ nx ∗ s_size x.1 ↦₄ x.2 ∗ anybytes (x.1 + 12) 4 ∗
   anybytes (x.1 + 16) (16 * Z.max 0 (x.2 - 1)))%I.

(** A block that was handed out: its header, whose pointer does not matter. *)
Definition header (a n : Z) : hprop := (anybytes a 8 ∗ s_size a ↦₄ n ∗ anybytes (a + 12) 4)%I.
Definition body (a n : Z) : hprop := anybytes (a + 16) (16 * (n - 1)).

Definition hd_addr (c : list block) (e : Z) : Z := match c with [] => e | x :: _ => x.1 end.

(** The nodes [c], the last one pointing to [e]. *)
Fixpoint seg (c : list block) (e : Z) : hprop :=
  match c with [] => emp | x :: c => node x (hd_addr c e) ∗ seg c e end%I.

Lemma free_seg_app c1 c2 e : seg (c1 ++ c2) e ⊣⊢ seg c1 (hd_addr c2 e) ∗ seg c2 e.
Proof.
  induction c1 as [|x c1 IH]; simpl; [by rewrite left_id|]. rewrite IH (assoc bi_sep).
  destruct c1 as [|y c1]; done.
Qed.

Lemma seg_split c1 x c2 e : seg (c1 ++ x :: c2) e ⊣⊢ seg c1 x.1 ∗ node x (hd_addr c2 e) ∗ seg c2 e.
Proof. by rewrite free_seg_app. Qed.

(** The bytes of a node and of a block. *)
Lemma node_anybytes x nx : node x nx ⊢ anybytes x.1 (16 * Z.max 1 x.2).
Proof.
  iIntros "(Hp & Hs & Hpad & Hb)". rewrite !word_anybytes. unfold s_ptr, s_size. change (Z.of_nat 8) with 8. change (Z.of_nat 4) with 4.
  iDestruct (anybytes_join with "Hp Hs") as "H"; [lia..|].
  iDestruct (anybytes_join x.1 12 4 with "H Hpad") as "H"; [lia..|].
  iDestruct (anybytes_join x.1 16 with "H Hb") as "H"; [lia..|].
  by replace (16 + 16 * Z.max 0 (x.2 - 1)) with (16 * Z.max 1 x.2) by lia.
Qed.

Lemma kr_header_anybytes a n : header a n ⊢ anybytes a 16.
Proof.
  iIntros "(Hp & Hs & Hpad)". rewrite word_anybytes. unfold s_size. change (Z.of_nat 4) with 4.
  iDestruct (anybytes_join with "Hp Hs") as "H"; [lia..|].
  iDestruct (anybytes_join a 12 4 with "H Hpad") as "H"; [lia..|]. done.
Qed.

Lemma used_anybytes a n : 1 ≤ n → header a n ∗ body a n ⊢ anybytes a (16 * n).
Proof.
  iIntros (Hn) "[Hh Hb]". rewrite kr_header_anybytes. unfold body.
  iDestruct (anybytes_join with "Hh Hb") as "H"; [lia..|]. by replace (16 + 16 * (n - 1)) with (16 * n) by lia.
Qed.

(** Fresh memory becomes a block when its size is stored. *)
Lemma anybytes_used a n :
  1 ≤ n → anybytes a (16 * n) ⊢ ∃ k, header a k ∗ body a n.
Proof.
  iIntros (Hn) "H". iDestruct (anybytes_cut _ _ 16 with "H") as "[H Hb]"; [lia|].
  iDestruct (anybytes_cut _ _ 8 with "H") as "[Hp H]"; [lia|].
  iDestruct (anybytes_cut _ _ 4 with "H") as "[Hs Hpad]"; [lia|].
  change 4 with (Z.of_nat 4) at 1. rewrite (anybytes_word 4). iDestruct "Hs" as "[%k Hs]". iExists k. unfold header, body, s_size.
  replace (16 * n - 16) with (16 * (n - 1)) by lia. replace (a + 8 + 4) with (a + 12) by lia. iFrame.
Qed.

(** A block and a node do not overlap. *)
Lemma node_used_apart x nx a n :
  1 ≤ n → node x nx ∗ header a n ∗ body a n ⊢ ⌜x.1 + 16 * Z.max 1 x.2 ≤ a ∨ a + 16 * n ≤ x.1⌝.
Proof.
  iIntros (Hn) "(Hx & Ha)". rewrite node_anybytes (used_anybytes a n Hn).
  iDestruct (anybytes_disjoint with "[$Hx $Ha]") as %?; [lia..|]. done.
Qed.

(** A block on its way to the list, with the pointer stored. *)
Lemma used_node a n nx : s_ptr a ↦₈ nx ∗ s_size a ↦₄ n ∗ anybytes (a + 12) 4 ∗ body a n ∗ ⌜1 ≤ n⌝ ⊢ node (a, n) nx.
Proof. iIntros "($ & $ & $ & Hb & %Hn)". unfold body. simpl. by replace (Z.max 0 (n - 1)) with (n - 1) by lia. Qed.

(** A block and the node that follows it are one block. *)
Lemma body_join a n x nx :
  1 ≤ n → 1 ≤ x.2 → x.1 = a + 16 * n → body a n ∗ node x nx ⊢ body a (n + x.2).
Proof.
  iIntros (Hn Hx Heq) "[Hb Hx]". rewrite node_anybytes. unfold body. rewrite Heq.
  iDestruct (anybytes_join (a + 16) (16 * (n - 1)) (16 * x.2) with "Hb [Hx]") as "H"; [lia..| |].
  - replace (a + 16 + 16 * (n - 1)) with (a + 16 * n) by lia. by replace (Z.max 1 x.2) with x.2 by lia.
  - by replace (16 * (n - 1) + 16 * x.2) with (16 * (n + x.2 - 1)) by lia.
Qed.

Section proofs.
Context `{BaseAt, Kernel}.
Implicit Types (g : kr) (l : list block).

Definition base_node : block := (base, 0).

(** The free blocks are [l]. *)
Definition wf g l : Prop :=
  ordered (base + 15) l (kbrk g) ∧ 0 < base ∧ base + 16 ≤ kbrk g ≤ 2 ^ 36 ∧ kbrk g `mod` 16 = 0.
Definition arena l : hprop := seg (base_node :: l) base.

(** The order of the whole list. *)
Lemma wf_next g l c1 x y c2 :
  wf g l → base_node :: l = c1 ++ x :: y :: c2 → x.1 + 16 * Z.max 1 x.2 ≤ y.1 ∧ 1 ≤ y.2.
Proof.
  intros (Ho & _) Heq. destruct c1 as [|z c1]; injection Heq as <- Heq; simpl in Heq; subst.
  - simpl in *. lia.
  - apply ordered_app in Ho as (mid & _ & (? & ? & _ & (? & ? & _))). lia.
Qed.

Lemma wf_base g l x : wf g l → x ∈ base_node :: l → base ≤ x.1 < kbrk g.
Proof.
  intros (Ho & ? & ? & _) [->|Hx]%elem_of_cons; [simpl; lia|]. apply (ordered_elem _ _ _ x) in Ho; [lia|done].
Qed.

(** ** [free] *)

(** Where the loop of [free] ends for a block at [bp]. *)
Definition between (bp : Z) (q : block) (c2 : list block) : Prop :=
  q.1 < bp ∧ match c2 with [] => True | y :: _ => bp < y.1 end.

Lemma node_ptr x nx (Φ : Z → kr → hprop) g :
  node x nx -∗ (node x nx -∗ Φ nx g) -∗ wp (load 8 (s_ptr x.1)) Φ g.
Proof. iIntros "(Hp & Hr) HΦ". iApply (wp_load with "Hp"). iIntros "Hp". iApply "HΦ". iFrame. Qed.

(** The node in the middle of the list. *)
Lemma arena_node l c1 x c2 :
  base_node :: l = c1 ++ x :: c2 → arena l ⊢ node x (hd_addr c2 base) ∗ (node x (hd_addr c2 base) -∗ arena l).
Proof. unfold arena. intros ->. rewrite seg_split. iIntros "($ & $ & $) $". Qed.

(** Follow the pointer of a node of the list. *)
Lemma wp_next l c1 x c2 (Φ : Z → kr → hprop) g :
  base_node :: l = c1 ++ x :: c2 →
  arena l -∗ (arena l -∗ Φ (hd_addr c2 base) g) -∗ wp (load 8 (s_ptr x.1)) Φ g.
Proof.
  iIntros (Heq) "Ha HΦ". iDestruct (arena_node _ _ _ _ Heq with "Ha") as "[Hn Ha]".
  iApply (node_ptr with "Hn"). iIntros "Hn". iApply "HΦ". by iApply "Ha".
Qed.

Lemma wp_find_up g l bp c1 x c2 fuel (Φ : Z → kr → hprop) :
  wf g l → base_node :: l = c1 ++ x :: c2 → x.1 < bp → (∀ y, y ∈ l → y.1 ≠ bp) → (length c2 < fuel)%nat →
  arena l -∗
  (∀ d1 q d2, ⌜base_node :: l = d1 ++ q :: d2 ∧ between bp q d2⌝ -∗ arena l -∗ Φ q.1 g) -∗
  wp (free_find fuel bp x.1) Φ g.
Proof.
  iIntros (Hwf Heq Hx Hne Hf) "Ha HΦ". iInduction fuel as [|fuel] "IH" forall (c1 x c2 Heq Hx Hf); [lia|].
  cbn [free_find]. iApply wp_bind. iApply (wp_next with "Ha"); [exact Heq|]. iIntros "Ha".
  rewrite (proj2 (Z.ltb_lt _ _) Hx). destruct c2 as [|y c2]; simpl.
  - assert (base ≤ x.1) by (eapply (wf_base g l x); [done|]; rewrite Heq; set_solver).
    destruct (Z.ltb_spec bp base); [lia|]. destruct (Z.leb_spec base x.1); [|lia]. simpl.
    iApply wp_ret. iApply ("HΦ" with "[] Ha"). iPureIntro. split; [exact Heq|]. by split.
  - destruct (Z.ltb_spec bp y.1); simpl.
    + iApply wp_ret. iApply ("HΦ" with "[] Ha"). iPureIntro. split; [exact Heq|]. by split.
    + destruct (wf_next _ _ _ _ _ _ Hwf Heq) as [? ?]. destruct (Z.leb_spec y.1 x.1); [lia|]. simpl.
      assert (y.1 ≠ bp).
      { apply Hne. destruct c1; injection Heq as _ Heq; simpl in Heq; subst; set_solver. }
      simpl in Hf. iApply ("IH" $! (c1 ++ [x]) y c2 with "[] [] [] Ha HΦ"); iPureIntro; [|lia..].
      by rewrite Heq -(assoc_L (++)).
Qed.

Lemma wp_find g l bp c1 x c2 fuel (Φ : Z → kr → hprop) :
  wf g l → base_node :: l = c1 ++ x :: c2 → base < bp → (∀ y, y ∈ base_node :: l → y.1 ≠ bp) →
  (length c2 + length l + 1 < fuel)%nat →
  arena l -∗
  (∀ d1 q d2, ⌜base_node :: l = d1 ++ q :: d2 ∧ between bp q d2⌝ -∗ arena l -∗ Φ q.1 g) -∗
  wp (free_find fuel bp x.1) Φ g.
Proof.
  iIntros (Hwf Heq Hb Hne Hf) "Ha HΦ". iInduction fuel as [|fuel] "IH" forall (c1 x c2 Heq Hf); [lia|].
  assert (x ∈ base_node :: l) as Hin by (rewrite Heq; set_solver). pose proof (Hne x Hin).
  destruct (decide (x.1 < bp)) as [Hx|Hx].
  { iApply (wp_find_up with "Ha HΦ"); [done|done|done| |lia]. intros y Hy. apply Hne. by right. }
  cbn [free_find]. iApply wp_bind. iApply (wp_next with "Ha"); [exact Heq|]. iIntros "Ha".
  destruct (Z.ltb_spec x.1 bp); [lia|]. simpl. destruct c2 as [|y c2]; simpl.
  - pose proof (wf_base g l x Hwf Hin). destruct (Z.leb_spec base x.1); [|lia]. destruct (Z.ltb_spec bp base); [lia|]. simpl.
    change base with (base_node.1). iApply (wp_find_up g l bp [] base_node l with "Ha HΦ"); [done|done|done| |].
    + intros y Hy. apply Hne. by right.
    + simpl in Hf. lia.
  - destruct (wf_next _ _ _ _ _ _ Hwf Heq) as [? ?]. destruct (Z.leb_spec y.1 x.1); [lia|]. simpl.
    simpl in Hf. iApply ("IH" $! (c1 ++ [x]) y c2 with "[] [] Ha HΦ"); iPureIntro; [|lia].
    by rewrite Heq -(assoc_L (++)).
Qed.

(** Store the pointer and the size of a block. *)
Lemma wp_set_ptr a v (Φ : unit → kr → hprop) g :
  0 ≤ v < 2 ^ 64 → anybytes a 8 -∗ (s_ptr a ↦₈ v -∗ Φ () g) -∗ wp (store 8 (s_ptr a) v) Φ g.
Proof.
  iIntros (Hv) "Ha HΦ". change 8 with (Z.of_nat 8). rewrite anybytes_word. iDestruct "Ha" as "[%k Ha]".
  iApply (wp_store with "Ha HΦ"). change (Z.of_nat 8) with 8. lia.
Qed.

(** The lower bound of the next node. *)
Definition next_at (d2 : list block) (hi : Z) : Z := match d2 with [] => hi | y :: _ => y.1 end.

Lemma wp_join_upper g q d2 bp n e hi (Φ : unit → kr → hprop) :
  ordered e d2 hi → 0 < base < bp → 1 ≤ n → bp + 16 * n ≤ next_at d2 hi → hi ≤ 2 ^ 36 →
  node q (hd_addr d2 base) -∗ seg d2 base -∗ header bp n -∗ body bp n -∗
  (∀ nb d2', ⌜n ≤ nb ∧ ordered (bp + 16 * nb) d2' hi ∧ (length d2' ≤ length d2)%nat⌝ -∗
     node q (hd_addr d2 base) -∗ node (bp, nb) (hd_addr d2' base) -∗ seg d2' base -∗ Φ () g) -∗
  wp (join_upper bp q.1) Φ g.
Proof.
  iIntros (Ho Hb Hn Hle Hhi) "Hq Hd (Hp & Hs & Hpad) Hbody HΦ". unfold join_upper, sizeof_Header.
  wp_load "Hs". iApply wp_bind. iApply (node_ptr with "Hq"). iIntros "Hq".
  destruct (Z.eqb_spec (bp + 16 * n) (hd_addr d2 base)) as [He|He].
  - destruct d2 as [|y d2]; simpl in *; [lia|]. destruct Ho as (? & Hy & _ & Ho).
    iDestruct "Hd" as "[(Hyp & Hys & Hypad & Hyb) Hd]". apply ordered_range in Ho as Hr.
    wp_load "Hys".
    iApply wp_bind. rewrite wrap_small; [|lia]. iApply (wp_store with "Hs"); [lia|]. iIntros "Hs".
    iApply wp_bind. iApply (wp_load with "Hyp"). iIntros "Hyp". iDestruct (word_range with "Hyp") as %Hrng.
    iApply (wp_set_ptr with "Hp"); [lia|]. iIntros "Hp".
    iDestruct (body_join bp n y (hd_addr d2 base) with "[$Hbody Hyp Hys Hypad Hyb]") as "Hbody"; [lia|lia|lia|iFrame|].
    iApply ("HΦ" $! (n + y.2) d2 with "[] Hq [Hp Hs Hpad Hbody] Hd").
    + iPureIntro. split_and!; [lia| |lia]. eapply ordered_lo, Ho. lia.
    + iApply used_node. iFrame. iPureIntro. lia.
  - iApply (wp_set_ptr with "Hp").
    { destruct d2 as [|y d2]; simpl in *; [lia|]. destruct Ho as (? & ? & _ & Ho%ordered_range). lia. }
    iIntros "Hp". iApply ("HΦ" $! n d2 with "[] Hq [Hp Hs Hpad Hbody] Hd").
    + iPureIntro. split_and!; [lia| |lia]. destruct d2 as [|y d2]; simpl in *; [lia|]. split; [lia|]. apply Ho.
    + iApply used_node. iFrame. done.
Qed.

Lemma wp_join_lower g (q : block) z bp nb nx (Φ : unit → kr → hprop) :
  0 < q.1 < bp → 1 ≤ nb → bp + 16 * nb ≤ 2 ^ 36 → q.1 + 16 * Z.max 1 q.2 ≤ bp →
  node q z -∗ node (bp, nb) nx -∗
  ((⌜(q.1 + 16 * q.2)%Z = bp⌝ -∗ node (q.1, (q.2 + nb)%Z) nx -∗ Φ () g) ∧
   (⌜q.1 + 16 * Z.max 1 q.2 < bp ∨ q.2 ≤ 0⌝ -∗ node q bp -∗ node (bp, nb) nx -∗ Φ () g)) -∗
  wp (join_lower bp q.1) Φ g.
Proof.
  iIntros (Hq Hn Hhi Hle) "(Hp & Hs & Hpad & Hb) Hbp HΦ". unfold join_lower, sizeof_Header. wp_load "Hs".
  destruct (Z.eqb_spec (q.1 + 16 * q.2) bp) as [He|He].
  - iDestruct "HΦ" as "[HΦ _]". iDestruct "Hbp" as "(Hbp & Hbs & Hbpad & Hbb)". wp_load "Hbs". iApply wp_bind. simpl.
    rewrite wrap_small; [|lia]. iApply (wp_store with "Hs"); [lia|]. iIntros "Hs". wp_load "Hbp".
    iDestruct (word_range with "Hbp") as %Hrng. iApply (wp_store with "Hp"); [done|]. iIntros "Hp".
    iApply ("HΦ" with "[//]").
    iDestruct (body_join q.1 q.2 (bp, nb) nx with "[Hb Hbp Hbs Hbpad Hbb]") as "Hbody"; [lia|simpl; lia|simpl; lia| |].
    + unfold body. replace (Z.max 0 (q.2 - 1)) with (q.2 - 1) by lia. iFrame.
    + iApply used_node. iFrame. iPureIntro. lia.
  - iDestruct "HΦ" as "[_ HΦ]". iApply (wp_store with "Hp"); [change (Z.of_nat 8) with 8; lia|]. iIntros "Hp".
    iApply ("HΦ" with "[] [Hp Hs Hpad Hb] Hbp"); [iPureIntro; lia|]. iFrame.
Qed.

Lemma arena_apart l a n :
  1 ≤ n → arena l ∗ header a n ∗ body a n ⊢
  ⌜∀ y : block, y ∈ base_node :: l → y.1 + 16 * Z.max 1 y.2 ≤ a ∨ a + 16 * n ≤ y.1⌝.
Proof.
  iIntros (Hn) "(Ha & Hh & Hb) %y %Hy". apply list_elem_of_split in Hy as (c1 & c2 & Heq).
  iDestruct (arena_node _ _ _ _ Heq with "Ha") as "[Hy _]".
  iApply (node_used_apart with "[$Hy $Hh $Hb]"). done.
Qed.

(** The list after a block of [nb] units at [a] was joined with [q] or put after it. *)
Lemma wf_insert g l d1 q d2 a :
  wf g l → base_node :: l = d1 ++ q :: d2 → q.1 + 16 * Z.max 1 q.2 ≤ a → a `mod` 16 = 0 →
  0 < q.1 ∧ ∃ e, ordered e d2 (kbrk g) ∧
    ∀ nb d2', 1 ≤ nb → ordered (a + 16 * nb) d2' (kbrk g) →
      (q.1 + 16 * q.2 = a → ∃ l', base_node :: l' = d1 ++ (q.1, q.2 + nb) :: d2' ∧ wf g l') ∧
      (q.1 + 16 * Z.max 1 q.2 < a ∨ q.2 ≤ 0 → ∃ l', base_node :: l' = d1 ++ q :: (a, nb) :: d2' ∧ wf g l').
Proof.
  intros (Ho & Hb & Hk & Hk16) Heq Ha Ha16. destruct d1 as [|z d1]; injection Heq as <- ->.
  - simpl in *. split; [done|]. exists (base + 15). split; [done|]. intros nb d2' Hnb Ho'. split; [lia|].
    intros _. eexists. split; [reflexivity|]. split_and!; try done || lia. simpl. split_and!; [lia..|done].
  - pose proof Ho as Ho0. apply ordered_app in Ho as (mid & H1 & (Hq1 & Hq2 & Hq16 & H2)).
    apply ordered_range in H1 as Hmid. split; [lia|].
    exists (q.1 + 16 * q.2). split; [done|]. intros nb d2' Hnb Ho'. split.
    + intros He. eexists. split; [reflexivity|]. split_and!; try done || lia. apply ordered_app. exists mid. split; [done|].
      simpl. split_and!; [lia|lia|done|]. eapply ordered_lo, Ho'. lia.
    + intros He. eexists. split; [reflexivity|]. split_and!; try done || lia. apply ordered_app. exists mid. split; [done|].
      simpl. split_and!; [lia|lia|done|lia|lia|done|done].
Qed.

(** [l'] is the free list after [n] units were added to [l]. *)
Definition added g l n q l' : Prop :=
  wf g l' ∧ q ∈ (base_node :: l').*1 ∧ (length l' ≤ S (length l))%nat ∧ ∃ y, y ∈ l' ∧ n ≤ y.2.

Lemma added_intro g l n (d1 d2 d2' : list block) q x l' xs :
  base_node :: l = d1 ++ q :: d2 → base_node :: l' = d1 ++ x :: xs ++ d2' → x.1 = q.1 → wf g l' →
  (length xs ≤ 1)%nat → (length d2' ≤ length d2)%nat → (∃ y, y ∈ x :: xs ∧ n ≤ y.2) → 1 ≤ n → added g l n q.1 l'.
Proof.
  intros Heq Heq' Hx Hwf Hxs Hd (y & Hy & Hn) Hn1. split_and!; [done|..].
  - rewrite Heq' fmap_app elem_of_app. right. rewrite -Hx. by left.
  - apply (f_equal length) in Heq, Heq'. rewrite !length_app /= ?length_app in Heq, Heq'. lia.
  - exists y. split; [|done]. assert (y ∈ base_node :: l') as Hy' by (rewrite Heq'; set_solver).
    apply elem_of_cons in Hy' as [->|]; [simpl in Hn; lia|done].
Qed.

Lemma wp_free g l a n (Φ : unit → kr → hprop) :
  wf g l → freep g ∈ (base_node :: l).*1 → 1 ≤ n → base + 16 ≤ a → a `mod` 16 = 0 → a + 16 * n ≤ kbrk g →
  arena l -∗ header a n -∗ body a n -∗
  (∀ q l', ⌜added g l n q l'⌝ -∗ arena l' -∗ Φ () (mkkr q (kbrk g))) -∗
  wp (free (a + 16)) Φ g.
Proof.
  iIntros (Hwf Hfp Hn Ha Ha16 Hhi) "Har Hh Hb HΦ".
  iDestruct (arena_apart with "[$Har $Hh $Hb]") as %Hap; [done|].
  apply list_elem_of_fmap in Hfp as (x & Hx & (c1 & c2 & Heq)%list_elem_of_split).
  destruct Hwf as (Ho & Hb0 & Hk & Hk16). pose proof (ordered_length _ _ _ Ho) as Hlen.
  unfold free. cbv zeta. unfold sizeof_Header. replace (a + 16 - 16) with a by lia.
  iApply wp_bind. iApply wp_getg. iApply wp_bind. iApply wp_getg. iApply wp_bind. rewrite Hx.
  iApply (wp_find g l a c1 x c2 with "Har"); [done|done|lia| | |].
  { intros y Hy. destruct (Hap y Hy); lia. }
  { apply (f_equal length) in Heq. rewrite length_app /= in Heq. lia. }
  iIntros (d1 q d2 [Heq2 [Hq Hbt]]) "Har". clear x Hx c1 c2 Heq.
  assert (q ∈ base_node :: l) as Hqin by (rewrite Heq2; set_solver).
  destruct (Hap q Hqin) as [Hqa|]; [|lia].
  destruct (wf_insert g l d1 q d2 a) as (Hq0 & e & Hoe & Hins); [done..|].
  unfold arena. rewrite Heq2 seg_split. iDestruct "Har" as "(Hd1 & Hq & Hd2)".
  iApply wp_bind. iApply (wp_join_upper with "Hq Hd2 Hh Hb"); [done|lia|done| |lia|].
  { destruct d2 as [|y d2]; simpl; [lia|]. destruct (Hap y); [rewrite Heq2; set_solver|lia|done]. }
  iIntros (nb d2' (Hnb & Ho' & Hl')) "Hq Hbp Hd2". apply ordered_range in Ho' as Hr.
  destruct (Hins nb d2') as [Hjoin Hput]; [lia|done|].
  iApply wp_bind. iApply (wp_join_lower with "Hq Hbp"); [lia..|]. iSplit.
  - iIntros "%He Hq". destruct (Hjoin He) as (l' & Heq' & Hwf'). iApply wp_setg; [done|].
    iApply ("HΦ" $! q.1 l'). { iPureIntro. apply (added_intro g l n d1 d2 d2' q (q.1, q.2 + nb) l' []); try done; simpl; [lia|].
      eexists. split; [by left|simpl; lia]. }
    unfold arena. rewrite Heq' seg_split. iFrame.
  - iIntros "%He Hq Hbp". destruct (Hput He) as (l' & Heq' & Hwf'). iApply wp_setg; [done|].
    iApply ("HΦ" $! q.1 l'). { iPureIntro. apply (added_intro g l n d1 d2 d2' q q l' [(a, nb)]); try done.
      exists (a, nb). split; [set_solver|done]. }
    unfold arena. rewrite Heq' seg_split. simpl. iFrame.
Qed.

(** ** [malloc] *)

(** The break never passes 64 GB. *)
Definition bounded_kernel : Prop := ∀ b n, sbrk_grants b n = true → b + n ≤ 2 ^ 36.

(** What [morecore] asks for. *)
Definition more (nu : Z) : Z := if nu <? 4096 then 4096 else nu.

Lemma wp_morecore g l nu (Φ : Z → kr → hprop) :
  bounded_kernel → wf g l → freep g ∈ (base_node :: l).*1 → 16 * more nu < 2 ^ 31 →
  arena l -∗
  ((∀ q l', ⌜added (mkkr q (kbrk g + 16 * more nu)) l (more nu) q l'⌝ -∗ arena l' -∗
      Φ q (mkkr q (kbrk g + 16 * more nu))) ∧
   (⌜sbrk_grants (kbrk g) (16 * more nu) = false⌝ -∗ arena l -∗ Φ 0 g)) -∗
  wp (morecore nu) Φ g.
Proof.
  iIntros (Hkern Hwf Hfp Hnu) "Ha HΦ". unfold morecore. cbv zeta. fold (more nu). unfold sizeof_Header.
  assert (1 ≤ more nu) as Hm by (unfold more; destruct (Z.ltb_spec nu 4096); lia).
  rewrite (Z.mul_comm (more nu) 16). iApply wp_bind. destruct (sbrk_grants (kbrk g) (16 * more nu)) eqn:Hg.
  - iDestruct "HΦ" as "[HΦ _]". pose proof (Hkern _ _ Hg) as Hmax. destruct Hwf as (Ho & Hb & Hk & Hk16).
    iApply wp_sbrk_ok; [lia|done|]. rewrite anybytes_zeros; [|lia]. simpl brk. iIntros "Hnew".
    destruct (Z.eqb_spec (kbrk g) SBRK_ERR) as [He|_]; [unfold SBRK_ERR in He; lia|].
    iDestruct (anybytes_used with "Hnew") as "(%k & (Hp & Hs & Hpad) & Hbody)"; [done|].
    iApply wp_bind. iApply (wp_store with "Hs"); [lia|]. iIntros "Hs". iApply wp_bind.
    set (g1 := set_brk (kbrk g + 16 * more nu) g).
    assert (wf g1 l) as Hwf1.
    { split_and!; [|done|simpl; lia|simpl; lia|simpl]. { eapply ordered_hi, Ho. simpl. lia. } rewrite -Z.add_mod_idemp_l // Hk16. dlia. }
    iApply (wp_free g1 l (kbrk g) (more nu) with "Ha [Hp Hs Hpad] Hbody"); [done|done|done|lia|done|simpl; lia|iFrame|].
    iIntros (q l' Had) "Ha". iApply wp_getg. simpl. by iApply ("HΦ" with "[] Ha").
  - iDestruct "HΦ" as "[_ HΦ]". iApply wp_sbrk_fail; [lia|done|]. simpl. iApply wp_ret. by iApply "HΦ".
Qed.

Lemma split_pred l c1 prev x c2 :
  base_node :: l = c1 ++ prev :: x :: c2 → ∃ L1, l = L1 ++ x :: c2 ∧ base_node :: L1 = c1 ++ [prev].
Proof.
  destruct c1 as [|z c1]; intros [= <- ->].
  - by exists [].
  - exists (c1 ++ [prev]). split; [|done]. by rewrite -(assoc_L (++)).
Qed.

Lemma wp_size l c1 x c2 (Φ : Z → kr → hprop) g :
  base_node :: l = c1 ++ x :: c2 →
  arena l -∗ (arena l -∗ Φ x.2 g) -∗ wp (load 4 (s_size x.1)) Φ g.
Proof.
  iIntros (Heq) "Ha HΦ". iDestruct (arena_node _ _ _ _ Heq with "Ha") as "[(Hp & Hs & Hr) Ha]".
  iApply (wp_load with "Hs"). iIntros "Hs". iApply "HΦ". iApply "Ha". iFrame.
Qed.

(** A block that can be handed out. *)
Definition usable g a n : Prop := base + 16 ≤ a ∧ a `mod` 16 = 0 ∧ 1 ≤ n ∧ a + 16 * n ≤ kbrk g.

(** The block [x] is used up or loses its upper part. *)
Lemma wf_take g l L1 x c2 nu ys :
  wf g l → l = L1 ++ x :: c2 → 1 ≤ nu ≤ x.2 →
  ys = (if x.2 =? nu then [] else [(x.1, x.2 - nu)]) →
  wf g (L1 ++ ys ++ c2) ∧ usable g (x.1 + 16 * (x.2 - nu)) nu ∧ 0 < x.1 ∧ x.2 < 2 ^ 32 ∧ hd_addr c2 base < 2 ^ 36 ∧ 0 ≤ hd_addr c2 base.
Proof.
  intros (Ho & Hb & Hk & Hk16) -> Hnu ->.
  destruct (ordered_elem _ _ _ x Ho) as (? & ? & Hx16 & ?); [set_solver|]. unfold wf, usable. split_and!; try (done || lia || dlia).
  - destruct (Z.eqb_spec x.2 nu); simpl; [by eapply ordered_remove|]. apply ordered_shrink; [done|lia].
  - destruct c2 as [|y c2]; simpl; [lia|]. destruct (ordered_elem _ _ _ y Ho) as (? & ? & ? & ?); [set_solver|lia].
  - destruct c2 as [|y c2]; simpl; [lia|]. destruct (ordered_elem _ _ _ y Ho) as (? & ? & ? & ?); [set_solver|lia].
Qed.

(** The upper [nu] units of a block. *)
Lemma body_split a n nu :
  1 ≤ nu < n → body a n ⊢ body a (n - nu) ∗ ∃ k, header (a + 16 * (n - nu)) k ∗ body (a + 16 * (n - nu)) nu.
Proof.
  iIntros (Hnu) "H". unfold body at 1. iDestruct (anybytes_cut _ _ (16 * (n - nu - 1)) with "H") as "[H1 H2]"; [lia|].
  replace (16 * (n - 1) - 16 * (n - nu - 1)) with (16 * nu) by lia.
  replace (a + 16 + 16 * (n - nu - 1)) with (a + 16 * (n - nu)) by lia.
  rewrite (anybytes_used _ nu); [|lia]. iFrame.
Qed.

Lemma node_body x nx : 1 ≤ x.2 → node x nx ⊢ s_ptr x.1 ↦₈ nx ∗ s_size x.1 ↦₄ x.2 ∗ anybytes (x.1 + 12) 4 ∗ body x.1 x.2.
Proof. iIntros (Hx) "($ & $ & $ & Hb)". unfold body. by replace (Z.max 0 (x.2 - 1)) with (x.2 - 1) by lia. Qed.

(** [nu] units were taken from [l]. *)
Definition taken g (prev : Z) l nu a l' : Prop :=
  wf g l' ∧ prev ∈ (base_node :: l').*1 ∧ usable g a nu.

Lemma wp_take g l c1 prev x c2 nu (Φ : Z → kr → hprop) :
  wf g l → base_node :: l = c1 ++ prev :: x :: c2 → 1 ≤ nu ≤ x.2 →
  arena l -∗
  (∀ a l', ⌜taken g prev.1 l nu a l'⌝ -∗ arena l' -∗ header a nu -∗ body a nu -∗
     Φ (a + 16) (mkkr prev.1 (kbrk g))) -∗
  wp (take_block nu prev.1 x.1) Φ g.
Proof.
  iIntros (Hwf Heq Hnu) "Ha HΦ". unfold take_block, sizeof_Header.
  iApply wp_bind. iApply (wp_size _ (c1 ++ [prev]) _ c2 with "Ha"); [by rewrite Heq -(assoc_L (++))|]. iIntros "Ha".
  destruct (split_pred _ _ _ _ _ Heq) as (L1 & Hl & HL1).
  destruct (wf_take g l L1 x c2 nu _ Hwf Hl Hnu eq_refl) as (Hwf' & Hu & Hx0 & Hx32 & Hhd1 & Hhd2).
  iEval (unfold arena; rewrite Heq free_seg_app /=) in "Ha". iDestruct "Ha" as "(Hc1 & Hprev & Hx & Hc2)".
  assert (∀ ys, base_node :: L1 ++ ys ++ c2 = c1 ++ prev :: ys ++ c2) as HS.
  { intros ys. change (base_node :: L1 ++ ys ++ c2) with ((base_node :: L1) ++ ys ++ c2). by rewrite HL1 -(assoc_L (++)). }
  iApply wp_bind. rewrite (node_body x); [|lia]. iDestruct "Hx" as "(Hxp & Hxs & Hxpad & Hxb)".
  destruct (Z.eqb_spec x.2 nu) as [He|He].
  - wp_load "Hxp". iApply wp_bind. iDestruct "Hprev" as "(Hpp & Hpr)".
    iApply (wp_store with "Hpp"); [change (Z.of_nat 8) with 8; lia|]. iIntros "Hpp". iApply wp_ret.
    iApply wp_bind. iApply wp_setg; [done|]. iApply wp_ret.
    replace (x.1 + 16 * (x.2 - nu)) with x.1 in Hu by lia. rewrite He.
    iDestruct (word_anybytes with "Hxp") as "Hxp".
    iApply ("HΦ" $! x.1 with "[] [Hc1 Hpp Hpr Hc2] [$Hxs $Hxp $Hxpad] Hxb").
    + iPureIntro. split; [exact Hwf'|]. split; [|done]. rewrite HS. rewrite fmap_app. set_solver.
    + unfold arena. rewrite HS free_seg_app /=. iFrame.
  - iApply wp_bind. rewrite (wrap_small 32); [|lia]. iApply (wp_store with "Hxs"); [lia|]. iIntros "Hxs".
    wp_load "Hxs". iDestruct (body_split x.1 x.2 nu with "Hxb") as "(Hxb & %k & (Hap & Has & Hapad) & Hab)"; [lia|].
    iApply wp_bind. iApply (wp_store with "Has"); [lia|]. iIntros "Has". iApply wp_ret.
    iApply wp_bind. iApply wp_setg; [done|]. iApply wp_ret.
    iApply ("HΦ" with "[] [Hc1 Hprev Hc2 Hxp Hxs Hxpad Hxb] [$Has $Hap $Hapad] Hab").
    + iPureIntro. split; [exact Hwf'|]. split; [|done]. rewrite HS. rewrite fmap_app. set_solver.
    + unfold arena. rewrite HS free_seg_app /=. iFrame "Hc1 Hprev Hc2". iApply used_node. iFrame. iPureIntro. lia.
Qed.

(** The loop passes the blocks [d], which do not contain [freep], unless one fits. *)
Lemma wp_scan g l c1 prev d c2 nu fuel (Φ : Z → kr → hprop) :
  wf g l → base_node :: l = c1 ++ prev :: d ++ c2 → 1 ≤ nu → freep g ∉ d.*1 →
  arena l -∗
  ((∀ p a l', ⌜taken g p l nu a l'⌝ -∗ arena l' -∗ header a nu -∗ body a nu -∗ Φ (a + 16) (mkkr p (kbrk g))) ∧
   (∀ c1' prev', ⌜base_node :: l = c1' ++ prev' :: c2 ∧ c1' ++ [prev'] = c1 ++ prev :: d ∧ ∀ y, y ∈ d → y.2 < nu⌝ -∗
      arena l -∗ wp (malloc_loop fuel nu prev'.1 (hd_addr c2 base)) Φ g)) -∗
  wp (malloc_loop (length d + fuel) nu prev.1 (hd_addr (d ++ c2) base)) Φ g.
Proof.
  iIntros (Hwf Heq Hnu Hfp) "Ha HΦ". iInduction d as [|x d] "IH" forall (c1 prev Heq Hfp).
  { iDestruct "HΦ" as "[_ HΦ]". iApply ("HΦ" $! c1 prev with "[] Ha"). iPureIntro. split_and!; [done|done|by intros y ?%elem_of_nil]. }
  cbn [malloc_loop length Nat.add hd_addr app]. simpl in Heq.
  iApply wp_bind. iApply (wp_size _ (c1 ++ [prev]) x (d ++ c2) with "Ha"); [by rewrite Heq -(assoc_L (++))|]. iIntros "Ha".
  destruct (Z.leb_spec nu x.2).
  { iDestruct "HΦ" as "[HΦ _]". iApply (wp_take with "Ha"); [done|exact Heq|lia|]. iIntros (a l' Ht). iApply "HΦ". done. }
  iApply wp_bind. iApply wp_getg. destruct (Z.eqb_spec x.1 (freep g)); [set_solver|].
  iApply wp_bind. iApply (wp_next _ (c1 ++ [prev]) x (d ++ c2) with "Ha"); [by rewrite Heq -(assoc_L (++))|]. iIntros "Ha".
  iApply ("IH" $! (c1 ++ [prev]) x with "[] [] Ha"); [iPureIntro; by rewrite Heq -(assoc_L (++))|iPureIntro; set_solver|]. iSplit.
  - iDestruct "HΦ" as "[$ _]".
  - iDestruct "HΦ" as "[_ HΦ]". iIntros (c1' prev' (Heq' & Hc & Hd)). iApply "HΦ". iPureIntro.
    split_and!; [done|by rewrite Hc -(assoc_L (++))|]. intros y [->|?]%elem_of_cons; [lia|auto].
Qed.

Lemma wf_nodup g l : wf g l → NoDup (base_node :: l).*1.
Proof.
  intros (Ho & _). rewrite fmap_cons. apply NoDup_cons. split.
  - intros (x & Hx & Hin)%list_elem_of_fmap. apply (ordered_elem _ _ _ x) in Ho; [|done]. simpl in Hx. lia.
  - revert Ho. generalize (base + 15) as lo. clear. induction l as [|x l IH]; intros lo; simpl; [constructor|].
    intros (? & ? & _ & Ho). constructor; [|by eapply IH].
    intros (y & Hy & Hin)%list_elem_of_fmap. apply (ordered_elem _ _ _ y) in Ho; [lia|done].
Qed.

(** What [malloc] does after a whole round without success. *)
Definition retry (fuel : nat) (nu : Z) : R Z :=
  q ← morecore nu;
  if q =? 0 then mret 0 else
  nx ← load 8 (s_ptr q);
  malloc_loop fuel nu q nx.

Lemma wp_retry g l c1 f c2 nu fuel prev (Φ : Z → kr → hprop) :
  base_node :: l = c1 ++ f :: c2 → f.1 = freep g → f.2 < nu →
  arena l -∗ (arena l -∗ wp (retry fuel nu) Φ g) -∗ wp (malloc_loop (S fuel) nu prev f.1) Φ g.
Proof.
  iIntros (Heq Hf Hn) "Ha HΦ". cbn [malloc_loop]. iApply wp_bind. iApply (wp_size with "Ha"); [exact Heq|]. iIntros "Ha".
  destruct (Z.leb_spec nu f.2); [lia|]. iApply wp_bind. iApply wp_getg. rewrite Hf Z.eqb_refl. by iApply "HΦ".
Qed.

(** A round from [freep] back to it. *)
Lemma wp_search g l c1 f c2 nu fuel (Φ : Z → kr → hprop) :
  wf g l → base_node :: l = c1 ++ f :: c2 → f.1 = freep g → 1 ≤ nu →
  arena l -∗
  ((∀ p a l', ⌜taken g p l nu a l'⌝ -∗ arena l' -∗ header a nu -∗ body a nu -∗ Φ (a + 16) (mkkr p (kbrk g))) ∧
   (⌜∀ y, y ∈ l → y.2 < nu⌝ -∗ arena l -∗ wp (retry fuel nu) Φ g)) -∗
  wp (malloc_loop (S (length l) + fuel) nu f.1 (hd_addr c2 base)) Φ g.
Proof.
  iIntros (Hwf Heq Hf Hnu) "Ha HΦ". pose proof (wf_nodup _ _ Hwf) as Hnd. rewrite Heq fmap_app in Hnd.
  apply NoDup_app in Hnd as (_ & Hn1 & Hn2). rewrite fmap_cons in Hn2. apply NoDup_cons in Hn2 as [Hn2 _].
  assert (S (length l) + fuel = length c2 + (length c1 + S fuel))%nat as ->.
  { apply (f_equal length) in Heq. rewrite length_app /= in Heq. lia. }
  iPoseProof (wp_scan g l c1 f c2 [] nu (length c1 + S fuel) Φ) as "Hscan"; [done|by rewrite (right_id_L [] (++))|done|by rewrite -Hf|].
  rewrite (right_id_L [] (++)). iApply ("Hscan" with "Ha"). iSplit; [iDestruct "HΦ" as "[$ _]"|].
  iIntros (c1' prev' (_ & _ & Hd)) "Ha". simpl hd_addr. destruct c1 as [|z c1]; injection Heq as Hz Heq.
  - subst f l. iDestruct "HΦ" as "[_ HΦ]". simpl in Hf. change base with (base_node.1) at 2.
    iApply (wp_retry g c2 [] base_node c2 with "Ha"); [done|done|simpl; lia|]. by iApply "HΦ".
  - subst z. assert (base_node.1 ≠ freep g) as Hbf.
    { rewrite -Hf. intros Hb. apply (Hn1 base_node.1); [set_solver|]. rewrite Hb. set_solver. }
    cbn [length Nat.add malloc_loop]. iApply wp_bind. change base with (base_node.1) at 2.
    iApply (wp_size _ [] base_node l with "Ha"); [done|]. iIntros "Ha". simpl snd. destruct (Z.leb_spec nu 0); [lia|].
    iApply wp_bind. iApply wp_getg. change (base_node.1) with base. destruct (Z.eqb_spec base (freep g)); [done|].
    iApply wp_bind. iApply (wp_next _ [] base_node l with "Ha"); [done|]. iIntros "Ha".
    assert (hd_addr l base = hd_addr (c1 ++ f :: c2) base) as -> by (by rewrite Heq).
    iApply (wp_scan g l [] base_node c1 (f :: c2) with "Ha"); [done|by rewrite Heq|done| |].
    { intros Hin. apply (Hn1 f.1); [rewrite Hf; set_solver|set_solver]. }
    iSplit; [iDestruct "HΦ" as "[$ _]"|]. iIntros (c1'' prev'' (Heq'' & _ & Hd1)) "Ha". simpl hd_addr.
    destruct (decide (nu ≤ f.2)).
    + cbn [malloc_loop]. iApply wp_bind. iApply (wp_size _ (c1'' ++ [prev'']) f c2 with "Ha"); [by rewrite Heq'' -(assoc_L (++))|].
      iIntros "Ha". destruct (Z.leb_spec nu f.2); [|lia]. iDestruct "HΦ" as "[HΦ _]".
      iApply (wp_take with "Ha"); [done|exact Heq''|lia|]. iIntros (a l' Ht). iApply "HΦ". done.
    + iApply (wp_retry g l (base_node :: c1) f c2 with "Ha"); [by rewrite Heq|done|lia|].
      iDestruct "HΦ" as "[_ HΦ]". iApply "HΦ". iPureIntro. rewrite Heq. intros y.
      rewrite elem_of_app elem_of_cons. intros [?|[->|?]]; [auto|lia|auto].
Qed.

(** The allocator once [malloc] was called. *)
Definition ready g : hprop := (∃ l, ⌜wf g l ∧ freep g ∈ (base_node :: l).*1⌝ ∗ arena l)%I.

Definition malloc_post g nu (p : Z) g' : hprop :=
  (ready g' ∗ ⌜kbrk g ≤ kbrk g'⌝ ∗
   (⌜p = 0 ∧ sbrk_grants (kbrk g) (16 * more nu) = false⌝ ∨
    ∃ a, ⌜p = (a + 16)%Z ∧ usable g' a nu⌝ ∗ header a nu ∗ body a nu))%I.

Lemma malloc_post_taken g1 g nu p a l l' :
  taken g p l nu a l' → kbrk g1 ≤ kbrk g →
  arena l' -∗ header a nu -∗ body a nu -∗ malloc_post g1 nu (a + 16) (mkkr p (kbrk g)).
Proof.
  iIntros ((Hwf & Hp & Hu) Hk) "Ha Hh Hb". iSplitL "Ha".
  - iExists l'. iFrame. by iPureIntro.
  - iSplit; [done|]. iRight. iExists a. iFrame. by iPureIntro.
Qed.

Lemma wp_malloc_ready g nu :
  bounded_kernel → 1 ≤ nu → 16 * more nu < 2 ^ 31 →
  ready g ⊢ wp (b ← getg kbrk; nx ← load 8 (s_ptr (freep g)); malloc_loop (Z.to_nat (2 * b) + 4) nu (freep g) nx)
    (malloc_post g nu) g.
Proof.
  iIntros (Hkern Hnu Hm) "(%l & [%Hwf %Hfp] & Ha)". iApply wp_bind. iApply wp_getg. iApply wp_bind.
  pose proof Hfp as Hfp0. apply list_elem_of_fmap in Hfp0 as (f & Hf & (c1 & c2 & Heq)%list_elem_of_split). rewrite Hf.
  iApply (wp_next with "Ha"); [exact Heq|]. iIntros "Ha". pose proof Hwf as (Ho & Hb & Hk & _).
  pose proof (ordered_length _ _ _ Ho) as Hlen.
  assert (∃ fuel, Z.to_nat (2 * kbrk g) + 4 = S (length l) + (S (S (length l)) + fuel))%nat as [fuel ->].
  { exists (Z.to_nat (2 * kbrk g) + 1 - 2 * length l)%nat. lia. }
  assert (nu ≤ more nu) as Hmore by (unfold more; destruct (Z.ltb_spec nu 4096); lia).
  iApply (wp_search with "Ha"); [done|exact Heq|done|done|]. iSplit.
  { iIntros (p a l' Ht) "Ha Hh Hb". by iApply (malloc_post_taken with "Ha Hh Hb"). }
  iIntros "%Hno Ha". unfold retry. iApply wp_bind. iApply (wp_morecore with "Ha"); [done|done|done|done|]. iSplit.
  - iIntros (q l' (Hwf' & Hq & Hll & y & Hy & Hny)) "Ha". pose proof Hq as Hq0.
    apply list_elem_of_fmap in Hq0 as (x & -> & Hx). pose proof (wf_base _ _ _ Hwf' Hx) as Hxb.
    destruct (Z.eqb_spec x.1 0); [lia|]. apply list_elem_of_split in Hx as (c1' & c2' & Heq').
    iApply wp_bind. iApply (wp_next with "Ha"); [exact Heq'|]. iIntros "Ha".
    assert (∃ fuel', S (S (length l)) + fuel = S (length l') + fuel')%nat as [fuel' ->].
    { exists (S (length l) - length l' + fuel)%nat. lia. }
    iApply (wp_search with "Ha"); [done|exact Heq'|done|done|]. iSplit.
    + iIntros (p a l'' Ht) "Ha Hh Hb". iApply (malloc_post_taken with "Ha Hh Hb"); [exact Ht|simpl; lia].
    + iIntros "%Hno'". specialize (Hno' y Hy). lia.
  - iIntros "%Href Ha". simpl. iApply wp_ret. iSplitL; [iExists l; iFrame; by iPureIntro|]. iSplit; [iPureIntro; lia|]. by iLeft.
Qed.

(** The allocator before the first call: [freep] is null. *)
Definition fresh g : hprop :=
  (⌜freep g = 0 ∧ wf g []⌝ ∗ anybytes base 16)%I.

(** The first call of [malloc] makes the list. *)
Definition prev_of (fp : Z) : R Z :=
  if fp =? 0 then store 8 (s_ptr base) base;; set_freep base;; store 4 (s_size base) 0;; mret base else mret fp.

Lemma wp_first g (Φ : Z → kr → hprop) :
  fresh g ∨ ready g -∗ (∀ g', ⌜kbrk g' = kbrk g⌝ -∗ ready g' -∗ Φ (freep g') g') -∗ wp (prev_of (freep g)) Φ g.
Proof.
  iIntros "Hg HΦ". unfold prev_of. iDestruct "Hg" as "[([%Hf %Hwf] & Hb)|Hr]".
  - rewrite Hf. simpl. destruct Hwf as (Ho & Hb & Hk & Hk16). iApply wp_bind.
    iDestruct (anybytes_used base 1 with "Hb") as "(%k & (Hp & Hs & Hpad) & Hbody)"; [lia|].
    iApply (wp_set_ptr with "Hp"); [lia|]. iIntros "Hp". iApply wp_bind. iApply wp_setg; [done|].
    iApply wp_bind. iApply (wp_store with "Hs"); [done|]. iIntros "Hs". iApply wp_ret.
    iApply ("HΦ" $! (mkkr base (kbrk g)) with "[//]").
    iExists []. iSplit; [iPureIntro; split; [done|simpl; set_solver]|]. unfold arena. simpl. iSplitL; [|done].
    iFrame.
  - iAssert (⌜freep g ≠ 0⌝)%I as %Hf.
    { iDestruct "Hr" as "(%l & [%Hwf %Hfp] & _)". iPureIntro. apply list_elem_of_fmap in Hfp as (x & -> & Hx).
      pose proof (wf_base _ _ _ Hwf Hx). destruct Hwf as (_ & ? & _). lia. }
    destruct (Z.eqb_spec (freep g) 0); [done|]. iApply wp_ret. by iApply ("HΦ" with "[//]").
Qed.

Lemma wp_malloc g n :
  bounded_kernel → 16 * more (units n) < 2 ^ 31 →
  fresh g ∨ ready g ⊢ wp (malloc n) (malloc_post g (units n)) g.
Proof.
  iIntros (Hkern Hm) "Hg". assert (1 ≤ units n) as Hu.
  { unfold units, sizeof_Header. rewrite (wrap_small 32 (_ + 1)); pose proof (wrap_range 32 n); dlia. }
  unfold malloc. cbv zeta. iApply wp_bind. iApply wp_getg. iApply wp_bind. iApply (wp_first with "Hg").
  iIntros (g' Hk) "Hr". iApply (wp_wand with "[Hr]"); [by iApply wp_malloc_ready|]. iIntros (p g'') "Hpost".
  unfold malloc_post. by rewrite Hk.
Qed.

(** ** Programs that use the allocator *)

(** A block of a program: the address of its header, its units, its contents. *)
Record kblock := mkblock { kaddr : Z; kunits : Z; kdata : list Z }.

Definition block_at (x : kblock) : hprop :=
  (header (kaddr x) (kunits x) ∗ bytes (kaddr x + 16) (kdata x) ∗
   ⌜Z.of_nat (length (kdata x)) = (16 * (kunits x - 1))%Z ∧ Forall is_byte (kdata x)⌝)%I.

Definition kstate g (live : list kblock) : hprop :=
  (⌜∀ x, x ∈ live → usable g (kaddr x) (kunits x)⌝ ∗ ((fresh g ∗ ⌜live = []⌝) ∨ ready g) ∗
   [∗ list] x ∈ live, block_at x)%I.

Record kclient := mkclient { kst : st kr; klive : list kblock }.

Inductive kstep : kclient → kclient → Prop :=
  | k_malloc c n p s' bs :
      16 * more (units n) < 2 ^ 31 → malloc n (kst c) = Ok p s' → p ≠ 0 →
      loadbytes (Z.to_nat (16 * (units n - 1))) (mem s') p = Some bs →
      kstep c (mkclient s' (mkblock (p - 16) (units n) bs :: klive c))
  | k_refused c n s' :
      16 * more (units n) < 2 ^ 31 → malloc n (kst c) = Ok 0 s' → kstep c (mkclient s' (klive c))
  | k_free c k1 x k2 s' :
      klive c = k1 ++ x :: k2 → free (kaddr x + 16) (kst c) = Ok () s' → kstep c (mkclient s' (k1 ++ k2))
  | k_write c k1 x k2 (i : nat) v s' :
      klive c = k1 ++ x :: k2 → (i < length (kdata x))%nat → 0 ≤ v < 256 →
      store 1 (kaddr x + 16 + Z.of_nat i) v (kst c) = Ok () s' →
      kstep c (mkclient s' (k1 ++ mkblock (kaddr x) (kunits x) (<[i := v]> (kdata x)) :: k2)).

(** The memory is the allocator's, the live blocks and the rest [u]. *)
Definition kvalid (c : kclient) (u : bytemap) : Prop :=
  sat (kstate (glob (kst c)) (klive c)) (mem (kst c)) u ∧ machine_ok (dom (mem (kst c))) (glob (kst c)).

Lemma krun {A} (m : R A) (Φ : A → kr → hprop) c u :
  kvalid c u → (kstate (glob (kst c)) (klive c) ⊢ wp m Φ (glob (kst c))) →
  ∃ a s', m (kst c) = Ok a s' ∧ sat (Φ a (glob s')) (mem s') u ∧ machine_ok (dom (mem s')) (glob s').
Proof.
  intros [Hs Hok] Hwp. by apply (sat_run_ok m Φ _ _ u Hs Hok).
Qed.

Lemma usable_mono g g' a n : kbrk g ≤ kbrk g' → usable g a n → usable g' a n.
Proof. unfold usable. lia. Qed.

Lemma body_block a n : header a n ∗ body a n ⊢ ∃ bs, block_at (mkblock a n bs).
Proof.
  unfold body, anybytes. iIntros "[Hh (%bs & [%Hl %Hb] & H)]". iExists bs. unfold block_at. simpl. iFrame. by iPureIntro.
Qed.

Lemma block_body x : block_at x ⊢ header (kaddr x) (kunits x) ∗ body (kaddr x) (kunits x).
Proof. iIntros "($ & Hb & [%Hl %Hby])". unfold body. rewrite -Hl. by iApply bytes_anybytes. Qed.

(** [malloc] in a program. *)
Definition kmalloc_post live nu (p : Z) g' : hprop :=
  (⌜p = 0⌝ ∗ kstate g' live ∨ ⌜p ≠ 0⌝ ∗ ∃ bs, kstate g' (mkblock (p - 16) nu bs :: live))%I.

Lemma wp_kmalloc g live n :
  bounded_kernel → 16 * more (units n) < 2 ^ 31 →
  kstate g live ⊢ wp (malloc n) (kmalloc_post live (units n)) g.
Proof.
  iIntros (Hkern Hm) "(%Hu & Hg & Hl)".
  iAssert (fresh g ∨ ready g)%I with "[Hg]" as "Hg".
  { iDestruct "Hg" as "[[Hg _]|Hg]"; [by iLeft|by iRight]. }
  iApply (wp_wand with "[Hg]"); [by iApply (wp_malloc g n)|].
  iIntros (p g') "(Hr & %Hk & [[-> _]|(%a & [-> %Hus] & Hh & Hb)])".
  - iLeft. iSplit; [done|]. iSplit; [iPureIntro; intros x Hx; by eapply usable_mono, Hu|]. iFrame.
  - iRight. destruct Hus as (Ha1 & Ha2 & Ha3 & Ha4).
    iAssert ⌜0 < base⌝%I as %Hb0. { iDestruct "Hr" as "(%l & [(_ & %Hb0 & _) _] & _)". done. }
    iSplit; [iPureIntro; lia|]. replace (a + 16 - 16) with a by lia.
    iDestruct (body_block with "[$Hh $Hb]") as "(%bs & Hb)". iExists bs. iSplit; [|iFrame].
    iPureIntro. intros x [->|Hx]%elem_of_cons; [done|]. by eapply usable_mono, Hu.
Qed.

Lemma wp_free_unit g k1 x k2 :
  kstate g (k1 ++ x :: k2) ⊢ wp (free (kaddr x + 16)) (λ _ g', kstate g' (k1 ++ k2)) g.
Proof.
  iIntros "(%Hu & Hg & Hl)". iDestruct "Hg" as "[[_ %Hn]|(%l & [%Hwf %Hfp] & Ha)]"; [by destruct k1|].
  rewrite big_sepL_app /=. iDestruct "Hl" as "(Hl1 & Hx & Hl2)". rewrite block_body. iDestruct "Hx" as "[Hh Hb]".
  destruct (Hu x) as (Ha1 & Ha2 & Ha3 & Ha4); [set_solver|].
  iApply (wp_free with "Ha Hh Hb"); [done..|]. iIntros (q l' (Hwf' & Hq & _)) "Ha". iSplit.
  - iPureIntro. intros y Hy. apply Hu. set_solver.
  - rewrite big_sepL_app. iFrame "Hl1 Hl2". iRight. iExists l'. iFrame. by iPureIntro.
Qed.

(** Store into one byte of a range. *)
Lemma wp_byte a bs (i : nat) v (Φ : unit → kr → hprop) g :
  (i < length bs)%nat → 0 ≤ v < 256 → Forall is_byte bs →
  bytes a bs -∗ (bytes a (<[i := v]> bs) -∗ Φ () g) -∗ wp (store 1 (a + Z.of_nat i) v) Φ g.
Proof.
  iIntros (Hi Hv Hby) "Hb HΦ". destruct (lookup_lt_is_Some_2 _ _ Hi) as [w Hw].
  apply list_elem_of_split_length in Hw as (b1 & b2 & -> & ->). apply Forall_app in Hby as [_ Hby].
  apply Forall_cons in Hby as [Hw _]. rewrite insert_app_r_alt // Nat.sub_diag /= !bytes_app.
  iDestruct "Hb" as "[Hb1 Hb]". rewrite (bytes_cons _ w) (bytes_cons _ v). iDestruct "Hb" as "[Hw Hb2]".
  rewrite (byte_word _ w Hw). iApply (wp_store with "Hw"); [lia|]. iIntros "Hw". iApply "HΦ".
  rewrite byte_word; [|done]. iFrame.
Qed.

Lemma wp_kwrite g k1 x k2 (i : nat) v :
  (i < length (kdata x))%nat → 0 ≤ v < 256 →
  kstate g (k1 ++ x :: k2) ⊢ wp (store 1 (kaddr x + 16 + Z.of_nat i) v)
    (λ _ g', kstate g' (k1 ++ mkblock (kaddr x) (kunits x) (<[i := v]> (kdata x)) :: k2)) g.
Proof.
  iIntros (Hi Hv) "(%Hu & Hg & Hl)". rewrite big_sepL_app /=. iDestruct "Hl" as "(Hl1 & (Hh & Hb & [%Hlen %Hby]) & Hl2)".
  iApply (wp_byte with "Hb"); [done..|]. iIntros "Hb". iSplit; [|iSplitL "Hg"].
  - iPureIntro. intros y. rewrite elem_of_app elem_of_cons.
    intros [Hy|[->|Hy]]; [|apply (Hu x)|]; [apply Hu; set_solver|set_solver|apply Hu; set_solver].
  - iDestruct "Hg" as "[[_ %Hn]|Hg]"; [by destruct k1|by iRight].
  - rewrite big_sepL_app /=. iFrame "Hl1 Hl2 Hh Hb". iPureIntro. simpl. rewrite length_insert. split; [done|].
    by apply Forall_insert.
Qed.

(** *** Every step keeps the program and the allocator apart *)

Lemma kstep_valid c c' u : bounded_kernel → kstep c c' → kvalid c u → kvalid c' u.
Proof.
  intros Hkern Hs Hv. destruct Hs as [c n p s' bs Hn Hr Hp Hbs|c n s' Hn Hr|c k1 x k2 s' Hl Hr|c k1 x k2 i v s' Hl Hi Hv' Hr].
  - destruct (krun _ _ _ _ Hv (wp_kmalloc _ _ n Hkern Hn)) as (p' & s'' & Hr' & Hsat & Hok).
    rewrite Hr in Hr'. injection Hr' as <- <-. split; [|done].
    apply sat_or in Hsat as [[? _]%sat_pure|[_ [bs' Hsat]%sat_exist]%sat_pure]; [done|].
    assert (bs' = bs) as ->; [|done].
    assert (Z.of_nat (length bs') = 16 * (units n - 1)) as Hlen.
    { apply (sat_mono _ (⌜Z.of_nat (length bs') = (16 * (units n - 1))%Z⌝ ∗ emp)%I) in Hsat as [? _]%sat_pure; [done|].
      iIntros "(_ & _ & (_ & _ & [% _]) & _)". by iPureIntro. }
    apply (sat_load _ p bs') in Hsat.
    + rewrite -Hlen Nat2Z.id Hsat in Hbs. congruence.
    + iIntros "(_ & _ & (_ & Hb & _) & _)". simpl. by replace (p - 16 + 16) with p by lia.
  - destruct (krun _ _ _ _ Hv (wp_kmalloc _ _ n Hkern Hn)) as (p' & s'' & Hr' & Hsat & Hok).
    rewrite Hr in Hr'. injection Hr' as <- <-. split; [|done].
    by apply sat_or in Hsat as [[_ ?]%sat_pure|[? _]%sat_pure].
  - destruct (krun (free (kaddr x + 16)) (λ _ g', kstate g' (k1 ++ k2)) c u Hv) as ([] & s'' & Hr' & Hsat & Hok).
    { rewrite Hl. apply wp_free_unit. }
    rewrite Hr in Hr'. injection Hr' as <-. by split.
  - destruct (krun (store 1 (kaddr x + 16 + Z.of_nat i) v) (λ _ g', kstate g' (k1 ++ mkblock (kaddr x) (kunits x) (<[i := v]> (kdata x)) :: k2)) c u Hv)
      as ([] & s'' & Hr' & Hsat & Hok).
    { rewrite Hl. by apply wp_kwrite. }
    rewrite Hr in Hr'. injection Hr' as <-. by split.
Qed.

Lemma kreach_valid c c' u : bounded_kernel → rtc kstep c c' → kvalid c u → kvalid c' u.
Proof. induction 2; eauto using kstep_valid. Qed.

(** Blocks as ranges of addresses. *)
Definition kapart (x y : kblock) : Prop :=
  kaddr x + 16 * kunits x ≤ kaddr y ∨ kaddr y + 16 * kunits y ≤ kaddr x.

Lemma blocks_apart (live : list kblock) :
  (∀ x, x ∈ live → 1 ≤ kunits x) → ([∗ list] x ∈ live, block_at x) ⊢ ⌜ForallOrdPairs kapart live⌝.
Proof.
  induction live as [|x live IH]; intros Hu; [iIntros "_"; iPureIntro; constructor|]. simpl. iIntros "[Hx Hl]".
  iDestruct (IH with "Hl") as %Hl; [set_solver|].
  iAssert ⌜∀ y, y ∈ live → kapart x y⌝%I as %Hx.
  { iIntros "%y %Hy". apply list_elem_of_split in Hy as (k1 & k2 & ->). rewrite big_sepL_app /=.
    iDestruct "Hl" as "(_ & Hy & _)". rewrite !block_body. rewrite !used_anybytes; [|apply Hu; set_solver..].
    pose proof (Hu x ltac:(set_solver)). pose proof (Hu y ltac:(set_solver)).
    iDestruct (anybytes_disjoint with "[$Hx $Hy]") as %?; [lia..|]. done. }
  iPureIntro. constructor; [|done]. by apply Forall_forall.
Qed.
End proofs.

Section claims.
Context `{BaseAt, Kernel}.

(** The memory a program starts with: [base], cleared or not, and the rest. *)
Definition kstart (s : st kr) (u : bytemap) : Prop :=
  freep (glob s) = 0 ∧ 0 < base ∧ base + 16 ≤ kbrk (glob s) ≤ 2 ^ 36 ∧ kbrk (glob s) `mod` 16 = 0 ∧
  machine_ok (dom (mem s)) (glob s) ∧ ∃ b, is_block base 16 b ∧ b ##ₘ u ∧ mem s = b ∪ u.

Lemma kstart_valid s u : kstart s u → kvalid (mkclient s []) u.
Proof.
  intros (Hf & Hb & Hk & Hk16 & Hok & b & Hblk & Hd & Hm). split; [|done].
  apply (sat_mono (anybytes base 16)); [|exists b; split_and!; [done|done|by apply is_block_anybytes]]. iIntros "Hb".
  iSplit; [iPureIntro; by intros x ?%elem_of_nil|]. iSplitL; [|done]. iLeft. iSplitL; [|done]. iFrame. iPureIntro.
  split; [done|]. unfold wf. simpl. split_and!; done || lia.
Qed.

Lemma units_enough n : u32 n ≤ 16 * (units n - 1).
Proof.
  unfold units, sizeof_Header. pose proof (wrap_range 32 n ltac:(lia)). rewrite (wrap_small 32 (_ + 1)); dlia.
Qed.

Lemma kvalid_blocks c u :
  kvalid c u →
  ForallOrdPairs kapart (klive c) ∧
  ∀ x, x ∈ klive c → kaddr x `mod` 16 = 0 ∧ Z.of_nat (length (kdata x)) = 16 * (kunits x - 1) ∧
    loadbytes (length (kdata x)) (mem (kst c)) (kaddr x + 16) = Some (kdata x).
Proof.
  intros [Hs _]. pose proof Hs as [Hu _]%sat_pure. split.
  - apply (sat_mono _ (⌜ForallOrdPairs kapart (klive c)⌝ ∗ emp)%I) in Hs as [? _]%sat_pure; [done|].
    iIntros "(_ & _ & Hl)". iSplit; [|done]. iApply (blocks_apart with "Hl"). intros x Hx. apply (Hu x Hx).
  - intros x Hx. split; [apply (Hu x Hx)|]. apply list_elem_of_split in Hx as (k1 & k2 & Hl). split.
    + apply (sat_mono _ (⌜Z.of_nat (length (kdata x)) = (16 * (kunits x - 1))%Z⌝ ∗ emp)%I) in Hs as [? _]%sat_pure; [done|].
      rewrite Hl. iIntros "(_ & _ & Hl)". rewrite big_sepL_app /=. iDestruct "Hl" as "(_ & (_ & _ & [% _]) & _)". by iPureIntro.
    + eapply sat_load, Hs. rewrite Hl. iIntros "(_ & _ & Hl)". rewrite big_sepL_app /=. iDestruct "Hl" as "(_ & (_ & $ & _) & _)".
Qed.

(** The free list as the program's memory has it: [base], then the blocks [c], each
    with its size and the address of the next, the last with the address [e]. *)
Fixpoint listed (s : st kr) (c : list block) (e : Z) : Prop :=
  match c with
  | [] => True
  | x :: c => load 8 (s_ptr x.1) s = Ok (hd_addr c e) s ∧ load 4 (s_size x.1) s = Ok x.2 s ∧ listed s c e
  end.

(** The free list is [l]: circular from [base], in the order of the addresses,
    with a gap after each block, so that no two could be one; [freep] is in it,
    and no block of it meets a live one. *)
Definition free_list (c : kclient) (l : list block) : Prop :=
  listed (kst c) (base_node :: l) base ∧ ordered (base + 15) l (kbrk (glob (kst c))) ∧
  freep (glob (kst c)) ∈ (base_node :: l).*1 ∧
  ∀ x y, x ∈ klive c → y ∈ l → kaddr x + 16 * kunits x ≤ y.1 ∨ y.1 + 16 * y.2 ≤ kaddr x.

Lemma sat_listed (P : hprop) cs e s u : (P ⊢ seg cs e) → sat P (mem s) u → listed s cs e.
Proof.
  induction cs as [|x cs IH] in P |- *; intros HP Hs; [done|]. simpl in HP. cbn [listed]. split_and!.
  - eapply sat_word, Hs. rewrite HP. by iIntros "[($ & _) _]".
  - eapply sat_word, Hs. rewrite HP. by iIntros "[(_ & $ & _) _]".
  - eapply (IH P); [|done]. rewrite HP. by iIntros "[_ $]".
Qed.

Lemma kvalid_list c u : kvalid c u → (freep (glob (kst c)) = 0 ∧ klive c = []) ∨ ∃ l, free_list c l.
Proof.
  intros [Hs _]. pose proof Hs as [Hu _]%sat_pure.
  apply (sat_mono _ ((⌜freep (glob (kst c)) = 0 ∧ klive c = []⌝ ∗ emp) ∨
    ∃ l, ⌜wf (glob (kst c)) l ∧ freep (glob (kst c)) ∈ (base_node :: l).*1⌝ ∗
      (arena l ∗ [∗ list] x ∈ klive c, block_at x))%I) in Hs.
  2: { iIntros "(_ & [[[[%Hf _] _] %Hl]|(%l & %Hw & Ha)] & Hl)"; [iLeft; by iSplit|]. iRight. iExists l. iFrame. done. }
  apply sat_or in Hs as [[? _]%sat_pure|[l [[Hwf Hfp] Hs]%sat_pure]%sat_exist]; [by left|right]. exists l. split_and!; [|apply Hwf|done|].
  - eapply (sat_listed _ _ _ _ u); [|exact Hs]. iIntros "[$ _]".
  - intros x y Hx Hy. destruct (Hu x Hx) as (_ & _ & Hn & _).
    apply (sat_mono _ (⌜kaddr x + 16 * kunits x ≤ y.1 ∨ y.1 + 16 * Z.max 1 y.2 ≤ kaddr x⌝%Z ∗ emp)%I) in Hs as [Hd _]%sat_pure.
    + destruct (ordered_elem _ _ _ y (proj1 Hwf) Hy). lia.
    + apply list_elem_of_split in Hx as (k1 & k2 & ->). rewrite big_sepL_app /=. iIntros "(Ha & _ & Hx & _)".
      rewrite block_body. iDestruct (arena_apart with "[$Ha $Hx]") as %Hap; [done|]. iSplit; [|done]. iPureIntro.
      destruct (Hap y); [by right|lia..].
Qed.

Lemma kvalid_malloc c u n :
  bounded_kernel → kvalid c u → 16 * more (units n) < 2 ^ 31 →
  ∃ p s', malloc n (kst c) = Ok p s' ∧
    (p = 0 → sbrk_grants (kbrk (glob (kst c))) (16 * more (units n)) = false) ∧ p `mod` 16 = 0.
Proof.
  intros Hkern Hv Hn. destruct (krun (malloc n) (malloc_post (glob (kst c)) (units n)) c u Hv) as (p & s' & Hr & Hsat & _).
  { iIntros "(_ & Hg & _)". iApply wp_malloc; [done|done|]. iDestruct "Hg" as "[[? _]|?]"; [by iLeft|by iRight]. }
  exists p, s'. split; [done|].
  apply (sat_mono _ (⌜(p = 0 → sbrk_grants (kbrk (glob (kst c))) (16 * more (units n)) = false) ∧ p `mod` 16 = 0⌝ ∗ emp)%I)
    in Hsat as [? _]%sat_pure; [done|].
  iIntros "((%l & [%Hwf _] & _) & _ & [[-> %]|(%a & [-> %Hu] & _)])"; (iSplit; [iPureIntro|done]); [done|].
  destruct Hwf as (_ & ? & _), Hu as (? & Ha & _). split; [lia|dlia].
Qed.
End claims.

(** C10: Whatever a program does with [malloc], [free] and its blocks, for
    requests below 2 GB: [malloc] and [free] of a live block return; [malloc]
    returns null only if the kernel refused memory, and otherwise an aligned
    block of at least the size asked for; live blocks never overlap; each holds
    what the program last wrote to it; no other memory of the program changes;
    and the free list is circular, in the order of the addresses and coalesced,
    and apart from the live blocks. *)
Theorem umalloc_client `{BaseAt, Kernel} s u c :
  bounded_kernel → kstart s u → rtc kstep (mkclient s []) c →
  ForallOrdPairs kapart (klive c) ∧
  (∀ x, x ∈ klive c → kaddr x `mod` 16 = 0 ∧ Z.of_nat (length (kdata x)) = 16 * (kunits x - 1) ∧
     loadbytes (length (kdata x)) (mem (kst c)) (kaddr x + 16) = Some (kdata x)) ∧
  (∀ i, is_Some (u !! i) → mem (kst c) !! i = u !! i) ∧
  (∀ n, 16 * more (units n) < 2 ^ 31 → ∃ p s', malloc n (kst c) = Ok p s' ∧
     (p = 0 → sbrk_grants (kbrk (glob (kst c))) (16 * more (units n)) = false) ∧ p `mod` 16 = 0 ∧
     u32 n ≤ 16 * (units n - 1)) ∧
  (∀ x, x ∈ klive c → ∃ s', free (kaddr x + 16) (kst c) = Ok () s') ∧
  ((freep (glob (kst c)) = 0 ∧ klive c = []) ∨ ∃ l, free_list c l).
Proof.
  intros Hkern Hstart Hreach. pose proof (kreach_valid _ _ _ Hkern Hreach (kstart_valid _ _ Hstart)) as Hv.
  destruct (kvalid_blocks _ _ Hv) as [Hap Hbl]. split_and!; [done|done|..].
  - intros i [x Hx]. destruct Hv as [(h & -> & Hd & _) _]. rewrite lookup_union_r; [done|]. by eapply map_disjoint_Some_r.
  - intros n Hn. destruct (kvalid_malloc c u n Hkern Hv Hn) as (p & s' & Hr & Hp & H16). exists p, s'. split_and!; [done..|].
    apply units_enough.
  - intros x (k1 & k2 & Hl)%list_elem_of_split.
    destruct (krun (free (kaddr x + 16)) (λ _ g', kstate g' (k1 ++ k2)) c u Hv) as ([] & s' & Hr & _); [|by exists s'].
    rewrite Hl. apply wp_free_unit.
  - by eapply kvalid_list.
Qed.

(** ** A request whose size in bytes does not fit in an [int] *)
Section wrapped.
Context `{BaseAt, Kernel}.
Implicit Types (g : kr) (l : list block).

(** The loop of [malloc] passes blocks that are too small. *)
Lemma wp_pass g c e nu fuel prev (Φ : Z → kr → hprop) :
  (∀ y, y ∈ c → y.2 < nu ∧ y.1 ≠ freep g) →
  seg c e -∗
  (∀ prev', ⌜prev' = from_option fst prev (last c)⌝ -∗ seg c e -∗ wp (malloc_loop fuel nu prev' e) Φ g) -∗
  wp (malloc_loop (length c + fuel) nu prev (hd_addr c e)) Φ g.
Proof.
  iIntros (Hc) "Hs HΦ". iInduction c as [|x c] "IH" forall (prev Hc); [by iApply "HΦ"|].
  destruct (Hc x) as [Hx1 Hx2]; [by left|]. cbn [seg malloc_loop length Nat.add hd_addr]. iDestruct "Hs" as "[Hx Hs]".
  iDestruct "Hx" as "(Hp & Hz & Hr)". wp_load "Hz". destruct (Z.leb_spec nu x.2); [lia|].
  iApply wp_bind. iApply wp_getg. destruct (Z.eqb_spec x.1 (freep g)); [done|]. wp_load "Hp".
  iApply ("IH" $! x.1 with "[] Hs"); [iPureIntro; intros y Hy; apply Hc; by right|].
  iIntros (prev' ->) "Hs". iApply ("HΦ" with "[] [$Hp $Hz $Hr $Hs]"). iPureIntro. rewrite last_cons. by destruct (last c).
Qed.

(** A whole round in vain. *)
Lemma wp_round g l c1 f c2 nu fuel (Φ : Z → kr → hprop) :
  wf g l → base_node :: l = c1 ++ f :: c2 → f.1 = freep g → (∀ y, y ∈ base_node :: l → y.2 < nu) →
  arena l -∗ (arena l -∗ wp (retry fuel nu) Φ g) -∗
  wp (malloc_loop (length l + S fuel) nu f.1 (hd_addr c2 base)) Φ g.
Proof.
  iIntros (Hwf Heq Hf Hno) "Ha HΦ". pose proof (wf_nodup _ _ Hwf) as Hnd. rewrite Heq fmap_app fmap_cons in Hnd.
  apply NoDup_app in Hnd as (_ & Hn1 & [Hn2 _]%NoDup_cons).
  assert (length l + S fuel = length c2 + (length c1 + S fuel))%nat as ->.
  { apply (f_equal length) in Heq. rewrite length_app /= in Heq. lia. }
  iEval (unfold arena; rewrite Heq seg_split) in "Ha". iDestruct "Ha" as "(H1 & Hx & H2)".
  iApply (wp_pass with "H2").
  { intros y Hy. split; [apply Hno; rewrite Heq; set_solver|]. rewrite -Hf. intros He. apply Hn2. rewrite -He. by apply list_elem_of_fmap_2. }
  iIntros (prev' _) "H2". assert (base = hd_addr c1 f.1) as Hb.
  { destruct c1 as [|z c1]; injection Heq as <- _; done. }
  rewrite {3}Hb. iApply (wp_pass with "H1").
  { intros y Hy. split; [apply Hno; rewrite Heq; set_solver|]. rewrite -Hf. intros He. apply (Hn1 y.1); [by apply list_elem_of_fmap_2|]. rewrite He. by left. }
  iIntros (prev'' _) "H1". iApply (wp_retry g l c1 f c2 with "[H1 Hx H2]"); [done|done|apply Hno; rewrite Heq; set_solver| |done].
  unfold arena. rewrite Heq seg_split. iFrame.
Qed.

(** [sbrk] sees the low 32 bits. *)
Lemma wp_sbrk_wrapped n (Φ : Z → kr → hprop) g : wp (sbrk (s32 n)) Φ g ⊢ wp (sbrk n) Φ g.
Proof.
  apply wp_ext. intros s. unfold sbrk. rewrite (swrap_small 32 (s32 n)); [done|lia|]. unfold swrap, wrap. dlia.
Qed.

(** A header above all free blocks, which claims [nu] units that are not there. *)
Definition stub (a nu : Z) : hprop := (s_ptr a ↦₈ base ∗ s_size a ↦₄ nu ∗ anybytes (a + 12) 4)%I.

(** The last free block [q], joined with the stub or not. *)
Definition joined (q : block) a nu : hprop :=
  (⌜(q.1 + 16 * q.2)%Z = a ∧ 1 ≤ q.2⌝ ∗ s_ptr q.1 ↦₈ base ∗ s_size q.1 ↦₄ (q.2 + nu) ∗ anybytes (q.1 + 12) 4 ∗ body q.1 q.2)%I.

Lemma wp_free_stub g l a nu (Φ : unit → kr → hprop) :
  wf g l → freep g ∈ (base_node :: l).*1 → (∀ y, y ∈ base_node :: l → y.1 + 16 * Z.max 1 y.2 ≤ a) → a ≤ kbrk g →
  1 ≤ nu → (∀ y, y ∈ base_node :: l → y.2 + nu < 2 ^ 32) →
  arena l -∗ header a nu -∗
  (∀ d1 q, ⌜base_node :: l = d1 ++ [q]⌝ -∗ seg d1 q.1 -∗ stub a nu -∗ joined q a nu ∨ node q a -∗ Φ () (mkkr q.1 (kbrk g))) -∗
  wp (free (a + 16)) Φ g.
Proof.
  iIntros (Hwf Hfp Hhi Hak Hnu Hsum) "Har (Hp & Hs & Hpad) HΦ". apply list_elem_of_fmap in Hfp as (x & Hx & (c1 & c2 & Heq)%list_elem_of_split).
  pose proof Hwf as (Ho & Hb0 & Hk & _). pose proof (ordered_length _ _ _ Ho) as Hlen. pose proof (Hhi base_node ltac:(by left)) as Hba. simpl in Hba.
  unfold free. cbv zeta. unfold sizeof_Header. replace (a + 16 - 16) with a by lia.
  iApply wp_bind. iApply wp_getg. iApply wp_bind. iApply wp_getg. iApply wp_bind. rewrite Hx.
  iApply (wp_find g l a c1 x c2 with "Har"); [done|done|lia| | |].
  { intros y Hy. specialize (Hhi y Hy). lia. }
  { apply (f_equal length) in Heq. rewrite length_app /= in Heq. lia. }
  iIntros (d1 q d2 [Heq2 [Hq Hbt]]) "Har". destruct d2 as [|y d2].
  2: { specialize (Hhi y). rewrite Heq2 in Hhi. specialize (Hhi ltac:(set_solver)). lia. }
  assert (q ∈ base_node :: l) as Hqin by (rewrite Heq2; set_solver). specialize (Hhi q Hqin). specialize (Hsum q Hqin).
  iEval (unfold arena; rewrite Heq2 seg_split /=) in "Har". iDestruct "Har" as "(Hd1 & Hq & _)".
  iApply wp_bind. unfold join_upper, sizeof_Header. wp_load "Hs". iApply wp_bind. iApply (node_ptr with "Hq"). iIntros "Hq".
  destruct (Z.eqb_spec (a + 16 * nu) base); [lia|]. iApply (wp_set_ptr with "Hp"); [lia|]. iIntros "Hp".
  iApply wp_bind. unfold join_lower, sizeof_Header. iDestruct "Hq" as "(Hqp & Hqs & Hqpad & Hqb)". wp_load "Hqs".
  destruct (Z.eqb_spec (q.1 + 16 * q.2) a) as [He|He].
  - wp_load "Hs". iApply wp_bind. rewrite wrap_small; [|lia]. iApply (wp_store with "Hqs"); [lia|]. iIntros "Hqs".
    wp_load "Hp". iApply (wp_store with "Hqp"); [change (Z.of_nat 8) with 8; lia|]. iIntros "Hqp". iApply wp_setg; [done|].
    iApply ("HΦ" with "[//] Hd1 [$Hp $Hs $Hpad]"). iLeft. iFrame. iSplit; [iPureIntro; lia|]. unfold body.
    by replace (Z.max 0 (q.2 - 1)) with (q.2 - 1) by lia.
  - iApply (wp_store with "Hqp"); [change (Z.of_nat 8) with 8; lia|]. iIntros "Hqp". iApply wp_setg; [done|].
    iApply ("HΦ" with "[//] Hd1 [$Hp $Hs $Hpad]"). iRight. iFrame.
Qed.

(** [malloc] finds the stub and hands it out. *)
Lemma wp_take_stub g l d1 q a nu fuel :
  wf g l → base_node :: l = d1 ++ [q] → (∀ y, y ∈ base_node :: l → y.2 < nu) → freep g = q.1 → 0 < a → nu < 2 ^ 31 →
  (length l < fuel)%nat →
  seg d1 q.1 -∗ stub a nu -∗ joined q a nu ∨ node q a -∗
  wp (nx ← load 8 (s_ptr q.1); malloc_loop fuel nu q.1 nx) (λ p g', ⌜p = (a + 16)%Z ∧ kbrk g' = kbrk g⌝ : hprop)%I g.
Proof.
  iIntros (Hwf Heq Hno Hf Ha Hnu Hfuel) "Hd1 (Hp & Hs & Hpad) [([%He %Hq1] & Hqp & Hqs & Hqpad & Hqb)|Hq]".
  - wp_load "Hqp". pose proof (wf_nodup _ _ Hwf) as Hnd. rewrite Heq fmap_app /= in Hnd. apply NoDup_app in Hnd as (_ & Hn1 & _).
    assert (q.2 < nu) as Hqn by (apply Hno; rewrite Heq; set_solver). assert (base = hd_addr d1 q.1) as Hb.
    { destruct d1 as [|z d1]; injection Heq as <- _; done. }
    assert (∃ fuel', fuel = length d1 + S fuel')%nat as [fuel' ->].
    { exists (fuel - length d1 - 1)%nat. apply (f_equal length) in Heq. rewrite length_app /= in Heq. lia. }
    rewrite {3}Hb. iApply (wp_pass with "Hd1").
    { intros y Hy. split; [apply Hno; rewrite Heq; set_solver|]. rewrite Hf. intros Hyq. apply (Hn1 y.1); [by apply list_elem_of_fmap_2|]. rewrite Hyq. by left. }
    iIntros (prev' _) "_". cbn [malloc_loop]. wp_load "Hqs". destruct (Z.leb_spec nu (q.2 + nu)); [|lia].
    unfold take_block, sizeof_Header. wp_load "Hqs". destruct (Z.eqb_spec (q.2 + nu) nu); [lia|]. iApply wp_bind.
    iApply wp_bind. rewrite wrap_small; [|lia]. replace (q.2 + nu - nu) with q.2 by lia.
    iApply (wp_store with "Hqs"); [lia|]. iIntros "Hqs". wp_load "Hqs". rewrite He.
    iApply wp_bind. iApply (wp_store with "Hs"); [lia|]. iIntros "Hs". iApply wp_ret. iApply wp_bind. iApply wp_setg; [done|].
    iApply wp_ret. by iPureIntro.
  - iDestruct "Hq" as "(Hqp & Hqr)". wp_load "Hqp". destruct fuel as [|fuel]; [lia|]. cbn [malloc_loop]. wp_load "Hs".
    rewrite Z.leb_refl. unfold take_block, sizeof_Header. wp_load "Hs". rewrite Z.eqb_refl. iApply wp_bind. wp_load "Hp".
    iDestruct (word_range with "Hp") as %Hr. iApply wp_bind. iApply (wp_store with "Hqp"); [done|]. iIntros "Hqp".
    iApply wp_ret. iApply wp_bind. iApply wp_setg; [done|]. iApply wp_ret. by iPureIntro.
Qed.

(** The answer to a request whose size wraps to 16. *)
Definition unbacked g (p : Z) (g' : kr) : hprop := ⌜p = (kbrk g + 16)%Z ∧ kbrk g' = (kbrk g + 16)%Z⌝%I.

(** The number of units it asks for. *)
Definition wrapped_units : Z := 2 ^ 28 + 1.

Lemma wp_malloc_wrapped g :
  kbrk g < 2 ^ 32 → sbrk_grants (kbrk g) 16 = true →
  ready g ⊢ wp (b ← getg kbrk; nx ← load 8 (s_ptr (freep g)); malloc_loop (Z.to_nat (2 * b) + 4) wrapped_units (freep g) nx)
    (unbacked g) g.
Proof.
  iIntros (Hlt Hgr) "(%l & [%Hwf %Hfp] & Ha)". iApply wp_bind. iApply wp_getg. iApply wp_bind.
  pose proof Hfp as Hfp0. apply list_elem_of_fmap in Hfp0 as (f & Hf & (c1 & c2 & Heq)%list_elem_of_split). rewrite Hf.
  iApply (wp_next with "Ha"); [exact Heq|]. iIntros "Ha". pose proof Hwf as (Ho & Hb & Hk & Hk16).
  pose proof (ordered_length _ _ _ Ho) as Hlen.
  assert (∀ y, y ∈ base_node :: l → y.1 + 16 * Z.max 1 y.2 ≤ kbrk g ∧ y.2 < wrapped_units) as Hall.
  { intros y [->|Hy]%elem_of_cons; [unfold wrapped_units; simpl; lia|]. destruct (ordered_elem _ _ _ y Ho Hy) as (? & ? & _ & ?). unfold wrapped_units. lia. }
  assert (∃ fuel, Z.to_nat (2 * kbrk g) + 4 = length l + S (S (length l) + fuel))%nat as [fuel ->].
  { exists (Z.to_nat (2 * kbrk g) + 2 - 2 * length l)%nat. lia. }
  iApply (wp_round with "Ha"); [done|exact Heq|done|intros y Hy; apply Hall, Hy|]. iIntros "Ha".
  unfold retry, morecore. cbv zeta. change (wrapped_units <? 4096) with false. cbv iota. iApply wp_bind. iApply wp_bind.
  iApply wp_sbrk_wrapped. change (s32 (wrapped_units * sizeof_Header)) with 16.
  iApply wp_sbrk_ok; [lia|done|]. rewrite anybytes_zeros; [|lia]. simpl brk. iIntros "Hnew".
  destruct (Z.eqb_spec (kbrk g) SBRK_ERR) as [He|_]; [unfold SBRK_ERR in He; lia|].
  iDestruct (anybytes_used _ 1 with "Hnew") as "(%k & (Hp & Hs & Hpad) & _)"; [lia|].
  iApply wp_bind. iApply (wp_store with "Hs"); [done|]. iIntros "Hs". iApply wp_bind. unfold sizeof_Header.
  set (g1 := set_brk (kbrk g + 16) g).
  assert (wf g1 l) as Hwf1.
  { split_and!; [|done|simpl; lia|simpl; lia|simpl; dlia]. eapply ordered_hi, Ho. simpl. lia. }
  iApply (wp_free_stub g1 l (kbrk g) with "Ha [$Hp $Hs $Hpad]"); [done|done|intros y Hy; apply Hall, Hy|simpl; lia|done| |].
  { intros y Hy. destruct (Hall y Hy). unfold wrapped_units in *. lia. }
  iIntros (d1 q Hd1) "Hd1 Hstub Hq". iApply wp_getg. simpl freep.
  assert (q ∈ base_node :: l) as Hq by (rewrite Hd1; set_solver). pose proof (wf_base _ _ _ Hwf Hq).
  destruct (Z.eqb_spec q.1 0); [lia|].
  iApply (wp_take_stub (mkkr q.1 (kbrk g1)) l d1 q (kbrk g) with "Hd1 Hstub Hq"); [done|done|intros y Hy; apply Hall, Hy|done|lia|done|lia].
Qed.

Lemma wp_malloc_unbacked g n :
  2 ^ 32 - 15 ≤ n < 2 ^ 32 → kbrk g < 2 ^ 32 → sbrk_grants (kbrk g) 16 = true →
  fresh g ∨ ready g ⊢ wp (malloc n) (unbacked g) g.
Proof.
  iIntros (Hn Hlt Hgr) "Hg". assert (units n = wrapped_units) as Hu.
  { unfold units, sizeof_Header, wrapped_units. rewrite (wrap_small 32 n); [|lia]. rewrite (wrap_small 32); dlia. }
  unfold malloc. rewrite Hu. cbv zeta. iApply wp_bind. iApply wp_getg. iApply wp_bind. iApply (wp_first with "Hg").
  iIntros (g' Hk) "Hr". unfold unbacked. rewrite -Hk in Hlt Hgr |- *. by iApply wp_malloc_wrapped.
Qed.
End wrapped.


(** ** A machine *)
Module UmallocWitness.

#[export] Instance base0 : BaseAt := 1000.
#[export] Instance kernel0 : Kernel := λ b n, (0 <=? b + n) && (b + n <=? 2 ^ 36).

Definition s0 : st kr := mkst (seqmap 1000 (zeros 16)) (mkkr 0 8192).

Lemma bounded0 : bounded_kernel.
Proof. intros b n [_ H]%andb_true_iff. by apply Z.leb_le. Qed.

Lemma start0 : kstart s0 ∅.
Proof.
  unfold kstart, s0. cbn [mem glob freep kbrk]. change base with 1000. split_and!; [done..| |].
  - intros a [x Hx]%elem_of_dom. apply seqmap_lookup_inv in Hx as [Ha _]. change (length (zeros 16)) with 16%nat in Ha.
    change (a < 8192). lia.
  - exists (seqmap 1000 (zeros 16)). split_and!; [|apply map_disjoint_empty_r|by rewrite (right_id_L ∅ (∪))].
    by apply (is_block_replicate 1000 0 16).
Qed.

Definition after {A} (r : outcome (st kr) A) (s : st kr) : st kr := match r with Ok _ s' => s' | Err _ => s end.

Definition value {A} (r : outcome (st kr) A) : option A := match r with Ok a _ => Some a | Err _ => None end.
Lemma ok_after {A} (r : outcome (st kr) A) s a : value r = Some a → r = Ok a (after r s).
Proof. destruct r; simpl; congruence. Qed.

(** A block of 20 bytes, and a byte written into it. *)
Definition s1 : st kr := after (malloc 20 s0) s0.
Definition c1 : kclient := mkclient s1 [mkblock 73680 3 (zeros 32)].
Definition b2 : kblock := mkblock 73680 3 (<[5%nat := 7]> (zeros 32)).
Definition c2 : kclient := mkclient (after (store 1 73701 7 s1) s1) [b2].

Lemma step1 : kstep (mkclient s0 []) c1.
Proof. apply (k_malloc (mkclient s0 []) 20 73696 s1 (zeros 32)); [done|apply ok_after; vm_compute; reflexivity|done|vm_compute; reflexivity]. Qed.
Lemma step2 : kstep c1 c2.
Proof. apply (k_write c1 [] (mkblock 73680 3 (zeros 32)) [] 5 7); [done|vm_compute; lia|lia|apply ok_after; vm_compute; reflexivity]. Qed.

Lemma umalloc_client_witness :
  loadbytes (length (kdata b2)) (mem (kst c2)) (kaddr b2 + 16) = Some (kdata b2) ∧
  ∃ s', free (kaddr b2 + 16) (kst c2) = Ok () s'.
Proof.
  destruct (umalloc_client s0 ∅ c2 bounded0 start0) as (_ & Hbl & _ & _ & Hfree & _).
  { eapply rtc_l; [apply step1|]. eapply rtc_l; [apply step2|]. apply rtc_refl. }
  assert (b2 ∈ klive c2) as Hb by apply list_elem_of_here.
  destruct (Hbl b2 Hb) as (_ & _ & Hload). split; [exact Hload|exact (Hfree b2 Hb)].
Defined.

End UmallocWitness.
