(* ===== verification/UmDecl.v ===== *)
(** * memory/ummalloc_decl.h: chunk headers and circular lists

    A chunk ("pack") starts with two 32-bit fields, the size of the chunk
    before it and its own size with three flag bits; a free chunk keeps a list
    node (two 64-bit pointers) in its data.  Every accessor of the header is a
    definition here, reading and writing the byte memory at the C offsets. *)
From S2P Require Import Prelude Mem Sep Sbrk.

(** The non-memory state of the allocator: the globals [base] and [bitmap]
    (their address is never taken) and the program break. *)
Record heap := mkheap { hbase : Z; hbitmap : Z; hbrk : Z }.

#[export] Instance heap_brk : HasBrk heap := {|
  brk := hbrk;
  set_brk b g := mkheap (hbase g) (hbitmap g) b;
  brk_set_brk b g := eq_refl |}.

(** Where the linker put the globals whose address is used: the array
    [slots[64]] of list heads and the list head [fast_full]. *)
Class Layout := { slots_addr : Z; full_addr : Z }.

Abbreviation U A := (M (st heap) A).

Definition PAGE_SIZE : Z := 4096.
Definition ALIGNMENT : Z := 8.

(** [ALIGN] on a [w]-bit unsigned operand. *)
Definition ALIGN (w size : Z) : Z :=
  Z.land (wrap w (size + (ALIGNMENT - 1))) (wrap w (Z.lnot 7)).

(** [IMPOSSIBLE(x)] prints a message and exits with status 1 when [x] holds. *)
Definition IMPOSSIBLE (x : bool) : U unit := when x (fail (Exit 1)).

(** [struct pack] *)
Definition pack_prev_at (pack : Z) : Z := pack.
Definition pack_size_at (pack : Z) : Z := pack + 4.
Definition pack_data (pack : Z) : Z := pack + 8.
Definition sizeof_pack : Z := 8.

(** [struct node] *)
Definition node_prev_at (node : Z) : Z := node.
Definition node_next_at (node : Z) : Z := node + 8.
Definition sizeof_node : Z := 16.

(** [enum Meta] *)
Definition NONE_INUSE : Z := 0.
Definition PREV_INUSE : Z := 1.
Definition THIS_INUSE : Z := 2.
Definition BOTH_INUSE : Z := 3.
Definition RESERVED : Z := 4.
Definition FULL_MASK : Z := 7.

(** The complement of a flag set as a 32-bit operand. *)
Definition not32 (info : Z) : Z := u32 (Z.lnot info).

Definition pack_add_meta (pack info : Z) : U unit :=
  v ← load 4 (pack_size_at pack);
  store 4 (pack_size_at pack) (Z.lor v info).

Definition pack_clr_meta (pack info : Z) : U unit :=
  v ← load 4 (pack_size_at pack);
  store 4 (pack_size_at pack) (Z.land v (not32 info)).

Definition pack_set_meta (pack info : Z) : U unit :=
  v ← load 4 (pack_size_at pack);
  store 4 (pack_size_at pack) (Z.lor (Z.land v (not32 FULL_MASK)) info).

Definition pack_add_info (pack size info : Z) : U unit :=
  let size := u32 size in
  IMPOSSIBLE (truth (Z.land size FULL_MASK));;
  v ← load 4 (pack_size_at pack);
  store 4 (pack_size_at pack) (Z.lor (Z.lor size info) (Z.land v FULL_MASK)).

Definition pack_set_info (pack size info : Z) : U unit :=
  let size := u32 size in
  IMPOSSIBLE (truth (Z.land size FULL_MASK));;
  store 4 (pack_size_at pack) (Z.lor size info).

Definition pack_set_prev (pack size : Z) : U unit :=
  store 4 (pack_prev_at pack) (u32 size).

Definition pack_set_size (pack size : Z) : U unit :=
  let size := u32 size in
  IMPOSSIBLE (truth (Z.land size FULL_MASK));;
  v ← load 4 (pack_size_at pack);
  store 4 (pack_size_at pack) (Z.lor (Z.land v FULL_MASK) size).

Definition prev_add_size (pack size : Z) : U unit :=
  let size := u32 size in
  IMPOSSIBLE (truth (Z.land size FULL_MASK));;
  v ← load 4 (pack_size_at pack);
  store 4 (pack_size_at pack) (u32 (v + size)).

Definition pack_size (pack : Z) : U Z :=
  v ← load 4 (pack_size_at pack);
  mret (Z.land v (not32 FULL_MASK)).

Definition pack_next (pack : Z) : U Z :=
  size ← pack_size pack;
  mret (u64 (pack + size)).

Definition pack_prev (pack : Z) : U Z :=
  size ← load 4 (pack_prev_at pack);
  mret (u64 (pack - size)).

Definition pack_meta (pack : Z) : U Z :=
  v ← load 4 (pack_size_at pack);
  mret (Z.land v FULL_MASK).

Definition list_pack (node : Z) : Z := u64 (node - sizeof_pack).

Definition list_init (list : Z) : U unit :=
  store 8 (node_prev_at list) list;;
  store 8 (node_next_at list) list.

Definition list_empty (list : Z) : U bool :=
  next ← load 8 (node_next_at list);
  mret (next =? list).

Definition node_link (prev next : Z) : U unit :=
  store 8 (node_next_at prev) next;;
  store 8 (node_prev_at next) prev.

Definition list_pop (list : Z) : U Z :=
  node ← load 8 (node_next_at list);
  next ← load 8 (node_next_at node);
  node_link list next;;
  mret node.

Definition list_push (list node : Z) : U unit :=
  next ← load 8 (node_next_at list);
  node_link node next;;
  node_link list node.

Definition list_erase (node : Z) : U unit :=
  prev ← load 8 (node_prev_at node);
  next ← load 8 (node_next_at node);
  node_link prev next.
