(* ===== verification/UmData.v ===== *)
(** * memory/ummalloc_data.h: slots, their bitmap and the size classes

    The 64 slots are circular lists of free chunks of one size class each; the
    global [bitmap] has bit [i] set when slot [i] is not empty. *)
From S2P Require Import Prelude Mem Sep Sbrk UmDecl.

(** One halving round of [log2_ceil64]: [p = (x >> k != 0) << j; t += p; x >>= p]. *)
Definition log2_round (k j : Z) (tx : Z * Z) : Z * Z :=
  let '(t, x) := tx in
  let p := Z.shiftl (b2z (truth (Z.shiftr x k))) j in
  (u64 (t + p), Z.shiftr x p).

Definition log2_ceil64 (x : Z) : Z :=
  let x := u64 (x - 1) in
  let '(t, x) := log2_round 32 5 (0, x) in
  let '(t, x) := log2_round 16 4 (t, x) in
  let '(t, x) := log2_round 8 3 (t, x) in
  let '(t, x) := log2_round 4 2 (t, x) in
  let '(t, x) := log2_round 2 1 (t, x) in
  u64 (t + x + b2z (x <? 3) - 1).

Definition log2_floor64 (x : Z) : Z :=
  u64 (log2_ceil64 (u64 (x + 1)) - 1).

(** A 64-bit left shift; a shift count of 64 or more is undefined in C. *)
Definition shl64 (x n : Z) : U Z :=
  if n <? 64 then mret (u64 (Z.shiftl x n)) else fail (Undef "shift count").

(** [&slots[index]]; an index outside the array is out of bounds. *)
Definition slot `{Layout} (index : Z) : U Z :=
  if index <? 64 then mret (slots_addr + 16 * index) else fail (Undef "slots index").

(** The lowest set bit of [bitmap] above bit [size], as a one-bit mask. *)
Definition next_free (size : Z) : U Z :=
  mask ← getg hbitmap;
  let temp := u64 (-1) in
  sh ← shl64 temp (u64 (size + 1));
  let mask := Z.land mask sh in
  mret (Z.land mask (u64 (- mask))).

Definition set_bitmap (f : Z → Z) : U unit :=
  setg (λ g, mkheap (hbase g) (f (hbitmap g)) (hbrk g)).

Definition bitmap_set (index : Z) : U unit :=
  bit ← shl64 1 index;
  set_bitmap (λ b, Z.lor b bit).

Definition bitmap_clr (index : Z) : U unit :=
  bit ← shl64 1 index;
  set_bitmap (λ b, Z.land b (u64 (Z.lnot bit))).

(** Unlink [node] from the list of slot [index]. *)
Definition safe_remove (node index : Z) : U unit :=
  prev ← load 8 (node_prev_at node);
  next ← load 8 (node_next_at node);
  node_link prev next;;
  when (prev =? next) (bitmap_clr index).

Definition get_index (size : Z) : U Z :=
  if size <=? 512 then
    IMPOSSIBLE (size <=? 32);;
    mret (u64 (size - 1) / 16)
  else if 4096 <? size then
    mret (if size <? 6144 then 48 else u64 (u64 (size - 1) / 4096 + 48))
  else
    mret (if size <=? 640 then u64 (size + 1535) / 64
          else u64 (34 + u64 (size - 513) / 256)).
