(* ===== verification/UmAlloc.v ===== *)
(** * memory/ummalloc_alloc.h, memory/ummalloc_dealloc.h and user/ummalloc.c

    The allocator proper, every function in the order its callees need. *)
From S2P Require Import Prelude Mem Sep Sbrk UmDecl UmData.

Section ummalloc.
Context `{Layout, Kernel}.

(** ** ummalloc_dealloc.h *)

Definition free_chunk (pack : Z) : U unit :=
  meta ← pack_meta pack;
  IMPOSSIBLE (negb (meta =? PREV_INUSE));;
  next ← pack_next pack;
  meta' ← pack_meta next;
  IMPOSSIBLE (negb (meta' =? THIS_INUSE));;
  size ← pack_size pack;
  index ← get_index size;
  list ← slot index;
  let node := pack_data pack in
  list_push list node;;
  bitmap_set index.

Definition try_safe_remove (node pack : Z) : U unit :=
  prev ← load 8 (node_prev_at node);
  next ← load 8 (node_next_at node);
  node_link prev next;;
  when (prev =? next) (
    size ← pack_size pack;
    index ← get_index size;
    bitmap_clr index).

Definition try_merge_prev (pack : Z) : U Z :=
  meta ← pack_meta pack;
  if truth (Z.land meta PREV_INUSE) then mret pack else
  size ← pack_size pack;
  prev ← pack_prev pack;
  let node := pack_data prev in
  try_safe_remove node prev;;
  prev_add_size prev size;;
  next ← pack_next prev;
  psize ← pack_size prev;
  pack_set_prev next psize;;
  mret prev.

(** ** ummalloc_alloc.h *)

Definition HEAD : Z := 114514.
Definition TAIL : Z := 0.

Definition pack_allocate (pack : Z) : U Z :=
  size ← pack_size pack;
  pack_set_meta pack BOTH_INUSE;;
  next ← pack_next pack;
  pack_set_prev next size;;
  pack_add_meta next PREV_INUSE;;
  mret (pack_data pack).

Definition split_allocate (pack need : Z) : U Z :=
  size ← pack_size pack;
  let rest := u64 (size - need) in
  next ← pack_next pack;
  pack_set_prev next rest;;
  pack_set_meta next THIS_INUSE;;
  pack_set_info pack need BOTH_INUSE;;
  temp ← pack_next pack;
  pack_set_prev temp need;;
  pack_set_info temp rest PREV_INUSE;;
  free_chunk temp;;
  mret (pack_data pack).

Definition try_split_allocate (pack need : Z) : U Z :=
  size ← pack_size pack;
  let rest := u64 (size - need) in
  if (need <=? rest) || (512 <=? rest) then split_allocate pack need
  else pack_allocate pack.

Definition list_extract (index : Z) : U Z :=
  list ← slot index;
  node ← list_pop list;
  empty ← list_empty list;
  when empty (bitmap_clr index);;
  mret node.

Definition malloc_brk (need : Z) : U Z :=
  base ← getg hbase;
  let pack := list_pack base in
  let page := u64 (need + PAGE_SIZE - 1) / PAGE_SIZE in
  let size := u64 (page * PAGE_SIZE) in
  pack_set_size pack size;;
  let heap := base in
  setg (λ g, mkheap (u64 (heap + size)) (hbitmap g) (hbrk g));;
  r ← sbrk size;
  if r =? SBRK_ERR then mret 0 else
  next ← pack_next pack;
  pack_set_info next 0 THIS_INUSE;;
  pack' ← try_merge_prev pack;
  try_split_allocate pack' need.

Definition next_allocate (index size : Z) : U Z :=
  lowbit ← next_free index;
  if lowbit =? 0 then malloc_brk size else
  let position := log2_ceil64 lowbit in
  node ← list_extract position;
  let pack := list_pack node in
  try_split_allocate pack size.

(** The choice of a chunk of a fast page: the highest set bit of [map[1]] or
    else of [map[2]], which is cleared. *)
Definition fast_pick (map : Z) : U Z :=
  map1 ← load 8 (map + 8);
  if negb (map1 =? 0) then
    let high := log2_floor64 map1 in
    bit ← shl64 1 high;
    store 8 (map + 8) (Z.land map1 (u64 (Z.lnot bit)));;
    mret high
  else
    map2 ← load 8 (map + 16);
    if negb (map2 =? 0) then
      let high := log2_floor64 map2 in
      bit ← shl64 1 high;
      store 8 (map + 16) (Z.land map2 (u64 (Z.lnot bit)));;
      mret (u64 (high + 64))
    else fail (Exit 1).

Definition fast_allocate : U Z :=
  list ← slot 1;
  empty ← list_empty list;
  if (empty : bool) then mret 0 else
  node ← load 8 (node_next_at list);
  let pack := list_pack node in
  let map := pack_data pack + sizeof_node in
  let mem := map + 24 in
  count ← load 8 map;
  IMPOSSIBLE (count =? 0);;
  store 8 map (u64 (count - 1));;
  when (u64 (count - 1) =? 0) (
    node' ← list_pop list;
    list_push full_addr node');;
  index ← fast_pick map;
  let next := u64 (mem + index * 32) in
  pack_set_prev next index;;
  pack_set_info next 32 BOTH_INUSE;;
  mret (pack_data next).

Definition tiny_allocate (index : Z) : U Z :=
  list ← slot index;
  empty ← list_empty list;
  if (empty : bool) then mret 0 else
  node ← list_extract index;
  let pack := list_pack node in
  pack_allocate pack.

(** The loop [while (iteration-- != 0 && head != list)]. *)
Fixpoint iterative_loop (list head index need : Z) (iteration : nat) : U Z :=
  match iteration with
  | O => mret 0
  | S iteration =>
      if head =? list then mret 0 else
      let pack := list_pack head in
      size ← pack_size pack;
      if need <=? size then
        safe_remove head index;;
        pack_allocate pack
      else
        head' ← load 8 (node_next_at head);
        iterative_loop list head' index need iteration
  end.

Definition iterative_allocate (index need : Z) (iteration : nat) : U Z :=
  list ← slot index;
  head ← load 8 (node_next_at list);
  iterative_loop list head index need iteration.

Definition malloc_huge (size : Z) : U Z :=
  let index := if size <? 6144 then 48 else u64 (u64 (size - 1) / 4096 + 48) in
  data ← iterative_allocate index size 8;
  if negb (data =? 0) then mret data else next_allocate index size.

Definition malloc_middle (size : Z) : U Z :=
  let index := if size <=? 640 then u64 (size + 1535) / 64
               else u64 (34 + u64 (size - 513) / 256) in
  data ← iterative_allocate index size 4;
  if negb (data =? 0) then mret data else next_allocate index size.

Definition fast_bin_reserve : U unit :=
  list ← slot 1;
  empty ← list_empty list;
  if negb empty then mret () else
  data ← malloc_huge (4096 + 48);
  let node := data in
  list_push list node;;
  let pack := list_pack node in
  let map := pack_data pack + sizeof_node in
  store 8 map (64 + 64);;
  store 8 (map + 8) (u64 (-1));;
  store 8 (map + 16) (u64 (-1)).

Definition malloc_fast : U Z :=
  fast_bin_reserve;;
  fast_allocate.

Definition malloc_tiny (size : Z) : U Z :=
  if size <=? 32 then malloc_fast else
  let index := u64 (size - 1) / 16 in
  let size := u64 ((index + 1) * 16) in
  data ← tiny_allocate index;
  if negb (data =? 0) then mret data else next_allocate index size.

(** [for (size_t i = 0; i < 64; i++) list_init(&slots[i]);] from slot [i] on,
    [n] slots to go. *)
Fixpoint slots_init (i : Z) (n : nat) : U unit :=
  match n with
  | O => mret ()
  | S n => list ← slot i; list_init list;; slots_init (i + 1) n
  end.

Definition mm_list_init : U unit :=
  slots_init 0 64;;
  list_init full_addr.

Definition mm_align_init : U unit :=
  heap ← sbrk PAGE_SIZE;
  let temp := heap `mod` PAGE_SIZE in
  let size := PAGE_SIZE in
  size ←
    (if truth temp then
       sbrk (PAGE_SIZE - temp);;
       mret (u64 (size + (PAGE_SIZE - temp)))
     else mret size);
  let top := u64 (heap + size) in
  let low := u64 (ALIGN 64 heap + sizeof_pack) in
  setg (λ g, mkheap top (hbitmap g) (hbrk g));;
  let size := u64 (top - low) in
  let head := low in
  let pack := list_pack head in
  pack_set_prev pack HEAD;;
  pack_set_info pack size PREV_INUSE;;
  let tail := top in
  let next := list_pack tail in
  pack_set_prev next size;;
  pack_set_info next TAIL THIS_INUSE;;
  free_chunk pack.

(** ** user/ummalloc.c *)

Definition mm_init : U Z :=
  mm_list_init;;
  mm_align_init;;
  base ← getg hbase;
  mret (if base =? 0 then -1 else 0).

Definition mm_malloc (size : Z) : U Z :=
  let size := u32 (ALIGN 32 size + sizeof_pack) in
  if size <=? 512 then malloc_tiny size
  else if 4096 <? size then malloc_huge size
  else malloc_middle size.

Definition mm_free (ptr : Z) : U unit := mret ().

Definition mm_realloc (ptr size : Z) : U Z :=
  if size =? 0 then mm_free ptr;; mret 0
  else if ptr =? 0 then mm_malloc size
  else mret 0.
End ummalloc.
