(* ===== verification/UmBits.v ===== *)
(** * Arithmetic of the allocator: logarithms, bit masks, size classes *)
From S2P Require Import Prelude Mem Sep Sbrk UmDecl UmData.

#[local] Open Scope Z_scope.

(** ** Binary logarithms *)

(** The state of the search between two rounds: [x] is the input shifted right
    by [t], fits in [b] bits and is zero only when the input is. *)
Definition log2_state (X t x b : Z) : Prop :=
  Z.shiftr X t = x ∧ 0 ≤ x < 2 ^ b ∧ (0 < X → 0 < x) ∧ (X = 0 → t = 0) ∧ 0 ≤ t ≤ 64 - b.

Lemma log2_round_ok X t x k j :
  0 < j ≤ 5 → k = 2 ^ j → 0 ≤ X → log2_state X t x (2 * k) →
  log2_state X (log2_round k j (t, x)).1 (log2_round k j (t, x)).2 k.
Proof.
  intros Hj Hk HX (Hx & Hr & Hpos & Hzero & Ht). unfold log2_round.
  assert (0 < k ≤ 32) as Hk32.
  { split; [lia|]. subst k. change 32 with (2 ^ 5). apply Z.pow_le_mono_r; lia. }
  assert (Z.shiftr x k = x / 2 ^ k) as Hs by (apply Z.shiftr_div_pow2; lia).
  assert (2 ^ (2 * k) = 2 ^ k * 2 ^ k) as Hpow by (rewrite <- Z.pow_add_r by lia; f_equal; lia).
  assert (0 < 2 ^ k) by (apply Z.pow_pos_nonneg; lia).
  destruct (Z.eqb_spec (Z.shiftr x k) 0) as [E|E]; unfold truth.
  - rewrite E. simpl b2z. rewrite Z.shiftl_0_l. cbn [fst snd].
    rewrite Z.add_0_r, Z.shiftr_0_r, wrap_small by lia.
    repeat split; try lia; auto.
    rewrite Hs in E. apply Z.div_small_iff in E; [|lia]. lia.
  - rewrite (proj2 (Z.eqb_neq _ _) E). simpl b2z.
    replace (Z.shiftl 1 j) with k by (rewrite Z.shiftl_1_l; lia). cbn [fst snd].
    rewrite wrap_small by lia.
    split; [rewrite <- Z.shiftr_shiftr by lia; by rewrite Hx|].
    rewrite Hs in *.
    assert (0 ≤ x / 2 ^ k) by (apply Z.div_pos; lia).
    assert (x / 2 ^ k < 2 ^ k) by (apply Z.div_lt_upper_bound; lia).
    repeat split; try lia.
    intros ->. specialize (Hzero eq_refl). subst t. rewrite Z.shiftr_0_l in Hx. subst x.
    rewrite Z.div_0_l in E by lia. lia.
Qed.

Lemma log2_ceil64_shift X :
  0 ≤ X < 2 ^ 64 → log2_ceil64 (X + 1) = if X =? 0 then 0 else Z.log2 X + 1.
Proof.
  intros HX. unfold log2_ceil64. rewrite (wrap_small 64 (X + 1 - 1)) by lia.
  replace (X + 1 - 1) with X by lia.
  assert (log2_state X 0 X (2 * 32)) as H0.
  { split; [apply Z.shiftr_0_r|]. repeat split; lia. }
  apply (log2_round_ok X _ _ 32 5) in H0; [|lia|done|lia].
  destruct (log2_round 32 5 _) as [t1 x1]. cbn [fst snd] in H0.
  apply (log2_round_ok X _ _ 16 4) in H0; [|lia|done|lia].
  destruct (log2_round 16 4 _) as [t2 x2]. cbn [fst snd] in H0.
  apply (log2_round_ok X _ _ 8 3) in H0; [|lia|done|lia].
  destruct (log2_round 8 3 _) as [t3 x3]. cbn [fst snd] in H0.
  apply (log2_round_ok X _ _ 4 2) in H0; [|lia|done|lia].
  destruct (log2_round 4 2 _) as [t4 x4]. cbn [fst snd] in H0.
  apply (log2_round_ok X _ _ 2 1) in H0; [|lia|done|lia].
  destruct (log2_round 2 1 _) as [t x]. cbn [fst snd] in H0.
  destruct H0 as (Hx & Hr & Hpos & Hzero & Ht).
  assert (0 ≤ t + x + b2z (x <? 3) - 1 < 2 ^ 64) as Hbound.
  { destruct (Z.ltb_spec x 3); simpl b2z.
    - destruct (decide (X = 0)) as [->|]; [lia|]. lia.
    - lia. }
  rewrite wrap_small by exact Hbound.
  destruct (Z.eqb_spec X 0) as [->|HX0].
  - rewrite Hzero in * by done. rewrite Z.shiftr_0_l in Hx. subst x. done.
  - assert (Z.log2 x = Z.log2 X - t) as Hl.
    { subst x. rewrite Z.log2_shiftr by lia.
      assert (0 < Z.shiftr X t) as Hp by (apply Hpos; lia).
      rewrite Z.max_r; [done|].
      rewrite Z.shiftr_div_pow2 in Hp by lia.
      enough (t ≤ Z.log2 X) by lia. apply Z.log2_le_pow2; [lia|].
      assert (0 < 2 ^ t) by (apply Z.pow_pos_nonneg; lia).
      destruct (Z.lt_ge_cases X (2 ^ t)) as [?|?]; [|lia].
      rewrite Z.div_small in Hp by lia. lia. }
    assert (x = 1 ∨ x = 2 ∨ x = 3) as [-> | [-> | ->] ] by lia; simpl in Hl |- *; lia.
Qed.

Lemma log2_ceil64_pos x : 0 < x < 2 ^ 64 → log2_ceil64 x = Z.log2_up x.
Proof.
  intros Hx. replace x with (x - 1 + 1) at 1 by lia. rewrite log2_ceil64_shift by lia.
  destruct (Z.eqb_spec (x - 1) 0) as [E|E].
  - assert (x = 1) as -> by lia. done.
  - rewrite Z.log2_up_eqn by lia. unfold Z.succ, Z.pred. do 2 f_equal; lia.
Qed.

Lemma log2_floor64_pos x : 0 < x < 2 ^ 64 → log2_floor64 x = Z.log2 x.
Proof.
  intros Hx. unfold log2_floor64.
  assert (0 ≤ Z.log2 x < 64) as Hl.
  { split; [apply Z.log2_nonneg|]. apply Z.log2_lt_pow2; lia. }
  enough (log2_ceil64 (u64 (x + 1)) = Z.log2 x + 1) as ->.
  { rewrite wrap_small; lia. }
  destruct (decide (x = 2 ^ 64 - 1)) as [->|].
  - vm_compute. done.
  - rewrite (wrap_small 64 (x + 1)) by lia. rewrite log2_ceil64_shift by lia.
    destruct (Z.eqb_spec x 0); lia.
Qed.

(** ** Masks *)

Lemma land_flags v : Z.land v 7 = v `mod` 8.
Proof. change 7 with (Z.ones 3). by rewrite Z.land_ones. Qed.

Lemma land_not_flags v : 0 ≤ v < 2 ^ 32 → Z.land v (not32 7) = v - v `mod` 8.
Proof.
  intros Hv. unfold not32. rewrite land_wrap by lia.
  change (Z.land v (Z.lnot 7)) with (Z.land v (Z.lnot (Z.ones 3))).
  rewrite <- Z.ldiff_land, Z.ldiff_ones_r, Z.shiftl_mul_pow2, Z.shiftr_div_pow2 by lia.
  change (2 ^ 3) with 8. pose proof (Z.div_mod v 8). lia.
Qed.

Lemma lor_flags sz m : sz `mod` 8 = 0 → 0 ≤ m < 8 → Z.lor sz m = sz + m.
Proof. intros. by apply (lor_low 3). Qed.

(** The size and the flags of a header word. *)
Lemma hdr_mod sz m : sz `mod` 8 = 0 → 0 ≤ m < 8 → (sz + m) `mod` 8 = m.
Proof. intros. dlia. Qed.

Lemma hdr_size sz m :
  sz `mod` 8 = 0 → 0 ≤ m < 8 → 0 ≤ sz → sz + m < 2 ^ 32 → Z.land (sz + m) (not32 7) = sz.
Proof. intros. rewrite land_not_flags by lia. rewrite hdr_mod by done. lia. Qed.

Lemma hdr_meta sz m : sz `mod` 8 = 0 → 0 ≤ m < 8 → Z.land (sz + m) 7 = m.
Proof. intros. rewrite land_flags. by apply hdr_mod. Qed.

(** ** The lowest set bit *)

Lemma land_opp x :
  0 < x → ∃ p, 0 ≤ p ∧ Z.testbit x p = true ∧
    (∀ j, 0 ≤ j < p → Z.testbit x j = false) ∧ Z.land x (- x) = 2 ^ p.
Proof.
  destruct x as [|x|]; [lia| |lia]. intros _.
  induction x as [q _|q IH|].
  - exists 0. repeat split; [lia|intros; lia|].
    rewrite Pos2Z.inj_xI.
    replace (- (2 * Z.pos q + 1)) with (2 * Z.lnot (Z.pos q) + 1)
      by (unfold Z.lnot; lia).
    apply Z.bits_inj'. intros [|n|n] Hn; [|clear Hn|lia].
    + by rewrite Z.land_spec, !Z.testbit_odd_0.
    + rewrite Z.land_spec. replace (Z.pos n) with (Z.succ (Z.pos n - 1)) by lia.
      rewrite !Z.testbit_odd_succ by lia. rewrite <- Z.land_spec, Z.land_lnot_diag.
      rewrite Z.bits_0. change (2 ^ 0) with 1. by rewrite Z.bits_above_log2 by (simpl; lia).
  - destruct IH as (p & Hp & Ht & Hl & Hland). exists (Z.succ p).
    rewrite Pos2Z.inj_xO. split; [lia|].
    split; [by rewrite Z.testbit_even_succ|]. split.
    + intros j Hj. destruct (decide (j = 0)) as [->|]; [apply Z.testbit_even_0|].
      replace j with (Z.succ (j - 1)) by lia. rewrite Z.testbit_even_succ by lia.
      apply Hl. lia.
    + replace (- (2 * Z.pos q)) with (2 * - Z.pos q) by lia.
      rewrite Z.pow_succ_r by lia. rewrite <- Hland.
      rewrite !(Z.mul_comm 2), <- !(Z.shiftl_mul_pow2 _ 1) by lia.
      by rewrite <- Z.shiftl_land.
  - exists 0. repeat split; [lia|intros; lia].
Qed.

Lemma lowbit64 x :
  0 < x < 2 ^ 64 → ∃ p, 0 ≤ p < 64 ∧ Z.testbit x p = true ∧
    (∀ j, 0 ≤ j < p → Z.testbit x j = false) ∧ Z.land x (u64 (- x)) = 2 ^ p.
Proof.
  intros Hx. destruct (land_opp x) as (p & Hp & Ht & Hl & Hland); [lia|].
  exists p. rewrite land_wrap by lia. repeat split; auto; try lia.
  destruct (Z.lt_ge_cases p 64) as [|Hge]; [done|].
  rewrite Z.bits_above_log2 in Ht; [done|lia|].
  apply Z.log2_lt_pow2; [lia|]. eapply Z.lt_le_trans; [apply Hx|].
  apply Z.pow_le_mono_r; lia.
Qed.

(** What [next_free] computes from the bitmap: nothing when no bit above [i] is
    set, else the lowest such bit. *)
Lemma next_free_bits b i :
  0 ≤ b < 2 ^ 64 → 0 ≤ i < 63 →
  let mask := Z.land b (u64 (Z.shiftl (u64 (-1)) (i + 1))) in
  (mask = 0 ∧ ∀ j, i < j → Z.testbit b j = false) ∨
  (∃ p, i < p < 64 ∧ Z.testbit b p = true ∧
     (∀ j, i < j < p → Z.testbit b j = false) ∧ 0 < mask ∧
     Z.land mask (u64 (- mask)) = 2 ^ p).
Proof.
  intros Hb Hi mask.
  assert (∀ j, 0 ≤ j → Z.testbit mask j = Z.testbit b j && (i <? j)) as Hbits.
  { intros j Hj. unfold mask. rewrite land_wrap by lia. rewrite Z.land_spec.
    rewrite Z.shiftl_spec by lia.
    destruct (Z.ltb_spec i j).
    - change (u64 (-1)) with (Z.ones 64).
      destruct (Z.lt_ge_cases (j - (i + 1)) 64).
      + rewrite Z.ones_spec_low by lia. done.
      + rewrite Z.bits_above_log2 with (a := b); [done|lia|].
        destruct (decide (b = 0)) as [->|]; [simpl; lia|].
        apply Z.log2_lt_pow2; [lia|]. eapply Z.lt_le_trans; [apply Hb|].
        apply Z.pow_le_mono_r; lia.
    - rewrite (Z.testbit_neg_r _ (j - (i + 1))) by lia. by rewrite !andb_false_r. }
  assert (0 ≤ mask < 2 ^ 64) as Hm.
  { unfold mask. split; [apply Z.land_nonneg; left; lia|].
    destruct (decide (mask = 0)) as [E|E]; [unfold mask in E; rewrite E; lia|].
    assert (0 ≤ mask) by (apply Z.land_nonneg; left; lia).
    apply Z.log2_lt_pow2; [unfold mask in *; lia|].
    eapply Z.le_lt_trans; [apply Z.log2_land|]; [lia|by apply wrap_range|].
    apply Z.min_lt_iff. left. destruct (decide (b = 0)) as [->|]; [simpl; lia|].
    apply Z.log2_lt_pow2; lia. }
  destruct (decide (mask = 0)) as [E|E]; [left|right].
  - split; [done|]. intros j Hj. specialize (Hbits j). rewrite E, Z.bits_0 in Hbits.
    destruct (Z.ltb_spec i j); [|lia]. rewrite andb_true_r in Hbits. rewrite <- Hbits; [done|lia].
  - destruct (lowbit64 mask) as (p & Hp & Ht & Hl & Hland); [lia|].
    rewrite Hbits in Ht by lia. apply andb_true_iff in Ht as [Ht Hip].
    apply Z.ltb_lt in Hip. exists p. repeat split; auto; try lia.
    intros j Hj. specialize (Hl j). rewrite Hbits in Hl by lia.
    rewrite (proj2 (Z.ltb_lt i j)), andb_true_r in Hl by lia. apply Hl. lia.
Qed.

(** ** Size classes *)

(** The class of a chunk of [size] bytes, as a function. *)
Definition size_class (size : Z) : Z :=
  if size <=? 512 then (size - 1) / 16
  else if 4096 <? size then if size <? 6144 then 48 else (size - 1) / 4096 + 48
  else if size <=? 640 then (size + 1535) / 64 else 34 + (size - 513) / 256.

Ltac size_class_cases :=
  unfold size_class in *;
  repeat match goal with
  | |- context [?a <=? ?b] => destruct (Z.leb_spec a b)
  | |- context [?a <? ?b] => destruct (Z.ltb_spec a b)
  | H : context [?a <=? ?b] |- _ => destruct (Z.leb_spec a b)
  | H : context [?a <? ?b] |- _ => destruct (Z.ltb_spec a b)
  end.

Lemma get_index_class size s : 32 < size < 2 ^ 32 → get_index size s = Ok (size_class size) s.
Proof.
  intros Hs. unfold get_index, IMPOSSIBLE.
  destruct (Z.leb_spec size 32); [lia|]. unfold mbind, M_bind, when, mret, M_ret.
  size_class_cases; try lia;
    rewrite ?(wrap_small 64 (size - 1)), ?(wrap_small 64 (size - 513)) by lia;
    rewrite ?wrap_small by dlia; done.
Qed.

Lemma size_class_range size : 32 < size ≤ 65536 → 2 ≤ size_class size < 64.
Proof. intros. size_class_cases; dlia. Qed.

Lemma size_class_mono a b : 32 < a ≤ b → size_class a ≤ size_class b.
Proof. intros. size_class_cases; dlia. Qed.

Lemma size_class_lt a b : 32 < a → 32 < b → size_class a < size_class b → a < b.
Proof.
  intros Ha Hb Hc. destruct (Z.lt_ge_cases a b) as [|Hge]; [done|].
  pose proof (size_class_mono b a). lia.
Qed.

Lemma size_class_62 a : 32 < a → size_class a ≤ 62 → a ≤ 61440.
Proof. intros. size_class_cases; dlia. Qed.

Lemma size_class_le_62 a : 32 < a ≤ 61440 → size_class a ≤ 62.
Proof. intros. size_class_cases; dlia. Qed.
