(* ===== verification/UmList.v ===== *)
(** * Circular lists in memory

    The representation predicate of the lists of ummalloc_decl.h and the
    specifications of the list operations.  A list is a cycle of edges, an
    edge from [a] to [b] being the two pointers [node_link(a, b)] writes. *)
From S2P Require Import Prelude Mem Sep Sbrk UmDecl UmData.
From iris.proofmode Require Import proofmode.

#[local] Open Scope Z_scope.

Definition edge (a b : Z) : hprop := (node_next_at a ↦₈ b ∗ node_prev_at b ↦₈ a)%I.

(** Edges from [a] through the nodes [xs] to [e]. *)
Fixpoint path (a : Z) (xs : list Z) (e : Z) : hprop :=
  match xs with
  | [] => edge a e
  | x :: xs => edge a x ∗ path x xs e
  end%I.

(** The list with head [l] and nodes [xs]. *)
Definition ring (l : Z) (xs : list Z) : hprop := path l xs l.

Definition first_of (xs : list Z) (e : Z) : Z := default e (head xs).
(** The path without its first edge. *)
Definition path_tail (xs : list Z) (e : Z) : hprop :=
  match xs with [] => emp | x :: xs => path x xs e end%I.

Definition last_of (a : Z) (xs : list Z) : Z := default a (last xs).

Lemma last_of_cons a x xs : last_of a (x :: xs) = last_of x xs.
Proof. unfold last_of. rewrite last_cons. by destruct (last xs). Qed.

Section lists.
Implicit Types (xs ys : list Z) (g : heap).

Lemma word8_excl a v w : a ↦₈ v ∗ a ↦₈ w ⊢ False.
Proof.
  iIntros "[H1 H2]". rewrite !word_anybytes.
  iDestruct (anybytes_disjoint with "[$H1 $H2]") as %?; simpl in *; lia.
Qed.

Lemma path_app a xs y ys e : path a (xs ++ y :: ys) e ⊣⊢ path a xs y ∗ path y ys e.
Proof.
  revert a; induction xs as [|x xs IH]; intros a; simpl; [done|].
  by rewrite IH (assoc bi_sep).
Qed.

Lemma path_first a xs e : path a xs e ⊣⊢ edge a (first_of xs e) ∗ path_tail xs e.
Proof. destruct xs; simpl; by rewrite ?right_id. Qed.

Lemma path_last a xs e :
  path a xs e ⊢ edge (last_of a xs) e ∗ (∀ e', edge (last_of a xs) e' -∗ path a xs e').
Proof.
  revert a; induction xs as [|x xs IH]; intros a.
  - simpl. iIntros "$" (e') "$".
  - rewrite last_of_cons. simpl. rewrite {1}IH. iIntros "(He & $ & Hc)" (e') "H".
    iFrame "He". by iApply "Hc".
Qed.

(** Every node of a path is reached from one place only. *)
Lemma path_not_elem a xs e w y :
  y ∈ xs ++ [e] → path a xs e ∗ node_prev_at y ↦₈ w ⊢ False.
Proof.
  revert a; induction xs as [|x xs IH]; intros a Hy; simpl.
  - apply list_elem_of_singleton in Hy as ->. iIntros "[[_ H] Hw]".
    iApply (word8_excl with "[$H $Hw]").
  - simpl in Hy. apply elem_of_cons in Hy as [->|Hy].
    + iIntros "[[[_ H] _] Hw]". iApply (word8_excl with "[$H $Hw]").
    + iIntros "[[_ H] Hw]". iApply (IH with "[$H $Hw]"). done.
Qed.

Lemma path_nodup a xs e : path a xs e ⊢ ⌜NoDup (xs ++ [e])⌝.
Proof.
  revert a; induction xs as [|x xs IH]; intros a.
  - iIntros "_". iPureIntro. apply NoDup_singleton.
  - simpl. iIntros "[[Hn Hp] H]".
    iAssert ⌜x ∉ xs ++ [e]⌝%I as %Hx.
    { destruct (decide (x ∈ xs ++ [e])) as [Hin|]; [|done].
      iDestruct (path_not_elem x xs e a x with "[$H $Hp]") as %[]. done. }
    iDestruct (IH with "H") as %Hnd. iPureIntro. by constructor.
Qed.

Lemma ring_nodup l xs : ring l xs ⊢ ⌜NoDup (l :: xs)⌝.
Proof.
  unfold ring. rewrite path_nodup. apply bi.pure_mono. intros Hnd.
  by rewrite -Permutation_cons_append in Hnd.
Qed.

Lemma ring_head_range l xs : ring l xs ⊢ ⌜0 ≤ l < 2 ^ 64⌝.
Proof.
  unfold ring. rewrite path_last. iIntros "[[H _] _]".
  iDestruct (word_range with "H") as %?. iPureIntro. simpl in *. lia.
Qed.

(** Reading the [next] field of the head or of a node. *)
Lemma ring_first_read l xs :
  ring l xs ⊢ node_next_at l ↦₈ first_of xs l ∗ (node_next_at l ↦₈ first_of xs l -∗ ring l xs).
Proof.
  unfold ring. rewrite {1}path_first. iIntros "[[$ Hp] Ht] Hn". rewrite path_first. iFrame.
Qed.

Lemma ring_next_read l xs x ys :
  let v := first_of ys l in
  ring l (xs ++ x :: ys) ⊢
  node_next_at x ↦₈ v ∗ (node_next_at x ↦₈ v -∗ ring l (xs ++ x :: ys)).
Proof.
  intros v. unfold ring. rewrite path_app (path_first x ys). iIntros "($ & [$ Hp] & Ht) Hn". iFrame.
Qed.

(** ** Specifications *)

Lemma wp_node_link p n v w (Φ : unit → heap → hprop) g :
  0 ≤ p < 2 ^ 64 → 0 ≤ n < 2 ^ 64 →
  node_next_at p ↦₈ v -∗ node_prev_at n ↦₈ w -∗ (edge p n -∗ Φ () g) -∗
  wp (node_link p n) Φ g.
Proof.
  iIntros (Hp Hn) "Hv Hw HΦ". iApply wp_bind.
  iApply (wp_store with "Hv"); [simpl; lia|]. iIntros "Hv".
  iApply (wp_store with "Hw"); [simpl; lia|]. iIntros "Hw".
  iApply "HΦ". iFrame.
Qed.

Lemma wp_list_init l (Φ : unit → heap → hprop) g :
  0 ≤ l < 2 ^ 64 →
  anybytes l 16 -∗ (ring l [] -∗ Φ () g) -∗ wp (list_init l) Φ g.
Proof.
  iIntros (Hl) "H HΦ". rewrite (anybytes_split l 16 8); [|lia].
  iDestruct "H" as "[Hp Hn]". simpl (16 - 8).
  rewrite !(anybytes_word 8). iDestruct "Hp" as (v) "Hp". iDestruct "Hn" as (w) "Hn".
  iApply wp_bind. iApply (wp_store with "Hp"); [simpl; lia|]. iIntros "Hp".
  iApply (wp_store with "Hn"); [simpl; lia|]. iIntros "Hn".
  iApply "HΦ". iFrame.
Qed.

Lemma wp_list_empty l xs (Φ : bool → heap → hprop) g :
  ring l xs -∗ (ring l xs -∗ Φ (bool_decide (xs = [])) g) -∗ wp (list_empty l) Φ g.
Proof.
  iIntros "H HΦ". iDestruct (ring_nodup with "H") as %Hnd.
  unfold ring; iEval (rewrite path_first) in "H"; iDestruct "H" as "[[Hn Hp] Hc]".
  wp_load "Hn". iApply wp_ret.
  assert ((first_of xs l =? l) = bool_decide (xs = [])) as ->.
  { destruct xs as [|x xs]; unfold first_of; simpl; [apply Z.eqb_refl|]. apply Z.eqb_neq.
    intros <-. apply NoDup_cons in Hnd as [Hn _]. apply Hn. by left. }
  iApply "HΦ". unfold ring. rewrite path_first. iFrame.
Qed.

Lemma wp_list_push l x xs (Φ : unit → heap → hprop) g :
  0 ≤ x < 2 ^ 64 →
  ring l xs -∗ anybytes x 16 -∗ (ring l (x :: xs) -∗ Φ () g) -∗ wp (list_push l x) Φ g.
Proof.
  iIntros (Hx) "H Hx HΦ". iDestruct (ring_head_range with "H") as %Hl.
  rewrite (anybytes_split x 16 8); [|lia]. iDestruct "Hx" as "[Hxp Hxn]". simpl (16 - 8).
  rewrite !(anybytes_word 8). iDestruct "Hxp" as (v) "Hxp". iDestruct "Hxn" as (w) "Hxn".
  unfold ring; iEval (rewrite path_first) in "H"; iDestruct "H" as "[[Hn Hp] Hc]".
  iDestruct (word_range with "Hn") as %Hf.
  wp_load "Hn". iApply wp_bind.
  iApply (wp_node_link with "Hxn Hp"); [done|simpl in *; lia|]. iIntros "He1".
  iApply (wp_node_link with "Hn Hxp"); [done|done|]. iIntros "He2".
  iApply "HΦ". unfold ring. simpl. rewrite path_first. iFrame.
Qed.

Lemma wp_list_pop l x xs (Φ : Z → heap → hprop) g :
  ring l (x :: xs) -∗ (ring l xs -∗ anybytes x 16 -∗ Φ x g) -∗ wp (list_pop l) Φ g.
Proof.
  iIntros "H HΦ". iDestruct (ring_head_range with "H") as %Hl.
  unfold ring at 1. simpl. iDestruct "H" as "[[Hn Hp] H]".
  iEval (rewrite path_first) in "H"; iDestruct "H" as "[[Hxn Hxp] Hc]".
  iDestruct (word_range with "Hxn") as %Hf.
  wp_load "Hn". wp_load "Hxn". iApply wp_bind.
  iApply (wp_node_link with "Hn Hxp"); [done|simpl in *; lia|]. iIntros "He".
  iApply wp_ret. iApply ("HΦ" with "[Hc He]"); [unfold ring; rewrite path_first; iFrame|].
  rewrite (anybytes_split x 16 8); [|lia]. simpl (16 - 8). rewrite !(anybytes_word 8).
  iSplitL "Hp"; iExists _; iFrame.
Qed.

(** The common part of [safe_remove] and [try_safe_remove]. *)
Lemma wp_unlink {A} l xs x ys (k : Z → Z → U A) Φ g :
  ring l (xs ++ x :: ys) -∗
  (∀ p n, ⌜(p =? n) = bool_decide (xs ++ ys = [])⌝ -∗ ring l (xs ++ ys) -∗
     anybytes x 16 -∗ wp (k p n) Φ g) -∗
  wp (prev ← load 8 (node_prev_at x); next ← load 8 (node_next_at x);
      node_link prev next;; k prev next) Φ g.
Proof.
  iIntros "H Hk". iDestruct (ring_head_range with "H") as %Hl.
  iDestruct (path_nodup with "H") as %Hnd.
  unfold ring. rewrite path_app. iDestruct "H" as "[H1 H2]".
  iDestruct (path_last with "H1") as "[[Hpn Hxp] Hc1]".
  iEval (rewrite path_first) in "H2"; iDestruct "H2" as "[[Hxn Hnp] Hc2]".
  iDestruct (word_range with "Hxn") as %Hfr. iDestruct (word_range with "Hxp") as %Hlr.
  simpl in Hfr, Hlr.
  wp_load "Hxp". wp_load "Hxn". iApply wp_bind.
  iApply (wp_node_link with "Hpn Hnp"); [lia|lia|]. iIntros "He".
  iApply ("Hk" with "[%] [Hc1 Hc2 He]").
  - rewrite -app_assoc in Hnd. simpl in Hnd.
    destruct xs as [|y xs _] using rev_ind.
    + destruct ys as [|z ys]; unfold first_of, last_of; simpl; [apply Z.eqb_refl|].
      apply Z.eqb_neq. intros <-. simpl in Hnd.
      apply NoDup_cons in Hnd as [_ [Hn _]%NoDup_cons]. apply Hn. set_solver.
    + rewrite bool_decide_eq_false_2; [|by destruct xs]. apply Z.eqb_neq.
      unfold last_of. rewrite last_snoc. simpl. intros Hy.
      rewrite -app_assoc in Hnd. simpl in Hnd.
      apply NoDup_app in Hnd as (_ & _ & Hnd). apply NoDup_cons in Hnd as [Hn _].
      apply Hn. rewrite Hy. unfold first_of. destruct ys; simpl; set_solver.
  - iDestruct ("Hc1" with "He") as "H1". destruct ys as [|z ys].
    + by rewrite app_nil_r.
    + rewrite path_app. iFrame.
  - rewrite (anybytes_split x 16 8); [|lia]. simpl (16 - 8). rewrite !(anybytes_word 8).
    iSplitL "Hxp"; iExists _; iFrame.
Qed.
End lists.

#[global] Typeclasses Opaque edge ring.
