(* ===== verification/UmChunk.v ===== *)
(** * Chunk headers and the chunk sequence

    The specifications of the header accessors of ummalloc_decl.h, and the
    predicate [seg] that describes the heap as the sequence of chunks the
    "Global memory layout" comment of ummalloc_data.h draws. *)
From S2P Require Import Prelude Mem Sep Sbrk UmDecl UmData UmBits UmList.
From iris.proofmode Require Import proofmode.

#[local] Open Scope Z_scope.

(** The size field of the chunk at [c]: size [sz], flag bits [m]. *)
Definition hsize (c sz m : Z) : hprop :=
  (⌜sz `mod` 8 = 0 ∧ 0 ≤ sz < 2 ^ 31 ∧ 0 ≤ m < 8⌝ ∗ pack_size_at c ↦₄ (sz + m))%I.

(** The field [prev], with any contents. *)
Definition hprev (c : Z) : hprop := (∃ p, pack_prev_at c ↦₄ p)%I.

Section headers.
Implicit Types (c sz m : Z) (g : heap).

Lemma hsize_intro c sz m :
  sz `mod` 8 = 0 → 0 ≤ sz < 2 ^ 31 → 0 ≤ m < 8 →
  pack_size_at c ↦₄ (sz + m) ⊢ hsize c sz m.
Proof. iIntros (???) "$". done. Qed.

Lemma wp_pack_size c sz m (Φ : Z → heap → hprop) g :
  hsize c sz m -∗ (hsize c sz m -∗ Φ sz g) -∗ wp (pack_size c) Φ g.
Proof.
  iIntros "[%Hp H] HΦ". wp_load "H". iApply wp_ret. unfold FULL_MASK.
  rewrite -> hdr_size by lia. iApply "HΦ". by iFrame.
Qed.

Lemma wp_pack_meta c sz m (Φ : Z → heap → hprop) g :
  hsize c sz m -∗ (hsize c sz m -∗ Φ m g) -∗ wp (pack_meta c) Φ g.
Proof.
  iIntros "[%Hp H] HΦ". wp_load "H". iApply wp_ret. unfold FULL_MASK.
  rewrite -> hdr_meta by lia. iApply "HΦ". by iFrame.
Qed.

Lemma wp_pack_next c sz m (Φ : Z → heap → hprop) g :
  0 ≤ c → c + sz < 2 ^ 64 →
  hsize c sz m -∗ (hsize c sz m -∗ Φ (c + sz) g) -∗ wp (pack_next c) Φ g.
Proof.
  iIntros (Hc Hs) "H HΦ". iDestruct "H" as "[%Hp H]".
  wp_apply (wp_pack_size c sz m) with "[$H//]". iIntros "H". iApply wp_ret.
  rewrite -> wrap_small by lia. by iApply "HΦ".
Qed.

Lemma wp_pack_prev c p (Φ : Z → heap → hprop) g :
  c < 2 ^ 64 → p ≤ c →
  pack_prev_at c ↦₄ p -∗ (pack_prev_at c ↦₄ p -∗ Φ (c - p) g) -∗ wp (pack_prev c) Φ g.
Proof.
  iIntros (Hc Hp) "H HΦ". iDestruct (word_range with "H") as %Hr. wp_load "H".
  iApply wp_ret. rewrite -> wrap_small by (simpl in *; lia). by iApply "HΦ".
Qed.

Lemma wp_pack_set_meta c sz m i (Φ : unit → heap → hprop) g :
  0 ≤ i < 8 → hsize c sz m -∗ (hsize c sz i -∗ Φ () g) -∗ wp (pack_set_meta c i) Φ g.
Proof.
  iIntros (Hi) "[%Hp H] HΦ". wp_load "H". unfold FULL_MASK.
  rewrite -> hdr_size, lor_flags by lia.
  iApply (wp_store with "H"); [simpl; lia|]. iIntros "H". iApply "HΦ". iFrame. iPureIntro. lia.
Qed.

(** Setting [PREV_INUSE] in the header of a chunk in use. *)
Lemma wp_pack_add_prev c sz m (Φ : unit → heap → hprop) g :
  m = 2 ∨ m = 3 →
  hsize c sz m -∗ (hsize c sz 3 -∗ Φ () g) -∗ wp (pack_add_meta c PREV_INUSE) Φ g.
Proof.
  iIntros (Hm) "[%Hp H] HΦ". wp_load "H".
  assert (Z.lor (sz + m) PREV_INUSE = sz + 3) as ->.
  { rewrite <- (lor_flags sz m), <- (lor_flags sz 3) by lia.
    rewrite <- Z.lor_assoc. f_equal. by destruct Hm as [-> | ->]. }
  iApply (wp_store with "H"); [simpl; lia|]. iIntros "H". iApply "HΦ". iFrame. iPureIntro. lia.
Qed.

Lemma truth_flags size : size `mod` 8 = 0 → truth (Z.land size FULL_MASK) = false.
Proof. intros Hs. unfold FULL_MASK. by rewrite land_flags Hs. Qed.

Lemma wp_pack_set_info c v size i (Φ : unit → heap → hprop) g :
  size `mod` 8 = 0 → 0 ≤ size < 2 ^ 31 → 0 ≤ i < 8 →
  pack_size_at c ↦₄ v -∗ (hsize c size i -∗ Φ () g) -∗ wp (pack_set_info c size i) Φ g.
Proof.
  iIntros (Hm Hs Hi) "H HΦ". unfold pack_set_info, IMPOSSIBLE.
  rewrite -> wrap_small, truth_flags by lia. wp_apply wp_ret.
  rewrite -> lor_flags by lia.
  iApply (wp_store with "H"); [simpl; lia|]. iIntros "H". iApply "HΦ". by iFrame.
Qed.

Lemma wp_pack_set_size c sz m size (Φ : unit → heap → hprop) g :
  size `mod` 8 = 0 → 0 ≤ size < 2 ^ 31 →
  hsize c sz m -∗ (hsize c size m -∗ Φ () g) -∗ wp (pack_set_size c size) Φ g.
Proof.
  iIntros (Hm Hs) "[%Hp H] HΦ". unfold pack_set_size, IMPOSSIBLE.
  rewrite -> wrap_small, truth_flags by lia. wp_apply wp_ret. wp_load "H".
  unfold FULL_MASK. rewrite -> hdr_meta by lia.
  rewrite -> Z.lor_comm, lor_flags by lia.
  iApply (wp_store with "H"); [simpl; lia|]. iIntros "H". iApply "HΦ". iFrame. iPureIntro. lia.
Qed.

Lemma wp_prev_add_size c sz m size (Φ : unit → heap → hprop) g :
  size `mod` 8 = 0 → 0 ≤ size → sz + size < 2 ^ 31 →
  hsize c sz m -∗ (hsize c (sz + size) m -∗ Φ () g) -∗ wp (prev_add_size c size) Φ g.
Proof.
  iIntros (Hm Hs Hb) "[%Hp H] HΦ". unfold prev_add_size, IMPOSSIBLE.
  rewrite -> (wrap_small 32 size), truth_flags by lia. wp_apply wp_ret. wp_load "H".
  rewrite -> wrap_small by lia.
  iApply (wp_store with "H"); [simpl; lia|]. iIntros "H". iApply "HΦ".
  replace (sz + m + size) with (sz + size + m) by lia. iFrame. iPureIntro.
  split; [|lia]. rewrite -> Z.add_mod by lia. destruct Hp as [-> _]. by rewrite Hm.
Qed.

Lemma wp_pack_set_prev c size (Φ : unit → heap → hprop) g :
  0 ≤ size < 2 ^ 32 →
  hprev c -∗ (pack_prev_at c ↦₄ size -∗ Φ () g) -∗ wp (pack_set_prev c size) Φ g.
Proof.
  iIntros (Hs) "[%p H] HΦ". unfold pack_set_prev. rewrite -> wrap_small by lia.
  iApply (wp_store with "H"); [simpl; lia|]. done.
Qed.

Lemma hprev_intro c p : pack_prev_at c ↦₄ p ⊢ hprev c.
Proof. iIntros "H". by iExists p. Qed.

(** Eight fresh bytes are a header to be filled in. *)
Lemma anybytes_header c n :
  8 ≤ n → anybytes c n ⊢ hprev c ∗ (∃ v, pack_size_at c ↦₄ v) ∗ anybytes (c + 8) (n - 8).
Proof.
  iIntros (Hn) "H". rewrite (anybytes_split c n 8); [|lia].
  iDestruct "H" as "[H $]". rewrite (anybytes_split c 8 4); [|lia]. simpl (8 - 4).
  rewrite !(anybytes_word 4). by iDestruct "H" as "[$ $]".
Qed.

Lemma header_anybytes c sz m : hprev c ∗ hsize c sz m ⊢ anybytes c 8.
Proof.
  iIntros "[[%p Hp] [_ Hs]]". rewrite (anybytes_split c 8 4); [|lia]. simpl (8 - 4).
  rewrite !word_anybytes. iFrame.
Qed.
End headers.

(** ** The chunk sequence *)

(** A chunk: its size and whether it is free. *)
Abbreviation chunk := (Z * bool)%type.

(** What a header says of the chunk before it: [Some sz] when that chunk is
    free and has size [sz], [None] when it is in use. *)
Definition flags (prev : option Z) (free : bool) : Z :=
  (if free then 0 else 2) + (if prev then 0 else 1).

Definition header (c : Z) (prev : option Z) (ch : chunk) : hprop :=
  ((∃ p, ⌜∀ s, prev = Some s → p = s⌝ ∗ pack_prev_at c ↦₄ p) ∗
   hsize c ch.1 (flags prev ch.2))%I.

(** Free chunks are never adjacent and have a size class; the remaining bytes
    of a free chunk (behind its list node) belong to the allocator, those of a
    chunk in use to its user. *)
Definition chunk_ok (prev : option Z) (ch : chunk) : Prop :=
  ch.2 = true → prev = None ∧ 32 < ch.1 ≤ 65536.

Definition body (c : Z) (ch : chunk) : hprop :=
  if ch.2 then anybytes (c + 24) (ch.1 - 24) else emp%I.

Definition after (ch : chunk) : option Z := if ch.2 then Some ch.1 else None.

Fixpoint seg (c : Z) (prev : option Z) (cs : list chunk) : hprop :=
  match cs with
  | [] => emp
  | ch :: cs =>
      ⌜chunk_ok prev ch⌝ ∗ header c prev ch ∗ body c ch ∗ seg (c + ch.1) (after ch) cs
  end%I.

Fixpoint cend (c : Z) (cs : list chunk) : Z :=
  match cs with [] => c | ch :: cs => cend (c + ch.1) cs end.

Fixpoint cprev (prev : option Z) (cs : list chunk) : option Z :=
  match cs with [] => prev | ch :: cs => cprev (after ch) cs end.

(** The list nodes of the free chunks of class [i]. *)
Fixpoint nodes (i c : Z) (cs : list chunk) : list Z :=
  match cs with
  | [] => []
  | ch :: cs =>
      (if ch.2 && (size_class ch.1 =? i) then [pack_data c] else []) ++ nodes i (c + ch.1) cs
  end.

Section seg.
Implicit Types (c : Z) (cs xs ys : list chunk) (prev : option Z).

Lemma cend_app c xs ys : cend c (xs ++ ys) = cend (cend c xs) ys.
Proof. revert c; induction xs as [|x xs IH]; intros c; simpl; [done|]. by rewrite IH. Qed.

Lemma nodes_app i c xs ys : nodes i c (xs ++ ys) = nodes i c xs ++ nodes i (cend c xs) ys.
Proof.
  revert c; induction xs as [|x xs IH]; intros c; simpl; [done|].
  by rewrite IH -(assoc_L (++)).
Qed.

Lemma seg_app c prev xs ys :
  seg c prev (xs ++ ys) ⊣⊢ seg c prev xs ∗ seg (cend c xs) (cprev prev xs) ys.
Proof.
  revert c prev; induction xs as [|x xs IH]; intros c prev; simpl.
  - by rewrite left_id.
  - by rewrite IH !(assoc bi_sep).
Qed.

Lemma nodes_elem i c cs x :
  x ∈ nodes i c cs →
  ∃ xs sz ys, cs = xs ++ (sz, true) :: ys ∧ x = pack_data (cend c xs) ∧ size_class sz = i.
Proof.
  revert c; induction cs as [|[sz f] cs IH]; intros c; simpl; [by intros ?%elem_of_nil|].
  intros [Hx|Hx]%elem_of_app.
  - destruct f; simpl in Hx; [|by apply elem_of_nil in Hx].
    destruct (Z.eqb_spec (size_class sz) i); [|by apply elem_of_nil in Hx].
    apply list_elem_of_singleton in Hx as ->. by exists [], sz, cs.
  - destruct (IH _ Hx) as (xs & sz' & ys & -> & -> & Hc). by exists ((sz, f) :: xs), sz', ys.
Qed.

Lemma header_range c prev ch : header c prev ch ⊢ ⌜ch.1 `mod` 8 = 0 ∧ 0 ≤ ch.1 < 2 ^ 31⌝.
Proof. iIntros "[_ [%H _]]". iPureIntro. lia. Qed.

(** A sequence of chunks has aligned, increasing addresses. *)
Lemma seg_cend c prev cs : seg c prev cs ⊢ ⌜c ≤ cend c cs ∧ (cend c cs - c) `mod` 8 = 0⌝.
Proof.
  revert c prev; induction cs as [|ch cs IH]; intros c prev; simpl.
  - iIntros "_". iPureIntro. split; [lia|]. by rewrite Z.sub_diag.
  - iIntros "(_ & Hh & _ & H)". iDestruct (header_range with "Hh") as %Hr.
    iDestruct (IH with "H") as %Hc. iPureIntro. dlia.
Qed.

Lemma cprev_snoc prev cs ch : cprev prev (cs ++ [ch]) = after ch.
Proof. revert prev; induction cs as [|x cs IH]; intros prev; simpl; [done|]. apply IH. Qed.

(** In a sequence, the chunk before a header that reports a free chunk. *)
Lemma cprev_some prev cs s :
  prev = None → cprev prev cs = Some s → ∃ xs, cs = xs ++ [(s, true)].
Proof.
  intros ->. destruct cs as [|[sz f] cs _] using rev_ind; [done|].
  rewrite cprev_snoc. destruct f; simpl; [|done]. intros [= ->]. by exists cs.
Qed.
End seg.
