(* ===== verification/UmSlots.v ===== *)
(** * The slots and their bitmap

    The 64 list heads of ummalloc_data.h as one resource, and the agreement of
    the global [bitmap] with the emptiness of the lists. *)
From S2P Require Import Prelude Mem Sep Sbrk UmDecl UmData UmBits UmList UmChunk UmAlloc.
From iris.proofmode Require Import proofmode.

#[local] Open Scope Z_scope.

Section slots.
Context `{Layout, Kernel}.
Implicit Types (L : Z → list Z) (g : heap).

Definition slot_at (i : Z) : Z := slots_addr + 16 * i.

(** All the slots, slot [i] holding the nodes [L i]. *)
Definition slots (L : Z → list Z) : hprop :=
  ([∗ list] i ∈ seqZ 0 64, ring (slot_at i) (L i))%I.

(** Bit [j] is set when slot [j] has a chunk; slots 0 (reserved) and 1 (the
    fast pages) have no bit. *)
Definition bitmap_ok L (b : Z) : Prop :=
  0 ≤ b ∧ ∀ j, 0 ≤ j → Z.testbit b j = bool_decide (2 ≤ j < 64 ∧ L j ≠ []).

(** The globals with another [bitmap]. *)
Definition with_bitmap (b : Z) g : heap := mkheap (hbase g) b (hbrk g).

Lemma slots_access L i :
  0 ≤ i < 64 →
  slots L ⊢ ring (slot_at i) (L i) ∗ (∀ xs, ring (slot_at i) xs -∗ slots (<[i:=xs]> L)).
Proof.
  intros Hi. unfold slots.
  assert (seqZ 0 64 !! Z.to_nat i = Some i) as Hlook by (apply lookup_seqZ; lia).
  rewrite (big_sepL_delete _ _ _ _ Hlook). iIntros "[$ Hrest]" (xs) "Hx".
  iEval (rewrite (big_sepL_delete _ (seqZ 0 64) _ _ Hlook) fn_lookup_insert).
  iSplitL "Hx"; [iExact "Hx"|].
  iApply (big_sepL_mono with "Hrest"). intros k y Hy.
  apply lookup_seqZ in Hy as [-> ?]. case_decide as Hk; [done|].
  rewrite fn_lookup_insert_ne; [done|lia].
Qed.

Lemma slots_read L i :
  0 ≤ i < 64 → slots L ⊢ ring (slot_at i) (L i) ∗ (ring (slot_at i) (L i) -∗ slots L).
Proof.
  intros Hi. unfold slots.
  assert (seqZ 0 64 !! Z.to_nat i = Some i) as Hlook by (apply lookup_seqZ; lia).
  by rewrite {1}(big_sepL_lookup_acc _ _ _ _ Hlook).
Qed.

Lemma bitmap_ok_range L b : bitmap_ok L b → 0 ≤ b < 2 ^ 64.
Proof.
  intros [Hb Hj]. split; [done|]. destruct (Z.lt_ge_cases b (2 ^ 64)) as [|Hge]; [done|].
  assert (64 ≤ Z.log2 b) as Hl by (apply Z.log2_le_pow2; lia).
  pose proof (Hj (Z.log2 b) ltac:(lia)) as Hbit.
  rewrite -> Z.bit_log2, bool_decide_eq_false_2 in Hbit by lia. done.
Qed.

Lemma shl1 i : 0 ≤ i < 64 → u64 (Z.shiftl 1 i) = 2 ^ i.
Proof.
  intros Hi. rewrite Z.shiftl_1_l. apply wrap_small. split; [lia|].
  apply Z.pow_lt_mono_r; lia.
Qed.

Lemma bitmap_ok_set L b i xs :
  bitmap_ok L b → 2 ≤ i < 64 → xs ≠ [] → bitmap_ok (<[i:=xs]> L) (Z.lor b (2 ^ i)).
Proof.
  intros [Hb Hj] Hi Hxs. split; [apply Z.lor_nonneg; lia|]. intros j Hj0.
  rewrite Z.lor_spec Hj; [|done]. rewrite Z.pow2_bits_eqb; [|lia].
  destruct (Z.eqb_spec i j) as [->|Hne].
  - rewrite orb_true_r fn_lookup_insert. by rewrite bool_decide_eq_true_2.
  - by rewrite -> orb_false_r, fn_lookup_insert_ne by done.
Qed.

Lemma bitmap_ok_clear L b i :
  bitmap_ok L b → 2 ≤ i < 64 →
  bitmap_ok (<[i:=[]]> L) (Z.land b (u64 (Z.lnot (2 ^ i)))).
Proof.
  intros Hok Hi. rewrite -> land_wrap; [|lia|by eapply bitmap_ok_range].
  destruct Hok as [Hb Hj]. split; [apply Z.land_nonneg; lia|]. intros j Hj0.
  rewrite Z.land_spec Z.lnot_spec; [|done]. rewrite -> Hj by done.
  rewrite Z.pow2_bits_eqb; [|lia]. destruct (Z.eqb_spec i j) as [->|Hne].
  - rewrite andb_false_r fn_lookup_insert. rewrite bool_decide_eq_false_2; [done|naive_solver].
  - by rewrite -> andb_true_r, fn_lookup_insert_ne by done.
Qed.

Lemma bitmap_ok_keep L b i xs :
  bitmap_ok L b → L i ≠ [] → xs ≠ [] → bitmap_ok (<[i:=xs]> L) b.
Proof.
  intros [Hb Hj] HL Hxs. split; [done|]. intros j Hj0. rewrite -> Hj by done.
  destruct (decide (i = j)) as [->|].
  - rewrite fn_lookup_insert. apply bool_decide_ext. naive_solver.
  - by rewrite fn_lookup_insert_ne.
Qed.

(** ** Operations *)

Lemma wp_slot i (Φ : Z → heap → hprop) g :
  0 ≤ i < 64 → Φ (slot_at i) g ⊢ wp (slot i) Φ g.
Proof. intros Hi. unfold slot. destruct (Z.ltb_spec i 64); [|lia]. apply wp_ret. Qed.

Lemma wp_bitmap_set L i xs (Φ : unit → heap → hprop) g :
  2 ≤ i < 64 → bitmap_ok L (hbitmap g) → xs ≠ [] →
  (∀ b, ⌜bitmap_ok (<[i:=xs]> L) b⌝ -∗ Φ () (with_bitmap b g)) ⊢ wp (bitmap_set i) Φ g.
Proof.
  iIntros (Hi Hok Hxs) "HΦ". unfold bitmap_set, shl64. destruct (Z.ltb_spec i 64); [|lia].
  wp_apply wp_ret. rewrite -> shl1 by lia. iApply wp_setg; [done|].
  iApply "HΦ". iPureIntro. by apply bitmap_ok_set.
Qed.

Lemma wp_bitmap_clr L i (Φ : unit → heap → hprop) g :
  2 ≤ i < 64 → bitmap_ok L (hbitmap g) →
  (∀ b, ⌜bitmap_ok (<[i:=[]]> L) b⌝ -∗ Φ () (with_bitmap b g)) ⊢ wp (bitmap_clr i) Φ g.
Proof.
  iIntros (Hi Hok) "HΦ". unfold bitmap_clr, shl64. destruct (Z.ltb_spec i 64); [|lia].
  wp_apply wp_ret. rewrite -> shl1 by lia. iApply wp_setg; [done|].
  iApply "HΦ". iPureIntro. by apply bitmap_ok_clear.
Qed.

Lemma with_bitmap_id g : with_bitmap (hbitmap g) g = g.
Proof. by destruct g. Qed.

(** Clearing the bit when the list became empty re-establishes the agreement. *)
Lemma wp_when_clr L i xs (Φ : unit → heap → hprop) g :
  2 ≤ i < 64 → bitmap_ok L (hbitmap g) → L i ≠ [] →
  (∀ b, ⌜bitmap_ok (<[i:=xs]> L) b⌝ -∗ Φ () (with_bitmap b g)) ⊢
  wp (when (bool_decide (xs = [])) (bitmap_clr i)) Φ g.
Proof.
  iIntros (Hi Hok HL) "HΦ". case_bool_decide as Hxs; simpl.
  - subst xs. by iApply wp_bitmap_clr.
  - iApply wp_ret. rewrite -{2}(with_bitmap_id g). iApply "HΦ".
    iPureIntro. by apply bitmap_ok_keep.
Qed.

Lemma wp_list_extract L i x xs (Φ : Z → heap → hprop) g :
  2 ≤ i < 64 → bitmap_ok L (hbitmap g) → L i = x :: xs →
  slots L -∗
  (∀ b, ⌜bitmap_ok (<[i:=xs]> L) b⌝ -∗ slots (<[i:=xs]> L) -∗ anybytes x 16 -∗
     Φ x (with_bitmap b g)) -∗
  wp (list_extract i) Φ g.
Proof.
  iIntros (Hi Hok HL) "Hs HΦ". wp_apply (wp_slot i); [lia|].
  iDestruct (slots_access L i with "Hs") as "[Hr Hs]"; [lia|]. rewrite HL.
  wp_apply wp_list_pop with "Hr". iIntros "Hr Hx".
  wp_apply wp_list_empty with "Hr". iIntros "Hr".
  iApply wp_bind. iApply (wp_when_clr L); [done|done|by rewrite HL|].
  iIntros (b Hb). iApply wp_ret. iApply ("HΦ" with "[//] [Hs Hr] Hx"). by iApply "Hs".
Qed.

(** Removing any node, as [safe_remove] does. *)
Lemma wp_safe_remove L i xs x ys (Φ : unit → heap → hprop) g :
  2 ≤ i < 64 → bitmap_ok L (hbitmap g) → L i = xs ++ x :: ys →
  slots L -∗
  (∀ b, ⌜bitmap_ok (<[i:=xs ++ ys]> L) b⌝ -∗ slots (<[i:=xs ++ ys]> L) -∗ anybytes x 16 -∗
     Φ () (with_bitmap b g)) -∗
  wp (safe_remove x i) Φ g.
Proof.
  iIntros (Hi Hok HL) "Hs HΦ".
  iDestruct (slots_access L i with "Hs") as "[Hr Hs]"; [lia|]. rewrite HL.
  iApply (wp_unlink with "Hr"). iIntros (p n ->) "Hr Hx".
  iApply (wp_when_clr L); [done|done|by rewrite HL; destruct xs|].
  iIntros (b Hb). iApply ("HΦ" with "[//] [Hs Hr] Hx"). by iApply "Hs".
Qed.

Lemma wp_get_index size (Φ : Z → heap → hprop) g :
  32 < size < 2 ^ 32 → Φ (size_class size) g ⊢ wp (get_index size) Φ g.
Proof.
  intros Hs. rewrite -(wp_ext (get_index size) (mret (size_class size))).
  - apply wp_ret.
  - intros s. by rewrite get_index_class.
Qed.

(** [try_safe_remove] finds the slot from the size in the header. *)
Lemma wp_try_safe_remove L c sz m xs ys (Φ : unit → heap → hprop) g :
  32 < sz ≤ 65536 → bitmap_ok L (hbitmap g) →
  L (size_class sz) = xs ++ pack_data c :: ys →
  let L' := <[size_class sz := xs ++ ys]> L in
  slots L -∗ hsize c sz m -∗
  (∀ b, ⌜bitmap_ok L' b⌝ -∗ slots L' -∗ hsize c sz m -∗ anybytes (pack_data c) 16 -∗
     Φ () (with_bitmap b g)) -∗
  wp (try_safe_remove (pack_data c) c) Φ g.
Proof.
  iIntros (Hsz Hok HL L') "Hs Hh HΦ". pose proof (size_class_range sz Hsz) as Hi.
  iDestruct (slots_access L (size_class sz) with "Hs") as "[Hr Hs]"; [lia|]. rewrite HL.
  iApply (wp_unlink with "Hr"). iIntros (p n ->) "Hr Hx".
  iSpecialize ("Hs" with "Hr"). case_bool_decide as He; simpl.
  - wp_apply wp_pack_size with "Hh". iIntros "Hh". wp_apply wp_get_index; [lia|].
    iApply (wp_bitmap_clr L); [done|done|]. iIntros (b Hb).
    iApply ("HΦ" with "[%] Hs Hh Hx"). by rewrite /L' He.
  - iApply wp_ret. rewrite -{2}(with_bitmap_id g). iApply ("HΦ" with "[%] Hs Hh Hx").
    apply bitmap_ok_keep; [done|by rewrite HL; destruct xs|done].
Qed.

Lemma wp_free_chunk L c sz sy (Φ : unit → heap → hprop) g :
  0 ≤ c → c + sz < 2 ^ 64 → 32 < sz ≤ 65536 → bitmap_ok L (hbitmap g) →
  let L' := <[size_class sz := pack_data c :: L (size_class sz)]> L in
  slots L -∗ hsize c sz 1 -∗ hsize (c + sz) sy 2 -∗ anybytes (pack_data c) 16 -∗
  (∀ b, ⌜bitmap_ok L' b⌝ -∗ slots L' -∗ hsize c sz 1 -∗ hsize (c + sz) sy 2 -∗
     Φ () (with_bitmap b g)) -∗
  wp (free_chunk c) Φ g.
Proof.
  iIntros (Hc Hcs Hsz Hok L') "Hs Hh Hn Hx HΦ". pose proof (size_class_range sz Hsz) as Hi.
  unfold free_chunk, IMPOSSIBLE. wp_apply wp_pack_meta with "Hh". iIntros "Hh". simpl.
  wp_apply wp_ret. wp_apply wp_pack_next with "Hh"; [lia|lia|]. iIntros "Hh".
  wp_apply wp_pack_meta with "Hn". iIntros "Hn". simpl. wp_apply wp_ret.
  wp_apply wp_pack_size with "Hh". iIntros "Hh". wp_apply wp_get_index; [lia|].
  wp_apply wp_slot; [lia|].
  iDestruct (slots_access L (size_class sz) with "Hs") as "[Hr Hs]"; [lia|].
  wp_apply wp_list_push with "Hr Hx"; [unfold pack_data; lia|]. iIntros "Hr".
  iApply (wp_bitmap_set L _ (pack_data c :: L (size_class sz))); [done|done|done|]. iIntros (b Hb).
  iApply ("HΦ" with "[//] [Hs Hr] Hh Hn"). by iApply "Hs".
Qed.
End slots.

#[global] Typeclasses Opaque slots.
