(* ===== verification/UmHeap.v ===== *)
(** * The heap invariant and the chunk-level allocation functions

    The invariant ties the chunk sequence, the slots, the bitmap and the break
    together; every function of ummalloc_alloc.h that takes a chunk out of the
    heap is shown to preserve it and to hand the chunk's bytes to the caller. *)
From S2P Require Import Prelude Mem Sep Sbrk UmDecl UmData UmBits UmList UmChunk UmAlloc UmSlots.
From iris.proofmode Require Import proofmode.

#[local] Open Scope Z_scope.

(** One beyond the highest virtual address (kernel/riscv.h). *)
Definition MAXVA : Z := 2 ^ 38.

(** The chunks [xs], two chunks in use, the chunks [ys]. *)
Abbreviation with_used xs sz sy ys := (xs ++ (sz, false) :: (sy, false) :: ys).

Section heap.
Context `{Layout, Kernel}.
Implicit Types (L : Z → list Z) (g : heap) (cs xs ys : list chunk).

(** The chunks from [lo] on, the last being the header below [base], fill the
    heap up to the break; each slot lists the free chunks of its class; the
    bitmap shows which slots are not empty. *)
Record heap_ok (lo : Z) cs L g : Prop := {
  ok_lo : 8 ≤ lo ∧ lo `mod` 8 = 0;
  ok_end : cend lo cs = hbase g - 8;
  ok_last : last cs = Some (0, false);
  ok_brk : hbase g = hbrk g;
  ok_max : hbrk g ≤ MAXVA;
  ok_bitmap : bitmap_ok L (hbitmap g);
  ok_nodes : ∀ i, 2 ≤ i < 64 → L i ≡ₚ nodes i lo cs;
}.

Definition heap_inv (lo : Z) cs L : hprop := (slots L ∗ seg lo None cs)%I.

(** A chunk of size [sz] behind the chunks [xs] that is in no list, the flags
    in its header being arbitrary; the chunk behind it, of size [sy], is in use. *)
Definition loose (lo : Z) xs (sz sy : Z) ys L : hprop :=
  (let c := cend lo xs in
   ⌜cprev None xs = None⌝ ∗ slots L ∗ seg lo None xs ∗
   hprev c ∗ (∃ m, hsize c sz m) ∗ anybytes (pack_data c) (sz - 8) ∗
   hprev (c + sz) ∗ (∃ m, ⌜m = 2 ∨ m = 3⌝ ∗ hsize (c + sz) sy m) ∗
   seg (c + sz + sy) None ys)%I.

(** What an allocating function returns: a pointer to the data of a chunk of
    at least [min] bytes, whose bytes now belong to the caller. *)
Definition allocated (lo : Z) (fast : list Z) (min p : Z) g : hprop :=
  (∃ cs L k, ⌜heap_ok lo cs L g ∧ L 1 = fast⌝ ∗ heap_inv lo cs L ∗
     ⌜min ≤ k ∧ p `mod` 8 = 0 ∧ lo < p ≤ MAXVA⌝ ∗ anybytes p (k - 8))%I.

Lemma header_used c sz : header c None (sz, false) ⊣⊢ hprev c ∗ hsize c sz 3.
Proof.
  unfold header, hprev. simpl. iSplit.
  - iIntros "[(%p & _ & Hp) $]". by iExists p.
  - iIntros "[(%p & Hp) $]". iExists p. by iFrame.
Qed.

Lemma header_after_free c s sz :
  header c (Some s) (sz, false) ⊣⊢ pack_prev_at c ↦₄ s ∗ hsize c sz 2.
Proof.
  unfold header. simpl. iSplit.
  - iIntros "[(%p & %Hp & H) $]". by rewrite (Hp s eq_refl).
  - iIntros "[H $]". iExists s. iFrame. iPureIntro. by intros s' [= ->].
Qed.

Lemma header_free c sz : header c None (sz, true) ⊣⊢ hprev c ∗ hsize c sz 1.
Proof.
  unfold header, hprev. simpl. iSplit.
  - iIntros "[(%p & _ & Hp) $]". by iExists p.
  - iIntros "[(%p & Hp) $]". iExists p. by iFrame.
Qed.

Lemma loose_bounds lo xs sz sy ys L L' g :
  heap_ok lo (with_used xs sz sy ys) L' g →
  loose lo xs sz sy ys L ⊢
    ⌜lo ≤ cend lo xs ∧ cend lo xs `mod` 8 = 0 ∧ sz `mod` 8 = 0 ∧ 0 ≤ sz < 2 ^ 31 ∧
     sy `mod` 8 = 0 ∧ 0 ≤ sy < 2 ^ 31 ∧ 8 ≤ lo ∧ cend lo xs + sz + sy ≤ 2 ^ 38⌝.
Proof.
  iIntros (Hok) "(_ & _ & Hxs & _ & [%m [%Hm _]] & _ & _ & [%m' (_ & %Hm' & _)] & Hys)".
  iDestruct (seg_cend with "Hxs") as %Hxs. iDestruct (seg_cend with "Hys") as %Hys.
  iPureIntro. destruct Hok as [[Hlo Hlo8] Hend _ Hbrk Hmax _ _].
  rewrite cend_app in Hend. simpl in Hend. unfold MAXVA in Hmax.
  split_and!; try lia. dlia.
Qed.

(** ** Taking the whole chunk *)

Lemma wp_pack_allocate lo xs sz sy ys L g (Φ : Z → heap → hprop) :
  heap_ok lo (with_used xs sz sy ys) L g →
  loose lo xs sz sy ys L -∗
  (heap_inv lo (with_used xs sz sy ys) L -∗ anybytes (pack_data (cend lo xs)) (sz - 8) -∗
     Φ (pack_data (cend lo xs)) g) -∗
  wp (pack_allocate (cend lo xs)) Φ g.
Proof.
  iIntros (Hok) "Hl HΦ". iDestruct (loose_bounds with "Hl") as %Hb; [done|].
  iDestruct "Hl" as "(%Hp & Hs & Hxs & Hcp & [%m Hc] & Hd & Hnp & [%m' [%Hm' Hn]] & Hys)".
  wp_apply wp_pack_size with "Hc". iIntros "Hc".
  wp_apply wp_pack_set_meta with "Hc"; [done|]. iIntros "Hc".
  wp_apply wp_pack_next with "Hc"; [lia|lia|]. iIntros "Hc".
  wp_apply wp_pack_set_prev with "Hnp"; [lia|]. iIntros "Hnp".
  wp_apply wp_pack_add_prev with "Hn"; [done|]. iIntros "Hn".
  iApply wp_ret. iApply ("HΦ" with "[-Hd] Hd"). unfold heap_inv. iFrame "Hs".
  rewrite seg_app. iFrame "Hxs". rewrite Hp. simpl. rewrite !header_used hprev_intro.
  iFrame. iPureIntro. split; done.
Qed.

(** ** Splitting a chunk *)

(** The pure invariant when [free_chunk] adds the tail of a split chunk. *)
Lemma heap_ok_split lo xs sz need sy ys L g b :
  let rest := sz - need in
  let L' := <[size_class rest := pack_data (cend lo xs + need) :: L (size_class rest)]> L in
  heap_ok lo (with_used xs sz sy ys) L g → bitmap_ok L' b →
  heap_ok lo (xs ++ (need, false) :: (rest, true) :: (sy, false) :: ys) L' (with_bitmap b g).
Proof.
  intros rest L' [Hlo Hend Hlast Hbrk Hmax _ Hnodes] Hb.
  assert (cend lo xs + need + rest = cend lo xs + sz) as Hc by lia.
  split; try done.
  - rewrite cend_app in Hend. rewrite cend_app. simpl in *. by rewrite Hc.
  - rewrite last_app_cons in Hlast. by rewrite last_app_cons.
  - intros i Hi. specialize (Hnodes i Hi). rewrite nodes_app in Hnodes. rewrite nodes_app.
    simpl in *. rewrite Hc. unfold L'. destruct (Z.eqb_spec (size_class rest) i) as [<-|Hne].
    + rewrite fn_lookup_insert. simpl. rewrite -Permutation_middle. by constructor.
    + by rewrite fn_lookup_insert_ne.
Qed.

Lemma wp_split_allocate lo xs sz need sy ys L g (Φ : Z → heap → hprop) :
  heap_ok lo (with_used xs sz sy ys) L g →
  8 ≤ need → need `mod` 8 = 0 → 32 < sz - need ≤ 65536 →
  let rest := sz - need in
  let L' := <[size_class rest := pack_data (cend lo xs + need) :: L (size_class rest)]> L in
  let cs' := xs ++ (need, false) :: (rest, true) :: (sy, false) :: ys in
  loose lo xs sz sy ys L -∗
  (∀ b, ⌜heap_ok lo cs' L' (with_bitmap b g)⌝ -∗ heap_inv lo cs' L' -∗
     anybytes (pack_data (cend lo xs)) (need - 8) -∗
     Φ (pack_data (cend lo xs)) (with_bitmap b g)) -∗
  wp (split_allocate (cend lo xs) need) Φ g.
Proof.
  iIntros (Hok Hn Hn8 Hr rest L' cs') "Hl HΦ".
  iDestruct (loose_bounds with "Hl") as %Hb; [done|].
  assert (rest `mod` 8 = 0) as Hr8 by (unfold rest; dlia).
  iDestruct "Hl" as "(%Hp & Hs & Hxs & Hcp & [%m Hc] & Hd & Hnp & [%m' [%Hm' Hn]] & Hys)".
  set (c := cend lo xs) in *. unfold split_allocate, THIS_INUSE, PREV_INUSE, BOTH_INUSE.
  wp_apply wp_pack_size with "Hc". iIntros "Hc". rewrite -> (wrap_small 64 (sz - need)) by lia.
  change (sz - need) with rest.
  wp_apply wp_pack_next with "Hc"; [lia|lia|]. iIntros "Hc".
  wp_apply wp_pack_set_prev with "Hnp"; [lia|]. iIntros "Hnp".
  wp_apply wp_pack_set_meta with "Hn"; [done|]. iIntros "Hn".
  iDestruct "Hc" as "[_ Hc]". wp_apply wp_pack_set_info with "Hc"; [done|lia|done|].
  iIntros "Hc". wp_apply wp_pack_next with "Hc"; [lia|lia|]. iIntros "Hc".
  (* the header of the new chunk comes out of the data of the old one *)
  rewrite (anybytes_split (pack_data c) (sz - 8) (need - 8)); [|lia].
  iDestruct "Hd" as "[Hd Ht]".
  replace (pack_data c + (need - 8)) with (c + need) by (unfold pack_data; lia).
  replace (sz - 8 - (need - 8)) with rest by (unfold rest; lia).
  iDestruct (anybytes_header with "Ht") as "(Htp & [%v Ht] & Htd)"; [lia|].
  rewrite (anybytes_split (c + need + 8) (rest - 8) 16); [|lia]. iDestruct "Htd" as "[Hx Htd]".
  wp_apply wp_pack_set_prev with "Htp"; [lia|]. iIntros "Htp".
  wp_apply wp_pack_set_info with "Ht"; [done|lia|done|]. iIntros "Ht".
  replace (c + sz) with (c + need + rest) by (unfold rest; lia).
  wp_apply (wp_free_chunk L) with "Hs Ht Hn Hx"; [lia|lia|lia|apply Hok|].
  iIntros (b Hbm) "Hs Ht Hn". iApply wp_ret.
  iApply ("HΦ" with "[%] [-Hd] Hd"); [by apply heap_ok_split|].
  unfold heap_inv. iFrame "Hs". unfold cs'. rewrite seg_app. iFrame "Hxs". rewrite Hp. fold c.
  change (sz - need) with rest in Hr. clearbody rest c. simpl.
  rewrite (header_used c need) (header_free (c + need) rest).
  rewrite (header_after_free (c + need + rest) rest sy) (hprev_intro (c + need)).
  replace (c + need + 8 + 16) with (c + need + 24) by lia.
  replace (rest - 8 - 16) with (rest - 24) by lia. iFrame.
  iPureIntro. unfold chunk_ok. simpl. split_and!; naive_solver.
Qed.

Lemma wp_loose_size lo xs sz sy ys L g (Φ : Z → heap → hprop) :
  loose lo xs sz sy ys L -∗ (loose lo xs sz sy ys L -∗ Φ sz g) -∗
  wp (pack_size (cend lo xs)) Φ g.
Proof.
  iIntros "(Hp & Hs & Hxs & Hcp & [%m Hc] & Hrest) HΦ".
  iApply (wp_pack_size with "Hc"). iIntros "Hc". iApply "HΦ".
  iFrame "Hp Hs Hxs Hcp Hrest". by iExists m.
Qed.

Lemma wp_try_split_allocate lo xs sz need sy ys L g :
  heap_ok lo (with_used xs sz sy ys) L g →
  32 < need ≤ sz → need `mod` 8 = 0 → sz - need ≤ 65536 →
  loose lo xs sz sy ys L ⊢
  wp (try_split_allocate (cend lo xs) need) (allocated lo (L 1) need) g.
Proof.
  iIntros (Hok Hn Hn8 Hr) "Hl". iDestruct (loose_bounds with "Hl") as %Hb; [done|].
  wp_apply wp_loose_size with "Hl". iIntros "Hl".
  rewrite -> (wrap_small 64 (sz - need)) by lia.
  assert (pack_data (cend lo xs) `mod` 8 = 0 ∧ lo < pack_data (cend lo xs) ≤ MAXVA) as Hd.
  { unfold pack_data, MAXVA. dlia. }
  destruct ((need <=? sz - need) || (512 <=? sz - need)) eqn:Hs;
    [apply orb_true_iff in Hs; rewrite !Z.leb_le in Hs|].
  - iApply (wp_split_allocate with "Hl"); [done|lia|done|lia|].
    iIntros (b Hok') "Hinv Hd". iExists _, _, need. iFrame. iPureIntro.
    split_and!; try done; try lia. rewrite fn_lookup_insert_ne; [done|].
    pose proof (size_class_range (sz - need)). lia.
  - iApply (wp_pack_allocate with "Hl"); [done|]. iIntros "Hinv Hd".
    iExists _, _, sz. iFrame. iPureIntro. split_and!; try done; lia.
Qed.

(** ** Taking a chunk out of its list *)

(** In a heap, a free chunk is followed by a chunk in use. *)
Lemma seg_free_next c prev sz ys :
  last ((sz, true) :: ys) = Some (0, false) →
  seg c prev ((sz, true) :: ys) ⊢ ⌜∃ sy ys', ys = (sy, false) :: ys'⌝.
Proof.
  intros Hlast. destruct ys as [|[sy f] ys]; [done|]. simpl.
  iIntros "(_ & _ & _ & %Hok & _)". iPureIntro. unfold chunk_ok in Hok. simpl in Hok.
  destruct f; [|eauto]. by destruct Hok.
Qed.

(** The pure invariant when a free chunk leaves its list. *)
Lemma heap_ok_remove lo xs sz ys L g b us x vs :
  heap_ok lo (xs ++ (sz, true) :: ys) L g →
  x = pack_data (cend lo xs) → L (size_class sz) = us ++ x :: vs →
  let L' := <[size_class sz := us ++ vs]> L in
  bitmap_ok L' b → heap_ok lo (xs ++ (sz, false) :: ys) L' (with_bitmap b g).
Proof.
  intros [Hlo Hend Hlast Hbrk Hmax _ Hnodes] Hx HL L' Hb. split; try done.
  - rewrite cend_app in Hend. by rewrite cend_app.
  - rewrite last_app_cons in Hlast. rewrite last_app_cons. by destruct ys.
  - intros i Hi. specialize (Hnodes i Hi). rewrite nodes_app in Hnodes. rewrite nodes_app.
    simpl in *. unfold L'. destruct (Z.eqb_spec (size_class sz) i) as [<-|Hne].
    + rewrite fn_lookup_insert. rewrite HL Hx in Hnodes. simpl in Hnodes.
      by eapply Permutation_app_inv.
    + by rewrite fn_lookup_insert_ne.
Qed.

(** A free chunk whose node left its list is loose. *)
Lemma seg_loose lo xs sz sy ys L :
  slots L ∗ seg lo None (xs ++ (sz, true) :: (sy, false) :: ys) ∗
    anybytes (pack_data (cend lo xs)) 16 ⊢
  ⌜32 < sz ≤ 65536⌝ ∗ loose lo xs sz sy ys L.
Proof.
  iIntros "(Hs & Hseg & Hx)". rewrite seg_app. unfold loose. set (c := cend lo xs).
  iDestruct "Hseg" as "[Hxs Hseg]". clearbody c. simpl.
  iDestruct "Hseg" as "(%Hok & Hh & Hd & _ & Hn & _ & Hys)".
  destruct (Hok eq_refl) as [Hprev Hsz]. rewrite Hprev. simpl in Hsz.
  rewrite (header_free c sz) (header_after_free (c + sz) sz sy) (hprev_intro (c + sz)).
  iDestruct "Hh" as "[Hp Hh]". iDestruct "Hn" as "[Hnp Hn]".
  iFrame "Hs Hxs Hp Hnp Hys". iSplit; [done|]. iSplit; [done|]. iSplitL "Hh"; [by iExists _|].
  iSplitL "Hx Hd"; [|iExists 2; iFrame "Hn"; by iLeft].
  rewrite (anybytes_split (pack_data c) (sz - 8) 16); [|lia]. iFrame "Hx". unfold body. simpl.
  unfold pack_data. replace (c + 8 + 16) with (c + 24) by lia.
  replace (sz - 8 - 16) with (sz - 24) by lia. done.
Qed.

Lemma heap_detach_at lo xs sz ys L g us vs b :
  heap_ok lo (xs ++ (sz, true) :: ys) L g →
  L (size_class sz) = us ++ pack_data (cend lo xs) :: vs →
  let L' := <[size_class sz := us ++ vs]> L in
  bitmap_ok L' b →
  slots L' ∗ seg lo None (xs ++ (sz, true) :: ys) ∗ anybytes (pack_data (cend lo xs)) 16 ⊢
  ∃ sy ys', ⌜ys = (sy, false) :: ys' ∧ 32 < sz ≤ 65536 ∧
      heap_ok lo (with_used xs sz sy ys') L' (with_bitmap b g)⌝ ∗ loose lo xs sz sy ys' L'.
Proof.
  iIntros (Hok HL L' Hb) "(Hs & Hseg & Hx)".
  iAssert ⌜∃ sy ys', ys = (sy, false) :: ys'⌝%I as %(sy & ys' & ->).
  { rewrite seg_app. iDestruct "Hseg" as "[_ Hseg]". iApply (seg_free_next with "Hseg").
    pose proof (ok_last _ _ _ _ Hok) as Hlast. by rewrite last_app_cons in Hlast. }
  iDestruct (seg_loose with "[$Hs $Hseg $Hx]") as "[%Hsz Hl]".
  iExists sy, ys'. iFrame "Hl". iPureIntro. split_and!; try done; try lia.
  by eapply heap_ok_remove.
Qed.

(** The chunk of a node of slot [i]. *)
Lemma slot_chunk lo cs L g i x :
  heap_ok lo cs L g → 2 ≤ i < 64 → x ∈ L i →
  ∃ xs sz ys, cs = xs ++ (sz, true) :: ys ∧ x = pack_data (cend lo xs) ∧ size_class sz = i.
Proof. intros Hok Hi Hx. apply nodes_elem. by rewrite -(ok_nodes _ _ _ _ Hok i Hi). Qed.

Lemma list_pack_data c : 0 ≤ c < 2 ^ 64 → list_pack (pack_data c) = c.
Proof.
  intros Hc. unfold list_pack, pack_data, sizeof_pack.
  replace (c + 8 - 8) with c by lia. by apply wrap_small.
Qed.

Lemma loose_list_pack lo xs sz sy ys L L' g :
  heap_ok lo (with_used xs sz sy ys) L' g →
  loose lo xs sz sy ys L ⊢ ⌜list_pack (pack_data (cend lo xs)) = cend lo xs⌝.
Proof.
  iIntros (Hok) "Hl". iDestruct (loose_bounds with "Hl") as %Hb; [done|]. iPureIntro.
  apply list_pack_data. lia.
Qed.

(** ** The slot-level allocation functions *)

(** The chunk at the head of a list that is not empty. *)
Lemma wp_extract_chunk lo cs L g i (Φ : Z → heap → hprop) :
  heap_ok lo cs L g → 2 ≤ i < 64 → L i ≠ [] →
  heap_inv lo cs L -∗
  (∀ xs sz sy ys L' b,
     ⌜size_class sz = i ∧ 32 < sz ≤ 65536 ∧ L' 1 = L 1 ∧
      heap_ok lo (with_used xs sz sy ys) L' (with_bitmap b g) ∧
      list_pack (pack_data (cend lo xs)) = cend lo xs⌝ -∗
     loose lo xs sz sy ys L' -∗ Φ (pack_data (cend lo xs)) (with_bitmap b g)) -∗
  wp (list_extract i) Φ g.
Proof.
  iIntros (Hok Hi HL) "[Hs Hseg] HΦ". destruct (L i) as [|x us] eqn:HLi; [done|].
  iApply (wp_list_extract with "Hs"); [done|apply Hok|done|]. iIntros (b Hb) "Hs Hx".
  destruct (slot_chunk lo cs L g i x) as (xs & sz & ys & -> & -> & Hc);
    [done..|rewrite HLi; set_solver|]. subst i.
  iDestruct (heap_detach_at lo xs sz ys L g [] us b with "[$Hs $Hseg $Hx]")
    as (sy ys' (-> & Hsz & Hok')) "Hl"; [done..|].
  iDestruct (loose_list_pack with "Hl") as %Hlp; [done|].
  iApply ("HΦ" with "[%] Hl"). split_and!; try done; try lia.
  by rewrite fn_lookup_insert_ne; [|lia].
Qed.

(** [tiny_allocate] takes the first chunk of the slot whatever its size. *)
Lemma wp_tiny_allocate lo cs L g i :
  heap_ok lo cs L g → 2 ≤ i < 64 →
  heap_inv lo cs L ⊢
  wp (tiny_allocate i) (λ p g',
    (⌜p = 0 ∧ g' = g⌝ ∗ heap_inv lo cs L) ∨
    (∃ k, ⌜32 < k ∧ k `mod` 8 = 0 ∧ size_class k = i⌝ ∗ ⌜p ≠ 0⌝ ∗ allocated lo (L 1) k p g'))%I g.
Proof.
  iIntros (Hok Hi) "[Hs Hseg]". unfold tiny_allocate. wp_apply wp_slot; [lia|].
  iDestruct (slots_read L i with "Hs") as "[Hr Hs]"; [lia|].
  wp_apply wp_list_empty with "Hr". iIntros "Hr". iSpecialize ("Hs" with "Hr").
  case_bool_decide as HL.
  { iApply wp_ret. iLeft. by iFrame. }
  wp_apply (wp_extract_chunk lo cs L) with "[$Hs $Hseg]"; [done..|].
  iIntros (xs sz sy ys L' b (Hc & Hsz & HL1 & Hok' & Hlp)) "Hl". rewrite Hlp.
  iDestruct (loose_bounds with "Hl") as %Hb; [done|].
  iApply (wp_pack_allocate with "Hl"); [done|]. iIntros "Hinv Hd".
  iRight. iExists sz. iSplit; [iPureIntro; lia|]. unfold pack_data, MAXVA.
  iSplit; [iPureIntro; lia|]. iExists _, L', sz. iFrame. iPureIntro.
  unfold MAXVA. split_and!; try done; dlia.
Qed.

(** The header behind a chunk belongs to the heap. *)
Lemma used_next_header lo xs sz sy ys L : heap_inv lo (with_used xs sz sy ys) L ⊢ anybytes (cend lo xs + sz) 8.
Proof.
  iIntros "[_ Hseg]". rewrite seg_app. simpl. iDestruct "Hseg" as "(_ & _ & _ & _ & _ & Hh & _)".
  rewrite header_used. by iApply header_anybytes.
Qed.

(** [tiny_allocate] when the list of the slot begins with the chunk behind [xs]:
    it hands out that chunk, whatever its size, up to the next header. *)
Lemma wp_tiny_first lo xs sz ys L g us :
  heap_ok lo (xs ++ (sz, true) :: ys) L g → 2 ≤ size_class sz < 64 →
  L (size_class sz) = pack_data (cend lo xs) :: us →
  heap_inv lo (xs ++ (sz, true) :: ys) L ⊢
  wp (tiny_allocate (size_class sz)) (λ p g', ⌜p = pack_data (cend lo xs) ∧ p ≠ 0⌝ ∗
    ∃ cs' L', ⌜heap_ok lo cs' L' g' ∧ L' 1 = L 1⌝ ∗ (heap_inv lo cs' L' ∧ anybytes (p + (sz - 8)) 8) ∗ anybytes p (sz - 8))%I g.
Proof.
  iIntros (Hok Hi HL) "[Hs Hseg]". unfold tiny_allocate. wp_apply wp_slot; [lia|].
  iDestruct (slots_read L (size_class sz) with "Hs") as "[Hr Hs]"; [lia|].
  wp_apply wp_list_empty with "Hr". iIntros "Hr". iSpecialize ("Hs" with "Hr"). rewrite HL.
  rewrite bool_decide_eq_false_2; [|done].
  iApply wp_bind. iApply (wp_list_extract with "Hs"); [done|apply Hok|done|]. iIntros (b Hb) "Hs Hx".
  iDestruct (heap_detach_at lo xs sz ys L g [] us b with "[$Hs $Hseg $Hx]") as (sy ys' (-> & Hsz & Hok')) "Hl"; [done..|].
  iDestruct (loose_list_pack with "Hl") as %->; [done|]. iDestruct (loose_bounds with "Hl") as %Hbd; [done|].
  iApply (wp_pack_allocate with "Hl"); [done|]. iIntros "Hinv Hd". iSplit; [iPureIntro; unfold pack_data; lia|].
  iExists _, _. iFrame "Hd". iSplit; [iPureIntro; split; [exact Hok'|by rewrite fn_lookup_insert_ne; [|lia]]|].
  iSplit; [done|]. rewrite used_next_header. unfold pack_data. by replace (cend lo xs + 8 + (sz - 8)) with (cend lo xs + sz) by lia.
Qed.
End heap.
