(* ===== verification/UmMalloc.v ===== *)
(** * The search for a chunk: slots first, then the break

    Specifications of the functions of ummalloc_alloc.h that find a chunk for
    a request above the fast size. *)
From S2P Require Import Prelude Mem Sep Sbrk UmDecl UmData UmBits UmList UmChunk UmAlloc UmSlots UmHeap.
From iris.proofmode Require Import proofmode.

#[local] Open Scope Z_scope.

Section malloc.
Context `{Layout, Kernel}.
Implicit Types (L : Z → list Z) (g : heap) (cs xs ys : list chunk).

(** ** Searching one slot *)

Lemma seg_size_read c prev xs sz f ys :
  seg c prev (xs ++ (sz, f) :: ys) ⊢
  ∃ m, hsize (cend c xs) sz m ∗ (hsize (cend c xs) sz m -∗ seg c prev (xs ++ (sz, f) :: ys)).
Proof.
  iIntros "Hseg". iEval (rewrite seg_app) in "Hseg". iDestruct "Hseg" as "[Hxs Hseg]".
  simpl. iDestruct "Hseg" as "(Hok & [Hp Hh] & Hb & Hys)". iExists _. iFrame "Hh".
  iIntros "Hh". rewrite seg_app. iFrame "Hxs". simpl. iFrame "Hok Hp Hh Hb Hys".
Qed.

Lemma seg_bounds lo xs ys L g :
  heap_ok lo (xs ++ ys) L g →
  seg lo None (xs ++ ys) ⊢ ⌜8 ≤ lo ≤ cend lo xs ∧ cend lo xs `mod` 8 = 0 ∧ cend lo xs ≤ 2 ^ 38⌝.
Proof.
  iIntros (Hok) "H". rewrite seg_app. iDestruct "H" as "[Hx Hy]".
  iDestruct (seg_cend with "Hx") as %Hx. iDestruct (seg_cend with "Hy") as %Hy.
  iPureIntro. destruct Hok as [[Hlo Hlo8] Hend _ Hbrk Hmax _ _].
  rewrite cend_app in Hend. unfold MAXVA in Hmax. dlia.
Qed.

(** The outcome of a search that may fail and leaves the heap alone then. *)
Definition found lo cs L need g (p : Z) (g' : heap) : hprop :=
  ((⌜p = 0 ∧ g' = g⌝ ∗ heap_inv lo cs L) ∨ (⌜p ≠ 0⌝ ∗ allocated lo (L 1) need p g'))%I.

Lemma first_of_ne vs l : first_of vs l ≠ l → ∃ x vs', vs = x :: vs'.
Proof. destruct vs; [done|eauto]. Qed.

Lemma wp_take_chunk lo xs sz ys L g us vs need :
  heap_ok lo (xs ++ (sz, true) :: ys) L g → 2 ≤ size_class sz < 64 →
  L (size_class sz) = us ++ pack_data (cend lo xs) :: vs → need ≤ sz →
  heap_inv lo (xs ++ (sz, true) :: ys) L ⊢
  wp (safe_remove (pack_data (cend lo xs)) (size_class sz);; pack_allocate (cend lo xs))
    (λ p g', ⌜p ≠ 0⌝ ∗ allocated lo (L 1) need p g')%I g.
Proof.
  iIntros (Hok Hi HL Hneed) "[Hs Hseg]".
  wp_apply wp_safe_remove with "Hs"; [done|apply Hok|done|]. iIntros (b Hb) "Hs Hx".
  iDestruct (heap_detach_at lo xs sz ys L g us vs b with "[$Hs $Hseg $Hx]")
    as (sy ys' (-> & Hsz & Hok')) "Hl"; [done..|].
  iDestruct (loose_bounds with "Hl") as %Hbd; [done|].
  iApply (wp_pack_allocate with "Hl"); [done|]. iIntros "Hinv Hd". unfold pack_data.
  iSplit; [iPureIntro; lia|]. iExists _, _, sz. iFrame. iPureIntro.
  unfold MAXVA. split_and!; try done; try dlia. by rewrite fn_lookup_insert_ne; [|lia].
Qed.

Lemma wp_iterative_loop lo cs L g i us vs need n :
  heap_ok lo cs L g → 2 ≤ i < 64 → L i = us ++ vs →
  heap_inv lo cs L ⊢
  wp (iterative_loop (slot_at i) (first_of vs (slot_at i)) i need n) (found lo cs L need g) g.
Proof.
  intros Hok Hi. revert us vs. induction n as [|n IH]; intros us vs HL; simpl.
  { iIntros "H". iApply wp_ret. iLeft. by iFrame. }
  iIntros "H". destruct (Z.eqb_spec (first_of vs (slot_at i)) (slot_at i)) as [|Hne].
  { iApply wp_ret. iLeft. by iFrame. }
  destruct (first_of_ne _ _ Hne) as (x & vs' & ->). simpl.
  destruct (slot_chunk lo cs L g i x) as (xs & sz & ys & -> & -> & Hc);
    [done..|rewrite HL; set_solver|]. subst i.
  iDestruct "H" as "[Hs Hseg]". iDestruct (seg_bounds with "Hseg") as %Hb; [done|].
  unfold first_of. simpl. rewrite -> list_pack_data by lia.
  iDestruct (seg_size_read with "Hseg") as (m) "[Hh Hseg]".
  wp_apply wp_pack_size with "Hh". iIntros "Hh". iSpecialize ("Hseg" with "Hh").
  destruct (Z.leb_spec need sz) as [Hle|Hgt].
  - iApply (wp_wand with "[Hs Hseg]").
    { iApply (wp_take_chunk with "[$Hs $Hseg]"); done. }
    iIntros (p g') "H". by iRight.
  - iDestruct (slots_read L (size_class sz) with "Hs") as "[Hr Hs]"; [lia|]. rewrite HL.
    iDestruct (ring_next_read with "Hr") as "[Hn Hr]". wp_load "Hn".
    iSpecialize ("Hr" with "Hn"). rewrite -HL. iSpecialize ("Hs" with "Hr").
    iApply (IH (us ++ [pack_data (cend lo xs)])); [by rewrite -app_assoc|]. iFrame.
Qed.

Lemma wp_iterative_allocate lo cs L g i need n :
  heap_ok lo cs L g → 2 ≤ i < 64 →
  heap_inv lo cs L ⊢ wp (iterative_allocate i need n) (found lo cs L need g) g.
Proof.
  iIntros (Hok Hi) "[Hs Hseg]". wp_apply wp_slot; [lia|].
  iDestruct (slots_read L i with "Hs") as "[Hr Hs]"; [lia|].
  iDestruct (ring_first_read with "Hr") as "[Hn Hr]". wp_load "Hn".
  iSpecialize ("Hr" with "Hn"). iSpecialize ("Hs" with "Hr").
  iApply (wp_iterative_loop lo cs L g i []); [done..|]. iFrame.
Qed.

(** ** Extending the heap *)

(** The growth for a request: whole pages. *)
Definition roundup (need : Z) : Z := (need + 4095) / 4096 * 4096.

Definition grown (n : Z) g : heap := mkheap (hbase g + n) (hbitmap g) (hbrk g + n).

(** The kernel grants the growth and the address space has room for it. *)
Definition can_grow g (n : Z) : Prop := sbrk_grants (hbrk g) n = true ∧ hbrk g + n ≤ MAXVA.

Lemma heap_ok_last lo cs L g : heap_ok lo cs L g → ∃ xs, cs = xs ++ [(0, false)].
Proof. intros [_ _ Hlast _ _ _ _]. by apply last_Some. Qed.

Lemma heap_ok_grow lo xs size L g :
  heap_ok lo (xs ++ [(0, false)]) L g → hbrk g + size ≤ MAXVA →
  heap_ok lo (with_used xs size 0 []) L (grown size g).
Proof.
  intros [Hlo Hend Hlast Hbrk Hmax Hb Hnodes] Hg. split; simpl; try done; try lia.
  - rewrite cend_app in Hend. rewrite cend_app. simpl in *. lia.
  - by rewrite last_app_cons.
  - intros i Hi. specialize (Hnodes i Hi). rewrite nodes_app in Hnodes. by rewrite nodes_app.
Qed.

Lemma heap_ok_merge lo xs s size L g :
  heap_ok lo (with_used (xs ++ [(s, false)]) size 0 []) L g →
  heap_ok lo (with_used xs (s + size) 0 []) L g.
Proof.
  intros [Hlo Hend Hlast Hbrk Hmax Hb Hnodes]. split; simpl; try done.
  - rewrite !cend_app in Hend. rewrite cend_app. simpl in *. lia.
  - by rewrite last_app_cons.
  - intros i Hi. specialize (Hnodes i Hi). rewrite -app_assoc !nodes_app in Hnodes.
    by rewrite nodes_app.
Qed.

(** The heap after [malloc_brk] turned the header below the old [base] into a
    chunk of [size] bytes and wrote the new last header. *)
Definition opened lo xs size L : hprop :=
  (let e := cend lo xs in
   slots L ∗ seg lo None xs ∗ header e (cprev None xs) (size, false) ∗
   anybytes (pack_data e) (size - 8) ∗ hprev (e + size) ∗ hsize (e + size) 0 2)%I.

Definition merged lo size L (c : Z) g : hprop :=
  (∃ xs' sz L', ⌜c = cend lo xs' ∧ size ≤ sz ≤ size + 61440 ∧ L' 1 = L 1 ∧
     heap_ok lo (with_used xs' sz 0 []) L' g⌝ ∗ loose lo xs' sz 0 [] L')%I.

(** No chunk to merge with. *)
Lemma wp_merge_none lo xs size L g :
  heap_ok lo (with_used xs size 0 []) L g → cprev None xs = None → 0 ≤ size →
  opened lo xs size L ⊢ wp (try_merge_prev (cend lo xs)) (merged lo size L) g.
Proof.
  iIntros (Hok Hp Hsz) "(Hs & Hxs & Hh & Hd & Hnp & Hn)". rewrite Hp.
  iEval (rewrite header_used) in "Hh". iDestruct "Hh" as "[Hcp Hh]".
  wp_apply wp_pack_meta with "Hh". iIntros "Hh". simpl. iApply wp_ret.
  iExists xs, size, L. iSplit; [iPureIntro; split_and!; by try lia|].
  iFrame "Hs Hxs Hcp Hd Hnp". iSplit; [done|]. iSplitL "Hh"; [by iExists 3|].
  iSplitL; [|done]. iExists 2. iFrame "Hn". by iLeft.
Qed.

(** The node of the last chunk, when that chunk is free. *)
Lemma last_free_slot lo xs s sy L g :
  heap_ok lo (xs ++ (s, true) :: sy) L g → 2 ≤ size_class s < 64 →
  ∃ us vs, L (size_class s) = us ++ pack_data (cend lo xs) :: vs.
Proof.
  intros Hok Hi. apply list_elem_of_split.
  rewrite (ok_nodes _ _ _ _ Hok _ Hi) nodes_app. simpl. rewrite Z.eqb_refl. set_solver.
Qed.

(** The bytes of the two chunks and of the header between them are one block. *)
Lemma merge_bytes c s size m :
  32 < s → 8 ≤ size →
  anybytes (pack_data c) 16 -∗ body c (s, true) -∗ (hprev (c + s) ∗ hsize (c + s) size m) -∗
  anybytes (pack_data (c + s)) (size - 8) -∗ anybytes (pack_data c) (s + size - 8).
Proof.
  iIntros (Hs Hsz) "Hx Hb Hh Hd". rewrite header_anybytes. unfold body, pack_data. simpl.
  rewrite (anybytes_split (c + 8) (s + size - 8) 16); [|lia]. iFrame "Hx".
  replace (c + 8 + 16) with (c + 24) by lia.
  rewrite (anybytes_split (c + 24) (s + size - 8 - 16) (s - 24)); [|lia]. iFrame "Hb".
  replace (c + 24 + (s - 24)) with (c + s) by lia.
  rewrite (anybytes_split (c + s) (s + size - 8 - 16 - (s - 24)) 8); [|lia]. iFrame "Hh".
  by replace (s + size - 8 - 16 - (s - 24) - 8) with (size - 8) by lia.
Qed.

Lemma wp_merge_some lo xs s size L g :
  heap_ok lo (with_used (xs ++ [(s, true)]) size 0 []) L g →
  32 < s ≤ 61440 → 8 ≤ size < 2 ^ 30 → size `mod` 8 = 0 →
  opened lo (xs ++ [(s, true)]) size L ⊢
  wp (try_merge_prev (cend lo (xs ++ [(s, true)]))) (merged lo size L) g.
Proof.
  iIntros (Hok Hs Hsz Hsz8) "(Hs & Hxs & Hh & Hd & Hnp & Hn)".
  rewrite -app_assoc in Hok. simpl in Hok.
  pose proof (size_class_range s ltac:(lia)) as Hi.
  destruct (last_free_slot lo xs s _ L g Hok Hi) as (us & vs & HL).
  rewrite cend_app cprev_snoc. simpl. set (c := cend lo xs) in *.
  iEval (rewrite seg_app) in "Hxs". fold c. simpl.
  iDestruct "Hxs" as "(Hxs & %Hck & Hc & Hb & _)". destruct (Hck eq_refl) as [Hp _].
  iDestruct (seg_cend with "Hxs") as %[Hlo _]. fold c in Hlo.
  assert (8 ≤ lo ∧ c + s + size ≤ 2 ^ 38) as [Hlo8 Hmax].
  { destruct Hok as [? Hend _ ? Hm _ _]. rewrite cend_app in Hend. fold c in Hend.
    simpl in Hend. unfold MAXVA in Hm. lia. }
  rewrite Hp. iEval (rewrite (header_free c s)) in "Hc". iDestruct "Hc" as "[Hcp Hc]".
  iEval (rewrite (header_after_free (c + s) s size)) in "Hh". iDestruct "Hh" as "[Hep He]".
  wp_apply wp_pack_meta with "He". iIntros "He". simpl.
  wp_apply wp_pack_size with "He". iIntros "He".
  wp_apply wp_pack_prev with "Hep"; [lia|lia|]. iIntros "Hep".
  replace (c + s - s) with c by lia.
  wp_apply (wp_try_safe_remove L) with "Hs Hc"; [lia|apply Hok|done|].
  iIntros (b Hbm) "Hs Hc Hx".
  wp_apply wp_prev_add_size with "Hc"; [done|lia|lia|]. iIntros "Hc".
  wp_apply wp_pack_next with "Hc"; [lia|lia|]. iIntros "Hc".
  wp_apply wp_pack_size with "Hc". iIntros "Hc".
  replace (c + (s + size)) with (c + s + size) by lia.
  wp_apply wp_pack_set_prev with "Hnp"; [lia|]. iIntros "Hnp". iApply wp_ret.
  iExists xs, (s + size), (<[size_class s := us ++ vs]> L). iSplit.
  { iPureIntro. split_and!; [done|lia|lia| |].
    - by rewrite fn_lookup_insert_ne; [|lia].
    - apply heap_ok_merge. rewrite -app_assoc. simpl. by eapply heap_ok_remove. }
  unfold loose. fold c. replace (c + (s + size)) with (c + s + size) by lia.
  iFrame "Hs Hxs Hcp". rewrite (hprev_intro (c + s + size)). iFrame "Hnp".
  iSplit; [done|]. iSplitL "Hc"; [by iExists 1|]. iSplitR "Hn".
  - iApply (merge_bytes c s size 2 with "Hx Hb [Hep He] Hd"); [lia|lia|].
    rewrite hprev_intro. iFrame.
  - iSplitL; [|done]. iExists 2. iFrame "Hn". by iLeft.
Qed.

(** The size of a free chunk when no slot above [i] has one. *)
Lemma free_size_bound lo xs s ys L g i :
  heap_ok lo (xs ++ (s, true) :: ys) L g → 32 < s ≤ 65536 → i ≤ 62 →
  (∀ j, i < j < 64 → L j = []) → s ≤ 61440.
Proof.
  intros Hok Hs Hi HL. pose proof (size_class_range s ltac:(lia)) as Hc.
  destruct (last_free_slot lo xs s ys L g Hok Hc) as (us & vs & Hsl).
  apply size_class_62; [lia|]. destruct (Z.le_gt_cases (size_class s) 62); [done|].
  rewrite HL in Hsl; [by destruct us|lia].
Qed.

Lemma wp_try_merge_prev lo xs size L g0 i :
  heap_ok lo (xs ++ [(0, false)]) L g0 → hbrk g0 + size ≤ MAXVA →
  8 ≤ size < 2 ^ 30 → size `mod` 8 = 0 → i ≤ 62 → (∀ j, i < j < 64 → L j = []) →
  opened lo xs size L ⊢ wp (try_merge_prev (cend lo xs)) (merged lo size L) (grown size g0).
Proof.
  iIntros (Hok Hg Hsz Hsz8 Hi HL) "H". pose proof (heap_ok_grow _ _ _ _ _ Hok Hg) as Hok'.
  destruct (cprev None xs) as [s|] eqn:Hp.
  - destruct (cprev_some None xs s eq_refl Hp) as [ys ->].
    iAssert ⌜32 < s ≤ 65536⌝%I as %Hs.
    { iDestruct "H" as "(_ & Hxs & _)". rewrite seg_app. simpl.
      iDestruct "Hxs" as "(_ & %Hck & _)". iPureIntro. by destruct (Hck eq_refl). }
    rewrite -app_assoc in Hok. pose proof (free_size_bound _ _ _ _ _ _ i Hok Hs Hi HL).
    iApply (wp_merge_some with "H"); [done|lia|done|done].
  - iApply (wp_merge_none with "H"); [done|done|lia].
Qed.

Lemma roundup_bounds need :
  32 < need ≤ 61440 →
  need ≤ roundup need < need + 4096 ∧ roundup need `mod` 8 = 0 ∧ roundup need ≤ 61440.
Proof. intros. unfold roundup. dlia. Qed.

Lemma roundup_u64 need :
  32 < need ≤ 61440 → u64 (u64 (need + PAGE_SIZE - 1) / PAGE_SIZE * PAGE_SIZE) = roundup need.
Proof.
  intros Hn. pose proof (roundup_bounds need Hn). unfold roundup, PAGE_SIZE in *.
  rewrite -> (wrap_small 64 (need + 4096 - 1)) by lia.
  replace (need + 4096 - 1) with (need + 4095) by lia. apply wrap_small. lia.
Qed.

(** The new page is the data of the opened chunk and the new last header. *)
Lemma fresh_page e size :
  8 ≤ size →
  anybytes (pack_data e) size ⊢
  anybytes (pack_data e) (size - 8) ∗ hprev (e + size) ∗ (∃ v, pack_size_at (e + size) ↦₄ v).
Proof.
  iIntros (Hs) "H". rewrite (anybytes_split (pack_data e) size (size - 8)); [|lia].
  iDestruct "H" as "[$ H]".
  replace (pack_data e + (size - 8)) with (e + size) by (unfold pack_data; lia).
  iDestruct (anybytes_header with "H") as "($ & $ & _)". lia.
Qed.

Lemma wp_malloc_brk lo cs L g need i :
  heap_ok lo cs L g → 32 < need ≤ 61440 → need `mod` 8 = 0 → can_grow g (roundup need) →
  i ≤ 62 → (∀ j, i < j < 64 → L j = []) →
  heap_inv lo cs L ⊢ wp (malloc_brk need) (allocated lo (L 1) need) g.
Proof.
  iIntros (Hok Hn Hn8 [Hgrant Hmax] Hi HL) "[Hs Hseg]".
  destruct (heap_ok_last _ _ _ _ Hok) as [xs ->].
  iDestruct (seg_bounds with "Hseg") as %Hb; [done|].
  assert (cend lo xs = hbase g - 8 ∧ hbase g = hbrk g) as [Hend Hbrk].
  { destruct Hok as [_ Hend _ ? _ _ _]. rewrite cend_app in Hend. simpl in Hend. lia. }
  iEval (rewrite seg_app) in "Hseg". simpl. iDestruct "Hseg" as "(Hxs & _ & Hh & _)".
  pose proof (roundup_bounds need Hn) as Hr. unfold malloc_brk. wp_apply wp_getg.
  cbv beta zeta. rewrite (roundup_u64 need Hn).
  set (size := roundup need) in *. clearbody size.
  assert (list_pack (hbase g) = cend lo xs) as ->.
  { rewrite -(list_pack_data (cend lo xs)); [|lia]. unfold pack_data. f_equal. lia. }
  iDestruct "Hh" as "[Hp Hh]". wp_apply wp_pack_set_size with "Hh"; [lia|lia|]. iIntros "Hh".
  iApply wp_bind. iApply wp_setg; [done|].
  wp_apply wp_sbrk_ok; [lia|done|]. iIntros "Hz". rewrite anybytes_zeros; [|lia]. simpl.
  destruct (Z.eqb_spec (hbrk g) SBRK_ERR) as [Hf|_]; [unfold MAXVA, SBRK_ERR in *; lia|].
  replace (hbrk g) with (pack_data (cend lo xs)) at 1 by (unfold pack_data; lia).
  iDestruct (fresh_page with "Hz") as "(Hd & Hnp & [%v Hn])"; [lia|].
  wp_apply wp_pack_next with "Hh"; [lia|lia|]. iIntros "Hh".
  wp_apply wp_pack_set_info with "Hn"; [done|lia|done|]. iIntros "Hn".
  rewrite -> (wrap_small 64 (hbase g + size)) by (unfold MAXVA in *; lia).
  change (mkheap _ _ _) with (grown size g).
  wp_apply (wp_wand with "[-]").
  { iApply (wp_try_merge_prev lo xs size L g i); [done|done|lia|lia|done|done|].
    iFrame. }
  iIntros (c g') "(%xs' & %sz & %L' & %Hm & Hl)". destruct Hm as (-> & Hsz & <- & Hok').
  iApply (wp_try_split_allocate with "Hl"); [done|lia|done|lia].
Qed.

(** A refused growth: null is returned, but [base] has moved already. *)
Lemma wp_malloc_brk_refused lo cs L g need :
  heap_ok lo cs L g → 32 < need ≤ 61440 → need `mod` 8 = 0 →
  sbrk_grants (hbrk g) (roundup need) = false →
  heap_inv lo cs L ⊢
  wp (malloc_brk need)
    (λ p g', ⌜p = 0 ∧ g' = mkheap (hbase g + roundup need) (hbitmap g) (hbrk g)⌝)%I g.
Proof.
  iIntros (Hok Hn Hn8 Hgrant) "[Hs Hseg]".
  destruct (heap_ok_last _ _ _ _ Hok) as [xs ->].
  iDestruct (seg_bounds with "Hseg") as %Hb; [done|].
  assert (cend lo xs = hbase g - 8) as Hend.
  { destruct Hok as [_ Hend _ ? _ _ _]. rewrite cend_app in Hend. simpl in Hend. lia. }
  iEval (rewrite seg_app) in "Hseg". simpl. iDestruct "Hseg" as "(Hxs & _ & [_ Hh] & _)".
  pose proof (roundup_bounds need Hn) as Hr. unfold malloc_brk. wp_apply wp_getg.
  cbv beta zeta. rewrite (roundup_u64 need Hn).
  set (size := roundup need) in *. clearbody size.
  assert (list_pack (hbase g) = cend lo xs) as ->.
  { rewrite -(list_pack_data (cend lo xs)); [|lia]. unfold pack_data. f_equal. lia. }
  wp_apply wp_pack_set_size with "Hh"; [lia|lia|]. iIntros "Hh".
  iApply wp_bind. iApply wp_setg; [done|].
  wp_apply wp_sbrk_fail; [lia|done|]. iApply wp_ret. iPureIntro.
  rewrite -> wrap_small by lia. done.
Qed.

(** ** The next slot that has a chunk *)

Lemma wp_next_allocate lo cs L g need :
  heap_ok lo cs L g → 32 < need ≤ 61440 → need `mod` 8 = 0 → can_grow g (roundup need) →
  heap_inv lo cs L ⊢
  wp (next_allocate (size_class need) need) (allocated lo (L 1) need) g.
Proof.
  iIntros (Hok Hn Hn8 Hgrow) "H". set (i := size_class need).
  assert (2 ≤ i ≤ 62) as Hi.
  { pose proof (size_class_range need). pose proof (size_class_le_62 need). lia. }
  unfold next_allocate, next_free, shl64. iApply wp_bind. wp_apply wp_getg.
  rewrite -> (wrap_small 64 (i + 1)) by lia. destruct (Z.ltb_spec (i + 1) 64); [|lia].
  wp_apply wp_ret. iApply wp_ret.
  pose proof (ok_bitmap _ _ _ _ Hok) as Hbm.
  destruct (next_free_bits (hbitmap g) i) as [[-> Hnone]|(p & Hp & Hbit & _ & Hpos & Hlow)];
    [by eapply bitmap_ok_range|lia| |].
  - simpl. iApply (wp_malloc_brk with "H"); [done..|by destruct Hi| ].
    intros j Hj. specialize (Hnone j ltac:(lia)). destruct Hbm as [_ Hbm].
    rewrite Hbm in Hnone; [|lia]. apply bool_decide_eq_false in Hnone.
    destruct (L j); [done|]. destruct Hnone. split; [lia|done].
  - rewrite Hlow. destruct (Z.eqb_spec (2 ^ p) 0); [lia|].
    assert (log2_ceil64 (2 ^ p) = p) as ->.
    { rewrite log2_ceil64_pos; [by rewrite -> Z.log2_up_pow2 by lia|].
      split; [lia|]. apply Z.pow_lt_mono_r; lia. }
    rewrite (proj2 Hbm) in Hbit; [|lia]. apply bool_decide_eq_true in Hbit as [Hp2 HLp].
    wp_apply (wp_extract_chunk lo cs L) with "H"; [done|lia|done|].
    iIntros (xs sz sy ys L' b (Hc & Hsz & HL1 & Hok' & Hlp)) "Hl". rewrite Hlp -HL1.
    pose proof (size_class_lt need sz ltac:(lia) ltac:(lia) ltac:(lia)).
    iApply (wp_try_split_allocate with "Hl"); [done|lia|done|lia].
Qed.
End malloc.
