(* ===== verification/UmFast.v ===== *)
(** * The size-specific entry points

    The functions of ummalloc_alloc.h that [mm_malloc] dispatches to: requests
    above the fast size, and the pages of 32-byte chunks. *)
From S2P Require Import Prelude Mem Sep Sbrk UmDecl UmData UmBits UmList UmChunk UmAlloc UmSlots UmHeap UmMalloc.
From iris.proofmode Require Import proofmode.

#[local] Open Scope Z_scope.

Section fast.
Context `{Layout, Kernel}.
Implicit Types (L : Z → list Z) (g : heap) (cs xs ys : list chunk).

(** ** Above the fast size *)

(** A failed search leads to the next slots. *)
Lemma wp_else_next lo cs L g need (m : U Z) :
  heap_ok lo cs L g → 32 < need ≤ 61440 → need `mod` 8 = 0 → can_grow g (roundup need) →
  wp m (found lo cs L need g) g ⊢
  wp (data ← m; if negb (data =? 0) then mret data else next_allocate (size_class need) need)
    (allocated lo (L 1) need) g.
Proof.
  iIntros (Hok Hn Hn8 Hgrow) "H". iApply wp_bind. iApply (wp_wand with "H").
  iIntros (p g') "[[[-> ->] Hinv]|[%Hp Ha]]".
  - simpl. by iApply (wp_next_allocate with "Hinv").
  - destruct (Z.eqb_spec p 0); [done|]. by iApply wp_ret.
Qed.

Lemma wp_malloc_huge lo cs L g need :
  heap_ok lo cs L g → 4096 < need ≤ 61440 → need `mod` 8 = 0 → can_grow g (roundup need) →
  heap_inv lo cs L ⊢ wp (malloc_huge need) (allocated lo (L 1) need) g.
Proof.
  iIntros (Hok Hn Hn8 Hgrow) "H". unfold malloc_huge. cbv zeta.
  assert ((if need <? 6144 then 48 else u64 (u64 (need - 1) / 4096 + 48)) = size_class need) as ->.
  { rewrite -> (wrap_small 64 (need - 1)) by lia. rewrite -> wrap_small by dlia.
    unfold size_class. destruct (Z.leb_spec need 512); [lia|].
    by destruct (Z.ltb_spec 4096 need); [|lia]. }
  iApply wp_else_next; [done|lia|done|done|]. iApply (wp_iterative_allocate with "H"); [done|].
  apply size_class_range. lia.
Qed.

Lemma wp_malloc_middle lo cs L g need :
  heap_ok lo cs L g → 512 < need ≤ 4096 → need `mod` 8 = 0 → can_grow g (roundup need) →
  heap_inv lo cs L ⊢ wp (malloc_middle need) (allocated lo (L 1) need) g.
Proof.
  iIntros (Hok Hn Hn8 Hgrow) "H". unfold malloc_middle. cbv zeta.
  assert ((if need <=? 640 then u64 (need + 1535) / 64 else u64 (34 + u64 (need - 513) / 256))
          = size_class need) as ->.
  { rewrite -> (wrap_small 64 (need - 513)), (wrap_small 64 (need + 1535)) by lia.
    rewrite -> wrap_small by dlia.
    unfold size_class. destruct (Z.leb_spec need 512); [lia|].
    by destruct (Z.ltb_spec 4096 need); [lia|]. }
  iApply wp_else_next; [done|lia|done|done|]. iApply (wp_iterative_allocate with "H"); [done|].
  apply size_class_range. lia.
Qed.

(** The size a tiny request is rounded to. *)
Definition tiny_size (need : Z) : Z := ((need - 1) / 16 + 1) * 16.

(** A chunk for a tiny request: large enough, or one of the same slot. *)
Definition tiny_enough (need k : Z) : Prop :=
  need ≤ k ∨ (32 < k ∧ k `mod` 8 = 0 ∧ size_class k = size_class need).

Lemma wp_malloc_tiny lo cs L g need :
  heap_ok lo cs L g → 32 < need ≤ 512 → need `mod` 8 = 0 →
  can_grow g (roundup (tiny_size need)) →
  heap_inv lo cs L ⊢
  wp (malloc_tiny need) (λ p g', ∃ k, ⌜tiny_enough need k⌝ ∗ allocated lo (L 1) k p g')%I g.
Proof.
  iIntros (Hok Hn Hn8 Hgrow) "H". unfold malloc_tiny. cbv zeta.
  destruct (Z.leb_spec need 32); [lia|].
  rewrite -> (wrap_small 64 (need - 1)) by lia. rewrite -> wrap_small by dlia.
  fold (tiny_size need).
  assert (size_class need = (need - 1) / 16 ∧ size_class (tiny_size need) = (need - 1) / 16 ∧
          need ≤ tiny_size need ≤ 512 ∧ tiny_size need `mod` 8 = 0) as (Hc & Ht & Hts & Ht8).
  { unfold size_class, tiny_size. destruct (Z.leb_spec need 512); [|lia].
    destruct (Z.leb_spec (((need - 1) / 16 + 1) * 16) 512); [|dlia]. split_and!; dlia. }
  pose proof (size_class_range need ltac:(lia)) as Hr. rewrite -Hc.
  iApply wp_bind. iApply (wp_wand with "[H]"); [iApply (wp_tiny_allocate with "H"); [done|lia]|].
  iIntros (p g') "[[[-> ->] Hinv]|(%k & %Hk & %Hp & Ha)]".
  - simpl. rewrite Hc -Ht. iApply (wp_wand with "[Hinv]").
    { iApply (wp_next_allocate with "Hinv"); [done|lia|done|done]. }
    iIntros (p g') "Ha". iExists (tiny_size need). iFrame. iPureIntro. left. lia.
  - destruct (Z.eqb_spec p 0); [done|]. iApply wp_ret. iExists k. iFrame. iPureIntro. right. lia.
Qed.

(** ** Pages of 32-byte chunks *)

(** The free chunks of a page and its two bitmaps. *)
Definition page_bits (fr : list Z) (m1 m2 : Z) : Prop :=
  NoDup fr ∧ 0 ≤ m1 < 2 ^ 64 ∧ 0 ≤ m2 < 2 ^ 64 ∧
  ∀ i, i ∈ fr ↔ (0 ≤ i < 64 ∧ Z.testbit m1 i = true) ∨
                 (64 ≤ i < 128 ∧ Z.testbit m2 (i - 64) = true).

(** The page with data at [d]: a list node, the number of free chunks, the two
    bitmaps and, for every free chunk, its 32 bytes. *)
Definition page_map (d : Z) : Z := d + 16.
Definition page_chunk (d i : Z) : Z := page_map d + 24 + i * 32.

Definition page (d : Z) (fr : list Z) : hprop :=
  (∃ m1 m2, ⌜page_bits fr m1 m2⌝ ∗ page_map d ↦₈ Z.of_nat (length fr) ∗
     (page_map d + 8) ↦₈ m1 ∗ (page_map d + 16) ↦₈ m2 ∗
     [∗ list] i ∈ fr, anybytes (page_chunk d i) 32)%I.

(** The pages of slot 1 have a free chunk. *)
Definition pages (ds : list Z) : hprop :=
  ([∗ list] d ∈ ds, ∃ fr, ⌜fr ≠ [] ∧ d `mod` 8 = 0 ∧ 8 ≤ d ≤ 2 ^ 38⌝ ∗ page d fr)%I.

Lemma page_bits_range fr m1 m2 i : page_bits fr m1 m2 → i ∈ fr → 0 ≤ i < 128.
Proof. intros (_ & _ & _ & Hi) Hin. apply Hi in Hin. lia. Qed.

Lemma clear_bit_spec m h j :
  0 ≤ m < 2 ^ 64 → 0 ≤ h < 64 → 0 ≤ j →
  Z.testbit (Z.land m (u64 (Z.lnot (2 ^ h)))) j = Z.testbit m j && negb (h =? j).
Proof.
  intros Hm Hh Hj. rewrite -> land_wrap by lia.
  rewrite Z.land_spec Z.lnot_spec; [|done]. rewrite Z.pow2_bits_eqb; [done|lia].
Qed.

Lemma clear_bit_range m h :
  0 ≤ m < 2 ^ 64 → 0 ≤ Z.land m (u64 (Z.lnot (2 ^ h))) < 2 ^ 64.
Proof.
  intros Hm. split; [apply Z.land_nonneg; lia|].
  rewrite -> land_wrap by lia. apply (Z.le_lt_trans _ m); [|lia].
  rewrite <- Z.ldiff_land. apply Z.ldiff_le; [lia|].
  apply Z.bits_inj'. intros n Hn. rewrite !Z.ldiff_spec Z.bits_0.
  by destruct (Z.testbit m n); simpl; rewrite ?andb_false_r.
Qed.

Lemma log2_testbit m : 0 < m < 2 ^ 64 → 0 ≤ Z.log2 m < 64 ∧ Z.testbit m (Z.log2 m) = true.
Proof.
  intros Hm. split; [|apply Z.bit_log2; lia]. split; [apply Z.log2_nonneg|].
  apply Z.log2_lt_pow2; lia.
Qed.

(** Taking one free chunk out of a page. *)
Lemma page_take (fr : list Z) i :
  NoDup fr → i ∈ fr → ∃ fr', fr ≡ₚ i :: fr' ∧ NoDup fr' ∧ ∀ j, j ∈ fr' ↔ j ∈ fr ∧ j ≠ i.
Proof.
  intros Hnd [fr' Hp]%elem_of_Permutation. exists fr'. rewrite Hp in Hnd.
  apply NoDup_cons in Hnd as [Hni Hnd]. split_and!; [done|done|].
  intros j. rewrite Hp elem_of_cons. split; [|naive_solver]. intros Hj. split; [by right|]. congruence.
Qed.

Lemma page_take_low fr m1 m2 :
  page_bits fr m1 m2 → m1 ≠ 0 →
  ∃ fr', fr ≡ₚ Z.log2 m1 :: fr' ∧ page_bits fr' (Z.land m1 (u64 (Z.lnot (2 ^ Z.log2 m1)))) m2.
Proof.
  intros (Hnd & Hm1 & Hm2 & Hi) Hne. destruct (log2_testbit m1) as [Hr Hb]; [lia|].
  destruct (page_take fr (Z.log2 m1) Hnd) as (fr' & Hp & Hnd' & Hj); [apply Hi; by left|].
  exists fr'. split; [done|]. split_and!; try done; try apply clear_bit_range; try lia.
  intros j. rewrite Hj Hi. split.
  - intros [[[Hj0 Hbj]|?] Hjn]; [left|by right]. split; [done|].
    rewrite -> clear_bit_spec by lia. rewrite Hbj. by destruct (Z.eqb_spec (Z.log2 m1) j).
  - intros [[Hj0 Hbj]|?]; [|split; [by right|lia]].
    rewrite -> clear_bit_spec in Hbj by lia. apply andb_true_iff in Hbj as [Hbj Hn].
    split; [by left|]. by destruct (Z.eqb_spec (Z.log2 m1) j).
Qed.

Lemma page_take_high fr m1 m2 :
  page_bits fr m1 m2 → m2 ≠ 0 →
  ∃ fr', fr ≡ₚ Z.log2 m2 + 64 :: fr' ∧
    page_bits fr' m1 (Z.land m2 (u64 (Z.lnot (2 ^ Z.log2 m2)))).
Proof.
  intros (Hnd & Hm1 & Hm2 & Hi) Hne. destruct (log2_testbit m2) as [Hr Hb]; [lia|].
  destruct (page_take fr (Z.log2 m2 + 64) Hnd) as (fr' & Hp & Hnd' & Hj).
  { apply Hi. right. split; [lia|]. by replace (Z.log2 m2 + 64 - 64) with (Z.log2 m2) by lia. }
  exists fr'. split; [done|]. split_and!; try done; try apply clear_bit_range; try lia.
  intros j. rewrite Hj Hi. split.
  - intros [[?|[Hj0 Hbj]] Hjn]; [by left|right]. split; [done|].
    rewrite -> clear_bit_spec by lia. rewrite Hbj. destruct (Z.eqb_spec (Z.log2 m2) (j - 64)); [lia|done].
  - intros [?|[Hj0 Hbj]]; [split; [by left|lia]|].
    rewrite -> clear_bit_spec in Hbj by lia. apply andb_true_iff in Hbj as [Hbj Hn].
    split; [by right|]. destruct (Z.eqb_spec (Z.log2 m2) (j - 64)); [done|lia].
Qed.

(** A page whose bitmaps are both empty has no free chunk. *)
Lemma page_bits_zero fr : page_bits fr 0 0 → fr = [].
Proof.
  intros (_ & _ & _ & Hi). apply elem_of_nil_inv. intros i. rewrite Hi !Z.bits_0. naive_solver.
Qed.

Lemma wp_fast_pick map fr m1 m2 (Φ : Z → heap → hprop) g :
  page_bits fr m1 m2 → fr ≠ [] →
  (map + 8) ↦₈ m1 -∗ (map + 16) ↦₈ m2 -∗
  (∀ i fr' m1' m2', ⌜fr ≡ₚ i :: fr' ∧ page_bits fr' m1' m2'⌝ -∗
     (map + 8) ↦₈ m1' -∗ (map + 16) ↦₈ m2' -∗ Φ i g) -∗
  wp (fast_pick map) Φ g.
Proof.
  iIntros (Hbits Hne) "H1 H2 HΦ". unfold fast_pick, shl64. wp_load "H1".
  pose proof Hbits as (_ & Hm1 & Hm2 & _).
  destruct (Z.eqb_spec m1 0) as [->|Hm1n]; cbn [negb].
  - wp_load "H2". destruct (Z.eqb_spec m2 0) as [->|Hm2n]; cbn [negb].
    { by apply page_bits_zero in Hbits. }
    destruct (log2_testbit m2) as [Hr _]; [lia|].
    rewrite -> log2_floor64_pos by lia. destruct (Z.ltb_spec (Z.log2 m2) 64); [|lia].
    wp_apply wp_ret. rewrite -> shl1 by lia. iApply wp_bind.
    iApply (wp_store with "H2"); [apply clear_bit_range; lia|]. iIntros "H2". iApply wp_ret.
    rewrite -> (wrap_small 64 (Z.log2 m2 + 64)) by lia.
    destruct (page_take_high fr 0 m2) as (fr' & Hp & Hb'); [done..|].
    by iApply ("HΦ" with "[//] H1 H2").
  - destruct (log2_testbit m1) as [Hr _]; [lia|].
    rewrite -> log2_floor64_pos by lia. destruct (Z.ltb_spec (Z.log2 m1) 64); [|lia].
    wp_apply wp_ret. rewrite -> shl1 by lia. iApply wp_bind.
    iApply (wp_store with "H1"); [apply clear_bit_range; lia|]. iIntros "H1". iApply wp_ret.
    destruct (page_take_low fr m1 m2) as (fr' & Hp & Hb'); [done..|].
    by iApply ("HΦ" with "[//] H1 H2").
Qed.

(** ** The whole allocator *)

(** Slot 1 plays no part in the chunk-level invariant. *)
Lemma heap_ok_fast lo cs L g ds : heap_ok lo cs L g → heap_ok lo cs (<[1:=ds]> L) g.
Proof.
  intros [Hlo Hend Hlast Hbrk Hmax [Hb0 Hb] Hnodes]. split; try done.
  - split; [done|]. intros j Hj. rewrite -> Hb by done. apply bool_decide_ext.
    destruct (decide (j = 1)) as [->|]; [lia|]. by rewrite fn_lookup_insert_ne.
  - intros i Hi. rewrite fn_lookup_insert_ne; [auto|lia].
Qed.

(** The invariant of the allocator. *)
Definition umm_inv (lo : Z) g : hprop :=
  (∃ cs L full, ⌜heap_ok lo cs L g⌝ ∗ heap_inv lo cs L ∗ pages (L 1) ∗ ring full_addr full)%I.

Lemma page_chunk_bounds d i :
  8 ≤ d ≤ 2 ^ 38 → d `mod` 8 = 0 → 0 ≤ i < 128 →
  8 ≤ page_chunk d i < 2 ^ 39 ∧ page_chunk d i `mod` 8 = 0.
Proof. intros. unfold page_chunk, page_map. dlia. Qed.

Lemma wp_fast_header d i (Φ : Z → heap → hprop) g :
  8 ≤ d ≤ 2 ^ 38 → d `mod` 8 = 0 → 0 ≤ i < 128 →
  anybytes (page_chunk d i) 32 -∗
  (∀ p, ⌜p `mod` 8 = 0 ∧ 0 < p⌝ -∗ anybytes p 24 -∗ Φ p g) -∗
  wp (let next := u64 (page_map d + 24 + i * 32) in
      pack_set_prev next i;; pack_set_info next 32 BOTH_INUSE;; mret (pack_data next)) Φ g.
Proof.
  iIntros (Hd Hd8 Hi) "H HΦ". destruct (page_chunk_bounds d i Hd Hd8 Hi) as [Hc Hc8].
  cbv zeta. fold (page_chunk d i). rewrite -> wrap_small by lia.
  iDestruct (anybytes_header with "H") as "(Hp & [%v Hs] & Hd)"; [lia|].
  wp_apply wp_pack_set_prev with "Hp"; [lia|]. iIntros "Hp".
  wp_apply wp_pack_set_info with "Hs"; [done|lia|done|]. iIntros "Hs".
  iApply wp_ret. iApply ("HΦ" with "[%] Hd"). unfold pack_data. dlia.
Qed.

(** A page that just lost its last free chunk moves to [fast_full]. *)
Lemma wp_page_full L d ds full (c : Z) (Φ : unit → heap → hprop) g :
  L 1 = d :: ds → 8 ≤ d ≤ 2 ^ 38 →
  slots L -∗ ring full_addr full -∗
  (∀ full', slots (<[1 := if c =? 0 then ds else d :: ds]> L) -∗ ring full_addr full' -∗
     Φ () g) -∗
  wp (when (c =? 0) (node ← list_pop (slot_at 1); list_push full_addr node)) Φ g.
Proof.
  iIntros (HL Hd) "Hs Hf HΦ". iDestruct (slots_access L 1 with "Hs") as "[Hr Hs]"; [lia|].
  rewrite HL. destruct (c =? 0); cbn [when].
  - wp_apply wp_list_pop with "Hr". iIntros "Hr Hx".
    iApply (wp_list_push with "Hf Hx"); [lia|]. iIntros "Hf".
    iApply ("HΦ" with "[Hs Hr] Hf"). by iApply "Hs".
  - iApply wp_ret. iApply ("HΦ" with "[Hs Hr] Hf"). by iApply "Hs".
Qed.

(** What the user gets: [len] bytes at an aligned address. *)
Definition user_block (len p : Z) : hprop := (⌜p `mod` 8 = 0 ∧ 0 < p⌝ ∗ anybytes p len)%I.

Lemma pages_cons d ds fr :
  (fr = [] → False) → d `mod` 8 = 0 → 8 ≤ d ≤ 2 ^ 38 →
  page d fr -∗ pages ds -∗ pages (d :: ds).
Proof. iIntros (Hf H8 Hd) "Hp Hds". iFrame "Hds". iExists fr. by iFrame. Qed.

Lemma wp_fast_allocate lo cs L g d ds full :
  heap_ok lo cs L g → L 1 = d :: ds →
  heap_inv lo cs L -∗ pages (d :: ds) -∗ ring full_addr full -∗
  wp fast_allocate (λ p g', umm_inv lo g' ∗ user_block 24 p)%I g.
Proof.
  iIntros (Hok HL) "[Hs Hseg] [Hd Hds] Hf".
  iDestruct "Hd" as (fr (Hne & Hd8 & Hd)) "(%m1 & %m2 & %Hbits & Hn & H1 & H2 & Hfr)".
  unfold fast_allocate. wp_apply wp_slot; [lia|].
  iDestruct (slots_read L 1 with "Hs") as "[Hr Hs]"; [lia|].
  wp_apply wp_list_empty with "Hr". iIntros "Hr". rewrite HL. rewrite bool_decide_eq_false_2; [|done].
  iDestruct (ring_first_read with "Hr") as "[Hx Hr]".
  change (first_of (d :: ds) (slot_at 1)) with d.
  wp_load "Hx". iSpecialize ("Hr" with "Hx"). iSpecialize ("Hs" with "Hr"). cbv zeta.
  assert (pack_data (list_pack d) + sizeof_node = page_map d) as ->.
  { unfold list_pack, pack_data, page_map, sizeof_node, sizeof_pack.
    rewrite -> wrap_small by lia. lia. }
  wp_load "Hn". iDestruct (word_range with "Hn") as %Hcr.
  assert (0 < length fr)%nat as Hlen by (destruct fr; [done|simpl; lia]).
  destruct (Z.eqb_spec (Z.of_nat (length fr)) 0) as [|_]; [lia|].
  unfold IMPOSSIBLE. cbn [when]. wp_apply wp_ret.
  rewrite -> (wrap_small 64) by (simpl in Hcr; lia).
  iApply wp_bind. iApply (wp_store with "Hn"); [lia|]. iIntros "Hn".
  wp_apply (wp_page_full L d ds full) with "Hs Hf"; [done|done|]. iIntros (full') "Hs Hf".
  wp_apply (wp_fast_pick (page_map d) fr) with "H1 H2"; [done|done|].
  iIntros (i fr' m1' m2' [Hp Hb']) "H1 H2".
  iEval (rewrite Hp) in "Hfr". iDestruct "Hfr" as "[Hi Hfr]".
  assert (0 ≤ i < 128) as Hi
    by (apply (page_bits_range fr m1 m2 i Hbits); rewrite Hp; set_solver).
  iApply (wp_fast_header with "Hi"); [done|done|done|]. iIntros (p Hpp) "Hblk".
  iSplitR "Hblk"; [|by iFrame].
  assert (Z.of_nat (length fr) - 1 = Z.of_nat (length fr')) as -> by (rewrite Hp; simpl; lia).
  iExists cs, _, full'. iFrame "Hs Hf Hseg". iSplit; [iPureIntro; by apply heap_ok_fast|].
  rewrite fn_lookup_insert. destruct (Z.eqb_spec (Z.of_nat (length fr')) 0) as [|Hl]; [done|].
  iApply (pages_cons d ds fr' with "[-Hds] Hds"); [by intros ->|done|done|].
  iExists m1', m2'. by iFrame.
Qed.
End fast.
