(* ===== verification/UmCorrect.v ===== *)
(** * Correctness of mm_init and mm_malloc

    The allocator invariant holds after [mm_init] and is preserved by
    [mm_malloc], which returns bytes that belong to nobody else. *)
From S2P Require Import Prelude Mem Sep Sbrk UmDecl UmData UmBits UmList UmChunk UmAlloc UmSlots UmHeap UmMalloc UmFast.
From iris.proofmode Require Import proofmode.

#[local] Open Scope Z_scope.

Section correct.
Context `{Layout, Kernel}.
Implicit Types (L : Z → list Z) (g : heap) (cs xs ys : list chunk).

(** ** The fast path *)

Lemma anybytes_chunks a s n :
  0 ≤ n → anybytes (a + s * 32) (n * 32) ⊢ [∗ list] i ∈ seqZ s n, anybytes (a + i * 32) 32.
Proof.
  intros Hn. revert s. pattern n. apply natlike_ind; [| |done].
  - intros s. by iIntros "_".
  - clear. intros n Hn IH s. rewrite seqZ_cons; [|lia]. rewrite Z.pred_succ.
    rewrite (anybytes_split _ _ 32); [|lia]. simpl. iIntros "[$ H]". iApply IH.
    replace (a + Z.succ s * 32) with (a + s * 32 + 32) by lia.
    by replace (n * 32) with (Z.succ n * 32 - 32) by lia.
Qed.

Lemma page_chunks d n :
  0 ≤ n → anybytes (page_map d + 24) (n * 32) ⊢ [∗ list] i ∈ seqZ 0 n, anybytes (page_chunk d i) 32.
Proof.
  iIntros (Hn) "H". iApply (anybytes_chunks (page_map d + 24) 0 n); [done|].
  by replace (page_map d + 24 + 0 * 32) with (page_map d + 24) by lia.
Qed.

Lemma ones_page_bits : page_bits (seqZ 0 128) (u64 (-1)) (u64 (-1)).
Proof.
  split_and!; [apply NoDup_seqZ|done..|]. change (u64 (-1)) with (Z.ones 64).
  intros i. rewrite elem_of_seqZ. split.
  - intros Hi. destruct (Z.lt_ge_cases i 64); [left|right]; (split; [lia|]);
      apply Z.ones_spec_low; lia.
  - lia.
Qed.

(** A fresh block of 4136 bytes becomes a page. *)
Lemma wp_page_init d (Φ : unit → heap → hprop) g :
  anybytes (page_map d) (24 + 4096) -∗ (page d (seqZ 0 128) -∗ Φ () g) -∗
  wp (store 8 (page_map d) (64 + 64);; store 8 (page_map d + 8) (u64 (-1));;
      store 8 (page_map d + 16) (u64 (-1))) Φ g.
Proof.
  iIntros "H HΦ". rewrite (anybytes_split _ _ 8); [|lia]. iDestruct "H" as "[Hn H]".
  rewrite (anybytes_split (page_map d + 8) _ 8); [|lia]. iDestruct "H" as "[H1 H]".
  rewrite (anybytes_split (page_map d + 8 + 8) _ 8); [|lia]. iDestruct "H" as "[H2 H]".
  replace (page_map d + 8 + 8) with (page_map d + 16) by lia.
  rewrite !(anybytes_word 8). iDestruct "Hn" as (v) "Hn". iDestruct "H1" as (v1) "H1".
  iDestruct "H2" as (v2) "H2".
  iApply wp_bind. iApply (wp_store with "Hn"); [done|]. iIntros "Hn".
  iApply wp_bind. iApply (wp_store with "H1"); [done|]. iIntros "H1".
  iApply (wp_store with "H2"); [done|]. iIntros "H2". iApply "HΦ".
  iExists (u64 (-1)), (u64 (-1)). iFrame "Hn H1 H2". iSplit; [iPureIntro; apply ones_page_bits|].
  replace (page_map d + 16 + 8) with (page_map d + 24) by lia.
  iEval (rewrite (page_chunks d 128 ltac:(lia))) in "H". iExact "H".
Qed.

(** The state in which [fast_allocate] finds a page. *)
Definition fast_ready lo g : hprop :=
  (∃ cs L d ds full, ⌜heap_ok lo cs L g ∧ L 1 = d :: ds⌝ ∗ heap_inv lo cs L ∗
     pages (d :: ds) ∗ ring full_addr full)%I.

Lemma wp_fast_bin_reserve lo g :
  can_grow g 8192 → umm_inv lo g ⊢ wp fast_bin_reserve (λ _ g', fast_ready lo g') g.
Proof.
  iIntros (Hgrow) "(%cs & %L & %full & %Hok & [Hs Hseg] & Hpg & Hf)". unfold fast_bin_reserve.
  wp_apply wp_slot; [lia|]. iDestruct (slots_read L 1 with "Hs") as "[Hr Hs]"; [lia|].
  wp_apply wp_list_empty with "Hr". iIntros "Hr". iSpecialize ("Hs" with "Hr").
  destruct (L 1) as [|d ds] eqn:HL; cbn [bool_decide negb].
  2:{ iApply wp_ret. iExists cs, L, d, ds, full. by iFrame. }
  wp_apply (wp_wand with "[Hs Hseg]").
  { iApply (wp_malloc_huge lo cs L g 4144 with "[$Hs $Hseg]"); done. }
  iIntros (d g') "(%cs' & %L' & %k & [%Hok' %HL'] & [Hs Hseg] & %Hd & Hb)".
  rewrite HL in HL'. pose proof (ok_lo _ _ _ _ Hok) as [Hlo _]. unfold MAXVA in Hd.
  iDestruct (slots_access L' 1 with "Hs") as "[Hr Hs]"; [lia|].
  rewrite (anybytes_split d (k - 8) 16); [|lia]. iDestruct "Hb" as "[Hx Hb]".
  wp_apply wp_list_push with "Hr Hx"; [lia|]. iIntros "Hr". iSpecialize ("Hs" with "Hr").
  assert (pack_data (list_pack d) + sizeof_node = page_map d) as ->.
  { unfold list_pack, pack_data, page_map, sizeof_node, sizeof_pack.
    rewrite -> wrap_small by lia. lia. }
  fold (page_map d). rewrite (anybytes_split (page_map d) (k - 8 - 16) (24 + 4096)); [|lia].
  iDestruct "Hb" as "[Hb _]". iApply (wp_page_init with "Hb"). iIntros "Hp".
  iExists cs', _, d, [], full. iFrame "Hs Hseg Hf". rewrite HL' fn_lookup_insert. iSplit.
  { iPureIntro. split; [by apply heap_ok_fast|done]. }
  iApply (pages_cons d [] with "Hp"); [done|lia|lia|]. done.
Qed.

Lemma wp_malloc_fast lo g :
  can_grow g 8192 →
  umm_inv lo g ⊢ wp malloc_fast (λ p g', umm_inv lo g' ∗ user_block 24 p)%I g.
Proof.
  iIntros (Hgrow) "H". iApply wp_bind. iApply (wp_wand with "[H]").
  { by iApply wp_fast_bin_reserve. }
  iIntros (? g') "(%cs & %L & %d & %ds & %full & [%Hok %HL] & Hinv & Hpg & Hf)".
  by iApply (wp_fast_allocate with "Hinv Hpg Hf").
Qed.

(** ** mm_malloc *)

(** The chunk size a request needs. *)
Definition needed (n : Z) : Z := (n + 7) / 8 * 8 + 8.

(** The most a request can take from the kernel. *)
Definition growth (n : Z) : Z :=
  if needed n <=? 32 then 8192
  else if needed n <=? 512 then roundup (tiny_size (needed n))
  else roundup (needed n).

(** The block is as large as the request, up to the rounding of the tiny slots. *)
Definition enough (n len : Z) : Prop :=
  24 ≤ len ∧ (n ≤ len ∨ (24 < n ≤ 504 ∧ needed n `mod` 16 = 0 ∧ n - 8 ≤ len)).

Lemma needed_align n :
  0 ≤ n ≤ 2 ^ 32 - 16 → u32 (ALIGN 32 n + sizeof_pack) = needed n.
Proof.
  intros Hn. unfold ALIGN, ALIGNMENT, sizeof_pack, needed.
  rewrite -> (wrap_small 32 (n + (8 - 1))) by lia. change (8 - 1) with 7.
  change (wrap 32 (Z.lnot 7)) with (not32 7). rewrite -> land_not_flags by lia.
  rewrite -> wrap_small by dlia. dlia.
Qed.

(** A chunk handed out by a slot is a block for the user. *)
Lemma allocated_block lo fs min p g full :
  8 ≤ lo →
  allocated lo fs min p g -∗ pages fs -∗ ring full_addr full -∗
  umm_inv lo g ∗ ∃ len, ⌜min - 8 ≤ len⌝ ∗ user_block len p.
Proof.
  iIntros (Hlo) "(%cs & %L & %k & [%Hok %HL] & Hinv & %Hp & Hb) Hpg Hf". subst fs.
  iSplitL "Hinv Hpg Hf"; [iExists cs, L, full; by iFrame|].
  iExists (k - 8). iFrame. iPureIntro. lia.
Qed.

Lemma tiny_enough_enough n k len :
  24 < n ≤ 504 → tiny_enough (needed n) k → k - 8 ≤ len → enough n len.
Proof.
  intros Hn [Hk|(Hk & Hk8 & Hc)] Hlen; unfold enough.
  - unfold needed in Hk. split; [|left]; dlia.
  - assert (needed n ≤ 512) as Hn512 by (unfold needed; dlia).
    assert (k ≤ 512) as Hk512.
    { destruct (Z.le_gt_cases k 512); [done|]. pose proof (size_class_mono 513 k ltac:(lia)).
      pose proof (size_class_mono (needed n) 512). change (size_class 512) with 31 in *.
      change (size_class 513) with 32 in *. unfold needed in *. dlia. }
    assert ((k - 1) / 16 = (needed n - 1) / 16) as Heq.
    { revert Hc. unfold size_class. by destruct (Z.leb_spec k 512), (Z.leb_spec (needed n) 512); try lia. }
    clear Hc. unfold needed in *. split; dlia.
Qed.

Lemma wp_mm_malloc lo n g :
  0 ≤ n ≤ 61432 → can_grow g (growth n) →
  umm_inv lo g ⊢
  wp (mm_malloc n) (λ p g', umm_inv lo g' ∗ ∃ len, ⌜enough n len⌝ ∗ user_block len p)%I g.
Proof.
  iIntros (Hn Hgrow) "H". unfold mm_malloc. cbv zeta. rewrite -> needed_align by lia.
  unfold growth in Hgrow. assert (8 ≤ needed n ≤ 61440 ∧ needed n `mod` 8 = 0 ∧ n ≤ needed n - 8) as Hnd.
  { unfold needed. dlia. }
  destruct (Z.leb_spec (needed n) 32) as [H32|H32].
  { destruct (Z.leb_spec (needed n) 512); [|lia]. unfold malloc_tiny.
    destruct (Z.leb_spec (needed n) 32); [|lia].
    iApply (wp_wand with "[H]"); [by iApply wp_malloc_fast|]. iIntros (p g') "[$ Hb]".
    iExists 24. iFrame. iPureIntro. unfold enough. lia. }
  iDestruct "H" as "(%cs & %L & %full & %Hok & Hinv & Hpg & Hf)".
  pose proof (ok_lo _ _ _ _ Hok) as [Hlo _].
  destruct (Z.leb_spec (needed n) 512) as [H512|H512].
  { iApply (wp_wand with "[Hinv]"); [iApply (wp_malloc_tiny with "Hinv"); [done|lia|lia|done]|].
    iIntros (p g') "(%k & %Hk & Ha)".
    iDestruct (allocated_block with "Ha Hpg Hf") as "[$ (%len & %Hlen & Hb)]"; [done|].
    iExists len. iFrame. iPureIntro. eapply tiny_enough_enough; [|done|done].
    unfold needed in *. dlia. }
  iApply (wp_wand with "[Hinv]").
  { destruct (Z.ltb_spec 4096 (needed n)); [iApply (wp_malloc_huge with "Hinv")
      |iApply (wp_malloc_middle with "Hinv")]; [done|lia|lia|done|done|lia|lia|done]. }
  iIntros (p g') "Ha".
  iDestruct (allocated_block with "Ha Hpg Hf") as "[$ (%len & %Hlen & Hb)]"; [done|].
  iExists len. iFrame. iPureIntro. unfold enough. lia.
Qed.

(** A tiny request whose slot begins with the chunk behind [xs]. *)
Lemma wp_mm_malloc_first lo xs sz ys L g us n full :
  heap_ok lo (xs ++ (sz, true) :: ys) L g → 24 < n ≤ 504 → size_class sz = (needed n - 1) / 16 →
  L (size_class sz) = pack_data (cend lo xs) :: us →
  heap_inv lo (xs ++ (sz, true) :: ys) L ∗ pages (L 1) ∗ ring full_addr full ⊢
  wp (mm_malloc n) (λ p g', ⌜p = pack_data (cend lo xs)⌝ ∗
    (umm_inv lo g' ∧ anybytes (p + (sz - 8)) 8) ∗ anybytes p (sz - 8))%I g.
Proof.
  iIntros (Hok Hn Hc HL) "(H & Hpg & Hf)". unfold mm_malloc. cbv zeta. rewrite -> needed_align by lia.
  assert (32 < needed n ≤ 512) as Hnd by (unfold needed; dlia). destruct (Z.leb_spec (needed n) 512); [|lia].
  unfold malloc_tiny. destruct (Z.leb_spec (needed n) 32); [lia|]. rewrite -> (wrap_small 64 (needed n - 1)) by lia. rewrite -Hc.
  iApply wp_bind. iApply (wp_wand with "[H]"); [iApply (wp_tiny_first with "H"); [done|rewrite Hc; dlia|done]|].
  iIntros (p g') "([-> %Hp] & %cs' & %L' & [%Hok' %HL'] & Hi & Hb)". destruct (Z.eqb_spec (pack_data (cend lo xs)) 0); [done|]. simpl.
  iApply wp_ret. iSplit; [done|]. iFrame "Hb". iSplit.
  - iDestruct "Hi" as "[Hi _]". iExists cs', L', full. rewrite HL'. by iFrame.
  - iDestruct "Hi" as "[_ $]".
Qed.

(** A request above 61440 bytes when the last slot is empty. *)
Lemma wp_last_slot_empty lo cs L g need n :
  heap_ok lo cs L g → L 63 = [] → heap_inv lo cs L ⊢ wp (iterative_allocate 63 need n) (λ p _, ⌜p = 0⌝ : hprop)%I g.
Proof.
  iIntros (Hok HL) "[Hs _]". wp_apply wp_slot; [lia|]. iDestruct (slots_read L 63 with "Hs") as "[Hr _]"; [lia|]. rewrite HL.
  iDestruct (ring_first_read with "Hr") as "[Hn _]". wp_load "Hn". change (first_of [] (slot_at 63)) with (slot_at 63).
  destruct n; cbn [iterative_loop]; rewrite ?Z.eqb_refl; by iApply wp_ret.
Qed.

(** ** mm_init *)

(** The globals lie in mapped memory, below the heap. *)
Definition layout_ok : Prop :=
  0 ≤ slots_addr ∧ slots_addr + 1024 ≤ MAXVA ∧ 0 ≤ full_addr ≤ MAXVA.

Lemma wp_slots_init i n (Φ : unit → heap → hprop) g :
  layout_ok → 0 ≤ i → i + Z.of_nat n ≤ 64 →
  anybytes (slot_at i) (16 * Z.of_nat n) -∗
  (([∗ list] j ∈ seqZ i (Z.of_nat n), ring (slot_at j) []) -∗ Φ () g) -∗
  wp (slots_init i n) Φ g.
Proof.
  intros (Hl0 & Hl1 & _). unfold MAXVA in Hl1.
  iInduction n as [|n IH] forall (i); iIntros (Hi Hn) "H HΦ"; simpl slots_init.
  { iApply wp_ret. by iApply "HΦ". }
  wp_apply wp_slot; [lia|]. rewrite (anybytes_split _ _ 16); [|lia].
  iDestruct "H" as "[Hs H]".
  wp_apply wp_list_init with "Hs"; [unfold slot_at; lia|]. iIntros "Hr".
  replace (slot_at i + 16) with (slot_at (i + 1)) by (unfold slot_at; lia).
  replace (16 * Z.of_nat (S n) - 16) with (16 * Z.of_nat n) by lia.
  iApply ("IH" with "[%] [%] H"); [lia|lia|]. iIntros "Hs". iApply "HΦ".
  rewrite (seqZ_cons i); [|lia]. rewrite Nat2Z.inj_succ Z.pred_succ. iFrame.
Qed.

Lemma wp_mm_list_init (Φ : unit → heap → hprop) g :
  layout_ok →
  anybytes slots_addr 1024 -∗ anybytes full_addr 16 -∗
  (slots (λ _, []) -∗ ring full_addr [] -∗ Φ () g) -∗ wp mm_list_init Φ g.
Proof.
  iIntros (Hl) "Hs Hf HΦ". unfold mm_list_init.
  wp_apply (wp_slots_init 0 64) with "[Hs]"; [done|lia|lia| |].
  { unfold slot_at. by replace (slots_addr + 16 * 0) with slots_addr by lia. }
  iIntros "Hs". iApply (wp_list_init with "Hf").
  { destruct Hl as (_ & _ & Hl). unfold MAXVA in Hl. lia. }
  iIntros "Hf". iApply ("HΦ" with "Hs Hf").
Qed.

(** The end of the first pages: [mm_align_init] rounds the break up to a page. *)
Definition first_top (b : Z) : Z :=
  if b `mod` 4096 =? 0 then b + 4096 else b + 4096 + (4096 - b `mod` 4096).

Definition can_init (b : Z) : Prop :=
  sbrk_grants b 4096 = true ∧
  (b `mod` 4096 ≠ 0 → sbrk_grants (b + 4096) (4096 - b `mod` 4096) = true) ∧
  first_top b ≤ MAXVA.

(** The second [sbrk] of [mm_align_init], which aligns the break. *)
Lemma wp_align_brk b bs bm :
  0 < b → can_init b →
  let temp := b `mod` PAGE_SIZE in
  anybytes b 4096 ⊢
  wp (if truth temp then sbrk (PAGE_SIZE - temp);; mret (u64 (PAGE_SIZE + (PAGE_SIZE - temp)))
      else mret PAGE_SIZE)
    (λ size g', ⌜size = first_top b - b ∧ g' = mkheap bs bm (first_top b)⌝ ∗
       anybytes b (first_top b - b))%I (mkheap bs bm (b + 4096)).
Proof.
  iIntros (Hb (_ & Hg & _) temp) "H". unfold first_top, truth, temp, PAGE_SIZE in *.
  destruct (Z.eqb_spec (b `mod` 4096) 0) as [Ht|Ht]; cbn [negb].
  - iApply wp_ret. replace (b + 4096 - b) with 4096 by lia. by iFrame.
  - assert (0 < 4096 - b `mod` 4096 < 4096) as Hr by dlia.
    wp_apply wp_sbrk_ok; [lia|by apply Hg|]. iIntros "Hz". simpl.
    rewrite anybytes_zeros; [|lia]. iApply wp_ret.
    rewrite -> wrap_small by lia. iSplit; [iPureIntro; split; [lia|done]|].
    rewrite (anybytes_split b (b + 4096 + (4096 - b `mod` 4096) - b) 4096); [|lia]. iFrame "H".
    by replace (b + 4096 + (4096 - b `mod` 4096) - b - 4096) with (4096 - b `mod` 4096) by lia.
Qed.

Lemma ALIGN_64 b : 0 ≤ b < 2 ^ 39 → ALIGN 64 b = (b + 7) / 8 * 8.
Proof.
  intros Hb. unfold ALIGN, ALIGNMENT. rewrite -> (wrap_small 64 (b + (8 - 1))) by lia.
  rewrite -> land_wrap by lia. change (Z.lnot 7) with (Z.lnot (Z.ones 3)).
  rewrite <- Z.ldiff_land. rewrite -> Z.ldiff_ones_r, Z.shiftl_mul_pow2, Z.shiftr_div_pow2 by lia.
  done.
Qed.

(** The chunk the initialisation leaves, and the header behind it. *)
Lemma first_chunk b :
  0 < b → let lo := (b + 7) / 8 * 8 in let size := first_top b - (lo + 8) in
  8 ≤ lo ∧ lo `mod` 8 = 0 ∧ b ≤ lo < b + 8 ∧ size `mod` 8 = 0 ∧ 4072 < size ≤ 8192 ∧
  first_top b = lo + size + 8.
Proof.
  intros Hb lo size. unfold size, lo, first_top.
  destruct (Z.eqb_spec (b `mod` 4096) 0); split_and!; dlia.
Qed.

Lemma first_heap_ok lo size bm L :
  8 ≤ lo → lo `mod` 8 = 0 → 32 < size ≤ 65536 → lo + size + 8 ≤ MAXVA → (∀ i, L i = []) →
  let L' := <[size_class size := [pack_data lo]]> L in
  bitmap_ok L' bm →
  heap_ok lo [(size, true); (0, false)] L' (mkheap (lo + size + 8) bm (lo + size + 8)).
Proof.
  intros Hlo Hlo8 Hs Hmax HL L' Hb. split; simpl; try done; try lia. unfold L'.
  intros i Hi. destruct (Z.eqb_spec (size_class size) i) as [<-|Hne].
  - by rewrite fn_lookup_insert.
  - by rewrite fn_lookup_insert_ne; [rewrite HL|].
Qed.

(** The first pages: two headers, a list node and the rest of the free chunk. *)
Lemma first_bytes b lo size :
  b ≤ lo → 32 < size →
  anybytes b (lo + size + 8 - b) ⊢
  hprev lo ∗ (∃ v, pack_size_at lo ↦₄ v) ∗ anybytes (pack_data lo) 16 ∗
  anybytes (lo + 24) (size - 24) ∗ hprev (lo + size) ∗ (∃ v, pack_size_at (lo + size) ↦₄ v).
Proof.
  iIntros (Hlo Hs) "H". rewrite (anybytes_split b (lo + size + 8 - b) (lo - b)); [|lia].
  iDestruct "H" as "[_ H]". replace (b + (lo - b)) with lo by lia.
  replace (lo + size + 8 - b - (lo - b)) with (size + 8) by lia.
  iDestruct (anybytes_header with "H") as "($ & $ & H)"; [lia|]. fold (pack_data lo).
  replace (size + 8 - 8) with size by lia.
  iDestruct (fresh_page with "H") as "(H & $ & $)"; [lia|].
  rewrite (anybytes_split (pack_data lo) (size - 8) 16); [|lia]. iDestruct "H" as "[$ H]".
  unfold pack_data. replace (lo + 8 + 16) with (lo + 24) by lia.
  by replace (size - 8 - 16) with (size - 24) by lia.
Qed.

Lemma wp_mm_align_init (Φ : unit → heap → hprop) b bs L :
  0 < b → can_init b → (∀ i, L i = []) →
  let lo := (b + 7) / 8 * 8 in
  slots L -∗
  (∀ bm cs L', ⌜heap_ok lo cs L' (mkheap (first_top b) bm (first_top b)) ∧ L' 1 = []⌝ -∗
     heap_inv lo cs L' -∗ Φ () (mkheap (first_top b) bm (first_top b))) -∗
  wp mm_align_init Φ (mkheap bs 0 b).
Proof.
  iIntros (Hb Hinit HL lo) "Hs HΦ". unfold mm_align_init.
  destruct (first_chunk b Hb) as (Hlo & Hlo8 & Hblo & Hs8 & Hs & Htop).
  pose proof Hinit as (Hg & _ & Hmax). unfold MAXVA in Hmax.
  wp_apply wp_sbrk_ok; [done|done|]. iIntros "Hz". rewrite anybytes_zeros; [|done].
  simpl (brk _). cbv zeta. wp_apply (wp_wand with "[Hz]").
  { iApply (wp_align_brk b bs 0 Hb Hinit with "Hz"). }
  iIntros (sz g') "[[-> ->] Hz]".
  rewrite -> (wrap_small 64 (b + (first_top b - b))) by lia.
  replace (b + (first_top b - b)) with (first_top b) by lia.
  rewrite -> ALIGN_64 by lia. fold lo. fold lo in Hlo, Hlo8, Hblo, Hs8, Hs, Htop.
  unfold sizeof_pack. rewrite -> (wrap_small 64 (lo + 8)) by lia.
  set (size := first_top b - (lo + 8)) in *. rewrite -> (wrap_small 64 size) by lia.
  rewrite -/(pack_data lo). rewrite -> list_pack_data by lia.
  assert (list_pack (first_top b) = lo + size) as ->.
  { rewrite -(list_pack_data (lo + size)); [|lia]. unfold pack_data. f_equal. lia. }
  iApply wp_bind. iApply wp_setg; [done|]. simpl (hbitmap _). simpl (hbrk _).
  rewrite Htop in Hmax |- *. clearbody lo size. clear Htop.
  iDestruct (first_bytes with "Hz") as "(Hp & [%v Hc] & Hx & Hd & Hnp & [%w Hn])"; [lia|lia|].
  wp_apply wp_pack_set_prev with "Hp"; [done|]. iIntros "Hp".
  wp_apply wp_pack_set_info with "Hc"; [lia|lia|done|]. iIntros "Hc".
  wp_apply wp_pack_set_prev with "Hnp"; [lia|]. iIntros "Hnp".
  wp_apply wp_pack_set_info with "Hn"; [done|done|done|]. iIntros "Hn".
  iApply (wp_free_chunk L with "Hs Hc Hn Hx"); [lia|lia|lia| |].
  { split; [done|]. intros j Hj. simpl. rewrite Z.bits_0 bool_decide_eq_false_2; naive_solver. }
  iIntros (bm Hbm) "Hs Hc Hn". rewrite HL in Hbm |- *.
  pose proof (size_class_range size ltac:(lia)).
  iApply ("HΦ" $! bm [(size, true); (0, false)] (<[size_class size := [pack_data lo]]> L) with "[%] [-]").
  - split; [apply first_heap_ok; try done; unfold MAXVA; lia|].
    rewrite fn_lookup_insert_ne; [done|lia].
  - iFrame "Hs". simpl. rewrite (header_free lo size) (header_after_free (lo + size) size 0).
    rewrite (hprev_intro lo). iFrame. iPureIntro. split; [intros _; split; [done|simpl; lia]|done].
Qed.

Lemma wp_mm_init b bs :
  0 < b → can_init b → layout_ok →
  anybytes slots_addr 1024 -∗ anybytes full_addr 16 -∗
  wp mm_init (λ r g', ⌜r = 0 ∧ hbase g' = first_top b⌝ ∗ umm_inv ((b + 7) / 8 * 8) g')%I
    (mkheap bs 0 b).
Proof.
  iIntros (Hb Hinit Hl) "Hs Hf". unfold mm_init.
  wp_apply (wp_mm_list_init with "Hs Hf"); [done|]. iIntros "Hs Hf".
  wp_apply (wp_mm_align_init with "Hs"); [done..|]. iIntros (bm cs L' [Hok HL]) "Hinv".
  wp_apply wp_getg. iApply wp_ret. simpl. iSplit.
  - iPureIntro. destruct (first_chunk b Hb) as (Hlo & _ & _ & _ & Hs & Htop).
    destruct (Z.eqb_spec (first_top b) 0); [lia|done].
  - iExists cs, L', []. iFrame "Hinv Hf". rewrite HL. iSplit; [done|]. by unfold pages.
Qed.
End correct.
