(* ===== verification/UmSpec.v ===== *)
(** * What the allocator promises

    The allocator theorems as statements about runs: the memory is the disjoint
    union of what the allocator owns and of everything else (blocks handed out
    and program data), [mm_malloc] moves a block from the first part to the
    second and leaves the second alone.  The last section is the client view:
    any sequence of requests and of writes to granted blocks. *)
From S2P Require Import Prelude Mem Sep SepRun Sbrk UmDecl UmData UmBits UmList UmChunk UmAlloc UmSlots UmHeap UmMalloc UmFast UmCorrect.
From iris.proofmode Require Import proofmode.

#[local] Open Scope Z_scope.

Section spec.
Context `{Layout, Kernel}.
Implicit Types (s : st heap) (u blk : bytemap).

(** [u] is all the memory that does not belong to the allocator. *)
Definition valid (lo : Z) s u : Prop :=
  ∃ h, mem s = h ∪ u ∧ h ##ₘ u ∧ umm_inv lo (glob s) h ∧ machine_ok (dom (mem s)) (glob s).

Lemma mm_malloc_valid lo s u n :
  valid lo s u → 0 ≤ n ≤ 61432 → can_grow (glob s) (growth n) →
  ∃ p s' len blk, mm_malloc n s = Ok p s' ∧ is_block p len blk ∧ enough n len ∧
    p `mod` 8 = 0 ∧ 0 < p ∧ blk ##ₘ u ∧ valid lo s' (blk ∪ u).
Proof.
  intros (h & Hm & Hd & Hinv & Hok) Hn Hg. destruct s as [m g]. simpl in *. subst m.
  destruct (wp_run (mm_malloc n) _ _ g h u (wp_mm_malloc lo n g Hn Hg) Hinv Hd Hok)
    as (p & g' & h' & Hrun & Hd' & Hok' & HΦ).
  assert ((∃ len, ⌜enough n len ∧ p `mod` 8 = 0 ∧ 0 < p⌝ ∧ (umm_inv lo g' ∗ anybytes p len))%I h')
    as (len & (He & Hp8 & Hp) & Hsep).
  { eapply entails_at, HΦ. iIntros "(Hi & %len & %He & %Hp & Hb)". iExists len.
    iSplit; [done|]. iFrame. }
  apply sep_block in Hsep as (blk & h'' & Hblk & -> & Hdb & Hi).
  apply map_disjoint_union_l in Hd' as [Hd1 Hd2].
  exists p, (mkst (h'' ∪ blk ∪ u) g'), len, blk. split_and!; try done.
  exists h''. split_and!; try done; simpl.
  - by rewrite (assoc_L (∪)).
  - by apply map_disjoint_union_r.
Qed.

(** The memory a program starts [mm_init] with: the two global areas, cleared
    or not, and the rest of its image. *)
Definition startable s u : Prop :=
  hbitmap (glob s) = 0 ∧ 0 < hbrk (glob s) ∧ can_init (hbrk (glob s)) ∧ layout_ok ∧
  machine_ok (dom (mem s)) (glob s) ∧
  ∃ b1 b2, is_block slots_addr 1024 b1 ∧ is_block full_addr 16 b2 ∧
    b1 ##ₘ b2 ∧ b1 ∪ b2 ##ₘ u ∧ mem s = (b1 ∪ b2) ∪ u.

Definition heap_start s : Z := (hbrk (glob s) + 7) / 8 * 8.

Lemma mm_init_valid s u :
  startable s u →
  ∃ s', mm_init s = Ok 0 s' ∧ valid (heap_start s) s' u ∧
    hbase (glob s') = first_top (hbrk (glob s)).
Proof.
  intros (Hbm & Hb & Hinit & Hl & Hok & b1 & b2 & H1 & H2 & Hd & Hdu & Hm).
  destruct s as [m [bs bm b]]. unfold heap_start. simpl in *. subst m bm.
  destruct (wp_run mm_init (anybytes slots_addr 1024 ∗ anybytes full_addr 16)%I
    (λ r g', ⌜r = 0 ∧ hbase g' = first_top b⌝ ∗ umm_inv ((b + 7) / 8 * 8) g')%I
    (mkheap bs 0 b) (b1 ∪ b2) u)
    as (r & g' & h' & Hrun & Hd' & Hok' & HΦ); [| |done|done|].
  2:{ exists b1, b2. split_and!; [done|done|by apply is_block_anybytes..]. }
  { iIntros "[H1 H2]". by iApply (wp_mm_init with "H1 H2"). }
  assert ((⌜r = 0 ∧ hbase g' = first_top b⌝ ∧ umm_inv ((b + 7) / 8 * 8) g')%I h')
    as [[-> Hbase] Hi].
  { eapply entails_at, HΦ. iIntros "[% $]". done. }
  eexists. split_and!; [exact Hrun| |exact Hbase]. by exists h'.
Qed.

(** The invariant includes that the heap ends at the break. *)
Lemma umm_inv_brk lo g h : umm_inv lo g h → hbrk g = hbase g ∧ hbase g ≤ MAXVA.
Proof.
  intros Hinv. assert ((⌜hbrk g = hbase g ∧ hbase g ≤ MAXVA⌝ : hprop)%I h) as Hp; [|exact Hp].
  eapply entails_at, Hinv. iIntros "(%cs & %L & %full & %Hok & _)". iPureIntro.
  destruct Hok. lia.
Qed.

Lemma malloc_brk_refused_run lo s u need :
  valid lo s u → 32 < need ≤ 61440 → need `mod` 8 = 0 →
  sbrk_grants (hbrk (glob s)) (roundup need) = false →
  ∃ s', malloc_brk need s = Ok 0 s' ∧
    glob s' = mkheap (hbase (glob s) + roundup need) (hbitmap (glob s)) (hbrk (glob s)).
Proof.
  intros (h & Hm & Hd & Hinv & Hok) Hn Hn8 Hg. destruct s as [m g]. simpl in *. subst m.
  destruct (wp_run (malloc_brk need) (umm_inv lo g)
    (λ p g', ⌜p = 0 ∧ g' = mkheap (hbase g + roundup need) (hbitmap g) (hbrk g)⌝)%I g h u)
    as (p & g' & h' & Hrun & _ & _ & [-> ->]); try done.
  - iIntros "(%cs & %L & %full & %Hk & H & _)". by iApply (wp_malloc_brk_refused with "H").
  - eexists. split; [exact Hrun|done].
Qed.

(** ** Requests the slots do not serve well *)

Lemma valid_sat lo s u :
  valid lo s u ↔ sat (umm_inv lo (glob s)) (mem s) u ∧ machine_ok (dom (mem s)) (glob s).
Proof.
  unfold valid, sat. split.
  - intros (h & ? & ? & ? & ?). split; [|done]. by exists h.
  - intros [(h & ? & ? & ?) ?]. by exists h.
Qed.

(** The first chunk of slot [i], as memory has it. *)
Lemma valid_first lo s u i c k :
  sat (umm_inv lo (glob s)) (mem s) u → 2 ≤ i < 64 →
  load 8 (node_next_at (slot_at i)) s = Ok c s → c ≠ slot_at i → pack_size (list_pack c) s = Ok k s →
  ∃ xs ys L us full, sat (heap_inv lo (xs ++ (k, true) :: ys) L ∗ pages (L 1) ∗ ring full_addr full)%I (mem s) u ∧
    heap_ok lo (xs ++ (k, true) :: ys) L (glob s) ∧ c = pack_data (cend lo xs) ∧ size_class k = i ∧ L i = c :: us ∧
    32 < k ∧ k `mod` 8 = 0.
Proof.
  intros Hs Hi Hc Hne Hk. apply sat_exist in Hs as [cs [L [full [Hok Hs]%sat_pure]%sat_exist]%sat_exist].
  assert (first_of (L i) (slot_at i) = c) as Hfirst.
  { assert (load 8 (node_next_at (slot_at i)) s = Ok (first_of (L i) (slot_at i)) s) as Hl; [|congruence].
    eapply sat_word, Hs. iIntros "([Hs _] & _)". iDestruct (slots_read L i with "Hs") as "[Hr _]"; [lia|].
    by iDestruct (ring_first_read with "Hr") as "[$ _]". }
  destruct (L i) as [|x us] eqn:HL; [by subst c|]. change (x = c) in Hfirst. subst x.
  destruct (slot_chunk lo cs L (glob s) i c) as (xs & sz & ys & -> & Hx & Hsz); [done|done|rewrite HL; set_solver|].
  pose proof Hs as Hs'. apply (sat_mono _ (∃ m, ⌜(32 < sz ∧ sz `mod` 8 = 0 ∧ 0 ≤ sz < 2 ^ 31 ∧ 0 ≤ m < 8 ∧ 0 ≤ cend lo xs < 2 ^ 64)%Z⌝ ∗
    pack_size_at (cend lo xs) ↦₄ (sz + m))%I) in Hs' as [m [(H32 & H8 & Hsr & Hm & Hcr) Hw]%sat_pure]%sat_exist.
  2: { iIntros "([_ Hseg] & _)". iDestruct (seg_bounds with "Hseg") as %Hb; [done|]. rewrite seg_app. simpl.
       iDestruct "Hseg" as "(_ & %Hck & [_ [%Hh Hw]] & _)". destruct (Hck eq_refl) as [_ Hb32]. simpl in Hb32. iExists _. iFrame "Hw". iPureIntro. simpl in Hh. cbn [snd]. lia. }
  assert (k = sz) as ->.
  { rewrite Hx in Hk. rewrite -> list_pack_data in Hk by lia. unfold pack_size in Hk.
    rewrite (bind_ok _ _ _ _ _ (sat_word _ _ _ _ s u (reflexivity _) Hw)) in Hk. injection Hk as <-. unfold FULL_MASK. by rewrite -> hdr_size by lia. }
  exists xs, ys, L, us, full. by split_and!.
Qed.

Lemma tiny_short_run lo s u n c k :
  valid lo s u → 24 < n ≤ 504 → load 8 (node_next_at (slot_at ((needed n - 1) / 16))) s = Ok c s →
  c ≠ slot_at ((needed n - 1) / 16) → pack_size (list_pack c) s = Ok k s → k < needed n →
  k = needed n - 8 ∧ ∃ s' blk, mm_malloc n s = Ok c s' ∧ is_block c (k - 8) blk ∧ blk ##ₘ u ∧ valid lo s' (blk ∪ u) ∧
    ∀ a, c + (k - 8) ≤ a < c + k → is_Some (mem s' !! a) ∧ (blk ∪ u) !! a = None.
Proof.
  intros [Hs Hok]%valid_sat Hn Hc Hne Hk Hlt. assert (32 < needed n ≤ 512 ∧ needed n `mod` 8 = 0) as [Hnd Hn8] by (unfold needed; dlia).
  destruct (valid_first lo s u ((needed n - 1) / 16) c k Hs) as (xs & ys & L & us & full & Hsat & Hheap & Hcx & Hcl & HL & H32 & H8); [dlia|done..|].
  split. { revert Hcl. unfold size_class. destruct (Z.leb_spec k 512); [|lia]. intros Hcl. dlia. }
  destruct (sat_run_ok _ _ _ s u Hsat Hok (wp_mm_malloc_first lo xs k ys L (glob s) us n full Hheap Hn Hcl ltac:(by rewrite Hcl -Hcx)))
    as (p & s' & Hrun & [-> Hsat']%sat_pure & Hok').
  rewrite -Hcx in Hrun Hsat'. apply sat_anybytes in Hsat' as (blk & Hblk & Hd & Hsat').
  exists s', blk. split_and!; [done..| |].
  - apply valid_sat. split; [|done]. eapply sat_mono, Hsat'. by iIntros "[$ _]".
  - intros a Ha. eapply (sat_mapped _ (c + (k - 8)) 8); [|exact Hsat'|lia]. by iIntros "[_ $]".
Qed.

Lemma last_slot_run lo s u n :
  valid lo s u → 61432 < n ≤ 65528 → Z.testbit (hbitmap (glob s)) 63 = false → mm_malloc n s = Err (Undef "shift count").
Proof.
  intros [Hs Hok]%valid_sat Hn Hbit. apply sat_exist in Hs as [cs [L [full [Hheap Hs]%sat_pure]%sat_exist]%sat_exist].
  assert (L 63 = []) as HL.
  { destruct (ok_bitmap _ _ _ _ Hheap) as [_ Hb]. rewrite Hb in Hbit; [|done]. apply bool_decide_eq_false in Hbit.
    destruct (L 63); [done|]. exfalso. apply Hbit. split; [lia|done]. }
  assert (61440 < needed n ≤ 65536) as Hnd by (unfold needed; dlia).
  unfold mm_malloc. cbv zeta. rewrite -> needed_align by lia. destruct (Z.leb_spec (needed n) 512); [lia|]. destruct (Z.ltb_spec 4096 (needed n)); [|lia].
  unfold malloc_huge. cbv zeta. destruct (Z.ltb_spec (needed n) 6144); [lia|].
  replace (u64 (u64 (needed n - 1) / 4096 + 48)) with 63.
  2: { rewrite -> (wrap_small 64 (needed n - 1)) by lia. rewrite -> wrap_small by dlia. dlia. }
  destruct (sat_run_ok (iterative_allocate 63 (needed n) 8) (λ p _, ⌜p = 0⌝ : hprop)%I _ s u Hs Hok) as (p & s' & Hrun & Hp & _).
  { iIntros "[H _]". by iApply (wp_last_slot_empty with "H"). }
  destruct Hp as (h & _ & _ & ->). rewrite (bind_ok _ _ _ _ _ Hrun). done.
Qed.

Lemma no_slot_run s n : 65528 < n ≤ 2 ^ 32 - 16 → mm_malloc n s = Err (Undef "slots index").
Proof.
  intros Hn. assert (65536 < needed n < 2 ^ 32) as Hnd by (unfold needed; dlia).
  unfold mm_malloc. cbv zeta. rewrite -> needed_align by lia. destruct (Z.leb_spec (needed n) 512); [lia|]. destruct (Z.ltb_spec 4096 (needed n)); [|lia].
  unfold malloc_huge. cbv zeta. destruct (Z.ltb_spec (needed n) 6144); [lia|].
  rewrite -> (wrap_small 64 (needed n - 1)) by lia. rewrite -> wrap_small by dlia.
  unfold iterative_allocate, slot. destruct (Z.ltb_spec ((needed n - 1) / 4096 + 48) 64); [dlia|]. done.
Qed.

(** ** Clients *)

(** The part of a request that [enough] guarantees. *)
Definition guaranteed (n : Z) : Z :=
  Z.max 24 (if (24 <? n) && (n <=? 504) && (needed n `mod` 16 =? 0) then n - 8 else n).

Lemma enough_guaranteed n len : enough n len → guaranteed n ≤ len.
Proof.
  intros [H24 [Hn|(Hn & Hm & Hl)]]; unfold guaranteed.
  - destruct (_ && _); lia.
  - rewrite -> (proj2 (Z.ltb_lt 24 n)), (proj2 (Z.leb_le n 504)) by lia. rewrite Hm. simpl. lia.
Qed.

(** A program that has received the blocks [cblocks] (address, usable size). *)
Record client := Client { cst : st heap; cblocks : list (Z * Z) }.

Inductive client_step : client → client → Prop :=
  | do_malloc c n p s' :
      0 ≤ n ≤ 61432 → can_grow (glob (cst c)) (growth n) →
      mm_malloc n (cst c) = Ok p s' →
      client_step c (Client s' ((p, guaranteed n) :: cblocks c))
  | do_write c p len a v s' :
      (p, len) ∈ cblocks c → p ≤ a < p + len → 0 ≤ v < 256 →
      store 1 a v (cst c) = Ok () s' →
      client_step c (Client s' (cblocks c))
  | do_free c p s' :
      mm_free p (cst c) = Ok () s' → client_step c (Client s' (cblocks c)).

Definition apart (x y : Z * Z) : Prop := x.1 + x.2 ≤ y.1 ∨ y.1 + y.2 ≤ x.1.

Definition client_ok (lo : Z) (c : client) : Prop :=
  ∃ u, valid lo (cst c) u ∧ ForallOrdPairs apart (cblocks c) ∧
    ∀ p len, (p, len) ∈ cblocks c →
      0 < len ∧ ∀ a, p ≤ a < p + len → is_Some (u !! a).

Lemma valid_write lo s s' u a v :
  valid lo s u → is_Some (u !! a) → 0 ≤ v < 256 → store 1 a v s = Ok () s' →
  valid lo s' (<[a := v]> u).
Proof.
  intros (h & Hm & Hd & Hinv & Hok) [x Hx] Hv Hst. unfold store in Hst. simpl in Hst.
  assert (h !! a = None) as Hha by (by eapply map_disjoint_Some_r).
  rewrite Hm lookup_union_r in Hst; [|done]. rewrite Hx in Hst. simpl in Hst.
  rewrite -> Z.mod_small in Hst by lia. injection Hst as <-. exists h. simpl. split_and!.
  - by rewrite insert_union_r.
  - by apply map_disjoint_insert_r_2.
  - done.
  - rewrite dom_insert_lookup_L; [by rewrite -Hm|].
    exists x. by rewrite lookup_union_r.
Qed.

(** A block and a range of the rest of the memory do not overlap. *)
Lemma block_apart u p len blk k q l :
  is_block p len blk → blk ##ₘ u → 0 < k → k ≤ len → 0 < l →
  (∀ a, q ≤ a < q + l → is_Some (u !! a)) → apart (p, k) (q, l).
Proof.
  intros Hblk Hd Hk0 Hk Hl Hu. unfold apart. simpl.
  destruct (decide (p + k ≤ q ∨ q + l ≤ p)) as [|Hn]; [done|].
  destruct (Hu (Z.max p q)) as [x Hx]; [lia|].
  destruct (proj1 (is_block_lookup p len blk (Z.max p q) Hblk)) as [y Hy]; [lia|].
  exfalso. by eapply (map_disjoint_spec blk u).
Qed.

Lemma client_step_ok lo c c' : client_step c c' → client_ok lo c → client_ok lo c'.
Proof.
  intros Hstep (u & Hv & Hap & Hin). destruct Hstep as [c n p s' Hn Hg Hrun|c p len a v s' Hb Ha Hr Hst|c p s' Hst].
  - destruct (mm_malloc_valid lo (cst c) u n Hv Hn Hg)
      as (p' & s'' & len & blk & Hrun' & Hblk & He & _ & _ & Hd & Hv').
    rewrite Hrun in Hrun'. injection Hrun' as <- <-. apply enough_guaranteed in He.
    exists (blk ∪ u). simpl. split_and!; [done| |].
    + constructor; [|done]. apply Forall_forall. intros [q l] Hq. simpl.
      destruct (Hin _ _ Hq) as [Hl Ha].
      eapply block_apart; [exact Hblk|exact Hd|unfold guaranteed; lia|done..].
    + intros q l [[= -> ->]|Hq]%elem_of_cons.
      * split; [unfold guaranteed; lia|]. intros a Ha.
        apply lookup_union_is_Some. left. apply (is_block_lookup p len); [done|lia].
      * destruct (Hin _ _ Hq) as [Hl Ha]. split; [done|]. intros a Hr.
        apply lookup_union_is_Some. right. by apply Ha.
  - exists (<[a := v]> u). simpl. split_and!; [|done|].
    + eapply valid_write; [done| |done|done]. by eapply Hin.
    + intros q l Hq. destruct (Hin _ _ Hq) as [Hl Ha']. split; [done|]. intros a' Hr'.
      rewrite lookup_insert_is_Some. destruct (decide (a = a')); [by left|right]. auto.
  - injection Hst as <-. by exists u.
Qed.

Lemma client_steps_ok lo c c' : rtc client_step c c' → client_ok lo c → client_ok lo c'.
Proof. induction 1; eauto using client_step_ok. Qed.
End spec.
