(* ===== verification/UmTheorems.v ===== *)
(** * The theorems on the allocator of memory/ and user/ummalloc.c

    The properties of the allocator with their witnesses on a small concrete
    machine, and the requests on which the code misbehaves. *)
From S2P Require Import Prelude Mem Sep SepRun Sbrk UmDecl UmData UmBits UmChunk UmAlloc UmSlots UmHeap UmMalloc UmFast UmCorrect UmSpec.

Section theorems.
Context `{Layout, Kernel}.

(** C1: from any state in which the allocator invariant holds, a request of up
    to 61432 bytes that the kernel can back succeeds: [mm_malloc] returns an
    8-aligned, non-null pointer to a block that overlaps no other memory, the
    memory outside the allocator (every earlier block included) is unchanged,
    and the invariant holds again.  The block has at least [n] bytes, except
    that a tiny request that fills its slot size exactly (chunk size a multiple
    of 16) may get 8 bytes less. *)
Theorem mm_malloc_correct lo s u n :
  valid lo s u → 0 ≤ n ≤ 61432 → can_grow (glob s) (growth n) →
  ∃ p s' len blk, mm_malloc n s = Ok p s' ∧ is_block p len blk ∧ enough n len ∧
    p `mod` 8 = 0 ∧ 0 < p ∧ blk ##ₘ u ∧ valid lo s' (blk ∪ u).
Proof. apply mm_malloc_valid. Qed.

(** C25: [mm_init] succeeds on a program image whose [bitmap] is still zero and
    establishes the allocator invariant, whatever the alignment of the break. *)
Theorem mm_init_correct s u :
  startable s u →
  ∃ s', mm_init s = Ok 0 s' ∧ valid (heap_start s) s' u ∧
    hbase (glob s') `mod` 4096 = 0 ∧ hbrk (glob s') = hbase (glob s').
Proof.
  intros Hs. destruct (mm_init_valid s u Hs) as (s' & Hrun & Hv & Hb).
  exists s'. split_and!; try done.
  - rewrite Hb. unfold first_top. destruct (Z.eqb_spec (hbrk (glob s) `mod` 4096) 0); dlia.
  - destruct Hv as (h & _ & _ & Hinv & _). by destruct (umm_inv_brk _ _ _ Hinv).
Qed.

(** C6: however a program mixes, after [mm_init], requests of up to 61432 bytes
    for which the kernel grants the growth, writes to its blocks and calls of
    [mm_free], the blocks never overlap and the allocator invariant is never
    lost.  A block counts with the bytes [mm_malloc] guarantees: at least 24,
    and [n], or [n - 8] for a tiny request whose chunk size is a multiple of
    16. *)
Theorem client_blocks_apart s u s1 c :
  startable s u → mm_init s = Ok 0 s1 → rtc client_step (Client s1 []) c →
  ForallOrdPairs apart (cblocks c) ∧ ∃ u', valid (heap_start s) (cst c) u'.
Proof.
  intros Hs Hrun Hsteps. destruct (mm_init_valid s u Hs) as (s1' & Hrun' & Hv & _).
  rewrite Hrun in Hrun'. injection Hrun' as <-.
  destruct (client_steps_ok (heap_start s) _ _ Hsteps) as (u' & Hv' & Hap & _).
  { exists u. split_and!; [done|constructor|]. intros p len Hin. by apply elem_of_nil in Hin. }
  eauto.
Qed.

(** The unrolled halving loop computes the binary logarithm, rounded up and
    rounded down, of every positive 64-bit value. *)
Theorem log2_correct x :
  0 < x < 2 ^ 64 → log2_ceil64 x = Z.log2_up x ∧ log2_floor64 x = Z.log2 x.
Proof. intros Hx. split; [by apply log2_ceil64_pos|by apply log2_floor64_pos]. Qed.

(** [next_free i] is the one-bit mask of the first non-empty slot above
    [i], and zero when there is none. *)
Theorem next_free_correct i s :
  0 ≤ hbitmap (glob s) < 2 ^ 64 → 0 ≤ i < 63 →
  ∃ r, next_free i s = Ok r s ∧
    ((r = 0 ∧ ∀ j, i < j → Z.testbit (hbitmap (glob s)) j = false) ∨
     ∃ p, i < p < 64 ∧ r = 2 ^ p ∧ Z.testbit (hbitmap (glob s)) p = true ∧
       ∀ j, i < j < p → Z.testbit (hbitmap (glob s)) j = false).
Proof.
  intros Hb Hi. unfold next_free, shl64, getg, mbind, M_bind.
  rewrite (wrap_small 64 (i + 1)) by lia. destruct (Z.ltb_spec (i + 1) 64); [|lia].
  eexists. split; [reflexivity|].
  destruct (next_free_bits (hbitmap (glob s)) i Hb Hi) as [[-> Hn]|(p & Hp & Ht & Hl & _ & Hm)].
  - left. by rewrite Z.land_0_l.
  - right. exists p. by rewrite Hm.
Qed.

(** [get_index] maps every chunk size to one of the slots 2..63, larger
    sizes never to a smaller slot; so any chunk of a higher slot than that of
    the request is large enough for it. *)
Theorem get_index_correct a b s :
  32 < a ≤ 65536 → 32 < b ≤ 65536 →
  ∃ i j, get_index a s = Ok i s ∧ get_index b s = Ok j s ∧ 2 ≤ i < 64 ∧ 2 ≤ j < 64 ∧
    (a ≤ b → i ≤ j) ∧ (i < j → a < b).
Proof.
  intros Ha Hb. exists (size_class a), (size_class b).
  rewrite !get_index_class by lia. split_and!; try done; try (apply size_class_range; lia).
  - intros Hab. apply size_class_mono. lia.
  - apply size_class_lt; lia.
Qed.

(** C34: when the kernel refuses to extend the heap, [malloc_brk] reports the
    failure with a null pointer, but it has moved [base] past the break before
    asking, so the allocator invariant is lost for every later request. *)
Theorem malloc_brk_refused lo s u need :
  valid lo s u → 32 < need ≤ 61440 → need `mod` 8 = 0 →
  sbrk_grants (hbrk (glob s)) (roundup need) = false →
  ∃ s', malloc_brk need s = Ok 0 s' ∧ hbrk (glob s') = hbrk (glob s) ∧
    hbase (glob s') = hbase (glob s) + roundup need ∧ ∀ u', ¬ valid lo s' u'.
Proof.
  intros Hv Hn Hn8 Hg. destruct (malloc_brk_refused_run lo s u need Hv Hn Hn8 Hg) as (s' & Hrun & Hs').
  exists s'. rewrite Hs'. split_and!; [done..|].
  intros u' (h & _ & _ & Hinv & _). apply umm_inv_brk in Hinv. rewrite Hs' in Hinv. simpl in Hinv.
  destruct Hv as (h0 & _ & _ & Hinv0 & _). apply umm_inv_brk in Hinv0.
  pose proof (roundup_bounds need Hn). lia.
Qed.

(** C36: the rounding of the request size is done in 32 bits: a request within
    7 bytes of 4 GB wraps and is served exactly as a request of no bytes, with
    the smallest block there is. *)
Theorem mm_malloc_wraps n s :
  2 ^ 32 - 7 ≤ n < 2 ^ 32 → mm_malloc n s = mm_malloc 0 s ∧ mm_malloc 0 s = malloc_fast s.
Proof.
  intros Hn. split; [|done].
  unfold mm_malloc, ALIGN, ALIGNMENT, wrap. replace (n + (8 - 1)) with (n + 7 - 2 ^ 32 + 1 * 2 ^ 32) by lia.
  rewrite Z.mod_add by lia. rewrite (Z.mod_small (n + 7 - 2 ^ 32)) by lia.
  assert (n + 7 - 2 ^ 32 = 0 ∨ n + 7 - 2 ^ 32 = 1 ∨ n + 7 - 2 ^ 32 = 2 ∨ n + 7 - 2 ^ 32 = 3 ∨
    n + 7 - 2 ^ 32 = 4 ∨ n + 7 - 2 ^ 32 = 5 ∨ n + 7 - 2 ^ 32 = 6) as Hc by lia.
  by repeat destruct Hc as [->|Hc]; [..|rewrite Hc].
Qed.

(** C35: a tiny slot holds chunks of two sizes (the code takes them to be of
    fixed size), and [tiny_allocate] does not look at the size.  In every valid
    state in which the first chunk of the slot of a tiny request is smaller than
    the chunk the request needs, it is 8 bytes smaller, and [mm_malloc] hands it
    out: the caller gets fewer bytes than it asked for, and the bytes it asked
    for include the header of the next chunk, which the allocator still uses. *)
Theorem mm_malloc_tiny_short lo s u n c k :
  valid lo s u → 24 < n ≤ 504 → load 8 (node_next_at (slot_at ((needed n - 1) / 16))) s = Ok c s →
  c ≠ slot_at ((needed n - 1) / 16) → pack_size (list_pack c) s = Ok k s → k < needed n →
  k = needed n - 8 ∧ ∃ s' blk, mm_malloc n s = Ok c s' ∧ is_block c (k - 8) blk ∧ blk ##ₘ u ∧ valid lo s' (blk ∪ u) ∧
    k - 8 < n ∧ ∀ a, c + (k - 8) ≤ a < c + k → is_Some (mem s' !! a) ∧ (blk ∪ u) !! a = None.
Proof.
  intros Hv Hn Hc Hne Hk Hlt. destruct (tiny_short_run lo s u n c k Hv Hn Hc Hne Hk Hlt) as (Hk' & s' & blk & Hr & Hb & Hd & Hv' & Ha).
  split; [done|]. exists s', blk. split_and!; try done. unfold needed in Hk'. dlia.
Qed.

(** C37: requests the 64 slots have no room for.  A request whose chunk size is
    above 61440 has the last slot as its size class; when that slot is empty,
    looking for a larger one shifts a 64-bit value by 64, which C leaves
    undefined.  From 65529 bytes on the size class lies outside the array. *)
Theorem mm_malloc_last_slot lo s u n :
  valid lo s u → 61432 < n ≤ 2 ^ 32 - 16 →
  (n ≤ 65528 → Z.testbit (hbitmap (glob s)) 63 = false → mm_malloc n s = Err (Undef "shift count")) ∧
  (65528 < n → mm_malloc n s = Err (Undef "slots index")).
Proof.
  intros Hv Hn. split.
  - intros Hle Hbit. apply (last_slot_run lo s u n Hv); [lia|done].
  - intros Hgt. apply no_slot_run. lia.
Qed.
End theorems.

(** ** A concrete machine

    The globals at 4096, a page-aligned break at 8192, 128 MB of memory. *)
Module Machine0.
#[export] Instance layout0 : Layout := {| slots_addr := 4096; full_addr := 5120 |}.
#[export] Instance kernel0 : Kernel := λ b n, b + n <=? 2 ^ 27.

Definition user0 : bytemap := seqmap 5136 (zeros 16).
Definition start0 : st heap :=
  mkst (seqmap 4096 (zeros 1024) ∪ seqmap 5120 (zeros 16) ∪ user0) (mkheap 0 0 8192).

Lemma start0_startable : startable start0 user0.
Proof.
  split; [reflexivity|]. split; [simpl; lia|]. split; [|split; [|split]].
  - split_and!; done.
  - split_and!; simpl; unfold MAXVA; lia.
  - intros a. unfold start0, user0. cbn [mem glob]. rewrite !dom_union, !elem_of_union, !elem_of_dom.
    intros [[[x Hx]|[x Hx]]|[x Hx]]; apply seqmap_lookup_inv in Hx as [Hx _];
      unfold zeros in Hx; rewrite length_replicate in Hx; cbn [brk heap_brk hbrk]; lia.
  - exists (seqmap 4096 (zeros 1024)), (seqmap 5120 (zeros 16)).
    split; [by apply (is_block_replicate 4096 0 1024)|]. split; [by apply (is_block_replicate 5120 0 16)|].
    split; [apply seqmap_disjoint; by left|]. split; [|reflexivity].
    apply map_disjoint_union_l. split; apply seqmap_disjoint; by left.
Qed.

(** The state after [mm_init]. *)
Lemma init0 :
  ∃ s, mm_init start0 = Ok 0 s ∧ valid 8192 s user0 ∧ hbase (glob s) = 12288 ∧ hbrk (glob s) = 12288.
Proof.
  destruct (mm_init_valid start0 user0 start0_startable) as (s & Hrun & Hv & Hb).
  exists s. pose proof Hv as (h & _ & _ & Hinv & _). apply umm_inv_brk in Hinv.
  change (first_top (hbrk (glob start0))) with 12288 in Hb. split_and!; [done..|lia].
Qed.

Lemma grow0 g n : hbrk g = 12288 → growth n ≤ 65536 → can_grow g (growth n).
Proof.
  intros Hb Hn. unfold can_grow, sbrk_grants, kernel0, MAXVA. rewrite Hb, Z.leb_le. lia.
Qed.

Lemma mm_malloc_correct_witness :
  ∃ s, valid 8192 s user0 ∧ can_grow (glob s) (growth 40) ∧
    ∃ p s' len blk, mm_malloc 40 s = Ok p s' ∧ is_block p len blk ∧ enough 40 len ∧
      p `mod` 8 = 0 ∧ 0 < p ∧ blk ##ₘ user0 ∧ valid 8192 s' (blk ∪ user0).
Proof.
  destruct init0 as (s & _ & Hv & _ & Hb).
  assert (can_grow (glob s) (growth 40)) as Hg by (by apply grow0).
  exists s. split; [done|]. split; [done|]. apply mm_malloc_correct; [done|lia|done].
Defined.

Lemma mm_init_correct_witness :
  startable start0 user0 ∧
  ∃ s', mm_init start0 = Ok 0 s' ∧ valid (heap_start start0) s' user0 ∧
    hbase (glob s') `mod` 4096 = 0 ∧ hbrk (glob s') = hbase (glob s').
Proof.
  split; [apply start0_startable|]. apply mm_init_correct. apply start0_startable.
Defined.

(** A run without its final state. *)
Definition value {S A} (o : outcome S A) : option A :=
  match o with Ok a _ => Some a | Err _ => None end.

Lemma run_brk0 : value ((mm_init;; mm_malloc 40;; getg hbrk) start0) = Some 12288.
Proof. vm_compute. reflexivity. Qed.

(** A client that makes two requests. *)
Lemma two_mallocs :
  ∃ s1 c, mm_init start0 = Ok 0 s1 ∧ rtc client_step (Client s1 []) c ∧
    map snd (cblocks c) = [guaranteed 100; guaranteed 40].
Proof.
  destruct init0 as (s1 & Hrun & Hv & _ & Hb).
  pose proof (grow0 (glob s1) 40 Hb ltac:(done)) as Hg.
  destruct (mm_malloc_valid 8192 s1 user0 40 Hv ltac:(lia) Hg)
    as (p & s2 & _ & blk & Hrun2 & _ & _ & _ & _ & _ & Hv2).
  assert (hbrk (glob s2) = 12288) as Hb2.
  { pose proof run_brk0 as Hr. rewrite (bind_ok _ _ _ _ _ Hrun), (bind_ok _ _ _ _ _ Hrun2) in Hr.
    simpl in Hr. congruence. }
  pose proof (grow0 (glob s2) 100 Hb2 ltac:(done)) as Hg2.
  destruct (mm_malloc_valid 8192 s2 (blk ∪ user0) 100 Hv2 ltac:(lia) Hg2)
    as (q & s3 & _ & _ & Hrun3 & _).
  exists s1, (Client s3 [(q, guaranteed 100); (p, guaranteed 40)]).
  split; [exact Hrun|]. split; [|reflexivity]. clear Hrun.
  eapply rtc_l; [apply (do_malloc (Client s1 []) 40 p s2 ltac:(lia) Hg Hrun2)|].
  apply rtc_once. apply (do_malloc (Client s2 [(p, guaranteed 40)]) 100 q s3 ltac:(lia) Hg2 Hrun3).
Qed.

Lemma client_blocks_apart_witness :
  ∃ c, length (cblocks c) = 2%nat ∧ ForallOrdPairs apart (cblocks c) ∧
    ∃ u', valid (heap_start start0) (cst c) u'.
Proof.
  destruct two_mallocs as (s1 & c & Hrun & Hsteps & Hl). exists c. split.
  - rewrite <- (length_map snd), Hl. reflexivity.
  - exact (client_blocks_apart start0 user0 s1 c start0_startable Hrun Hsteps).
Defined.

Lemma log2_correct_witness : log2_ceil64 65 = Z.log2_up 65 ∧ log2_floor64 65 = Z.log2 65.
Proof. apply log2_correct. lia. Defined.

Lemma next_free_correct_witness :
  let s := mkst ∅ (mkheap 0 40 0) in
  ∃ r, next_free 3 s = Ok r s ∧
    ((r = 0 ∧ ∀ j, 3 < j → Z.testbit 40 j = false) ∨
     ∃ p, 3 < p < 64 ∧ r = 2 ^ p ∧ Z.testbit 40 p = true ∧
       ∀ j, 3 < j < p → Z.testbit 40 j = false).
Proof. intros s. apply (next_free_correct 3 s); simpl; lia. Defined.

Lemma get_index_correct_witness :
  let s := mkst ∅ (mkheap 0 0 0) in
  ∃ i j, get_index 640 s = Ok i s ∧ get_index 641 s = Ok j s ∧ 2 ≤ i < 64 ∧ 2 ≤ j < 64 ∧
    (640 ≤ 641 → i ≤ j) ∧ (i < j → 640 < 641).
Proof. intros s. apply (get_index_correct 640 641 s); lia. Defined.

(** A kernel that grants the two calls of [mm_init] only. *)
Definition stingy : Kernel := λ b n, b <? 12288.

Lemma malloc_brk_refused_witness :
  ∃ s, @valid layout0 8192 s user0 ∧
    ∃ s', @malloc_brk layout0 stingy 9000 s = Ok 0 s' ∧ hbrk (glob s') = 12288 ∧
      hbase (glob s') = 12288 + 12288 ∧ ∀ u', ¬ valid 8192 s' u'.
Proof.
  destruct init0 as (s & _ & Hv & Hbase & Hb). exists s. split; [done|].
  destruct (@malloc_brk_refused layout0 stingy 8192 s user0 9000) as (s' & H1 & H2 & H3 & H4);
    [done|lia|done|by rewrite Hb|].
  exists s'. rewrite Hbase in H3. rewrite Hb in H2. done.
Defined.

Lemma mm_malloc_wraps_witness :
  mm_malloc 4294967295 start0 = mm_malloc 0 start0 ∧ mm_malloc 0 start0 = malloc_fast start0.
Proof. apply mm_malloc_wraps. lia. Defined.

(** Reading leaves the state alone. *)
Lemma load_value (n : nat) a (s : st heap) v : value (load n a s) = Some v → load n a s = Ok v s.
Proof. unfold load. destruct (loadbytes n (mem s) a); simpl; [by intros [= ->]|done]. Qed.

Lemma pack_size_value c (s : st heap) k : value (pack_size c s) = Some k → pack_size c s = Ok k s.
Proof.
  unfold pack_size, mbind, M_bind. destruct (load 4 (pack_size_at c) s) as [v s'|] eqn:Hl; [|done].
  assert (load 4 (pack_size_at c) s = Ok v s) as Hl' by (apply load_value; by rewrite Hl).
  rewrite Hl in Hl'. injection Hl' as ->. simpl. by intros [= ->].
Qed.

(** Requests of 3304 and 264 bytes leave a chunk of 504 bytes in slot 31. *)
Lemma short_state :
  ∃ s u, valid 8192 s u ∧ load 8 (node_next_at (slot_at 31)) s = Ok 11784 s ∧ pack_size (list_pack 11784) s = Ok 504 s.
Proof.
  destruct init0 as (s1 & Hrun & Hv & _ & Hb).
  destruct (mm_malloc_valid 8192 s1 user0 3304 Hv ltac:(lia) (grow0 (glob s1) 3304 Hb ltac:(done)))
    as (p & s2 & _ & blk & Hrun2 & _ & _ & _ & _ & _ & Hv2).
  assert (hbrk (glob s2) = 12288) as Hb2.
  { assert (value ((mm_init;; mm_malloc 3304;; getg hbrk) start0) = Some 12288) as Hr by (vm_compute; reflexivity).
    rewrite (bind_ok _ _ _ _ _ Hrun), (bind_ok _ _ _ _ _ Hrun2) in Hr. simpl in Hr. congruence. }
  destruct (mm_malloc_valid 8192 s2 (blk ∪ user0) 264 Hv2 ltac:(lia) (grow0 (glob s2) 264 Hb2 ltac:(done)))
    as (q & s3 & _ & blk' & Hrun3 & _ & _ & _ & _ & _ & Hv3).
  exists s3, (blk' ∪ (blk ∪ user0)). split; [done|]. split.
  - apply load_value. assert (value ((mm_init;; mm_malloc 3304;; mm_malloc 264;; load 8 (node_next_at (slot_at 31))) start0) = Some 11784) as Hr
      by (vm_compute; reflexivity).
    by rewrite (bind_ok _ _ _ _ _ Hrun), (bind_ok _ _ _ _ _ Hrun2), (bind_ok _ _ _ _ _ Hrun3) in Hr.
  - apply pack_size_value. assert (value ((mm_init;; mm_malloc 3304;; mm_malloc 264;; pack_size (list_pack 11784)) start0) = Some 504) as Hr
      by (vm_compute; reflexivity).
    by rewrite (bind_ok _ _ _ _ _ Hrun), (bind_ok _ _ _ _ _ Hrun2), (bind_ok _ _ _ _ _ Hrun3) in Hr.
Qed.

(** A request of 504 bytes then gets 496. *)
Lemma mm_malloc_tiny_short_witness :
  ∃ s u s' blk, valid 8192 s u ∧ mm_malloc 504 s = Ok 11784 s' ∧ is_block 11784 496 blk ∧ valid 8192 s' (blk ∪ u) ∧
    is_Some (mem s' !! 12280) ∧ (blk ∪ u) !! 12280 = None.
Proof.
  destruct short_state as (s & u & Hv & Hc & Hk).
  destruct (mm_malloc_tiny_short 8192 s u 504 11784 504 Hv ltac:(lia) Hc ltac:(done) Hk ltac:(done))
    as (_ & s' & blk & Hrun & Hblk & _ & Hv' & _ & Hh).
  exists s, u, s', blk. split; [exact Hv|]. split; [exact Hrun|]. split; [exact Hblk|]. split; [exact Hv'|]. apply Hh. lia.
Defined.

Lemma mm_malloc_last_slot_witness :
  ∃ s, mm_init start0 = Ok 0 s ∧ mm_malloc 61433 s = Err (Undef "shift count") ∧ mm_malloc 65529 s = Err (Undef "slots index").
Proof.
  destruct init0 as (s & Hrun & Hv & _). exists s. split; [exact Hrun|].
  assert (Z.testbit (hbitmap (glob s)) 63 = false) as Hbit.
  { assert (value ((mm_init;; getg hbitmap) start0) = Some (2 ^ 47)) as Hr by (vm_compute; reflexivity).
    rewrite (bind_ok _ _ _ _ _ Hrun) in Hr. simpl in Hr. injection Hr as ->. reflexivity. }
  split; [|apply (mm_malloc_last_slot 8192 s user0 65529 Hv); lia].
  apply (mm_malloc_last_slot 8192 s user0 61433 Hv); [lia|done|done].
Defined.
End Machine0.
